(* ===== verification/_CoqProject ===== *)
-Q . S2P
Prelude.v
Strings.v
External.v
Ordering.v
Float64.v
Utf8.v
Write.v
Samples.v
Lines.v
HeadingKey.v
LineHash.v
Sections.v
Apply.v
Insertion.v
Changes.v
Append.v
Dates.v
Calendar.v
Paths.v
Envelope.v
Inbox.v
Reminder.v
Tasks.v
Mirror.v
Rules.v
NoteIndex.v
NoteIndexTheory.v
Rpc.v
RpcTheory.v
Http.v
HttpTheory.v
AgentMirror.v
AgentMirrorTheory.v
VaultFs.v
Notes.v
TodayNote.v
NotesTheory.v
Memory.v
Desk.v
Server.v
Listener.v
Lifecycle.v
RuleTheory.v
DeskTheory.v
ServerTheory.v
LifecycleTheory.v
Remember.v
Clock.v
PlanTime.v
MarkdownSyntax.v
MarkdownKeys.v
MarkdownBlocks.v
MarkdownFolds.v
DeskHeadings.v
EventMarker.v
DayPlan.v
DayPlanTheory.v
EventSync.v
EventSyncTheory.v
ReminderIndex.v
ReminderIndexTheory.v
ReminderApply.v
ReminderDay.v
ReminderDayTheory.v
Backlog.v
BacklogTheory.v
BacklogRename.v
VaultSync.v
VaultSyncTheory.v
Outbox.v
OutboxTheory.v
Client.v
ClientTheory.v
Delivery.v
ServiceSamples.v
ServiceWitnesses.v
BridgeWitnesses.v
ClientWitnesses.v
DeskWitnesses.v
Findings.v
