(* ===== verification/Prelude.v ===== *)
(** * Thock: a vault of notes, its sync and its agents, verified

    Thock is a notes application. A desk (an editor on a computer) holds a
    vault of Markdown notes; a phone keeps an encrypted copy and queues edits;
    agents on other machines read the vault and leave facts in it. This
    development models what decides what may happen to the notes: the crate both
    desk and phone run ([src/crates/thock-sync-core/]), the bridge to the agents
    ([src/crates/thock-bridge/]), the desk's own services and the text
    operations behind its panels ([src/crates/thock/]), and the logical clocks of
    the editor below ([src/crates/clock/]).

    ** How the parts interact

    The phone seals a write document into an envelope. A pass of the desk's sync
    worker ([VaultSync]) fetches the queue, opens each envelope, reads and
    validates the write, checks its path and applies it to the bytes of the note;
    then it uploads what changed and acknowledges the writes. Application splits
    a note into lines with their endings, scans it for fences, front matter and
    headings, finds the heading and the line the write names by key and by hash,
    edits the lines and joins them ([Lines], [Sections], [LineHash], [Apply]).
    Delivery may repeat, so application first asks whether the effect is there.

    An agent's client ([Client]) answers from the desk over HTTP and JSON-RPC
    ([Http], [Rpc]), from its cache, or by queueing the call in the outbox
    ([Outbox]). The desk's server ([Listener], [Server], [Lifecycle]) pairs and
    authenticates, and hands a call to the six tools over the vault ([Desk]),
    which go through the rules for facts and paths ([Rules]), the keyword index
    ([NoteIndex]), the record of calls, and the write path of the sync core.

    On the desk the notes of the days are made from templates and tidied
    ([Notes], [TodayNote]); a daily note is read into a plan ([DayPlan]); calendar
    events, and the reminders due on the day, are kept in step with it
    ([EventSync], [ReminderDay]); reminders of all notes are listed in one index
    ([ReminderIndex]); the backlog is edited in place ([Backlog]).

    ** The files, in order, and the code they model

    Base.
    - [Prelude]: notation, tactics, lemmas on lists, [result]. [Strings],
      [Utf8], [Ordering], [Float64]: what the code uses of Rust's [char], [str],
      [String::from_utf8], [Ordering], [sort_by], [BTreeMap] and [f64].
      [External]: classes for what the source calls and does not define, each
      with a class of the documented laws the theorems use. [Samples],
      [Calendar], [ServiceSamples]: concrete instances, for witnesses only.

    The sync core, [thock-sync-core/].
    - [Write] ([write.rs]): [Heading], [Operation], [Write]; [validate],
      [parse_write].
    - [Lines], [HeadingKey], [LineHash], [Sections] ([markdown.rs]). A method
      [Document::f] is [Document_f] or [f]; a [&mut] argument is returned.
    - [Apply] ([apply.rs]): [effect_present], one definition per operation,
      [apply]. Theory: [Insertion], [Changes], [Append].
    - [Dates] ([dates.rs]), [Paths] ([thock_sync_core.rs]), [Envelope]
      ([envelope.rs]), [Inbox] ([inbox.rs]).
    - [Reminder], [Tasks], [Mirror] ([reminder.rs]): tokens, ids and edits of
      home lines; lines that differ in their box; display text and mirrors.

    The bridge, [thock-bridge/], and the desk behind it.
    - [Rules], [RuleTheory], [Remember] ([rules.rs], identity of
      [thock_bridge.rs]); [NoteIndex], [NoteIndexTheory] ([search.rs]); [Rpc],
      [RpcTheory] ([rpc.rs]); [Http], [HttpTheory] ([http.rs]); [AgentMirror],
      [AgentMirrorTheory] ([mirror.rs], the mirror pass of [main.rs]); [Outbox],
      [OutboxTheory], [Client], [ClientTheory] ([offline.rs], the proxy of
      [main.rs]).
    - [Desk], [DeskTheory], [Server], [ServerTheory], [Listener], [Lifecycle],
      [LifecycleTheory] ([thock/src/bridge_service.rs]). [Rpc.ToolHost] is the
      interface between protocol and desk: [dispatch] is proved against the
      class, [Desk] gives the instance. [Delivery] puts client and desk together
      over the bytes of a connection that may break off anywhere.

    The desk, [thock/src/].
    - [VaultFs], [Notes], [TodayNote], [NotesTheory] ([notes.rs],
      [today_note.rs], paths of [vault.rs]); [Memory] ([memory.rs]).
    - [MarkdownSyntax] ([markdown_syntax.rs]) with [MarkdownKeys],
      [MarkdownBlocks], [MarkdownFolds]; [PlanTime], [DeskHeadings], [DayPlan],
      [DayPlanTheory] ([day_plan.rs]).
    - [EventMarker], [EventSync], [EventSyncTheory] ([calendar.rs]).
    - [ReminderIndex], [ReminderIndexTheory], [ReminderApply]
      ([reminder_index.rs], settings of [reminders.rs]); [ReminderDay],
      [ReminderDayTheory] ([reminder_day.rs]).
    - [Backlog], [BacklogTheory], [BacklogRename] ([backlog.rs]).
    - [VaultSync], [VaultSyncTheory] ([vault_sync.rs], [move_note] of
      [inbox_service.rs]).

    [Clock] is [clock/src/clock.rs]. [ServiceWitnesses], [BridgeWitnesses],
    [ClientWitnesses] and [DeskWitnesses] apply the properties at concrete inputs;
    [Findings] holds inputs on which the code departs from its documents or from
    what it means to do.

    A state the code mutates is a record ([Desk], [Server], [DaySync],
    [VaultSync], ...), a handler a function from it to it and to what it answers;
    services and interleavings are step relations ([machine_step], [day_step],
    [sync_step], ...) over those handlers, and the properties are by induction on
    their runs. A component another relies on is a class ([ToolHost],
    [SyncServer], ...), or a parameter with named laws.

    ** What the theorems show

    - Notes are safe. Split and join are inverse; creates, appends and kept
      conflicts keep the whole note; a move neither copies nor drops a line; an
      append delivered twice is an append. Agents only add; the round that tidies
      old daily notes, the reminders' changes, the backlog's moves, the
      calendar's and the day's reconcilers lose no line of the person's.
    - Writes happen once and are not lost: a call is applied once, also after a
      restart and over a connection that breaks; the outbox and the client lose
      no call while no write to the outbox is broken off and no removal is
      refused its read ([Findings] shows what those faults cost); what the desk
      acknowledges of the phone's queue it handled; a change waits in the sync
      service until a pass that works on it goes through; no daily note is left
      waiting.
    - Copies agree: an index whose events have all been read is the index of the
      files; after a pass with catch-up the records are those of the vault's
      files, and what was sent opens to the bytes of the desk.
    - Boundaries hold: what an agent may read, mirror or write; who may talk to
      the desk, and that the unpaired and the disconnected change nothing;
      strangers are bounded; forbidden topics never get in; a write of the phone
      touches its own file.
    - Reminders are listed, linked once, removed only after their grace, and
      their ids are new; plans have room for their blocks; a renamed task is that
      task; the desk and the sync core agree on the key of a heading.
    - Services tell the truth: the bridge's state is what it serves; a worker
      that runs is known, and one that is known runs while the vault is there; what must come to pass does (serving,
      visiting the days, ending a batch or a run).
    - Formats read back: dates, dues, mirrors, plan times, triage entries,
      outbox and cache lines, HTTP heads, JSON-RPC, envelopes.

    ** Conventions, bounds and fuel

    A [&str] is the list of its characters (Unicode scalar values as numbers),
    and a position in it counts characters. The source slices at byte offsets,
    always at the edge of something it matched, where the two agree; where it
    counts bytes the model does ([utf8_len], [as_bytes]). Files of the vault's
    sync, bodies and sockets are lists of bytes. [usize] is [nat]; machine
    integers are [N] or [Z], with wrapping or saturation written out where it can
    happen (minutes of a plan, versions, chunk sizes, logical clocks). [Option] is
    [option], [Result] is [result] with the [?] operator written as a bind.

    Loops that are not structural take fuel. Loops over text have its length, or
    one more, and every turn consumes a character, a line or an entry. Loops over
    the environment give [None] when the fuel is out, and a theorem shows a fuel
    that is enough: a drain, the draws of new ids ([batch_ends]), the folders of a
    vault ([scan_finds_what_changed], as many as there are), the pages of the
    phone's queue ([queue_is_fetched_to_its_end], one more than the rows).

    Assumptions about the environment are classes and hypotheses of documented
    behaviour: the cipher opens what it sealed, digests have their length, JSON
    values read back, the calendar is chrono's, the server commits the version it
    answers, and one whose answer is lost may have been made too. Faults of the
    file system are the class [FsFaults], the values of [Outbox.Io], and results
    that are free in the step relations; a theorem that needs one not to happen
    says so. Requests are handled on the desk's foreground one at a time, and a
    worker's task is taken not to panic. Other programs and the person may change
    files between the steps of a job ([others], the steps of other writers).

    ** What is not modelled

    - The history of the vault. Restore points are asked for, as the code asks: a
      counter, no snapshot; whether and when one is taken is the history's.
    - External crates (JSON, TOML, cryptography, calendar, Unicode): classes.
    - Network and platform: the HTTP client of the phone's server (the class
      [SyncServer] stands for it and the server), calendar, mail and reading
      providers, keychain, notifications, QR codes; the timers and file events
      that only start modelled handlers; texts of errors and of toasts.
    - The commands of the bridge's client that print to a terminal or edit other
      programs' files; e-mail notes of [markdown_syntax.rs]; the reading of
      [config.toml].
    - User interface: the panels and views of [thock/src/], and start-up.
    - The editor Thock is built on (text, rope, sum tree, editor, languages,
      project, GPUI, settings, extensions): inherited code, of which only the
      logical clocks are modelled.
    - Outside the outbox a write that fails leaves the file as it was, or its
      first bytes where the code writes in place; a crash of the machine in between is not modelled. *)

From stdpp Require Export base tactics numbers list list_numbers option strings sorting sets.
From Stdlib Require Export Lia ZArith NArith.

(** ** Characters and text

    A Rust [char] is a Unicode scalar value, here a number; a [&str] or
    [String] is the list of its characters. *)
Abbreviation char := N (only parsing).
Abbreviation str := (list N).

Declare Scope rust_scope.
Delimit Scope rust_scope with rust.
Open Scope rust_scope.

(** [u "..."] is an ASCII string literal, [ch "x"] an ASCII character. *)
Fixpoint u (s : string) : str :=
  match s with
  | EmptyString => []
  | String a s' => Ascii.N_of_ascii a :: u s'
  end.

Definition ch (s : string) : char :=
  match s with
  | EmptyString => 0%N
  | String a _ => Ascii.N_of_ascii a
  end.

(** Boolean equality of any two values whose equality is decidable. *)
Notation "x == y" := (bool_decide (x = y)) (at level 70, no associativity) : rust_scope.
Notation "x != y" := (negb (bool_decide (x = y))) (at level 70, no associativity) : rust_scope.

(** [Option::is_some_and], [Option::is_some], [Option::is_none]. *)
Definition is_some_and {A} (f : A → bool) (o : option A) : bool :=
  match o with Some x => f x | None => false end.
Definition is_some {A} (o : option A) : bool := is_some_and (λ _, true) o.
Definition is_none {A} (o : option A) : bool := negb (is_some o).

(** ** Tactics *)

(** Turns the boolean tests of the source into propositions. *)
Ltac bool_to_prop :=
  repeat match goal with
  | H : (_ && _)%bool = true |- _ => apply andb_true_iff in H as [? ?]
  | H : (_ || _)%bool = false |- _ => apply orb_false_iff in H as [? ?]
  | H : negb _ = true |- _ => apply negb_true_iff in H
  | H : negb _ = false |- _ => apply negb_false_iff in H
  | H : bool_decide _ = true |- _ => apply bool_decide_eq_true in H
  | H : bool_decide _ = false |- _ => apply bool_decide_eq_false in H
  | H : (_ =? _)%N = true |- _ => apply N.eqb_eq in H
  | H : (_ =? _)%N = false |- _ => apply N.eqb_neq in H
  | H : (_ <=? _)%N = true |- _ => apply N.leb_le in H
  | H : (_ <=? _)%N = false |- _ => apply N.leb_gt in H
  | H : (_ <? _)%N = true |- _ => apply N.ltb_lt in H
  | H : (_ <? _)%N = false |- _ => apply N.ltb_ge in H
  | H : (_ =? _)%nat = true |- _ => apply Nat.eqb_eq in H
  | H : (_ =? _)%nat = false |- _ => apply Nat.eqb_neq in H
  | H : (_ <=? _)%nat = true |- _ => apply Nat.leb_le in H
  | H : (_ <=? _)%nat = false |- _ => apply Nat.leb_gt in H
  | H : (_ <? _)%nat = true |- _ => apply Nat.ltb_lt in H
  | H : (_ <? _)%nat = false |- _ => apply Nat.ltb_ge in H
  end.

(** Splits the innermost match of the goal or of a hypothesis. *)
Ltac split_match :=
  match goal with
  | |- context [match ?x with _ => _ end] =>
      lazymatch x with context [match _ with _ => _ end] => fail | _ => destruct x eqn:? end
  end.
Ltac split_match_in H :=
  match type of H with
  | context [match ?x with _ => _ end] =>
      lazymatch x with context [match _ with _ => _ end] => fail | _ => destruct x eqn:? end
  end.

(** Decides comparisons of character literals in the goal and in [H]. *)
Ltac decide_chars :=
  repeat match goal with
  | |- context [(ch ?a =? ch ?b)%N] =>
      let r := eval vm_compute in (ch a =? ch b)%N in change (ch a =? ch b)%N with r
  end; cbv beta iota.
Ltac decide_chars_in H :=
  repeat match type of H with
  | context [(ch ?a =? ch ?b)%N] =>
      let r := eval vm_compute in (ch a =? ch b)%N in change (ch a =? ch b)%N with r in H
  end; cbv beta iota in H.

(** Decides a closed proposition by computing. *)
Ltac decide_closed := apply (bool_decide_unpack _); vm_compute; exact I.

(** Lengths of lists, for [len_lia]: arithmetic on the lengths of the pieces. *)
Create Rewrite HintDb lengths.
#[export] Hint Rewrite @length_app @length_take @length_drop @length_map @length_replicate
  @length_reverse @length_insert @length_alter @length_seq @length_zip : lengths.
Ltac len_lia := autorewrite with lengths in *; simpl in *; lia.

(** ** Lists *)

Section lists.
Context {A : Type}.
Implicit Types l k : list A.

Lemma take_drop_lookup l i x :
  l !! i = Some x → l = take i l ++ x :: drop (S i) l.
Proof. intros H. by rewrite (take_drop_middle _ _ _ H). Qed.

Lemma forallb_Forall (f : A → bool) l : forallb f l = true ↔ Forall (λ x, f x = true) l.
Proof. rewrite forallb_forall, Forall_forall. by setoid_rewrite list_elem_of_In. Qed.

Lemma existsb_Exists (f : A → bool) l : existsb f l = true ↔ Exists (λ x, f x = true) l.
Proof. rewrite existsb_exists, Exists_exists. by setoid_rewrite list_elem_of_In. Qed.

Lemma existsb_false (f : A → bool) l : existsb f l = false ↔ Forall (λ x, f x = false) l.
Proof.
  rewrite <- not_true_iff_false, existsb_Exists, <- Forall_Exists_neg.
  apply Forall_iff; intros x; apply not_true_iff_false.
Qed.

Lemma filter_all (P : A → Prop) `{∀ x, Decision (P x)} l : (∀ x, x ∈ l → P x) → filter P l = l.
Proof.
  induction l as [|x l IH]; [done|]. intros HP. rewrite filter_cons_True by (apply HP; by left).
  f_equal. apply IH. intros y ?. apply HP. by right.
Qed.

Lemma filter_none (P : A → Prop) `{∀ x, Decision (P x)} l :
  (∀ x, x ∈ l → ¬ P x) → filter P l = [].
Proof.
  induction l as [|x l IH]; [done|]. intros HP. rewrite filter_cons_False by (apply HP; by left).
  apply IH. intros y ?. apply HP. by right.
Qed.

Lemma last_drop_Some i l x : last (drop i l) = Some x → last l = Some x.
Proof. intros H. rewrite <- (take_drop i l), last_app, H. done. Qed.
End lists.

(** [Iterator::find_map] *)
Fixpoint find_map {A B} (f : A → option B) (l : list A) : option B :=
  match l with
  | [] => None
  | x :: l => match f x with Some y => Some y | None => find_map f l end
  end.

Lemma find_map_Some {A B} (f : A → option B) l y :
  find_map f l = Some y → ∃ x, x ∈ l ∧ f x = Some y.
Proof.
  induction l as [|x l IH]; simpl; [done|]. destruct (f x) eqn:E.
  - intros [= <-]. exists x. split; [by left|done].
  - intros (z & Hz & Hf)%IH. exists z. split; [by right|done].
Qed.

Lemma find_map_is_Some {A B} (f : A → option B) l x :
  x ∈ l → is_Some (f x) → is_Some (find_map f l).
Proof.
  induction l as [|z l IH]; [by intros ?%not_elem_of_nil|]. simpl.
  destruct (f z) eqn:E; [eauto|]. intros [->|?]%elem_of_cons Hf; [rewrite E in Hf; by destruct Hf|eauto].
Qed.

(** Components of equal triples, the terms kept as they are. *)
Lemma triple_eq {A B C} (a a' : A) (b b' : B) (c c' : C) :
  (a, b, c) = (a', b', c') → a = a' ∧ b = b' ∧ c = c'.
Proof. by intros [=]. Qed.

(** ** Results *)

(** [Result<A, E>]. *)
Inductive result (A E : Type) : Type :=
  | Ok (a : A)
  | Err (e : E).
Arguments Ok {A E} _.
Arguments Err {A E} _.

Definition result_bind {A B E} (r : result A E) (f : A → result B E) : result B E :=
  match r with Ok a => f a | Err e => Err e end.

(** [x ←! r ; k]: the [?] operator on a [Result]. *)
Notation "x ←! r ; k" := (result_bind r (λ x, k))
  (at level 20, r at level 100, k at level 200, right associativity) : rust_scope.

(** [if cond { return Err(e) }], then the rest. *)
Definition err_if {A E} (cond : bool) (e : E) (k : result A E) : result A E :=
  if cond then Err e else k.

Lemma err_if_Ok {A E} (cond : bool) (e : E) (k : result A E) (a : A) :
  err_if cond e k = Ok a ↔ cond = false ∧ k = Ok a.
Proof. destruct cond; simpl; naive_solver. Qed.
