(* ===== verification/Strings.v ===== *)
(** * Text as the Rust standard library handles it

    The [char] and [&str] operations the crate calls, on the list of a text's
    characters. An index is a character index: every byte offset the source
    takes comes from one of these operations (it lies on a character
    boundary), so cutting at the corresponding character index gives the same
    text. Where a length in bytes matters it is [utf8_len]. *)

From S2P Require Import Prelude.

(** ** Characters *)

(** [char::is_whitespace]: the Unicode [White_Space] property. *)
Definition is_whitespace (c : char) : bool :=
  ((9 <=? c) && (c <=? 13) || (c =? 32) || (c =? 133) || (c =? 160) || (c =? 0x1680)
   || ((0x2000 <=? c) && (c <=? 0x200A)) || (c =? 0x2028) || (c =? 0x2029)
   || (c =? 0x202F) || (c =? 0x205F) || (c =? 0x3000))%N.

(** [char::is_control]: the general category [Cc]. *)
Definition is_control (c : char) : bool := ((c <? 32) || ((127 <=? c) && (c <? 160)))%N.

Definition is_ascii_digit (c : char) : bool := ((48 <=? c) && (c <=? 57))%N.

Definition is_ascii_uppercase (c : char) : bool := ((65 <=? c) && (c <=? 90))%N.
Definition is_ascii_lowercase (c : char) : bool := ((97 <=? c) && (c <=? 122))%N.
Definition is_ascii_alphanumeric (c : char) : bool :=
  is_ascii_digit c || is_ascii_uppercase c || is_ascii_lowercase c.
Definition is_ascii_hexdigit (c : char) : bool :=
  (is_ascii_digit c || ((65 <=? c) && (c <=? 70)) || ((97 <=? c) && (c <=? 102)))%N.

(** [u8::to_ascii_lowercase], and [str::eq_ignore_ascii_case] with it. *)
Definition ascii_lower (c : char) : char :=
  (if (65 <=? c) && (c <=? 90) then c + 32 else c)%N.
Definition eq_ignore_ascii_case (a b : str) : bool :=
  map ascii_lower a == map ascii_lower b.

(** ** UTF-8 *)

Definition utf8_char (c : char) : list N :=
  (if c <? 0x80 then [c]
   else if c <? 0x800 then [0xC0 + c / 64; 0x80 + c mod 64]
   else if c <? 0x10000 then [0xE0 + c / 4096; 0x80 + (c / 64) mod 64; 0x80 + c mod 64]
   else [0xF0 + c / 262144; 0x80 + (c / 4096) mod 64; 0x80 + (c / 64) mod 64; 0x80 + c mod 64])%N.

(** [str::as_bytes] and [str::len]. *)
Definition as_bytes (s : str) : list N := flat_map utf8_char s.
Definition utf8_len (s : str) : nat := length (as_bytes s).

(** ** Prefixes and suffixes *)

Fixpoint starts_with (p s : str) : bool :=
  match p, s with
  | [], _ => true
  | _, [] => false
  | a :: p', b :: s' => (a =? b)%N && starts_with p' s'
  end.
Definition ends_with (p s : str) : bool := starts_with (rev p) (rev s).

Definition strip_prefix (p s : str) : option str :=
  if starts_with p s then Some (drop (length p) s) else None.
Definition strip_suffix (p s : str) : option str :=
  if ends_with p s then Some (take (length s - length p) s) else None.

(** ** Searching *)

Fixpoint find_sub (p s : str) : option nat :=
  if starts_with p s then Some 0
  else match s with [] => None | _ :: s' => S <$> find_sub p s' end.

Fixpoint rfind_sub (p s : str) : option nat :=
  match match s with [] => None | _ :: s' => rfind_sub p s' end with
  | Some i => Some (S i)
  | None => if starts_with p s then Some 0 else None
  end.

Definition contains (p s : str) : bool := is_some (find_sub p s).

(** [str::split_once] and [str::rsplit_once]. *)
Definition split_once (p s : str) : option (str * str) :=
  i ← find_sub p s; Some (take i s, drop (i + length p) s).
Definition rsplit_once (p s : str) : option (str * str) :=
  i ← rfind_sub p s; Some (take i s, drop (i + length p) s).

(** ** Trimming *)

Fixpoint trim_start_matches (f : char → bool) (s : str) : str :=
  match s with
  | [] => []
  | c :: s' => if f c then trim_start_matches f s' else s
  end.
Definition trim_end_matches (f : char → bool) (s : str) : str :=
  rev (trim_start_matches f (rev s)).
Definition trim_matches (f : char → bool) (s : str) : str :=
  trim_end_matches f (trim_start_matches f s).

(** [str::trim_start_matches] with a string: every copy of [p] at the start. *)
Fixpoint trim_start_str_go (fuel : nat) (p s : str) : str :=
  match fuel with
  | 0 => s
  | S fuel => match strip_prefix p s with Some r => trim_start_str_go fuel p r | None => s end
  end.
Definition trim_start_str (p s : str) : str := trim_start_str_go (length s) p s.

(** [trim_end_matches(p)] of a string pattern. *)
Definition trim_end_str (p s : str) : str := rev (trim_start_str (rev p) (rev s)).

Definition trim_start := trim_start_matches is_whitespace.
Definition trim_end := trim_end_matches is_whitespace.
Definition trim := trim_matches is_whitespace.

(** [s.chars().take_while(f).count()]. *)
Fixpoint count_while (f : char → bool) (s : str) : nat :=
  match s with
  | c :: s' => if f c then S (count_while f s') else 0
  | [] => 0
  end.

(** ** Splitting, joining, replacing *)

(** [str::split] on one character: always at least one piece. *)
Fixpoint split_char (sep : char) (s : str) : list str :=
  match s with
  | [] => [[]]
  | c :: s' =>
      if (c =? sep)%N then [] :: split_char sep s'
      else match split_char sep s' with
           | piece :: rest => (c :: piece) :: rest
           | [] => [[c]]
           end
  end.

(** [str::split] on the characters [f] takes: always at least one piece. *)
Fixpoint split_by (f : char → bool) (s : str) : list str :=
  match s with
  | [] => [[]]
  | c :: s' =>
      if f c then [] :: split_by f s'
      else match split_by f s' with
           | piece :: rest => (c :: piece) :: rest
           | [] => [[c]]
           end
  end.

(** [str::split_whitespace]: the maximal runs of non-whitespace. *)
Fixpoint split_whitespace (s : str) : list str :=
  match s with
  | [] => []
  | c :: s' =>
      if is_whitespace c then split_whitespace s'
      else match s' with
           | d :: _ =>
               if is_whitespace d then [c] :: split_whitespace s'
               else match split_whitespace s' with
                    | w :: ws => (c :: w) :: ws
                    | [] => [[c]]
                    end
           | [] => [[c]]
           end
  end.

(** [slice::join]. *)
Fixpoint join (sep : str) (l : list str) : str :=
  match l with
  | [] => []
  | [s] => s
  | s :: l' => s ++ sep ++ join sep l'
  end.

(** [str::replace] for a non-empty pattern: left to right, not overlapping;
    [skip] characters of the match found last are still to be passed over. *)
Fixpoint replace_go (p by_ : str) (skip : nat) (s : str) : str :=
  match s with
  | [] => []
  | c :: s' =>
      match skip with
      | S k => replace_go p by_ k s'
      | 0 => if starts_with p s then by_ ++ replace_go p by_ (length p - 1) s'
             else c :: replace_go p by_ 0 s'
      end
  end.
Definition replace (p by_ s : str) : str := replace_go p by_ 0 s.

(** [str::lines]: split at [\n], a [\r] before it dropped, no empty last line. *)
Definition str_lines (s : str) : list str :=
  let pieces := split_char 10%N s in
  let pieces := match last pieces with Some [] => take (length pieces - 1) pieces | _ => pieces end in
  let terminated := length (split_char 10%N s) - 1 in
  imap (λ i p, if (i <? terminated)%nat then default p (strip_suffix [13%N] p) else p) pieces.

(** ** Numbers as text *)

(** The value of a run of ASCII digits ([str::parse] of an unsigned type). *)
Definition digits_value (s : str) : N := fold_left (λ acc c, (10 * acc + (c - 48))%N) s 0%N.

Definition parse_digits (s : str) : option N :=
  match s with
  | [] => None
  | _ => if forallb is_ascii_digit s then Some (digits_value s) else None
  end.

(** [str::parse] of an unsigned type of largest value [max]. *)
Definition parse_unsigned (max : N) (s : str) : option N :=
  n ← parse_digits (default s (strip_prefix (u "+") s));
  if (n <=? max)%N then Some n else None.
Definition U16_MAX : N := 2 ^ 16 - 1.
Definition USIZE_MAX : N := 2 ^ 64 - 1.

(** [n.to_string()] and [format!("{:0w}", n)] for an unsigned [n]: at most
    [fuel] digits, least significant last. *)
Fixpoint digits_go (fuel : nat) (n : N) (acc : str) : str :=
  match fuel with
  | 0 => acc
  | S f =>
      let acc := ((48 + n mod 10) :: acc)%N in
      if (n <? 10)%N then acc else digits_go f (n / 10)%N acc
  end.
Definition show_N (n : N) : str := digits_go (S (N.size_nat n)) n [].
Definition pad_left (width : nat) (s : str) : str := replicate (width - length s) 48%N ++ s.
Definition show_padded (width : nat) (n : N) : str := pad_left width (show_N n).

(** [format!("{:0w}", z)] for a signed [z]: the sign counts in the width. *)
Definition show_Z_padded (width : nat) (z : Z) : str :=
  if (z <? 0)%Z then ch "-" :: show_padded (width - 1) (Z.abs_N z)
  else show_padded width (Z.to_N z).

(** ** Prefixes and suffixes: facts *)

Lemma starts_with_app p s : starts_with p s = true ↔ ∃ r, s = p ++ r.
Proof.
  revert s; induction p as [|a p IH]; intros s; [by split; eauto|].
  destruct s as [|b s]; simpl; [split; [done|by intros [r [=]]]|].
  rewrite andb_true_iff, N.eqb_eq, IH. naive_solver.
Qed.

Lemma starts_with_refl_app p r : starts_with p (p ++ r) = true.
Proof. apply starts_with_app; eauto. Qed.

Lemma starts_with_length p s : starts_with p s = true → length p ≤ length s.
Proof. intros [r ->]%starts_with_app. len_lia. Qed.

Lemma ends_with_app p s : ends_with p s = true ↔ ∃ r, s = r ++ p.
Proof.
  unfold ends_with. rewrite starts_with_app. split; intros [r Hr].
  - exists (rev r). apply (f_equal (@rev _)) in Hr.
    by rewrite rev_app_distr, !rev_involutive in Hr.
  - exists (rev r). by rewrite Hr, rev_app_distr.
Qed.

Lemma strip_prefix_Some p s r : strip_prefix p s = Some r ↔ s = p ++ r.
Proof.
  unfold strip_prefix. destruct (starts_with p s) eqn:E.
  - apply starts_with_app in E as [r' ->]. rewrite drop_app_length. naive_solver.
  - split; [done|]. intros ->. by rewrite starts_with_refl_app in E.
Qed.

Lemma strip_prefix_None p s : strip_prefix p s = None ↔ starts_with p s = false.
Proof. unfold strip_prefix. destruct (starts_with p s); naive_solver. Qed.

Lemma strip_prefix_app p r : strip_prefix p (p ++ r) = Some r.
Proof. by apply strip_prefix_Some. Qed.

Lemma strip_suffix_Some p s r : strip_suffix p s = Some r ↔ s = r ++ p.
Proof.
  unfold strip_suffix. destruct (ends_with p s) eqn:E.
  - apply ends_with_app in E as [r' ->].
    replace (length (r' ++ p) - length p) with (length r') by (len_lia).
    rewrite take_app_length. split; [by intros [= ->]|by intros ->%(inj (.++ p))].
  - split; [done|]. intros ->.
    assert (ends_with p (r ++ p) = true) by (apply ends_with_app; eauto). congruence.
Qed.

Lemma strip_suffix_None p s : strip_suffix p s = None ↔ ends_with p s = false.
Proof. unfold strip_suffix. destruct (ends_with p s); naive_solver. Qed.

Lemma strip_suffix_app p r : strip_suffix p (r ++ p) = Some r.
Proof. by apply strip_suffix_Some. Qed.

(** ** Searching: facts *)

Lemma find_sub_Some p s i :
  find_sub p s = Some i →
  starts_with p (drop i s) = true ∧ i + length p ≤ length s ∧
  s = take i s ++ p ++ drop (i + length p) s ∧
  ∀ j, j < i → starts_with p (drop j s) = false.
Proof.
  revert i; induction s as [|c s IH]; intros i; simpl.
  - destruct (starts_with p []) eqn:E; [|done]. intros [= <-].
    apply starts_with_app in E as E'. destruct E' as [r Hr].
    symmetry in Hr. apply app_nil in Hr as [-> ->]. simpl; split_and!; auto; lia.
  - destruct (starts_with p (c :: s)) eqn:E.
    + intros [= <-]. apply starts_with_length in E as Hl. simpl in *.
      split_and!; [done|lia| |lia].
      apply starts_with_app in E as [r Hr]. rewrite Hr. by rewrite drop_app_length.
    + destruct (find_sub p s) as [k|] eqn:Ek; [|done]. intros [= <-].
      destruct (IH k) as (H1 & H2 & H3 & H4); [done|].
      simpl. split_and!; [done|lia|by f_equal|].
      intros [|j] Hj; [done|]. apply H4. lia.
Qed.

Lemma find_sub_None p s :
  find_sub p s = None ↔ ∀ j, starts_with p (drop j s) = false.
Proof.
  induction s as [|c s IH]; simpl.
  - destruct (starts_with p []) eqn:E; split; try done.
    + intros H. specialize (H 0). simpl in H. congruence.
    + intros _ j. by rewrite drop_nil.
  - destruct (starts_with p (c :: s)) eqn:E; split; try done.
    + intros H. specialize (H 0). simpl in H. congruence.
    + rewrite fmap_None, IH. intros H [|j]; [done|apply H].
    + rewrite fmap_None, IH. intros H j. apply (H (S j)).
Qed.

(** The first occurrence of [p] is where no earlier one begins. *)
Lemma find_sub_first p s i :
  starts_with p (drop i s) = true → i ≤ length s →
  (∀ j, j < i → starts_with p (drop j s) = false) → find_sub p s = Some i.
Proof.
  intros H Hi Hj. destruct (find_sub p s) as [k|] eqn:E.
  - apply find_sub_Some in E as (H1 & _ & _ & H4).
    destruct (lt_eq_lt_dec k i) as [[?|?]|?]; [|by f_equal|].
    + rewrite Hj in H1; [done|lia].
    + rewrite H4 in H; [done|lia].
  - rewrite find_sub_None in E. by rewrite E in H.
Qed.

Lemma find_char_app (c : char) a b : c ∉ a → find_sub [c] (a ++ c :: b) = Some (length a).
Proof.
  induction a as [|x a IH]; simpl; intros Hc.
  - by rewrite N.eqb_refl.
  - apply not_elem_of_cons in Hc as [Hx Hc]. rewrite (proj2 (N.eqb_neq c x)) by done. simpl.
    by rewrite IH.
Qed.

Lemma find_char_None (c : char) s : find_sub [c] s = None ↔ c ∉ s.
Proof.
  induction s as [|x s IH]; simpl; [split; [intros _; apply not_elem_of_nil|done]|].
  rewrite not_elem_of_cons. destruct (c =? x)%N eqn:E; simpl; bool_to_prop.
  - naive_solver.
  - rewrite fmap_None, IH. naive_solver.
Qed.

Lemma find_char_Some (c : char) s i :
  find_sub [c] s = Some i → s = take i s ++ c :: drop (S i) s ∧ c ∉ take i s.
Proof.
  revert i; induction s as [|x s IH]; intros i; simpl; [done|].
  destruct (c =? x)%N eqn:E; simpl; bool_to_prop.
  - intros [= <-]. subst. simpl. split; [done|]. apply not_elem_of_nil.
  - destruct (find_sub [c] s) as [k|] eqn:Ek; [|done]. intros [= <-]. simpl.
    destruct (IH k) as [H1 H2]; [done|]. split; [by f_equal|].
    rewrite not_elem_of_cons. done.
Qed.

Lemma rfind_sub_None p s :
  rfind_sub p s = None ↔ ∀ j, starts_with p (drop j s) = false.
Proof.
  induction s as [|c s IH]; simpl.
  - destruct (starts_with p []) eqn:E; split; try done.
    + intros H. specialize (H 0). simpl in H. congruence.
    + intros _ j. by rewrite drop_nil.
  - destruct (rfind_sub p s) as [k|]; [split; [done|]|].
    + intros H. enough (Some k = None) by done. apply IH. intros j. apply (H (S j)).
    + destruct (starts_with p (c :: s)) eqn:E; split; try done.
      * intros H. specialize (H 0). simpl in H. congruence.
      * intros _ [|j]; [done|]. by apply IH.
Qed.

Lemma rfind_sub_Some p s i :
  rfind_sub p s = Some i →
  starts_with p (drop i s) = true ∧ i + length p ≤ length s ∧
  s = take i s ++ p ++ drop (i + length p) s ∧
  ∀ j, i < j → j ≤ length s → starts_with p (drop j s) = false.
Proof.
  revert i; induction s as [|c s IH]; intros i; simpl.
  - destruct (starts_with p []) eqn:E; [|done]. intros [= <-].
    apply starts_with_app in E as E'. destruct E' as [r Hr].
    symmetry in Hr. apply app_nil in Hr as [-> ->]. simpl; split_and!; auto; lia.
  - destruct (rfind_sub p s) as [k|] eqn:Ek.
    + intros [= <-]. destruct (IH k) as (H1 & H2 & H3 & H4); [done|].
      simpl. split_and!; [done|lia|by f_equal|].
      intros [|j] Hj Hl; [lia|]. simpl. apply H4; lia.
    + destruct (starts_with p (c :: s)) eqn:E; [|done].
      intros [= <-]. apply starts_with_length in E as Hl. simpl in *.
      split_and!; [done|lia| |].
      * apply starts_with_app in E as [r Hr]. rewrite Hr. by rewrite drop_app_length.
      * rewrite rfind_sub_None in Ek. intros [|j] Hj ?; [lia|apply Ek].
Qed.

(** The last occurrence of [p] is where no later one begins. *)
Lemma rfind_sub_last p s i :
  starts_with p (drop i s) = true → i ≤ length s →
  (∀ j, i < j → j ≤ length s → starts_with p (drop j s) = false) → rfind_sub p s = Some i.
Proof.
  intros H Hi Hj. destruct (rfind_sub p s) as [k|] eqn:E.
  - apply rfind_sub_Some in E as (H1 & H2 & _ & H4).
    destruct (lt_eq_lt_dec k i) as [[?|?]|?]; [|by f_equal|].
    + rewrite H4 in H; [done|lia|lia].
    + rewrite Hj in H1; [done|lia|lia].
  - rewrite rfind_sub_None in E. by rewrite E in H.
Qed.

(** ** Trimming: facts *)

Lemma trim_start_matches_app f s :
  ∃ p, s = p ++ trim_start_matches f s ∧ Forall (λ c, f c = true) p.
Proof.
  induction s as [|c s (p & Hp & Hf)]; simpl; [by exists []|].
  destruct (f c) eqn:E; [|by exists []].
  exists (c :: p). split; [simpl; by f_equal|by constructor].
Qed.

Lemma trim_start_matches_head f s c r : trim_start_matches f s = c :: r → f c = false.
Proof.
  induction s as [|d s IH]; simpl; [done|]. destruct (f d) eqn:E; [done|]. by intros [= -> ->].
Qed.

Lemma trim_start_matches_id f s :
  match s with c :: _ => f c = false | [] => True end → trim_start_matches f s = s.
Proof. destruct s as [|c s]; simpl; [done|]. by intros ->. Qed.

Lemma trim_start_matches_nil f s :
  trim_start_matches f s = [] ↔ Forall (λ c, f c = true) s.
Proof.
  induction s as [|c s IH]; simpl; [done|].
  rewrite Forall_cons. destruct (f c) eqn:E; [rewrite IH; tauto|].
  split; [done|by intros []].
Qed.

Lemma trim_end_matches_app f s :
  ∃ p, s = trim_end_matches f s ++ p ∧ Forall (λ c, f c = true) p.
Proof.
  unfold trim_end_matches. destruct (trim_start_matches_app f (rev s)) as (p & Hp & Hf).
  exists (rev p). split.
  - rewrite <- rev_app_distr, <- Hp. by rewrite rev_involutive.
  - by apply Forall_rev.
Qed.

Lemma trim_end_matches_last f s c : last (trim_end_matches f s) = Some c → f c = false.
Proof.
  unfold trim_end_matches. destruct (trim_start_matches f (rev s)) as [|d r] eqn:E; [done|].
  simpl. rewrite last_snoc. intros [= <-]. by eapply trim_start_matches_head.
Qed.

Lemma trim_end_matches_id f s :
  match last s with Some c => f c = false | None => True end → trim_end_matches f s = s.
Proof.
  unfold trim_end_matches. intros H. rewrite trim_start_matches_id; [apply rev_involutive|].
  destruct s as [|x s _] using rev_ind; [done|].
  rewrite rev_app_distr; simpl. by rewrite last_snoc in H.
Qed.

Lemma trim_end_matches_nil f s :
  trim_end_matches f s = [] ↔ Forall (λ c, f c = true) s.
Proof.
  unfold trim_end_matches.
  assert (Forall (λ c, f c = true) s ↔ Forall (λ c, f c = true) (rev s)) as ->.
  { split; intros H; [by apply Forall_rev|].
    rewrite <- (rev_involutive s). by apply Forall_rev. }
  rewrite <- trim_start_matches_nil. split; intros H; [|by rewrite H].
  apply (f_equal (@rev _)) in H. by rewrite rev_involutive in H.
Qed.

Lemma trim_end_matches_idemp f s :
  trim_end_matches f (trim_end_matches f s) = trim_end_matches f s.
Proof.
  apply trim_end_matches_id. destruct (last _) eqn:E; [|done]. by eapply trim_end_matches_last.
Qed.

(** A suffix with a kept last character is not touched by a trim of the end. *)
Lemma trim_end_matches_app_last f a b c :
  last b = Some c → f c = false → trim_end_matches f (a ++ b) = a ++ b.
Proof. intros H Hc. apply trim_end_matches_id. by rewrite last_app, H. Qed.

Lemma trim_nil_iff s : trim s = [] ↔ Forall (λ c, is_whitespace c = true) s.
Proof.
  unfold trim, trim_matches. rewrite trim_end_matches_nil.
  destruct (trim_start_matches_app is_whitespace s) as (p & Hp & Hf).
  rewrite Hp at 2. rewrite Forall_app. tauto.
Qed.

Lemma trim_end_nil_iff s : trim_end s = [] ↔ trim s = [].
Proof. unfold trim_end. by rewrite trim_end_matches_nil, trim_nil_iff. Qed.

Lemma count_while_le f s : count_while f s ≤ length s.
Proof. induction s as [|c s IH]; simpl; [lia|]. destruct (f c); lia. Qed.

(** ** Numbers as text: facts *)

Lemma digits_value_snoc s c : digits_value (s ++ [c]) = (10 * digits_value s + (c - 48))%N.
Proof. unfold digits_value. by rewrite fold_left_app. Qed.

Lemma digits_value_zeros k s : digits_value (replicate k 48%N ++ s) = digits_value s.
Proof.
  unfold digits_value. rewrite fold_left_app. f_equal. induction k as [|k IH]; simpl; [done|exact IH].
Qed.

Lemma size_nat_bound n : (n < 10 ^ N.of_nat (S (N.size_nat n)))%N.
Proof.
  destruct n as [|p]; [done|]. rewrite Nat2N.inj_succ, N.pow_succ_r'.
  enough (Npos p < 10 ^ N.of_nat (N.size_nat (Npos p)))%N by lia. simpl.
  induction p as [p IH|p IH|]; [| |done];
    cbn [Pos.size_nat]; rewrite Nat2N.inj_succ, N.pow_succ_r'; lia.
Qed.

Lemma digits_go_spec fuel n acc :
  (n < 10 ^ N.of_nat fuel)%N →
  ∃ ds, digits_go fuel n acc = ds ++ acc ∧ forallb is_ascii_digit ds = true ∧
        digits_value ds = n ∧ (fuel ≠ 0 → ds ≠ []) ∧
        (∀ w, w ≠ 0 → (n < 10 ^ N.of_nat w)%N → length ds ≤ w).
Proof.
  revert n acc; induction fuel as [|fuel IH]; intros n acc Hn.
  { exists []. simpl in *. split_and!; [done|done|unfold digits_value; simpl; lia|done|simpl; lia]. }
  cbn [digits_go]. assert (n mod 10 < 10)%N as Hmod by (apply N.mod_lt; lia).
  assert (is_ascii_digit (48 + n mod 10) = true) as Hd.
  { unfold is_ascii_digit. rewrite andb_true_iff, !N.leb_le. clear -Hmod. generalize dependent (n mod 10)%N. intros m ?. lia. }
  destruct (N.ltb_spec n 10) as [Hlt|Hge].
  - exists [(48 + n mod 10)%N]. split_and!; [done|cbn [forallb]; by rewrite Hd| |done|simpl; lia].
    unfold digits_value. simpl fold_left. rewrite N.mod_small by done. clear. lia.
  - rewrite Nat2N.inj_succ, N.pow_succ_r' in Hn.
    destruct (IH (n / 10)%N ((48 + n mod 10)%N :: acc)) as (ds & -> & Hds & Hv & _ & Hlen).
    { by apply N.Div0.div_lt_upper_bound. }
    exists (ds ++ [(48 + n mod 10)%N]). split_and!.
    + by rewrite <- app_assoc.
    + rewrite forallb_app, Hds. cbn [forallb]. by rewrite Hd.
    + rewrite digits_value_snoc, Hv. pose proof (N.div_mod' n 10) as E. clear -E.
      generalize dependent (n mod 10)%N. generalize (n / 10)%N. intros. lia.
    + by destruct ds.
    + intros [|w] Hw Hnw; [done|]. rewrite length_app. simpl.
      rewrite Nat2N.inj_succ, N.pow_succ_r' in Hnw.
      destruct w as [|w]; [simpl in Hnw; lia|].
      rewrite Nat.add_1_r. apply le_n_S, Hlen; [done|].
      by apply N.Div0.div_lt_upper_bound.
Qed.

Lemma show_N_spec n :
  forallb is_ascii_digit (show_N n) = true ∧ digits_value (show_N n) = n ∧ show_N n ≠ [] ∧
  ∀ w, w ≠ 0 → (n < 10 ^ N.of_nat w)%N → length (show_N n) ≤ w.
Proof.
  unfold show_N. destruct (digits_go_spec _ n [] (size_nat_bound n)) as (ds & -> & ? & ? & ? & ?).
  rewrite app_nil_r. split_and!; auto.
Qed.

(** A number of at most [w] digits, padded to [w], reads back. *)
Lemma show_padded_spec w n :
  w ≠ 0 → (n < 10 ^ N.of_nat w)%N →
  length (show_padded w n) = w ∧ forallb is_ascii_digit (show_padded w n) = true ∧
  digits_value (show_padded w n) = n.
Proof.
  intros Hw Hn. destruct (show_N_spec n) as (Hd & Hv & _ & Hl). specialize (Hl w Hw Hn).
  unfold show_padded, pad_left. split_and!.
  - len_lia.
  - rewrite forallb_app, Hd, andb_true_r. apply forallb_Forall, Forall_replicate. done.
  - by rewrite digits_value_zeros.
Qed.

Lemma parse_digits_spec s :
  s ≠ [] → forallb is_ascii_digit s = true → parse_digits s = Some (digits_value s).
Proof. intros Hs Hd. unfold parse_digits. destruct s; [done|]. by rewrite Hd. Qed.

(** ** Splitting once: facts *)

Lemma starts_with_lookup p s k c :
  starts_with p s = true → p !! k = Some c → s !! k = Some c.
Proof. intros [r ->]%starts_with_app Hk. rewrite lookup_app_l; [done|by eapply lookup_lt_Some]. Qed.

Lemma split_once_Some p s a b :
  split_once p s = Some (a, b) →
  s = a ++ p ++ b ∧ ∀ j, j < length a → starts_with p (drop j s) = false.
Proof.
  unfold split_once. destruct (find_sub p s) as [i|] eqn:E; [|done]. simpl. intros [= <- <-].
  apply find_sub_Some in E as (_ & Hl & Hs & Hj). split; [done|].
  rewrite length_take_le by lia. done.
Qed.

Lemma rsplit_once_Some p s a b :
  rsplit_once p s = Some (a, b) →
  s = a ++ p ++ b ∧ ∀ j, length a < j → j ≤ length s → starts_with p (drop j s) = false.
Proof.
  unfold rsplit_once. destruct (rfind_sub p s) as [i|] eqn:E; [|done]. simpl. intros [= <- <-].
  apply rfind_sub_Some in E as (_ & Hl & Hs & Hj). split; [done|].
  rewrite length_take_le by lia. done.
Qed.

Lemma split_once_app p a b :
  (∀ j, j < length a → starts_with p (drop j (a ++ p ++ b)) = false) →
  split_once p (a ++ p ++ b) = Some (a, b).
Proof.
  intros Hj. unfold split_once. rewrite (find_sub_first _ _ (length a)); [simpl| | |done].
  - rewrite take_app_length, app_assoc, drop_app_length'; [done|by rewrite length_app].
  - rewrite drop_app_length. apply starts_with_refl_app.
  - len_lia.
Qed.

Lemma rsplit_once_app p a b :
  (∀ j, length a < j → j ≤ length (a ++ p ++ b) → starts_with p (drop j (a ++ p ++ b)) = false) →
  rsplit_once p (a ++ p ++ b) = Some (a, b).
Proof.
  intros Hj. unfold rsplit_once. rewrite (rfind_sub_last _ _ (length a)); [simpl| | |done].
  - rewrite take_app_length, app_assoc, drop_app_length'; [done|by rewrite length_app].
  - rewrite drop_app_length. apply starts_with_refl_app.
  - len_lia.
Qed.

(** A separator splits where its mark is, when the mark is nowhere before. *)
Lemma split_once_mark c p1 p2 a b :
  c ∉ p1 → c ∉ a →
  split_once (p1 ++ c :: p2) (a ++ (p1 ++ c :: p2) ++ b) = Some (a, b).
Proof.
  intros Hp Ha. apply split_once_app. intros j Hj. apply not_true_iff_false. intros Hs.
  apply (starts_with_lookup _ _ (length p1) c) in Hs.
  2:{ rewrite lookup_app_r, Nat.sub_diag; [done|lia]. }
  rewrite lookup_drop, <- app_assoc, app_assoc, lookup_app_l in Hs by (len_lia).
  apply list_elem_of_lookup_2 in Hs. set_solver.
Qed.

Lemma rsplit_once_mark c p1 p2 a b :
  c ∉ p2 → c ∉ b →
  rsplit_once (p1 ++ c :: p2) (a ++ (p1 ++ c :: p2) ++ b) = Some (a, b).
Proof.
  intros Hp Hb. apply rsplit_once_app. intros j Hj _. apply not_true_iff_false. intros Hs.
  apply (starts_with_lookup _ _ (length p1) c) in Hs.
  2:{ rewrite lookup_app_r, Nat.sub_diag; [done|lia]. }
  rewrite lookup_drop in Hs.
  replace (a ++ (p1 ++ c :: p2) ++ b) with ((a ++ p1 ++ [c]) ++ p2 ++ b) in Hs
    by (by rewrite <- !app_assoc).
  rewrite lookup_app_r in Hs by (len_lia).
  apply list_elem_of_lookup_2 in Hs. set_solver.
Qed.

Lemma trim_end_last s c : last s = Some c → is_whitespace c = false → trim_end s = s.
Proof. intros Hl Hc. apply trim_end_matches_id. by rewrite Hl. Qed.

Lemma trim_no_space s : Forall (λ c, is_whitespace c = false) s → trim s = s.
Proof.
  intros H. unfold trim, trim_matches. rewrite (trim_start_matches_id _ s).
  - apply trim_end_matches_id. destruct (last s) as [c|] eqn:Hc; [|done]. rewrite last_lookup in Hc.
    rewrite Forall_forall in H. by eapply H, list_elem_of_lookup_2.
  - destruct s as [|c s]; [done|]. by apply Forall_cons in H as [? _].
Qed.

(** ** UTF-8: facts *)

Definition scalar (c : char) : Prop := (c < 0x110000)%N.

(** The first byte says how many follow, so the encoding is a prefix code. *)
Lemma utf8_char_inj c c' r r' :
  scalar c → scalar c' → utf8_char c ++ r = utf8_char c' ++ r' → c = c' ∧ r = r'.
Proof.
  unfold scalar, utf8_char. intros Hc Hc' H.
  assert (∀ x y : N, (x = 64 * (x / 64) + x mod 64 ∧ x mod 64 < 64 ∧
    x / 64 = 64 * (x / 4096) + (x / 64) mod 64 ∧ (x / 64) mod 64 < 64 ∧
    x / 4096 = 64 * (x / 262144) + (x / 4096) mod 64 ∧ (x / 4096) mod 64 < 64)%N) as Hdiv.
  { intros x _. change 4096%N with (64 * 64)%N. change 262144%N with (64 * 64 * 64)%N.
    rewrite <- !N.Div0.div_div. repeat split; (apply N.div_mod' || by apply N.mod_lt). }
  pose proof (Hdiv c 0%N) as D. pose proof (Hdiv c' 0%N) as D'. clear Hdiv.
  destruct (N.ltb_spec c 0x80), (N.ltb_spec c' 0x80);
    try destruct (N.ltb_spec c 0x800); try destruct (N.ltb_spec c' 0x800);
    try destruct (N.ltb_spec c 0x10000); try destruct (N.ltb_spec c' 0x10000); try lia;
    simpl in H; simplify_list_eq; (split; [lia|done]) || lia.
Qed.

Lemma utf8_char_nonempty c : utf8_char c ≠ [].
Proof. unfold utf8_char. by repeat split_match. Qed.

Lemma as_bytes_app a b : as_bytes (a ++ b) = as_bytes a ++ as_bytes b.
Proof. apply flat_map_app. Qed.

Lemma as_bytes_inj a b :
  Forall scalar a → Forall scalar b → as_bytes a = as_bytes b → a = b.
Proof.
  intros Ha. revert b. induction Ha as [|x a Hx _ IH]; intros [|y b] Hb H; [done| | |].
  - simpl in H. symmetry in H. apply app_nil in H as [H _]. by apply utf8_char_nonempty in H.
  - simpl in H. apply app_nil in H as [H _]. by apply utf8_char_nonempty in H.
  - apply Forall_cons in Hb as [Hy Hb]. simpl in H.
    apply utf8_char_inj in H as [-> H]; [|done|done]. by rewrite (IH b).
Qed.

(** Only the character NUL has a zero byte. *)
Lemma as_bytes_zero s : 0%N ∈ as_bytes s → 0%N ∈ s.
Proof.
  induction s as [|c s IH]; [by intros ?%not_elem_of_nil|]. simpl.
  rewrite elem_of_app. intros [Hc|Hs]; [|right; auto].
  enough (c = 0%N) as -> by left.
  assert (∀ k x : N, k ≠ 0%N → 0%N = (k + x)%N → False) as Hk by (intros; lia).
  unfold utf8_char in Hc. repeat split_match_in Hc;
    repeat (apply elem_of_cons in Hc as [Hc|Hc]; [done || by apply Hk in Hc|]);
    by apply not_elem_of_nil in Hc.
Qed.

(** ** Trimming twice: facts *)

Lemma trim_start_matches_app_all f p s :
  Forall (λ c, f c = true) p → trim_start_matches f (p ++ s) = trim_start_matches f s.
Proof. induction 1 as [|c p Hc _ IH]; simpl; [done|]. by rewrite Hc. Qed.

Lemma trim_end_matches_app_all f p s :
  Forall (λ c, f c = true) p → trim_end_matches f (s ++ p) = trim_end_matches f s.
Proof.
  intros Hp. unfold trim_end_matches. rewrite rev_app_distr, trim_start_matches_app_all; [done|].
  by apply Forall_rev.
Qed.

Lemma trim_start_matches_app_ne f a b :
  trim_start_matches f a ≠ [] → trim_start_matches f (a ++ b) = trim_start_matches f a ++ b.
Proof. induction a as [|c a IH]; simpl; [done|]. destruct (f c); [done|done]. Qed.

(** Trimming the end of [a ++ b] when [b] has something to keep. *)
Lemma trim_end_matches_app_keep f a b :
  trim_end_matches f b ≠ [] → trim_end_matches f (a ++ b) = a ++ trim_end_matches f b.
Proof.
  intros Hb. destruct (trim_end_matches_app f b) as (p & Hp & Hall).
  rewrite Hp at 1. rewrite app_assoc, trim_end_matches_app_all by done.
  destruct (last (trim_end_matches f b)) as [c|] eqn:E; [|by apply last_None in E].
  eapply trim_end_matches_app_last; [done|]. by eapply trim_end_matches_last.
Qed.

Lemma trim_trim_end s : trim (trim_end s) = trim s.
Proof.
  unfold trim, trim_end, trim_matches.
  destruct (trim_end_matches_app is_whitespace s) as (p & Hp & Hall).
  set (t := trim_end_matches is_whitespace s) in *. rewrite Hp.
  destruct (decide (trim_start_matches is_whitespace t = [])) as [E|E].
  - rewrite E. apply trim_start_matches_nil in E. rewrite trim_start_matches_app_all by done.
    apply trim_start_matches_nil in Hall. by rewrite Hall.
  - rewrite trim_start_matches_app_ne by done. symmetry. by apply trim_end_matches_app_all.
Qed.

(** Text that starts with what is no space keeps its start. *)
Lemma trim_app_keep c a b :
  is_whitespace c = false → trim b ≠ [] → trim (c :: a ++ b) = c :: a ++ trim_end b.
Proof.
  intros Hc Hb. unfold trim, trim_matches. cbn [trim_start_matches]. rewrite Hc.
  change (c :: a ++ ?x) with ((c :: a) ++ x). apply trim_end_matches_app_keep.
  intros E. apply Hb. by apply (proj1 (trim_end_nil_iff b)).
Qed.

Lemma trim_idemp s : trim (trim s) = trim s.
Proof.
  unfold trim, trim_matches. rewrite (trim_start_matches_id _ (trim_end_matches _ _)).
  - apply trim_end_matches_idemp.
  - destruct (trim_end_matches_app is_whitespace (trim_start_matches is_whitespace s)) as (p & Hp & _).
    destruct (trim_end_matches _ _) as [|c r]; [done|].
    eapply trim_start_matches_head. by rewrite Hp.
Qed.

(** ** Digits: facts *)

Lemma digits_no_char s c :
  is_ascii_digit c = false → forallb is_ascii_digit s = true → c ∉ s.
Proof.
  intros Hc Hs Hin. rewrite forallb_forall in Hs.
  specialize (Hs c). rewrite <- list_elem_of_In in Hs. specialize (Hs Hin). congruence.
Qed.

Lemma parse_digits_padded w n :
  w ≠ 0 → (n < 10 ^ N.of_nat w)%N → parse_digits (show_padded w n) = Some n.
Proof.
  intros Hw Hn. destruct (show_padded_spec w n Hw Hn) as (Hl & Hd & Hv).
  rewrite parse_digits_spec; [by rewrite Hv| |done]. intros E. rewrite E in Hl. simpl in Hl. lia.
Qed.

(** ** Files of lines *)

Lemma split_char_line line rest :
  10%N ∉ line → split_char 10%N (line ++ 10%N :: rest) = line :: split_char 10%N rest.
Proof.
  induction line as [|c line IH]; [done|]. intros [Hc Hl]%not_elem_of_cons. simpl.
  rewrite (proj2 (N.eqb_neq c 10)) by done. by rewrite IH.
Qed.

(** Lines without breaks, each ended by a line feed. *)
Definition unlines (lines : list str) : str := flat_map (λ line, line ++ [10%N]) lines.

Lemma split_unlines lines :
  Forall (λ line, 10%N ∉ line) lines → split_char 10%N (unlines lines) = lines ++ [[]].
Proof.
  induction 1 as [|line lines Hl _ IH]; [done|]. simpl. rewrite <- app_assoc. cbn [app].
  by rewrite split_char_line, IH.
Qed.

Lemma strip_cr_none line : 13%N ∉ line → strip_suffix [13%N] line = None.
Proof.
  intros Hl. apply strip_suffix_None, not_true_iff_false. intros [r ->]%ends_with_app.
  apply Hl, elem_of_app. right. by left.
Qed.

Lemma str_lines_unlines lines :
  Forall (λ line, 10%N ∉ line ∧ 13%N ∉ line) lines → str_lines (unlines lines) = lines.
Proof.
  intros Hl. unfold str_lines. rewrite split_unlines by (eapply Forall_impl; [done|]; by intros ? []).
  rewrite last_snoc, length_app. simpl. replace (length lines + 1 - 1) with (length lines) by lia.
  rewrite take_app_length. apply list_eq. intros i. rewrite list_lookup_imap.
  destruct (lines !! i) as [line|] eqn:E; [|done]. simpl. f_equal. destruct (i <? _)%nat; [|done].
  rewrite strip_cr_none; [done|]. by apply (Forall_lookup_1 _ _ _ _ Hl E).
Qed.

(** ** Lines with their breaks: [split_inclusive] *)

(** [text.split_inclusive('\n')] *)
Fixpoint split_inclusive (s : str) : list str :=
  match s with
  | [] => []
  | c :: s' =>
      if (c =? 10)%N then [c] :: split_inclusive s'
      else match split_inclusive s' with
           | piece :: rest => (c :: piece) :: rest
           | [] => [[c]]
           end
  end.

Definition line_seg (s : str) : Prop := ∃ body, s = body ++ [10%N] ∧ 10%N ∉ body.

(** Every piece but the last ends its line. *)
Fixpoint segments (l : list str) : Prop :=
  match l with
  | [] => True
  | [s] => s ≠ [] ∧ (line_seg s ∨ 10%N ∉ s)
  | s :: rest => line_seg s ∧ segments rest
  end.

Lemma line_seg_ne s : line_seg s → s ≠ [].
Proof. intros (body & -> & _). by destruct body. Qed.

Lemma segments_cons s l : segments (s :: l) → s ≠ [] ∧ segments l ∧ (l ≠ [] → line_seg s).
Proof. destruct l as [|s' l]; cbn; [naive_solver|]. intros [H ?]. split_and!; [by apply line_seg_ne|done|done]. Qed.

Lemma cons_segments s l : line_seg s → segments l → segments (s :: l).
Proof. destruct l; cbn; [|done]. intros H _. split; [by apply line_seg_ne|by left]. Qed.

Lemma line_seg_cons c s : c ≠ 10%N → line_seg s → line_seg (c :: s).
Proof. intros Hc (body & -> & Hb). exists (c :: body). split; [done|]. by apply not_elem_of_cons. Qed.

Lemma split_inclusive_segments s : segments (split_inclusive s).
Proof.
  induction s as [|c s IH]; [done|]. cbn [split_inclusive]. destruct (N.eqb_spec c 10) as [->|Hc].
  { apply cons_segments; [|done]. exists []. split; [done|apply not_elem_of_nil]. }
  destruct (split_inclusive s) as [|piece rest] eqn:Es.
  { split; [done|]. right. by apply not_elem_of_cons; split; [|apply not_elem_of_nil]. }
  apply segments_cons in IH as Hs. destruct Hs as (Hne & Hrest & Hl). destruct rest as [|x rest].
  - destruct IH as [_ [H|H]]; (split; [done|]); [left; by apply line_seg_cons|right; by apply not_elem_of_cons].
  - apply cons_segments; [apply line_seg_cons, Hl|]; done.
Qed.

Lemma concat_split_inclusive s : concat (split_inclusive s) = s.
Proof.
  induction s as [|c s IH]; [done|]. cbn [split_inclusive]. destruct (c =? 10)%N; cbn; [by rewrite IH|].
  destruct (split_inclusive s); cbn in *; by rewrite <- IH.
Qed.

Lemma split_inclusive_line body rest :
  10%N ∉ body → split_inclusive (body ++ 10%N :: rest) = (body ++ [10%N]) :: split_inclusive rest.
Proof.
  induction body as [|c body IH]; [done|]. intros [Hc Hb]%not_elem_of_cons. cbn [app split_inclusive].
  rewrite IH by done. by destruct (N.eqb_spec c 10).
Qed.

Lemma split_inclusive_last body : 10%N ∉ body → body ≠ [] → split_inclusive body = [body].
Proof.
  induction body as [|c body IH]; [done|]. intros [Hc Hb]%not_elem_of_cons _. cbn [split_inclusive].
  destruct (N.eqb_spec c 10); [done|]. destruct body as [|d body]; [done|]. by rewrite IH.
Qed.

Lemma split_inclusive_concat l : segments l → split_inclusive (concat l) = l.
Proof.
  induction l as [|s l IH]; [done|]. intros H. pose proof (segments_cons _ _ H) as (Hne & Hl & Hs). cbn [concat].
  destruct l as [|s' l].
  - cbn. rewrite app_nil_r. destruct H as [_ [(body & -> & Hb)|Hb]].
    + by rewrite (split_inclusive_line body []).
    + by apply split_inclusive_last.
  - destruct (Hs ltac:(done)) as (body & -> & Hb). rewrite <- app_assoc. cbn [app].
    rewrite split_inclusive_line by done. by rewrite IH.
Qed.

Lemma segments_lookup l i s : segments l → l !! i = Some s → S i < length l → line_seg s.
Proof.
  revert i. induction l as [|s' l IH]; intros [|i] Hs Hi Hl; [done..| |]; cbn in Hi, Hl;
    apply segments_cons in Hs as (_ & Hl' & Hline).
  - injection Hi as ->. apply Hline. intros ->. cbn in Hl. lia.
  - apply (IH i); [done|done|lia].
Qed.

Lemma segments_at segs i seg : segments segs → segs !! i = Some seg → seg ≠ [] ∧ (line_seg seg ∨ 10%N ∉ seg).
Proof.
  revert i. induction segs as [|s segs IH]; intros [|i] Hs Hi; [done..| |]; cbn in Hi.
  - injection Hi as ->. destruct segs; [done|]. destruct Hs as [Hs _]. split; [by apply line_seg_ne|by left].
  - apply (IH i); [|done]. by apply segments_cons in Hs as (_ & ? & _).
Qed.
