(* ===== verification/External.v ===== *)
(** * What the crate calls and this development does not define

    Each class names the operations of one library (or of one data table of
    the standard library) that the source uses. A definition takes the class as
    an argument; where a theorem relies on documented behaviour, it does so
    through the class of laws next to it. [Samples.v] has a concrete instance
    of each, for the witnesses. *)

From S2P Require Import Prelude Strings.

(** ** Unicode tables (the standard library's [char] methods)

    The ASCII range is given; the rest of the tables is data. *)
Class UnicodeTables := {
  table_alphanumeric : char → bool;
  table_lowercase : char → str;
  table_cased : char → bool;
  table_case_ignorable : char → bool;
}.

Section unicode.
Context `{UnicodeTables}.

(** [char::is_alphanumeric] *)
Definition is_alphanumeric (c : char) : bool :=
  (if c <? 128
   then (48 <=? c) && (c <=? 57) || (65 <=? c) && (c <=? 90) || (97 <=? c) && (c <=? 122)
   else table_alphanumeric c)%N.

(** [char::to_lowercase] *)
Definition char_to_lowercase (c : char) : str :=
  if (c <? 128)%N then [ascii_lower c] else table_lowercase c.

Definition case_ignorable_then_cased (s : str) : bool :=
  match trim_start_matches table_case_ignorable s with
  | c :: _ => table_cased c
  | [] => false
  end.

(** [str::to_lowercase]: character by character, except that a capital sigma
    that ends a word becomes a final sigma. *)
Fixpoint to_lowercase_go (before_rev s : str) : str :=
  match s with
  | [] => []
  | c :: s' =>
      (if (c =? 0x3A3)%N
       then [if case_ignorable_then_cased before_rev && negb (case_ignorable_then_cased s')
             then 0x3C2%N else 0x3C3%N]
       else char_to_lowercase c) ++ to_lowercase_go (c :: before_rev) s'
  end.
Definition str_to_lowercase (s : str) : str := to_lowercase_go [] s.
End unicode.

(** What the tables guarantee of every lowercase expansion of a letter or
    digit: it is not empty and has no space. *)
Class UnicodeLaws `{UnicodeTables} : Prop := {
  lowercase_nonempty c : table_alphanumeric c = true → table_lowercase c ≠ [];
  lowercase_no_space c : table_alphanumeric c = true → 32%N ∉ table_lowercase c;
}.

(** ** Digests (crates [sha2] and [hex]) *)
Class Digest := {
  sha256 : list N → list N;
  hex_encode : list N → str;
}.

(** The documented sizes: 32 bytes, two characters a byte. *)
Class DigestLaws `{Digest} : Prop := {
  sha256_length b : length (sha256 b) = 32;
  hex_encode_length b : length (hex_encode b) = 2 * length b;
}.

(** ** Normal form C (crate [unicode-normalization]) *)
Class Normalization := { is_nfc : str → bool }.

(** ** Authenticated encryption (crate [chacha20poly1305]): key, nonce,
    associated data, message. Encryption fails only above the cipher's size
    limit; decryption fails when the tag does not authenticate. *)
Class Aead := {
  aead_encrypt : list N → list N → list N → list N → option (list N);
  aead_decrypt : list N → list N → list N → list N → option (list N);
}.

Class AeadLaws `{Aead} : Prop := {
  decrypt_encrypt key nonce aad msg c :
    aead_encrypt key nonce aad msg = Some c → aead_decrypt key nonce aad c = Some msg;
  encrypt_length key nonce aad msg c :
    aead_encrypt key nonce aad msg = Some c → length c = length msg + 16;
}.

(** ** Calendar dates (crate [chrono], [NaiveDate]) *)
Class Chrono := {
  NaiveDate : Type;
  NaiveDate_eq_dec :: EqDecision NaiveDate;
  date_cmp : NaiveDate → NaiveDate → comparison;
  from_ymd_opt : Z → N → N → option NaiveDate;
  from_isoywd_monday_opt : Z → N → option NaiveDate;
  year : NaiveDate → Z;
  month : NaiveDate → N;
  day : NaiveDate → N;
  num_days_from_sunday : NaiveDate → N;
  iso_year : NaiveDate → Z;
  iso_week : NaiveDate → N;
  format_b : NaiveDate → str;
  format_B : NaiveDate → str;
  format_a : NaiveDate → str;
  format_A : NaiveDate → str;
  format_ymd : NaiveDate → str; (* [%Y-%m-%d] *)
}.

(** A date is its year, month and day. *)
Class ChronoLaws `{Chrono} : Prop := {
  from_ymd_opt_fields d : from_ymd_opt (year d) (month d) (day d) = Some d;
  from_ymd_opt_Some y m dd d :
    from_ymd_opt y m dd = Some d → year d = y ∧ month d = m ∧ day d = dd;
  month_range d : (1 <= month d <= 12)%N;
  day_range d : (1 <= day d <= 31)%N;
  format_ymd_digits d :
    (0 <= year d < 10000)%Z →
    format_ymd d = show_padded 4 (Z.to_N (year d)) ++ u "-" ++ show_padded 2 (month d)
                   ++ u "-" ++ show_padded 2 (day d);
}.

(** [NaiveDate]'s [Ord] agrees with its [Eq]. *)
Class ChronoOrd `{Chrono} : Prop := { date_cmp_Eq a b : date_cmp a b = Eq → a = b }.

(** [NaiveDate::parse_from_str(s, "%Y-%m-%d")]: it reads back what that format
    writes, for the years it writes in four digits. *)
Class ChronoParse `{Chrono} := { parse_ymd : str → option NaiveDate }.

Class ChronoParseLaws `{ChronoParse} : Prop := {
  parse_ymd_format d : (0 <= year d < 10000)%Z → parse_ymd (format_ymd d) = Some d;
}.

(** Day arithmetic: [NaiveDate]'s order and differences are those of its day
    number; [date - Duration::days(n)] panics ([None]) outside chrono's range. *)
Class ChronoDays `{Chrono} := {
  num_days_from_ce : NaiveDate → Z;
  sub_days : NaiveDate → Z → option NaiveDate;
}.

Class ChronoDaysLaws `{ChronoDays} : Prop := {
  date_cmp_days a b : date_cmp a b = Z.compare (num_days_from_ce a) (num_days_from_ce b);
  sub_days_Some d n d' : sub_days d n = Some d' → num_days_from_ce d' = (num_days_from_ce d - n)%Z;
}.

(** ** Wall-clock times (crate [chrono], [NaiveTime] and [NaiveDateTime]) *)
Class Clock `{Chrono} := {
  NaiveTime : Type;
  NaiveTime_eq_dec :: EqDecision NaiveTime;
  from_hms_opt : N → N → N → option NaiveTime;
  hour : NaiveTime → N;
  minute : NaiveTime → N;
  second : NaiveTime → N;
  nanosecond : NaiveTime → N;
  with_second : NaiveTime → N → option NaiveTime;
  with_nanosecond : NaiveTime → N → option NaiveTime;
  (* [NaiveDateTime + Duration::minutes] *)
  add_minutes : NaiveDate * NaiveTime → N → NaiveDate * NaiveTime;
  format_HM : NaiveTime → str; (* [%H:%M] *)
}.

Class ClockLaws `{Clock} : Prop := {
  hour_range t : (hour t < 24)%N;
  minute_range t : (minute t < 60)%N;
  from_hms_opt_fields t :
    second t = 0%N → nanosecond t = 0%N → from_hms_opt (hour t) (minute t) 0 = Some t;
  from_hms_opt_Some h m s t :
    from_hms_opt h m s = Some t → hour t = h ∧ minute t = m ∧ second t = s ∧ nanosecond t = 0%N;
  with_second_zero t :
    ∃ t', with_second t 0 = Some t' ∧
      hour t' = hour t ∧ minute t' = minute t ∧ second t' = 0%N ∧ nanosecond t' = nanosecond t;
  with_nanosecond_zero t :
    ∃ t', with_nanosecond t 0 = Some t' ∧
      hour t' = hour t ∧ minute t' = minute t ∧ second t' = second t ∧ nanosecond t' = 0%N;
  time_eq t t' :
    hour t = hour t' → minute t = minute t' → second t = second t' →
    nanosecond t = nanosecond t' → t = t';
  format_HM_digits t : format_HM t = show_padded 2 (hour t) ++ u ":" ++ show_padded 2 (minute t);
}.

(** ** JSON values (crate [serde_json], [Value]) *)
Class JsonValue := {
  json : Type;
  json_eq_dec :: EqDecision json;
}.

(** Its constructors (the [json!] macro, [Map::insert]) and accessors.
    [json_insert] is [None] on what is not an object; [json_from_str] fails with
    the parser's message. *)
Class JsonOps `{JsonValue} := {
  json_null : json;
  json_bool : bool → json;
  json_int : Z → json;
  json_string : str → json;
  json_array : list json → json;
  json_object : list (str * json) → json;
  json_insert : str → json → json → option json;
  json_get : str → json → option json;
  as_str : json → option str;
  as_bool : json → option bool;
  as_u64 : json → option N;
  as_array : json → option (list json);
  json_from_str : str → result json str;
}.

Class JsonLaws `{JsonOps} : Prop := {
  as_str_string s : as_str (json_string s) = Some s;
  as_bool_bool b : as_bool (json_bool b) = Some b;
  as_array_array l : as_array (json_array l) = Some l;
  json_get_object k v kvs : NoDup kvs.*1 → (k, v) ∈ kvs → json_get k (json_object kvs) = Some v;
  json_get_object_None k kvs : k ∉ kvs.*1 → json_get k (json_object kvs) = None;
  json_get_insert k v x y : json_insert k v x = Some y → json_get k y = Some v;
  json_get_insert_ne k k' v x y :
    k ≠ k' → json_insert k v x = Some y → json_get k' y = json_get k' x;
  json_insert_object k v kvs : is_Some (json_insert k v (json_object kvs));
  json_insert_is_Some k v k' v' x : is_Some (json_insert k v x) → is_Some (json_insert k' v' x);
  json_object_not_null kvs : json_object kvs ≠ json_null;
  as_str_null : as_str json_null = None;
  json_get_null k : json_get k json_null = None;
}.
