(* ===== verification/Ordering.v ===== *)
(** * Orderings, stable sorting and ordered maps of the standard library

    [Ordering::then_with], [sort_by], and [BTreeMap] with string keys, kept as
    the list of its entries in key order. *)

From stdpp Require Import sorting gmap.
From S2P Require Import Prelude.

(** ** Sorted lists *)

Lemma StronglySorted_sublist {A} (R : relation A) l l' :
  l' `sublist_of` l → StronglySorted R l → StronglySorted R l'.
Proof.
  induction 1 as [|x l l' Hs IH|x l l' Hs IH]; intros Hl; [constructor| |];
    inversion_clear Hl as [|? ? Hs' Hx]; [|by apply IH].
  constructor; [by apply IH|]. rewrite Forall_forall in Hx |- *. intros y Hy.
  apply Hx. by apply (sublist_subseteq _ _ Hs).
Qed.

(** ** Comparison functions *)

Definition then_with (c d : comparison) : comparison :=
  match c with Eq => d | _ => c end.

(** A comparison function that is a total order up to [Eq]. *)
Class TotalCmp {A} (cmp : A → A → comparison) : Prop := {
  cmp_opp x y : cmp y x = CompOpp (cmp x y);
  cmp_le_trans x y z : cmp x y ≠ Gt → cmp y z ≠ Gt → cmp x z ≠ Gt;
}.

Definition cmp_le {A} (cmp : A → A → comparison) (x y : A) : Prop := cmp x y ≠ Gt.

#[export] Instance cmp_le_dec {A} (cmp : A → A → comparison) x y : Decision (cmp_le cmp x y).
Proof. unfold cmp_le. solve_decision. Defined.

#[export] Instance Z_compare_total : TotalCmp Z.compare.
Proof.
  split; [intros; apply Z.compare_antisym|]. intros x y z Hxy Hyz.
  apply Z.compare_ngt_iff in Hxy, Hyz. apply Z.compare_ngt_iff. lia.
Qed.

#[export] Instance N_compare_total : TotalCmp N.compare.
Proof.
  split; [intros; apply N.compare_antisym|]. intros x y z Hxy Hyz.
  apply N.compare_ngt_iff in Hxy, Hyz. apply N.compare_ngt_iff. lia.
Qed.

Section combinators.
Context {A B : Type}.
Implicit Types (c d : A → A → comparison).

Lemma on_total c (f : B → A) : TotalCmp c → TotalCmp (λ x y, c (f x) (f y)).
Proof. intros Hc. split; intros; [apply cmp_opp|]. by eapply (cmp_le_trans (cmp := c)). Qed.

Lemma flip_total c : TotalCmp c → TotalCmp (λ x y, c y x).
Proof. intros Hc. split; intros; [apply cmp_opp|]. by eapply (cmp_le_trans (cmp := c)). Qed.

Lemma cmp_eq_between c `{!TotalCmp c} x y z :
  c x y ≠ Gt → c y z ≠ Gt → c x z = Eq → c x y = Eq ∧ c y z = Eq.
Proof.
  intros Hxy Hyz Hxz. assert (c z x ≠ Gt) as Hzx by (rewrite cmp_opp, Hxz; done).
  pose proof (cmp_le_trans (cmp := c) _ _ _ Hzx Hxy) as Hzy.
  pose proof (cmp_le_trans (cmp := c) _ _ _ Hyz Hzx) as Hyx.
  rewrite cmp_opp in Hzy, Hyx. by destruct (c x y), (c y z).
Qed.

Lemma then_with_total c d : TotalCmp c → TotalCmp d → TotalCmp (λ x y, then_with (c x y) (d x y)).
Proof.
  intros Hc Hd. split.
  - intros x y. rewrite (cmp_opp (cmp := c)), (cmp_opp (cmp := d)). by destruct (c x y).
  - intros x y z Hxy Hyz.
    assert (c x y ≠ Gt) as H1 by (by intros E; rewrite E in Hxy).
    assert (c y z ≠ Gt) as H2 by (by intros E; rewrite E in Hyz).
    pose proof (cmp_le_trans (cmp := c) _ _ _ H1 H2) as H3.
    destruct (c x z) eqn:E; simpl; try done.
    destruct (cmp_eq_between c x y z H1 H2 E) as [E1 E2]. rewrite E1 in Hxy. rewrite E2 in Hyz.
    by eapply (cmp_le_trans (cmp := d)).
Qed.
End combinators.

(** ** Strings: byte order, which in UTF-8 is the order of the code points *)

Fixpoint str_cmp (a b : str) : comparison :=
  match a, b with
  | [], [] => Eq
  | [], _ => Lt
  | _, [] => Gt
  | x :: a, y :: b => then_with (x ?= y)%N (str_cmp a b)
  end.

Lemma str_cmp_eq a b : str_cmp a b = Eq ↔ a = b.
Proof.
  revert b. induction a as [|x a IH]; intros [|y b]; simpl; try done.
  destruct (x ?= y)%N eqn:E; simpl.
  - apply N.compare_eq in E as ->. rewrite IH. split; [by intros -> |by intros [=]].
  - split; [done|]. intros [= -> ->]. by rewrite N.compare_refl in E.
  - split; [done|]. intros [= -> ->]. by rewrite N.compare_refl in E.
Qed.

#[export] Instance str_cmp_total : TotalCmp str_cmp.
Proof.
  split.
  - intros a. induction a as [|x a IH]; intros [|y b]; simpl; try done.
    rewrite (N.compare_antisym x y), IH. by destruct (x ?= y)%N.
  - intros a. induction a as [|x a IH]; intros [|y b] [|z c]; simpl; try done.
    intros H1 H2. destruct (N.compare_spec x y), (N.compare_spec y z), (N.compare_spec x z);
      simpl in *; subst; try done; try lia. by eapply IH.
Qed.

Definition str_lt (a b : str) : Prop := str_cmp a b = Lt.

Lemma str_cmp_refl a : str_cmp a a = Eq.
Proof. by apply str_cmp_eq. Qed.

Lemma str_cmp_Gt a b : str_cmp a b = Gt ↔ str_lt b a.
Proof. unfold str_lt. rewrite (cmp_opp (cmp := str_cmp) a b). by destruct (str_cmp a b). Qed.

#[export] Instance str_lt_trans : Transitive str_lt.
Proof.
  intros a b c Hab Hbc. unfold str_lt in *.
  destruct (str_cmp a c) eqn:E; [|done|].
  - destruct (cmp_eq_between str_cmp a b c) as [E' _]; congruence.
  - exfalso. eapply (cmp_le_trans (cmp := str_cmp) a b c); congruence.
Qed.

Lemma str_lt_irrefl a : ¬ str_lt a a.
Proof. unfold str_lt. by rewrite str_cmp_refl. Qed.

(** ** [sort_by]: stable, with the elements in order of the comparison. *)

Section sort_by.
Context {A : Type} (cmp : A → A → comparison).

Definition sort_by (l : list A) : list A := merge_sort (cmp_le cmp) l.

Lemma sort_by_Permutation l : sort_by l ≡ₚ l.
Proof. apply merge_sort_Permutation. Qed.

(** Sorted by any total order that agrees with the comparison on the list. *)
Lemma sort_by_sorted cmp' `{!TotalCmp cmp'} l :
  (∀ x y, cmp y x = CompOpp (cmp x y)) →
  (∀ x y, x ∈ l → y ∈ l → cmp x y = cmp' x y) →
  StronglySorted (cmp_le cmp') (sort_by l).
Proof.
  intros Hopp Heq. assert (Total (cmp_le cmp)) as Htot.
  { intros x y. unfold cmp_le. rewrite (Hopp x y). destruct (cmp x y); simpl; auto. }
  assert (Transitive (cmp_le cmp')) as Htrans by (intros x y z; apply cmp_le_trans).
  apply (Sorted_StronglySorted _).
  assert (∀ x, x ∈ sort_by l → x ∈ l) as Hin by (intros x; by rewrite sort_by_Permutation).
  pose proof (Sorted_merge_sort (cmp_le cmp) l) as Hs. fold (sort_by l) in Hs.
  induction Hs as [|x l' Hs IH Hx]; constructor.
  - apply IH. intros y Hy. apply Hin. set_solver.
  - destruct Hx as [|y l' Hxy]; constructor. unfold cmp_le in *.
    rewrite <- Heq; [done| |]; apply Hin; set_solver.
Qed.
End sort_by.

(** ** [BTreeMap<String, V>] *)

Section btree.
Context {V : Type}.
Implicit Types m : list (str * V).

Fixpoint btree_insert (k : str) (v : V) m : list (str * V) :=
  match m with
  | [] => [(k, v)]
  | (k', v') :: m' =>
      match str_cmp k k' with
      | Lt => (k, v) :: m
      | Eq => (k, v) :: m'
      | Gt => (k', v') :: btree_insert k v m'
      end
  end.

Fixpoint btree_remove (k : str) m : list (str * V) :=
  match m with
  | [] => []
  | (k', v') :: m' =>
      match str_cmp k k' with
      | Lt => m
      | Eq => m'
      | Gt => (k', v') :: btree_remove k m'
      end
  end.

Fixpoint btree_get (k : str) m : option V :=
  match m with
  | [] => None
  | (k', v') :: m' =>
      match str_cmp k k' with
      | Lt => None
      | Eq => Some v'
      | Gt => btree_get k m'
      end
  end.

(** The keys are in strictly increasing order. *)
Definition btree_ok m : Prop := StronglySorted str_lt m.*1.

(** The finite map the list stands for. *)
Definition btree_map m : gmap str V := list_to_map m.

Lemma btree_ok_cons k v m : btree_ok ((k, v) :: m) ↔ btree_ok m ∧ Forall (str_lt k) m.*1.
Proof.
  unfold btree_ok. simpl. split; [by inversion 1|]. intros [? ?]. by constructor.
Qed.

Lemma Forall_str_lt a b l : str_lt a b → Forall (str_lt b) l → Forall (str_lt a) l.
Proof. intros Hab Hl. eapply Forall_impl; [exact Hl|]. intros c. by apply str_lt_trans. Qed.

Lemma not_key_lookup k m : Forall (str_lt k) m.*1 → btree_map m !! k = None.
Proof.
  intros H. apply not_elem_of_list_to_map. intros Hk.
  rewrite Forall_forall in H. by apply (str_lt_irrefl k), H.
Qed.

Lemma insert_keys a k v m :
  str_lt a k → Forall (str_lt a) m.*1 → Forall (str_lt a) (btree_insert k v m).*1.
Proof.
  intros Hk. induction m as [|[k' v'] m IH]; simpl; intros H; [by repeat constructor|].
  inversion_clear H. destruct (str_cmp k k'); simpl; constructor; auto.
Qed.

Lemma remove_keys a k m : Forall (str_lt a) m.*1 → Forall (str_lt a) (btree_remove k m).*1.
Proof.
  induction m as [|[k' v'] m IH]; simpl; intros H; [done|].
  inversion_clear H. destruct (str_cmp k k'); simpl; auto.
Qed.

Lemma btree_insert_ok k v m : btree_ok m → btree_ok (btree_insert k v m).
Proof.
  induction m as [|[k' v'] m IH]; intros Hm; [by repeat constructor|].
  pose proof Hm as [Hm' Hk']%btree_ok_cons. simpl.
  destruct (str_cmp k k') eqn:E; apply btree_ok_cons.
  - apply str_cmp_eq in E as ->. done.
  - split; [done|]. simpl. constructor; [done|]. by eapply Forall_str_lt.
  - split; [by apply IH|]. apply insert_keys; [by apply str_cmp_Gt|done].
Qed.

Lemma btree_remove_ok k m : btree_ok m → btree_ok (btree_remove k m).
Proof.
  induction m as [|[k' v'] m IH]; intros Hm; [done|].
  pose proof Hm as [Hm' Hk']%btree_ok_cons. simpl.
  destruct (str_cmp k k') eqn:E; [done|done|].
  apply btree_ok_cons. split; [by apply IH|]. by apply remove_keys.
Qed.

Lemma btree_get_map k m : btree_ok m → btree_get k m = btree_map m !! k.
Proof.
  induction m as [|[k' v'] m IH]; intros Hm; [done|].
  apply btree_ok_cons in Hm as [Hm Hk']. cbn [btree_get btree_map list_to_map foldr fst snd].
  destruct (str_cmp k k') eqn:E.
  - apply str_cmp_eq in E as ->. symmetry. apply lookup_insert_eq.
  - rewrite lookup_insert_ne by (intros ->; by apply (str_lt_irrefl k)).
    symmetry. apply not_key_lookup. by eapply Forall_str_lt.
  - rewrite lookup_insert_ne by (intros ->; by rewrite str_cmp_refl in E). by apply IH.
Qed.

Lemma btree_insert_map k v m : btree_ok m → btree_map (btree_insert k v m) = <[k := v]> (btree_map m).
Proof.
  induction m as [|[k' v'] m IH]; intros Hm; [done|].
  apply btree_ok_cons in Hm as [Hm Hk']. simpl.
  destruct (str_cmp k k') eqn:E.
  - apply str_cmp_eq in E as ->. unfold btree_map. simpl. by rewrite insert_insert_eq.
  - done.
  - unfold btree_map in *. simpl. rewrite IH by done. apply insert_insert_ne.
    intros ->. by rewrite str_cmp_refl in E.
Qed.

Lemma btree_remove_map k m : btree_ok m → btree_map (btree_remove k m) = delete k (btree_map m).
Proof.
  induction m as [|[k' v'] m IH]; intros Hm; [symmetry; apply delete_empty|].
  apply btree_ok_cons in Hm as [Hm Hk']. simpl.
  destruct (str_cmp k k') eqn:E; unfold btree_map in *; simpl.
  - apply str_cmp_eq in E as ->. by rewrite delete_insert_id by (by apply not_key_lookup).
  - rewrite delete_id; [done|]. rewrite lookup_insert_ne by (intros ->; by apply (str_lt_irrefl k)).
    apply not_key_lookup. by eapply Forall_str_lt.
  - rewrite IH by done. rewrite delete_insert_ne; [done|].
    intros ->. by rewrite str_cmp_refl in E.
Qed.

Lemma elem_of_btree k v m : btree_ok m → (k, v) ∈ m ↔ btree_map m !! k = Some v.
Proof.
  intros Hm. apply elem_of_list_to_map. clear v. unfold btree_ok in Hm.
  induction Hm as [|x l Hs IH Hx]; constructor; [|done].
  intros Hin. rewrite Forall_forall in Hx. by apply (str_lt_irrefl x), Hx.
Qed.
End btree.

(** ** [BTreeSet<String>] *)

Abbreviation PathSet := (list (str * unit)) (only parsing).

Definition path_insert (path : str) (paths : PathSet) : PathSet := btree_insert path tt paths.
Definition path_remove (path : str) (paths : PathSet) : PathSet := btree_remove path paths.
(** [append], and [extend] with a set. *)
Definition path_append (a b : PathSet) : PathSet := fold_left (λ acc p, path_insert p.1 acc) b a.

Section path_sets.
Implicit Types paths a b : list (str * unit).

Lemma path_in_insert path path' paths : path ∈ (path_insert path' paths).*1 ↔ path = path' ∨ path ∈ paths.*1.
Proof.
  unfold path_insert. induction paths as [|[k []] paths IH]; cbn [btree_insert fmap list_fmap fst]; [by rewrite list_elem_of_singleton, elem_of_nil; tauto|].
  destruct (str_cmp path' k) eqn:E; cbn [fmap list_fmap fst]; rewrite !elem_of_cons; [apply str_cmp_eq in E as ->; tauto|tauto|].
  change (list_fmap _ _ fst ?l) with (l.*1) in *. rewrite IH. tauto.
Qed.

Lemma path_in_append path a b : path ∈ (path_append a b).*1 ↔ path ∈ a.*1 ∨ path ∈ b.*1.
Proof.
  unfold path_append. revert a. induction b as [|[k []] b IH]; intros a; cbn [fold_left fst]; [rewrite elem_of_nil; tauto|].
  rewrite IH, path_in_insert. cbn. rewrite elem_of_cons. tauto.
Qed.

Lemma path_in_fold {A} (f : A → str) path l a :
  path ∈ (fold_left (λ paths x, path_insert (f x) paths) l a).*1 ↔ path ∈ a.*1 ∨ path ∈ map f l.
Proof.
  revert a. induction l as [|x l IH]; intros a; cbn [fold_left map]; [rewrite elem_of_nil; tauto|].
  rewrite IH, path_in_insert, elem_of_cons. tauto.
Qed.

Lemma path_in_remove path path' paths : path ∈ paths.*1 → path ≠ path' → path ∈ (path_remove path' paths).*1.
Proof.
  intros Hin Hne. unfold path_remove. induction paths as [|[k []] paths IH]; [done|]. cbn [btree_remove]. cbn in Hin. apply elem_of_cons in Hin.
  destruct (str_cmp path' k) eqn:E; cbn; rewrite ?elem_of_cons; [|tauto|tauto].
  apply str_cmp_eq in E as ->. by destruct Hin.
Qed.

Lemma path_remove_in path path' paths : path ∈ (path_remove path' paths).*1 → path ∈ paths.*1.
Proof.
  unfold path_remove. induction paths as [|[k []] paths IH]; [done|]. cbn [btree_remove].
  destruct (str_cmp path' k); cbn; rewrite ?elem_of_cons; tauto.
Qed.

Lemma path_insert_ok path paths : btree_ok paths → btree_ok (path_insert path paths).
Proof. apply btree_insert_ok. Qed.

Lemma path_append_ok a b : btree_ok a → btree_ok (path_append a b).
Proof. unfold path_append. revert a. induction b as [|p b IH]; intros a Ha; [done|]. by apply IH, path_insert_ok. Qed.

Lemma path_fold_ok {A} (f : A → str) l a :
  btree_ok a → btree_ok (fold_left (λ paths x, path_insert (f x) paths) l a).
Proof. revert a. induction l as [|x l IH]; intros a Ha; [done|]. by apply IH, path_insert_ok. Qed.
End path_sets.
