(* ===== verification/Float64.v ===== *)
(** * Binary64 arithmetic as the scores of the search use it

    The standard library's [SpecFloat] is IEEE 754 in executable form; the
    source's [f64] is its binary64 instance. The lemmas keep the arithmetic of
    non-negative numbers away from NaN, and show that comparison is then an
    order. *)

From Stdlib Require Import SpecFloat.
From S2P Require Import Prelude Ordering.

Local Open Scope Z_scope.

Abbreviation f64 := spec_float.
#[local] Abbreviation prec := 53%Z (only parsing).
#[local] Abbreviation emax := 1024%Z (only parsing).

(** [n as f64], rounded to nearest even. *)
Definition f64_of_Z (n : Z) : f64 := binary_normalize prec emax n 0 false.
Definition f64_add : f64 → f64 → f64 := SFadd prec emax.
Definition f64_mul : f64 → f64 → f64 := SFmul prec emax.
Definition f64_div : f64 → f64 → f64 := SFdiv prec emax.
(** [f64::partial_cmp] *)
Definition f64_partial_cmp : f64 → f64 → option comparison := SFcompare.

(** ** Non-negative and positive numbers

    [positive_from b x]: [x] is positive, and its exponent is at least [b]
    (which keeps products away from underflow). *)
Definition positive_from (b : Z) (x : f64) : Prop :=
  match x with
  | S754_infinity false => True
  | S754_finite false _ e => b <= e
  | _ => False
  end.

Definition nonneg (x : f64) : Prop := x = S754_zero false ∨ positive_from (-1074) x.

Definition f64_finite (x : f64) : Prop :=
  match x with S754_finite _ _ _ | S754_zero _ => True | _ => False end.

Lemma positive_from_le b b' x : b' <= b → positive_from b x → positive_from b' x.
Proof. destruct x as [[]|[]| |[] m e]; simpl; try done. lia. Qed.

Lemma positive_nonneg b x : -1074 <= b → positive_from b x → nonneg x.
Proof. intros Hb Hx. right. by eapply positive_from_le. Qed.

(** ** Rounding *)

Lemma digits2_pos_bounds p :
  2 ^ (Zpos (digits2_pos p) - 1) <= Zpos p < 2 ^ Zpos (digits2_pos p).
Proof.
  induction p as [p IH|p IH|]; cbn [digits2_pos]; [| |lia].
  all: rewrite Pos2Z.inj_succ.
  all: replace (Z.succ (Zpos (digits2_pos p)) - 1)
      with (Z.succ (Zpos (digits2_pos p) - 1)) by lia.
  all: rewrite !Z.pow_succ_r by lia; lia.
Qed.

Lemma shr_1_half mrs : 0 <= shr_m mrs → shr_m (shr_1 mrs) = shr_m mrs / 2.
Proof.
  destruct mrs as [[|[p|p|]|p] r s]; simpl; intros H; try done.
  all: Z.div_mod_to_equations; lia.
Qed.

Lemma iter_pos_half p mrs :
  0 <= shr_m mrs → shr_m (SpecFloat.iter_pos shr_1 p mrs) = shr_m mrs / 2 ^ Zpos p.
Proof.
  revert mrs. induction p as [p IH|p IH|]; intros mrs H; simpl SpecFloat.iter_pos.
  - assert (0 <= shr_m (shr_1 mrs)) by (rewrite shr_1_half by done; apply Z.div_pos; lia).
    rewrite IH; rewrite IH by done; [|apply Z.div_pos; lia].
    rewrite shr_1_half by done. rewrite !Zdiv.Zdiv_Zdiv by lia. f_equal.
    replace (Zpos p~1) with (1 + Zpos p + Zpos p) by lia.
    rewrite !Z.pow_add_r, Z.pow_1_r by lia. ring.
  - rewrite IH; rewrite IH by done; [|apply Z.div_pos; lia].
    rewrite !Zdiv.Zdiv_Zdiv by lia. f_equal.
    replace (Zpos p~0) with (Zpos p + Zpos p) by lia. by rewrite Z.pow_add_r by lia.
  - by rewrite shr_1_half.
Qed.

Lemma shr_fexp_spec m e l mrs e' :
  0 <= m → shr_fexp prec emax m e l = (mrs, e') →
  0 <= shr_m mrs ∧ e <= e' ∧ -1074 <= e' ∧ (0 < m → -1074 <= e → 0 < shr_m mrs).
Proof.
  intros Hm. unfold shr_fexp, shr, fexp, emin.
  assert (∀ l, shr_m (shr_record_of_loc m l) = m) as Hl by (intros [|[]]; done).
  assert (0 < m → 2 ^ (Zdigits2 m - 1) <= m) as Hd.
  { destruct m as [|p|p]; try lia. intros _. apply digits2_pos_bounds. }
  destruct (Z.max _ _ - e) as [|k|k] eqn:Ek; intros [= <- <-].
  - rewrite Hl. lia.
  - rewrite iter_pos_half, Hl by (by rewrite Hl). repeat split; [apply Z.div_pos; lia|lia|lia|].
    intros Hp He. specialize (Hd Hp). apply Z.div_str_pos. split; [lia|].
    etransitivity; [|exact Hd]. apply Z.pow_le_mono_r; lia.
  - rewrite Hl. lia.
Qed.

Lemma round_nearest_even_le m l : m <= round_nearest_even m l.
Proof. destruct l as [|[]]; simpl; try lia. destruct (Z.even m); lia. Qed.

Lemma binary_round_aux_spec m e l :
  0 <= m →
  nonneg (binary_round_aux prec emax false m e l) ∧
  (0 < m → -1074 <= e → positive_from e (binary_round_aux prec emax false m e l)).
Proof.
  intros Hm. unfold binary_round_aux.
  destruct (shr_fexp _ _ m e l) as [mrs1 e1] eqn:E1.
  destruct (shr_fexp_spec _ _ _ _ _ Hm E1) as (Hm1 & He1 & Hb1 & Hp1).
  pose proof (round_nearest_even_le (shr_m mrs1) (loc_of_shr_record mrs1)) as Hr.
  set (m2 := round_nearest_even _ _) in *.
  destruct (shr_fexp _ _ m2 e1 loc_Exact) as [mrs2 e2] eqn:E2.
  destruct (shr_fexp_spec m2 e1 loc_Exact _ _ ltac:(lia) E2) as (Hm2 & He2 & Hb2 & Hp2).
  destruct (shr_m mrs2) as [|p|p]; [split; [by left|lia]| |lia].
  destruct (Z.leb e2 _); split; try done.
  - right. simpl. lia.
  - intros _ _. simpl. lia.
  - by right.
Qed.

Lemma shl_align_exp m e e' : e' <= e → (shl_align m e e').2 = e'.
Proof. intros H. unfold shl_align. destruct (e' - e) eqn:E; simpl; lia. Qed.

Lemma shl_align_min m e e' : (shl_align m e e').2 = Z.min e e'.
Proof. unfold shl_align. destruct (e' - e) eqn:E; simpl; lia. Qed.

(** A positive integer times a power of two above the least exponent. *)
Lemma binary_normalize_positive m e b s :
  0 < m → -1074 <= e → b <= e → b <= 0 → b <= fexp prec emax (Zdigits2 m + e) →
  -1074 <= b → positive_from b (binary_normalize prec emax m e s).
Proof.
  intros Hm He Hbe Hb Hf Hb'. destruct m as [|p|p]; try lia. simpl. unfold binary_round.
  destruct (shl_align _ _ _) as [mz ez] eqn:E.
  assert (ez = Z.min e (fexp prec emax (Zpos (digits2_pos p) + e))) as Hez.
  { pose proof (shl_align_min p e (fexp prec emax (Zpos (digits2_pos p) + e))) as H.
    by rewrite E in H. }
  simpl in Hf. apply (positive_from_le ez); [lia|].
  apply binary_round_aux_spec; lia.
Qed.

Lemma fexp_least e : -1074 <= fexp prec emax e.
Proof. unfold fexp, emin. lia. Qed.

(** ** Operations *)

Lemma f64_of_Z_positive n : 0 < n → positive_from (-53) (f64_of_Z n).
Proof.
  intros Hn. apply binary_normalize_positive; try lia.
  unfold fexp, emin. destruct n; try lia. simpl. lia.
Qed.

Lemma f64_of_Z_nonneg n : 0 <= n → nonneg (f64_of_Z n).
Proof.
  intros Hn. destruct (decide (n = 0)) as [-> |]; [by left|].
  apply (positive_nonneg (-53)); [lia|]. apply f64_of_Z_positive. lia.
Qed.

Lemma f64_add_positive x y :
  nonneg x → nonneg y → positive_from (-1074) x ∨ positive_from (-1074) y →
  positive_from (-1074) (f64_add x y).
Proof.
  intros [-> |Hx] [-> |Hy] Hxy; try by destruct Hxy.
  - by destruct y as [[]|[]| |[] m e].
  - by destruct x as [[]|[]| |[] m e].
  - destruct x as [[]|[]| |[] m e], y as [[]|[]| |[] m' e']; try done. simpl in *.
    apply (binary_normalize_positive (Zpos (_ + _)) _ _ false); try lia. apply fexp_least.
Qed.

Lemma f64_add_nonneg x y : nonneg x → nonneg y → nonneg (f64_add x y).
Proof.
  intros Hx Hy. destruct Hx as [-> |Hx]; [destruct Hy as [-> |Hy]; [by left|]|].
  all: apply (positive_nonneg (-1074)); [lia|]; apply f64_add_positive;
    (by left) || (by right) || auto.
Qed.

Lemma f64_mul_nonneg x y :
  positive_from (-1074) x → positive_from (-1074) y → nonneg (f64_mul x y).
Proof.
  destruct x as [[]|[]| |[] m e], y as [[]|[]| |[] m' e']; simpl; try done; try (by right).
  intros _ _. apply binary_round_aux_spec. lia.
Qed.

Lemma f64_mul_positive b b' x y :
  -1074 <= b + b' → positive_from b x → positive_from b' y → positive_from (b + b') (f64_mul x y).
Proof.
  intros Hb. destruct x as [[]|[]| |[] m e], y as [[]|[]| |[] m' e']; simpl; try done.
  intros He He'. apply (positive_from_le (e + e')); [lia|].
  apply binary_round_aux_spec; lia.
Qed.

Lemma f64_div_nonneg x y :
  nonneg x → f64_finite x → positive_from (-1074) y → nonneg (f64_div x y).
Proof.
  intros [-> |Hx] Hf Hy.
  - destruct y as [[]|[]| |[] m e]; try done; by left.
  - destruct x as [[]|[]| |[] m e], y as [[]|[]| |[] m' e']; try done; [by left|].
    unfold f64_div, SFdiv, SFdiv_core_binary.
    set (mm := match _ with Z0 => _ | Zpos _ => _ | Zneg _ => _ end).
    assert (0 <= mm) as Hmm.
    { subst mm. destruct (_ - _ - _); try lia. by apply Z.shiftl_nonneg. }
    pose proof (Z.div_pos mm (Zpos m') Hmm ltac:(lia)) as Hq. unfold Z.div in Hq.
    destruct (Z.div_eucl mm (Zpos m')) as [q r]. by apply binary_round_aux_spec.
Qed.

(** ** Order: on non-negative numbers comparison is the lexicographic order of
    exponent and mantissa, zero below and infinity above. *)

Definition f64_key (x : f64) : Z * Z * Z :=
  match x with
  | S754_finite _ m e => (1, e, Zpos m)
  | S754_infinity _ => (2, 0, 0)
  | _ => (0, 0, 0)
  end.

Definition key_cmp (a b : Z * Z * Z) : comparison :=
  then_with (a.1.1 ?= b.1.1) (then_with (a.1.2 ?= b.1.2) (a.2 ?= b.2)).

#[export] Instance key_cmp_total : TotalCmp key_cmp.
Proof.
  apply (then_with_total (λ a b, a.1.1 ?= b.1.1)); [|apply then_with_total];
    apply (on_total Z.compare); apply _.
Qed.

Lemma f64_partial_cmp_key x y :
  nonneg x → nonneg y → f64_partial_cmp x y = Some (key_cmp (f64_key x) (f64_key y)).
Proof.
  unfold nonneg.
  destruct x as [[]|[]| |[] m e], y as [[]|[]| |[] m' e']; simpl;
    intros [Hx|Hx] [Hy|Hy]; try done.
  unfold key_cmp. simpl. by destruct (e ?= e').
Qed.

Lemma f64_partial_cmp_opp x y :
  default Eq (f64_partial_cmp y x) = CompOpp (default Eq (f64_partial_cmp x y)).
Proof.
  destruct x as [[]|[]| |[] m e], y as [[]|[]| |[] m' e']; simpl; try done;
    rewrite (Z.compare_antisym e e');
    destruct (e ?= e') eqn:E; simpl; try done;
    fold (m' ?= m)%positive (m ?= m')%positive; by rewrite (Pos.compare_antisym m m').
Qed.
