(* ===== verification/Utf8.v ===== *)
(** * Bytes as text

    [String::from_utf8] and [String::from_utf8_lossy] of the standard library. *)

From S2P Require Import Prelude Strings.

Definition REPLACEMENT_CHARACTER : char := 0xFFFD.

(** A character that is not a surrogate: what a Rust [char] can be. *)
Definition usv (c : char) : Prop := (c < 0xD800 ∨ 0xE000 ≤ c < 0x110000)%N.

#[export] Instance usv_dec c : Decision (usv c).
Proof. unfold usv. apply _. Defined.

Definition continuation (b : N) : bool := ((0x80 <=? b) && (b <=? 0xBF))%N.

(** The second bytes a lead byte of three or four bytes takes. *)
Definition second_of_three (b0 b1 : N) : bool :=
  (if b0 =? 0xE0 then (0xA0 <=? b1) && (b1 <=? 0xBF)
   else if b0 =? 0xED then (0x80 <=? b1) && (b1 <=? 0x9F)
   else continuation b1)%N.
Definition second_of_four (b0 b1 : N) : bool :=
  (if b0 =? 0xF0 then (0x90 <=? b1) && (b1 <=? 0xBF)
   else if b0 =? 0xF4 then (0x80 <=? b1) && (b1 <=? 0x8F)
   else continuation b1)%N.

(** The first character of [b0 :: rest], or [None] for a maximal run of bytes
    that is the start of none; and what follows. *)
Definition next_char (b0 : N) (rest : list N) : option char * list N :=
  (if b0 <? 0x80 then (Some b0, rest)
   else if (0xC2 <=? b0) && (b0 <=? 0xDF) then
     match rest with
     | b1 :: r1 =>
         if continuation b1 then (Some ((b0 - 0xC0) * 64 + (b1 - 0x80)), r1) else (None, rest)
     | [] => (None, rest)
     end
   else if (0xE0 <=? b0) && (b0 <=? 0xEF) then
     match rest with
     | b1 :: r1 =>
         if second_of_three b0 b1 then
           match r1 with
           | b2 :: r2 =>
               if continuation b2
               then (Some ((b0 - 0xE0) * 4096 + (b1 - 0x80) * 64 + (b2 - 0x80)), r2)
               else (None, r1)
           | [] => (None, r1)
           end
         else (None, rest)
     | [] => (None, rest)
     end
   else if (0xF0 <=? b0) && (b0 <=? 0xF4) then
     match rest with
     | b1 :: r1 =>
         if second_of_four b0 b1 then
           match r1 with
           | b2 :: r2 =>
               if continuation b2 then
                 match r2 with
                 | b3 :: r3 =>
                     if continuation b3
                     then (Some ((b0 - 0xF0) * 262144 + (b1 - 0x80) * 4096 + (b2 - 0x80) * 64
                                 + (b3 - 0x80)), r3)
                     else (None, r2)
                 | [] => (None, r2)
                 end
               else (None, r1)
           | [] => (None, r1)
           end
         else (None, rest)
     | [] => (None, rest)
     end
   else (None, rest))%N.

(** The chunks of some bytes; a chunk takes at least one of them. *)
Fixpoint utf8_chunks (fuel : nat) (bytes : list N) : list (option char) :=
  match fuel, bytes with
  | S fuel, b0 :: rest => let '(c, rest) := next_char b0 rest in c :: utf8_chunks fuel rest
  | _, _ => []
  end.

Definition chunks (bytes : list N) : list (option char) := utf8_chunks (length bytes) bytes.

Definition from_utf8 (bytes : list N) : option str := mapM id (chunks bytes).
Definition from_utf8_lossy (bytes : list N) : str :=
  map (default REPLACEMENT_CHARACTER) (chunks bytes).

(** ** Facts *)

Lemma next_char_length b0 rest : length (next_char b0 rest).2 ≤ length rest.
Proof.
  unfold next_char. repeat case_match; simplify_eq/=; simpl; lia.
Qed.

Lemma utf8_chunks_fuel fuel bytes : length bytes ≤ fuel → utf8_chunks fuel bytes = chunks bytes.
Proof.
  unfold chunks. remember (length bytes) as n eqn:Hn. assert (length bytes ≤ n) as Hle by lia. clear Hn.
  revert fuel n Hle. induction bytes as [bytes IH] using (induction_ltof1 _ (@length N)).
  intros [|fuel] [|n] Hn Hf; destruct bytes as [|b0 rest]; try done; simpl in Hn; try lia.
  cbn [utf8_chunks]. pose proof (next_char_length b0 rest) as Hl.
  destruct (next_char b0 rest) as [c rest']. simpl in Hl. f_equal.
  apply IH; [unfold ltof; simpl; lia|lia|lia].
Qed.

Lemma chunks_cons b0 rest :
  chunks (b0 :: rest) = (next_char b0 rest).1 :: chunks (next_char b0 rest).2.
Proof.
  unfold chunks at 1. cbn [length utf8_chunks]. pose proof (next_char_length b0 rest).
  destruct (next_char b0 rest). simpl in *. by rewrite utf8_chunks_fuel.
Qed.

#[local] Ltac Zify.zify_post_hook ::= Z.to_euclidean_division_equations.

Ltac decide_bytes :=
  repeat first
    [ rewrite (proj2 (N.ltb_ge _ _)) by lia | rewrite (proj2 (N.leb_le _ _)) by lia
    | rewrite (proj2 (N.leb_gt _ _)) by lia ]; cbn [andb].

(** One encoded character is read back. *)
Lemma next_char_utf8 c rest :
  usv c → ∃ b0 more, utf8_char c = b0 :: more ∧ next_char b0 (more ++ rest) = (Some c, rest).
Proof.
  intros Hc. unfold usv in Hc. unfold utf8_char.
  destruct (c <? 0x80)%N eqn:E1; [exists c, []; split; [done|]; unfold next_char; by rewrite E1|].
  destruct (c <? 0x800)%N eqn:E2; [|destruct (c <? 0x10000)%N eqn:E3]; bool_to_prop;
    do 2 eexists; (split; [done|]); unfold next_char, continuation; cbn [app].
  - decide_bytes. do 2 f_equal. lia.
  - decide_bytes.
    assert (second_of_three (0xE0 + c / 4096) (0x80 + (c / 64) mod 64) = true) as ->.
    { unfold second_of_three, continuation.
      destruct (N.eqb_spec (0xE0 + c / 4096) 0xE0)%N; [by decide_bytes|].
      destruct (N.eqb_spec (0xE0 + c / 4096) 0xED)%N; by decide_bytes. }
    decide_bytes. do 2 f_equal. lia.
  - decide_bytes.
    assert (second_of_four (0xF0 + c / 262144) (0x80 + (c / 4096) mod 64) = true) as ->.
    { unfold second_of_four, continuation.
      destruct (N.eqb_spec (0xF0 + c / 262144) 0xF0)%N; [by decide_bytes|].
      destruct (N.eqb_spec (0xF0 + c / 262144) 0xF4)%N; by decide_bytes. }
    decide_bytes. do 2 f_equal. lia.
Qed.

Lemma chunks_as_bytes s : Forall usv s → chunks (as_bytes s) = map Some s.
Proof.
  induction 1 as [|c s Hc _ IH]; [done|]. cbn [as_bytes flat_map map].
  destruct (next_char_utf8 c (flat_map utf8_char s) Hc) as (b0 & more & -> & Hn).
  cbn [app]. rewrite chunks_cons, Hn. cbn [fst snd]. f_equal. apply IH.
Qed.

(** Text survives a trip through bytes. *)
Lemma from_utf8_as_bytes s : Forall usv s → from_utf8 (as_bytes s) = Some s.
Proof.
  intros Hs. unfold from_utf8. rewrite chunks_as_bytes by done. clear Hs.
  induction s as [|c s IH]; [done|]. cbn [map mapM]. cbn. by rewrite IH.
Qed.

Lemma from_utf8_lossy_as_bytes s : Forall usv s → from_utf8_lossy (as_bytes s) = s.
Proof.
  intros Hs. unfold from_utf8_lossy. rewrite chunks_as_bytes, map_map by done. apply map_id.
Qed.

Lemma ascii_usv s : Forall (λ c, c < 128)%N s → Forall usv s.
Proof. intros Hs. eapply Forall_impl; [exact Hs|]. intros c Hc. left. simpl in Hc. lia. Qed.

Lemma as_bytes_ascii s : Forall (λ c, c < 128)%N s → as_bytes s = s.
Proof.
  induction 1 as [|c s Hc _ IH]; [done|]. cbn [as_bytes flat_map]. unfold utf8_char at 1.
  rewrite (proj2 (N.ltb_lt _ _)) by done. cbn [app]. by f_equal.
Qed.

(** Only the encoding of a text reads as it. *)
Lemma next_char_Some b0 rest c r :
  next_char b0 rest = (Some c, r) → utf8_char c ++ r = b0 :: rest.
Proof.
  unfold next_char. destruct (b0 <? 0x80)%N eqn:E.
  { intros [= <- <-]. unfold utf8_char. by rewrite E. }
  destruct ((0xC2 <=? b0) && (b0 <=? 0xDF))%N eqn:E2.
  { destruct rest as [|b1 r1]; [done|]. destruct (continuation b1) eqn:Ec; [|done].
    intros [= <- <-]. unfold continuation in Ec. bool_to_prop. unfold utf8_char.
    rewrite (proj2 (N.ltb_ge _ _)) by lia. rewrite (proj2 (N.ltb_lt _ _)) by lia.
    cbn [app]. repeat f_equal; lia. }
  destruct ((0xE0 <=? b0) && (b0 <=? 0xEF))%N eqn:E3.
  { destruct rest as [|b1 r1]; [done|]. destruct (second_of_three b0 b1) eqn:Es; [|done].
    destruct r1 as [|b2 r2]; [done|]. destruct (continuation b2) eqn:Ec; [|done].
    intros [= <- <-]. unfold continuation in Ec.
    assert (0x80 <= b1 <= 0xBF ∧ (b0 = 0xE0 → 0xA0 <= b1))%N as [? ?].
    { unfold second_of_three, continuation in Es.
      destruct (N.eqb_spec b0 0xE0), (N.eqb_spec b0 0xED); bool_to_prop; lia. }
    bool_to_prop. unfold utf8_char. rewrite !(proj2 (N.ltb_ge _ _)) by lia.
    rewrite (proj2 (N.ltb_lt _ _)) by lia. cbn [app]. repeat f_equal; lia. }
  destruct ((0xF0 <=? b0) && (b0 <=? 0xF4))%N eqn:E4; [|done].
  destruct rest as [|b1 r1]; [done|]. destruct (second_of_four b0 b1) eqn:Es; [|done].
  destruct r1 as [|b2 r2]; [done|]. destruct (continuation b2) eqn:Ec; [|done].
  destruct r2 as [|b3 r3]; [done|]. destruct (continuation b3) eqn:Ec'; [|done].
  intros [= <- <-]. unfold continuation in Ec, Ec'.
  assert (0x80 <= b1 <= 0xBF ∧ (b0 = 0xF0 → 0x90 <= b1))%N as [? ?].
  { unfold second_of_four, continuation in Es.
    destruct (N.eqb_spec b0 0xF0), (N.eqb_spec b0 0xF4); bool_to_prop; lia. }
  bool_to_prop. unfold utf8_char. rewrite !(proj2 (N.ltb_ge _ _)) by lia.
  cbn [app]. repeat f_equal; lia.
Qed.

Lemma from_utf8_exact bytes s : from_utf8 bytes = Some s → as_bytes s = bytes.
Proof.
  unfold from_utf8. revert s. induction bytes as [bytes IH] using (induction_ltof1 _ (@length N)).
  intros s. destruct bytes as [|b0 rest]; [by intros [= <-]|]. rewrite chunks_cons.
  pose proof (next_char_length b0 rest) as Hl.
  destruct (next_char b0 rest) as [[c|] r] eqn:E; [|done]. cbn [fst snd mapM] in *. cbn.
  destruct (mapM id (chunks r)) as [s'|] eqn:Es; [|done]. intros [= <-].
  cbn [as_bytes flat_map]. fold (as_bytes s'). rewrite (IH r); [|unfold ltof; simpl; lia|done].
  by apply next_char_Some.
Qed.
