(* ===== verification/Write.v ===== *)
(** * The write document ([write.rs])

    What the phone encrypts into a write payload and the desk applies: the
    data, its validation, and the reader that tells a document from a newer
    phone apart from garbage. *)

From S2P Require Import Prelude Strings.

Definition WRITE_VERSION : N := 1.

(** ** Data *)

Record Heading := mkHeading {
  Heading_text : str;
  Heading_level : nat;
  Heading_ordinal : nat;
}.

Definition default_level : nat := 2.

Definition Heading_new (text : str) : Heading := mkHeading text default_level 0.

(** [Heading::line]: the line that creates the heading when a note lacks it. *)
Definition Heading_line (h : Heading) : str :=
  let level := Nat.min (Nat.max (Heading_level h) 1) 6 in
  replicate level (ch "#") ++ u " " ++ trim (Heading_text h).

Inductive Placement := End | BeforeChildren.

Record Anchor := mkAnchor {
  Anchor_line_hash : str;
  Anchor_ordinal : nat;
}.

Inductive Place :=
  | Place_Top
  | Place_End
  | Place_After (line_hash : str) (ordinal : nat).

Inductive Operation :=
  | Create (content : str)
  | Append (heading : option Heading) (lines : list str) (placement : Placement)
      (blank_line_before create_from_template : bool) (after : option Anchor)
  | ReplaceLine (heading : option Heading) (line_hash : str) (ordinal : nat) (new_line : str)
  | RemoveLine (heading : option Heading) (line_hash : str) (ordinal : nat)
  | ReplaceSection (heading : Heading) (base_hash : str) (lines : list str)
  | MoveBlock (heading : option Heading) (line_hash : str) (ordinal : nat)
      (to : option Heading) (place : Place) (new_line : option str)
      (create_under : option Heading)
  | RemoveBlock (heading : option Heading) (line_hash : str) (ordinal : nat)
  | PutFile (content_base64 content_hash : str)
  | MoveFile (to : str).

Definition KNOWN_KINDS : list str :=
  [u "create"; u "append"; u "replace_line"; u "remove_line"; u "replace_section";
   u "move_block"; u "remove_block"; u "put_file"; u "move_file"].

Definition Operation_kind (op : Operation) : str :=
  match op with
  | Create _ => u "create"
  | Append _ _ _ _ _ _ => u "append"
  | ReplaceLine _ _ _ _ => u "replace_line"
  | RemoveLine _ _ _ => u "remove_line"
  | ReplaceSection _ _ _ => u "replace_section"
  | MoveBlock _ _ _ _ _ _ _ => u "move_block"
  | RemoveBlock _ _ _ => u "remove_block"
  | PutFile _ _ => u "put_file"
  | MoveFile _ => u "move_file"
  end.

(** Whether the write changes files rather than the text inside one. *)
Definition is_file_level (op : Operation) : bool :=
  match op with PutFile _ _ | MoveFile _ => true | _ => false end.

Definition Operation_heading (op : Operation) : option Heading :=
  match op with
  | Create _ | PutFile _ _ | MoveFile _ => None
  | Append h _ _ _ _ _ | ReplaceLine h _ _ _ | RemoveLine h _ _
  | MoveBlock h _ _ _ _ _ _ | RemoveBlock h _ _ => h
  | ReplaceSection h _ _ => Some h
  end.

(** Every heading the write names, for validation. *)
Definition Operation_headings (op : Operation) : list Heading :=
  option_list (Operation_heading op) ++
  match op with
  | MoveBlock _ _ _ to _ _ create_under => option_list to ++ option_list create_under
  | _ => []
  end.

Record Write := mkWrite {
  Write_v : N;
  Write_client_id : str;
  Write_path : str;
  Write_made_at : str;
  Write_device_id : str;
  Write_operation : Operation;
}.

(** [Write::new] *)
Definition Write_new (client_id path : str) (operation : Operation) : Write :=
  mkWrite WRITE_VERSION client_id path [] [] operation.

(** ** Errors *)

Inductive WriteError :=
  | Json (message : str)
  | UnsupportedVersion (version : N)
  | UnsupportedKind (kind : str)
  | MissingClientId
  | MissingPath
  | LineBreakInLine
  | EmptyHeading
  | BadDestination
  | MissingBytes.

(** Well formed, but from a newer build than this one: held, not discarded. *)
Definition needs_newer_reader (e : WriteError) : bool :=
  match e with
  | UnsupportedVersion version => (WRITE_VERSION <? version)%N
  | UnsupportedKind _ => true
  | _ => false
  end.

(** ** Validation *)

Definition is_empty (s : str) : bool := s == [].

Definition has_break (line : str) : bool :=
  existsb (λ c, (c =? 10)%N) line || existsb (λ c, (c =? 13)%N) line.

(** The test of the second half of [validate]: the lines the write inserts. *)
Definition has_broken_line (op : Operation) : bool :=
  match op with
  | Create _ => false
  | Append _ lines _ _ _ _ | ReplaceSection _ _ lines => existsb has_break lines
  | ReplaceLine _ _ _ new_line => has_break new_line
  | MoveBlock _ _ _ _ _ new_line _ => is_some_and has_break new_line
  | RemoveLine _ _ _ | RemoveBlock _ _ _ | PutFile _ _ | MoveFile _ => false
  end.

Definition validate (write : Write) : result unit WriteError :=
  err_if (Write_v write != WRITE_VERSION) (UnsupportedVersion (Write_v write)) (
  err_if (is_empty (trim (Write_client_id write))) MissingClientId (
  err_if (is_empty (trim (Write_path write))) MissingPath (
  err_if (existsb (λ h, is_empty (trim (Heading_text h))) (Operation_headings (Write_operation write)))
    EmptyHeading (
  err_if (has_broken_line (Write_operation write)) LineBreakInLine (
  match Write_operation write with
  | MoveFile to =>
      err_if (is_empty (trim to) || (to == Write_path write)) BadDestination (Ok tt)
  | PutFile content_base64 content_hash =>
      err_if (is_empty (trim content_base64) || is_empty (trim content_hash)) MissingBytes (Ok tt)
  | _ => Ok tt
  end))))).

(** ** Reading

    JSON itself (crate [serde_json]) and the reader derived from the type
    definitions (crate [serde]) are not part of the source. *)
Class JsonReader := {
  Value : Type;
  from_str : str → result Value str;
  get : str → Value → option Value;
  as_u64 : Value → option N;
  as_str : Value → option str;
  from_value : Value → result Write str;
}.

(** The derived reader fills the integer [v] from the document's [v]. *)
Class JsonReaderLaws `{JsonReader} : Prop := {
  from_value_v value w :
    from_value value = Ok w → (get (u "v") value ≫= as_u64) = Some (Write_v w);
}.

Definition u32_max : N := 0xFFFFFFFF.

Section reading.
Context `{JsonReader}.

Definition map_err {A} (r : result A str) : result A WriteError :=
  match r with Ok a => Ok a | Err e => Err (Json e) end.

Definition parse_write (json : str) : result Write WriteError :=
  value ←! map_err (from_str json);
  let version := get (u "v") value ≫= as_u64 in
  err_if (is_some_and (λ version, version != WRITE_VERSION) version)
    (* [u32::try_from(version).unwrap_or(u32::MAX)] *)
    (UnsupportedVersion (N.min (default 0%N version) u32_max)) (
  let kind := get (u "kind") value ≫= as_str in
  err_if (is_some_and (λ kind, negb (existsb (λ k, kind == k) KNOWN_KINDS)) kind)
    (UnsupportedKind (default [] kind)) (
  write ←! map_err (from_value value);
  _ ←! validate write;
  Ok write)).
End reading.

(** ** What validation promises *)

(** Every line of the note a write spells out. *)
Definition inserted_lines (op : Operation) : list str :=
  match op with
  | Append _ lines _ _ _ _ | ReplaceSection _ _ lines => lines
  | ReplaceLine _ _ _ new_line => [new_line]
  | MoveBlock _ _ _ _ _ new_line _ => option_list new_line
  | _ => []
  end.

(** A write this build can apply. *)
Record valid_write (w : Write) : Prop := {
  valid_version : Write_v w = WRITE_VERSION;
  valid_client : trim (Write_client_id w) ≠ [];
  valid_path : trim (Write_path w) ≠ [];
  valid_headings h : h ∈ Operation_headings (Write_operation w) → trim (Heading_text h) ≠ [];
  valid_lines t : t ∈ inserted_lines (Write_operation w) → 10%N ∉ t ∧ 13%N ∉ t;
  valid_destination to : Write_operation w = MoveFile to → trim to ≠ [] ∧ to ≠ Write_path w;
  valid_bytes b h : Write_operation w = PutFile b h → trim b ≠ [] ∧ trim h ≠ [];
}.

Lemma is_empty_false s : is_empty s = false ↔ s ≠ [].
Proof. apply bool_decide_eq_false. Qed.

Lemma existsb_eqb_false (x : N) t : existsb (λ c, (c =? x)%N) t = false ↔ x ∉ t.
Proof.
  rewrite existsb_false, Forall_forall. split.
  - intros H Hin. specialize (H x Hin). by apply N.eqb_neq in H.
  - intros H y Hy. apply N.eqb_neq. by intros ->.
Qed.

Lemma has_broken_line_false op :
  has_broken_line op = false ↔ ∀ t, t ∈ inserted_lines op → 10%N ∉ t ∧ 13%N ∉ t.
Proof.
  assert (∀ t, has_break t = false ↔ 10%N ∉ t ∧ 13%N ∉ t) as Hb.
  { intros t. unfold has_break. by rewrite orb_false_iff, !existsb_eqb_false. }
  assert (∀ ls, existsb has_break ls = false ↔ ∀ t, t ∈ ls → 10%N ∉ t ∧ 13%N ∉ t) as Hl.
  { intros ls. rewrite existsb_false, Forall_forall. by setoid_rewrite Hb. }
  assert (∀ t : str, t ∈ [] → 10%N ∉ t ∧ 13%N ∉ t) as Hnil
    by (intros t ?%not_elem_of_nil; done).
  destruct op as [|? ls| ? ? ? t| |? ? ls|? ? ? ? ? [t|]| | |]; simpl; try (by split); try apply Hl.
  - setoid_rewrite list_elem_of_singleton. rewrite Hb. split; [by intros ? ? ->|auto].
  - setoid_rewrite list_elem_of_singleton. rewrite Hb. split; [by intros ? ? ->|auto].
Qed.

Lemma validate_spec_lemma w : validate w = Ok tt ↔ valid_write w.
Proof.
  unfold validate. rewrite !err_if_Ok, negb_false_iff, bool_decide_eq_true.
  rewrite !is_empty_false, existsb_false, Forall_forall, has_broken_line_false.
  setoid_rewrite is_empty_false. split.
  - intros (? & ? & ? & ? & ? & Hop). split; try done.
    + intros to E. rewrite E in Hop. apply err_if_Ok in Hop as [[? ?]%orb_false_iff _].
      bool_to_prop. by rewrite <- is_empty_false.
    + intros b h E. rewrite E in Hop. apply err_if_Ok in Hop as [[? ?]%orb_false_iff _].
      by rewrite <- !is_empty_false.
  - intros []. split_and!; try done.
    destruct (Write_operation w) as [| | | | | | |b h|to]; try done; apply err_if_Ok;
      rewrite orb_false_iff, ?is_empty_false; (split; [|done]).
    + by apply valid_bytes0.
    + rewrite bool_decide_eq_false. by apply valid_destination0.
Qed.

(** Validation accepts exactly the writes this build can apply. *)
Theorem validate_spec w : validate w = Ok tt ↔ valid_write w.
Proof. apply validate_spec_lemma. Qed.

Lemma known_kind_spec (kind : option str) :
  is_some_and (λ kind, negb (existsb (λ k, kind == k) KNOWN_KINDS)) kind = false ↔
  ∀ k, kind = Some k → k ∈ KNOWN_KINDS.
Proof.
  destruct kind as [k|]; cbn [is_some_and]; [|done]. rewrite negb_false_iff, existsb_exists. split.
  - intros (k' & Hin%list_elem_of_In & ->%bool_decide_eq_true) _ [= <-]. done.
  - intros Hk. exists k. split; [apply list_elem_of_In; by apply Hk|by apply bool_decide_eq_true].
Qed.

Section accepting.
Context `{JsonReader}.

(** C40: what a reader accepts. A text is taken for a write exactly when it is
    JSON, a number it gives for the version is this build's, a text it gives for
    the kind is one this build knows, the derived reader makes the write of it,
    and the write is valid: its client, path, headings, hashes and lines are
    those of a write that can be applied. *)
Theorem parse_write_sound json w :
  parse_write json = Ok w ↔
  valid_write w ∧ ∃ value, from_str json = Ok value ∧ from_value value = Ok w ∧
    (∀ v, (get (u "v") value ≫= as_u64) = Some v → v = WRITE_VERSION) ∧
    (∀ kind, (get (u "kind") value ≫= as_str) = Some kind → kind ∈ KNOWN_KINDS).
Proof.
  unfold parse_write. destruct (from_str json) as [value|e]; cbn [map_err result_bind].
  2:{ split; [done|]. by intros (_ & ? & ? & _). }
  rewrite !err_if_Ok, known_kind_spec. rewrite <- validate_spec_lemma. split.
  - intros (Hv & Hk & Hw). destruct (from_value value) as [w'|e] eqn:E; [|done]. cbn [map_err result_bind] in Hw.
    destruct (validate w') as [[]|e] eqn:Ev; cbn [result_bind] in Hw; [|done]. injection Hw as ->.
    split; [done|]. exists value. split_and!; [done|done| |done]. intros v Hsome. rewrite Hsome in Hv. cbn in Hv.
    by apply negb_false_iff, bool_decide_eq_true in Hv.
  - intros (Hval & ? & [= <-] & E & Hv & Hk). rewrite E. cbn [map_err result_bind]. rewrite Hval. split_and!; [|done|done].
    destruct (get (u "v") value ≫= as_u64) as [v|]; [|done]. cbn. rewrite (Hv v) by done. done.
Qed.
End accepting.

Section reading_facts.
Context `{JsonReaderLaws}.

(** The document asks for a newer reader. *)
Definition from_newer (value : Value) : Prop :=
  let version := get (u "v") value ≫= as_u64 in
  let kind := get (u "kind") value ≫= as_str in
  (∃ v, version = Some v ∧ (WRITE_VERSION < v)%N) ∨
  ((version = None ∨ version = Some WRITE_VERSION) ∧ ∃ k, kind = Some k ∧ k ∉ KNOWN_KINDS).

Lemma unknown_kind_spec (kind : option str) :
  is_some_and (λ kind, negb (existsb (λ k, kind == k) KNOWN_KINDS)) kind = true ↔
  ∃ k, kind = Some k ∧ k ∉ KNOWN_KINDS.
Proof.
  destruct kind as [k|]; cbn [is_some_and]; [|by split; [|intros (? & ? & _)]].
  rewrite negb_true_iff, existsb_false, Forall_forall. setoid_rewrite bool_decide_eq_false. split.
  - intros Hn. exists k. split; [done|]. intros Hin. by apply (Hn k Hin).
  - intros (? & [= <-] & Hn) x Hx ->. done.
Qed.

(** What validation refuses in a write of this version, no reader accepts. *)
Lemma validate_not_held w e :
  Write_v w = WRITE_VERSION → validate w = Err e → needs_newer_reader e = false.
Proof.
  intros Hwv. unfold validate. rewrite Hwv, bool_decide_eq_true_2 by done.
  cbn [negb err_if]. unfold err_if. intros Ev. repeat split_match_in Ev; by simplify_eq.
Qed.

(** A write is held for a newer reader exactly when its document names a
    later version, or names this version or none and a kind this build does
    not know. Everything else that fails is discarded. *)
Theorem parse_write_held json :
  (∃ e, parse_write json = Err e ∧ needs_newer_reader e = true) ↔
  ∃ value, from_str json = Ok value ∧ from_newer value.
Proof.
  unfold parse_write. destruct (from_str json) as [value|e]; cbn [map_err result_bind].
  2:{ split; [by intros (? & [= <-] & ?)|by intros (? & ? & _)]. }
  transitivity (from_newer value); [|split; [eauto|by intros (? & [= <-] & ?)]].
  unfold from_newer. cbn zeta. pose proof (from_value_v value) as Hlaw.
  set (version := get (u "v") value ≫= as_u64) in *.
  set (kind := get (u "kind") value ≫= as_str). rewrite <- (unknown_kind_spec kind).
  destruct version as [v|].
  2:{ cbn [is_some_and err_if]. destruct (is_some_and _ kind); cbn [err_if].
      - split; [intros _; right; auto|]. intros _. eexists; split; [done|done].
      - split; [|by intros [(? & ? & _)|[_ ?]]]. intros (e & He & Hn). exfalso.
        destruct (from_value value) as [w|] eqn:Ew; [by specialize (Hlaw _ eq_refl)|]. simpl in He.
        by simplify_eq. }
  cbn [is_some_and default from_option id]. case_bool_decide as Hv; cbn [negb err_if].
  2:{ split.
      - intros (? & [= <-] & Hn). left. exists v. split; [done|]. simpl in Hn. bool_to_prop.
        unfold WRITE_VERSION, u32_max in *. lia.
      - intros [(? & [= <-] & Hlt)|[[?|?] _]]; [|done|congruence]. eexists; split; [done|].
        simpl. apply N.ltb_lt. unfold WRITE_VERSION, u32_max in *. lia. }
  subst v. destruct (is_some_and _ kind); cbn [err_if].
  - split; [intros _; right; auto|]. intros _. eexists; split; [done|done].
  - split; [|intros [(? & [= <-] & Hlt)|[_ ?]]; [by apply N.lt_irrefl in Hlt|done]].
    intros (e & He & Hn). exfalso.
    destruct (from_value value) as [w|] eqn:Ew; cbn [map_err result_bind] in He; [|by simplify_eq].
    destruct (validate w) as [[]|e'] eqn:Eval; cbn [result_bind] in He; simplify_eq.
    apply validate_not_held in Eval; [congruence|]. specialize (Hlaw _ eq_refl). congruence.
Qed.
End reading_facts.
