(* ===== verification/Samples.v ===== *)
(** * Concrete instances of the external classes

    For the witnesses only: each shows that the laws a theorem assumes can
    hold, and gives its definitions something to compute with. None is an
    instance that resolution finds by itself. *)

From S2P Require Import Prelude Strings External Write.

(** Unicode tables of a few scripts: nothing beyond ASCII has case. *)
Definition ascii_tables : UnicodeTables := {|
  table_alphanumeric c := (0x4E00 <=? c)%N && (c <=? 0x9FFF)%N;
  table_lowercase c := [c];
  table_cased c := ((65 <=? c) && (c <=? 90) || (97 <=? c) && (c <=? 122))%N;
  table_case_ignorable c := ((c =? 39) || (c =? 46))%N;
|}.

Lemma ascii_tables_laws : @UnicodeLaws ascii_tables.
Proof.
  split; simpl; intros c Hc; bool_to_prop; [done|].
  rewrite elem_of_cons. intros [?|?%elem_of_nil]; [|done]. lia.
Defined.

(** A digest of the documented size, and lowercase hex. *)
Definition checksum (b : list N) : N := fold_left (λ acc x, (acc * 257 + x + 1) mod 2 ^ 256)%N b 0%N.
Fixpoint le_bytes (n : nat) (x : N) : list N :=
  match n with 0 => [] | S n => (x mod 256)%N :: le_bytes n (x / 256)%N end.
Definition hex_digit (d : N) : char := (if d <? 10 then 48 + d else 87 + d)%N.
Definition hex_byte (b : N) : str := [hex_digit (b / 16)%N; hex_digit (b mod 16)%N].

Definition toy_digest : Digest := {|
  sha256 b := le_bytes 32 (checksum b);
  hex_encode b := flat_map hex_byte b;
|}.

Lemma toy_digest_laws : @DigestLaws toy_digest.
Proof.
  split; simpl; [done|]. intros b. induction b as [|x b IH]; simpl; [done|]. rewrite IH. lia.
Defined.

(** A reader of documents that are one number, the version, and one character
    of kind: enough to hold a write of each sort. *)
Inductive toy_value := ToyNumber (x : N) | ToyText (s : str) | ToyWrite (v : N) (op : option Operation).

Definition toy_operation (c : char) : option Operation :=
  if (c =? 97)%N then Some (Append None [u "x"] End false false None)
  else if (c =? 99)%N then Some (Create (u "x"))
  else None.

Definition toy_reader : JsonReader := {|
  Value := toy_value;
  from_str json := match json with [v; c] => Ok (ToyWrite v (toy_operation c)) | _ => Err (u "bad") end;
  get key value :=
    match value with
    | ToyWrite v op =>
        if key == u "v" then Some (ToyNumber v)
        else if key == u "kind" then Some (ToyText (from_option Operation_kind (u "new_kind") op))
        else None
    | _ => None
    end;
  as_u64 value := match value with ToyNumber x => Some x | _ => None end;
  as_str value := match value with ToyText s => Some s | _ => None end;
  from_value value :=
    match value with
    | ToyWrite v (Some op) => Ok (mkWrite v (u "id") (u "a.md") [] [] op)
    | _ => Err (u "bad")
    end;
|}.

Lemma toy_reader_laws : @JsonReaderLaws toy_reader.
Proof. split. intros [|?|v [op|]] w [= <-]; reflexivity. Defined.

(** A cipher that hides nothing but has a tag, and a size limit. *)
Definition toy_tag (key nonce aad msg : list N) : list N :=
  le_bytes 16 (checksum (key ++ [256%N] ++ nonce ++ [256%N] ++ aad ++ [256%N] ++ msg)).

Definition toy_aead : Aead := {|
  aead_encrypt key nonce aad msg :=
    if (100 <? length msg)%nat then None else Some (msg ++ toy_tag key nonce aad msg);
  aead_decrypt key nonce aad c :=
    let msg := take (length c - 16) c in
    if drop (length c - 16) c == toy_tag key nonce aad msg then Some msg else None;
|}.

Lemma le_bytes_length n x : length (le_bytes n x) = n.
Proof. revert x; induction n as [|n IH]; intros x; simpl; [done|]. by rewrite IH. Defined.

Lemma toy_aead_laws : @AeadLaws toy_aead.
Proof.
  assert (∀ key nonce aad msg, length (toy_tag key nonce aad msg) = 16) as Ht
    by (intros; apply le_bytes_length).
  split; cbn [aead_encrypt aead_decrypt toy_aead]; intros key nonce aad msg c H;
    destruct (100 <? length msg)%nat; simplify_eq.
  - rewrite length_app, Ht. replace (length msg + 16 - 16) with (length msg) by lia.
    rewrite take_app_length, drop_app_length. by rewrite bool_decide_eq_true_2.
  - by rewrite length_app, Ht.
Defined.

(** Normal form C of ASCII text: every ASCII text is in it. *)
Definition ascii_nfc : Normalization := {| is_nfc s := forallb (λ c, (c <? 128)%N) s |}.

(** ** Witnesses of the properties of [Write.v] *)

Lemma parse_write_held_witness :
  ∃ e, @parse_write toy_reader [2%N; ch "a"] = Err e ∧ needs_newer_reader e = true.
Proof.
  apply (@parse_write_held toy_reader toy_reader_laws [2%N; ch "a"]).
  exists (ToyWrite 2 (Some (Append None [u "x"] End false false None))).
  split; [reflexivity|]. left. exists 2%N. split; reflexivity.
Defined.
