(* ===== verification/Lines.v ===== *)
(** * A note as lines ([markdown.rs], [Document]: split, join, insert)

    Every line keeps its own terminator, so untouched lines are written back
    byte for byte. *)

From S2P Require Import Prelude Strings Write.

(** ** Data *)

Inductive Ending := Lf | CrLf | NoEnding.

#[export] Instance Ending_eq_dec : EqDecision Ending.
Proof. solve_decision. Defined.

Definition Ending_as_str (e : Ending) : str :=
  match e with Lf => [10%N] | CrLf => [13%N; 10%N] | NoEnding => [] end.

Record Line := mkLine {
  Line_text : str;
  Line_ending : Ending;
}.

Definition Line_is_blank (l : Line) : bool := is_empty (trim (Line_text l)).

Record Document := mkDocument {
  doc_lines : list Line;
  doc_ending : Ending;
}.

(** ** [Document::split] *)

(** The loop: the lines read so far and how many of them ended each way. *)
Fixpoint split_loop (fuel : nat) (rest : str) (lines : list Line) (crlf lf : nat)
  : list Line * nat * nat :=
  match fuel with
  | 0 => (lines, crlf, lf)
  | S fuel =>
      if is_empty rest then (lines, crlf, lf)
      else match find_sub [10%N] rest with
        | Some index =>
            let line := take index rest in
            let after := drop index rest in
            match strip_suffix [13%N] line with
            | Some content =>
                split_loop fuel (drop 1 after) (lines ++ [mkLine content CrLf]) (S crlf) lf
            | None =>
                split_loop fuel (drop 1 after) (lines ++ [mkLine line Lf]) crlf (S lf)
            end
        | None => split_loop fuel [] (lines ++ [mkLine rest NoEnding]) crlf lf
        end
  end.

Definition Document_split (text : str) : Document :=
  let '(lines, crlf, lf) := split_loop (S (length text)) text [] 0 0 in
  mkDocument lines (if (lf <? crlf)%nat then CrLf else Lf).

Definition Document_empty : Document := mkDocument [] Lf.

(** ** [Document::join] *)

Definition join_lines (lines : list Line) : str :=
  fold_left (λ text l, text ++ Line_text l ++ Ending_as_str (Line_ending l)) lines [].

Definition Document_join (d : Document) : str := join_lines (doc_lines d).

(** ** [Document::insert] *)

Definition set_ending (e : Ending) (l : Line) : Line := mkLine (Line_text l) e.

Definition unterminated_tail (d : Document) (at_end : bool) : bool :=
  at_end && is_some_and (λ l, Line_ending l == NoEnding) (last (doc_lines d)).

Definition Document_insert (d : Document) (at_ : nat) (texts : list str) : Document :=
  match texts with
  | [] => d
  | _ =>
      let at_ := Nat.min at_ (length (doc_lines d)) in
      let at_end := at_ =? length (doc_lines d) in
      let tail := unterminated_tail d at_end in
      let lines :=
        if tail then alter (set_ending (doc_ending d)) (length (doc_lines d) - 1) (doc_lines d)
        else doc_lines d in
      let new_lines :=
        imap (λ index text,
          let is_last := at_end && tail && (index + 1 =? length texts) in
          mkLine text (if is_last then NoEnding else doc_ending d)) texts in
      mkDocument (take at_ lines ++ new_lines ++ drop at_ lines) (doc_ending d)
  end.

(** ** Well-formed documents

    What [split] yields: a line holds no line feed, only the last line may
    lack a terminator and is then not empty, and a line that ends in a lone
    line feed does not end in a carriage return. *)
Definition line_ok (is_last : bool) (l : Line) : Prop :=
  10%N ∉ Line_text l ∧
  match Line_ending l with
  | Lf => last (Line_text l) ≠ Some 13%N
  | CrLf => True
  | NoEnding => is_last = true ∧ Line_text l ≠ []
  end.

Fixpoint lines_ok (ls : list Line) : Prop :=
  match ls with
  | [] => True
  | l :: rest => line_ok (match rest with [] => true | _ => false end) l ∧ lines_ok rest
  end.

Definition doc_ok (d : Document) : Prop := lines_ok (doc_lines d) ∧ doc_ending d ≠ NoEnding.

(** ** Facts *)

Definition render (l : Line) : str := Line_text l ++ Ending_as_str (Line_ending l).

Lemma join_lines_fold acc ls :
  fold_left (λ text l, text ++ Line_text l ++ Ending_as_str (Line_ending l)) ls acc
  = acc ++ join_lines ls.
Proof.
  unfold join_lines. revert acc. induction ls as [|l ls IH]; intros acc; simpl.
  - by rewrite app_nil_r.
  - rewrite IH, (IH (Line_text l ++ _)). by rewrite !app_assoc.
Qed.

Lemma join_lines_nil : join_lines [] = [].
Proof. done. Qed.

Lemma join_lines_cons l ls : join_lines (l :: ls) = render l ++ join_lines ls.
Proof. unfold join_lines at 1. simpl. by rewrite join_lines_fold. Qed.

Lemma join_lines_app a b : join_lines (a ++ b) = join_lines a ++ join_lines b.
Proof.
  induction a as [|l a IH]; [done|]. simpl. by rewrite !join_lines_cons, IH, app_assoc.
Qed.

Definition count_ending (e : Ending) (ls : list Line) : nat :=
  length (filter (λ l, Line_ending l = e) ls).

(** The loop reads all of [rest], as lines that render back to it. *)
Lemma split_loop_spec fuel rest lines crlf lf :
  length rest < fuel →
  ∃ new, split_loop fuel rest lines crlf lf
         = (lines ++ new, crlf + count_ending CrLf new, lf + count_ending Lf new)
         ∧ join_lines new = rest ∧ lines_ok new.
Proof.
  revert rest lines crlf lf; induction fuel as [|fuel IH]; intros rest lines crlf lf Hf; [lia|].
  cbn [split_loop]. unfold is_empty. case_bool_decide as Hr.
  { exists []. subst. rewrite app_nil_r, !Nat.add_0_r. done. }
  destruct (find_sub [10%N] rest) as [index|] eqn:Ei.
  - apply find_char_Some in Ei as [Hrest Hnot].
    rewrite drop_drop, Nat.add_1_r. revert Hrest Hnot.
    generalize (take index rest) as line, (drop (S index) rest) as r.
    intros line r -> Hnot.
    assert (Hlen : length r < fuel) by (rewrite length_app in Hf; simpl in Hf; lia).
    assert (Hlast : ∀ e new,
      lines_ok new → (10%N ∉ Line_text e) → Line_ending e ≠ NoEnding →
      (Line_ending e = Lf → last (Line_text e) ≠ Some 13%N) → lines_ok (e :: new)).
    { intros e new Hn ? Hne ?. split; [|done]. unfold line_ok.
      destruct (Line_ending e); naive_solver. }
    destruct (strip_suffix [13%N] line) as [content|] eqn:Es.
    + apply strip_suffix_Some in Es.
      destruct (IH r (lines ++ [mkLine content CrLf]) (S crlf) lf Hlen)
        as (new & -> & Hj & Hok).
      exists (mkLine content CrLf :: new). unfold count_ending. rewrite !filter_cons.
      rewrite <- app_assoc. split; [simpl; by rewrite <- plus_n_Sm|split].
      * rewrite join_lines_cons, Hj, Es. unfold render; simpl.
        by rewrite <- !app_assoc.
      * apply Hlast; simpl; [done| |done|done].
        intros Hin. apply Hnot. rewrite Es. apply elem_of_app. by left.
    + apply strip_suffix_None in Es.
      destruct (IH r (lines ++ [mkLine line Lf]) crlf (S lf) Hlen)
        as (new & -> & Hj & Hok).
      exists (mkLine line Lf :: new). unfold count_ending. rewrite !filter_cons.
      rewrite <- app_assoc. split; [simpl; by rewrite <- plus_n_Sm|split].
      * rewrite join_lines_cons, Hj. unfold render; simpl. by rewrite <- app_assoc.
      * apply Hlast; simpl; [done..|]. intros _ [l' Hl']%last_Some.
        rewrite Hl' in Es. apply not_true_iff_false in Es. apply Es, ends_with_app. eauto.
  - apply find_char_None in Ei.
    destruct (IH [] (lines ++ [mkLine rest NoEnding]) crlf lf) as (new & -> & Hj & Hok).
    { destruct rest; [done|]. simpl in *. lia. }
    destruct new as [|l new].
    + exists [mkLine rest NoEnding]. rewrite app_nil_r. unfold join_lines, render; simpl.
      rewrite app_nil_r. done.
    + exfalso. rewrite join_lines_cons in Hj. apply app_nil in Hj as [Hj _].
      destruct Hok as [[_ Hl] _]. unfold render in Hj. apply app_nil in Hj as [? ?].
      destruct (Line_ending l); naive_solver.
Qed.

Lemma Document_split_spec text :
  join_lines (doc_lines (Document_split text)) = text ∧ doc_ok (Document_split text) ∧
  doc_ending (Document_split text) =
    if (count_ending Lf (doc_lines (Document_split text)) <?
        count_ending CrLf (doc_lines (Document_split text)))%nat then CrLf else Lf.
Proof.
  unfold Document_split.
  destruct (split_loop_spec (S (length text)) text [] 0 0) as (new & -> & Hj & Hok); [lia|].
  unfold doc_ok; simpl. destruct (_ <? _)%nat; done.
Qed.

(** A line feed ends the first line of a text; what follows is the rest. *)
Lemma app_lf_inj (a b a' b' : str) :
  10%N ∉ a → 10%N ∉ a' → a ++ 10%N :: b = a' ++ 10%N :: b' → a = a' ∧ b = b'.
Proof.
  intros Ha Ha' H. pose proof (find_char_app _ a b Ha) as H1.
  rewrite H, (find_char_app _ a' b' Ha') in H1. injection H1 as Hl.
  by apply app_inj_1 in H as [-> [= ->]].
Qed.

(** The line without its line feed, when it has one. *)
Definition line_body (l : Line) : str :=
  Line_text l ++ match Line_ending l with CrLf => [13%N] | _ => [] end.

Lemma render_body l : Line_ending l ≠ NoEnding → render l = line_body l ++ [10%N].
Proof. unfold render, line_body. destruct (Line_ending l); simpl; by rewrite <- ?app_assoc. Qed.

Lemma line_body_no_lf b l : line_ok b l → 10%N ∉ line_body l.
Proof.
  intros [H _]. unfold line_body. rewrite elem_of_app. intros [|Hin]; [done|].
  destruct (Line_ending l); set_solver.
Qed.

Lemma line_body_inj b b' l l' :
  line_ok b l → line_ok b' l' → Line_ending l ≠ NoEnding → Line_ending l' ≠ NoEnding →
  line_body l = line_body l' → l = l'.
Proof.
  destruct l as [t e], l' as [t' e']. unfold line_ok, line_body; simpl.
  intros [_ H1] [_ H2] Hn Hn' H.
  destruct e, e'; try done; rewrite ?app_nil_r in H; subst; rewrite ?last_snoc in *; try done.
  by apply (inj (.++ [13%N])) in H as ->.
Qed.

Lemma render_nonempty b l : line_ok b l → render l ≠ [].
Proof.
  unfold line_ok, render. intros [_ H] [H1 H2]%app_nil. destruct (Line_ending l); naive_solver.
Qed.

Lemma render_unterminated l ls :
  Line_ending l = NoEnding → lines_ok (l :: ls) → ls = [] ∧ join_lines (l :: ls) = Line_text l.
Proof.
  intros He [[_ Hl] _]. rewrite He in Hl. destruct ls; [|naive_solver]. split; [done|].
  rewrite join_lines_cons, join_lines_nil. unfold render. by rewrite He, !app_nil_r.
Qed.

(** Well-formed lists of lines are determined by the text they render to. *)
Lemma join_lines_inj ls ls' :
  lines_ok ls → lines_ok ls' → join_lines ls = join_lines ls' → ls = ls'.
Proof.
  revert ls'; induction ls as [|l ls IH]; intros [|l' ls'] Hok Hok' H; [done|..].
  - rewrite join_lines_cons in H. symmetry in H. apply app_nil in H as [H _].
    destruct Hok' as [Hl _]. by apply render_nonempty in Hl.
  - rewrite join_lines_cons in H. apply app_nil in H as [H _].
    destruct Hok as [Hl _]. by apply render_nonempty in Hl.
  - pose proof Hok as [Hl Hls]. pose proof Hok' as [Hl' Hls'].
    destruct (decide (Line_ending l = NoEnding)) as [E|E],
             (decide (Line_ending l' = NoEnding)) as [E'|E'].
    + apply render_unterminated in Hok as [-> Hj]; [|done].
      apply render_unterminated in Hok' as [-> Hj']; [|done].
      rewrite Hj, Hj' in H. destruct l, l'; simpl in *; congruence.
    + apply render_unterminated in Hok as [-> Hj]; [|done]. rewrite Hj in H.
      rewrite join_lines_cons, render_body in H by done.
      exfalso. destruct Hl as [Hl _]. apply Hl. rewrite H. set_solver.
    + apply render_unterminated in Hok' as [-> Hj]; [|done]. rewrite Hj in H.
      rewrite join_lines_cons, render_body in H by done.
      exfalso. destruct Hl' as [Hl' _]. apply Hl'. rewrite <- H. set_solver.
    + rewrite !join_lines_cons, !render_body, <- !app_assoc in H by done.
      apply app_lf_inj in H as [Hb Hr]; [|by eapply line_body_no_lf..].
      rewrite (line_body_inj _ _ _ _ Hl Hl' E E' Hb). by rewrite (IH ls').
Qed.

(** ** Insertion *)

(** Whether inserting at [at_] goes after a last line with no terminator. *)
Definition inserts_after_tail (d : Document) (at_ : nat) : bool :=
  unterminated_tail d (Nat.min at_ (length (doc_lines d)) =? length (doc_lines d)).

(** The new lines: terminated like the document's, except that the last one
    takes the place of an unterminated last line. *)
Definition new_lines_of (e : Ending) (tail : bool) (texts : list str) : list Line :=
  imap (λ index text,
    mkLine text (if tail && (index + 1 =? length texts) then NoEnding else e)) texts.

Lemma Document_insert_lines d at_ texts :
  texts ≠ [] →
  doc_lines (Document_insert d at_ texts) =
    let lines := if inserts_after_tail d at_
      then alter (set_ending (doc_ending d)) (length (doc_lines d) - 1) (doc_lines d)
      else doc_lines d in
    let i := Nat.min at_ (length (doc_lines d)) in
    take i lines ++ new_lines_of (doc_ending d) (inserts_after_tail d at_) texts ++ drop i lines.
Proof.
  intros Ht. unfold Document_insert, inserts_after_tail, new_lines_of.
  destruct texts as [|t texts]; [done|]. cbn zeta. cbn [doc_lines]. f_equal. f_equal.
  apply imap_ext. intros i x _. unfold unterminated_tail.
  by destruct (_ =? length (doc_lines d)).
Qed.

Lemma Document_insert_ending d at_ texts : doc_ending (Document_insert d at_ texts) = doc_ending d.
Proof. by destruct texts. Qed.

Lemma imap_line_texts (f : nat → Ending) texts :
  map Line_text (imap (λ i text, mkLine text (f i)) texts) = texts.
Proof.
  revert f; induction texts as [|t ts IH]; intros f; simpl; [done|].
  f_equal. apply (IH (f ∘ S)).
Qed.

Lemma new_lines_texts e tail texts : map Line_text (new_lines_of e tail texts) = texts.
Proof. apply imap_line_texts. Qed.

Lemma set_ending_text e l : Line_text (set_ending e l) = Line_text l.
Proof. done. Qed.

Lemma alter_set_ending_texts e i ls :
  map Line_text (alter (set_ending e) i ls) = map Line_text ls.
Proof. revert i; induction ls as [|l ls IH]; intros [|i]; simpl; [done..|]. f_equal. apply IH. Qed.

(** The texts after an insertion: the new ones between the old ones. *)
Lemma Document_insert_texts d at_ texts :
  map Line_text (doc_lines (Document_insert d at_ texts)) =
    take at_ (map Line_text (doc_lines d)) ++ texts ++ drop at_ (map Line_text (doc_lines d)).
Proof.
  destruct (decide (texts = [])) as [->|Ht].
  { simpl. by rewrite take_drop. }
  rewrite Document_insert_lines by done. cbn zeta.
  rewrite !map_app, new_lines_texts.
  assert (∀ l : list str, take (Nat.min at_ (length l)) l = take at_ l) as Htk.
  { intros l. rewrite <- take_take. by rewrite (firstn_all l). }
  assert (∀ l : list str, drop (Nat.min at_ (length l)) l = drop at_ l) as Hdr.
  { intros l. destruct (Nat.min_spec at_ (length l)) as [[? ->]|[? ->]]; [done|].
    by rewrite !drop_ge. }
  rewrite <- (length_map Line_text (doc_lines d)).
  assert (∀ ls, map Line_text ls = map Line_text (doc_lines d) →
    map Line_text (take (Nat.min at_ (length (map Line_text (doc_lines d)))) ls)
      = take at_ (map Line_text (doc_lines d)) ∧
    map Line_text (drop (Nat.min at_ (length (map Line_text (doc_lines d)))) ls)
      = drop at_ (map Line_text (doc_lines d))) as Hls.
  { intros ls Hls. by rewrite <- firstn_map, <- skipn_map, Hls, Htk, Hdr. }
  destruct (Hls (if inserts_after_tail d at_
    then alter (set_ending (doc_ending d)) (length (map Line_text (doc_lines d)) - 1) (doc_lines d)
    else doc_lines d)) as [-> ->]; [|done].
  destruct (inserts_after_tail d at_); [apply alter_set_ending_texts|done].
Qed.

Lemma join_lines_new_terminated e texts :
  join_lines (new_lines_of e false texts) = flat_map (λ t, t ++ Ending_as_str e) texts.
Proof.
  unfold new_lines_of. simpl. induction texts as [|t ts IH]; [done|].
  simpl. rewrite join_lines_cons. unfold render; simpl. by rewrite <- IH.
Qed.

Lemma join_lines_new_tail e texts :
  texts ≠ [] → join_lines (new_lines_of e true texts) = join (Ending_as_str e) texts.
Proof.
  unfold new_lines_of. simpl. intros Ht.
  enough (∀ k n, k + length texts = n →
    join_lines (imap (λ index text,
      mkLine text (if k + index + 1 =? n then NoEnding else e)) texts)
    = join (Ending_as_str e) texts) as H by apply (H 0 _ eq_refl).
  induction texts as [|t ts IH]; intros k n Hn; [done|]. simpl in Hn |- *.
  rewrite join_lines_cons. unfold render; simpl.
  destruct ts as [|t' ts].
  - simpl in *. rewrite (proj2 (Nat.eqb_eq _ _)) by lia. by rewrite join_lines_nil, !app_nil_r.
  - rewrite (proj2 (Nat.eqb_neq _ _)) by (simpl in Hn; lia). rewrite <- app_assoc. do 2 f_equal.
    rewrite <- (IH ltac:(done) (S k) n) by (simpl in *; lia).
    f_equal. apply imap_ext. intros i x _. cbn. by replace (k + S i + 1) with (S (k + i + 1)) by lia.
Qed.

Lemma inserts_after_tail_true d at_ :
  inserts_after_tail d at_ = true →
  ∃ init l, doc_lines d = init ++ [l] ∧ Line_ending l = NoEnding ∧ length (doc_lines d) <= at_.
Proof.
  unfold inserts_after_tail, unterminated_tail. intros H. bool_to_prop.
  destruct (doc_lines d) as [|l init _] using rev_ind; [done|].
  rewrite last_snoc in *. simpl in *. bool_to_prop. exists init, l.
  split_and!; [done|done|]. lia.
Qed.

Lemma alter_last {A} (f : A → A) init x :
  alter f (length (init ++ [x]) - 1) (init ++ [x]) = init ++ [f x].
Proof.
  rewrite length_app; simpl. replace (length init + 1 - 1) with (length init) by lia.
  induction init as [|y init IH]; simpl; [done|]. f_equal. apply IH.
Qed.

Lemma insert_bytes_lemma d at_ texts :
  let e := Ending_as_str (doc_ending d) in
  Document_join (Document_insert d at_ texts) =
    match texts with
    | [] => Document_join d
    | _ :: _ =>
        if inserts_after_tail d at_ then Document_join d ++ e ++ join e texts
        else join_lines (take at_ (doc_lines d)) ++ flat_map (λ t, t ++ e) texts
             ++ join_lines (drop at_ (doc_lines d))
    end.
Proof.
  cbn zeta. destruct texts as [|t texts]; [done|]. set (ts := t :: texts).
  assert (ts ≠ []) by done. clearbody ts. clear t texts.
  unfold Document_join. rewrite Document_insert_lines by done. cbn zeta.
  destruct (inserts_after_tail d at_) eqn:E.
  - apply inserts_after_tail_true in E as (init & l & Hd & Hl & Hle).
    rewrite Nat.min_r by done. rewrite Hd, alter_last.
    rewrite firstn_all2, drop_ge, app_nil_r by (len_lia).
    rewrite !join_lines_app, join_lines_new_tail by done.
    rewrite !join_lines_cons, join_lines_nil, !app_nil_r. unfold render; simpl.
    by rewrite Hl, app_nil_r, <- !app_assoc.
  - rewrite !join_lines_app, join_lines_new_terminated.
    assert (∀ l : list Line, take (Nat.min at_ (length l)) l = take at_ l) as ->.
    { intros l. rewrite <- take_take. by rewrite (firstn_all l). }
    f_equal. f_equal. destruct (Nat.min_spec at_ (length (doc_lines d))) as [[? ->]|[? ->]]; [done|].
    by rewrite !drop_ge.
Qed.

(** What inserting lines does to the note, byte for byte: below a last
    line without a terminator the note is terminated first and the last new
    line is left open; anywhere else each new line goes in with the note's
    own ending, and the lines around it keep theirs. *)
Theorem insert_bytes d at_ texts :
  let e := Ending_as_str (doc_ending d) in
  Document_join (Document_insert d at_ texts) =
    match texts with
    | [] => Document_join d
    | _ :: _ =>
        if inserts_after_tail d at_ then Document_join d ++ e ++ join e texts
        else join_lines (take at_ (doc_lines d)) ++ flat_map (λ t, t ++ e) texts
             ++ join_lines (drop at_ (doc_lines d))
    end.
Proof. apply insert_bytes_lemma. Qed.

(** ** Well-formedness under append and insertion *)

Lemma line_ok_weaken b l : line_ok false l → line_ok b l.
Proof. unfold line_ok. destruct (Line_ending l); naive_solver. Qed.

Lemma lines_ok_app a b :
  b ≠ [] → (lines_ok (a ++ b) ↔ Forall (line_ok false) a ∧ lines_ok b).
Proof.
  intros Hb. induction a as [|l a IH]; simpl; [by rewrite Forall_nil; tauto|].
  rewrite IH, Forall_cons. destruct (a ++ b) eqn:E; [by apply app_nil in E as [_ ?]|]. tauto.
Qed.

Lemma lines_ok_snoc a l : lines_ok (a ++ [l]) ↔ Forall (line_ok false) a ∧ line_ok true l.
Proof. rewrite lines_ok_app by done. simpl. tauto. Qed.

Lemma lines_ok_Forall ls : Forall (line_ok false) ls → lines_ok ls.
Proof.
  induction 1 as [|l ls Hl _ IH]; [done|]. split; [by apply line_ok_weaken|done].
Qed.

Lemma lines_ok_prefix a b : lines_ok (a ++ b) → b ≠ [] → Forall (line_ok false) a.
Proof. intros H Hb. by apply lines_ok_app in H as [? _]. Qed.

Lemma lines_ok_suffix a b : lines_ok (a ++ b) → lines_ok b.
Proof. induction a as [|l a IH]; simpl; [done|]. intros [_ ?]. auto. Qed.

Lemma has_break_false t : has_break t = false ↔ 10%N ∉ t ∧ 13%N ∉ t.
Proof.
  unfold has_break. rewrite orb_false_iff, !existsb_false, !Forall_forall. split.
  - intros [H1 H2]. split; intros Hin; [apply H1 in Hin|apply H2 in Hin]; done.
  - intros [H1 H2]. split; intros x Hx; apply N.eqb_neq; intros ->; done.
Qed.

Lemma line_ok_new e t : e ≠ NoEnding → has_break t = false → line_ok false (mkLine t e).
Proof.
  intros He [H1 H2]%has_break_false. split; [done|]. simpl. destruct e; [|done|done].
  intros [l ->]%last_Some. apply H2. set_solver.
Qed.

Lemma new_lines_ok_terminated e texts :
  e ≠ NoEnding → Forall (λ t, has_break t = false) texts →
  Forall (line_ok false) (new_lines_of e false texts).
Proof.
  intros He. unfold new_lines_of. simpl. induction 1 as [|t ts Ht _ IH]; simpl; [done|].
  constructor; [by apply line_ok_new|done].
Qed.

Lemma new_lines_of_snoc e ts t :
  new_lines_of e true (ts ++ [t]) = new_lines_of e false ts ++ [mkLine t NoEnding].
Proof.
  unfold new_lines_of. rewrite imap_app. f_equal.
  - apply imap_ext. intros i x Hi. simpl. apply lookup_lt_Some in Hi.
    by rewrite length_app, (proj2 (Nat.eqb_neq _ _)) by (simpl; lia).
  - cbn. rewrite length_app. cbn. by rewrite Nat.add_0_r, Nat.eqb_refl.
Qed.

(** No carriage return is left hanging at the end of an unterminated note. *)
Definition no_stray_cr (d : Document) : Prop :=
  ∀ l, last (doc_lines d) = Some l → Line_ending l = NoEnding → last (Line_text l) ≠ Some 13%N.

Lemma insert_doc_ok d at_ texts :
  doc_ok d → no_stray_cr d → Forall (λ t, has_break t = false) texts →
  (length (doc_lines d) <= at_ → last texts ≠ Some []) → doc_ok (Document_insert d at_ texts).
Proof.
  intros [Hok He] Hcr Ht Hlast. destruct (decide (texts = [])) as [->|Hne]; [done|].
  split; [|by rewrite Document_insert_ending]. rewrite Document_insert_lines by done. cbn zeta.
  set (i := Nat.min at_ (length (doc_lines d))).
  destruct (inserts_after_tail d at_) eqn:E.
  - apply inserts_after_tail_true in E as (init & l & Hd & Hl & Hle).
    subst i. rewrite Nat.min_r, Hd, alter_last by lia.
    rewrite firstn_all2, drop_ge, app_nil_r by (len_lia).
    assert (∃ ts t, texts = ts ++ [t]) as (ts & t & ->).
    { destruct texts as [|x l0 _] using rev_ind; [done|eauto]. }
    rewrite new_lines_of_snoc, app_assoc. apply lines_ok_snoc.
    apply Forall_app in Ht as [Hts Htt]. apply Forall_cons in Htt as [Htt _].
    rewrite Hd in Hok. apply lines_ok_snoc in Hok as [Hinit [Hln _]].
    split; [apply Forall_app; split; [apply Forall_app; split|]|].
    + done.
    + constructor; [|done]. split; [done|]. simpl.
      assert (last (Line_text l) ≠ Some 13%N) by (apply (Hcr l); [by rewrite Hd, last_snoc|done]).
      by destruct (doc_ending d).
    + by apply new_lines_ok_terminated.
    + specialize (Hlast Hle). rewrite last_snoc in Hlast. apply has_break_false in Htt as [? _].
      split; [done|]. simpl. naive_solver.
  - pose proof (new_lines_ok_terminated _ _ He Ht) as Hnew.
    rewrite <- (take_drop i (doc_lines d)) in Hok.
    destruct (decide (drop i (doc_lines d) = [])) as [Hdr|Hdr].
    + rewrite Hdr, app_nil_r. rewrite Hdr, app_nil_r in Hok.
      apply lines_ok_Forall, Forall_app. split; [|done].
      (* inserting at the end of a terminated note *)
      destruct (take i (doc_lines d)) as [|l ls _] eqn:Et using rev_ind; [done|].
      apply lines_ok_snoc in Hok as [Hls [Hn Hl]]. apply Forall_app. split; [done|].
      constructor; [|done]. split; [done|].
      destruct (Line_ending l) eqn:El; [done|done|]. exfalso.
      assert (length (doc_lines d) <= i) as Hi.
      { apply (f_equal length) in Hdr. rewrite length_drop in Hdr. simpl in Hdr. lia. }
      rewrite firstn_all2 in Et by lia.
      unfold inserts_after_tail, unterminated_tail in E. rewrite Et, last_snoc in E. simpl in E.
      rewrite El, bool_decide_eq_true_2, andb_true_r in E by done. bool_to_prop.
      rewrite Et in *. lia.
    + apply lines_ok_app in Hok as [Ha Hb]; [|done].
      rewrite app_assoc. apply lines_ok_app; [done|]. split; [|done].
      apply Forall_app. done.
Qed.

(** ** The round trips *)

Lemma split_join_lemma text : Document_join (Document_split text) = text.
Proof. apply Document_split_spec. Qed.

(** [split] undoes [join] on every well-formed document, and splitting
    yields nothing else: the two are inverse between texts and well-formed
    lists of lines. *)
Theorem join_split d :
  doc_ok d →
  doc_lines (Document_split (Document_join d)) = doc_lines d ∧
  doc_ok (Document_split (Document_join d)).
Proof.
  intros [Hok _]. destruct (Document_split_spec (Document_join d)) as (Hj & Hs & _).
  split; [|done]. apply join_lines_inj; [apply Hs|done|apply Hj].
Qed.

(** [join] undoes [split]: a note is written back byte for byte. *)
Theorem split_join text : Document_join (Document_split text) = text.
Proof. apply split_join_lemma. Qed.

Lemma join_split_witness :
  doc_ok (mkDocument [mkLine (u "# T") CrLf; mkLine (u "x") NoEnding] CrLf) ∧
  doc_lines (Document_split (Document_join
    (mkDocument [mkLine (u "# T") CrLf; mkLine (u "x") NoEnding] CrLf)))
  = [mkLine (u "# T") CrLf; mkLine (u "x") NoEnding].
Proof.
  assert (doc_ok (mkDocument [mkLine (u "# T") CrLf; mkLine (u "x") NoEnding] CrLf)) as H.
  { split; [|done]. cbn. repeat split; try done;
      intros Hin; repeat (apply elem_of_cons in Hin as [Hin|Hin]; [done|]);
      by apply elem_of_nil in Hin. }
  split; [exact H|]. apply (join_split _ H).
Defined.
