(* ===== verification/HeadingKey.v ===== *)
(** * Heading comparison keys ([markdown.rs], [heading_key] and below)

    Links reduced to what they display, code spans and HTML comments left
    alone, everything but letters and digits folded to single spaces. *)

From S2P Require Import Prelude Strings External.

(** A range of positions in a text, end excluded ([std::ops::Range]). *)
Record range := mkRange { r_start : nat; r_end : nat }.

#[export] Instance range_eq_dec : EqDecision range.
Proof. solve_decision. Defined.

Definition range_contains (r : range) (i : nat) : bool :=
  (r_start r <=? i)%nat && (i <? r_end r)%nat.
Definition overlaps (other range : range) : bool :=
  (r_start other <? r_end range)%nat && (r_start range <? r_end other)%nat.

(** [text.get(i..)] and [text.get(a..b)]. *)
Definition get_from (text : str) (i : nat) : option str :=
  if (i <=? length text)%nat then Some (drop i text) else None.
Definition get_range (text : str) (a b : nat) : option str :=
  if (a <=? b)%nat && (b <=? length text)%nat then Some (take (b - a) (drop a text)) else None.

Definition is_char (c : char) (d : char) : bool := (c =? d)%N.
Definition LBRACKET : char := 91. (* [ *)
Definition RBRACKET : char := 93. (* ] *)
Definition LPAREN : char := 40.
Definition RPAREN : char := 41.
Definition BACKTICK : char := 96.

(** ** Code spans and comments *)

(** The length of the backtick run at [i]. *)
Definition run_at (text : str) (i : nat) : nat :=
  match get_from text i with
  | Some rest => count_while (is_char BACKTICK) rest
  | None => 0
  end.

(** The inner loop of [code_spans]: the end of the run of exactly [length]
    backticks that closes the span. *)
Fixpoint closing_run (fuel : nat) (text : str) (len search : nat) : option nat :=
  match fuel with
  | 0 => None
  | S fuel =>
      match get_from text search ≫= find_sub [BACKTICK] with
      | None => None
      | Some relative =>
          let candidate := search + relative in
          let run := run_at text candidate in
          if (run =? len)%nat then Some (candidate + run)
          else closing_run fuel text len (candidate + run)
      end
  end.

Fixpoint code_spans_loop (fuel : nat) (text : str) (cursor : nat) (spans : list range)
  : list range :=
  match fuel with
  | 0 => spans
  | S fuel =>
      match get_from text cursor ≫= find_sub [BACKTICK] with
      | None => spans
      | Some relative =>
          let open := cursor + relative in
          let len := run_at text open in
          match closing_run (S (length text)) text len (open + len) with
          | Some end_ => code_spans_loop fuel text end_ (spans ++ [mkRange open end_])
          | None => code_spans_loop fuel text (open + len) spans
          end
      end
  end.

Definition code_spans (text : str) : list range :=
  code_spans_loop (S (length text)) text 0 [].

Fixpoint comments_loop (fuel : nat) (text : str) (cursor : nat) (ranges : list range)
  : list range :=
  match fuel with
  | 0 => ranges
  | S fuel =>
      match get_from text cursor ≫= find_sub (u "<!--") with
      | None => ranges
      | Some open =>
          let open := cursor + open in
          match get_from text (open + 4) ≫= find_sub (u "-->") with
          | None => ranges
          | Some index =>
              let close := open + 4 + index + 3 in
              let range := mkRange open close in
              let ranges :=
                if existsb (λ other, overlaps other range) ranges then ranges
                else ranges ++ [range] in
              comments_loop fuel text close ranges
          end
      end
  end.

Definition inline_exclusions (text : str) : list range :=
  comments_loop (S (length text)) text 0 (code_spans text).

(** ** Links *)

Definition parse_wikilink (text : str) (open : nat) : option (range * range) :=
  let inner_start := open + 2 in
  close ← (rest ← get_from text inner_start; find_sub (u "]]") rest);
  let close := close + inner_start in
  inner ← get_range text inner_start close;
  if (inner == []) || contains [LBRACKET] inner || contains [RBRACKET] inner then None
  else
    label ← match split_once (u "|") inner with
      | Some (target, alias) =>
          if (target == []) || (alias == []) then None
          else Some (mkRange (inner_start + length target + 1) close)
      | None => Some (mkRange inner_start close)
      end;
    Some (mkRange open (close + 2), label).

(** The offset of the parenthesis that closes the destination. *)
Fixpoint closing_paren (s : str) (offset depth : nat) : option nat :=
  match s with
  | [] => None
  | c :: s' =>
      if is_char LPAREN c then closing_paren s' (S offset) (S depth)
      else if is_char RPAREN c then
        if (depth - 1 =? 0)%nat then Some offset else closing_paren s' (S offset) (depth - 1)
      else closing_paren s' (S offset) depth
  end.

Definition parse_inline_link (text : str) (open : nat) : option (range * range) :=
  let label_start := open + 1 in
  label_end ← (rest ← get_from text label_start; find_sub [RBRACKET] rest);
  let label_end := label_end + label_start in
  label ← get_range text label_start label_end;
  if (label == []) || contains [LBRACKET] label then None
  else
    after ← get_from text (label_end + 1);
    if negb (starts_with [LPAREN] after) then None
    else
      let destination_start := label_end + 2 in
      rest ← get_from text destination_start;
      offset ← closing_paren rest 0 1;
      Some (mkRange open (destination_start + offset + 1), mkRange label_start label_end).

Fixpoint reduce_loop (fuel : nat) (text : str) (excluded : list range)
    (out : str) (cursor scan : nat) : str :=
  match fuel with
  | 0 => out ++ default [] (get_from text cursor)
  | S fuel =>
      match get_from text scan ≫= find_sub [LBRACKET] with
      | None => out ++ default [] (get_from text cursor)
      | Some relative =>
          let open := scan + relative in
          if (0 <? open)%nat &&
             is_some_and (λ c, is_char 33%N c || is_char 92%N c) (text !! (open - 1))
          then reduce_loop fuel text excluded out cursor (open + 1)
          else match find (λ r, range_contains r open) excluded with
            | Some r => reduce_loop fuel text excluded out cursor (r_end r)
            | None =>
                let parsed :=
                  if is_some_and (starts_with [LBRACKET; LBRACKET]) (get_from text open)
                  then parse_wikilink text open else parse_inline_link text open in
                match parsed with
                | Some (r, label) =>
                    if existsb (λ other, overlaps other r) excluded
                    then reduce_loop fuel text excluded out cursor (open + 1)
                    else
                      let out := out ++ default [] (get_range text cursor (r_start r)) in
                      let out := out ++ default [] (get_range text (r_start label) (r_end label)) in
                      reduce_loop fuel text excluded out (r_end r) (r_end r)
                | None => reduce_loop fuel text excluded out cursor (open + 1)
                end
            end
      end
  end.

(** Every turn of the loop moves [scan] forward, so the text's length bounds
    their number. *)
Definition reduce_links (text : str) : str :=
  reduce_loop (S (length text)) text (inline_exclusions text) [] 0 0.

(** ** The key *)

Section key.
Context `{UnicodeTables}.

Definition key_step (key : str) (c : char) : str :=
  if is_alphanumeric c then key ++ char_to_lowercase c
  else if negb (key == []) && negb (ends_with [32%N] key) then key ++ [32%N]
  else key.

Definition heading_key (text : str) : str :=
  let key := fold_left key_step (reduce_links text) [] in
  let trimmed := trim_end key in
  take (length trimmed) key.
End key.
