(* ===== verification/LineHash.v ===== *)
(** * The identity of a line ([markdown.rs], [line_hash] and below)

    List marker, checkbox, time prefix and trailing comments stripped,
    whitespace collapsed, then the first 16 hex digits of its SHA-256. *)

From S2P Require Import Prelude Strings External.

Definition strip_list_marker (text : str) : str :=
  match strip_prefix (u "- ") text with
  | Some rest => rest
  | None =>
  match strip_prefix (u "* ") text with
  | Some rest => rest
  | None =>
  match strip_prefix (u "+ ") text with
  | Some rest => rest
  | None =>
      let digits := count_while is_ascii_digit text in
      if (1 <=? digits)%nat && (digits <=? 9)%nat then
        let after_digits := drop digits text in
        match strip_prefix (u ". ") after_digits with
        | Some rest => rest
        | None => default text (strip_prefix (u ") ") after_digits)
        end
      else text
  end end end.

Definition strip_checkbox (text : str) : str :=
  match strip_prefix (u "[ ] ") text with
  | Some rest => rest
  | None =>
  match strip_prefix (u "[x] ") text with
  | Some rest => rest
  | None => default text (strip_prefix (u "[X] ") text)
  end end.

(** [H:MM] or [HH:MM]: what follows it. *)
Definition parse_time (text : str) : option str :=
  let hour_digits := Nat.min 2 (count_while is_ascii_digit text) in
  if (hour_digits =? 0)%nat || negb (is_some_and (λ c, c =? 58)%N (text !! hour_digits)) then None
  else if (length text <? hour_digits + 3)%nat then None
  else
    let minutes := take 2 (drop (hour_digits + 1) text) in
    if negb (forallb is_ascii_digit minutes) then None
    else
      let hours := digits_value (take hour_digits text) in
      if ((23 <? hours) || (59 <? digits_value minutes))%N then None
      else Some (drop (hour_digits + 3) text).

Definition EN_DASH : char := 0x2013.
Definition EM_DASH : char := 0x2014.

Definition parse_range_end (text : str) : option str :=
  let trimmed := trim_start text in
  after_separator ←
    match strip_prefix [EN_DASH] trimmed with
    | Some rest => Some rest
    | None =>
    match strip_prefix [EM_DASH] trimmed with
    | Some rest => Some rest
    | None =>
    match strip_prefix (u "-") trimmed with
    | Some rest => Some rest
    | None => strip_prefix (u "to") trimmed
    end end end;
  let after_separator := trim_start after_separator in
  match strip_prefix (u "24:00") after_separator with
  | Some rest => Some rest
  | None => parse_time after_separator
  end.

Definition label_after_token (after_token : str) : option str :=
  if after_token == [] then Some []
  else
    let rest := trim_start after_token in
    if (length rest <? length after_token)%nat then Some rest else None.

Definition strip_time_prefix (text : str) : str :=
  match parse_time text with
  | None => text
  | Some after_start =>
      match parse_range_end after_start ≫= label_after_token with
      | Some rest => rest
      | None => default text (label_after_token after_start)
      end
  end.

(** The loop that drops the comments a line ends with. *)
Fixpoint strip_comments (fuel : nat) (tail : str) : str :=
  match fuel with
  | 0 => tail
  | S fuel =>
      match rfind_sub (u "<!--") tail with
      | None => tail
      | Some open =>
          if negb (ends_with (u "-->") tail) || (length tail - 3 <? open + 4)%nat then tail
          else strip_comments fuel (trim_end (take open tail))
      end
  end.

Definition normalize_line (line : str) : str :=
  let line := default line (strip_suffix [10%N] line) in
  let line := default line (strip_suffix [13%N] line) in
  let rest := trim_start line in
  let rest := strip_list_marker rest in
  let rest := strip_checkbox rest in
  let rest := strip_time_prefix rest in
  let tail := trim_end rest in
  let tail := strip_comments (S (length tail)) tail in
  (* the words of [tail], one space between two *)
  join [32%N] (split_whitespace tail).

Section hashes.
Context `{Digest}.

Definition short_hash (bytes : list N) : str := take 16 (hex_encode (sha256 bytes)).

Definition line_hash (line : str) : str := short_hash (as_bytes (normalize_line line)).

Definition hash_lines (lines : list str) : str := short_hash (as_bytes (join [10%N] lines)).
End hashes.
