(* ===== verification/Sections.v ===== *)
(** * Headings and section geometry ([markdown.rs], the rest of [Document])

    ATX headings outside fences and front matter, how a write names one, and
    the lines its section spans. *)

From S2P Require Import Prelude Strings External Write Lines HeadingKey LineHash.

(** ** Line shapes *)

Definition is_space (c : char) : bool := (c =? 32)%N.
Definition is_blank_char (c : char) : bool := ((c =? 32) || (c =? 9))%N.
Definition is_hash (c : char) : bool := (c =? 35)%N.

(** [___], [---] or [***], spaces allowed between, at most three before. *)
Definition is_thematic_break (text : str) : bool :=
  let trimmed := trim_start_matches is_space text in
  if (3 <? length text - length trimmed)%nat then false
  else match trimmed with
    | marker :: _ =>
        if ((marker =? 95) || (marker =? 45) || (marker =? 42))%N then
          (3 <=? length (filter (λ c, c = marker) trimmed))%nat
          && forallb (λ c, (c =? marker)%N || is_space c) trimmed
        else false
    | [] => false
    end.

Definition is_front_matter_end (text : str) : bool := (text == u "---") || (text == u "...").

Definition front_matter_closes (lines : list Line) : bool :=
  existsb (λ l, is_front_matter_end (Line_text l)) (drop 1 lines).

Definition TILDE : char := 126.

Definition opens_fence (text : str) : option (char * nat) :=
  let indent := length text - length (trim_start_matches is_space text) in
  if (3 <? indent)%nat then None
  else
    let rest := drop indent text in
    match rest with
    | character :: _ =>
        if is_char BACKTICK character || is_char TILDE character then
          let len := count_while (is_char character) rest in
          if (len <? 3)%nat then None
          else
            let info := drop len rest in
            if is_char BACKTICK character && contains [BACKTICK] info then None
            else Some (character, len)
        else None
    | [] => None
    end.

Definition closes_fence (text : str) (character : char) (len : nat) : bool :=
  let trimmed := trim_start_matches is_space text in
  if (3 <? length text - length trimmed)%nat then false
  else
    let run := count_while (is_char character) trimmed in
    (len <=? run)%nat && is_empty (trim (drop run trimmed)).

(** The level and the text, closing hashes and surrounding space removed. *)
Definition parse_heading (text : str) : option (nat * str) :=
  let level := count_while is_hash text in
  if (level =? 0)%nat || (6 <? level)%nat then None
  else
    let after := drop level text in
    let content := trim_start_matches is_blank_char after in
    if (length content =? length after)%nat || is_empty (trim content) then None
    else
      let content := trim_end content in
      let without_closing := trim_end_matches is_hash content in
      let heading_text :=
        if (length without_closing <? length content)%nat then
          let trimmed := trim_end_matches is_blank_char without_closing in
          if (length trimmed =? length without_closing)%nat && negb (is_empty without_closing)
          then content else trimmed
        else content in
      if is_empty heading_text then None else Some (level, heading_text).

(** ** Scanning a note *)

Record HeadingLine := mkHeadingLine {
  hl_index : nat;
  hl_level : nat;
  hl_text : str;
}.

Record scan_state := mkScan {
  fence : option (char * nat);
  in_front_matter : bool;
}.

(** What one line contributes: is it protected, and is it a heading? *)
Definition scan_line (closes : bool) (index : nat) (text : str) (st : scan_state)
  : scan_state * bool * option HeadingLine :=
  if (index =? 0)%nat && (text == u "---") && closes then
    (mkScan (fence st) true, true, None)
  else if in_front_matter st then
    (mkScan (fence st) (negb (is_front_matter_end text)), true, None)
  else match fence st with
  | Some (character, len) =>
      (mkScan (if closes_fence text character len then None else fence st) false, true, None)
  | None =>
      match opens_fence text with
      | Some opened => (mkScan (Some opened) false, true, None)
      | None =>
          (st, false,
           match parse_heading text with
           | Some (level, heading_text) => Some (mkHeadingLine index level heading_text)
           | None => None
           end)
      end
  end.

Fixpoint scan_loop (closes : bool) (index : nat) (lines : list Line) (st : scan_state)
  : list HeadingLine * list bool :=
  match lines with
  | [] => ([], [])
  | l :: rest =>
      let '(st, prot, found) := scan_line closes index (Line_text l) st in
      let '(headings, prots) := scan_loop closes (S index) rest st in
      (option_list found ++ headings, prot :: prots)
  end.

Definition scan (d : Document) : list HeadingLine * list bool :=
  scan_loop (front_matter_closes (doc_lines d)) 0 (doc_lines d) (mkScan None false).

Definition headings (d : Document) : list HeadingLine := (scan d).1.
Definition protected (d : Document) : list bool := (scan d).2.

(** ** Sections *)

(** [start..end] is the range, [start..body_end] the body, [start..own_end]
    the own lines; [end] excludes the next heading. *)
Record Section_ := mkSection {
  sec_heading : option nat;
  sec_start : nat;
  sec_body_end : nat;
  sec_own_end : nat;
  sec_end : nat;
}.

Definition blank_at (d : Document) (i : nat) : bool :=
  is_some_and Line_is_blank (doc_lines d !! i).

(** [while end > low && line (end - 1) is blank { end -= 1 }] *)
Fixpoint trim_blanks (d : Document) (low end_ : nat) : nat :=
  match end_ with
  | 0 => 0
  | S e => if (low <? end_)%nat && blank_at d e then trim_blanks d low e else end_
  end.

Definition trim_blank_end (d : Document) (start end_ : nat) : nat :=
  let end_ := trim_blanks d start end_ in
  if (start <? end_)%nat &&
     is_some_and (λ l, is_thematic_break (Line_text l)) (doc_lines d !! (end_ - 1))
  then trim_blanks d start (end_ - 1)
  else end_.

Definition section (d : Document) (heading : HeadingLine) : Section_ :=
  let hs := headings d in
  let start := hl_index heading + 1 in
  let end_ :=
    from_option hl_index (length (doc_lines d))
      (find (λ other, (hl_index heading <? hl_index other)%nat
                      && (hl_level other <=? hl_level heading)%nat) hs) in
  let body_end := trim_blank_end d start end_ in
  let own_end :=
    from_option hl_index body_end
      (find (λ other, (hl_index heading <? hl_index other)%nat
                      && (hl_index other <? body_end)%nat) hs) in
  mkSection (Some (hl_index heading)) start body_end (trim_blank_end d start own_end) end_.

Definition whole (d : Document) : Section_ :=
  let end_ := length (doc_lines d) in
  let body_end := trim_blanks d 0 end_ in
  mkSection None 0 body_end body_end end_.

(** The body lines a line rule may match, with their indices. *)
Definition matchable (d : Document) (s : Section_) : list (nat * str) :=
  let prot := protected d in
  omap (λ index, l ← doc_lines d !! index; Some (index, Line_text l))
    (filter (λ index, negb (default false (prot !! index)))
      (seq (sec_start s) (sec_body_end s - sec_start s))).

Definition body_texts (d : Document) (s : Section_) : list str :=
  if (sec_start s <=? sec_body_end s)%nat && (sec_body_end s <=? length (doc_lines d))%nat
  then map Line_text (take (sec_body_end s - sec_start s) (drop (sec_start s) (doc_lines d)))
  else [].

(** ** Naming a heading *)

Section resolving.
Context `{UnicodeTables}.

Definition matches_exactly (wanted : str) (candidate : HeadingLine) : bool :=
  str_to_lowercase (trim (hl_text candidate)) == wanted.

(** [matches.get(ordinal).or_else(|| matches.last())] *)
Definition get_or_last {A} (l : list A) (i : nat) : option A :=
  match l !! i with Some x => Some x | None => last l end.

Definition resolve_within (d : Document) (heading : Heading) (low high : nat)
  : option HeadingLine :=
  let hs := filter (λ candidate, (low <=? hl_index candidate)%nat
                                 && (hl_index candidate <? high)%nat) (headings d) in
  let wanted := str_to_lowercase (trim (Heading_text heading)) in
  let exact := filter (matches_exactly wanted) hs in
  match exact with
  | [] =>
      let wanted_key := heading_key (Heading_text heading) in
      if is_empty wanted_key then None
      else get_or_last
        (filter (λ candidate, heading_key (hl_text candidate) == wanted_key) hs)
        (Heading_ordinal heading)
  | _ => get_or_last exact (Heading_ordinal heading)
  end.

Definition resolve (d : Document) (heading : Heading) : option HeadingLine :=
  resolve_within d heading 0 (length (doc_lines d)).

Context `{Digest}.

(** The hash [replace_section] compares against. *)
Definition section_hash (content : str) (heading : Heading) : option str :=
  let document := Document_split content in
  found ← resolve document heading;
  Some (hash_lines (body_texts document (section document found))).
End resolving.

(** ** Facts about scanning *)

Definition scan_from (closes : bool) (i : nat) (ls : list Line) (st : scan_state) :=
  scan_loop closes i ls st.

Lemma scan_loop_cons closes i l ls st :
  scan_loop closes i (l :: ls) st =
    let '(st', p, f) := scan_line closes i (Line_text l) st in
    let '(hs, ps) := scan_loop closes (S i) ls st' in
    (option_list f ++ hs, p :: ps).
Proof. done. Qed.

Lemma scan_line_found closes i text st st' p h :
  scan_line closes i text st = (st', p, Some h) →
  p = false ∧ hl_index h = i ∧ parse_heading text = Some (hl_level h, hl_text h).
Proof.
  unfold scan_line. intros H. repeat split_match_in H; simplify_eq/=; by split_and!.
Qed.

Lemma scan_line_unprotected closes i text st st' f :
  scan_line closes i text st = (st', false, f) →
  f = (λ lt, mkHeadingLine i lt.1 lt.2) <$> parse_heading text.
Proof.
  unfold scan_line. intros H. repeat split_match_in H; simplify_eq/=; done.
Qed.

Lemma scan_loop_length closes i ls st : length (scan_loop closes i ls st).2 = length ls.
Proof.
  revert i st; induction ls as [|l ls IH]; intros i st; [done|].
  rewrite scan_loop_cons. destruct (scan_line _ _ _ _) as [[st' p] f].
  specialize (IH (S i) st'). destruct (scan_loop _ _ _ _) as [hs ps]. simpl in *. by f_equal.
Qed.

(** A heading of the scan is exactly an unprotected line that reads as one. *)
Lemma scan_loop_headings closes i ls st h :
  h ∈ (scan_loop closes i ls st).1 ↔
  ∃ k l, hl_index h = i + k ∧ ls !! k = Some l ∧
         (scan_loop closes i ls st).2 !! k = Some false ∧
         parse_heading (Line_text l) = Some (hl_level h, hl_text h).
Proof.
  revert i st; induction ls as [|l ls IH]; intros i st.
  { simpl. split; [by intros ?%not_elem_of_nil|]. by intros (k & l & _ & ? & _). }
  rewrite scan_loop_cons. destruct (scan_line _ _ _ _) as [[st' p] f] eqn:El.
  specialize (IH (S i) st'). destruct (scan_loop _ _ _ _) as [hs ps]. simpl in *.
  rewrite elem_of_app, IH. split.
  - intros [Hf|(k & l' & Hi & Hl & Hp & Hh)].
    + destruct f as [h'|]; simpl in Hf; [|by apply not_elem_of_nil in Hf].
      apply list_elem_of_singleton in Hf as <-.
      apply scan_line_found in El as (-> & Hi & Hh).
      exists 0, l. split_and!; [lia|done..].
    + exists (S k), l'. split_and!; [lia|done..].
  - intros ([|k] & l' & Hi & Hl & Hp & Hh); simpl in *; simplify_eq.
    + left. apply scan_line_unprotected in El as ->. rewrite Hh; simpl.
      rewrite list_elem_of_singleton. destruct h; simpl in *. f_equal. lia.
    + right. exists k, l'. split_and!; [lia|done..].
Qed.

Definition by_index (a b : HeadingLine) : Prop := hl_index a < hl_index b.

Lemma scan_loop_sorted closes i ls st : StronglySorted by_index (scan_loop closes i ls st).1.
Proof.
  revert i st; induction ls as [|l ls IH]; intros i st; [constructor|].
  rewrite scan_loop_cons. destruct (scan_line _ _ _ _) as [[st' p] f] eqn:El.
  pose proof (IH (S i) st') as IH'.
  assert (Forall (λ h, i < hl_index h) (scan_loop closes (S i) ls st').1) as Hall.
  { apply Forall_forall. intros h (k & l' & Hi & _)%scan_loop_headings. lia. }
  destruct (scan_loop _ _ _ _) as [hs ps]. simpl in *.
  destruct f as [h|]; simpl; [|done].
  apply scan_line_found in El as (_ & Hi & _). constructor; [done|].
  eapply Forall_impl; [done|]. unfold by_index. simpl. lia.
Qed.

Lemma protected_length d : length (protected d) = length (doc_lines d).
Proof. apply scan_loop_length. Qed.

Lemma headings_sorted d : StronglySorted by_index (headings d).
Proof. apply scan_loop_sorted. Qed.

Lemma headings_spec_lemma d h :
  h ∈ headings d ↔
  ∃ l, doc_lines d !! hl_index h = Some l ∧ protected d !! hl_index h = Some false ∧
       parse_heading (Line_text l) = Some (hl_level h, hl_text h).
Proof.
  unfold headings, protected, scan. rewrite scan_loop_headings. simpl. split.
  - intros (k & l & -> & ?). eauto.
  - intros (l & ?). exists (hl_index h), l. naive_solver.
Qed.

(** The headings of a note are exactly the lines that read as a heading
    and lie outside fences and the front matter. *)
Theorem headings_spec d h :
  h ∈ headings d ↔
  ∃ l, doc_lines d !! hl_index h = Some l ∧ protected d !! hl_index h = Some false ∧
       parse_heading (Line_text l) = Some (hl_level h, hl_text h).
Proof. apply headings_spec_lemma. Qed.

Lemma headings_index_lt d h : h ∈ headings d → hl_index h < length (doc_lines d).
Proof. intros (l & H & _)%headings_spec_lemma. by eapply lookup_lt_Some. Qed.

(** In a sorted list, the first element past an index that a filter keeps is
    the least one. *)
Lemma find_sorted_least (f : HeadingLine → bool) hs h :
  StronglySorted by_index hs → find f hs = Some h →
  h ∈ hs ∧ f h = true ∧ ∀ h', h' ∈ hs → f h' = true → hl_index h ≤ hl_index h'.
Proof.
  induction 1 as [|a l Hs IH Hall]; simpl; [done|]. destruct (f a) eqn:E.
  - intros [= ->]. split_and!; [by left|done|].
    intros h' [->|Hin]%elem_of_cons _; [done|].
    rewrite Forall_forall in Hall. apply Nat.lt_le_incl, (Hall h' Hin).
  - intros (Hin & Hf & Hl)%IH. split_and!; [by right|done|].
    intros h' [->|?]%elem_of_cons ?; [congruence|auto].
Qed.

Lemma find_None_elem {A} (f : A → bool) l x : find f l = None → x ∈ l → f x = false.
Proof. intros H Hin. eapply find_none; [done|]. by apply list_elem_of_In. Qed.

(** ** Facts about trimming *)

Lemma trim_blanks_spec d low end_ :
  low ≤ end_ →
  low ≤ trim_blanks d low end_ ≤ end_ ∧
  (∀ i, trim_blanks d low end_ ≤ i < end_ → blank_at d i = true) ∧
  (low < trim_blanks d low end_ → blank_at d (trim_blanks d low end_ - 1) = false).
Proof.
  induction end_ as [|e IH]; intros Hle; cbn [trim_blanks].
  { split_and!; [lia..| |lia]. intros i ?. lia. }
  destruct ((low <? S e)%nat && blank_at d e) eqn:E.
  - bool_to_prop. destruct IH as (H1 & H2 & H3); [lia|]. split_and!; [lia..| |done].
    intros i Hi. destruct (decide (i = e)) as [->|]; [done|]. apply H2. lia.
  - split_and!; [lia..|lia|]. intros Hlt. simpl. rewrite Nat.sub_0_r.
    apply andb_false_iff in E as [E|E]; [bool_to_prop; lia|done].
Qed.

Definition thematic_at (d : Document) (i : nat) : bool :=
  is_some_and (λ l, is_thematic_break (Line_text l)) (doc_lines d !! i).

Lemma trim_blank_end_spec d start end_ :
  start ≤ end_ →
  start ≤ trim_blank_end d start end_ ≤ end_ ∧
  (∀ i, trim_blank_end d start end_ ≤ i < end_ → blank_at d i = true ∨ thematic_at d i = true) ∧
  (start < trim_blank_end d start end_ → blank_at d (trim_blank_end d start end_ - 1) = false).
Proof.
  intros Hle. unfold trim_blank_end. fold (thematic_at d).
  destruct (trim_blanks_spec d start end_ Hle) as (H1 & H2 & H3).
  set (e := trim_blanks d start end_) in *.
  destruct ((start <? e)%nat && _) eqn:E.
  - bool_to_prop. destruct (trim_blanks_spec d start (e - 1)) as (H4 & H5 & H6); [lia|].
    split_and!; [lia..| |done].
    intros i Hi. destruct (decide (i < e)) as [Hlt|]; [|left; apply H2; lia].
    destruct (decide (i = e - 1)) as [->|]; [by right|left; apply H5; lia].
  - split_and!; [lia..| |done]. intros i Hi. left. apply H2. lia.
Qed.

(** ** Facts about sections *)

Lemma section_geometry_lemma d h :
  h ∈ headings d →
  let s := section d h in
  sec_heading s = Some (hl_index h) ∧
  hl_index h < sec_start s ≤ sec_own_end s ∧ sec_own_end s ≤ sec_body_end s ≤ sec_end s ∧
  sec_end s ≤ length (doc_lines d) ∧
  (* nothing inside is at the heading's level or above; what ends it is *)
  (∀ h', h' ∈ headings d → sec_start s ≤ hl_index h' < sec_end s → hl_level h < hl_level h') ∧
  (sec_end s = length (doc_lines d) ∨
   ∃ h', h' ∈ headings d ∧ hl_index h' = sec_end s ∧ hl_level h' ≤ hl_level h) ∧
  (* the own lines stop above the first subsection *)
  (∀ h', h' ∈ headings d → ¬ (sec_start s ≤ hl_index h' < sec_own_end s)) ∧
  (* only blank lines and closing rules are left out of the body *)
  (∀ i, sec_body_end s ≤ i < sec_end s → blank_at d i = true ∨ thematic_at d i = true).
Proof.
  intros Hin. unfold section. cbn zeta. cbn [sec_heading sec_start sec_own_end sec_body_end sec_end].
  pose proof (headings_index_lt _ _ Hin) as Hlt. pose proof (headings_sorted d) as Hs.
  set (f := λ other, _ && _). set (e := from_option hl_index _ (find f _)).
  assert (hl_index h + 1 ≤ e ≤ length (doc_lines d) ∧
    (∀ h', h' ∈ headings d → hl_index h + 1 ≤ hl_index h' < e → hl_level h < hl_level h') ∧
    (e = length (doc_lines d) ∨
     ∃ h', h' ∈ headings d ∧ hl_index h' = e ∧ hl_level h' ≤ hl_level h)) as (He & Hlev & Hend).
  { subst e. destruct (find f (headings d)) as [o|] eqn:Ef; simpl.
    - apply find_sorted_least in Ef as (Hino & Hfo & Hleast); [|done]. subst f.
      simpl in Hfo. bool_to_prop. pose proof (headings_index_lt _ _ Hino).
      split_and!; [lia..| |right; eauto].
      intros h' Hin' ?. destruct (decide (hl_level h' ≤ hl_level h)); [|lia].
      enough (hl_index o ≤ hl_index h') by lia. apply Hleast; [done|]. simpl.
      by rewrite andb_true_iff, Nat.ltb_lt, Nat.leb_le; lia.
    - split_and!; [lia..| |by left]. intros h' Hin' ?.
      pose proof (find_None_elem _ _ _ Ef Hin') as Hf. subst f. simpl in Hf.
      apply andb_false_iff in Hf as [?|?]; bool_to_prop; lia. }
  destruct (trim_blank_end_spec d (hl_index h + 1) e) as (Hb & Hbl & _); [lia|].
  set (b := trim_blank_end d (hl_index h + 1) e) in *.
  set (g := λ other, _ && (hl_index other <? b)%nat). set (o := from_option hl_index b (find g _)).
  assert (hl_index h + 1 ≤ o ≤ b ∧
    ∀ h', h' ∈ headings d → ¬ (hl_index h + 1 ≤ hl_index h' < o)) as (Ho & Hno).
  { subst o. destruct (find g (headings d)) as [w|] eqn:Eg; simpl.
    - apply find_sorted_least in Eg as (Hinw & Hgw & Hleast); [|done]. subst g.
      simpl in Hgw. bool_to_prop. split; [lia|]. intros h' Hin' ?.
      enough (hl_index w ≤ hl_index h') by lia. apply Hleast; [done|]. simpl.
      rewrite andb_true_iff, !Nat.ltb_lt. lia.
    - split; [lia|]. intros h' Hin' ?. pose proof (find_None_elem _ _ _ Eg Hin') as Hf.
      subst g. simpl in Hf. apply andb_false_iff in Hf as [?|?]; bool_to_prop; lia. }
  destruct (trim_blank_end_spec d (hl_index h + 1) o) as (Hoo & _ & _); [lia|].
  split_and!; try done; try lia.
  intros h' Hin' ?. apply (Hno h' Hin'). lia.
Qed.

(** The geometry of a section: its ranges are nested and inside the note,
    no heading of its level or above is inside it, what ends it is one or the
    end of the note, its own lines hold no heading, and only blank lines and
    rules are left out of its body. *)
Theorem section_geometry d h :
  h ∈ headings d →
  let s := section d h in
  sec_heading s = Some (hl_index h) ∧
  hl_index h < sec_start s ≤ sec_own_end s ∧ sec_own_end s ≤ sec_body_end s ≤ sec_end s ∧
  sec_end s ≤ length (doc_lines d) ∧
  (* nothing inside is at the heading's level or above; what ends it is *)
  (∀ h', h' ∈ headings d → sec_start s ≤ hl_index h' < sec_end s → hl_level h < hl_level h') ∧
  (sec_end s = length (doc_lines d) ∨
   ∃ h', h' ∈ headings d ∧ hl_index h' = sec_end s ∧ hl_level h' ≤ hl_level h) ∧
  (* the own lines stop above the first subsection *)
  (∀ h', h' ∈ headings d → ¬ (sec_start s ≤ hl_index h' < sec_own_end s)) ∧
  (* only blank lines and closing rules are left out of the body *)
  (∀ i, sec_body_end s ≤ i < sec_end s → blank_at d i = true ∨ thematic_at d i = true).
Proof. apply section_geometry_lemma. Qed.

(** ** Facts about naming a heading *)

Lemma get_or_last_min {A} (l : list A) i : get_or_last l i = l !! Nat.min i (length l - 1).
Proof.
  unfold get_or_last. destruct (l !! i) as [x|] eqn:E.
  - apply lookup_lt_Some in E as Hlt. rewrite Nat.min_l by lia. done.
  - apply lookup_ge_None in E. rewrite last_lookup.
    replace (Nat.min i (length l - 1)) with (pred (length l)) by lia. done.
Qed.

Lemma get_or_last_elem {A} (l : list A) i x : get_or_last l i = Some x → x ∈ l.
Proof. rewrite get_or_last_min. apply list_elem_of_lookup_2. Qed.

Lemma get_or_last_None {A} (l : list A) i : get_or_last l i = None → l = [].
Proof.
  rewrite get_or_last_min. intros H%lookup_ge_None. destruct l; simpl in *; [done|lia].
Qed.

Section resolving_facts.
Context `{UnicodeTables}.

(** A candidate equal to the name up to case, or with the name's key. *)
Definition exact_match (heading : Heading) (h : HeadingLine) : Prop :=
  str_to_lowercase (trim (hl_text h)) = str_to_lowercase (trim (Heading_text heading)).
Definition key_match (heading : Heading) (h : HeadingLine) : Prop :=
  heading_key (Heading_text heading) ≠ [] ∧
  heading_key (hl_text h) = heading_key (Heading_text heading).

#[global] Instance exact_match_dec heading h : Decision (exact_match heading h).
Proof. unfold exact_match, key_match. apply _. Defined.
#[global] Instance key_match_dec heading h : Decision (key_match heading h).
Proof. unfold exact_match, key_match. apply _. Defined.

Lemma resolve_within_spec d heading low high :
  let hs := filter (λ h, low ≤ hl_index h < high) (headings d) in
  let exact := filter (exact_match heading) hs in
  let winners := if decide (exact = []) then filter (key_match heading) hs else exact in
  resolve_within d heading low high
  = winners !! Nat.min (Heading_ordinal heading) (length winners - 1).
Proof.
  cbn zeta. unfold resolve_within.
  rewrite (list_filter_iff (λ candidate, (low <=? hl_index candidate) && (hl_index candidate <? high))
    (λ h, low ≤ hl_index h < high))
    by (intros h; rewrite Is_true_true, andb_true_iff, Nat.leb_le, Nat.ltb_lt; done).
  set (hs := filter _ (headings d)).
  rewrite (list_filter_iff (matches_exactly (str_to_lowercase (trim (Heading_text heading))))
    (exact_match heading))
    by (intros h; unfold matches_exactly; by rewrite bool_decide_spec).
  destruct (filter (exact_match heading) hs) as [|x exact]; simpl.
  - unfold is_empty. case_bool_decide as Hk.
    + rewrite filter_none; [done|]. intros h _ [? _]. done.
    + rewrite get_or_last_min.
      rewrite (list_filter_iff _ (key_match heading)); [done|].
      intros h. rewrite bool_decide_spec. unfold key_match. naive_solver.
  - by rewrite get_or_last_min.
Qed.

Lemma resolve_spec_lemma d heading :
  let exact := filter (exact_match heading) (headings d) in
  let winners := if decide (exact = []) then filter (key_match heading) (headings d) else exact in
  resolve d heading = winners !! Nat.min (Heading_ordinal heading) (length winners - 1).
Proof.
  unfold resolve. pose proof (resolve_within_spec d heading 0 (length (doc_lines d))) as Hr.
  cbn zeta in *. rewrite Hr.
  rewrite (filter_all _ (headings d)); [done|].
  intros h Hin%headings_index_lt. lia.
Qed.

(** Which heading a write's name resolves to: of the headings with that
    very name, or, when there is none, of those with the same non-empty key,
    the one the ordinal counts, the last one when there are fewer. *)
Theorem resolve_spec d heading :
  let exact := filter (exact_match heading) (headings d) in
  let winners := if decide (exact = []) then filter (key_match heading) (headings d) else exact in
  resolve d heading = winners !! Nat.min (Heading_ordinal heading) (length winners - 1).
Proof. apply resolve_spec_lemma. Qed.

Lemma resolve_within_elem d heading low high h :
  resolve_within d heading low high = Some h →
  h ∈ headings d ∧ low ≤ hl_index h < high ∧ (exact_match heading h ∨ key_match heading h).
Proof.
  rewrite resolve_within_spec. cbn zeta. intros Hl%list_elem_of_lookup_2.
  destruct (decide _); apply list_elem_of_filter in Hl as [Hm [? ?]%list_elem_of_filter]; auto.
Qed.

Lemma resolve_elem d heading h : resolve d heading = Some h → h ∈ headings d.
Proof. by intros [? _]%resolve_within_elem. Qed.
End resolving_facts.

(** ** On a concrete note *)

Definition sample_sections : Document :=
  Document_split (u "# A" ++ [10%N] ++ u "x" ++ [10%N] ++ u "## B" ++ [10%N] ++ u "y" ++ [10%N; 10%N]
                  ++ u "---" ++ [10%N] ++ u "# C" ++ [10%N]).

Lemma section_geometry_witness :
  mkHeadingLine 0 1 (u "A") ∈ headings sample_sections ∧
  let s := section sample_sections (mkHeadingLine 0 1 (u "A")) in
  hl_index (mkHeadingLine 0 1 (u "A")) < sec_start s ≤ sec_own_end s ∧
  (∀ i, sec_body_end s ≤ i < sec_end s →
     blank_at sample_sections i = true ∨ thematic_at sample_sections i = true).
Proof.
  assert (mkHeadingLine 0 1 (u "A") ∈ headings sample_sections) as Hin
    by (apply list_elem_of_In; vm_compute; left; reflexivity).
  split; [exact Hin|].
  destruct (section_geometry sample_sections _ Hin) as (_ & H1 & _ & _ & _ & _ & _ & H2).
  cbn zeta. split; [exact H1|exact H2].
Defined.
