(* ===== verification/Apply.v ===== *)
(** * The application rules ([apply.rs])

    What a write from the phone does to a note. A function that changes the
    document returns the changed one; [outcome] is threaded the same way. *)

From S2P Require Import Prelude Strings External Write Lines HeadingKey LineHash Sections.

Definition CONFLICT_MARKER : str := u "<!--thock:also-->".

Inductive Outcome := Created | SectionAdded | Applied_ | KeptBoth | Noop.

#[export] Instance Outcome_eq_dec : EqDecision Outcome.
Proof. solve_decision. Defined.

Record Applied := mkApplied {
  applied_text : str;
  applied_outcome : Outcome;
}.

(** ** Small helpers *)

(** Nothing to do, unless the file or a section was created on the way. *)
Definition unchanged (d : Document) (outcome : option Outcome) : Applied :=
  mkApplied (Document_join d) (default Noop outcome).

(** The section's own lines as a section of their own. *)
Definition own (s : Section_) : Section_ :=
  mkSection (sec_heading s) (sec_start s) (sec_own_end s) (sec_own_end s) (sec_end s).

Definition nonblank_at (d : Document) (i : nat) : bool :=
  is_some_and (λ l, negb (Line_is_blank l)) (doc_lines d !! i).

(** Where [place: top] lands. *)
Definition first_body_line (d : Document) (s : Section_) : nat :=
  default (sec_body_end s)
    (find (nonblank_at d) (seq (sec_start s) (sec_body_end s - sec_start s))).

Fixpoint block_end_loop (fuel : nat) (d : Document) (body_end end_ last_content : nat) : nat :=
  match fuel with
  | 0 => last_content
  | S fuel =>
      if (end_ <? body_end)%nat then
        match doc_lines d !! end_ with
        | None => last_content
        | Some line =>
            if Line_is_blank line then block_end_loop fuel d body_end (S end_) last_content
            else if starts_with [32%N] (Line_text line) || starts_with [9%N] (Line_text line)
            then block_end_loop fuel d body_end (S end_) (S end_)
            else last_content
        end
      else last_content
  end.

(** One past the last line of the block at [index]: the line and the indented
    lines under it, blank lines between them included. *)
Definition block_end (d : Document) (s : Section_) (index : nat) : nat :=
  block_end_loop (sec_body_end s) d (sec_body_end s) (index + 1) (index + 1).

(** Removes [start..end], and one blank line where two would meet. *)
Definition cut (d : Document) (start end_ : nat) : Document :=
  let end_ := Nat.min end_ (length (doc_lines d)) in
  if (end_ <=? start)%nat then d
  else
    let d := mkDocument (take start (doc_lines d) ++ drop end_ (doc_lines d)) (doc_ending d) in
    let before_blank := (0 <? start)%nat && blank_at d (start - 1) in
    let after_blank := blank_at d start in
    if before_blank && after_blank
    then mkDocument (delete start (doc_lines d)) (doc_ending d)
    else d.

Definition mark (line : str) : str := trim_end line ++ u " " ++ CONFLICT_MARKER.

Definition normalize_endings (text : str) : str := replace [13%N; 10%N] [10%N] text.

Definition content_lines (content : str) : list str :=
  let lines := split_char 10%N (normalize_endings content) in
  match last lines with
  | Some [] => take (length lines - 1) lines
  | _ => lines
  end.

(** [slice::windows] for [n > 0]. *)
Definition windows {A} (n : nat) (l : list A) : list (list A) :=
  if (length l <? n)%nat then []
  else map (λ i, take n (drop i l)) (seq 0 (S (length l - n))).

Fixpoint adjacent (window : list (nat * str)) : bool :=
  match window with
  | (i, _) :: (((j, _) :: _) as rest) => (j =? i + 1)%nat && adjacent rest
  | _ => true
  end.

(** Whether [lines] appear in order as adjacent lines of [body]. *)
Definition contains_run (body : list (nat * str)) (lines : list str) : bool :=
  match lines with
  | [] => true
  | _ =>
      if (length body <? length lines)%nat then false
      else existsb (λ window,
        adjacent window &&
        forallb (λ hw : (nat * str) * str, trim_end hw.1.2 == trim_end hw.2)
          (zip window lines)) (windows (length lines) body)
  end.

(** [lines] go in at [at]; with [blank_line_before], a blank line first unless
    the previous line is blank or the heading itself. *)
Definition insert_lines (d : Document) (s : Section_) (at_ : nat) (lines : list str)
    (blank_line_before : bool) : Document :=
  match lines with
  | [] => d
  | _ =>
      let needs_blank := blank_line_before &&
        match at_ with
        | 0 => false
        | S index => (sec_heading s != Some index) && nonblank_at d index
        end in
      if needs_blank then Document_insert d at_ ([] :: lines) else Document_insert d at_ lines
  end.

(** ** Finding the target *)

Section finding.
Context `{UnicodeTables, Digest}.

Definition names (wanted : str) (text : str) : bool :=
  (line_hash text == wanted) && negb (is_empty (normalize_line text)).

Definition find_line (d : Document) (s : Section_) (wanted : str) (ordinal : nat)
  : option nat :=
  let matches := map fst (filter (λ il : nat * str, names wanted il.2) (matchable d s)) in
  match matches !! ordinal with Some i => Some i | None => head matches end.

Definition find_section (d : Document) (heading : option Heading) : option Section_ :=
  match heading with
  | None => Some (whole d)
  | Some heading => section d <$> resolve d heading
  end.

(** The section a write targets, its heading created when the note lacks it. *)
Definition locate (d : Document) (heading : option Heading) (outcome : option Outcome)
  : Document * Section_ * option Outcome :=
  match heading with
  | None => (d, whole d, outcome)
  | Some heading =>
      match resolve d heading with
      | Some found => (d, section d found, outcome)
      | None =>
          let insert_at := hl_index <$>
            find (λ candidate, hl_level candidate =? 1)%nat (drop 1 (headings d)) in
          let '(at_, texts) :=
            match insert_at with
            | Some index =>
                (index,
                 (if (0 <? index)%nat && nonblank_at d (index - 1) then [[]] else [])
                 ++ [Heading_line heading; []])
            | None =>
                (length (doc_lines d),
                 (if is_some_and (λ l, negb (Line_is_blank l)) (last (doc_lines d))
                  then [[]] else []) ++ [Heading_line heading])
            end in
          let d := Document_insert d at_ texts in
          let outcome := match outcome with None => Some SectionAdded | o => o end in
          (d,
           match resolve d heading with Some found => section d found | None => whole d end,
           outcome)
      end
  end.

(** The group a block moves into, created under [create_under] if missing. *)
Definition locate_group (d : Document) (to create_under : option Heading)
    (outcome : option Outcome) : Document * Section_ * option Outcome :=
  match to with
  | None => (d, whole d, outcome)
  | Some to =>
      match create_under with
      | None =>
          match resolve d to with
          | Some found => (d, section d found, outcome)
          | None => locate d (Some to) outcome
          end
      | Some parent =>
          let '(d, parent, outcome) := locate d (Some parent) outcome in
          match resolve_within d to (sec_start parent) (sec_end parent) with
          | Some found => (d, section d found, outcome)
          | None =>
              let d := insert_lines d parent (sec_body_end parent) [Heading_line to] true in
              let outcome := match outcome with None => Some SectionAdded | o => o end in
              (d,
               match resolve_within d to (sec_start parent) (length (doc_lines d)) with
               | Some found => section d found
               | None => whole d
               end,
               outcome)
          end
      end
  end.

(** The group a move names as its destination, when the note has it. *)
Definition find_group (d : Document) (to create_under : option Heading) : option Section_ :=
  match to with
  | None => Some (whole d)
  | Some to =>
      found ← match create_under with
        | Some parent =>
            parent ← find_section d (Some parent);
            resolve_within d to (sec_start parent) (sec_end parent)
        | None => resolve d to
        end;
      Some (section d found)
  end.
End finding.

(** ** Is the effect already there? *)

Section applying.
Context `{UnicodeTables, Digest}.

(** [replace_line]: the target decides when it exists; only when it is gone
    does any line that reads like [new_line] count. *)
Definition replace_present (d : Document) (s : Section_) (wanted : str) (ordinal : nat)
    (new_line : str) : bool :=
  let equals line := (trim_end line == trim_end new_line) || (trim_end line == mark new_line) in
  match find_line d s wanted ordinal with
  | Some index => is_some_and (λ l, equals (Line_text l)) (doc_lines d !! index)
  | None =>
      existsb (λ il : nat * str, equals il.2 || (line_hash il.2 == line_hash new_line))
        (matchable d s)
  end.

Definition section_present (d : Document) (s : Section_) (lines : list str) : bool :=
  let body := body_texts d s in
  if hash_lines body == hash_lines lines then true
  else match find (λ line, negb (is_empty (trim line))) lines with
    | Some first => existsb (λ line, trim_end line == mark first) body
    | None => false
    end.

(** Whether the line at [index] of the destination is where [place] puts it. *)
Definition placed_at (d : Document) (destination : Section_) (place : Place) (index : nat)
  : bool :=
  match place with
  | Place_Top => (index =? first_body_line d destination)%nat
  | Place_End => (block_end d destination index =? sec_body_end destination)%nat
  | Place_After anchor ordinal =>
      match find_line d destination anchor ordinal with
      | Some anchor => (block_end d destination anchor =? index)%nat
      | None => (block_end d destination index =? sec_body_end destination)%nat
      end
  end.

Definition move_present (d : Document) (heading : option Heading) (wanted : str)
    (to : option Heading) (place : Place) (new_line : option str)
    (create_under : option Heading) : bool :=
  match own <$> find_group d to create_under with
  | None => false
  | Some destination =>
      let landed := from_option line_hash wanted new_line in
      let placed :=
        existsb (λ il : nat * str, placed_at d destination place il.1)
          (filter (λ il : nat * str, names landed il.2) (matchable d destination)) in
      if negb placed then false
      else match own <$> find_section d heading with
        | Some source =>
            if sec_heading source != sec_heading destination
            then negb (existsb (λ il : nat * str, names wanted il.2) (matchable d source))
            else true
        | None => true
        end
  end.

Definition effect_present (content : str) (write : Write) : bool :=
  let document := Document_split content in
  match Write_operation write with
  | PutFile _ _ | MoveFile _ => false
  | Create wanted =>
      if normalize_endings content == normalize_endings wanted then true
      else contains_run (matchable document (whole document)) (content_lines wanted)
  | Append heading lines _ _ _ _ =>
      match find_section document heading with
      | None => false
      | Some section => contains_run (matchable document section) lines
      end
  | ReplaceLine heading wanted ordinal new_line =>
      match find_section document heading with
      | None => false
      | Some section => replace_present document section wanted ordinal new_line
      end
  | RemoveLine heading wanted _ =>
      match find_section document heading with
      | None => true
      | Some section =>
          negb (existsb (λ il : nat * str, line_hash il.2 == wanted) (matchable document section))
      end
  | ReplaceSection heading _ lines =>
      match find_section document (Some heading) with
      | None => false
      | Some section => section_present document section lines
      end
  | MoveBlock heading wanted _ to place new_line create_under =>
      move_present document heading wanted to place new_line create_under
  | RemoveBlock heading wanted _ =>
      match own <$> find_section document heading with
      | None => true
      | Some section =>
          negb (existsb (λ il : nat * str, names wanted il.2) (matchable document section))
      end
  end.

(** ** Applying *)

(** An operation either returns early or leaves a document and what it did;
    [outcome] is what the steps before it did to the note's structure. *)
Inductive step :=
  | Return (a : Applied)
  | Continue (d : Document) (outcome : option Outcome) (applied : Outcome).

Definition finish (s : step) : Applied :=
  match s with
  | Return a => a
  | Continue d outcome applied => mkApplied (Document_join d) (default applied outcome)
  end.

Definition set_text (text : str) (l : Line) : Line := mkLine text (Line_ending l).

Definition apply_append (d : Document) (outcome : option Outcome) (heading : option Heading)
    (lines : list str) (placement : Placement) (blank_line_before : bool)
    (after : option Anchor) : step :=
  let '(d, s, outcome) := locate d heading outcome in
  let anchored :=
    anchor ← after;
    index ← find_line d s (Anchor_line_hash anchor) (Anchor_ordinal anchor);
    Some (block_end d s index) in
  let at_ := default (match placement with
    | End => sec_body_end s
    | BeforeChildren => sec_own_end s
    end) anchored in
  Continue (insert_lines d s at_ lines blank_line_before) outcome Applied_.

Definition apply_replace_line (d : Document) (outcome : option Outcome)
    (heading : option Heading) (wanted : str) (ordinal : nat) (new_line : str) : step :=
  let '(d, s, outcome) := locate d heading outcome in
  match find_line d s wanted ordinal with
  | Some index =>
      Continue (mkDocument (alter (set_text new_line) index (doc_lines d)) (doc_ending d))
        outcome Applied_
  | None =>
      Continue (insert_lines d s (sec_body_end s) [mark new_line] false) outcome KeptBoth
  end.

Definition apply_remove_line (d : Document) (outcome : option Outcome)
    (heading : option Heading) (wanted : str) (ordinal : nat) : step :=
  let '(d, s, outcome) := locate d heading outcome in
  match find_line d s wanted ordinal with
  | Some index =>
      Continue (mkDocument (delete index (doc_lines d)) (doc_ending d)) outcome Applied_
  | None => Continue d outcome Noop
  end.

(** [*first = mark(first)] on the first non-blank line. *)
Fixpoint mark_first (lines : list str) : list str :=
  match lines with
  | [] => []
  | l :: rest => if is_empty (trim l) then l :: mark_first rest else mark l :: rest
  end.

Definition apply_replace_section (d : Document) (outcome : option Outcome)
    (heading : Heading) (base_hash : str) (lines : list str) : step :=
  let '(d, s, outcome) := locate d (Some heading) outcome in
  let current := hash_lines (body_texts d s) in
  if current == base_hash then
    let drained := mkDocument
      (take (sec_start s) (doc_lines d) ++ drop (sec_body_end s) (doc_lines d)) (doc_ending d) in
    Continue (Document_insert drained (sec_start s) lines) outcome Applied_
  else if forallb (λ line, is_empty (trim line)) lines then Continue d outcome Noop
  else Continue (insert_lines d s (sec_body_end s) (mark_first lines) true) outcome KeptBoth.

Definition apply_move_block (d : Document) (outcome : option Outcome)
    (heading : option Heading) (wanted : str) (ordinal : nat) (to : option Heading)
    (place : Place) (new_line : option str) (create_under : option Heading) : step :=
  match own <$> find_section d heading with
  | None => Return (unchanged d outcome)
  | Some source =>
      match find_line d source wanted ordinal with
      | None => Return (unchanged d outcome)
      | Some index =>
          let end_ := block_end d source index in
          let texts := map Line_text (take (end_ - index) (drop index (doc_lines d))) in
          let texts := match new_line, texts with
            | Some new_line, _ :: rest => new_line :: rest
            | _, _ => texts
            end in
          let d := cut d index end_ in
          let '(d, group, outcome) := locate_group d to create_under outcome in
          let destination := own group in
          let at_ := match place with
            | Place_Top => first_body_line d destination
            | Place_End => sec_body_end destination
            | Place_After anchor anchor_ordinal =>
                match find_line d destination anchor anchor_ordinal with
                | Some anchor => block_end d destination anchor
                | None => sec_body_end destination
                end
            end in
          Continue (insert_lines d destination at_ texts false) outcome Applied_
      end
  end.

Definition apply_remove_block (d : Document) (outcome : option Outcome)
    (heading : option Heading) (wanted : str) (ordinal : nat) : step :=
  match own <$> find_section d heading with
  | None => Return (unchanged d outcome)
  | Some s =>
      match find_line d s wanted ordinal with
      | Some index => Continue (cut d index (block_end d s index)) outcome Applied_
      | None => Return (unchanged d outcome)
      end
  end.

(** The [match &write.operation] of [apply], on the document it starts from. *)
Definition apply_operation (d : Document) (outcome : option Outcome) (op : Operation) : step :=
  match op with
  | PutFile _ _ | MoveFile _ => Return (unchanged d outcome)
  | Create content =>
      let s := whole d in
      Continue (insert_lines d s (sec_body_end s) (content_lines content) true) outcome Applied_
  | Append heading lines placement blank_line_before _ after =>
      apply_append d outcome heading lines placement blank_line_before after
  | ReplaceLine heading wanted ordinal new_line =>
      apply_replace_line d outcome heading wanted ordinal new_line
  | RemoveLine heading wanted ordinal => apply_remove_line d outcome heading wanted ordinal
  | ReplaceSection heading base_hash lines =>
      apply_replace_section d outcome heading base_hash lines
  | MoveBlock heading wanted ordinal to place new_line create_under =>
      apply_move_block d outcome heading wanted ordinal to place new_line create_under
  | RemoveBlock heading wanted ordinal => apply_remove_block d outcome heading wanted ordinal
  end.

(** The document a write to a missing file starts from. *)
Definition missing_document (op : Operation) (seed : option str) : Document :=
  match op, seed with
  | Append _ _ _ _ true _, Some seed => Document_split seed
  | _, _ =>
      match Operation_heading op with
      | Some heading => Document_split (Heading_line heading ++ [10%N; 10%N])
      | None => Document_empty
      end
  end.

Definition apply (existing : option str) (write : Write) (seed : option str) : Applied :=
  if is_file_level (Write_operation write)
  then mkApplied (default [] existing) Noop
  else match existing with
  | Some text =>
      if effect_present text write then mkApplied text Noop
      else finish (apply_operation (Document_split text) None (Write_operation write))
  | None =>
      match Write_operation write with
      | Create content => mkApplied content Created
      | op => finish (apply_operation (missing_document op seed) (Some Created) op)
      end
  end.
End applying.
