(* ===== verification/Insertion.v ===== *)
(** * Inserting plain lines into a note

    What an insertion does to the scan of a note: lines that neither open a
    fence nor are headings nor end front matter, put where no fence is open,
    leave every other line's reading as it was. *)

From S2P Require Import Prelude Strings External Write Lines HeadingKey LineHash Sections.

(** ** The state of the scan *)

(** The state after the lines [ls], the first of which has index [i]. *)
Fixpoint scan_run (closes : bool) (i : nat) (ls : list Line) (st : scan_state) : scan_state :=
  match ls with
  | [] => st
  | l :: rest => scan_run closes (S i) rest (scan_line closes i (Line_text l) st).1.1
  end.

Definition scan_init : scan_state := mkScan None false.

(** The state before line [i] of a note. *)
Definition state_at (d : Document) (i : nat) : scan_state :=
  scan_run (front_matter_closes (doc_lines d)) 0 (take i (doc_lines d)) scan_init.

(** No fence and no front matter is open before line [i]. *)
Definition open_at (d : Document) (i : nat) : Prop := state_at d i = scan_init.

(** Every fence of the note is closed, and its front matter. *)
Definition fences_closed (d : Document) : Prop := open_at d (length (doc_lines d)).

#[export] Instance scan_state_eq_dec : EqDecision scan_state.
Proof. solve_decision. Defined.
#[export] Instance open_at_dec d i : Decision (open_at d i).
Proof. unfold open_at. apply _. Defined.
#[export] Instance fences_closed_dec d : Decision (fences_closed d).
Proof. unfold fences_closed. apply _. Defined.

(** A line that is text wherever no fence is open. *)
Definition plain (text : str) : bool :=
  is_none (opens_fence text) && is_none (parse_heading text) && negb (is_front_matter_end text).

Lemma plain_spec text :
  plain text = true ↔
  opens_fence text = None ∧ parse_heading text = None ∧ is_front_matter_end text = false.
Proof.
  unfold plain, is_none, is_some, is_some_and. rewrite !andb_true_iff, !negb_true_iff.
  destruct (opens_fence text), (parse_heading text); naive_solver.
Qed.

(** A line that opens no fence and ends no front matter: plain text, a
    heading or a blank line. *)
Definition neutral (text : str) : bool :=
  is_none (opens_fence text) && negb (is_front_matter_end text).

Lemma neutral_spec text :
  neutral text = true ↔ opens_fence text = None ∧ is_front_matter_end text = false.
Proof.
  unfold neutral, is_none, is_some, is_some_and. rewrite andb_true_iff, !negb_true_iff.
  destruct (opens_fence text); naive_solver.
Qed.

Lemma plain_neutral text : plain text = true → neutral text = true.
Proof. rewrite plain_spec, neutral_spec. tauto. Qed.

Lemma neutral_not_rule text : neutral text = true → text ≠ u "---".
Proof. intros [_ H]%neutral_spec ->. done. Qed.

Lemma plain_not_rule text : plain text = true → text ≠ u "---".
Proof. intros (_ & _ & H)%plain_spec ->. done. Qed.

(** ** The scan depends on the texts only *)

Lemma scan_loop_texts closes i ls ls' st :
  map Line_text ls = map Line_text ls' → scan_loop closes i ls st = scan_loop closes i ls' st.
Proof.
  revert ls' i st; induction ls as [|l ls IH]; intros [|l' ls'] i st H; try done.
  simpl in H. injection H as Hl Hls. rewrite !scan_loop_cons, Hl.
  destruct (scan_line _ _ _ _) as [[st' p] f]. by rewrite (IH ls').
Qed.

Lemma scan_run_texts closes i ls ls' st :
  map Line_text ls = map Line_text ls' → scan_run closes i ls st = scan_run closes i ls' st.
Proof.
  revert ls' i st; induction ls as [|l ls IH]; intros [|l' ls'] i st H; try done.
  simpl in H. injection H as Hl Hls. simpl. rewrite Hl. by apply IH.
Qed.

Lemma existsb_map {A B} (f : A → B) (p : B → bool) l :
  existsb p (map f l) = existsb (λ x, p (f x)) l.
Proof. induction l as [|x l IH]; simpl; [done|]. by rewrite IH. Qed.

Lemma front_matter_closes_texts ls :
  front_matter_closes ls = existsb is_front_matter_end (drop 1 (map Line_text ls)).
Proof. unfold front_matter_closes. by rewrite skipn_map, existsb_map. Qed.

Lemma scan_loop_app closes i a b st :
  scan_loop closes i (a ++ b) st =
    ((scan_loop closes i a st).1 ++ (scan_loop closes (i + length a) b (scan_run closes i a st)).1,
     (scan_loop closes i a st).2 ++ (scan_loop closes (i + length a) b (scan_run closes i a st)).2).
Proof.
  revert i st; induction a as [|l a IH]; intros i st.
  { simpl. rewrite Nat.add_0_r. by destruct (scan_loop _ _ _ _). }
  cbn [app]. rewrite !scan_loop_cons. cbn [scan_run].
  destruct (scan_line _ _ _ _) as [[st' p] f]. rewrite IH. cbn [fst].
  destruct (scan_loop closes (S i) a st') as [hs ps]. simpl.
  rewrite <- app_assoc. by rewrite Nat.add_succ_r.
Qed.

Lemma scan_run_app closes i a b st :
  scan_run closes i (a ++ b) st = scan_run closes (i + length a) b (scan_run closes i a st).
Proof.
  revert i st; induction a as [|l a IH]; intros i st; simpl.
  { by rewrite Nat.add_0_r. }
  rewrite IH. by rewrite Nat.add_succ_r.
Qed.

(** ** Moving lines down *)

Definition shift (n : nat) (h : HeadingLine) : HeadingLine :=
  mkHeadingLine (n + hl_index h) (hl_level h) (hl_text h).

Lemma scan_line_shift closes n i text st :
  i ≠ 0 ∨ text ≠ u "---" →
  scan_line closes (n + i) text st =
    let '(st', p, f) := scan_line closes i text st in (st', p, shift n <$> f).
Proof.
  intros Hi. unfold scan_line.
  assert (((n + i =? 0)%nat && (text == u "---") && closes)%bool = false) as ->.
  { destruct Hi as [Hi|Hi]; [by rewrite (proj2 (Nat.eqb_neq (n + i) 0)) by lia|].
    rewrite (bool_decide_eq_false_2 _ Hi). by rewrite andb_false_r. }
  assert (((i =? 0)%nat && (text == u "---") && closes)%bool = false) as ->.
  { destruct Hi as [Hi|Hi]; [by rewrite (proj2 (Nat.eqb_neq i 0)) by lia|].
    rewrite (bool_decide_eq_false_2 _ Hi). by rewrite andb_false_r. }
  repeat split_match; done.
Qed.

Lemma scan_loop_shift closes n i ls st :
  i ≠ 0 ∨ head (map Line_text ls) ≠ Some (u "---") →
  scan_loop closes (n + i) ls st =
    (map (shift n) (scan_loop closes i ls st).1, (scan_loop closes i ls st).2).
Proof.
  revert i st; induction ls as [|l ls IH]; intros i st Hi; [done|].
  rewrite !scan_loop_cons, scan_line_shift by (destruct Hi as [?|Hi]; [by left|right; intros E; apply Hi; simpl; by rewrite E]).
  destruct (scan_line closes i _ _) as [[st' p] f].
  rewrite <- Nat.add_succ_r, IH by (by left).
  destruct (scan_loop closes (S i) ls st') as [hs ps]. simpl. f_equal. rewrite map_app.
  by destruct f.
Qed.

Lemma scan_run_shift closes n i ls st :
  i ≠ 0 ∨ head (map Line_text ls) ≠ Some (u "---") →
  scan_run closes (n + i) ls st = scan_run closes i ls st.
Proof.
  revert i st; induction ls as [|l ls IH]; intros i st Hi; [done|].
  cbn [scan_run]. rewrite scan_line_shift by (destruct Hi as [?|Hi]; [by left|right; intros E; apply Hi; simpl; by rewrite E]).
  destruct (scan_line closes i _ _) as [[st' p] f]. simpl.
  rewrite <- Nat.add_succ_r. by apply IH; left.
Qed.

Lemma scan_line_plain closes i text :
  plain text = true → scan_line closes i text scan_init = (scan_init, false, None).
Proof.
  intros Hp. pose proof (plain_not_rule _ Hp) as Hr. apply plain_spec in Hp as (Ho & Hh & _).
  unfold scan_line. rewrite (bool_decide_eq_false_2 _ Hr), andb_false_r. simpl.
  by rewrite Ho, Hh.
Qed.

Lemma scan_line_neutral closes i text :
  neutral text = true →
  (scan_line closes i text scan_init).1 = (scan_init, false).
Proof.
  intros Hp. pose proof (neutral_not_rule _ Hp) as Hr. apply neutral_spec in Hp as (Ho & _).
  unfold scan_line. rewrite (bool_decide_eq_false_2 _ Hr), andb_false_r. simpl. by rewrite Ho.
Qed.

Lemma scan_loop_neutral closes i ls :
  Forall (λ l, neutral (Line_text l) = true) ls →
  (scan_loop closes i ls scan_init).2 = replicate (length ls) false ∧
  scan_run closes i ls scan_init = scan_init.
Proof.
  intros H; revert i; induction H as [|l ls Hl _ IH]; intros i; [done|].
  rewrite scan_loop_cons. cbn [scan_run]. pose proof (scan_line_neutral closes i _ Hl) as Hs.
  destruct (scan_line _ _ _ _) as [[st p] f]. simpl in Hs. injection Hs as -> ->.
  destruct (IH (S i)) as [H1 H2]. destruct (scan_loop _ _ _ _) as [hs ps]. simpl in *.
  by rewrite H1, H2.
Qed.

Lemma scan_loop_plain closes i ls :
  Forall (λ l, plain (Line_text l) = true) ls →
  scan_loop closes i ls scan_init = ([], replicate (length ls) false) ∧
  scan_run closes i ls scan_init = scan_init.
Proof.
  intros H; revert i; induction H as [|l ls Hl _ IH]; intros i; [done|].
  rewrite scan_loop_cons. cbn [scan_run]. rewrite scan_line_plain by done. cbn [fst].
  destruct (IH (S i)) as [-> ->]. done.
Qed.

(** Only a first line that reads [---] looks at what follows it. *)
Definition free (i : nat) (ls : list Line) : Prop := i ≠ 0 ∨ head (map Line_text ls) ≠ Some (u "---").

Lemma scan_line_closes c c' i text st :
  i ≠ 0 ∨ text ≠ u "---" → scan_line c i text st = scan_line c' i text st.
Proof.
  intros Hi. unfold scan_line.
  assert (∀ c, ((i =? 0)%nat && (text == u "---") && c)%bool = false) as Hf.
  { intros c0. destruct Hi as [Hi|Hi]; [by rewrite (proj2 (Nat.eqb_neq i 0)) by lia|].
    rewrite (bool_decide_eq_false_2 _ Hi). by rewrite andb_false_r. }
  by rewrite !Hf.
Qed.

Lemma scan_loop_closes c c' i ls st :
  free i ls →
  scan_loop c i ls st = scan_loop c' i ls st ∧ scan_run c i ls st = scan_run c' i ls st.
Proof.
  unfold free. revert i st; induction ls as [|l ls IH]; intros i st Hi; [done|].
  rewrite !scan_loop_cons. cbn [scan_run].
  rewrite (scan_line_closes c c')
    by (destruct Hi as [?|Hi]; [by left|right; intros E; apply Hi; simpl; by rewrite E]).
  destruct (scan_line c' i _ _) as [[st' p] f]. cbn [fst].
  destruct (IH (S i) st') as [-> ->]; [by left|done].
Qed.

(** ** The insertion *)

Definition shift_from (at_ n : nat) (h : HeadingLine) : HeadingLine :=
  if (hl_index h <? at_)%nat then h else shift n h.

Section insertion.
Context (d : Document) (at_ : nat) (texts : list str).
Hypothesis Hat : at_ ≤ length (doc_lines d).
Hypothesis Hneutral : Forall (λ t, neutral t = true) texts.
Hypothesis Hopen : open_at d at_.
Hypothesis Hfree : free at_ (doc_lines d).

Local Abbreviation old := (doc_lines d).
Local Abbreviation d' := (Document_insert d at_ texts).
Local Abbreviation n := (length texts).

(** The lines of the result, up to terminators. *)
Definition spliced : list Line :=
  take at_ old ++ map (λ t, mkLine t Lf) texts ++ drop at_ old.

Lemma spliced_texts : map Line_text (doc_lines d') = map Line_text spliced.
Proof.
  unfold spliced. rewrite Document_insert_texts, !map_app, map_map, map_id, firstn_map, skipn_map.
  done.
Qed.

Lemma closes_insert : at_ ≠ 0 → front_matter_closes (doc_lines d') = front_matter_closes old.
Proof.
  intros Hne. rewrite !front_matter_closes_texts, Document_insert_texts.
  destruct at_ as [|a]; [done|]. destruct old as [|l ls]; [simpl in *; lia|].
  cbn [map take drop app]. rewrite !drop_0, !existsb_app.
  assert (existsb is_front_matter_end texts = false) as ->.
  { apply existsb_false. eapply Forall_impl; [done|]. intros t (_ & ?)%neutral_spec. done. }
  rewrite orb_false_l, <- existsb_app. by rewrite take_drop.
Qed.

Lemma free_spliced : at_ = 0 → texts ≠ [] → free 0 (doc_lines d').
Proof.
  intros Hz Ht. right. rewrite spliced_texts. unfold spliced. rewrite Hz. simpl.
  destruct texts as [|t ts]; [done|]. simpl. intros [= E].
  apply Forall_cons in Hneutral as [Hp _]. by apply neutral_not_rule in Hp.
Qed.

(** The headings before, among and after the inserted lines. *)
Lemma scan_insert :
  ∃ before after,
    headings d = before ++ after ∧
    Forall (λ h, hl_index h < at_) before ∧ Forall (λ h, at_ ≤ hl_index h) after ∧
    scan_loop (front_matter_closes (doc_lines d')) 0 (doc_lines d') scan_init =
      (before ++ (scan_loop (front_matter_closes old) at_ (map (λ t, mkLine t Lf) texts) scan_init).1
         ++ map (shift n) after,
       take at_ (protected d) ++ replicate n false ++ drop at_ (protected d)) ∧
    state_at d' (length (doc_lines d')) = state_at d (length old).
Proof.
  unfold state_at. rewrite !firstn_all.
  assert (scan_loop (front_matter_closes (doc_lines d')) 0 (doc_lines d') scan_init
            = scan_loop (front_matter_closes old) 0 spliced scan_init ∧
          scan_run (front_matter_closes (doc_lines d')) 0 (doc_lines d') scan_init
            = scan_run (front_matter_closes old) 0 spliced scan_init) as [-> ->].
  { rewrite <- (scan_loop_texts _ _ _ _ _ spliced_texts), <- (scan_run_texts _ _ _ _ _ spliced_texts).
    destruct (decide (at_ = 0)) as [Hz|Hnz]; [|by rewrite closes_insert].
    destruct (decide (texts = [])) as [->|Ht]; [done|].
    by apply scan_loop_closes, free_spliced. }
  unfold open_at, state_at in Hopen.
  unfold headings, protected, scan. fold scan_init.
  set (c := front_matter_closes old) in *. unfold spliced.
  assert (Forall (λ l, neutral (Line_text l) = true) (map (λ t, mkLine t Lf) texts)) as Hpl.
  { by apply Forall_map. }
  assert (length (take at_ old) = at_) as Hlen by (len_lia).
  rewrite !scan_loop_app, !scan_run_app, Hopen, length_map, Hlen.
  destruct (scan_loop_neutral c at_ _ Hpl) as [Hp1 Hp2].
  rewrite Nat.add_0_l, Hp1, Hp2, length_map, (Nat.add_comm at_ n).
  assert (free at_ (drop at_ old)) as Hfr.
  { destruct Hfree as [?|Hh]; [by left|]. destruct at_; [right; by simpl|by left]. }
  rewrite scan_loop_shift, scan_run_shift by done. simpl.
  set (L := scan_loop c 0 (take at_ old) scan_init).
  set (R := scan_loop c at_ (drop at_ old) scan_init).
  assert (scan_loop c 0 old scan_init = (L.1 ++ R.1, L.2 ++ R.2)) as ->.
  { rewrite <- (take_drop at_ old) at 1. by rewrite scan_loop_app, Hopen, Hlen. }
  assert (scan_run c 0 old scan_init = scan_run c at_ (drop at_ old) scan_init) as ->.
  { rewrite <- (take_drop at_ old) at 1. by rewrite scan_run_app, Hopen, Hlen. }
  assert (length L.2 = at_) as HL by (unfold L; rewrite scan_loop_length; lia).
  exists L.1, R.1. cbn [fst snd app]. split_and!; [done| | | |done].
  - apply Forall_forall. intros h (k & l & Hi & Hk & _)%scan_loop_headings.
    apply lookup_lt_Some in Hk. rewrite length_take in Hk. lia.
  - apply Forall_forall. intros h (k & l & Hi & _)%scan_loop_headings. lia.
  - f_equal. by rewrite take_app_length', drop_app_length' by done.
Qed.

Lemma protected_insert :
  protected d' = take at_ (protected d) ++ replicate n false ++ drop at_ (protected d).
Proof.
  unfold protected at 1, scan. fold scan_init.
  destruct scan_insert as (? & ? & _ & _ & _ & -> & _). done.
Qed.

Lemma length_insert_lines : length (doc_lines d') = length old + n.
Proof.
  rewrite <- (length_map Line_text), Document_insert_texts.
  len_lia.
Qed.

Lemma fences_closed_insert : fences_closed d → fences_closed d'.
Proof.
  unfold fences_closed, open_at. by destruct scan_insert as (? & ? & _ & _ & _ & _ & ->).
Qed.

Lemma lookup_inserted i t :
  texts !! i = Some t → ∃ l, doc_lines d' !! (at_ + i) = Some l ∧ Line_text l = t.
Proof.
  intros Hi. assert (map Line_text (doc_lines d') !! (at_ + i) = Some t) as Hl.
  { rewrite Document_insert_texts, lookup_app_r; rewrite length_take, length_map; [|lia].
    replace (at_ + i - _) with i by lia. rewrite lookup_app_l; [done|].
    by apply lookup_lt_Some in Hi. }
  rewrite list_lookup_fmap in Hl.
  destruct (doc_lines d' !! (at_ + i)) as [l|]; simplify_eq/=. eauto.
Qed.

Lemma protected_inserted i : i < n → protected d' !! (at_ + i) = Some false.
Proof.
  intros Hi. rewrite protected_insert.
  assert (length (take at_ (protected d)) = at_) as Hl.
  { rewrite length_take, protected_length. lia. }
  rewrite lookup_app_r, Hl by lia. rewrite lookup_app_l by (len_lia).
  by rewrite lookup_replicate_2 by lia.
Qed.

(** An inserted heading line is a heading of the result. *)
Lemma heading_inserted i t level text :
  texts !! i = Some t → parse_heading t = Some (level, text) →
  mkHeadingLine (at_ + i) level text ∈ headings d'.
Proof.
  intros Hi Hp. apply headings_spec_lemma. destruct (lookup_inserted i t Hi) as (l & Hl & Ht).
  exists l. cbn [hl_index hl_level hl_text]. rewrite Ht. split_and!; [done| |done].
  apply protected_inserted. by apply lookup_lt_Some in Hi.
Qed.
End insertion.

(** ** Headings, names and sections after an insertion *)

Lemma shift_from_level at_ n h : hl_level (shift_from at_ n h) = hl_level h.
Proof. unfold shift_from. by destruct (_ <? _)%nat. Qed.

Lemma shift_from_text at_ n h : hl_text (shift_from at_ n h) = hl_text h.
Proof. unfold shift_from. by destruct (_ <? _)%nat. Qed.

Lemma shift_from_index at_ n h :
  hl_index (shift_from at_ n h) = if (hl_index h <? at_)%nat then hl_index h else n + hl_index h.
Proof. unfold shift_from. by destruct (_ <? _)%nat. Qed.

Lemma find_of_map {A B} (p : B → bool) (g : A → B) l :
  find p (map g l) = g <$> find (λ x, p (g x)) l.
Proof. induction l as [|x l IH]; simpl; [done|]. by destruct (p (g x)). Qed.

Lemma find_ext {A} (p q : A → bool) l : (∀ x, x ∈ l → p x = q x) → find p l = find q l.
Proof.
  induction l as [|x l IH]; simpl; intros H; [done|].
  rewrite (H x) by (by left). destruct (q x); [done|]. apply IH. intros y ?. apply H. by right.
Qed.

Lemma filter_map {A B} (P : B → Prop) `{∀ x, Decision (P x)} (g : A → B) l :
  filter P (map g l) = map g (filter (λ x, P (g x)) l).
Proof.
  induction l as [|x l IH]; simpl; [done|]. rewrite !filter_cons. simpl.
  destruct (decide (P (g x))), (decide (P (g x))); try done. simpl. by rewrite IH.
Qed.

Section after_insertion.
Context `{UnicodeTables}.
Context (d : Document) (at_ : nat) (texts : list str).
Hypothesis Hat : at_ ≤ length (doc_lines d).
Hypothesis Hplain : Forall (λ t, plain t = true) texts.
Hypothesis Hopen : open_at d at_.
Hypothesis Hfree : free at_ (doc_lines d).

Local Abbreviation d' := (Document_insert d at_ texts).
Local Abbreviation cnt := (length texts).

Local Lemma texts_neutral : Forall (λ t, neutral t = true) texts.
Proof. eapply Forall_impl; [done|]. intros t. apply plain_neutral. Qed.

Lemma headings_insert : headings d' = map (shift_from at_ cnt) (headings d).
Proof.
  unfold headings at 1, scan. fold scan_init.
  destruct (scan_insert d at_ texts Hat texts_neutral Hopen Hfree)
    as (before & after & -> & Hb & Ha & -> & _).
  destruct (scan_loop_plain (front_matter_closes (doc_lines d)) at_ (map (λ t, mkLine t Lf) texts))
    as [-> _]; [by apply Forall_map|]. simpl. rewrite map_app. f_equal.
  - induction Hb as [|h l Hh _ IH]; [done|]. simpl. rewrite <- IH. f_equal.
    unfold shift_from. by rewrite (proj2 (Nat.ltb_lt _ _)).
  - induction Ha as [|h l Hh _ IH]; [done|]. simpl. rewrite <- IH. f_equal.
    unfold shift_from. by rewrite (proj2 (Nat.ltb_ge _ _)).
Qed.

Lemma resolve_insert heading : resolve d' heading = shift_from at_ cnt <$> resolve d heading.
Proof.
  rewrite !resolve_spec_lemma, headings_insert, !filter_map. cbn zeta.
  rewrite !(list_filter_iff (λ x, exact_match heading (shift_from at_ cnt x)) (exact_match heading))
    by (intros h; unfold exact_match; by rewrite shift_from_text).
  rewrite !(list_filter_iff (λ x, key_match heading (shift_from at_ cnt x)) (key_match heading))
    by (intros h; unfold key_match; by rewrite shift_from_text).
  destruct (filter (exact_match heading) (headings d)) as [|x l]; simpl.
  - by rewrite length_map, <- list_lookup_fmap.
  - rewrite length_map. change (shift_from at_ cnt x :: map (shift_from at_ cnt) l)
      with (shift_from at_ cnt <$> (x :: l)). by rewrite list_lookup_fmap.
Qed.

(** The last inserted line is neither blank nor a closing rule. *)
Definition solid (t : str) : Prop := trim t ≠ [] ∧ is_thematic_break t = false.

Context (t_last : str).
Hypothesis Hlast : last texts = Some t_last.
Hypothesis Hsolid : solid t_last.

Lemma texts_pos : 0 < cnt.
Proof. destruct texts; [done|simpl; lia]. Qed.

Lemma last_inserted_solid :
  blank_at d' (at_ + cnt - 1) = false ∧ thematic_at d' (at_ + cnt - 1) = false.
Proof.
  pose proof texts_pos. rewrite last_lookup in Hlast.
  destruct (lookup_inserted d at_ texts Hat _ _ Hlast) as (l & Hl & Ht).
  replace (at_ + pred cnt) with (at_ + cnt - 1) in Hl by lia.
  unfold blank_at, thematic_at. rewrite Hl. simpl. unfold Line_is_blank, is_empty. rewrite Ht.
  destruct Hsolid as [Hb Hth]. by rewrite bool_decide_eq_false_2.
Qed.

Lemma trim_blank_end_insert start end_ :
  start ≤ at_ → at_ + cnt ≤ end_ → at_ + cnt ≤ trim_blank_end d' start end_.
Proof.
  intros Hs He. pose proof texts_pos.
  destruct (trim_blank_end_spec d' start end_) as (_ & Hb & _); [lia|].
  destruct (decide (at_ + cnt ≤ trim_blank_end d' start end_)); [done|].
  destruct last_inserted_solid as [H1 H2].
  destruct (Hb (at_ + cnt - 1)); [lia|congruence|congruence].
Qed.

Lemma section_insert f :
  f ∈ headings d → sec_start (section d f) ≤ at_ ≤ sec_end (section d f) →
  let s' := section d' (shift_from at_ cnt f) in
  sec_start s' = sec_start (section d f) ∧ at_ + cnt ≤ sec_body_end s'.
Proof.
  intros Hin Ha. cbn zeta. unfold section in *. cbn zeta in *.
  cbn [sec_start sec_body_end sec_end] in *.
  assert (shift_from at_ cnt f = f) as Hsf.
  { unfold shift_from. by rewrite (proj2 (Nat.ltb_lt _ _)) by lia. }
  rewrite Hsf. split; [done|]. apply trim_blank_end_insert; [lia|].
  rewrite headings_insert, find_of_map, (length_insert_lines d at_ texts Hat).
  rewrite (find_ext _ (λ other, (hl_index f <? hl_index other)%nat
                                && (hl_level other <=? hl_level f)%nat)).
  - destruct (find _ (headings d)) as [o|]; simpl in *; [|lia].
    rewrite shift_from_index. destruct (Nat.ltb_spec (hl_index o) at_); lia.
  - intros o _. rewrite shift_from_level, shift_from_index. f_equal.
    destruct (Nat.ltb_spec (hl_index o) at_); [done|].
    destruct (Nat.ltb_spec (hl_index f) (cnt + hl_index o)),
      (Nat.ltb_spec (hl_index f) (hl_index o)); try done; lia.
Qed.

Lemma whole_insert : at_ + cnt ≤ sec_body_end (whole d').
Proof.
  unfold whole. cbn [sec_body_end]. pose proof texts_pos.
  destruct (trim_blanks_spec d' 0 (length (doc_lines d'))) as (_ & Hb & _); [lia|].
  destruct (decide (at_ + cnt ≤ trim_blanks d' 0 (length (doc_lines d')))); [done|].
  destruct last_inserted_solid as [H1 _].
  pose proof (length_insert_lines d at_ texts Hat). rewrite Hb in H1; [done|lia].
Qed.

(** The inserted lines can be matched, in a row, by any section around them. *)
Lemma matchable_insert s :
  sec_start s ≤ at_ → at_ + cnt ≤ sec_body_end s →
  ∃ pre post, matchable d' s = pre ++ zip (seq at_ cnt) texts ++ post.
Proof.
  intros Hs He. unfold matchable. cbn zeta.
  set (keep := λ index, negb (default false (protected d' !! index))).
  set (get := λ index, l ← doc_lines d' !! index; Some (index, Line_text l)).
  replace (seq (sec_start s) (sec_body_end s - sec_start s)) with
    (seq (sec_start s) (at_ - sec_start s) ++ seq at_ cnt
      ++ seq (at_ + cnt) (sec_body_end s - (at_ + cnt))).
  2:{ replace (sec_body_end s - sec_start s) with
        ((at_ - sec_start s) + (cnt + (sec_body_end s - (at_ + cnt)))) by lia.
      rewrite !seq_app. by replace (sec_start s + (at_ - sec_start s)) with at_ by lia. }
  rewrite !filter_app, !omap_app. do 2 eexists. f_equal. f_equal.
  rewrite filter_all.
  - enough (∀ k, omap get (seq (at_ + k) (cnt - k)) = zip (seq (at_ + k) (cnt - k)) (drop k texts))
      as Hk by (specialize (Hk 0); by rewrite Nat.add_0_r, Nat.sub_0_r in Hk).
    intros k. remember (cnt - k) as m eqn:Hm. revert k Hm.
    induction m as [|m IH]; intros k Hm; [done|].
    assert (∃ t, texts !! k = Some t) as [t Ht] by (apply lookup_lt_is_Some_2; lia).
    rewrite (drop_S _ _ _ Ht). simpl. destruct (lookup_inserted d at_ texts Hat _ _ Ht) as (l & Hl & Htx).
    unfold get at 1. rewrite Hl. simpl. rewrite Htx. f_equal.
    specialize (IH (S k)). rewrite Nat.add_succ_r in IH. apply IH. lia.
  - intros i [Hi1 Hi2]%elem_of_seq. unfold keep.
    replace i with (at_ + (i - at_)) by lia.
    by rewrite (protected_inserted d at_ texts Hat texts_neutral Hopen Hfree) by lia.
Qed.
End after_insertion.

(** ** Where no fence is open *)

Lemma state_at_S d i l :
  doc_lines d !! i = Some l →
  state_at d (S i) =
    (scan_line (front_matter_closes (doc_lines d)) i (Line_text l) (state_at d i)).1.1.
Proof.
  intros Hl. unfold state_at. rewrite (take_S_r _ _ _ Hl), scan_run_app. simpl.
  rewrite length_take_le; [done|]. apply lookup_lt_Some in Hl. lia.
Qed.

Lemma scan_loop_protected closes k ls st i l :
  ls !! i = Some l →
  (scan_loop closes k ls st).2 !! i =
    Some (scan_line closes (k + i) (Line_text l) (scan_run closes k (take i ls) st)).1.2.
Proof.
  revert k st i; induction ls as [|l' ls IH]; intros k st i Hl; [done|].
  rewrite scan_loop_cons. destruct i as [|i]; simpl in *; simplify_eq.
  - rewrite Nat.add_0_r. destruct (scan_line _ _ _ _) as [[st' p] f].
    by destruct (scan_loop _ _ _ _).
  - specialize (IH (S k)). rewrite Nat.add_succ_r.
    destruct (scan_line closes k _ _) as [[st' p] f]. etrans; [|apply (IH st' i Hl)].
    by destruct (scan_loop _ _ _ _).
Qed.

Lemma protected_lookup d i l :
  doc_lines d !! i = Some l →
  protected d !! i =
    Some (scan_line (front_matter_closes (doc_lines d)) i (Line_text l) (state_at d i)).1.2.
Proof. intros Hl. unfold protected, scan. by rewrite (scan_loop_protected _ _ _ _ _ _ Hl). Qed.

(** An unprotected line is read with nothing open, and leaves nothing open. *)
Lemma unprotected_open d i :
  protected d !! i = Some false → open_at d i ∧ open_at d (S i).
Proof.
  intros Hp. assert (∃ l, doc_lines d !! i = Some l) as [l Hl].
  { apply lookup_lt_is_Some_2. rewrite <- protected_length. by eapply lookup_lt_Some. }
  unfold open_at. rewrite (state_at_S _ _ _ Hl). rewrite (protected_lookup _ _ _ Hl) in Hp.
  injection Hp as Hp. unfold scan_line in *. destruct (state_at d i) as [[[c n]|] [|]];
    repeat split_match_in Hp; simplify_eq/=; done.
Qed.

Lemma heading_open d h :
  h ∈ headings d → open_at d (hl_index h) ∧ open_at d (S (hl_index h)).
Proof. intros (l & _ & Hp & _)%headings_spec_lemma. by apply unprotected_open. Qed.

(** Past the first line, front matter does not open. *)
Lemma no_front_matter_S d i l :
  doc_lines d !! i = Some l → i ≠ 0 → in_front_matter (state_at d i) = false →
  in_front_matter (state_at d (S i)) = false.
Proof.
  intros Hl Hi Hf. rewrite (state_at_S _ _ _ Hl). unfold scan_line.
  rewrite (proj2 (Nat.eqb_neq i 0)) by done. cbn [andb]. rewrite Hf.
  destruct (fence (state_at d i)) as [[c n]|]; [done|].
  by destruct (opens_fence _).
Qed.

Lemma no_front_matter_after d i j :
  i ≤ j → i ≠ 0 → j ≤ length (doc_lines d) → in_front_matter (state_at d i) = false →
  in_front_matter (state_at d j) = false.
Proof.
  intros Hij Hi Hj Hf. induction Hij as [|j Hij IH]; [done|].
  assert (∃ l, doc_lines d !! j = Some l) as [l Hl] by (apply lookup_lt_is_Some_2; lia).
  eapply no_front_matter_S; [done|lia|]. apply IH. lia.
Qed.

(** Neither a blank line nor a closing rule closes a fence. *)
Lemma count_while_blank c s :
  (c = BACKTICK ∨ c = TILDE) → Forall (λ x, is_whitespace x = true) s →
  count_while (is_char c) s = 0.
Proof.
  intros Hc. destruct s as [|x s]; [done|]. intros [Hx _]%Forall_cons. simpl.
  unfold is_char. destruct (N.eqb_spec c x) as [<-|]; [|done].
  by destruct Hc as [-> | ->].
Qed.

Lemma fence_character text c n : opens_fence text = Some (c, n) → (c = BACKTICK ∨ c = TILDE) ∧ 3 ≤ n.
Proof.
  unfold opens_fence. intros H. repeat split_match_in H; simplify_eq; unfold is_char in *;
    bool_to_prop; (split; [|done]);
    match goal with E : (_ || _)%bool = true |- _ => apply orb_true_iff in E as [?|?] end;
    bool_to_prop; auto.
Qed.

Lemma trim_start_matches_Forall f (P : char → Prop) s :
  Forall P s → Forall P (trim_start_matches f s).
Proof.
  intros H. destruct (trim_start_matches_app f s) as (p & Hp & _). rewrite Hp in H.
  by apply Forall_app in H as [_ ?].
Qed.

Lemma blank_keeps_fence text c n :
  (c = BACKTICK ∨ c = TILDE) → 3 ≤ n → trim text = [] → closes_fence text c n = false.
Proof.
  intros Hc Hn Hb. unfold closes_fence. destruct (_ <? _)%nat; [done|].
  rewrite count_while_blank; [|done|by apply trim_start_matches_Forall, trim_nil_iff].
  by rewrite (proj2 (Nat.leb_gt n 0)) by lia.
Qed.

Lemma thematic_keeps_fence text c n :
  (c = BACKTICK ∨ c = TILDE) → 3 ≤ n → is_thematic_break text = true →
  closes_fence text c n = false.
Proof.
  intros Hc Hn. unfold is_thematic_break, closes_fence. destruct (_ <? _)%nat; [done|].
  destruct (trim_start_matches is_space text) as [|m s]; [done|]. simpl.
  destruct (((m =? 95) || (m =? 45) || (m =? 42))%N) eqn:E; [|done]. intros _.
  unfold is_char at 1. destruct (N.eqb_spec c m) as [<-|].
  - by destruct Hc as [-> | ->].
  - by rewrite (proj2 (Nat.leb_gt n 0)) by lia.
Qed.

(** The fence a scan is in was opened by a line. *)
Definition fence_ok (st : scan_state) : Prop :=
  match fence st with Some (c, n) => (c = BACKTICK ∨ c = TILDE) ∧ 3 ≤ n | None => True end.

Lemma scan_line_fence_ok closes i text st :
  fence_ok st → fence_ok (scan_line closes i text st).1.1.
Proof.
  unfold fence_ok, scan_line. intros H. destruct (_ && _)%bool; [done|].
  destruct (in_front_matter st); [done|].
  destruct (fence st) as [[c n]|] eqn:Ef; cbn [fst fence]; [by destruct (closes_fence _ _ _)|].
  destruct (opens_fence text) as [[c n]|] eqn:E; cbn [fst fence]; [by eapply fence_character|].
  by rewrite Ef.
Qed.

Lemma scan_run_fence_ok closes i ls st : fence_ok st → fence_ok (scan_run closes i ls st).
Proof.
  revert i st; induction ls as [|l ls IH]; intros i st H; simpl; [done|].
  by apply IH, scan_line_fence_ok.
Qed.

Lemma state_at_fence_ok d i : fence_ok (state_at d i).
Proof. by apply scan_run_fence_ok. Qed.

Definition inert_at (d : Document) (i : nat) : Prop := blank_at d i = true ∨ thematic_at d i = true.

Lemma inert_keeps_fence d i :
  i < length (doc_lines d) → in_front_matter (state_at d i) = false → inert_at d i →
  open_at d (S i) → open_at d i.
Proof.
  intros Hi Hf Hin Ho. assert (∃ l, doc_lines d !! i = Some l) as [l Hl]
    by (by apply lookup_lt_is_Some_2).
  unfold open_at in *. rewrite (state_at_S _ _ _ Hl) in Ho.
  pose proof (state_at_fence_ok d i) as Hok. unfold fence_ok in Hok.
  destruct (state_at d i) as [[[c n]|] fm] eqn:Es; simpl in Hf; subst fm; [|done]. exfalso.
  assert (closes_fence (Line_text l) c n = false) as Hcl.
  { simpl in Hok. unfold inert_at, blank_at, thematic_at in Hin. rewrite Hl in Hin. simpl in Hin.
    destruct Hok, Hin as [Hb|Ht]; [apply blank_keeps_fence|by apply thematic_keeps_fence]; try done.
    unfold Line_is_blank, is_empty in Hb. by bool_to_prop. }
  unfold scan_line in Ho. simpl in Ho. rewrite Hcl in Ho. by repeat split_match_in Ho.
Qed.

(** Going back over blank lines and closing rules finds nothing open. *)
Lemma open_at_back d b e :
  b ≤ e → b ≠ 0 → e ≤ length (doc_lines d) → in_front_matter (state_at d b) = false →
  (∀ i, b ≤ i < e → inert_at d i) → open_at d e → open_at d b.
Proof.
  intros Hbe Hb He Hf. induction Hbe as [|e Hbe IH]; intros Hin Ho; [done|].
  apply IH; [lia|intros i ?; apply Hin; lia|].
  apply inert_keeps_fence; [lia| |apply Hin; lia|done].
  by apply (no_front_matter_after d b); [done|done|lia|].
Qed.

Lemma section_end_open d h :
  h ∈ headings d → fences_closed d → open_at d (sec_end (section d h)).
Proof.
  intros Hin Hc. destruct (section_geometry_lemma d h Hin) as (_ & _ & _ & _ & _ & He & _).
  destruct He as [->|(h' & Hin' & <- & _)]; [done|]. by apply heading_open.
Qed.

Lemma section_no_front_matter d h i :
  h ∈ headings d → sec_start (section d h) ≤ i ≤ length (doc_lines d) →
  in_front_matter (state_at d i) = false.
Proof.
  intros Hin Hi. destruct (heading_open d h Hin) as [_ Ho].
  apply (no_front_matter_after d (S (hl_index h))); [|lia|lia|by rewrite Ho].
  unfold section in Hi. simpl in Hi. lia.
Qed.

Lemma section_body_end_open d h :
  h ∈ headings d → fences_closed d → open_at d (sec_body_end (section d h)).
Proof.
  intros Hin Hc. destruct (section_geometry_lemma d h Hin) as (_ & Hs & Hb & He & _ & _ & _ & Hl).
  apply (open_at_back d _ (sec_end (section d h))); [lia|lia|done| |done|by apply section_end_open].
  apply (section_no_front_matter d h); [done|lia].
Qed.

Lemma section_own_end_open d h :
  h ∈ headings d → fences_closed d → open_at d (sec_own_end (section d h)).
Proof.
  intros Hin Hc. pose proof (section_body_end_open d h Hin Hc) as Hob.
  destruct (section_geometry_lemma d h Hin) as (_ & Hs & Hb & He & _).
  assert (in_front_matter (state_at d (sec_own_end (section d h))) = false) as Hf.
  { apply (section_no_front_matter d h); [done|lia]. }
  revert Hob Hs Hb He Hf. unfold section. cbn zeta.
  cbn [sec_start sec_own_end sec_body_end sec_end].
  set (b := trim_blank_end d _ _). set (g := λ other, _ && (hl_index other <? b)%nat).
  intros Hob Hs Hb He Hf. pose proof (headings_sorted d) as Hsort.
  destruct (find g (headings d)) as [w|] eqn:Eg; simpl in *.
  - apply find_sorted_least in Eg as (Hinw & Hgw & _); [|done].
    subst g. simpl in Hgw. bool_to_prop.
    destruct (trim_blank_end_spec d (hl_index h + 1) (hl_index w)) as (H1 & H2 & _); [lia|].
    apply (open_at_back d _ (hl_index w)); [lia|lia|lia|done|done|by apply heading_open].
  - destruct (trim_blank_end_spec d (hl_index h + 1) b) as (H1 & H2 & _); [lia|].
    by apply (open_at_back d _ b); [lia|lia|lia|..].
Qed.

(** In front matter, blank lines stay in it. *)
Lemma whole_body_end_open d :
  fences_closed d → open_at d (sec_body_end (whole d)).
Proof.
  intros Hc. unfold whole. cbn [sec_body_end].
  destruct (trim_blanks_spec d 0 (length (doc_lines d))) as (H1 & H2 & _); [lia|].
  set (b := trim_blanks d 0 (length (doc_lines d))) in *.
  enough (∀ e, b ≤ e → e ≤ length (doc_lines d) → open_at d e → open_at d b) as H
    by (apply (H (length (doc_lines d))); [lia|lia|done]).
  intros e Hbe. induction Hbe as [|e Hbe IH]; intros He Ho; [done|].
  apply IH; [lia|]. apply inert_keeps_fence; [lia| |left; apply H2; lia|done].
  assert (∃ l, doc_lines d !! e = Some l) as [l Hl] by (apply lookup_lt_is_Some_2; lia).
  unfold open_at in Ho. rewrite (state_at_S _ _ _ Hl) in Ho.
  assert (blank_at d e = true) as Hbl by (apply H2; lia).
  unfold blank_at, Line_is_blank, is_empty in Hbl. rewrite Hl in Hbl. simpl in Hbl. bool_to_prop.
  destruct (state_at d e) as [f [|]]; [|done]. exfalso. unfold scan_line in Ho. simpl in Ho.
  unfold is_front_matter_end in Ho.
  rewrite !bool_decide_eq_false_2 in Ho by (intros E; rewrite E in Hbl; done).
  rewrite andb_false_r in Ho. done.
Qed.
