(* ===== verification/Changes.v ===== *)
(** * What a write changes, and what it keeps ([apply.rs])

    Which line a write finds, the block a line heads, and the fate of every
    line of the note under each kind of write. *)

From S2P Require Import Prelude Strings External Samples Write Lines HeadingKey LineHash.
From S2P Require Import Sections Apply.

Definition doc_texts (d : Document) : list str := map Line_text (doc_lines d).

Lemma doc_texts_lookup d i : doc_texts d !! i = Line_text <$> doc_lines d !! i.
Proof. apply list_lookup_fmap. Qed.

(** ** The lines a section offers for matching *)

(** [(i, t)]: line [i] is in the body, outside fences, and reads [t]. *)
Lemma matchable_elem d s i t :
  (i, t) ∈ matchable d s ↔
  sec_start s ≤ i < sec_body_end s ∧ protected d !! i = Some false ∧ doc_texts d !! i = Some t.
Proof.
  unfold matchable. cbn zeta. rewrite list_elem_of_omap, doc_texts_lookup. split.
  - intros (j & Hj & Ht). apply list_elem_of_filter in Hj as [Hp [Hj1 Hj2]%elem_of_seq].
    destruct (doc_lines d !! j) as [l|] eqn:El; simplify_eq/=. rewrite El.
    split_and!; [lia|lia| |done].
    assert (is_Some (protected d !! i)) as [b Hb].
    { apply lookup_lt_is_Some_2. rewrite protected_length. by eapply lookup_lt_Some. }
    rewrite Hb in Hp |- *. by destruct b.
  - intros (Hi & Hp & Ht). exists i. split.
    + apply list_elem_of_filter. rewrite Hp. split; [done|]. apply elem_of_seq. lia.
    + destruct (doc_lines d !! i); simplify_eq/=. done.
Qed.

Section finding_facts.
Context `{UnicodeTables, Digest}.

(** Line [i] is one a write may find by [wanted]. *)
Definition offers (d : Document) (wanted : str) (i : nat) : Prop :=
  protected d !! i = Some false ∧ from_option (names wanted) false (doc_texts d !! i) = true.

#[global] Instance offers_dec d wanted i : Decision (offers d wanted i).
Proof. unfold offers. apply _. Defined.

Lemma find_line_spec_lemma d s wanted ordinal :
  let found := filter (offers d wanted) (seq (sec_start s) (sec_body_end s - sec_start s)) in
  find_line d s wanted ordinal =
    match found !! ordinal with Some i => Some i | None => head found end.
Proof.
  cbn zeta. unfold find_line, matchable. cbn zeta.
  enough (∀ l, map fst (filter (λ il : nat * str, names wanted il.2)
    (omap (λ index, l ← doc_lines d !! index; Some (index, Line_text l))
       (filter (λ index, negb (default false (protected d !! index))) l)))
    = filter (offers d wanted) l) as -> by done.
  induction l as [|i l IH]; [done|]. rewrite !filter_cons.
  pose proof (protected_length d) as Hlen.
  assert (offers d wanted i ↔ negb (default false (protected d !! i)) ∧
    ∃ l, doc_lines d !! i = Some l ∧ names wanted (Line_text l) = true) as Hoff.
  { unfold offers. rewrite doc_texts_lookup. destruct (doc_lines d !! i) as [x|] eqn:Ex; simpl.
    - assert (is_Some (protected d !! i)) as [b Hb]
        by (apply lookup_lt_is_Some_2; rewrite Hlen; by eapply lookup_lt_Some).
      rewrite Hb. simpl. destruct b; simpl.
      + split; [by intros [? _]|by intros [[] _]].
      + split; [intros [_ ?]; eauto|intros [_ (? & [= <-] & ?)]; done].
    - split; [by intros [_ ?]|by intros [_ (? & ? & _)]]. }
  destruct (decide (offers d wanted i)) as [Ho|Ho].
  - apply Hoff in Ho as [Hp (x & Hx & Hn)].
    rewrite decide_True by done. simpl. rewrite Hx. simpl.
    rewrite filter_cons_True by (simpl; by rewrite Hn). simpl. f_equal. exact IH.
  - destruct (decide (negb (default false (protected d !! i)))) as [Hp|Hp]; [|done].
    simpl. destruct (doc_lines d !! i) as [x|] eqn:Ex; simpl; [|done].
    rewrite filter_cons_False; [done|]. simpl. intros Hn. apply Ho, Hoff. split; [done|].
    exists x. split; [done|]. by destruct (names _ _).
Qed.

(** Which line a write finds: of the lines of the section's body that
    are outside fences, read as [wanted] and are not blank, in order, the
    one the ordinal counts, or the first one. *)
Theorem find_line_spec d s wanted ordinal :
  let found := filter (offers d wanted) (seq (sec_start s) (sec_body_end s - sec_start s)) in
  find_line d s wanted ordinal =
    match found !! ordinal with Some i => Some i | None => head found end.
Proof. apply find_line_spec_lemma. Qed.

Lemma find_line_sound d s wanted ordinal i :
  find_line d s wanted ordinal = Some i →
  sec_start s ≤ i < sec_body_end s ∧ protected d !! i = Some false ∧
  ∃ l, doc_lines d !! i = Some l ∧ names wanted (Line_text l) = true.
Proof.
  rewrite find_line_spec_lemma. cbn zeta. set (found := filter _ _). intros Hf.
  assert (i ∈ found) as [[Hp Ho] Hi]%list_elem_of_filter.
  { destruct (found !! ordinal) as [j|] eqn:E; simplify_eq.
    - by eapply list_elem_of_lookup_2.
    - destruct found; simplify_eq/=. by left. }
  apply elem_of_seq in Hi. split; [lia|]. split; [done|].
  rewrite doc_texts_lookup in Ho. destruct (doc_lines d !! i) as [l|]; [|done]. eauto.
Qed.

Lemma find_line_None d s wanted ordinal :
  find_line d s wanted ordinal = None ↔
  ∀ i, sec_start s ≤ i < sec_body_end s → ¬ offers d wanted i.
Proof.
  rewrite find_line_spec_lemma. cbn zeta. set (found := filter _ _).
  assert (found = [] ↔ ∀ i, sec_start s ≤ i < sec_body_end s → ¬ offers d wanted i) as Hn.
  { split.
    - intros He i Hi Ho. assert (i ∈ found) as Hin
        by (apply list_elem_of_filter; split; [done|apply elem_of_seq; lia]).
      rewrite He in Hin. by apply not_elem_of_nil in Hin.
    - intros Hi. apply filter_none. intros x Hx%elem_of_seq. apply Hi. lia. }
  rewrite <- Hn. destruct found as [|x l]; [by destruct ordinal|].
  split; [|done]. by destruct (_ !! ordinal).
Qed.
End finding_facts.

(** ** The block a line heads *)

Definition indented (l : Line) : bool :=
  starts_with [32%N] (Line_text l) || starts_with [9%N] (Line_text l).

(** A line that stays in the block of the line above. *)
Definition in_block (l : Line) : bool := Line_is_blank l || indented l.

Lemma block_end_loop_spec d body_end fuel e lc :
  lc ≤ e → (e < body_end → body_end - e ≤ fuel) →
  (∀ i, lc ≤ i < e → blank_at d i = true) →
  let r := block_end_loop fuel d body_end e lc in
  lc ≤ r ∧ r ≤ Nat.max lc body_end ∧
  (∀ i, lc ≤ i < r → is_some_and in_block (doc_lines d !! i) = true) ∧
  (lc < r → blank_at d (r - 1) = false) ∧
  (∀ i, r ≤ i < body_end → (∀ j, r ≤ j < i → blank_at d j = true) →
     is_some_and indented (doc_lines d !! i) = true → blank_at d i = true).
Proof.
  revert e lc; induction fuel as [|fuel IH]; intros e lc Hle Hfuel Hbl; cbn [block_end_loop].
  { cbn zeta. split_and!; [lia|lia|lia|lia|]. intros i Hi Hb Hind.
    destruct (decide (i < e)); [apply Hbl; lia|lia]. }
  destruct (Nat.ltb_spec e body_end) as [He|He].
  2:{ cbn zeta. split_and!; [lia|lia|lia|lia|]. intros i Hi _ _. apply Hbl. lia. }
  destruct (doc_lines d !! e) as [l|] eqn:El.
  2:{ cbn zeta. split_and!; [lia|lia|lia|lia|]. intros i Hi _ Hind.
      destruct (decide (i < e)); [apply Hbl; lia|]. exfalso.
      apply lookup_ge_None in El. rewrite lookup_ge_None_2 in Hind by lia. done. }
  destruct (Line_is_blank l) eqn:Eb.
  { apply IH; [lia|lia|]. intros i Hi. destruct (decide (i = e)) as [->|]; [|apply Hbl; lia].
    unfold blank_at. by rewrite El. }
  fold (indented l). destruct (indented l) eqn:Ei.
  - destruct (IH (S e) (S e)) as (H1 & H2 & H3 & H4 & H5); [lia|lia|lia|].
    set (r := block_end_loop _ _ _ _ _) in *. cbn zeta. split_and!; [lia|lia| | |done].
    + intros i Hi. destruct (decide (i < e)) as [Hlt|].
      * specialize (Hbl i). unfold blank_at in Hbl. destruct (doc_lines d !! i) as [x|]; simpl in *.
        -- unfold in_block. by rewrite Hbl by lia.
        -- by rewrite Hbl by lia.
      * destruct (decide (i = e)) as [->|]; [|apply H3; lia].
        rewrite El. simpl. unfold in_block. by rewrite Ei, orb_true_r.
    + intros _. destruct (decide (r = S e)) as [->|]; [|apply H4; lia].
      unfold blank_at. simpl. rewrite Nat.sub_0_r, El. done.
  - cbn zeta. split_and!; [lia|lia|lia|lia|]. intros i Hi Hb Hind.
    destruct (decide (i < e)); [apply Hbl; lia|].
    destruct (decide (i = e)) as [->|]; [by rewrite El in Hind; simpl in Hind; congruence|].
    specialize (Hb e). unfold blank_at in Hb. rewrite El in Hb. simpl in Hb.
    rewrite Hb in Eb by lia. done.
Qed.

Lemma block_end_spec_lemma d s index :
  let e := block_end d s index in
  index < e ≤ Nat.max (index + 1) (sec_body_end s) ∧
  (∀ i, index < i < e → is_some_and in_block (doc_lines d !! i) = true) ∧
  (index + 1 < e → blank_at d (e - 1) = false) ∧
  (∀ i, e ≤ i < sec_body_end s → (∀ j, e ≤ j < i → blank_at d j = true) →
     is_some_and indented (doc_lines d !! i) = true → blank_at d i = true).
Proof.
  cbn zeta. unfold block_end.
  destruct (block_end_loop_spec d (sec_body_end s) (sec_body_end s) (index + 1) (index + 1))
    as (H1 & H2 & H3 & H4 & H5); [lia|lia|lia|].
  split_and!; [lia|lia| |done|done]. intros i Hi. apply H3. lia.
Qed.

(** The block a line heads: the line, then every line up to the first
    that is neither blank nor indented, trailing blank lines left out. *)
Theorem block_end_spec d s index :
  let e := block_end d s index in
  index < e ≤ Nat.max (index + 1) (sec_body_end s) ∧
  (∀ i, index < i < e → is_some_and in_block (doc_lines d !! i) = true) ∧
  (index + 1 < e → blank_at d (e - 1) = false) ∧
  (∀ i, e ≤ i < sec_body_end s → (∀ j, e ≤ j < i → blank_at d j = true) →
     is_some_and indented (doc_lines d !! i) = true → blank_at d i = true).
Proof. apply block_end_spec_lemma. Qed.

(** ** Nothing the note had is lost *)

Lemma insert_keeps d at_ texts :
  Document_join d `sublist_of` Document_join (Document_insert d at_ texts).
Proof.
  rewrite insert_bytes_lemma. cbn zeta. destruct texts as [|t texts]; [done|].
  destruct (inserts_after_tail d at_); [by apply sublist_inserts_r|].
  unfold Document_join at 1. rewrite <- (take_drop at_ (doc_lines d)), join_lines_app.
  apply sublist_app; [by rewrite take_drop|]. rewrite take_drop. by apply sublist_inserts_l.
Qed.

Lemma insert_lines_keeps d s at_ lines blank :
  Document_join d `sublist_of` Document_join (insert_lines d s at_ lines blank).
Proof.
  unfold insert_lines. destruct lines as [|t ts]; [done|]. cbn zeta.
  destruct (_ && _); apply insert_keeps.
Qed.

(** The document an insertion of lines leaves is an insertion. *)
Lemma insert_lines_texts d s at_ lines blank :
  ∃ blanks, (blanks = [] ∨ blanks = [[]]) ∧
  doc_texts (insert_lines d s at_ lines blank)
  = take at_ (doc_texts d) ++ (blanks ++ lines) ++ drop at_ (doc_texts d).
Proof.
  unfold insert_lines. destruct lines as [|t ts].
  { exists []. split; [by left|]. simpl. by rewrite take_drop. }
  cbn zeta. destruct (_ && _); [exists [[]]; split; [by right|]|exists []; split; [by left|]];
    apply Document_insert_texts.
Qed.

Section keeping.
Context `{UnicodeTables, Digest}.

Lemma locate_keeps d heading outcome :
  Document_join d `sublist_of` Document_join (locate d heading outcome).1.1.
Proof.
  unfold locate. destruct heading as [h|]; [|done].
  destruct (resolve d h); [done|]. cbn zeta.
  destruct (hl_index <$> find _ _); apply insert_keeps.
Qed.

(** The writes that only ever add. *)
Definition adds (op : Operation) : Prop :=
  match op with Create _ | Append _ _ _ _ _ _ => True | _ => False end.

Lemma Continue_inj d o a d' o' a' :
  Continue d o a = Continue d' o' a' → d = d' ∧ o = o' ∧ a = a'.
Proof. intros H1. by inversion H1. Qed.

(** What one operation can be: unfolds it and splits on what it finds. *)
Ltac open_operation :=
  unfold apply_append, apply_replace_line, apply_remove_line, apply_replace_section,
    apply_move_block, apply_remove_block; cbn zeta;
  repeat match goal with
  | |- context [locate ?d ?h ?o] =>
      let E := fresh "Eloc" in destruct (locate d h o) as [[? ?] ?] eqn:E
  | |- context [locate_group ?d ?h ?u ?o] =>
      let E := fresh "Egrp" in destruct (locate_group d h u o) as [[? ?] ?] eqn:E
  | |- context [match find_line ?d ?s ?w ?o with _ => _ end] => destruct (find_line d s w o)
  | |- context [match own <$> ?x with _ => _ end] => destruct (own <$> x)
  | |- context [if ?x == ?y then _ else _] => destruct (x == y)
  | |- context [if forallb ?f ?l then _ else _] => destruct (forallb f l)
  end.

(** Returning early leaves the note alone. *)
Lemma apply_operation_Return d outcome op a :
  apply_operation d outcome op = Return a → a = unchanged d outcome.
Proof. destruct op; cbn [apply_operation]; open_operation; by intros [=]. Qed.

Lemma locate_outcome d h o d' s o' :
  locate d h o = (d', s, o') → o' = o ∨ o = None ∧ o' = Some SectionAdded.
Proof.
  unfold locate. destruct h as [h|]; [|intros [=]; by left].
  destruct (resolve d h); [intros [=]; by left|].
  destruct (hl_index <$> find _ _); destruct o; intros [=]; subst; auto.
Qed.

Lemma locate_group_outcome d to under o d' s o' :
  locate_group d to under o = (d', s, o') → o' = o ∨ o = None ∧ o' = Some SectionAdded.
Proof.
  unfold locate_group. destruct to as [to|]; [|intros [=]; by left].
  destruct under as [under|].
  - destruct (locate d (Some under) o) as [[d1 s1] o1] eqn:E. apply locate_outcome in E.
    destruct (resolve_within _ _ _ _); intros [=]; subst; [done|].
    destruct E as [->|[-> ->]]; [destruct o; auto|auto].
  - destruct (resolve d to); [intros [=]; by left|apply locate_outcome].
Qed.

(** Finding its place either leaves the outcome alone or adds a section. *)
Lemma apply_operation_outcome d outcome op d' o a :
  apply_operation d outcome op = Continue d' o a →
  o = outcome ∨ outcome = None ∧ o = Some SectionAdded.
Proof.
  destruct op; cbn [apply_operation]; open_operation; intros [=]; subst;
    (by left) || (by eapply locate_outcome) || (by eapply locate_group_outcome).
Qed.

Lemma step_keeps d outcome op d' o a :
  apply_operation d outcome op = Continue d' o a →
  adds op ∨ a = KeptBoth ∨ a = Noop → Document_join d `sublist_of` Document_join d'.
Proof.
  destruct op; cbn [apply_operation adds]; open_operation;
    (intros (<- & <- & <-)%Continue_inj Ha || by intros);
    try (by destruct Ha as [[]|[?|?]]);
    match goal with
    | E : locate ?d ?h ?o = _ |- _ =>
        pose proof (locate_keeps d h o) as Hk; rewrite E in Hk; cbn [fst] in Hk
    | _ => idtac
    end; (done || apply insert_lines_keeps || (etrans; [exact Hk|apply insert_lines_keeps])).
Qed.

Lemma nothing_lost_lemma text write seed :
  let result := apply (Some text) write seed in
  adds (Write_operation write) ∨ applied_outcome result = KeptBoth ∨ applied_outcome result = Noop →
  text `sublist_of` applied_text result.
Proof.
  cbn zeta. unfold apply. destruct (is_file_level (Write_operation write)) eqn:Ef; [done|].
  destruct (effect_present text write); [done|]. intros Hop.
  rewrite <- (split_join_lemma text) at 1.
  destruct (apply_operation _ None _) as [a|d' o a] eqn:E.
  - by apply apply_operation_Return in E as ->.
  - apply (step_keeps _ _ _ _ _ _ E). destruct Hop as [?|Hop]; [by left|right].
    apply apply_operation_outcome in E as [->|[_ ->]]; [done|by destruct Hop].
Qed.

(** C1: what the note had stays. A create or an append, and every write
    whose outcome says it kept both versions or did nothing, leaves every
    character of the note, in its order. *)
Theorem nothing_lost text write seed :
  let result := apply (Some text) write seed in
  adds (Write_operation write) ∨ applied_outcome result = KeptBoth ∨ applied_outcome result = Noop →
  text `sublist_of` applied_text result.
Proof. apply nothing_lost_lemma. Qed.
End keeping.

(** ** The writes that change or remove what they find *)

Section changing.
Context `{UnicodeTables, Digest}.

(** With nothing reported, nothing was created to find the section. *)
Lemma locate_None d h d' s : locate d h None = (d', s, None) → d' = d ∧ find_section d h = Some s.
Proof.
  unfold locate, find_section. destruct h as [h|]; [|intros [=]; by subst].
  destruct (resolve d h); [intros [=]; by subst|].
  by destruct (hl_index <$> find _ _).
Qed.

(** What an applied operation did to the lines: its section was there. *)
Lemma apply_outcome text write seed :
  applied_outcome (apply (Some text) write seed) = Applied_ →
  ∃ d a, apply_operation (Document_split text) None (Write_operation write) = Continue d None a ∧
    a = Applied_ ∧ applied_text (apply (Some text) write seed) = Document_join d.
Proof.
  unfold apply. destruct (is_file_level _); [done|]. destruct (effect_present _ _); [done|].
  destruct (apply_operation _ None _) as [a|d' o a] eqn:E.
  - by apply apply_operation_Return in E as ->.
  - apply apply_operation_outcome in E as [->|[_ ->]]; simpl; [|done]. intros ->. eauto.
Qed.

Lemma render_split_at d i l :
  doc_lines d !! i = Some l →
  Document_join d = join_lines (take i (doc_lines d))
    ++ render l ++ join_lines (drop (S i) (doc_lines d)).
Proof.
  intros Hl. unfold Document_join. rewrite (take_drop_lookup _ _ _ Hl) at 1.
  by rewrite join_lines_app, join_lines_cons.
Qed.

Lemma split_line_no_lf text i l : doc_lines (Document_split text) !! i = Some l → 10%N ∉ Line_text l.
Proof.
  destruct (Document_split_spec text) as (_ & [Hok _] & _). generalize dependent (doc_lines (Document_split text)).
  intros ls Hok Hl; revert i Hl; induction ls as [|x ls IH]; intros i Hl; [done|].
  destruct Hok as [[Hx _] Hls]. destruct i as [|i]; simplify_eq/=; [done|by eapply IH].
Qed.

(** A line that is replaced: the text of one line changes, and nothing
    else, its terminator included. *)
Theorem replace_line_changes_one text write seed heading wanted ordinal new_line :
  Write_operation write = ReplaceLine heading wanted ordinal new_line →
  applied_outcome (apply (Some text) write seed) = Applied_ →
  ∃ before line after,
    text = before ++ line ++ after ∧ names wanted line = true ∧ 10%N ∉ line ∧
    applied_text (apply (Some text) write seed) = before ++ new_line ++ after.
Proof.
  intros Hop (d & a & E & -> & ->)%apply_outcome. rewrite Hop in E. revert E.
  cbn [apply_operation]. unfold apply_replace_line.
  destruct (locate (Document_split text) heading None) as [[d1 s] o] eqn:El.
  destruct (find_line d1 s wanted ordinal) as [i|] eqn:Ef; intros (<- & -> & ?)%Continue_inj; [|done].
  apply locate_None in El as [-> _].
  apply find_line_sound in Ef as (_ & _ & l & Hl & Hn).
  exists (join_lines (take i (doc_lines (Document_split text)))), (Line_text l),
    (Ending_as_str (Line_ending l) ++ join_lines (drop (S i) (doc_lines (Document_split text)))).
  split_and!; [|done|by eapply split_line_no_lf|].
  - rewrite <- (split_join_lemma text) at 1. rewrite (render_split_at _ _ _ Hl).
    unfold render. by rewrite <- !app_assoc.
  - set (d := Document_split text) in *.
    set (d' := mkDocument _ _). assert (doc_lines d' !! i = Some (set_text new_line l)) as Hl'.
    { simpl. by rewrite list_lookup_alter_eq, Hl. }
    rewrite (render_split_at d' _ _ Hl'). subst d'. cbn [doc_lines]. rewrite drop_alter_lt, take_alter_ge by lia.
    unfold render. simpl. by rewrite <- !app_assoc.
Qed.

(** A line that is removed goes with its terminator, and nothing else. *)
Theorem remove_line_removes_one text write seed heading wanted ordinal :
  Write_operation write = RemoveLine heading wanted ordinal →
  applied_outcome (apply (Some text) write seed) = Applied_ →
  ∃ before line ending after,
    text = before ++ line ++ Ending_as_str ending ++ after ∧ names wanted line = true ∧ 10%N ∉ line ∧
    applied_text (apply (Some text) write seed) = before ++ after.
Proof.
  intros Hop (d & a & E & -> & ->)%apply_outcome. rewrite Hop in E. revert E.
  cbn [apply_operation]. unfold apply_remove_line.
  destruct (locate (Document_split text) heading None) as [[d1 s] o] eqn:El.
  destruct (find_line d1 s wanted ordinal) as [i|] eqn:Ef; intros (<- & -> & ?)%Continue_inj; [|done].
  apply locate_None in El as [-> _].
  apply find_line_sound in Ef as (_ & _ & l & Hl & Hn).
  exists (join_lines (take i (doc_lines (Document_split text)))), (Line_text l), (Line_ending l),
    (join_lines (drop (S i) (doc_lines (Document_split text)))).
  split_and!; [|done|by eapply split_line_no_lf|].
  - rewrite <- (split_join_lemma text) at 1. rewrite (render_split_at _ _ _ Hl).
    unfold render. by rewrite <- !app_assoc.
  - unfold Document_join. simpl. by rewrite delete_take_drop, join_lines_app.
Qed.

(** ** Blocks *)

(** What [cut] takes out: the lines, and one blank where two would meet. *)
Lemma cut_spec d start end_ :
  start < end_ → end_ ≤ length (doc_lines d) →
  doc_lines (cut d start end_) = take start (doc_lines d) ++ drop end_ (doc_lines d) ∨
  ∃ l, doc_lines d !! end_ = Some l ∧ Line_is_blank l = true ∧ blank_at d (start - 1) = true ∧ 0 < start ∧
    doc_lines (cut d start end_) = take start (doc_lines d) ++ drop (S end_) (doc_lines d).
Proof.
  intros Hse He. unfold cut. cbn zeta. rewrite Nat.min_l by done.
  rewrite (proj2 (Nat.leb_gt _ _)) by done.
  assert (length (take start (doc_lines d)) = start) as Hlen by (len_lia).
  unfold blank_at. cbn [doc_lines].
  destruct (Nat.ltb_spec 0 start) as [Hs|]; [|by left]. cbn [andb].
  rewrite (lookup_app_l _ _ (start - 1)) by lia. rewrite lookup_take_lt by lia.
  rewrite (lookup_app_r _ _ start) by lia. rewrite Hlen, Nat.sub_diag, lookup_drop, Nat.add_0_r.
  destruct (is_some_and Line_is_blank (doc_lines d !! (start - 1))) eqn:Eb; [|by left].
  destruct (doc_lines d !! end_) as [l|] eqn:El; [|by left]. simpl.
  destruct (Line_is_blank l) eqn:Ebl; [|by left]. right. exists l. split_and!; [done..|].
  simpl. rewrite delete_take_drop, take_app_length', drop_app_ge by lia.
  rewrite Hlen. replace (S start - start) with 1 by lia. by rewrite drop_drop, Nat.add_1_r.
Qed.

(** The text of every line that is not blank. *)
Definition contents (ls : list str) : list str := filter (λ t, trim t ≠ []) ls.

Lemma contents_app a b : contents (a ++ b) = contents a ++ contents b.
Proof. apply filter_app. Qed.

Lemma Line_is_blank_spec l : Line_is_blank l = true ↔ trim (Line_text l) = [].
Proof. unfold Line_is_blank, is_empty. apply bool_decide_eq_true. Qed.

Lemma contents_insert_lines d s at_ lines blank :
  contents (doc_texts (insert_lines d s at_ lines blank)) ≡ₚ contents (doc_texts d) ++ contents lines.
Proof.
  destruct (insert_lines_texts d s at_ lines blank) as (blanks & Hb & ->).
  rewrite !contents_app. assert (contents blanks = []) as -> by (by destruct Hb as [-> | ->]).
  rewrite app_nil_l, (Permutation_app_comm (contents lines)), app_assoc, <- contents_app, take_drop.
  done.
Qed.

Lemma contents_Document_insert d at_ texts :
  contents (doc_texts (Document_insert d at_ texts)) ≡ₚ contents (doc_texts d) ++ contents texts.
Proof.
  unfold doc_texts. rewrite Document_insert_texts, !contents_app.
  rewrite (Permutation_app_comm (contents texts)), app_assoc, <- contents_app, take_drop. done.
Qed.

Lemma contents_cut d start end_ :
  start < end_ → end_ ≤ length (doc_lines d) →
  contents (doc_texts (cut d start end_))
  = contents (take start (doc_texts d)) ++ contents (drop end_ (doc_texts d)).
Proof.
  intros Hse He. unfold doc_texts.
  destruct (cut_spec d start end_ Hse He) as [->|(l & Hl & Hb & _ & _ & ->)].
  - by rewrite map_app, contents_app, firstn_map, skipn_map.
  - rewrite map_app, contents_app, !firstn_map, !skipn_map. f_equal.
    rewrite (drop_S _ _ _ Hl). simpl. unfold contents at 2. rewrite filter_cons_False; [done|].
    apply Line_is_blank_spec in Hb. naive_solver.
Qed.

Lemma Heading_line_contents h : contents [Heading_line h] = [Heading_line h].
Proof.
  unfold contents. rewrite filter_cons_True; [done|]. rewrite trim_nil_iff.
  unfold Heading_line. destruct (Nat.min (Nat.max (Heading_level h) 1) 6) as [|k] eqn:E; [lia|].
  simpl. by intros [? _]%Forall_cons.
Qed.

(** The section a write looks at ends inside the note. *)
Lemma find_section_bound d h s :
  find_section d h = Some s → sec_own_end s ≤ sec_body_end s ≤ length (doc_lines d).
Proof.
  destruct h as [h|]; simpl.
  - destruct (resolve d h) as [f|] eqn:E; [|done]. intros [= <-]. apply resolve_elem in E.
    destruct (section_geometry_lemma d f E) as (_ & ? & ? & ? & _). lia.
  - intros [= <-]. unfold whole. cbn [sec_body_end sec_own_end].
    destruct (trim_blanks_spec d 0 (length (doc_lines d))); lia.
Qed.

(** The block found under a heading's own lines. *)
Lemma found_block d h source wanted ordinal i :
  own <$> find_section d h = Some source → find_line d source wanted ordinal = Some i →
  i < block_end d source i ≤ length (doc_lines d) ∧
  ∃ l, doc_lines d !! i = Some l ∧ names wanted (Line_text l) = true.
Proof.
  intros Hs Hf. destruct (find_section d h) as [s|] eqn:E; simplify_eq/=.
  apply find_section_bound in E as Hb. apply find_line_sound in Hf as (Hi & _ & l & Hl & Hn).
  destruct (block_end_spec_lemma d (own s) i) as (He & _). apply lookup_lt_Some in Hl as Hlt.
  simpl in *. split; [|eauto]. lia.
Qed.

(** The headings a step may have created. *)
Definition created_from (hs : list Heading) (created : list str) : Prop :=
  ∃ made, made `sublist_of` hs ∧ created = map Heading_line made.

Lemma nothing_created hs d : ∃ created, created_from hs created ∧
  contents (doc_texts d) ≡ₚ contents (doc_texts d) ++ created.
Proof.
  exists []. split; [|by rewrite app_nil_r]. exists []. split; [apply sublist_nil_l|done].
Qed.

Lemma locate_contents d h o d' s o' :
  locate d h o = (d', s, o') →
  ∃ created, created_from (option_list h) created ∧
    contents (doc_texts d') ≡ₚ contents (doc_texts d) ++ created.
Proof.
  assert (∀ d'', d'' = d → ∃ created, created_from (option_list h) created ∧
    contents (doc_texts d'') ≡ₚ contents (doc_texts d) ++ created) as Hsame.
  { intros d'' ->. apply nothing_created. }
  unfold locate. destruct h as [h|]; [|intros [=]; by apply Hsame].
  destruct (resolve d h); [intros [=]; by apply Hsame|].
  assert (∀ i blank blank',
    (blank = [] ∨ blank = [[]]) → (blank' = [] ∨ blank' = [[] : str]) →
    ∃ created, created_from [h] created ∧
    contents (doc_texts (Document_insert d i (blank ++ [Heading_line h] ++ blank')))
    ≡ₚ contents (doc_texts d) ++ created) as Hin.
  { intros i blank blank' Hb Hb'. exists [Heading_line h]. split; [by exists [h]|].
    rewrite contents_Document_insert, !contents_app, Heading_line_contents.
    assert (contents blank = []) as -> by (by destruct Hb as [-> | ->]).
    assert (contents blank' = []) as -> by (by destruct Hb' as [-> | ->]). done. }
  cbn zeta. destruct (hl_index <$> find _ _) as [i|].
  - intros (<- & _)%triple_eq.
    apply (Hin i _ [[]]); [destruct (_ && _); auto|by right].
  - intros (<- & _)%triple_eq. destruct (is_some_and _ _).
    + apply (Hin _ [[]] []); auto.
    + apply (Hin _ [] []); auto.
Qed.

Lemma locate_group_contents d to under o d' s o' :
  locate_group d to under o = (d', s, o') →
  ∃ created, created_from (option_list under ++ option_list to) created ∧
    contents (doc_texts d') ≡ₚ contents (doc_texts d) ++ created.
Proof.
  unfold locate_group. destruct to as [to|].
  2:{ intros (<- & _)%triple_eq. apply nothing_created. }
  assert (∀ d'' s'' o'', locate d (Some to) o = (d'', s'', o'') →
    ∃ created, created_from (option_list under ++ [to]) created ∧
      contents (doc_texts d'') ≡ₚ contents (doc_texts d) ++ created) as Hto.
  { intros d'' s'' o'' (created & (made & Hm & Hc) & Hp)%locate_contents.
    exists created. split; [|done]. exists made. split; [|done].
    by apply sublist_inserts_l. }
  destruct under as [under|].
  - destruct (locate d (Some under) o) as [[d1 s1] o1] eqn:E.
    apply locate_contents in E as (created & (made & Hm & ->) & Hp).
    destruct (resolve_within _ _ _ _).
    + intros (<- & _)%triple_eq. exists (map Heading_line made). split; [|done]. exists made.
      split; [|done]. by apply sublist_inserts_r.
    + cbn zeta. intros (<- & _)%triple_eq. exists (map Heading_line made ++ [Heading_line to]).
      split.
      * exists (made ++ [to]). split; [by apply sublist_app|]. by rewrite map_app.
      * rewrite contents_insert_lines, Heading_line_contents, Hp. by rewrite app_assoc.
  - destruct (resolve d to); [|apply Hto].
    intros (<- & _)%triple_eq. apply nothing_created.
Qed.

(** C21: a move never becomes a copy, and never drops a line. The contents of
    the note after a move are those before it, the moved line renamed if the
    write says so, with the headings the move had to create; only blank lines
    may come or go. *)
Theorem move_block_conserves d outcome heading wanted ordinal to place new_line under d' o a :
  apply_move_block d outcome heading wanted ordinal to place new_line under = Continue d' o a →
  ∃ i line created,
    doc_texts d !! i = Some line ∧ names wanted line = true ∧
    created_from (option_list under ++ option_list to) created ∧
    contents (doc_texts d')
    ≡ₚ contents (<[i := default line new_line]> (doc_texts d)) ++ created.
Proof.
  unfold apply_move_block. destruct (own <$> find_section d heading) as [source|] eqn:Es; [|done].
  destruct (find_line d source wanted ordinal) as [i|] eqn:Ef; [|done]. cbn zeta.
  destruct (found_block _ _ _ _ _ _ Es Ef) as (He & l & Hl & Hn).
  set (e := block_end d source i) in *.
  set (texts := match new_line, _ with Some _, _ :: _ => _ | _, _ => _ end).
  destruct (locate_group (cut d i e) to under outcome) as [[d1 g] o1] eqn:Eg.
  apply locate_group_contents in Eg as (created & Hc & Hp).
  intros (<- & _)%Continue_inj. exists i, (Line_text l), created.
  split_and!; [by rewrite doc_texts_lookup, Hl|done|done|].
  rewrite contents_insert_lines, Hp, contents_cut by lia.
  assert (<[i := default (Line_text l) new_line]> (doc_texts d)
    = take i (doc_texts d) ++ texts ++ drop e (doc_texts d)) as ->.
  { assert (doc_texts d !! i = Some (Line_text l)) as Ht by (by rewrite doc_texts_lookup, Hl).
    rewrite insert_take_drop by (by eapply lookup_lt_Some). f_equal. subst texts.
    rewrite <- firstn_map, <- skipn_map. fold (doc_texts d).
    rewrite (drop_S _ _ _ Ht). replace (e - i) with (S (e - S i)) by lia. cbn [take].
    assert (drop (S i) (doc_texts d) = take (e - S i) (drop (S i) (doc_texts d)) ++ drop e (doc_texts d))
      as Hd.
    { rewrite <- (take_drop (e - S i) (drop (S i) (doc_texts d))) at 1. f_equal.
      rewrite drop_drop. f_equal. lia. }
    rewrite Hd at 1. by destruct new_line. }
  rewrite !contents_app. rewrite <- !app_assoc. apply Permutation_app_head.
  by rewrite (Permutation_app_comm (contents texts)), <- !app_assoc.
Qed.

(** Removing a block takes out its line and what is indented under it,
    and one blank line where two would meet; every other line stays. *)
Theorem remove_block_removes_one d outcome heading wanted ordinal d' o a :
  apply_remove_block d outcome heading wanted ordinal = Continue d' o a →
  ∃ before line block after,
    doc_lines d = before ++ line :: block ++ after ∧
    names wanted (Line_text line) = true ∧ Forall (λ l, in_block l = true) block ∧
    (doc_lines d' = before ++ after ∨
     ∃ blank rest, after = blank :: rest ∧ Line_is_blank blank = true ∧
       is_some_and Line_is_blank (last before) = true ∧ doc_lines d' = before ++ rest).
Proof.
  unfold apply_remove_block. destruct (own <$> find_section d heading) as [s|] eqn:Es; [|done].
  destruct (find_line d s wanted ordinal) as [i|] eqn:Ef; [|done].
  destruct (found_block _ _ _ _ _ _ Es Ef) as (He & l & Hl & Hn).
  destruct (block_end_spec_lemma d s i) as (_ & Hin & _).
  set (e := block_end d s i) in *. intros (<- & _)%Continue_inj.
  exists (take i (doc_lines d)), l, (take (e - S i) (drop (S i) (doc_lines d))), (drop e (doc_lines d)).
  split_and!; [|done| |].
  - rewrite <- (take_drop_middle _ _ _ Hl) at 1. do 2 f_equal.
    rewrite <- (take_drop (e - S i) (drop (S i) (doc_lines d))) at 1. f_equal.
    rewrite drop_drop. f_equal. lia.
  - apply Forall_lookup. intros k x [Hk Hlt]%lookup_take_Some. rewrite lookup_drop in Hk.
    specialize (Hin (S i + k)). rewrite Hk in Hin. apply Hin. lia.
  - destruct (cut_spec d i e) as [->|(b & Hb & Hbl & Hbb & H0' & ->)]; [lia|lia|by left|right].
    exists b, (drop (S e) (doc_lines d)). split_and!; [by apply drop_S|done| |done].
    rewrite last_lookup, length_take, Nat.min_l by lia. rewrite lookup_take_lt by lia.
    unfold blank_at in Hbb. by replace (Nat.pred i) with (i - 1) by lia.
Qed.
End changing.

(** ** On a concrete note *)

Definition sample_note : str :=
  u "# Day" ++ [10%N] ++ u "## Todo" ++ [10%N] ++ u "- a" ++ [10%N] ++ u "  under a" ++ [10%N]
  ++ u "- b" ++ [10%N; 10%N] ++ u "## Done" ++ [10%N] ++ u "- c".

Definition sample_hash (line : str) : str := @line_hash toy_digest line.
Definition todo : option Heading := Some (Heading_new (u "Todo")).

Definition sample_replace : Write :=
  Write_new (u "id") (u "day.md") (ReplaceLine todo (sample_hash (u "b")) 0 (u "- [x] b2")).
Definition sample_remove : Write :=
  Write_new (u "id") (u "day.md") (RemoveLine todo (sample_hash (u "b")) 0).
Definition sample_stale : Write :=
  Write_new (u "id") (u "day.md") (ReplaceLine todo (sample_hash (u "gone")) 0 (u "- mine")).

Lemma nothing_lost_witness :
  applied_outcome (@apply ascii_tables toy_digest (Some sample_note) sample_stale None) = KeptBoth ∧
  sample_note `sublist_of`
    applied_text (@apply ascii_tables toy_digest (Some sample_note) sample_stale None).
Proof.
  assert (applied_outcome (@apply ascii_tables toy_digest (Some sample_note) sample_stale None)
    = KeptBoth) as H by (vm_compute; reflexivity).
  split; [exact H|].
  apply (@nothing_lost ascii_tables toy_digest sample_note sample_stale None). right. left. exact H.
Defined.

Lemma replace_line_changes_one_witness :
  ∃ before line after,
    sample_note = before ++ line ++ after ∧
    @names toy_digest (sample_hash (u "b")) line = true ∧ 10%N ∉ line ∧
    applied_text (@apply ascii_tables toy_digest (Some sample_note) sample_replace None)
    = before ++ u "- [x] b2" ++ after.
Proof.
  apply (@replace_line_changes_one ascii_tables toy_digest sample_note sample_replace None
    todo (sample_hash (u "b")) 0 (u "- [x] b2")); [reflexivity|vm_compute; reflexivity].
Defined.

Lemma remove_line_removes_one_witness :
  ∃ before line ending after,
    sample_note = before ++ line ++ Ending_as_str ending ++ after ∧
    @names toy_digest (sample_hash (u "b")) line = true ∧ 10%N ∉ line ∧
    applied_text (@apply ascii_tables toy_digest (Some sample_note) sample_remove None)
    = before ++ after.
Proof.
  apply (@remove_line_removes_one ascii_tables toy_digest sample_note sample_remove None
    todo (sample_hash (u "b")) 0); [reflexivity|vm_compute; reflexivity].
Defined.

Definition sample_doc : Document := Eval vm_compute in Document_split sample_note.

(** The document a [Continue] step leaves. *)
Definition step_document (s : step) : Document :=
  match s with Continue d _ _ => d | Return _ => Document_empty end.

Lemma move_block_conserves_witness :
  let s := @apply_move_block ascii_tables toy_digest sample_doc None todo (sample_hash (u "a")) 0
    (Some (Heading_new (u "Later"))) Place_End (Some (u "- [ ] a2")) None in
  ∃ i line created,
    doc_texts sample_doc !! i = Some line ∧
    @names toy_digest (sample_hash (u "a")) line = true ∧
    created_from [Heading_new (u "Later")] created ∧
    contents (doc_texts (step_document s))
    ≡ₚ contents (<[i := u "- [ ] a2"]> (doc_texts sample_doc)) ++ created.
Proof.
  cbn zeta.
  apply (@move_block_conserves ascii_tables toy_digest sample_doc None todo (sample_hash (u "a")) 0
    (Some (Heading_new (u "Later"))) Place_End (Some (u "- [ ] a2")) None _
    (Some SectionAdded) Applied_).
  vm_compute. reflexivity.
Defined.

Lemma remove_block_removes_one_witness :
  ∃ before line block after,
    doc_lines sample_doc = before ++ line :: block ++ after ∧
    @names toy_digest (sample_hash (u "a")) (Line_text line) = true ∧
    Forall (λ l, in_block l = true) block.
Proof.
  edestruct (@remove_block_removes_one ascii_tables toy_digest sample_doc None todo
    (sample_hash (u "a")) 0) as (before & line & block & after & H1 & H2 & H3 & _);
    [vm_compute; reflexivity|].
  exists before, line, block, after. split; [exact H1|split; [exact H2|exact H3]].
Defined.
