(* ===== verification/Append.v ===== *)
(** * Appends are idempotent ([apply.rs], the [append] write)

    After a write appends lines to a section, the section shows them, so a
    second application is a no-op. *)

From S2P Require Import Prelude Strings External Samples Write Lines HeadingKey LineHash.
From S2P Require Import Sections Apply Insertion Changes.

(** ** Runs of lines *)

Lemma adjacent_zip_seq k lines : adjacent (zip (seq k (length lines)) lines) = true.
Proof.
  revert k; induction lines as [|t ts IH]; intros k; [done|]. simpl.
  specialize (IH (S k)). destruct ts as [|t' ts]; [done|]. simpl in *.
  by rewrite IH, Nat.add_1_r, Nat.eqb_refl.
Qed.

Lemma zip_seq_matches k lines :
  forallb (λ hw : (nat * str) * str, trim_end hw.1.2 == trim_end hw.2)
    (zip (zip (seq k (length lines)) lines) lines) = true.
Proof.
  revert k; induction lines as [|t ts IH]; intros k; simpl; [done|].
  by rewrite bool_decide_eq_true_2, IH.
Qed.

Lemma contains_run_intro pre k lines post :
  contains_run (pre ++ zip (seq k (length lines)) lines ++ post) lines = true.
Proof.
  unfold contains_run. destruct lines as [|t ts]; [done|]. set (lines := t :: ts).
  assert (length (zip (seq k (length lines)) lines) = length lines) as Hz.
  { rewrite length_zip_with, length_seq. lia. }
  set (z := zip (seq k (length lines)) lines) in *.
  assert (length (pre ++ z ++ post) = length pre + length lines + length post) as Hl.
  { len_lia. }
  rewrite Hl, (proj2 (Nat.ltb_ge _ _)) by lia.
  apply existsb_exists. exists z. split.
  - unfold windows. rewrite Hl, (proj2 (Nat.ltb_ge _ _)) by lia.
    apply in_map_iff. exists (length pre). split; [|apply in_seq; lia].
    rewrite drop_app_length, <- Hz. by rewrite take_app_length.
  - unfold z. by rewrite adjacent_zip_seq, zip_seq_matches.
Qed.

Lemma contains_run_intro_blank pre k lines post :
  contains_run (pre ++ zip (seq k (S (length lines))) ([] :: lines) ++ post) lines = true.
Proof.
  simpl. change (pre ++ (k, []) :: ?r) with (pre ++ [(k, [])] ++ r).
  rewrite app_assoc. apply contains_run_intro.
Qed.

(** ** Lines a write may append *)

(** The lines the theorem is about: each is plain text on one line, and the
    last is neither blank nor a closing rule. (Of the others, a fence or a
    heading changes how the note reads below it, and trailing blanks and rules
    do not count as body: see [append_blank_not_idempotent].) *)
Definition settled (lines : list str) : Prop :=
  Forall (λ t, plain t = true ∧ has_break t = false) lines ∧
  ∀ t, last lines = Some t → solid t.

(** The line that creates the heading reads back as that heading. *)
Definition clean_heading (h : Heading) : Prop :=
  has_break (trim (Heading_text h)) = false ∧
  ∃ level, parse_heading (Heading_line h) = Some (level, trim (Heading_text h)).

(** A document every fence of which is closed, as read from a text. *)
Definition sound_note (d : Document) : Prop := doc_ok d ∧ fences_closed d ∧ no_stray_cr d.

Lemma Heading_line_hash h : ∃ k s, Heading_line h = ch "#" :: replicate k (ch "#") ++ 32%N :: s.
Proof.
  unfold Heading_line. destruct (Nat.min (Nat.max (Heading_level h) 1) 6) as [|k] eqn:E; [lia|].
  eexists k, _. simpl. done.
Qed.

Lemma Heading_line_neutral h : neutral (Heading_line h) = true.
Proof.
  destruct (Heading_line_hash h) as (k & s & ->). apply neutral_spec. split.
  - change (ch "#") with 35%N. unfold opens_fence. cbn [trim_start_matches].
    change (is_space 35) with false. cbn iota. by rewrite Nat.sub_diag.
  - unfold is_front_matter_end. by rewrite !bool_decide_eq_false_2.
Qed.

Lemma has_break_app a b : has_break (a ++ b) = has_break a || has_break b.
Proof.
  unfold has_break. rewrite !existsb_app.
  destruct (existsb _ a), (existsb _ a), (existsb _ b), (existsb _ b); done.
Qed.

Lemma has_break_replicate_hash k : has_break (replicate k (ch "#")) = false.
Proof. unfold has_break. induction k as [|k IH]; [done|]. exact IH. Qed.

Lemma Heading_line_no_break h :
  has_break (trim (Heading_text h)) = false → has_break (Heading_line h) = false.
Proof.
  intros H. unfold Heading_line. rewrite !has_break_app, H, has_break_replicate_hash. done.
Qed.

Lemma Heading_line_nonempty h : Heading_line h ≠ [].
Proof. destruct (Heading_line_hash h) as (k & s & ->). done. Qed.

(** ** [locate] *)

Lemma has_break_nil : has_break [] = false.
Proof. done. Qed.

Section locating.
Context `{UnicodeTables, Digest}.

Lemma no_stray_cr_insert d at_ texts :
  doc_ok d → no_stray_cr d → Forall (λ t, has_break t = false) texts →
  no_stray_cr (Document_insert d at_ texts).
Proof.
  intros [Hok He] Hcr Ht. destruct (decide (texts = [])) as [->|Hne]; [done|].
  intros l Hl Hn Hc. rewrite Document_insert_lines in Hl by done. cbn zeta in Hl.
  set (i := Nat.min at_ (length (doc_lines d))) in *.
  set (ls := if inserts_after_tail d at_ then _ else _) in *.
  assert (∀ t, t ∈ texts → last t ≠ Some 13%N) as Hnew.
  { intros t Hin [l' ->]%last_Some. rewrite Forall_forall in Ht.
    apply Ht, has_break_false in Hin as [_ Hin]. apply Hin. set_solver. }
  rewrite app_assoc, last_app in Hl.
  destruct (last (drop i ls)) as [x|] eqn:Ed; simplify_eq.
  - apply last_drop_Some in Ed. subst ls.
    destruct (inserts_after_tail d at_) eqn:E; [|by apply (Hcr l)].
    apply inserts_after_tail_true in E as (init & l0 & Hd & Hl0 & Hle).
    rewrite Hd, alter_last, last_snoc in Ed. injection Ed as <-.
    simpl in Hn. done.
  - rewrite last_app in Hl.
    destruct (last (new_lines_of _ _ texts)) as [x|] eqn:En; simplify_eq.
    + apply (Hnew (Line_text l)); [|done].
      rewrite <- (new_lines_texts (doc_ending d) (inserts_after_tail d at_) texts).
      apply list_elem_of_In, in_map, list_elem_of_In.
      rewrite last_lookup in En. by eapply list_elem_of_lookup_2.
    + apply last_None, (f_equal length) in En. unfold new_lines_of in En.
      rewrite length_imap in En. destruct texts; done.
Qed.

(** The heading a write creates is inserted where nothing is open. *)
Definition new_heading_place (d : Document) (heading : Heading) : nat * list str :=
  match hl_index <$> find (λ candidate, hl_level candidate =? 1)%nat (drop 1 (headings d)) with
  | Some index =>
      (index,
       (if (0 <? index)%nat && nonblank_at d (index - 1) then [[]] else [])
       ++ [Heading_line heading; []])
  | None =>
      (length (doc_lines d),
       (if is_some_and (λ l, negb (Line_is_blank l)) (last (doc_lines d))
        then [[]] else []) ++ [Heading_line heading])
  end.

Lemma locate_unfold d heading outcome :
  locate d (Some heading) outcome =
  match resolve d heading with
  | Some found => (d, section d found, outcome)
  | None =>
      let d' := Document_insert d (new_heading_place d heading).1 (new_heading_place d heading).2 in
      (d', match resolve d' heading with Some found => section d' found | None => whole d' end,
       match outcome with None => Some SectionAdded | o => o end)
  end.
Proof.
  unfold locate, new_heading_place. destruct (resolve d heading); [done|].
  by destruct (hl_index <$> find _ _).
Qed.

Lemma new_heading_place_spec d heading :
  fences_closed d →
  let at_ := (new_heading_place d heading).1 in
  let texts := (new_heading_place d heading).2 in
  at_ ≤ length (doc_lines d) ∧ open_at d at_ ∧ free at_ (doc_lines d) ∧
  Forall (λ t, neutral t = true) texts ∧
  (∃ i, texts !! i = Some (Heading_line heading)) ∧
  (at_ = length (doc_lines d) → last texts ≠ Some []) ∧
  (has_break (trim (Heading_text heading)) = false → Forall (λ t, has_break t = false) texts).
Proof.
  intros Hc. unfold new_heading_place. cbn zeta.
  assert (∀ l : list str, (l = [] ∨ l = [[]]) →
    Forall (λ t, neutral t = true) l ∧ Forall (λ t, has_break t = false) l) as Hsm.
  { intros l [-> | ->]; repeat constructor. }
  assert (∀ b : bool, (if b then [[]] else [] : list str) = [] ∨
    (if b then [[]] else [] : list str) = [[]]) as Hif by (intros []; auto).
  destruct (find _ (drop 1 (headings d))) as [h|] eqn:Ef; cbn [fst snd fmap option_fmap option_map].
  - assert (h ∈ drop 1 (headings d)) as Hin.
    { apply find_some in Ef as [? _]. by apply list_elem_of_In. }
    assert (h ∈ headings d ∧ hl_index h ≠ 0) as [Hh Hne].
    { pose proof (headings_sorted d) as Hs. destruct (headings d) as [|h0 hs]; [by apply elem_of_nil in Hin|].
      simpl in Hin. rewrite drop_0 in Hin. split; [by right|].
      apply StronglySorted_inv in Hs as [_ Hall]. rewrite Forall_forall in Hall.
      specialize (Hall h Hin). unfold by_index in Hall. lia. }
    pose proof (headings_index_lt _ _ Hh) as Hlt.
    set (b := _ && _). destruct (Hsm _ (Hif b)) as [Hn Hb].
    split_and!; [lia|by apply heading_open|by left| | |lia|].
    + apply Forall_app. split; [done|].
      repeat constructor. apply Heading_line_neutral.
    + exists (if b then 1 else 0). by destruct b.
    + intros Ht. apply Forall_app. split; [done|].
      repeat constructor. by apply Heading_line_no_break.
  - set (b := is_some_and _ _). destruct (Hsm _ (Hif b)) as [Hn Hb].
    split_and!; [done|done| | | | |].
    + destruct (doc_lines d); [right; done|left; done].
    + apply Forall_app. split; [done|]. repeat constructor. apply Heading_line_neutral.
    + exists (if b then 1 else 0). by destruct b.
    + intros _. rewrite last_snoc. intros [=]. by eapply Heading_line_nonempty.
    + intros Ht. apply Forall_app. split; [done|].
      repeat constructor. by apply Heading_line_no_break.
Qed.

(** Once located, the section is found, in a document as sound as before. *)
Lemma locate_spec d heading outcome :
  sound_note d → (∀ h, heading = Some h → clean_heading h) →
  let '(d1, s, _) := locate d heading outcome in
  sound_note d1 ∧ find_section d1 heading = Some s.
Proof.
  intros Hs Hc. destruct heading as [h|]; [|done]. specialize (Hc h eq_refl) as [Hb [level Hp]].
  rewrite locate_unfold. unfold find_section.
  destruct (resolve d h) as [f|] eqn:Er; [by rewrite Er|]. cbn zeta.
  destruct Hs as (Hok & Hcl & Hcr).
  destruct (new_heading_place_spec d h Hcl) as (Hat & Hop & Hfr & Hn & [i Hi] & Hla & Hbr).
  specialize (Hbr Hb). destruct (new_heading_place d h) as [at_ texts]. cbn [fst snd] in *.
  split.
  - split_and!; [|by apply fences_closed_insert|by apply no_stray_cr_insert].
    apply insert_doc_ok; [done..|]. intros Hle. apply Hla. lia.
  - destruct (resolve (Document_insert d at_ texts) h) as [f|] eqn:Er'; [done|]. exfalso.
    pose proof (heading_inserted d at_ texts Hat Hn Hop Hfr i _ _ _ Hi Hp) as Hin.
    rewrite resolve_spec_lemma in Er'. cbn zeta in Er'.
    set (ex := filter (exact_match h) _) in Er'.
    assert (mkHeadingLine (at_ + i) level (trim (Heading_text h)) ∈ ex) as Hex.
    { apply list_elem_of_filter. split; [|done]. unfold exact_match. simpl. by rewrite trim_idemp. }
    destruct ex as [|x ex]; [by apply not_elem_of_nil in Hex|].
    simpl in Er'. apply lookup_ge_None in Er'. simpl in Er'. lia.
Qed.

(** ** The insertion point of an append *)

Lemma whole_free d : free (sec_body_end (whole d)) (doc_lines d).
Proof.
  unfold free. destruct (decide (sec_body_end (whole d) = 0)) as [Hz|]; [right|by left].
  destruct (doc_lines d) as [|l ls] eqn:E; [done|]. simpl. intros [= Hl].
  destruct (trim_blanks_spec d 0 (length (doc_lines d))) as (_ & Hb & _); [lia|].
  unfold whole in Hz. cbn [sec_body_end] in Hz. rewrite Hz in Hb.
  specialize (Hb 0). unfold blank_at in Hb. rewrite E in Hb. simpl in Hb.
  unfold Line_is_blank in Hb. rewrite Hl in Hb. by discriminate Hb; lia.
Qed.

(** Where an append without an anchor inserts. *)
Definition append_at (s : Section_) (placement : Placement) : nat :=
  match placement with End => sec_body_end s | BeforeChildren => sec_own_end s end.

Lemma append_at_spec d heading s placement :
  fences_closed d → find_section d heading = Some s →
  let at_ := append_at s placement in
  at_ ≤ length (doc_lines d) ∧ open_at d at_ ∧ free at_ (doc_lines d) ∧
  sec_start s ≤ at_ ≤ sec_end s.
Proof.
  intros Hc Hf. cbn zeta. destruct heading as [h|]; simpl in Hf.
  - destruct (resolve d h) as [f|] eqn:Er; [|done]. injection Hf as <-.
    apply resolve_elem in Er. destruct (section_geometry_lemma d f Er) as (_ & H1 & H2 & H3 & _).
    unfold append_at. destruct placement.
    + split_and!; [lia|by apply section_body_end_open|left; lia|lia..].
    + split_and!; [lia|by apply section_own_end_open|left; lia|lia..].
  - simplify_eq/=. pose proof (whole_body_end_open d Hc) as Ho. pose proof (whole_free d) as Hfr.
    destruct (trim_blanks_spec d 0 (length (doc_lines d))) as (H1 & _); [lia|].
    unfold append_at, whole in *. cbn [sec_body_end sec_own_end sec_start sec_end] in *.
    destruct placement; split_and!; (done || lia).
Qed.

(** What is inserted: the lines, a blank line before them or not. *)
Lemma insert_lines_unfold d s at_ lines blank :
  lines ≠ [] →
  insert_lines d s at_ lines blank = Document_insert d at_ lines ∨
  insert_lines d s at_ lines blank = Document_insert d at_ ([] :: lines).
Proof. unfold insert_lines. destruct lines; [done|]. cbn zeta. destruct (_ && _); auto. Qed.

Lemma contains_run_inserted pre at_ (texts lines : list str) post :
  texts = lines ∨ texts = [] :: lines →
  contains_run (pre ++ zip (seq at_ (length texts)) texts ++ post) lines = true.
Proof. intros [-> | ->]; [apply contains_run_intro|apply contains_run_intro_blank]. Qed.

(** An append shows in the section it went to. *)
Lemma append_shows d heading s placement lines blank :
  sound_note d → settled lines → find_section d heading = Some s →
  let d' := insert_lines d s (append_at s placement) lines blank in
  sound_note d' ∧
  ∃ s', find_section d' heading = Some s' ∧ contains_run (matchable d' s') lines = true.
Proof.
  intros Hs [Hl Hlast] Hf. cbn zeta. destruct (decide (lines = [])) as [->|Hne].
  { split; [done|]. exists s. done. }
  destruct Hs as (Hok & Hcl & Hcr).
  destruct (append_at_spec d heading s placement Hcl Hf) as (Hat & Hop & Hfr & Hse).
  set (at_ := append_at s placement) in *. clearbody at_.
  assert (∃ texts, insert_lines d s at_ lines blank = Document_insert d at_ texts ∧
    (texts = lines ∨ texts = [] :: lines)) as (texts & -> & Ht).
  { destruct (insert_lines_unfold d s at_ lines blank Hne) as [-> | ->]; eauto. }
  assert (∃ t, last lines = Some t) as [t Hlt].
  { destruct (last lines) eqn:E; [eauto|by apply last_None in E]. }
  assert (last texts = Some t) as Htt.
  { destruct Ht as [-> | ->]; [done|]. rewrite last_cons, Hlt. done. }
  assert (Forall (λ t, plain t = true) texts) as Hp.
  { assert (Forall (λ t, plain t = true) lines) as H1
      by (eapply Forall_impl; [done|]; by intros ? [? _]).
    destruct Ht as [-> | ->]; [done|by constructor]. }
  assert (Forall (λ t, has_break t = false) texts) as Hb.
  { assert (Forall (λ t, has_break t = false) lines) as H1
      by (eapply Forall_impl; [done|]; by intros ? [_ ?]).
    destruct Ht as [-> | ->]; [done|by constructor]. }
  specialize (Hlast t Hlt).
  split.
  { split_and!; [|apply fences_closed_insert; try done|by apply no_stray_cr_insert].
    - apply insert_doc_ok; [done..|]. intros _. rewrite Htt. intros [= ->]. by destruct Hlast.
    - eapply Forall_impl; [exact Hp|]. intros ? ?. by apply plain_neutral. }
  assert (∃ s', find_section (Document_insert d at_ texts) heading = Some s' ∧
    sec_start s' ≤ at_ ∧ at_ + length texts ≤ sec_body_end s') as (s' & Hs' & H1 & H2).
  { destruct heading as [h|]; simpl in Hf |- *.
    - destruct (resolve d h) as [f|] eqn:Er; [|done]. injection Hf as <-.
      rewrite (resolve_insert d at_ texts Hat Hp Hop Hfr), Er. eexists; split; [done|].
      apply resolve_elem in Er.
      destruct (section_insert d at_ texts Hat Hp Hop Hfr t Htt Hlast f Er) as [-> ?]; [done|].
      split; [lia|done].
    - eexists; split; [done|]. split; [simpl; lia|].
      by apply (whole_insert d at_ texts Hat Hp t). }
  exists s'. split; [done|].
  destruct (matchable_insert d at_ texts Hat Hp Hop Hfr s' H1 H2) as (pre & post & ->).
  by apply contains_run_inserted.
Qed.

Lemma missing_document_ok op seed : doc_ok (missing_document op seed).
Proof.
  assert (doc_ok Document_empty) as He by done.
  assert (∀ h, doc_ok (match h with
    | Some heading => Document_split (Heading_line heading ++ [10%N; 10%N])
    | None => Document_empty end)) as Hh by (intros [h|]; [apply Document_split_spec|done]).
  unfold missing_document. destruct op as [|? ? ? ? [] ?| | | | | | |]; try apply Hh.
  destruct seed; [apply Document_split_spec|apply Hh].
Qed.

(** Only the lines of a document decide what is in a section. *)
Lemma trim_blanks_lines ls e e' low end_ :
  trim_blanks (mkDocument ls e) low end_ = trim_blanks (mkDocument ls e') low end_.
Proof.
  induction end_ as [|n IH]; [done|]. cbn [trim_blanks]. by destruct (_ && _).
Qed.

Lemma section_lines ls e e' f : section (mkDocument ls e) f = section (mkDocument ls e') f.
Proof.
  unfold section, trim_blank_end. cbn zeta. by rewrite !(trim_blanks_lines ls e e').
Qed.

Lemma find_section_split d heading :
  doc_ok d →
  find_section (Document_split (Document_join d)) heading = find_section d heading ∧
  ∀ s, matchable (Document_split (Document_join d)) s = matchable d s.
Proof.
  intros Hok. assert (doc_lines (Document_split (Document_join d)) = doc_lines d) as Hl.
  { destruct Hok as [Hok _]. destruct (Document_split_spec (Document_join d)) as (Hj & [Hs _] & _).
    by apply join_lines_inj. }
  destruct (Document_split (Document_join d)) as [ls e], d as [ls' e']. simpl in Hl. subst.
  split; [|done]. destruct heading as [h|]; simpl.
  - change (resolve (mkDocument ls' e) h) with (resolve (mkDocument ls' e') h).
    destruct (resolve _ h) as [f|]; [|done]. simpl. f_equal. apply section_lines.
  - unfold whole. simpl. by rewrite (trim_blanks_lines ls' e e').
Qed.

Definition base_document (existing : option str) (op : Operation) (seed : option str) : Document :=
  match existing with
  | Some text => Document_split text
  | None => missing_document op seed
  end.

Lemma append_twice existing write seed heading lines placement blank template :
  Write_operation write = Append heading lines placement blank template None →
  let base := base_document existing (Write_operation write) seed in
  fences_closed base → no_stray_cr base → settled lines →
  (∀ h, heading = Some h → clean_heading h) →
  let once := applied_text (apply existing write seed) in
  effect_present once write = true ∧
  apply (Some once) write seed = mkApplied once Noop.
Proof.
  intros Hop. cbn zeta. intros Hcl Hcr Hset Hclean.
  enough (effect_present (applied_text (apply existing write seed)) write = true) as He.
  { split; [done|]. unfold apply at 1. rewrite Hop at 1. cbn [is_file_level]. by rewrite He. }
  assert (∀ d outcome, sound_note d →
    effect_present (applied_text (finish (apply_operation d outcome (Write_operation write)))) write
    = true) as Hmain.
  { intros d outcome Hd. rewrite Hop. cbn [apply_operation]. unfold apply_append.
    pose proof (locate_spec d heading outcome Hd Hclean) as Hloc.
    destruct (locate d heading outcome) as [[d1 s] o]. destruct Hloc as [Hd1 Hf].
    cbn [option_bind mbind default finish applied_text]. fold (append_at s placement).
    destruct (append_shows d1 heading s placement lines blank Hd1 Hset Hf)
      as ((Hok & _) & s' & Hs' & Hrun).
    unfold effect_present. rewrite Hop.
    destruct (find_section_split _ heading Hok) as [-> Hm]. by rewrite Hs', Hm. }
  unfold apply. rewrite Hop at 1. cbn [is_file_level].
  destruct existing as [text|]; cbn [base_document] in *.
  - destruct (effect_present text write) eqn:E; [done|]. apply Hmain.
    split_and!; [apply Document_split_spec|done|done].
  - rewrite Hop at 1. rewrite <- Hop. apply Hmain.
    split_and!; [apply missing_document_ok|done|done].
Qed.

(** C20: an append that names no line to follow is idempotent: once applied, its
    effect is seen, and a second application changes nothing. The note it is
    applied to has every fence closed and does not end in a carriage return
    alone; each of its lines is one line of plain text, no fence and no heading,
    and the last is neither blank nor a closing rule; and its heading reads back
    as itself. Without these it need not be: a blank line is appended again
    ([append_blank_not_idempotent]). *)
Theorem append_idempotent existing write seed heading lines placement blank template :
  Write_operation write = Append heading lines placement blank template None →
  let base := base_document existing (Write_operation write) seed in
  fences_closed base → no_stray_cr base → settled lines →
  (∀ h, heading = Some h → clean_heading h) →
  let once := applied_text (apply existing write seed) in
  effect_present once write = true ∧
  apply (Some once) write seed = mkApplied once Noop.
Proof. apply append_twice. Qed.
End locating.

(** ** What an append adds *)

Section adding.
Context `{UnicodeTables, Digest}.

(** [text] is the note a write starts from with [lines] put between two of its
    lines, and at most the [heading] they go under made for them. *)
Definition holds_lines (base : Document) (heading : option Heading) (lines : list str) (text : str)
  : Prop :=
  ∃ (d : Document) above below created,
    text = Document_join d ∧ doc_texts d = above ++ lines ++ below ∧
    created_from (option_list heading) created ∧
    contents (above ++ below) ≡ₚ contents (doc_texts base) ++ created.

Lemma apply_append_lines (d : Document) outcome heading lines placement blank :
  ∃ d' o, apply_append d outcome heading lines placement blank None = Continue d' o Applied_ ∧
    holds_lines d heading lines (Document_join d').
Proof.
  unfold apply_append. destruct (locate d heading outcome) as [[d1 s] o] eqn:El.
  apply locate_contents in El as (created & Hc & Hp). cbn [mbind option_bind default].
  eexists _, o. split; [done|]. set (at_ := match placement with End => _ | _ => _ end).
  destruct (insert_lines_texts d1 s at_ lines blank) as (blanks & Hb & Ht).
  eexists _, (take at_ (doc_texts d1) ++ blanks), (drop at_ (doc_texts d1)), created.
  split_and!; [done|by rewrite Ht, <- !app_assoc|done|].
  rewrite <- Hp, !contents_app. assert (contents blanks = []) as -> by (by destruct Hb as [-> | ->]).
  by rewrite app_nil_r, <- contents_app, take_drop.
Qed.

Lemma append_adds_lines existing write seed heading lines placement blank template :
  Write_operation write = Append heading lines placement blank template None →
  applied_outcome (apply existing write seed) ≠ Noop →
  holds_lines (base_document existing (Write_operation write) seed) heading lines
    (applied_text (apply existing write seed)).
Proof.
  intros Hop. unfold apply. rewrite Hop. cbn [is_file_level].
  destruct existing as [text|]; cbn [base_document].
  - destruct (effect_present _ _); [done|]. intros _. cbn [apply_operation].
    destruct (apply_append_lines (Document_split text) None heading lines placement blank)
      as (d' & o & -> & Hl). exact Hl.
  - intros _. cbn [apply_operation].
    destruct (apply_append_lines (missing_document (Append heading lines placement blank template None) seed)
      (Some Created) heading lines placement blank) as (d' & o & -> & Hl). exact Hl.
Qed.
End adding.

(** ** On a concrete note *)

#[export] Instance no_stray_cr_dec d : Decision (no_stray_cr d).
Proof.
  unfold no_stray_cr. destruct (last (doc_lines d)) as [l|].
  - destruct (decide (Line_ending l = NoEnding)) as [E|E];
      [destruct (decide (last (Line_text l) = Some 13%N)) as [E'|E']|].
    + right. intros H. by apply (H l).
    + left. by intros ? [= <-] _.
    + left. by intros ? [= <-] ?.
  - by left.
Defined.

#[export] Instance solid_dec t : Decision (solid t).
Proof. unfold solid. apply _. Defined.

#[export] Instance settled_dec lines : Decision (settled lines).
Proof.
  unfold settled. apply and_dec; [apply _|]. destruct (last lines) as [t|].
  - destruct (decide (solid t)) as [E|E]; [left|right]; [by intros ? [= <-]|].
    intros H. by apply E, H.
  - by left.
Defined.

Definition sample_append_note : str :=
  u "# Day" ++ [10%N] ++ u "- a" ++ [10%N; 10%N] ++ u "## Log" ++ [10%N] ++ u "x".

Definition sample_append (lines : list str) : Write :=
  Write_new (u "id") (u "day.md")
    (Append (Some (Heading_new (u "Notes"))) lines End true false None).

Lemma append_idempotent_witness :
  let once := applied_text (@apply ascii_tables toy_digest (Some sample_append_note)
                (sample_append [u "- b"]) None) in
  once ≠ sample_append_note ∧
  @apply ascii_tables toy_digest (Some once) (sample_append [u "- b"]) None = mkApplied once Noop.
Proof.
  cbn zeta. split; [by apply (bool_decide_unpack _); vm_compute|].
  apply (@append_idempotent ascii_tables toy_digest (Some sample_append_note)
    (sample_append [u "- b"]) None (Some (Heading_new (u "Notes"))) [u "- b"] End true false).
  - reflexivity.
  - decide_closed.
  - decide_closed.
  - decide_closed.
  - intros h [= <-]. split; [vm_compute; reflexivity|]. exists 2. vm_compute. reflexivity.
Defined.

(** An append whose last line is blank is not idempotent: trailing blanks
    are not body, so the effect is never seen and the lines go in again. *)
Theorem append_blank_not_idempotent :
  let w := sample_append [u "- b"; []] in
  let once := applied_text (@apply ascii_tables toy_digest (Some sample_append_note) w None) in
  @apply ascii_tables toy_digest (Some once) w None
  = mkApplied (once ++ [10%N] ++ u "- b" ++ [10%N; 10%N]) Applied_.
Proof. vm_compute. reflexivity. Qed.
