(* ===== verification/Dates.v ===== *)
(** * Date names ([dates.rs])

    The moment.js-style vocabulary a daily note's name is written in and read
    back with. The calendar itself (crate [chrono]) is a parameter. *)

From S2P Require Import Prelude Strings External.

(** ** Formats *)

Definition is_date_token (c : char) : bool :=
  existsb (N.eqb c) (u "YMDdWG").

Section formatting.
Context `{Chrono}.

(** The expansion [emit_date_token] pushes. Its last arm is unreachable from
    [format_date]: a run is at least one long and of a token character. *)
Definition date_expansion (date : NaiveDate) (token : char) (run : nat) : str :=
  if (token =? ch "Y")%N then
    match run with
    | 2 => show_Z_padded 2 (Z.rem (year date) 100)
    | _ => show_Z_padded 4 (year date)
    end
  else if (token =? ch "M")%N then
    match run with
    | 1 => show_N (month date)
    | 2 => show_padded 2 (month date)
    | 3 => format_b date
    | _ => format_B date
    end
  else if (token =? ch "D")%N then
    match run with
    | 1 => show_N (day date)
    | _ => show_padded 2 (day date)
    end
  else if (token =? ch "d")%N then
    match run with
    | 1 => show_N (num_days_from_sunday date)
    | 2 => take 2 (format_A date)
    | 3 => format_a date
    | _ => format_A date
    end
  else if (token =? ch "W")%N then
    match run with
    | 1 => show_N (iso_week date)
    | _ => show_padded 2 (iso_week date)
    end
  else if (token =? ch "G")%N then
    match run with
    | 2 => show_Z_padded 2 (Z.rem (iso_year date) 100)
    | _ => show_Z_padded 4 (iso_year date)
    end
  else format_A date.

Definition emit_date_token (output : str) (date : NaiveDate) (token : char) (run : nat) : str :=
  output ++ date_expansion date token run.

(** The walk: [characters] is what is left of the format. *)
Fixpoint format_date_loop (fuel : nat) (output : str) (date : NaiveDate) (characters : str) : str :=
  match fuel with
  | 0 => output
  | S fuel =>
      match characters with
      | [] => output
      | character :: rest =>
          if (character =? ch "[")%N then
            let literal := count_while (λ c, negb (c =? ch "]")%N) rest in
            format_date_loop fuel (output ++ take literal rest) date (drop (literal + 1) rest)
          else if is_date_token character then
            let run := 1 + count_while (N.eqb character) rest in
            format_date_loop fuel (emit_date_token output date character run) date
              (drop run characters)
          else format_date_loop fuel (output ++ [character]) date rest
      end
  end.

Definition format_date (date : NaiveDate) (format : str) : str :=
  format_date_loop (length format) [] date format.
End formatting.

Inductive FormatToken :=
  | Literal (c : char)
  | Run (c : char) (run : nat).

#[export] Instance FormatToken_eq_dec : EqDecision FormatToken.
Proof. solve_decision. Defined.

Fixpoint format_tokens_loop (fuel : nat) (tokens : list FormatToken) (characters : str)
  : list FormatToken :=
  match fuel with
  | 0 => tokens
  | S fuel =>
      match characters with
      | [] => tokens
      | character :: rest =>
          if (character =? ch "[")%N then
            let literal := count_while (λ c, negb (c =? ch "]")%N) rest in
            format_tokens_loop fuel (tokens ++ map Literal (take literal rest))
              (drop (literal + 1) rest)
          else if is_date_token character then
            let run := 1 + count_while (N.eqb character) rest in
            format_tokens_loop fuel (tokens ++ [Run character run]) (drop run characters)
          else format_tokens_loop fuel (tokens ++ [Literal character]) rest
      end
  end.

Definition format_tokens (format : str) : list FormatToken :=
  format_tokens_loop (length format) [] format.

Definition names_a_day (format : str) : bool :=
  let tokens := format_tokens format in
  let has wanted :=
    existsb (λ t, match t with Run c _ => (c =? wanted)%N | Literal _ => false end) tokens in
  has (ch "Y") && has (ch "M") && has (ch "D").

(** ** Reading a date back *)

Record DateFields := mkDateFields {
  f_year : option Z;
  f_month : option N;
  f_day : option N;
  f_iso_year : option Z;
  f_week : option N;
}.

Definition no_fields : DateFields := mkDateFields None None None None None.
Definition with_year (f : DateFields) (y : Z) : DateFields :=
  mkDateFields (Some y) (f_month f) (f_day f) (f_iso_year f) (f_week f).
Definition with_month (f : DateFields) (m : N) : DateFields :=
  mkDateFields (f_year f) (Some m) (f_day f) (f_iso_year f) (f_week f).
Definition with_day (f : DateFields) (d : N) : DateFields :=
  mkDateFields (f_year f) (f_month f) (Some d) (f_iso_year f) (f_week f).
Definition with_iso_year (f : DateFields) (y : Z) : DateFields :=
  mkDateFields (f_year f) (f_month f) (f_day f) (Some y) (f_week f).
Definition with_week (f : DateFields) (w : N) : DateFields :=
  mkDateFields (f_year f) (f_month f) (f_day f) (f_iso_year f) (Some w).

Definition MONTH_NAMES : list str :=
  [u "January"; u "February"; u "March"; u "April"; u "May"; u "June"; u "July";
   u "August"; u "September"; u "October"; u "November"; u "December"].

Definition WEEKDAY_NAMES : list str :=
  [u "Monday"; u "Tuesday"; u "Wednesday"; u "Thursday"; u "Friday"; u "Saturday"; u "Sunday"].

(** Exactly [width] ASCII digits from the start. (The source counts bytes: a
    character of several bytes fails its digit test or its slice.) *)
Definition take_digits (input : str) (width : nat) : option (N * str) :=
  if (length input <? width)%nat then None
  else
    let digits := take width input in
    if negb (forallb is_ascii_digit digits) then None
    else
      value ← parse_digits digits;
      Some (value, drop width input).

Section parsing.
Context `{Chrono}.

Definition resolve_fields (f : DateFields) : option NaiveDate :=
  match f_year f, f_month f, f_day f with
  | Some y, Some m, Some d => from_ymd_opt y m d
  | _, _, _ => iso_year ← f_iso_year f; week ← f_week f; from_isoywd_monday_opt iso_year week
  end.

Fixpoint try_match (tokens : list FormatToken) (input : str) (fields : DateFields)
    (format full_input : str) : option NaiveDate :=
  match tokens with
  | [] =>
      if negb (input == []) then None
      else
        date ← resolve_fields fields;
        if format_date date format == full_input then Some date else None
  | token :: rest_tokens =>
      let recurse input fields := try_match rest_tokens input fields format full_input in
      let number widths set := find_map (λ width,
        vr ← take_digits input width; recurse vr.2 (set fields vr.1)) widths in
      match token with
      | Literal literal => rest ← strip_prefix [literal] input; recurse rest fields
      | Run c run =>
          if (c =? ch "Y")%N then
            match run with
            | 2 => number [2] (λ f value, with_year f (2000 + Z.of_N value)%Z)
            | _ => number [4] (λ f value, with_year f (Z.of_N value))
            end
          else if (c =? ch "M")%N then
            match run with
            | 1 => number [2; 1] with_month
            | 2 => number [2] with_month
            | _ => find_map (λ index_name : nat * str,
                let name := match run with 3 => take 3 index_name.2 | _ => index_name.2 end in
                rest ← strip_prefix name input;
                recurse rest (with_month fields (N.of_nat index_name.1 + 1)))
                (imap pair MONTH_NAMES)
            end
          else if (c =? ch "D")%N then
            match run with
            | 1 => number [2; 1] with_day
            | _ => number [2] with_day
            end
          else if (c =? ch "d")%N then
            match run with
            | 1 => number [1] (λ f _, f)
            | _ => find_map (λ name : str,
                let name := match run with 2 => take 2 name | 3 => take 3 name | _ => name end in
                rest ← strip_prefix name input; recurse rest fields) WEEKDAY_NAMES
            end
          else if (c =? ch "W")%N then
            match run with
            | 1 => number [2; 1] with_week
            | _ => number [2] with_week
            end
          else if (c =? ch "G")%N then
            match run with
            | 2 => number [2] (λ f value, with_iso_year f (2000 + Z.of_N value)%Z)
            | _ => number [4] (λ f value, with_iso_year f (Z.of_N value))
            end
          else None
      end
  end.

Definition parse_date (text format : str) : option NaiveDate :=
  try_match (format_tokens format) text no_fields format text.
End parsing.

(** ** The walk and the tokens agree *)

Section format_facts.
Context `{Chrono}.

Definition expand (date : NaiveDate) (t : FormatToken) : str :=
  match t with Literal c => [c] | Run c run => date_expansion date c run end.

Lemma format_tokens_loop_acc fuel tokens s :
  format_tokens_loop fuel tokens s = tokens ++ format_tokens_loop fuel [] s.
Proof.
  revert tokens s; induction fuel as [|fuel IH]; intros tokens s; cbn [format_tokens_loop];
    [by rewrite app_nil_r|].
  destruct s as [|c s]; [by rewrite app_nil_r|].
  destruct (c =? ch "[")%N; [|destruct (is_date_token c)];
    rewrite (IH (_ ++ _)), (IH ([] ++ _)), !app_nil_l; by rewrite <- app_assoc.
Qed.

Lemma expand_literals date s : flat_map (expand date) (map Literal s) = s.
Proof. induction s as [|c s IH]; simpl; [done|]. by rewrite IH. Qed.

Lemma format_date_tokens_lemma date format :
  format_date date format = flat_map (expand date) (format_tokens format).
Proof.
  unfold format_date, format_tokens.
  enough (∀ fuel out s, format_date_loop fuel out date s
    = out ++ flat_map (expand date) (format_tokens_loop fuel [] s)) as -> by done.
  induction fuel as [|fuel IH]; intros out s; cbn [format_date_loop format_tokens_loop];
    [by rewrite app_nil_r|].
  destruct s as [|c s]; [by rewrite app_nil_r|]. cbn zeta.
  destruct (c =? ch "[")%N; [|destruct (is_date_token c)]; rewrite IH, (format_tokens_loop_acc _ (_ ++ _));
    unfold emit_date_token; rewrite app_nil_l, flat_map_app, <- app_assoc.
  - by rewrite expand_literals.
  - cbn [flat_map expand]. by rewrite app_nil_r.
  - done.
Qed.

(** Formatting a date writes out the expansion of each token of the
    format, the token list the reader of dates matches against. *)
Theorem format_date_tokens date format :
  format_date date format = flat_map (expand date) (format_tokens format).
Proof. apply format_date_tokens_lemma. Qed.

(** Every token of a format is a literal or a run of a token character. *)
Lemma format_tokens_runs format c run :
  Run c run ∈ format_tokens format → is_date_token c = true ∧ run ≠ 0.
Proof.
  unfold format_tokens. generalize (length format). intros fuel.
  revert format; induction fuel as [|fuel IH]; intros s; cbn [format_tokens_loop];
    [by intros ?%not_elem_of_nil|].
  destruct s as [|x s]; [by intros ?%not_elem_of_nil|].
  destruct (x =? ch "[")%N; [|destruct (is_date_token x) eqn:E];
    rewrite format_tokens_loop_acc, app_nil_l, elem_of_app; (intros [Hin|Hin]; [|by eapply IH]).
  - apply list_elem_of_In, in_map_iff in Hin as (? & [=] & _).
  - apply list_elem_of_singleton in Hin as [= -> ->]. done.
  - by apply list_elem_of_singleton in Hin.
Qed.

Lemma parse_date_sound_lemma text format date :
  parse_date text format = Some date → format_date date format = text.
Proof.
  unfold parse_date. generalize no_fields, text at 1, (format_tokens format).
  intros fields input tokens; revert fields input.
  induction tokens as [|t ts IH]; intros fields input; cbn [try_match].
  { destruct (negb _); [done|]. destruct (resolve_fields fields) as [d|]; [|done]. simpl.
    case_bool_decide; [|done]. by intros [= <-]. }
  cbn zeta. destruct t as [c|c run].
  { destruct (strip_prefix [c] input); simpl; [apply IH|done]. }
  repeat match goal with
  | |- context [if ?b then _ else _] => destruct b
  | |- context [match run with _ => _ end] => destruct run as [|run]
  end; try done; intros (x & _ & Hx)%find_map_Some;
    match type of Hx with
    | context [take_digits ?i ?w] => destruct (take_digits i w)
    | context [strip_prefix ?p ?i] => destruct (strip_prefix p i)
    end; simpl in Hx; (done || by eapply IH).
Qed.

(** A date that was read writes the text it was read from. *)
Theorem parse_date_sound text format date :
  parse_date text format = Some date → format_date date format = text.
Proof. apply parse_date_sound_lemma. Qed.
End format_facts.

(** ** Every written date is read back *)

(** The names [chrono] documents for its [%B], [%b], [%A] and [%a]. *)
Class ChronoNames `{Chrono} : Prop := {
  format_B_name d : MONTH_NAMES !! N.to_nat (month d - 1) = Some (format_B d);
  format_b_name d : format_b d = take 3 (format_B d);
  format_A_name d : format_A d ∈ WEEKDAY_NAMES;
  format_a_name d : format_a d = take 3 (format_A d);
  week_range d : (iso_week d <= 53)%N;
  weekday_range d : (num_days_from_sunday d < 7)%N;
}.

Lemma take_digits_padded w n rest :
  w ≠ 0 → (n < 10 ^ N.of_nat w)%N → take_digits (show_padded w n ++ rest) w = Some (n, rest).
Proof.
  intros Hw Hn. destruct (show_padded_spec w n Hw Hn) as (Hl & Hd & Hv).
  unfold take_digits. rewrite length_app, (proj2 (Nat.ltb_ge _ _)) by lia.
  rewrite take_app_length', drop_app_length', Hd by done. cbn [negb].
  rewrite parse_digits_spec; [by rewrite Hv| |done].
  intros E. rewrite E in Hl. simpl in Hl. lia.
Qed.

Lemma take_digits_shown n rest :
  take_digits (show_N n ++ rest) (length (show_N n)) = Some (n, rest).
Proof.
  destruct (show_N_spec n) as (Hd & Hv & Hne & _).
  unfold take_digits. rewrite length_app, (proj2 (Nat.ltb_ge _ _)) by lia.
  rewrite take_app_length, drop_app_length, Hd. cbn [negb].
  by rewrite parse_digits_spec, Hv.
Qed.

Lemma shown_width n : (n < 100)%N → length (show_N n) ∈ [2; 1].
Proof.
  intros Hn. destruct (show_N_spec n) as (_ & _ & Hne & Hl). specialize (Hl 2 ltac:(done) Hn).
  destruct (show_N n) as [|? [|? [|? ?]]]; simpl in *; [done|set_solver|set_solver|lia].
Qed.

Lemma shown_digit n : (n < 10)%N → length (show_N n) ∈ [1].
Proof.
  intros Hn. destruct (show_N_spec n) as (_ & _ & Hne & Hl). specialize (Hl 1 ltac:(done) Hn).
  destruct (show_N n) as [|? [|? ?]]; simpl in *; [done|set_solver|lia].
Qed.

Section complete.
Context `{ChronoLaws} `{!ChronoNames}.

(** What the token lets through of the year: [YYYY] four digits, [YY] those
    of this century. *)
Definition reads_back (date : NaiveDate) (t : FormatToken) : bool :=
  match t with
  | Literal _ => true
  | Run c run =>
      if (c =? ch "Y")%N then
        if (run =? 2)%nat then (2000 <=? year date)%Z && (year date <? 2100)%Z
        else (0 <=? year date)%Z && (year date <? 10000)%Z
      else if (c =? ch "G")%N then
        if (run =? 2)%nat then (2000 <=? iso_year date)%Z && (iso_year date <? 2100)%Z
        else (0 <=? iso_year date)%Z && (iso_year date <? 10000)%Z
      else true
  end.

(** The field the token fills when it reads its own expansion. *)
Definition assign (date : NaiveDate) (f : DateFields) (t : FormatToken) : DateFields :=
  match t with
  | Literal _ => f
  | Run c _ =>
      if (c =? ch "Y")%N then with_year f (year date)
      else if (c =? ch "M")%N then with_month f (month date)
      else if (c =? ch "D")%N then with_day f (day date)
      else if (c =? ch "W")%N then with_week f (iso_week date)
      else if (c =? ch "G")%N then with_iso_year f (iso_year date)
      else f
  end.

Lemma century_digits y :
  (2000 <= y < 2100)%Z →
  show_Z_padded 2 (Z.rem y 100) = show_padded 2 (Z.to_N (y - 2000)) ∧
  (2000 + Z.of_N (Z.to_N (y - 2000)))%Z = y.
Proof.
  intros Hy. assert (Z.rem y 100 = y - 2000)%Z as ->.
  { rewrite Z.rem_mod_nonneg by lia. symmetry. apply (Z.mod_unique _ _ 20); lia. }
  unfold show_Z_padded. rewrite (proj2 (Z.ltb_ge _ _)) by lia. split; [done|lia].
Qed.

Lemma year_digits y :
  (0 <= y < 10000)%Z →
  show_Z_padded 4 y = show_padded 4 (Z.to_N y) ∧ Z.of_N (Z.to_N y) = y.
Proof.
  intros Hy. unfold show_Z_padded. rewrite (proj2 (Z.ltb_ge _ _)) by lia. split; [done|lia].
Qed.

(** A number or a name that is there is tried. *)
Lemma number_tried (k : N * str → option NaiveDate) widths w input n rest :
  w ∈ widths → take_digits input w = Some (n, rest) → is_Some (k (n, rest)) →
  is_Some (find_map (λ width, vr ← take_digits input width; k vr) widths).
Proof. intros Hw Ht Hk. apply (find_map_is_Some _ _ w Hw). by rewrite Ht. Qed.

Lemma name_tried {A} (g : A → str) (k : A → str → option NaiveDate) l x rest :
  x ∈ l → is_Some (k x rest) →
  is_Some (find_map (λ x', r ← strip_prefix (g x') (g x ++ rest); k x' r) l).
Proof. intros Hx Hk. apply (find_map_is_Some _ _ x Hx). by rewrite strip_prefix_app. Qed.

Lemma month_index date :
  (N.to_nat (month date - 1), format_B date) ∈ imap pair MONTH_NAMES ∧
  (N.of_nat (N.to_nat (month date - 1)) + 1)%N = month date.
Proof.
  pose proof (month_range date). split; [|lia].
  apply list_elem_of_lookup. exists (N.to_nat (month date - 1)).
  by rewrite list_lookup_imap, format_B_name.
Qed.

Lemma shown_tried (k : N * str → option NaiveDate) widths n input :
  length (show_N n) ∈ widths → is_Some (k (n, input)) →
  is_Some (find_map (λ width, vr ← take_digits (show_N n ++ input) width; k vr) widths).
Proof. intros Hw. by apply number_tried with (1 := Hw), take_digits_shown. Qed.

Lemma short_or_padded (k : N * str → option NaiveDate) run n input :
  (n < 100)%N → is_Some (k (n, input)) →
  is_Some (match run with
    | 1 => find_map (λ width, vr ← take_digits
             (match run with 1 => show_N n | _ => show_padded 2 n end ++ input) width; k vr) [2; 1]
    | _ => find_map (λ width, vr ← take_digits
             (match run with 1 => show_N n | _ => show_padded 2 n end ++ input) width; k vr) [2]
    end).
Proof.
  intros Hn Hk. destruct run as [|[|run]];
    try (eapply (number_tried _ _ 2); [by left|by apply take_digits_padded|done]).
  apply shown_tried; [by apply shown_width|done].
Qed.

Lemma year_tried (k : Z → str → option NaiveDate) run y input :
  (if (run =? 2)%nat then (2000 <=? y)%Z && (y <? 2100)%Z else (0 <=? y)%Z && (y <? 10000)%Z) = true →
  is_Some (k y input) →
  is_Some (match run with
    | 2 => find_map (λ width, vr ← take_digits
             (match run with 2 => show_Z_padded 2 (Z.rem y 100) | _ => show_Z_padded 4 y end ++ input)
             width; k (2000 + Z.of_N vr.1)%Z vr.2) [2]
    | _ => find_map (λ width, vr ← take_digits
             (match run with 2 => show_Z_padded 2 (Z.rem y 100) | _ => show_Z_padded 4 y end ++ input)
             width; k (Z.of_N vr.1) vr.2) [4]
    end).
Proof.
  intros Hr Hk. destruct (decide (run = 2)) as [->|Hne].
  - simpl in Hr. apply andb_true_iff in Hr as [H2%Z.leb_le H3%Z.ltb_lt].
    destruct (century_digits y) as [-> Hy]; [lia|].
    eapply (number_tried (λ vr, k (2000 + Z.of_N vr.1)%Z vr.2) _ 2);
      [by left|apply take_digits_padded; [done|lia]|].
    cbn [fst snd]. by rewrite Hy.
  - apply Nat.eqb_neq in Hne as E. rewrite E in Hr.
    apply andb_true_iff in Hr as [H2%Z.leb_le H3%Z.ltb_lt].
    destruct (year_digits y) as [Hy Hy']; [lia|].
    assert (is_Some (find_map (λ width, vr ← take_digits (show_Z_padded 4 y ++ input) width;
      k (Z.of_N vr.1) vr.2) [4])) as Hgoal.
    { rewrite Hy. eapply (number_tried (λ vr, k (Z.of_N vr.1) vr.2) _ 4);
        [by left|apply take_digits_padded; [done|lia]|]. cbn [fst snd]. by rewrite Hy'. }
    destruct run as [|[|[|run]]]; done.
Qed.

Lemma try_match_step date c run ts input fields format full :
  is_date_token c = true → reads_back date (Run c run) = true →
  is_Some (try_match ts input (assign date fields (Run c run)) format full) →
  is_Some (try_match (Run c run :: ts) (date_expansion date c run ++ input) fields format full).
Proof.
  intros Hc Hr Hk. pose proof (month_range date) as Hm. pose proof (day_range date) as Hd.
  pose proof (week_range date) as Hw. pose proof (weekday_range date) as Hwd.
  destruct (month_index date) as [Hmi Hmn].
  assert (c = ch "Y" ∨ c = ch "M" ∨ c = ch "D" ∨ c = ch "d" ∨ c = ch "W" ∨ c = ch "G") as Hcs.
  { unfold is_date_token in Hc. cbn [existsb u] in Hc.
    rewrite !orb_true_iff, !N.eqb_eq in Hc. naive_solver. }
  cbn [try_match]. cbv zeta. clear Hc. unfold date_expansion.
  destruct Hcs as [->|[->|[->|[->|[->| ->]]]]]; unfold assign, reads_back in Hk, Hr;
    decide_chars_in Hk; decide_chars_in Hr; decide_chars.
  - apply (year_tried (λ y rest, try_match ts rest (with_year fields y) format full)); done.
  - destruct run as [|[|[|[|run]]]].
    + rewrite <- Hmn in Hk. apply (name_tried snd (λ x r, try_match ts r
        (with_month fields (N.of_nat x.1 + 1)) format full) _ _ _ Hmi Hk).
    + apply (shown_tried (λ vr, try_match ts vr.2 (with_month fields vr.1) format full)); [|done].
      apply shown_width. lia.
    + eapply (number_tried (λ vr, try_match ts vr.2 (with_month fields vr.1) format full) _ 2);
        [by left|apply take_digits_padded; [done|lia]|done].
    + rewrite format_b_name. rewrite <- Hmn in Hk. apply (name_tried (take 3 ∘ snd) (λ x r, try_match ts r
        (with_month fields (N.of_nat x.1 + 1)) format full) _ _ _ Hmi Hk).
    + rewrite <- Hmn in Hk. apply (name_tried snd (λ x r, try_match ts r
        (with_month fields (N.of_nat x.1 + 1)) format full) _ _ _ Hmi Hk).
  - apply (short_or_padded (λ vr, try_match ts vr.2 (with_day fields vr.1) format full)); [lia|done].
  - destruct run as [|[|[|[|run]]]];
      try exact (name_tried id (λ _ r, try_match ts r fields format full) _ _ _ (format_A_name date) Hk).
    + apply (shown_tried (λ vr, try_match ts vr.2 fields format full)); [|done].
      apply shown_digit. lia.
    + exact (name_tried (take 2) (λ _ r, try_match ts r fields format full) _ _ _ (format_A_name date) Hk).
    + rewrite format_a_name.
      exact (name_tried (take 3) (λ _ r, try_match ts r fields format full) _ _ _ (format_A_name date) Hk).
  - apply (short_or_padded (λ vr, try_match ts vr.2 (with_week fields vr.1) format full)); [lia|done].
  - apply (year_tried (λ y rest, try_match ts rest (with_iso_year fields y) format full)); done.
Qed.

(** The fields after a whole format, and the date they name. *)
Definition has_token (wanted : char) (tokens : list FormatToken) : bool :=
  existsb (λ t, match t with Run c _ => (c =? wanted)%N | Literal _ => false end) tokens.

Lemma assign_all {A} (field : DateFields → option A) (c : char) (v : A) date tokens f :
  (∀ f t, field (assign date f t) =
     if match t with Run c' _ => (c' =? c)%N | Literal _ => false end then Some v else field f) →
  field (fold_left (assign date) tokens f) = if has_token c tokens then Some v else field f.
Proof.
  intros Ha. revert f; induction tokens as [|t ts IH]; intros f; [done|]. simpl.
  rewrite IH, Ha. destruct (match t with Literal _ => false | Run c' _ => _ end); simpl; [|done].
  by destruct (has_token c ts).
Qed.

Ltac solve_assign :=
  let t := fresh in
  intros ? [?|? ?]; [done|]; unfold assign;
  repeat match goal with |- context [(?c =? ?x)%N] => destruct (N.eqb_spec c x); subst end;
  try done.

Lemma assign_fields date tokens :
  let f := fold_left (assign date) tokens no_fields in
  f_year f = (if has_token (ch "Y") tokens then Some (year date) else None) ∧
  f_month f = (if has_token (ch "M") tokens then Some (month date) else None) ∧
  f_day f = (if has_token (ch "D") tokens then Some (day date) else None) ∧
  f_iso_year f = (if has_token (ch "G") tokens then Some (iso_year date) else None) ∧
  f_week f = (if has_token (ch "W") tokens then Some (iso_week date) else None).
Proof.
  cbn zeta. split_and!.
  - apply (assign_all f_year (ch "Y") (year date) date tokens no_fields). solve_assign.
  - apply (assign_all f_month (ch "M") (month date) date tokens no_fields). solve_assign.
  - apply (assign_all f_day (ch "D") (day date) date tokens no_fields). solve_assign.
  - apply (assign_all f_iso_year (ch "G") (iso_year date) date tokens no_fields). solve_assign.
  - apply (assign_all f_week (ch "W") (iso_week date) date tokens no_fields). solve_assign.
Qed.

(** What a format must carry to name the date: the day itself, or the week of
    which it is the Monday. *)
Definition names_the_date (date : NaiveDate) (format : str) : Prop :=
  names_a_day format = true ∨
  (has_token (ch "G") (format_tokens format) = true ∧
   has_token (ch "W") (format_tokens format) = true ∧
   from_isoywd_monday_opt (iso_year date) (iso_week date) = Some date).

Lemma resolve_assigned date format :
  names_the_date date format →
  resolve_fields (fold_left (assign date) (format_tokens format) no_fields) = Some date.
Proof.
  destruct (assign_fields date (format_tokens format)) as (Hy & Hm & Hd & Hg & Hw).
  unfold resolve_fields. rewrite Hy, Hm, Hd, Hg, Hw. unfold names_the_date, names_a_day. cbv zeta.
  fold (has_token (ch "Y") (format_tokens format)) (has_token (ch "M") (format_tokens format))
    (has_token (ch "D") (format_tokens format)).
  pose proof (from_ymd_opt_fields date) as Hf.
  destruct (has_token (ch "Y") _), (has_token (ch "M") _), (has_token (ch "D") _); simpl;
    try (by intros _); (intros [?|(-> & -> & Hmon)]; [done|exact Hmon]).
Qed.

(** Every date a format can name is read back from its own name: the
    reader finds a date, which by [parse_date_sound] writes that very name. *)
Theorem parse_date_complete date format :
  forallb (reads_back date) (format_tokens format) = true → names_the_date date format →
  ∃ date', parse_date (format_date date format) format = Some date' ∧
           format_date date' format = format_date date format.
Proof.
  intros Hr Hn. enough (is_Some (parse_date (format_date date format) format)) as [date' Hd].
  { exists date'. split; [done|]. by apply parse_date_sound_lemma. }
  unfold parse_date. rewrite (format_date_tokens_lemma date format) at 1.
  pose proof (resolve_assigned date format Hn) as Hres.
  pose proof (format_tokens_runs format) as Hruns.
  revert Hres. generalize no_fields. induction (format_tokens format) as [|t ts IH]; intros f Hres.
  - cbn [try_match flat_map]. simpl in Hres. rewrite Hres. simpl.
    rewrite bool_decide_eq_true_2 by done. eauto.
  - cbn [forallb] in Hr. apply andb_true_iff in Hr as [Ht Hr]. cbn [flat_map fold_left] in *.
    assert (is_Some (try_match ts (flat_map (expand date) ts) (assign date f t) format
      (format_date date format))) as Hk.
    { apply IH; [done| |done]. intros c run ?. apply (Hruns c run). by right. }
    destruct t as [c|c run]; cbn [expand].
    + cbn [try_match]. cbv zeta. by rewrite strip_prefix_app.
    + apply try_match_step; [|done|done]. apply (Hruns c run). by left.
Qed.

(** ** Formats of fixed width read back exactly *)

(** A token that can be read in one way only: digits of a fixed width. *)
Definition fixed_token (t : FormatToken) : bool :=
  match t with
  | Literal _ => true
  | Run c run =>
      (c =? ch "Y")%N || (c =? ch "G")%N || ((c =? ch "M")%N && (run =? 2)%nat)
      || ((c =? ch "D")%N && negb (run =? 1)%nat) || ((c =? ch "W")%N && negb (run =? 1)%nat)
  end.

Lemma number_once (k : N * str → option NaiveDate) w n input :
  w ≠ 0 → (n < 10 ^ N.of_nat w)%N →
  find_map (λ width, vr ← take_digits (show_padded w n ++ input) width; k vr) [w] = k (n, input).
Proof. intros Hw Hn. simpl. rewrite take_digits_padded by done. simpl. by destruct (k _). Qed.

Lemma year_once (k : Z → str → option NaiveDate) run y input :
  (if (run =? 2)%nat then (2000 <=? y)%Z && (y <? 2100)%Z else (0 <=? y)%Z && (y <? 10000)%Z) = true →
  match run with
    | 2 => find_map (λ width, vr ← take_digits
             (match run with 2 => show_Z_padded 2 (Z.rem y 100) | _ => show_Z_padded 4 y end ++ input)
             width; k (2000 + Z.of_N vr.1)%Z vr.2) [2]
    | _ => find_map (λ width, vr ← take_digits
             (match run with 2 => show_Z_padded 2 (Z.rem y 100) | _ => show_Z_padded 4 y end ++ input)
             width; k (Z.of_N vr.1) vr.2) [4]
    end = k y input.
Proof.
  intros Hr. destruct (decide (run = 2)) as [->|Hne].
  - simpl in Hr. apply andb_true_iff in Hr as [H2%Z.leb_le H3%Z.ltb_lt].
    destruct (century_digits y) as [-> Hy]; [lia|].
    rewrite (number_once (λ vr, k (2000 + Z.of_N vr.1)%Z vr.2)) by (done || lia).
    cbn [fst snd]. by rewrite Hy.
  - apply Nat.eqb_neq in Hne as E. rewrite E in Hr.
    apply andb_true_iff in Hr as [H2%Z.leb_le H3%Z.ltb_lt].
    destruct (year_digits y) as [Hy Hy']; [lia|].
    assert (find_map (λ width, vr ← take_digits (show_Z_padded 4 y ++ input) width;
      k (Z.of_N vr.1) vr.2) [4] = k y input) as Hgoal.
    { rewrite Hy, (number_once (λ vr, k (Z.of_N vr.1) vr.2)) by (done || lia).
      cbn [fst snd]. by rewrite Hy'. }
    destruct run as [|[|[|run]]]; done.
Qed.

Lemma try_match_once date c run ts input fields format full :
  fixed_token (Run c run) = true → reads_back date (Run c run) = true →
  try_match (Run c run :: ts) (date_expansion date c run ++ input) fields format full
  = try_match ts input (assign date fields (Run c run)) format full.
Proof.
  intros Hf Hr. pose proof (month_range date) as Hm. pose proof (day_range date) as Hd.
  pose proof (week_range date) as Hw. unfold fixed_token in Hf.
  rewrite !orb_true_iff, !andb_true_iff, !negb_true_iff, !N.eqb_eq in Hf.
  cbn [try_match]. cbv zeta. unfold date_expansion, assign, reads_back in *.
  destruct Hf as [[[[->| ->]|[-> Hrun]]|[-> Hrun]]|[-> Hrun]];
    decide_chars_in Hr; decide_chars.
  - by apply (year_once (λ y rest, try_match ts rest (with_year fields y) format full)).
  - by apply (year_once (λ y rest, try_match ts rest (with_iso_year fields y) format full)).
  - apply Nat.eqb_eq in Hrun as ->.
    apply (number_once (λ vr, try_match ts vr.2 (with_month fields vr.1) format full)); [done|lia].
  - destruct run as [|[|run]]; [|done|];
    (apply (number_once (λ vr, try_match ts vr.2 (with_day fields vr.1) format full)); [done|lia]).
  - destruct run as [|[|run]]; [|done|];
    (apply (number_once (λ vr, try_match ts vr.2 (with_week fields vr.1) format full)); [done|lia]).
Qed.

Lemma parse_date_exact_lemma date format :
  forallb fixed_token (format_tokens format) = true →
  forallb (reads_back date) (format_tokens format) = true → names_the_date date format →
  parse_date (format_date date format) format = Some date.
Proof.
  intros Hf Hr Hn. unfold parse_date. rewrite (format_date_tokens_lemma date format) at 1.
  pose proof (resolve_assigned date format Hn) as Hres. revert Hres.
  generalize no_fields. induction (format_tokens format) as [|t ts IH]; intros f Hres.
  - cbn [try_match flat_map]. simpl in Hres. rewrite Hres. simpl. by rewrite bool_decide_eq_true_2.
  - cbn [forallb flat_map fold_left] in *. apply andb_true_iff in Hr as [Ht Hr].
    apply andb_true_iff in Hf as [Hft Hf]. destruct t as [c|c run]; cbn [expand].
    + cbn [try_match]. cbv zeta. rewrite strip_prefix_app. by apply IH.
    + rewrite try_match_once by done. by apply IH.
Qed.

(** A format of digits of fixed width, such as [YYYY/MM/DD], and its dates
    are inverse: a name is read back to the very date it was written from. *)
Theorem parse_date_exact date format :
  forallb fixed_token (format_tokens format) = true →
  forallb (reads_back date) (format_tokens format) = true → names_the_date date format →
  parse_date (format_date date format) format = Some date.
Proof. apply parse_date_exact_lemma. Qed.
End complete.

(** ** ISO dates *)

Section iso_dates.
Context `{Chrono} `{!ChronoLaws}.

(** The dates [%Y-%m-%d] writes in ten characters. *)
Definition four_digit (d : NaiveDate) : Prop := (0 <= year d < 10000)%Z.

Lemma format_ymd_shape d :
  four_digit d →
  ∃ y m dd, format_ymd d = y ++ u "-" ++ m ++ u "-" ++ dd ∧
    length y = 4 ∧ length m = 2 ∧ length dd = 2 ∧
    forallb is_ascii_digit (y ++ m ++ dd) = true ∧
    parse_digits y = Some (Z.to_N (year d)) ∧ parse_digits m = Some (month d) ∧
    parse_digits dd = Some (day d).
Proof.
  intros Hy. pose proof (month_range d). pose proof (day_range d). unfold four_digit in Hy.
  destruct (show_padded_spec 4 (Z.to_N (year d))) as (L1 & D1 & _); [done|simpl; lia|].
  destruct (show_padded_spec 2 (month d)) as (L2 & D2 & _); [done|simpl; lia|].
  destruct (show_padded_spec 2 (day d)) as (L3 & D3 & _); [done|simpl; lia|].
  do 3 eexists. split; [by apply format_ymd_digits|]. split_and!; try done.
  - by rewrite !forallb_app, D1, D2, D3.
  - apply parse_digits_padded; [done|simpl; lia].
  - apply parse_digits_padded; [done|simpl; lia].
  - apply parse_digits_padded; [done|simpl; lia].
Qed.

Lemma format_ymd_plain c d :
  four_digit d → is_ascii_digit c = false → c ≠ ch "-" → c ∉ format_ymd d.
Proof.
  intros Hy Hc Hd. destruct (format_ymd_shape d Hy) as (y & m & dd & -> & _ & _ & _ & Hdig & _).
  rewrite !forallb_app, !andb_true_iff in Hdig. destruct Hdig as (D1 & D2 & D3).
  rewrite !not_elem_of_app. split_and!; try (by apply digits_no_char);
    by intros [?|?%not_elem_of_nil]%elem_of_cons.
Qed.

Lemma format_ymd_no_space d : four_digit d → 32%N ∉ format_ymd d.
Proof.
  intros Hy. destruct (format_ymd_shape d Hy) as (y & m & dd & -> & _ & _ & _ & Hd & _).
  rewrite !forallb_app, !andb_true_iff in Hd. destruct Hd as (D1 & D2 & D3).
  rewrite !not_elem_of_app. split_and!; try (by apply digits_no_char);
    by intros [[=]|?%not_elem_of_nil]%elem_of_cons.
Qed.
End iso_dates.
