(* ===== verification/Calendar.v ===== *)
(** * A Gregorian calendar, for the witnesses

    A concrete instance of the calendar and the clock the crate calls
    ([External.v]), and proofs that it has the laws the theorems assume. *)

From S2P Require Import Prelude Strings External Dates.

(** ** The calendar *)

Definition leap (y : Z) : bool :=
  ((y mod 4 =? 0) && negb (y mod 100 =? 0) || (y mod 400 =? 0))%Z.

Definition month_days (y : Z) (m : N) : N :=
  match m with
  | 2 => if leap y then 29 else 28
  | 4 | 6 | 9 | 11 => 30
  | _ => 31
  end%N.

Definition valid_ymd (y : Z) (m d : N) : bool :=
  ((1 <=? m) && (m <=? 12) && (1 <=? d) && (d <=? month_days y m))%N.

Definition ymd : Type := Z * N * N.
Definition civil : Type := { date : ymd | valid_ymd date.1.1 date.1.2 date.2 = true }.

Definition civil_of (y : Z) (m d : N) : option civil :=
  match bool_dec (valid_ymd y m d) true with
  | left H => Some (exist _ (y, m, d) H)
  | right _ => None
  end.

(** Days since 1970-01-01. *)
Definition days_of (date : ymd) : Z :=
  let '(y, m, d) := date in
  let m' := Z.of_N m in
  let y' := if (m' <=? 2)%Z then (y - 1)%Z else y in
  let era := (y' / 400)%Z in
  let yoe := (y' - era * 400)%Z in
  let mp := ((m' + 9) mod 12)%Z in
  let doy := ((153 * mp + 2) / 5 + Z.of_N d - 1)%Z in
  let doe := (yoe * 365 + yoe / 4 - yoe / 100 + doy)%Z in
  (era * 146097 + doe - 719468)%Z.

Definition ymd_of_days (days : Z) : ymd :=
  let z := (days + 719468)%Z in
  let era := (z / 146097)%Z in
  let doe := (z - era * 146097)%Z in
  let yoe := ((doe - doe / 1460 + doe / 36524 - doe / 146096) / 365)%Z in
  let doy := (doe - (365 * yoe + yoe / 4 - yoe / 100))%Z in
  let mp := ((5 * doy + 2) / 153)%Z in
  let d := (doy - (153 * mp + 2) / 5 + 1)%Z in
  let m := (if (mp <? 10) then mp + 3 else mp - 9)%Z in
  let y := (yoe + era * 400 + if (m <=? 2) then 1 else 0)%Z in
  (y, Z.to_N m, Z.to_N d).

(** 0 is Sunday. *)
Definition weekday_of (date : ymd) : N := Z.to_N ((days_of date + 4) mod 7).

(** The ISO week is the one of its Thursday. *)
Definition thursday_of (date : ymd) : Z :=
  (days_of date - (days_of date + 3) mod 7 + 3)%Z.
Definition iso_year_of (date : ymd) : Z := (ymd_of_days (thursday_of date)).1.1.
Definition iso_week_of (date : ymd) : N :=
  N.min 53 (Z.to_N ((thursday_of date - days_of (iso_year_of date, 1%N, 1%N)) / 7 + 1)).
Definition monday_of (iso_year : Z) (week : N) : option civil :=
  let jan4 := days_of (iso_year, 1%N, 4%N) in
  let monday := (jan4 - (jan4 + 3) mod 7 + 7 * (Z.of_N week - 1))%Z in
  let '(y, m, d) := ymd_of_days monday in
  date ← civil_of y m d;
  if (iso_year_of (y, m, d) =? iso_year)%Z && (iso_week_of (y, m, d) =? week)%N
  then Some date else None.

Definition month_name (m : N) : str := default [] (MONTH_NAMES !! N.to_nat (m - 1)).
Definition weekday_name (w : N) : str :=
  default (u "Sunday") (WEEKDAY_NAMES !! N.to_nat ((w + 6) mod 7)).

Definition compare_ymd (a b : ymd) : comparison := Z.compare (days_of a) (days_of b).

Definition gregorian : Chrono := {|
  NaiveDate := civil;
  NaiveDate_eq_dec := _;
  date_cmp a b := compare_ymd (proj1_sig a) (proj1_sig b);
  from_ymd_opt := civil_of;
  from_isoywd_monday_opt := monday_of;
  year d := (proj1_sig d).1.1;
  month d := (proj1_sig d).1.2;
  day d := (proj1_sig d).2;
  num_days_from_sunday d := weekday_of (proj1_sig d);
  iso_year d := iso_year_of (proj1_sig d);
  iso_week d := iso_week_of (proj1_sig d);
  format_b d := take 3 (month_name (proj1_sig d).1.2);
  format_B d := month_name (proj1_sig d).1.2;
  format_a d := take 3 (weekday_name (weekday_of (proj1_sig d)));
  format_A d := weekday_name (weekday_of (proj1_sig d));
  format_ymd d := show_Z_padded 4 (proj1_sig d).1.1 ++ u "-" ++ show_padded 2 (proj1_sig d).1.2
                  ++ u "-" ++ show_padded 2 (proj1_sig d).2;
|}.

Lemma valid_ymd_spec y m d :
  valid_ymd y m d = true → (1 <= m <= 12)%N ∧ (1 <= d <= 31)%N.
Proof.
  unfold valid_ymd. rewrite !andb_true_iff, !N.leb_le. intros [[[? ?] ?] Hd].
  assert (month_days y m <= 31)%N; [|lia]. unfold month_days.
  repeat split_match; lia.
Defined.

Lemma civil_of_Some y m d (H : valid_ymd y m d = true) :
  civil_of y m d = Some (exist _ (y, m, d) H).
Proof.
  unfold civil_of. destruct (bool_dec _ _) as [H'|]; [|done]. do 2 f_equal.
  apply (proof_irrel H' H).
Defined.

Lemma gregorian_laws : @ChronoLaws gregorian.
Proof.
  split; simpl.
  - intros [[[y m] d] H]. apply civil_of_Some.
  - intros y m dd d. unfold civil_of. destruct (bool_dec _ _) as [H|]; [|done].
    intros E. assert (d = exist _ (y, m, dd) H) as -> by congruence. done.
  - intros [[[y m] d] H]. simpl in *. by destruct (valid_ymd_spec _ _ _ H).
  - intros [[[y m] d] H]. simpl in *. by destruct (valid_ymd_spec _ _ _ H).
  - intros d Hd. unfold show_Z_padded. by rewrite (proj2 (Z.ltb_ge _ _)) by lia.
Defined.

Lemma gregorian_names : @ChronoNames gregorian.
Proof.
  split; simpl.
  - intros [[[y m] d] H]. simpl in *. apply valid_ymd_spec in H as [Hm _]. unfold month_name.
    destruct (MONTH_NAMES !! N.to_nat (m - 1)) eqn:E; [done|].
    apply lookup_ge_None in E. simpl in E. lia.
  - done.
  - intros d. unfold weekday_name.
    destruct (WEEKDAY_NAMES !! _) eqn:E; simpl; [by eapply list_elem_of_lookup_2|].
    apply list_elem_of_In. vm_compute. tauto.
  - done.
  - intros d. unfold iso_week_of. lia.
  - intros d. unfold weekday_of.
    pose proof (Z.mod_pos_bound (days_of (proj1_sig d) + 4) 7). lia.
Defined.

(** ** The clock: nanoseconds since midnight *)

Definition nanos_per_minute : N := 60000000000.
Definition day_nanos : N := 86400000000000.
Definition clock_time : Type := { t : N | (t <? day_nanos)%N = true }.

Definition time_of (t : N) : option clock_time :=
  match bool_dec (t <? day_nanos)%N true with
  | left H => Some (exist _ t H)
  | right _ => None
  end.

Definition t_hour (t : N) : N := t / (60 * nanos_per_minute).
Definition t_minute (t : N) : N := t / nanos_per_minute mod 60.
Definition t_second (t : N) : N := t / 1000000000 mod 60.
Definition t_nano (t : N) : N := t mod 1000000000.
Definition t_make (h m s n : N) : N := ((h * 60 + m) * 60 + s) * 1000000000 + n.

Definition hms (h m s : N) : option clock_time :=
  if ((h <? 24) && (m <? 60) && (s <? 60))%N then time_of (t_make h m s 0) else None.

Definition midnight : clock_time := exist _ 0%N eq_refl.

(** The date [n] days later. *)
Definition add_days (d : civil) (n : Z) : civil :=
  let '(y, m, dd) := ymd_of_days (days_of (proj1_sig d) + n) in default d (civil_of y m dd).

(** The date [n] days before, when the calendar has it. *)
Definition civil_sub_days (d : civil) (n : Z) : option civil :=
  let day := (days_of (proj1_sig d) - n)%Z in
  let '(y, m, dd) := ymd_of_days day in
  match civil_of y m dd with
  | Some d' => if (days_of (proj1_sig d') =? day)%Z then Some d' else None
  | None => None
  end.

Definition gregorian_days : @ChronoDays gregorian :=
  @Build_ChronoDays gregorian (λ d : civil, days_of (proj1_sig d)) civil_sub_days.

Lemma gregorian_days_laws : @ChronoDaysLaws gregorian gregorian_days.
Proof.
  split; [done|]. intros d n d'. simpl. unfold civil_sub_days.
  destruct (ymd_of_days _) as [[y m] dd]. destruct (civil_of y m dd) as [d2|]; [|done].
  destruct (Z.eqb_spec (days_of (proj1_sig d2)) (days_of (proj1_sig d) - n)); [|done].
  by intros [= <-].
Qed.

Definition clock_add_minutes (now : @NaiveDate gregorian * clock_time) (minutes : N)
  : @NaiveDate gregorian * clock_time :=
  let total := (proj1_sig now.2 + minutes * nanos_per_minute)%N in
  (add_days now.1 (Z.of_N (total / day_nanos)), default midnight (time_of (total mod day_nanos))).

Definition wall_clock : @Clock gregorian := {|
  NaiveTime := clock_time;
  NaiveTime_eq_dec := _;
  from_hms_opt := hms;
  hour t := t_hour (proj1_sig t);
  minute t := t_minute (proj1_sig t);
  second t := t_second (proj1_sig t);
  nanosecond t := t_nano (proj1_sig t);
  with_second t s :=
    let t := proj1_sig t in
    if (s <? 60)%N then time_of (t_make (t_hour t) (t_minute t) s (t_nano t)) else None;
  with_nanosecond t n :=
    let t := proj1_sig t in
    if (n <? 1000000000)%N then time_of (t_make (t_hour t) (t_minute t) (t_second t) n) else None;
  add_minutes := clock_add_minutes;
  format_HM t :=
    show_padded 2 (t_hour (proj1_sig t)) ++ u ":" ++ show_padded 2 (t_minute (proj1_sig t));
|}.

(** Division facts by linear arithmetic on quotients and remainders. *)
Ltac div_lia := zify; Z.to_euclidean_division_equations; lia.

Lemma t_fields t :
  (t < day_nanos)%N →
  (t_hour t < 24)%N ∧ (t_minute t < 60)%N ∧ (t_second t < 60)%N ∧ (t_nano t < 1000000000)%N ∧
  t = t_make (t_hour t) (t_minute t) (t_second t) (t_nano t).
Proof.
  unfold t_hour, t_minute, t_second, t_nano, t_make, nanos_per_minute, day_nanos. intros Ht.
  repeat split; div_lia.
Defined.

Lemma t_make_fields h m s n :
  (h < 24)%N → (m < 60)%N → (s < 60)%N → (n < 1000000000)%N →
  let t := t_make h m s n in
  (t < day_nanos)%N ∧ t_hour t = h ∧ t_minute t = m ∧ t_second t = s ∧ t_nano t = n.
Proof.
  unfold t_hour, t_minute, t_second, t_nano, t_make, nanos_per_minute, day_nanos. intros.
  repeat split; div_lia.
Defined.

Lemma time_of_Some t : (t < day_nanos)%N → ∃ t', time_of t = Some t' ∧ proj1_sig t' = t.
Proof.
  intros Ht%N.ltb_lt. unfold time_of. destruct (bool_dec _ _) as [H|]; [|done].
  exists (exist _ t H). done.
Defined.

Lemma clock_time_eq (t t' : clock_time) : proj1_sig t = proj1_sig t' → t = t'.
Proof.
  destruct t as [t H], t' as [t' H']. simpl. intros ->. f_equal. apply (proof_irrel H H').
Defined.

Lemma wall_clock_laws : @ClockLaws gregorian wall_clock.
Proof.
  assert (∀ t : clock_time, (proj1_sig t < day_nanos)%N) as Hb
    by (intros [t H]; by apply N.ltb_lt).
  split; simpl.
  - intros t. by destruct (t_fields _ (Hb t)) as (? & _).
  - intros t. by destruct (t_fields _ (Hb t)) as (_ & ? & _).
  - intros t Hs Hn. destruct (t_fields _ (Hb t)) as (H1 & H2 & H3 & H4 & H5).
    unfold hms. rewrite (proj2 (N.ltb_lt _ _) H1), (proj2 (N.ltb_lt _ _) H2). simpl.
    rewrite <- Hs at 1. rewrite <- Hn at 1. rewrite <- H5.
    destruct (time_of_Some _ (Hb t)) as (t' & -> & Ht'). f_equal. by apply clock_time_eq.
  - intros h m s t. unfold hms. destruct (_ && _ && _)%bool eqn:E; [|done].
    apply andb_true_iff in E as [[H1%N.ltb_lt H2%N.ltb_lt]%andb_true_iff H3%N.ltb_lt].
    destruct (t_make_fields h m s 0 H1 H2 H3 ltac:(done)) as (Hd & ? & ? & ? & ?).
    destruct (time_of_Some _ Hd) as (t' & -> & Ht'). intros [= <-]. by rewrite Ht'.
  - intros t. destruct (t_fields _ (Hb t)) as (H1 & H2 & H3 & H4 & _).
    destruct (t_make_fields _ _ 0 _ H1 H2 ltac:(done) H4) as (Hd & ? & ? & ? & ?).
    destruct (time_of_Some _ Hd) as (t' & -> & Ht'). exists t'. by rewrite Ht'.
  - intros t. destruct (t_fields _ (Hb t)) as (H1 & H2 & H3 & H4 & _).
    destruct (t_make_fields _ _ _ 0 H1 H2 H3 ltac:(done)) as (Hd & ? & ? & ? & ?).
    destruct (time_of_Some _ Hd) as (t' & -> & Ht'). exists t'. by rewrite Ht'.
  - intros t t' H1 H2 H3 H4. apply clock_time_eq.
    destruct (t_fields _ (Hb t)) as (_ & _ & _ & _ & ->).
    destruct (t_fields _ (Hb t')) as (_ & _ & _ & _ & ->). by rewrite H1, H2, H3, H4.
  - done.
Defined.

(** ** Witnesses of the properties of [Dates.v] *)

Definition sample_date : civil := exist _ (2026%Z, 7%N, 9%N) eq_refl.

Lemma parse_date_sound_witness :
  @parse_date gregorian (u "2026/07/09") (u "YYYY/MM/DD") = Some sample_date ∧
  @format_date gregorian sample_date (u "YYYY/MM/DD") = u "2026/07/09".
Proof.
  assert (@parse_date gregorian (u "2026/07/09") (u "YYYY/MM/DD") = Some sample_date) as H
    by (vm_compute; reflexivity).
  split; [exact H|]. exact (@parse_date_sound gregorian _ _ sample_date H).
Defined.

Lemma parse_date_complete_witness :
  ∃ date', @parse_date gregorian (@format_date gregorian sample_date (u "dddd, MMMM D [of] YY"))
             (u "dddd, MMMM D [of] YY") = Some date'.
Proof.
  destruct (@parse_date_complete gregorian gregorian_laws gregorian_names sample_date
    (u "dddd, MMMM D [of] YY")) as (date' & H & _).
  - vm_compute. reflexivity.
  - left. vm_compute. reflexivity.
  - exists date'. exact H.
Defined.

Lemma parse_date_exact_witness :
  @parse_date gregorian (@format_date gregorian sample_date (u "YYYY/MM/DD")) (u "YYYY/MM/DD")
  = Some sample_date.
Proof.
  apply (@parse_date_exact gregorian gregorian_laws gregorian_names sample_date (u "YYYY/MM/DD"));
    [vm_compute; reflexivity|vm_compute; reflexivity|left; vm_compute; reflexivity].
Defined.

(** ** The order of dates *)

(** Days before March of the shifted year [y], and before the [mp]-th month from March. *)
Definition years_days (y : Z) : Z := (365 * y + y / 4 - y / 100 + y / 400)%Z.
Definition shift_year (y m : Z) : Z := if (m <=? 2)%Z then (y - 1)%Z else y.
Definition shift_month (m : Z) : Z := ((m + 9) mod 12)%Z.

Lemma days_of_split y m d :
  days_of (y, m, d) =
  (years_days (shift_year y (Z.of_N m)) + (153 * shift_month (Z.of_N m) + 2) / 5 + Z.of_N d - 1 - 719468)%Z.
Proof.
  unfold days_of, years_days, shift_month. change (if (Z.of_N m <=? 2)%Z then (y - 1)%Z else y) with (shift_year y (Z.of_N m)).
  generalize (shift_year y (Z.of_N m)). intros y'. generalize ((153 * ((Z.of_N m + 9) mod 12) + 2) / 5)%Z. intros k.
  cbv zeta. set (q := (y' / 400)%Z). assert (∃ r, y' = r + q * 400 ∧ y' - q * 400 = r)%Z as (r & Hy & ->) by (exists (y' - q * 400)%Z; lia).
  assert (y' / 4 = r / 4 + q * 100)%Z by (rewrite <- Z.div_add by done; f_equal; lia).
  assert (y' / 100 = r / 100 + q * 4)%Z by (rewrite <- Z.div_add by done; f_equal; lia). lia.
Qed.

(** A day of a month is before the next month, and one of February before March. *)
Lemma day_below y m d : valid_ymd y m d = true →
  let mp := shift_month (Z.of_N m) in
  (0 <= mp < 12)%Z ∧ (1 <= Z.of_N d)%Z ∧
  ((153 * mp + 2) / 5 + Z.of_N d <= (153 * (mp + 1) + 2) / 5)%Z ∧
  (years_days (shift_year y (Z.of_N m)) + (153 * mp + 2) / 5 + Z.of_N d <= years_days (shift_year y (Z.of_N m) + 1))%Z.
Proof.
  unfold valid_ymd. rewrite !andb_true_iff, !N.leb_le. intros [[[H1 H2] H3] H4]. cbv zeta.
  assert (∀ y, years_days y + 365 <= years_days (y + 1))%Z as Hstep by (intros y'; unfold years_days; Z.to_euclidean_division_equations; lia).
  assert (m = 1 ∨ m = 2 ∨ m = 3 ∨ m = 4 ∨ m = 5 ∨ m = 6 ∨ m = 7 ∨ m = 8 ∨ m = 9 ∨ m = 10 ∨ m = 11 ∨ m = 12)%N as Hm by lia.
  repeat (destruct Hm as [->|Hm]); try subst m; cbn [month_days] in H4; unfold shift_year, shift_month; cbn -[Z.div years_days];
    try (pose proof (Hstep y)); try (pose proof (Hstep (y - 1)%Z)); try (Z.to_euclidean_division_equations; lia).
  assert (leap y = true → years_days (y - 1) + 366 <= years_days (y - 1 + 1))%Z as Hleap.
  { unfold leap, years_days. rewrite orb_true_iff, andb_true_iff, negb_true_iff, Z.eqb_neq, !Z.eqb_eq. clear. intros El. div_lia. }
  destruct (leap y); [specialize (Hleap eq_refl)|]; Z.to_euclidean_division_equations; lia.
Qed.

Lemma days_of_inj a b : valid_ymd a.1.1 a.1.2 a.2 = true → valid_ymd b.1.1 b.1.2 b.2 = true → days_of a = days_of b → a = b.
Proof.
  destruct a as [[y m] d], b as [[y' m'] d']. cbn [fst snd]. intros Ha Hb. rewrite !days_of_split. intros Heq.
  pose proof (day_below _ _ _ Ha) as (Hmp & Hd & Hmonth & Hyear). pose proof (day_below _ _ _ Hb) as (Hmp' & Hd' & Hmonth' & Hyear').
  set (mp := shift_month (Z.of_N m)) in *. set (mp' := shift_month (Z.of_N m')) in *.
  set (yy := shift_year y (Z.of_N m)) in *. set (yy' := shift_year y' (Z.of_N m')) in *.
  assert (∀ a b, a < b → years_days (a + 1) <= years_days b)%Z as Hmono by (intros a b ?; unfold years_days; Z.to_euclidean_division_equations; lia).
  assert (yy = yy') as Hy by (destruct (Z.lt_trichotomy yy yy') as [Hlt|[?|Hlt]]; [apply Hmono in Hlt; div_lia|done|apply Hmono in Hlt; div_lia]).
  rewrite Hy in Heq. assert (mp = mp') as Hm by (destruct (Z.lt_trichotomy mp mp') as [?|[?|?]]; div_lia).
  rewrite Hm in Heq. assert (d = d') as -> by lia.
  unfold valid_ymd in Ha, Hb. rewrite !andb_true_iff, !N.leb_le in Ha, Hb.
  assert (m = m') as -> by (subst mp mp'; unfold shift_month in Hm; Z.to_euclidean_division_equations; lia).
  assert (y = y') as -> by (subst yy yy'; unfold shift_year in Hy; destruct (_ <=? _)%Z in Hy; lia). done.
Qed.

Lemma gregorian_ord : @ChronoOrd gregorian.
Proof.
  split. intros [a Ha] [b Hb] Hc. cbn in Hc. apply Z.compare_eq in Hc. cbn in Hc. apply days_of_inj in Hc; [|done..].
  subst b. f_equal. apply eq_pi, _.
Qed.
