(* ===== verification/Paths.v ===== *)
(** * Which paths sync ([thock_sync_core.rs]) *)

From S2P Require Import Prelude Strings External Samples Write.

Definition SYNCABLE_EXTENSIONS : list str := [u "md"; u "txt"; u "toml"; u "json"; u "csv"].
Definition IMAGE_EXTENSIONS : list str := [u "png"; u "jpg"; u "jpeg"; u "gif"; u "webp"].
Definition EXCLUDED_PREFIXES : list str :=
  [u ".thock/history/"; u ".thock/cache/"; u ".thock/sync/"; u ".git/"].
Definition MAX_PATH_BYTES : nat := 1024.

Definition SLASH : char := 47.
Definition BACKSLASH : char := 92.

Section paths.
Context `{Normalization}.

Definition well_formed_extension (path : str) : option str :=
  if (path == []) || (N.of_nat MAX_PATH_BYTES <? N.of_nat (utf8_len path))%N || negb (is_nfc path)
  then None
  else if starts_with [SLASH] path || ends_with [SLASH] path || contains [BACKSLASH] path then None
  else if existsb (λ segment, (segment == []) || (segment == u ".") || (segment == u ".."))
            (split_char SLASH path) then None
  else if existsb is_control path then None
  else if existsb (λ prefix, starts_with prefix path) EXCLUDED_PREFIXES then None
  else
    stem_extension ← rsplit_once (u ".") path;
    if (stem_extension.1 == []) || ends_with [SLASH] stem_extension.1 then None
    else Some stem_extension.2.

Definition is_syncable_path (path : str) : bool :=
  is_some_and (λ extension,
    existsb (λ allowed, eq_ignore_ascii_case extension allowed) SYNCABLE_EXTENSIONS)
    (well_formed_extension path).

Definition is_syncable_image_path (path images_dir : str) : bool :=
  let images_dir := trim_matches (N.eqb SLASH) images_dir in
  if images_dir == [] then false
  else match well_formed_extension path with
  | None => false
  | Some extension =>
      is_some_and (starts_with [SLASH]) (strip_prefix images_dir path)
      && existsb (λ allowed, eq_ignore_ascii_case extension allowed) IMAGE_EXTENSIONS
  end.

(** ** What a path that syncs looks like *)

(** The rules of a path that stays inside the vault: relative, no empty or
    dotted segment, no separator but the slash, no control character, and
    under no folder that sync ignores. *)
Record well_formed (path : str) : Prop := {
  wf_length : utf8_len path ≤ MAX_PATH_BYTES;
  wf_nfc : is_nfc path = true;
  wf_segments segment : segment ∈ split_char SLASH path → segment ≠ [] ∧ segment ≠ u "." ∧ segment ≠ u "..";
  wf_backslash : BACKSLASH ∉ path;
  wf_control c : c ∈ path → is_control c = false;
  wf_excluded prefix : prefix ∈ EXCLUDED_PREFIXES → starts_with prefix path = false;
}.

Lemma split_char_first sep s : head (split_char sep s) = Some [] ↔ s = [] ∨ starts_with [sep] s = true.
Proof.
  destruct s as [|c s]; simpl; [naive_solver|].
  rewrite andb_true_r, (N.eqb_sym sep). destruct (N.eqb_spec c sep); simpl; [naive_solver|].
  destruct (split_char sep s); simpl; naive_solver.
Qed.

Lemma split_char_nonempty sep s : split_char sep s ≠ [].
Proof. destruct s as [|c s]; simpl; [done|]. destruct (c =? sep)%N; [done|]. by destruct (split_char sep s). Qed.

Lemma split_char_last sep s : ends_with [sep] s = true → last (split_char sep s) = Some [].
Proof.
  intros [r ->]%ends_with_app. induction r as [|c r IH]; simpl; [by rewrite N.eqb_refl|].
  destruct (c =? sep)%N.
  - rewrite last_cons, IH. done.
  - destruct (split_char sep (r ++ [sep])) as [|x l] eqn:E; [by apply split_char_nonempty in E|].
    destruct l as [|y l]; [|exact IH].
    simpl in IH. injection IH as ->. exfalso. clear -E.
    (* one piece only: no separator *)
    assert (∀ s, split_char sep s = [[]] → s = []) as H0.
    { intros [|c s]; simpl; [done|]. destruct (c =? sep)%N.
      - intros [= H1]. by apply split_char_nonempty in H1.
      - by destruct (split_char sep s). }
    apply H0, app_nil in E as [_ ?]. done.
Qed.

Lemma segments_spec path :
  existsb (λ segment, (segment == []) || (segment == u ".") || (segment == u ".."))
    (split_char SLASH path) = false ↔
  ∀ segment, segment ∈ split_char SLASH path → segment ≠ [] ∧ segment ≠ u "." ∧ segment ≠ u "..".
Proof.
  rewrite existsb_false, Forall_forall. setoid_rewrite orb_false_iff. setoid_rewrite orb_false_iff.
  setoid_rewrite bool_decide_eq_false. split; intros H' s Hs; destruct (H' s Hs) as [? ?]; tauto.
Qed.

Lemma contains_char_false c s : contains [c] s = false ↔ c ∉ s.
Proof. rewrite <- find_char_None. unfold contains, is_some, is_some_and. by destruct (find_sub _ _). Qed.

Lemma rsplit_dot path stem e :
  rsplit_once (u ".") path = Some (stem, e) ↔ path = stem ++ u "." ++ e ∧ ch "." ∉ e.
Proof.
  split.
  - intros Hs. apply rsplit_once_Some in Hs as [-> Hlast]. split; [done|]. intros Hin.
    apply list_elem_of_split in Hin as (e1 & e2 & ->).
    specialize (Hlast (length (stem ++ u "." ++ e1))).
    replace (stem ++ u "." ++ e1 ++ ch "." :: e2) with ((stem ++ u "." ++ e1) ++ ch "." :: e2)
      in Hlast by (by rewrite <- !app_assoc).
    rewrite drop_app_length in Hlast. discriminate Hlast; len_lia.
  - intros [-> Hin]. apply (rsplit_once_mark (ch ".") [] [] stem e); [apply not_elem_of_nil|done].
Qed.

(** A slash at either end is an empty segment. *)
Lemma outer_slash path :
  starts_with [SLASH] path || ends_with [SLASH] path = true → [] ∈ split_char SLASH path.
Proof.
  intros [E|E]%orb_true_iff.
  - assert (head (split_char SLASH path) = Some []) as Hh by (apply split_char_first; by right).
    destruct (split_char SLASH path); simplify_eq/=. by left.
  - apply split_char_last in E. rewrite last_lookup in E. by eapply list_elem_of_lookup_2.
Qed.

Lemma well_formed_extension_spec_lemma path extension :
  well_formed_extension path = Some extension ↔
  well_formed path ∧
  ∃ stem, path = stem ++ u "." ++ extension ∧ ch "." ∉ extension ∧
          stem ≠ [] ∧ ends_with [SLASH] stem = false.
Proof.
  unfold well_formed_extension.
  assert ((N.of_nat MAX_PATH_BYTES <? N.of_nat (utf8_len path))%N = false ↔
    utf8_len path ≤ MAX_PATH_BYTES) as Hlen by (rewrite N.ltb_ge; lia).
  pose proof (segments_spec path) as Hseg.
  assert (existsb is_control path = false ↔ ∀ c, c ∈ path → is_control c = false) as Hctl
    by (by rewrite existsb_false, Forall_forall).
  assert (existsb (λ prefix, starts_with prefix path) EXCLUDED_PREFIXES = false ↔
    ∀ prefix, prefix ∈ EXCLUDED_PREFIXES → starts_with prefix path = false) as Hpre
    by (by rewrite existsb_false, Forall_forall).
  pose proof (contains_char_false BACKSLASH path) as Hbs. pose proof (rsplit_dot path) as Hdot.
  destruct ((path == []) || _ || _) eqn:E1.
  { split; [done|]. intros [[] (stem & -> & _)]. apply orb_true_iff in E1 as [E1|E1].
    - apply orb_true_iff in E1 as [E1|E1].
      + apply bool_decide_eq_true in E1. by destruct stem.
      + apply Hlen in wf_length0. congruence.
    - by rewrite wf_nfc0 in E1. }
  apply orb_false_iff in E1 as [[E1 El]%orb_false_iff En].
  destruct (starts_with [SLASH] path || _ || _) eqn:E2.
  { split; [done|]. intros [[] _]. exfalso. apply orb_true_iff in E2 as [E2|E2].
    - apply outer_slash in E2. by apply wf_segments0 in E2 as [? _].
    - apply Hbs in wf_backslash0. congruence. }
  apply orb_false_iff in E2 as [_ Eb].
  destruct (existsb _ (split_char SLASH path)) eqn:E3.
  { split; [done|]. intros [[] _]. apply Hseg in wf_segments0. congruence. }
  destruct (existsb is_control path) eqn:E4.
  { split; [done|]. intros [[] _]. apply Hctl in wf_control0. congruence. }
  destruct (existsb _ EXCLUDED_PREFIXES) eqn:E5.
  { split; [done|]. intros [[] _]. apply Hpre in wf_excluded0. congruence. }
  assert (well_formed path) as Hwf.
  { split; [by apply Hlen|by destruct (is_nfc path)|by apply Hseg|by apply Hbs|by apply Hctl|by apply Hpre]. }
  destruct (rsplit_once (u ".") path) as [[stem e]|] eqn:Er; cbn [mbind option_bind fst snd].
  - destruct (Hdot stem e) as [Hd _]. destruct (Hd eq_refl) as [Hp He].
    destruct ((stem == []) || ends_with [SLASH] stem) eqn:E6.
    + split; [done|]. intros (_ & stem' & Hp' & He' & Hne & Hsl).
      assert (Some (stem, e) = Some (stem', extension)) as E7 by (by apply Hdot).
      injection E7 as <- <-. rewrite Hsl, orb_false_r in E6. by bool_to_prop.
    + apply orb_false_iff in E6 as [E6 E6']. bool_to_prop. split.
      * intros [= <-]. split; [done|]. by exists stem.
      * intros (_ & stem' & Hp' & He' & _).
        assert (Some (stem, e) = Some (stem', extension)) as E7 by (by apply Hdot).
        congruence.
  - split; [done|]. intros (_ & stem' & Hp' & He' & _).
    assert (None = Some (stem', extension)) as E7 by (by apply Hdot). done.
Qed.

(** Exactly the well-formed paths have an extension, what follows their
    last dot; the checks on the first and last character are implied. *)
Theorem well_formed_extension_spec path extension :
  well_formed_extension path = Some extension ↔
  well_formed path ∧
  ∃ stem, path = stem ++ u "." ++ extension ∧ ch "." ∉ extension ∧
          stem ≠ [] ∧ ends_with [SLASH] stem = false.
Proof. apply well_formed_extension_spec_lemma. Qed.

Lemma well_formed_extension_bound path extension :
  well_formed_extension path = Some extension → 0%N ∉ path.
Proof.
  intros [[] _]%well_formed_extension_spec_lemma Hin. by apply wf_control0 in Hin.
Qed.

(** Two paths of the same extension up to case. *)
Lemma allowed_spec extension allowed :
  existsb (λ a, eq_ignore_ascii_case extension a) allowed = true ↔
  map ascii_lower extension ∈ map (map ascii_lower) allowed.
Proof.
  rewrite existsb_Exists, Exists_exists. unfold eq_ignore_ascii_case.
  setoid_rewrite bool_decide_eq_true. rewrite list_elem_of_In, in_map_iff.
  setoid_rewrite list_elem_of_In. split; intros (x & ? & ?); exists x; split; done.
Qed.

(** The text boundary and the picture boundary never overlap, and both
    stay inside the vault: a path either side accepts is well formed. *)
Theorem syncable_disjoint path images_dir :
  (is_syncable_path path = true → well_formed path) ∧
  (is_syncable_image_path path images_dir = true →
   well_formed path ∧ is_syncable_path path = false).
Proof.
  unfold is_syncable_path, is_syncable_image_path.
  destruct (well_formed_extension path) as [extension|] eqn:E; cbn [is_some_and].
  2:{ split; [done|]. by destruct (_ == _). }
  apply well_formed_extension_spec_lemma in E as [Hwf _]. split; [done|].
  destruct (_ == []); [done|]. intros [_ Hi%allowed_spec]%andb_true_iff. split; [done|].
  apply not_true_iff_false. rewrite allowed_spec. intros Ht. revert Hi Ht.
  generalize (map ascii_lower extension). intros e Hi%list_elem_of_In Ht%list_elem_of_In.
  vm_compute in Hi, Ht.
  repeat destruct Hi as [<-|Hi]; try done; repeat destruct Ht as [?|Ht]; done.
Qed.

(** A picture syncs from the images folder only: its path goes through
    that folder, which the setting names with or without slashes around. *)
Theorem syncable_image_folder path images_dir :
  is_syncable_image_path path images_dir = true →
  ∃ rest, path = trim_matches (N.eqb SLASH) images_dir ++ [SLASH] ++ rest ∧ rest ≠ [] ∧
          trim_matches (N.eqb SLASH) images_dir ≠ [].
Proof.
  unfold is_syncable_image_path. cbv zeta. case_bool_decide as Hd; [done|].
  destruct (well_formed_extension path) as [extension|] eqn:E; [|done].
  intros [Hs _]%andb_true_iff.
  destruct (strip_prefix _ path) as [after|] eqn:Es; [|done]. cbn [is_some_and] in Hs.
  apply strip_prefix_Some in Es. apply starts_with_app in Hs as [rest ->].
  exists rest. split_and!; [done| |done]. intros ->.
  apply well_formed_extension_spec_lemma in E as [[] _].
  assert (ends_with [SLASH] path = true) as Hend.
  { apply ends_with_app. rewrite app_nil_r in Es. eauto. }
  apply split_char_last in Hend. rewrite last_lookup in Hend.
  apply list_elem_of_lookup_2, wf_segments0 in Hend as [? _]. done.
Qed.
End paths.

(** ** On a concrete path *)

Lemma syncable_image_folder_witness :
  @is_syncable_image_path ascii_nfc (u "images/nested/cover.GIF") (u "/images/") = true ∧
  ∃ rest, u "images/nested/cover.GIF" = u "images" ++ [SLASH] ++ rest.
Proof.
  assert (@is_syncable_image_path ascii_nfc (u "images/nested/cover.GIF") (u "/images/") = true) as H
    by (vm_compute; reflexivity).
  split; [exact H|].
  destruct (@syncable_image_folder ascii_nfc _ _ H) as (rest & Hr & _). exists rest. exact Hr.
Defined.

Lemma syncable_disjoint_witness :
  @is_syncable_path ascii_nfc (u "daily/2026-10-02.md") = true ∧
  @well_formed ascii_nfc (u "daily/2026-10-02.md").
Proof.
  split; [vm_compute; reflexivity|].
  apply (proj1 (@syncable_disjoint ascii_nfc (u "daily/2026-10-02.md") (u "images"))).
  vm_compute. reflexivity.
Defined.
