(* ===== verification/Envelope.v ===== *)
(** * The envelope ([envelope.rs])

    The byte format of every blob and write payload: a magic, a nonce, then
    ciphertext and tag, bound to a context. The cipher (crate
    [chacha20poly1305]) and the digest are parameters; randomness is an
    argument. *)

From S2P Require Import Prelude Strings External Write Samples.

Definition MAGIC : list N := u "TVS1".
Definition NONCE_LEN : nat := 12.
Definition TAG_LEN : nat := 16.
Definition OVERHEAD : nat := length MAGIC + NONCE_LEN + TAG_LEN.

Inductive Context_ :=
  | Context_File (path blob_id : str)
  | Context_Write (client_id : str).

Definition associated_data (c : Context_) : list N :=
  match c with
  | Context_File path blob_id =>
      (u "thock-file/1" ++ [0%N]) ++ as_bytes path ++ [0%N] ++ as_bytes blob_id
  | Context_Write client_id => (u "thock-write/1" ++ [0%N]) ++ as_bytes client_id
  end.

Inductive SealError := TooShort | BadMagic | Authentication.

Section sealing.
Context `{Aead}.

Definition seal_with_nonce (key nonce : list N) (context : Context_) (plaintext : list N) : list N :=
  let associated := associated_data context in
  (* [unwrap_or_default]: an empty body for an impossible input *)
  let ciphertext := default [] (aead_encrypt key nonce associated plaintext) in
  MAGIC ++ nonce ++ ciphertext.

(** [seal]: the nonce is the one [OsRng] generates. *)
Definition seal (generated : list N) (key : list N) (context : Context_) (plaintext : list N)
  : list N := seal_with_nonce key generated context plaintext.

Definition open (key : list N) (context : Context_) (envelope : list N)
  : result (list N) SealError :=
  if (length envelope <? OVERHEAD)%nat then Err TooShort
  else
    let magic := take (length MAGIC) envelope in
    let rest := drop (length MAGIC) envelope in
    if magic != MAGIC then Err BadMagic
    else
      let nonce := take NONCE_LEN rest in
      let ciphertext := drop NONCE_LEN rest in
      let associated := associated_data context in
      match aead_decrypt key nonce associated ciphertext with
      | Some plaintext => Ok plaintext
      | None => Err Authentication
      end.
End sealing.

Section hashing.
Context `{Digest}.

Definition content_hash (envelope : list N) : str := hex_encode (sha256 envelope).

Definition key_check (key : list N) : str :=
  take 32 (hex_encode (sha256 (u "thock-vault-key-check/1" ++ key))).
End hashing.

(** ** What a seal promises *)

Section promises.
Context `{AeadLaws}.

(** What is sealed opens, under the same key and context, to what was
    sealed, and the envelope is [OVERHEAD] bytes longer. *)
Theorem open_seal key nonce context plaintext :
  length nonce = NONCE_LEN →
  is_Some (aead_encrypt key nonce (associated_data context) plaintext) →
  open key context (seal_with_nonce key nonce context plaintext) = Ok plaintext ∧
  length (seal_with_nonce key nonce context plaintext) = length plaintext + OVERHEAD.
Proof.
  intros Hn [c Hc]. unfold seal_with_nonce. rewrite Hc. cbn [default from_option id].
  apply encrypt_length in Hc as Hl.
  assert (length (MAGIC ++ nonce ++ c) = length plaintext + OVERHEAD) as Hlen.
  { rewrite !length_app, Hn, Hl. unfold OVERHEAD, TAG_LEN. lia. }
  split; [|done]. unfold open. rewrite Hlen, (proj2 (Nat.ltb_ge _ _)) by lia. cbv zeta.
  rewrite take_app_length, bool_decide_eq_true_2 by done. cbn [negb].
  rewrite drop_app_length, <- Hn, take_app_length, drop_app_length.
  by rewrite (decrypt_encrypt _ _ _ _ _ Hc).
Qed.

(** An input the cipher refuses seals to an envelope that no key opens,
    rather than to one that opens as something else. *)
Theorem refused_seal_never_opens key nonce context plaintext key' context' :
  length nonce = NONCE_LEN →
  aead_encrypt key nonce (associated_data context) plaintext = None →
  open key' context' (seal_with_nonce key nonce context plaintext) = Err TooShort.
Proof.
  intros Hn Hc. unfold seal_with_nonce. rewrite Hc. unfold open.
  rewrite (proj2 (Nat.ltb_lt _ _)); [done|]. rewrite !length_app, Hn.
  unfold OVERHEAD, TAG_LEN. simpl. lia.
Qed.

(** An envelope opens only in full: long enough, with the magic, and with
    a ciphertext that authenticates for this key and context; each failure is
    told apart, the first that applies. *)
Theorem open_spec key context envelope :
  match open key context envelope with
  | Ok plaintext =>
      ∃ nonce ciphertext, envelope = MAGIC ++ nonce ++ ciphertext ∧ length nonce = NONCE_LEN ∧
        TAG_LEN ≤ length ciphertext ∧
        aead_decrypt key nonce (associated_data context) ciphertext = Some plaintext
  | Err TooShort => length envelope < OVERHEAD
  | Err BadMagic => OVERHEAD ≤ length envelope ∧ ¬ ∃ rest, envelope = MAGIC ++ rest
  | Err Authentication =>
      ∃ nonce ciphertext, envelope = MAGIC ++ nonce ++ ciphertext ∧ length nonce = NONCE_LEN ∧
        TAG_LEN ≤ length ciphertext ∧
        aead_decrypt key nonce (associated_data context) ciphertext = None
  end.
Proof.
  unfold open. destruct (Nat.ltb_spec (length envelope) OVERHEAD) as [Hs|Hs]; [done|]. cbv zeta.
  case_bool_decide as Hm; cbn [negb].
  2:{ split; [done|]. intros [rest ->]. by rewrite take_app_length in Hm. }
  assert (envelope = MAGIC ++ take NONCE_LEN (drop (length MAGIC) envelope)
    ++ drop NONCE_LEN (drop (length MAGIC) envelope)) as He.
  { by rewrite take_drop, <- Hm, take_drop at 1. }
  assert (length (take NONCE_LEN (drop (length MAGIC) envelope)) = NONCE_LEN) as Hn.
  { rewrite length_take, length_drop. unfold OVERHEAD, TAG_LEN, NONCE_LEN in *. lia. }
  assert (TAG_LEN ≤ length (drop NONCE_LEN (drop (length MAGIC) envelope))) as Hc.
  { rewrite !length_drop. unfold OVERHEAD, TAG_LEN, NONCE_LEN in *. lia. }
  destruct (aead_decrypt _ _ _ _) eqn:Ed; eauto 6.
Qed.
End promises.

(** No two contexts are bound alike: with a path that syncs, which holds
    no NUL, the associated data determines the path and the blob, or the
    client, and never takes one kind for the other. *)
Theorem associated_data_inj c c' :
  let clean c := match c with
    | Context_File path blob_id => 0%N ∉ path ∧ Forall scalar path ∧ Forall scalar blob_id
    | Context_Write client_id => Forall scalar client_id
    end in
  clean c → clean c' → associated_data c = associated_data c' → c = c'.
Proof.
  cbv zeta. destruct c as [p b|w], c' as [p' b'|w']; intros Hc Hc'; unfold associated_data.
  - intros H%(inj (app _)). destruct Hc as (Hz & Hp & Hb), Hc' as (Hz' & Hp' & Hb').
    assert (∀ p, 0%N ∉ p → 0%N ∉ as_bytes p) as Hnz by (intros q Hq ?%as_bytes_zero; done).
    pose proof (find_char_app 0%N (as_bytes p) (as_bytes b) (Hnz _ Hz)) as H1.
    simpl in H. rewrite H, (find_char_app 0%N (as_bytes p') (as_bytes b') (Hnz _ Hz')) in H1.
    injection H1 as Hl. apply app_inj_1 in H as [H1 [= H2]]; [|done].
    apply as_bytes_inj in H1 as ->; [|done..]. by apply as_bytes_inj in H2 as ->.
  - by intros [=].
  - by intros [=].
  - intros H%(inj (app _)). by apply as_bytes_inj in H as ->.
Qed.

Section digests.
Context `{DigestLaws}.

(** The key check is 32 characters of hex, the content hash 64. *)
Theorem key_check_length key envelope :
  length (key_check key) = 32 ∧ length (content_hash envelope) = 64.
Proof.
  unfold key_check, content_hash.
  rewrite length_take, !hex_encode_length, !sha256_length. done.
Qed.
End digests.

(** ** On concrete bytes *)

Definition sample_key : list N := map N.of_nat (seq 0 32).
Definition sample_nonce : list N := map N.of_nat (seq 100 12).
Definition sample_context : Context_ := Context_File (u "daily/2026-10-02.md") (u "0123456789abcdef").

Lemma open_seal_witness :
  @open toy_aead sample_key sample_context
    (@seal_with_nonce toy_aead sample_key sample_nonce sample_context (u "# Today"))
  = Ok (u "# Today").
Proof.
  apply (@open_seal toy_aead toy_aead_laws sample_key sample_nonce sample_context (u "# Today"));
    [reflexivity|eexists; reflexivity].
Defined.

Lemma refused_seal_never_opens_witness :
  @open toy_aead sample_key sample_context
    (@seal_with_nonce toy_aead sample_key sample_nonce sample_context (replicate 101 0%N))
  = Err TooShort.
Proof.
  apply (@refused_seal_never_opens toy_aead sample_key sample_nonce sample_context
    (replicate 101 0%N)); reflexivity.
Defined.

Lemma associated_data_inj_witness :
  Context_Write (u "client-1") = Context_Write (u "client" ++ u "-1").
Proof.
  apply (associated_data_inj (Context_Write (u "client-1")) (Context_Write (u "client" ++ u "-1"))).
  - repeat constructor.
  - repeat constructor.
  - vm_compute. reflexivity.
Defined.

Lemma key_check_length_witness : length (@key_check toy_digest sample_key) = 32.
Proof. exact (proj1 (@key_check_length toy_digest toy_digest_laws sample_key [])). Defined.
