(* ===== verification/Inbox.v ===== *)
(** * The lines an inbox decision writes ([inbox.rs]) *)

From S2P Require Import Prelude Strings Write.

Definition INBOX_ARCHIVE_DIR : str := u "archives/inbox".
Definition TRIAGE_LOG_PATH : str := u "archives/inbox/triage-log.md".

Definition archive_path (inbox_path : str) : str :=
  let name := default inbox_path (last (split_char 47%N inbox_path)) in
  INBOX_ARCHIVE_DIR ++ u "/" ++ name.

(** [for line in content { if it closes the front matter { break } }] *)
Fixpoint skip_front_matter (content : list str) : list str :=
  match content with
  | [] => []
  | line :: content =>
      if (line == u "---") || (line == u "...") then content else skip_front_matter content
  end.

Definition inbox_has_body (note : str) : bool :=
  let lines := map trim_end (str_lines note) in
  let content := match lines with
    | first :: rest => if first == u "---" then skip_front_matter rest else lines
    | [] => []
    end in
  is_some (filter (λ line, negb (is_empty (trim line))) content !! 1).

Definition inbox_task_line (title stem : str) (has_body : bool) : str :=
  if has_body then u "- [ ] " ++ title ++ u " [[" ++ stem ++ u "]]"
  else u "- [ ] " ++ title.

(** [ · ] and [ → ] *)
Definition DOT : char := 0xB7.
Definition ARROW : char := 0x2192.
Definition DOT_SEPARATOR : str := [32%N; DOT; 32%N].
Definition ARROW_SEPARATOR : str := [32%N; ARROW; 32%N].

Definition triage_log_line (day title destination : str) (digest : option str) : str :=
  u "- " ++ day ++ DOT_SEPARATOR ++ title ++ ARROW_SEPARATOR ++ destination ++
  match digest with
  | Some digest => u " <!--inbox:" ++ digest ++ u "-->"
  | None => []
  end.

Inductive DecisionClass := Today | Soon | Someday | Archive | Discard | Other.

#[export] Instance DecisionClass_eq_dec : EqDecision DecisionClass.
Proof. solve_decision. Defined.

Definition DecisionClass_ALL : list DecisionClass := [Today; Soon; Someday; Archive; Discard; Other].

Definition DecisionClass_name (c : DecisionClass) : str :=
  match c with
  | Today => u "today"
  | Soon => u "soon"
  | Someday => u "someday"
  | Archive => u "archive"
  | Discard => u "discard"
  | Other => u "other"
  end.

Definition DecisionClass_from_name (name : str) : option DecisionClass :=
  let name := trim name in
  find (λ class, eq_ignore_ascii_case (DecisionClass_name class) name) DecisionClass_ALL.

Definition decision_class (destination soon_heading someday_heading : str) : DecisionClass :=
  let destination := trim destination in
  if starts_with (u "Today") destination then Today
  else
    let named := match strip_prefix (u "Backlog" ++ DOT_SEPARATOR) destination with
      | Some heading =>
          let heading := trim heading in
          if heading == trim soon_heading then Some Soon
          else if heading == trim someday_heading then Some Someday
          else None
      | None => None
      end in
    match named with
    | Some class => class
    | None =>
        if destination == u "Archived" then Archive
        else if destination == u "Discarded" then Discard
        else Other
    end.

Record TriageLogLine := mkTriageLogLine {
  tl_day : str;
  tl_title : str;
  tl_destination : str;
  tl_digest : str;
}.

Definition parse_triage_log_line (line : str) : option TriageLogLine :=
  rest ← strip_prefix (u "- ") (trim_end line);
  rest_marker ← rsplit_once (u " <!--inbox:") rest;
  digest ← strip_suffix (u "-->") rest_marker.2;
  let digest := trim digest in
  if is_empty digest || (64 <? utf8_len digest)%nat || existsb is_whitespace digest then None
  else
    day_rest ← split_once DOT_SEPARATOR rest_marker.1;
    title_destination ← rsplit_once ARROW_SEPARATOR day_rest.2;
    if is_empty (trim day_rest.1) || is_empty (trim title_destination.2) then None
    else Some (mkTriageLogLine day_rest.1 title_destination.1 title_destination.2 digest).

(** The line a read entry was written as. *)
Definition print_triage (t : TriageLogLine) : str :=
  triage_log_line (tl_day t) (tl_title t) (tl_destination t) (Some (tl_digest t)).

(** ** The log reads back *)

(** An entry the log can hold: a day and a destination that say something, a
    digest of 1 to 64 bytes without spaces, and separators where they split. *)
Record entry_ok (t : TriageLogLine) : Prop := {
  ok_day : trim (tl_day t) ≠ [];
  ok_destination : trim (tl_destination t) ≠ [];
  ok_digest : tl_digest t ≠ [] ∧ utf8_len (tl_digest t) ≤ 64 ∧
    Forall (λ c, is_whitespace c = false) (tl_digest t);
  ok_day_split : split_once DOT_SEPARATOR
    (tl_day t ++ DOT_SEPARATOR ++ tl_title t ++ ARROW_SEPARATOR ++ tl_destination t)
    = Some (tl_day t, tl_title t ++ ARROW_SEPARATOR ++ tl_destination t);
  ok_title_split : rsplit_once ARROW_SEPARATOR (tl_title t ++ ARROW_SEPARATOR ++ tl_destination t)
    = Some (tl_title t, tl_destination t);
}.

Lemma utf8_len_64 s : (64 <? utf8_len s)%nat = false ↔ utf8_len s ≤ 64.
Proof. apply Nat.ltb_ge. Qed.

Lemma no_whitespace s :
  existsb is_whitespace s = false ↔ Forall (λ c, is_whitespace c = false) s.
Proof. apply existsb_false. Qed.

Lemma print_triage_shape t :
  print_triage t = u "- " ++ ((tl_day t ++ DOT_SEPARATOR ++ tl_title t ++ ARROW_SEPARATOR
    ++ tl_destination t) ++ u " <!--inbox:" ++ tl_digest t ++ u "-->").
Proof. unfold print_triage, triage_log_line. by rewrite <- !app_assoc. Qed.

Lemma parse_print_ok t : entry_ok t → parse_triage_log_line (print_triage t) = Some t.
Proof.
  intros [Hday Hdest (Hne & Hlen & Hws) Hsplit Htitle].
  unfold parse_triage_log_line. rewrite print_triage_shape.
  set (body := tl_day t ++ DOT_SEPARATOR ++ tl_title t ++ ARROW_SEPARATOR ++ tl_destination t) in *.
  rewrite (trim_end_last _ (ch ">")).
  2:{ rewrite !app_assoc. change (u "-->") with (u "--" ++ [ch ">"]).
      by rewrite (app_assoc _ (u "--")), last_snoc. }
  2:{ done. }
  rewrite strip_prefix_app. cbn [mbind option_bind].
  change (u " <!--inbox:") with ([] ++ 32%N :: u "<!--inbox:").
  rewrite (rsplit_once_mark 32%N [] (u "<!--inbox:") body (tl_digest t ++ u "-->")).
  2:{ decide_closed. }
  2:{ rewrite elem_of_app. intros [Hin|Hin].
      - rewrite Forall_forall in Hws. by apply Hws in Hin.
      - apply list_elem_of_In in Hin. vm_compute in Hin. intuition discriminate. }
  cbn [mbind option_bind fst snd]. rewrite strip_suffix_app. cbn [mbind option_bind].
  rewrite trim_no_space by done. unfold is_empty.
  rewrite (bool_decide_eq_false_2 (tl_digest t = [])) by done.
  rewrite (proj2 (utf8_len_64 _) Hlen), (proj2 (no_whitespace _) Hws). cbn [orb].
  rewrite Hsplit. cbn [mbind option_bind fst snd]. rewrite Htitle.
  cbn [mbind option_bind fst snd].
  rewrite !bool_decide_eq_false_2 by done. cbn [orb]. by destruct t.
Qed.

(** A decision that is logged reads back into its parts. Its title is
    free; the day holds no middle dot and the destination no arrow. *)
Theorem triage_log_roundtrip day title destination digest :
  trim day ≠ [] → trim destination ≠ [] → DOT ∉ day → ARROW ∉ destination →
  digest ≠ [] → utf8_len digest ≤ 64 → Forall (λ c, is_whitespace c = false) digest →
  parse_triage_log_line (triage_log_line day title destination (Some digest))
  = Some (mkTriageLogLine day title destination digest).
Proof.
  intros. apply (parse_print_ok (mkTriageLogLine day title destination digest)).
  split; simpl; try done.
  - apply (split_once_mark DOT [32%N] [32%N]); [|done].
    apply not_elem_of_cons. split; [done|apply not_elem_of_nil].
  - apply (rsplit_once_mark ARROW [32%N] [32%N]); [|done].
    apply not_elem_of_cons. split; [done|apply not_elem_of_nil].
Qed.

(** What is read from a line is an entry the log can hold: written again,
    it reads back as the same entry. *)
Theorem parse_triage_stable line t :
  parse_triage_log_line line = Some t →
  entry_ok t ∧ parse_triage_log_line (print_triage t) = Some t.
Proof.
  intros Hp. enough (entry_ok t) as Hok by (split; [done|by apply parse_print_ok]).
  revert Hp. unfold parse_triage_log_line.
  destruct (strip_prefix _ _) as [rest|]; [|done]. cbn [mbind option_bind].
  destruct (rsplit_once (u " <!--inbox:") rest) as [[before marker]|]; [|done].
  cbn [mbind option_bind fst snd].
  destruct (strip_suffix _ marker) as [digest|]; [|done]. cbn [mbind option_bind].
  destruct (is_empty _ || _ || _) eqn:Ed; [done|].
  apply orb_false_iff in Ed as [[Ed1 Ed2]%orb_false_iff Ed3].
  destruct (split_once DOT_SEPARATOR before) as [[day after]|] eqn:Eday; [|done].
  cbn [mbind option_bind fst snd].
  destruct (rsplit_once ARROW_SEPARATOR after) as [[title dest]|] eqn:Et; [|done].
  cbn [mbind option_bind fst snd].
  destruct (is_empty _ || _) eqn:Ee; [done|]. apply orb_false_iff in Ee as [Ee1 Ee2].
  intros [= <-]. apply is_empty_false in Ed1, Ee1, Ee2. apply utf8_len_64 in Ed2.
  apply no_whitespace in Ed3.
  pose proof Et as Ha. apply rsplit_once_Some in Ha as [-> _].
  pose proof Eday as Hd. apply split_once_Some in Hd as [-> _].
  by split.
Qed.

(** ** Classes of decisions *)

(** A name spells a class exactly when it is that class's name, whatever
    its case and the space around it; so every class is spelt by its name. *)
Theorem from_name_spec name c :
  DecisionClass_from_name name = Some c ↔
  eq_ignore_ascii_case (DecisionClass_name c) (trim name) = true.
Proof.
  unfold DecisionClass_from_name, eq_ignore_ascii_case. cbv zeta. rewrite bool_decide_eq_true.
  generalize (map ascii_lower (trim name)) as s. intros s. unfold DecisionClass_ALL. cbn [find].
  split.
  - repeat (case_bool_decide; [intros [= <-]; done|]). done.
  - intros <-. by destruct c.
Qed.

(** The destinations the desk and the phone write for the vault's two
    backlog headings classify as those, whatever the headings are called. *)
Theorem decision_class_backlog soon_heading someday_heading :
  (trim soon_heading ≠ [] →
   decision_class (u "Backlog" ++ DOT_SEPARATOR ++ soon_heading) soon_heading someday_heading = Soon) ∧
  (trim someday_heading ≠ [] → trim someday_heading ≠ trim soon_heading →
   decision_class (u "Backlog" ++ DOT_SEPARATOR ++ someday_heading) soon_heading someday_heading
   = Someday).
Proof.
  assert (∀ h, trim h ≠ [] → trim (u "Backlog" ++ DOT_SEPARATOR ++ h)
    = (u "Backlog" ++ DOT_SEPARATOR) ++ trim_end h) as Htrim.
  { intros h Hh. apply (trim_app_keep (ch "B") (u "acklog" ++ DOT_SEPARATOR) h); done. }
  unfold decision_class. cbv zeta. split.
  - intros Hs. rewrite Htrim by done. rewrite strip_prefix_app, trim_trim_end.
    by rewrite bool_decide_eq_true_2.
  - intros Hs Hne. rewrite Htrim by done. rewrite strip_prefix_app, trim_trim_end.
    by rewrite bool_decide_eq_false_2, bool_decide_eq_true_2.
Qed.

(** The archived note keeps its file name, and lies in the archive folder
    itself, not below it. *)
Theorem archive_path_name inbox_path :
  ∃ folder name,
    archive_path inbox_path = INBOX_ARCHIVE_DIR ++ u "/" ++ name ∧
    inbox_path = folder ++ name ∧ ch "/" ∉ name ∧
    (folder = [] ∨ last folder = Some (ch "/")).
Proof.
  unfold archive_path. change 47%N with (ch "/"). set (sep := ch "/").
  enough (∃ folder name, last (split_char sep inbox_path) = Some name ∧
    inbox_path = folder ++ name ∧ sep ∉ name ∧ (folder = [] ∨ last folder = Some sep))
    as (f & n & Hl & Hi & Hs & Hf) by (exists f, n; by rewrite Hl).
  clearbody sep. induction inbox_path as [|c s IH].
  - exists [], []. split_and!; [done|done|apply not_elem_of_nil|by left].
  - cbn [split_char]. destruct IH as (f & n & Hl & -> & Hs & Hf).
    destruct (N.eqb_spec c sep) as [->|Hc].
    + exists (sep :: f), n. split_and!; [by rewrite last_cons, Hl|done|done|].
      right. destruct Hf as [-> |Hf]; [done|]. by rewrite last_cons, Hf.
    + destruct (split_char sep (f ++ n)) as [|x l] eqn:E; [done|].
      destruct l as [|y l].
      * simpl in Hl. injection Hl as ->. destruct Hf as [->|Hf].
        -- exists [], (c :: n). split_and!; [done|done| |by left].
           apply not_elem_of_cons. done.
        -- exists (c :: f), n. split_and!; [|done|done|right; by rewrite last_cons, Hf].
           exfalso. apply last_Some in Hf as [f' ->].
           assert (∀ s a, sep ∈ a → ∃ x y l, split_char sep (a ++ s) = x :: y :: l) as Htwo.
           { intros s a. induction a as [|d a IHa]; [by intros ?%not_elem_of_nil|]. intros Hin.
             cbn [app split_char]. destruct (N.eqb_spec d sep) as [->|Hd].
             - destruct (split_char sep (a ++ s)) as [|x l] eqn:E'; [|eauto].
               exfalso. clear -E'. destruct (a ++ s); simpl in E'; [done|].
               destruct (_ =? _)%N; [done|]. by destruct (split_char _ _).
             - apply elem_of_cons in Hin as [?|Hin]; [done|].
               destruct (IHa Hin) as (x & y & l & ->). eauto. }
           destruct (Htwo n (f' ++ [sep])) as (x & y & l & E'); [set_solver|congruence].
      * exists (c :: f), n. split_and!; [exact Hl|done|done|].
        right. destruct Hf as [->|Hf]; [|by rewrite last_cons, Hf]. exfalso.
        assert (∀ s, sep ∉ s → ∃ x, split_char sep s = [x]) as Hone.
        { intros s. induction s as [|d s IHs]; [eauto|]. intros Hin.
          apply not_elem_of_cons in Hin as [? Hin]. cbn [split_char].
          rewrite (proj2 (N.eqb_neq d sep)) by done. destruct (IHs Hin) as [z ->]. eauto. }
        destruct (Hone n Hs) as [z E']. simpl in E. congruence.
Qed.

(** ** On a concrete line *)

Definition sample_entry : TriageLogLine :=
  mkTriageLogLine (u "2026-11-02") (u "A" ++ ARROW_SEPARATOR ++ u "B" ++ DOT_SEPARATOR ++ u "C")
    (u "Archived") (u "4d1f9a02c7b3").

Lemma triage_log_roundtrip_witness :
  parse_triage_log_line (print_triage sample_entry) = Some sample_entry.
Proof.
  apply (triage_log_roundtrip (u "2026-11-02")
    (u "A" ++ ARROW_SEPARATOR ++ u "B" ++ DOT_SEPARATOR ++ u "C") (u "Archived") (u "4d1f9a02c7b3"));
    try (vm_compute; discriminate);
    try (decide_closed).
Defined.

Lemma parse_triage_stable_witness :
  parse_triage_log_line (u "- d" ++ DOT_SEPARATOR ++ u "t" ++ ARROW_SEPARATOR ++ u "Archived <!--inbox: abc -->  ")
  = Some (mkTriageLogLine (u "d") (u "t") (u "Archived") (u "abc")) ∧
  parse_triage_log_line (print_triage (mkTriageLogLine (u "d") (u "t") (u "Archived") (u "abc")))
  = Some (mkTriageLogLine (u "d") (u "t") (u "Archived") (u "abc")).
Proof.
  assert (parse_triage_log_line
    (u "- d" ++ DOT_SEPARATOR ++ u "t" ++ ARROW_SEPARATOR ++ u "Archived <!--inbox: abc -->  ")
    = Some (mkTriageLogLine (u "d") (u "t") (u "Archived") (u "abc"))) as H
    by (vm_compute; reflexivity).
  split; [exact H|]. exact (proj2 (parse_triage_stable _ _ H)).
Defined.

Lemma decision_class_backlog_witness :
  decision_class (u "Backlog" ++ DOT_SEPARATOR ++ u "Maybe ") (u "Next up") (u "Maybe ") = Someday.
Proof.
  apply (proj2 (decision_class_backlog (u "Next up") (u "Maybe "))); vm_compute; discriminate.
Defined.
