(* ===== verification/Reminder.v ===== *)
(** * Reminders: the token and id grammar and the edits ([reminder.rs])

    The [(@...)] token and the [<!--rem:...-->] id, where a token counts, a
    reminder's state, and the edits every writer makes to a home line.
    Positions are character indices into the line they were read from. *)

From S2P Require Import Prelude Strings External Write Lines HeadingKey LineHash Sections Dates.

Definition ID_LENGTH : nat := 12.
Definition DEFAULT_DAY_HEADING : str := u "Reminders".
Definition ID_OPEN : str := u "<!--rem:".
Definition COMMENT_OPEN : str := u "<!--".
Definition COMMENT_CLOSE : str := u "-->".
Definition CALENDAR_MARKER : str := u "<!--gcal:".
Definition TOKEN_OPEN : str := u "(@".
Definition STRIKE : str := u "~~".
Definition TEMPLATES_FOLDER : str := u "templates/".

(** ** Daily notes *)

Record DailyNotes := mkDailyNotes {
  daily_dir : str;
  daily_filename : str;
}.

Definition DailyNotes_default : DailyNotes := mkDailyNotes (u "daily") (u "YYYY-MM-DD").

Definition day_of `{Chrono} (notes : DailyNotes) (path : str) : option NaiveDate :=
  if negb (names_a_day (daily_filename notes)) then None
  else
    let dir := trim_matches (N.eqb (ch "/")) (daily_dir notes) in
    below ← if is_empty dir then Some path
            else (after ← strip_prefix dir path; strip_prefix (u "/") after);
    stem ← strip_suffix (u ".md") below;
    parse_date stem (daily_filename notes).

Record ReminderConfig := mkReminderConfig {
  config_daily : DailyNotes;
  day_headings : list str;
}.

Definition ReminderConfig_default : ReminderConfig :=
  mkReminderConfig DailyNotes_default [DEFAULT_DAY_HEADING].

Definition is_reminder_path (path : str) (template_paths : list str) : bool :=
  let is_markdown :=
    is_some_and (λ stem_extension : str * str,
      negb (is_empty stem_extension.1) && eq_ignore_ascii_case stem_extension.2 (u "md"))
      (rsplit_once (u ".") path) in
  if negb is_markdown || starts_with (u ".thock/") path || starts_with (u "routines/") path
     || starts_with TEMPLATES_FOLDER path
  then false
  else negb (existsb (λ template, path == trim_start_matches (N.eqb (ch "/")) template) template_paths).

(** ** Comments, code spans and ids *)

Definition id_marker (id : str) : str := ID_OPEN ++ id ++ COMMENT_CLOSE.

(** Twelve lowercase hex digits. *)
Definition is_id (text : str) : bool :=
  (length text =? ID_LENGTH)%nat
  && forallb (λ b, is_ascii_digit b || ((97 <=? b) && (b <=? 102))%N) text.

Definition hex_lower (d : N) : char := (if d <? 10 then 48 + d else 87 + d)%N.

(** [format!("{byte:02x}")] of each byte. *)
Definition id_from_bytes (bytes : list N) : str :=
  flat_map (λ byte, [hex_lower (byte / 16); hex_lower (byte mod 16)]%N) bytes.

Definition id_in_comment (comment : str) : option str :=
  after ← strip_prefix ID_OPEN comment;
  id ← strip_suffix COMMENT_CLOSE after;
  if is_id id then Some id else None.

(** The loop is the one that closes a code span of a heading. *)
Definition closing_backticks (line : str) (from run : nat) : option nat :=
  closing_run (S (length line)) line run from.

Record InlineScan := mkInlineScan {
  excluded : list range;
  scan_id : option str;
  comment_open : bool;
  unclosed_comment : option nat;
}.

Fixpoint scan_inline_loop (fuel : nat) (line : str) (cursor : nat) (ex : list range)
    (id : option str) : InlineScan :=
  match fuel with
  | 0 => mkInlineScan ex id false None
  | S fuel =>
      if (cursor <? length line)%nat then
        let rest := drop cursor line in
        match strip_prefix COMMENT_OPEN rest with
        | Some inside =>
            let len :=
              if starts_with (u ">") inside then Some (length COMMENT_OPEN + 1)
              else if starts_with (u "->") inside then Some (length COMMENT_OPEN + 2)
              else (λ offset, length COMMENT_OPEN + offset + length COMMENT_CLOSE)
                     <$> find_sub COMMENT_CLOSE inside in
            match len with
            | Some len =>
                let end_ := cursor + len in
                let id := match id_in_comment (take len (drop cursor line)) with
                  | Some found => Some found
                  | None => id
                  end in
                scan_inline_loop fuel line end_ (ex ++ [mkRange cursor end_]) id
            | None =>
                mkInlineScan (ex ++ [mkRange cursor (length line)]) id true (Some cursor)
            end
        | None =>
            if is_some_and (is_char BACKTICK) (line !! cursor) then
              let run := count_while (is_char BACKTICK) rest in
              match closing_backticks line (cursor + run) run with
              | Some end_ => scan_inline_loop fuel line end_ (ex ++ [mkRange cursor end_]) id
              | None => scan_inline_loop fuel line (cursor + run) ex id
              end
            else scan_inline_loop fuel line (cursor + 1) ex id
        end
      else mkInlineScan ex id false None
  end.

Definition scan_inline (line : str) (in_comment : bool) : InlineScan :=
  if in_comment then
    match find_sub COMMENT_CLOSE line with
    | Some close =>
        let cursor := close + length COMMENT_CLOSE in
        scan_inline_loop (S (length line)) line cursor [mkRange 0 cursor] None
    | None => mkInlineScan [mkRange 0 (length line)] None true None
    end
  else scan_inline_loop (S (length line)) line 0 [] None.

Definition writable_end (line : str) : nat :=
  default (length line) (unclosed_comment (scan_inline line false)).

(** ** Tasks *)

Fixpoint strip_quote_loop (fuel : nat) (rest : str) : str :=
  match fuel with
  | 0 => rest
  | S fuel =>
      match strip_prefix (u ">") rest with
      | Some inner => strip_quote_loop fuel (trim_start inner)
      | None => rest
      end
  end.

Definition strip_quote_markers (text : str) : str :=
  strip_quote_loop (length text) (trim_start text).

Inductive Task := Task_Open | Task_Done.

#[export] Instance Task_eq_dec : EqDecision Task.
Proof. solve_decision. Defined.

Definition task_of (line : str) : option (Task * nat) :=
  let trimmed := strip_quote_markers line in
  let after_marker := strip_list_marker trimmed in
  if (length after_marker =? length trimmed)%nat then None
  else
    let mark := length line - length after_marker + 1 in
    box ← get_range after_marker 0 4;
    if box == u "[ ] " then Some (Task_Open, mark)
    else if (box == u "[x] ") || (box == u "[X] ") then Some (Task_Done, mark)
    else None.

Inductive ReminderState := State_Open | State_Closed | State_Dropped.

#[export] Instance ReminderState_eq_dec : EqDecision ReminderState.
Proof. solve_decision. Defined.

Inductive Group := Overdue | Today_ | Upcoming | Done.

(** ** Dues and tokens *)

Section reminders.
Context `{Clock}.

Record Due := mkDue {
  due_date : NaiveDate;
  due_time : option NaiveTime;
}.

#[global] Instance Due_eq_dec : EqDecision Due.
Proof. solve_decision. Defined.

Definition Due_new (date : NaiveDate) (time : option NaiveTime) : Due :=
  mkDue date (time ← time; time ← with_second time 0; with_nanosecond time 0).

(** [Due::at] *)
Definition due_at (due : Due) (date_only_at : NaiveTime) : NaiveDate * NaiveTime :=
  (due_date due, default date_only_at (due_time due)).

Definition digits_or_dash (index : nat) (b : char) : bool :=
  (index =? 4)%nat || (index =? 7)%nat || is_ascii_digit b.

Definition parse_iso_date (text : str) : option NaiveDate :=
  if negb (length text =? 10)%nat || (text !! 4 != Some (ch "-")) || (text !! 7 != Some (ch "-"))
     || negb (forallb id (imap digits_or_dash text))
  then None
  else
    y ← parse_digits (take 4 text);
    m ← parse_digits (take 2 (drop 5 text));
    d ← parse_digits (drop 8 text);
    from_ymd_opt (Z.of_N y) m d.

Definition parse_clock (text : str) : option NaiveTime :=
  hours_minutes ← split_once (u ":") text;
  let hours := hours_minutes.1 in
  let minutes := hours_minutes.2 in
  if negb ((1 <=? length hours)%nat && (length hours <=? 2)%nat) || negb (length minutes =? 2)%nat
     || negb (forallb is_ascii_digit (hours ++ minutes))
  then None
  else h ← parse_digits hours; m ← parse_digits minutes; from_hms_opt h m 0.

Definition Due_parse (text : str) : option Due :=
  match split_once (u " ") text with
  | Some (date, time) =>
      date ← parse_iso_date date; time ← parse_clock time; Some (Due_new date (Some time))
  | None => date ← parse_iso_date text; Some (Due_new date None)
  end.

(** [impl Display for Due] *)
Definition show_due (due : Due) : str :=
  format_ymd (due_date due) ++
  match due_time due with Some time => u " " ++ format_HM time | None => [] end.

Inductive When :=
  | When_Date (date : NaiveDate)
  | When_DateTime (date : NaiveDate) (time : NaiveTime)
  | When_Time (time : NaiveTime).

Definition when_due (w : When) (day : option NaiveDate) : option Due :=
  match w with
  | When_Date date => Some (Due_new date None)
  | When_DateTime date time => Some (Due_new date (Some time))
  | When_Time time => (λ day, Due_new day (Some time)) <$> day
  end.

Definition parse_when (text : str) : option When :=
  match split_once (u " ") text with
  | Some (date, time) =>
      date ← parse_iso_date date; time ← parse_clock time; Some (When_DateTime date time)
  | None =>
      if contains (u ":") text then When_Time <$> parse_clock text
      else When_Date <$> parse_iso_date text
  end.

Record Token := mkToken {
  token_range : range;
  token_when : When;
  token_struck : bool;
}.

Fixpoint last_token_loop (fuel : nat) (line : str) (ex : list range) (search : nat)
    (found : option Token) : option Token :=
  match fuel with
  | 0 => found
  | S fuel =>
      match get_from line search ≫= find_sub TOKEN_OPEN with
      | None => found
      | Some offset =>
          let start := search + offset in
          let search := start + length TOKEN_OPEN in
          if ends_with [ch "\"] (take start line) then last_token_loop fuel line ex search found
          else match find_sub (u ")") (drop search line) with
          | None => found
          | Some close =>
              let end_ := search + close + 1 in
              if existsb (λ r, (r_start r <? end_)%nat && (start <? r_end r)%nat) ex
              then last_token_loop fuel line ex search found
              else match parse_when (take (end_ - 1 - search) (drop search line)) with
              | None => last_token_loop fuel line ex search found
              | Some when_ =>
                  let struck := ends_with STRIKE (take start line)
                                && starts_with STRIKE (drop end_ line) in
                  let range :=
                    if struck then mkRange (start - length STRIKE) (end_ + length STRIKE)
                    else mkRange start end_ in
                  last_token_loop fuel line ex search (Some (mkToken range when_ struck))
              end
          end
      end
  end.

Definition last_token (line : str) (ex : list range) : option Token :=
  last_token_loop (S (length line)) line ex 0 None.

(** The canonical token. *)
Definition token_text (due : Due) (home_day : option NaiveDate) : str :=
  match due_time due with
  | Some time =>
      if home_day == Some (due_date due) then TOKEN_OPEN ++ format_HM time ++ u ")"
      else TOKEN_OPEN ++ show_due due ++ u ")"
  | None => TOKEN_OPEN ++ show_due due ++ u ")"
  end.

Definition group (state : ReminderState) (due : option Due) (today : NaiveDate) : option Group :=
  if state != State_Open then Some Done
  else
    due ← due;
    Some match date_cmp (due_date due) today with
      | Lt => Overdue
      | Eq => Today_
      | Gt => Upcoming
      end.

Definition snoozed_due (now : NaiveDate * NaiveTime) (minutes : N) : Due :=
  let later := add_minutes now minutes in
  let floor := default later
    (time ← with_second later.2 0; time ← with_nanosecond time 0; Some (later.1, time)) in
  let rounded := if floor == later then later else add_minutes floor 1 in
  Due_new rounded.1 (Some rounded.2).

(** ** Reading a line *)

Record LineReminder := mkLineReminder {
  lr_id : option str;
  lr_token : option Token;
  lr_task : option Task;
  lr_due : option Due;
}.

(** [LineReminder::state] *)
Definition reminder_state (r : LineReminder) : ReminderState :=
  match lr_token r with
  | None => State_Dropped
  | Some token =>
      if token_struck token || (lr_task r == Some Task_Done) then State_Closed else State_Open
  end.

Record ReadLine := mkReadLine {
  rl_reminder : option LineReminder;
  rl_comment_open : bool;
}.

Definition read_line (line : str) (day : option NaiveDate) (in_comment : bool) : ReadLine :=
  let scan := scan_inline line in_comment in
  if contains CALENDAR_MARKER line then mkReadLine None (comment_open scan)
  else
    let token := last_token line (excluded scan) in
    let task := fst <$> task_of line in
    let reminder :=
      if is_some token || is_some (scan_id scan)
      then Some (mkLineReminder (scan_id scan) token task
                   (token ← token; when_due (token_when token) day))
      else None in
    mkReadLine reminder (comment_open scan).

Definition parse_line (line : str) (day : option NaiveDate) : option LineReminder :=
  rl_reminder (read_line line day false).

(** ** Editing a home line *)

Definition replace_range (line : str) (r : range) (with_ : str) : str :=
  take (r_start r) line ++ with_ ++ drop (r_end r) line.

Definition remove_range (line : str) (r : range) : str :=
  let before := take (r_start r) line in
  let after := drop (r_end r) line in
  if is_empty (trim after) then trim_end before
  else if negb (is_some_and is_whitespace (head after)) then trim_end before ++ after
  else if is_empty before || is_some_and is_whitespace (last before) then before ++ trim_start after
  else before ++ after.

Fixpoint trailing_comments_loop (fuel : nat) (tail : str) : str :=
  match fuel with
  | 0 => tail
  | S fuel =>
      if ends_with COMMENT_CLOSE tail then
        match rfind_sub COMMENT_OPEN tail with
        | None => tail
        | Some open =>
            match get_range tail (open + length COMMENT_OPEN) (length tail - length COMMENT_CLOSE) with
            | None => tail
            | Some inner =>
                if contains COMMENT_CLOSE inner then tail
                else trailing_comments_loop fuel (trim_end (take open tail))
            end
        end
      else tail
  end.

Definition trailing_comments_start (line : str) : nat :=
  let tail := trim_end line in
  length (trailing_comments_loop (S (length tail)) tail).

Definition insert_before_trailing_comments (line token : str) : str :=
  let split := trailing_comments_start (take (writable_end line) line) in
  let head := take split line in
  let comments := trim (drop split line) in
  head
  ++ (if negb (is_empty head) && negb (ends_with [32%N] head) then [32%N] else [])
  ++ token
  ++ (if is_empty comments then [] else [32%N] ++ comments).

Definition close (line : str) : option str :=
  reminder ← parse_line line None;
  if reminder_state reminder != State_Open then None
  else match task_of line with
  | Some (Task_Open, mark) => Some (replace_range line (mkRange mark (mark + 1)) (u "x"))
  | _ =>
      token ← lr_token reminder;
      let text := take (r_end (token_range token) - r_start (token_range token))
                    (drop (r_start (token_range token)) line) in
      Some (replace_range line (token_range token) (STRIKE ++ text ++ STRIKE))
  end.

Definition reopen (line : str) : option str :=
  reminder ← parse_line line None;
  if reminder_state reminder != State_Closed then None
  else
    token ← lr_token reminder;
    let r := token_range token in
    let edited :=
      if token_struck token then
        let inner := take (r_end r - length STRIKE - (r_start r + length STRIKE))
                       (drop (r_start r + length STRIKE) line) in
        replace_range line r inner
      else line in
    Some match task_of edited with
      | Some (Task_Done, mark) => replace_range edited (mkRange mark (mark + 1)) (u " ")
      | _ => edited
      end.

Definition rewrite (line : str) (due : Due) (home_day : option NaiveDate) : option str :=
  reminder ← parse_line line home_day;
  let text := token_text due home_day in
  Some match lr_token reminder with
    | Some token =>
        if token_struck token
        then replace_range line (token_range token) (STRIKE ++ text ++ STRIKE)
        else replace_range line (token_range token) text
    | None => insert_before_trailing_comments line text
    end.

Definition drop_token (line : str) : option str :=
  reminder ← parse_line line None;
  token ← lr_token reminder;
  Some (remove_range line (token_range token)).

Definition add_id (line id : str) : option str :=
  if contains CALENDAR_MARKER line || negb (is_id id) then None
  else if is_some_and (λ reminder, is_some (lr_id reminder)) (parse_line line None) then None
  else
    let end_ := writable_end line in
    let head := trim_end (take end_ line) in
    let tail := trim_end (drop end_ line) in
    Some (head ++ (if is_empty head then [] else [32%N]) ++ id_marker id
          ++ (if is_empty tail then [] else [32%N] ++ tail)).

Definition attach (line : str) (due : Due) (id : str) (home_day : option NaiveDate) : option str :=
  if contains CALENDAR_MARKER line || negb (is_id id) then None
  else
    with_token ← match parse_line line home_day with
      | Some _ => rewrite line due home_day
      | None => Some (insert_before_trailing_comments line (token_text due home_day))
      end;
    Some (default with_token (add_id with_token id)).

Definition place_token (line : str) (due : Due) (home_day : option NaiveDate) : option str :=
  if contains CALENDAR_MARKER line then None
  else match parse_line line home_day with
  | Some _ => rewrite line due home_day
  | None => Some (insert_before_trailing_comments line (token_text due home_day))
  end.
End reminders.

(** ** Dates and times read back *)

Section reading_back.
Context `{Clock} `{!ChronoLaws} `{!ClockLaws}.

(** The times a token can say. *)
Definition whole_minute (t : NaiveTime) : Prop := second t = 0%N ∧ nanosecond t = 0%N.

Definition due_ok (due : Due) : Prop :=
  four_digit (due_date due) ∧ ∀ t, due_time due = Some t → whole_minute t.

Lemma parse_iso_date_format d : four_digit d → parse_iso_date (format_ymd d) = Some d.
Proof.
  intros Hy. destruct (format_ymd_shape d Hy) as (y & m & dd & -> & L1 & L2 & L3 & Hd & P1 & P2 & P3).
  destruct y as [|a1 [|a2 [|a3 [|a4 [|]]]]]; try done.
  destruct m as [|b1 [|b2 [|]]]; try done. destruct dd as [|c1 [|c2 [|]]]; try done.
  simpl in Hd. rewrite !andb_true_iff in Hd. destruct Hd as (?&?&?&?&?&?&?&?&_).
  unfold parse_iso_date.
  assert (forallb id (imap digits_or_dash ([a1; a2; a3; a4] ++ u "-" ++ [b1; b2] ++ u "-" ++ [c1; c2]))
    = true) as ->.
  { cbn [u app imap forallb id compose]. unfold digits_or_dash. simpl.
    repeat match goal with E : is_ascii_digit _ = true |- _ => rewrite E; clear E end. done. }
  cbn -[parse_digits from_ymd_opt]. change [b1; b2] with [b1; b2] in P2.
  rewrite P1. cbn -[parse_digits from_ymd_opt]. rewrite P2. cbn -[parse_digits from_ymd_opt].
  rewrite P3. cbn -[from_ymd_opt]. rewrite Z2N.id by (unfold four_digit in Hy; lia).
  apply from_ymd_opt_fields.
Qed.

Lemma format_HM_shape t :
  length (show_padded 2 (hour t)) = 2 ∧ length (show_padded 2 (minute t)) = 2 ∧
  forallb is_ascii_digit (show_padded 2 (hour t) ++ show_padded 2 (minute t)) = true.
Proof.
  pose proof (hour_range t). pose proof (minute_range t).
  destruct (show_padded_spec 2 (hour t)) as (L1 & D1 & _); [done|simpl; lia|].
  destruct (show_padded_spec 2 (minute t)) as (L2 & D2 & _); [done|simpl; lia|].
  split_and!; [done..|]. by rewrite forallb_app, D1, D2.
Qed.

Lemma parse_clock_format t : whole_minute t → parse_clock (format_HM t) = Some t.
Proof.
  intros [Hs Hn]. pose proof (hour_range t). pose proof (minute_range t).
  destruct (format_HM_shape t) as (L1 & L2 & Hd). unfold parse_clock.
  rewrite format_HM_digits. change (u ":") with ([] ++ ch ":" :: []).
  rewrite (split_once_mark (ch ":") [] []); [|apply not_elem_of_nil|].
  2:{ apply digits_no_char; [done|]. by rewrite forallb_app, andb_true_iff in Hd; destruct Hd. }
  cbn [mbind option_bind fst snd]. rewrite L1, L2, Hd. cbn [Nat.leb Nat.eqb andb negb orb].
  rewrite !parse_digits_padded by (done || simpl; lia). cbn [mbind option_bind].
  by apply from_hms_opt_fields.
Qed.

Lemma Due_new_id due : (∀ t, due_time due = Some t → whole_minute t) →
  Due_new (due_date due) (due_time due) = due.
Proof.
  intros Ht. unfold Due_new. destruct due as [d [t|]]; simpl; [|done]. f_equal.
  destruct (Ht t eq_refl) as [Hs Hn].
  destruct (with_second_zero t) as (t1 & -> & E1 & E2 & E3 & E4). simpl.
  destruct (with_nanosecond_zero t1) as (t2 & -> & E5 & E6 & E7 & E8).
  f_equal. apply time_eq; congruence.
Qed.

Lemma due_roundtrip_lemma due : due_ok due → Due_parse (show_due due) = Some due.
Proof.
  intros [Hy Ht]. unfold Due_parse, show_due.
  pose proof (format_ymd_no_space _ Hy) as Hns. destruct (due_time due) as [t|] eqn:Et.
  - change (u " ") with ([] ++ 32%N :: []).
    rewrite (split_once_mark 32%N [] []) by (done || apply not_elem_of_nil).
    rewrite parse_iso_date_format by done. cbn [mbind option_bind].
    rewrite parse_clock_format by auto. cbn [mbind option_bind]. rewrite <- Et. f_equal.
    apply Due_new_id. intros t'. rewrite Et. apply Ht.
  - rewrite app_nil_r. unfold split_once. change (u " ") with [32%N].
    rewrite (proj2 (find_char_None 32%N _)) by done. cbn [mbind option_bind].
    rewrite parse_iso_date_format by done. cbn [mbind option_bind]. rewrite <- Et. f_equal.
    apply Due_new_id. intros t'. by rewrite Et.
Qed.

(** A due reads back from its own text, with or without a time. *)
Theorem due_roundtrip due : due_ok due → Due_parse (show_due due) = Some due.
Proof. apply due_roundtrip_lemma. Qed.
End reading_back.

(** ** Which token counts *)

Section tokens.
Context `{Clock}.

(** The token that opens at [start], if one counts there: not escaped, closed,
    outside code spans and comments, and saying a date or a time. *)
Definition token_at (line : str) (ex : list range) (start : nat) : option Token :=
  let search := start + length TOKEN_OPEN in
  if negb (starts_with TOKEN_OPEN (drop start line)) || ends_with [ch "\"] (take start line) then None
  else
    close ← find_sub (u ")") (drop search line);
    let end_ := search + close + 1 in
    if existsb (λ r, (r_start r <? end_)%nat && (start <? r_end r)%nat) ex then None
    else
      when_ ← parse_when (take close (drop search line));
      let struck := ends_with STRIKE (take start line) && starts_with STRIKE (drop end_ line) in
      Some (mkToken
        (if struck then mkRange (start - length STRIKE) (end_ + length STRIKE) else mkRange start end_)
        when_ struck).

Lemma omap_none {A B} (f : A → option B) l : (∀ x, x ∈ l → f x = None) → omap f l = [].
Proof.
  induction l as [|x l IH]; intros Hf; [done|]. simpl. rewrite (Hf x) by (by left).
  apply IH. intros y Hy. apply Hf. by right.
Qed.

Lemma token_at_no_open line ex i :
  starts_with TOKEN_OPEN (drop i line) = false → token_at line ex i = None.
Proof. intros Hs. unfold token_at. cbv zeta. by rewrite Hs. Qed.

Lemma last_token_loop_spec line ex fuel search found :
  length line - search < fuel →
  last_token_loop fuel line ex search found
  = match last (omap (token_at line ex) (seq search (length line - search))) with
    | Some t => Some t
    | None => found
    end.
Proof.
  revert search found; induction fuel as [|fuel IH]; intros search found Hf; [lia|].
  cbn [last_token_loop].
  destruct (get_from line search ≫= find_sub TOKEN_OPEN) as [offset|] eqn:E.
  2:{ rewrite omap_none; [done|]. intros i [Hi1 Hi2]%elem_of_seq. apply token_at_no_open.
      unfold get_from in E. rewrite (proj2 (Nat.leb_le _ _)) in E by lia. cbn [mbind option_bind] in E.
      pose proof (proj1 (find_sub_None _ _) E (i - search)) as Hn. rewrite drop_drop in Hn.
      by replace (search + (i - search)) with i in Hn by lia. }
  unfold get_from in E. destruct (Nat.leb_spec search (length line)) as [Hs|Hs]; [|done].
  cbn [mbind option_bind] in E. apply find_sub_Some in E as (Hopen & Hlen & _ & Hfirst).
  rewrite drop_drop in Hopen. rewrite length_drop in Hlen.
  set (start := search + offset) in *. unfold TOKEN_OPEN in Hlen. simpl in Hlen.
  assert (omap (token_at line ex) (seq search (length line - search)) =
    option_list (token_at line ex start)
    ++ omap (token_at line ex) (seq (start + 2) (length line - (start + 2)))) as ->.
  { replace (length line - search) with (offset + (1 + (1 + (length line - (start + 2)))))
      by (subst start; lia).
    rewrite !seq_app, !omap_app. fold start.
    rewrite (omap_none _ (seq search offset)).
    2:{ intros i [Hi1 Hi2]%elem_of_seq. apply token_at_no_open.
        specialize (Hfirst (i - search)). rewrite drop_drop in Hfirst.
        replace (search + (i - search)) with i in Hfirst by lia. apply Hfirst. lia. }
    rewrite (omap_none _ (seq (start + 1) 1)).
    2:{ intros i [Hi1 Hi2]%elem_of_seq. apply token_at_no_open. replace i with (start + 1) by lia.
        apply starts_with_app in Hopen as [r Hr]. rewrite <- drop_drop, Hr. done. }
    replace (start + 1 + 1) with (start + 2) by lia. cbn [app].
    destruct (token_at line ex start) eqn:Et; simpl; by rewrite Et. }
  rewrite last_app. cbv zeta.
  assert (∀ f', last_token_loop fuel line ex (start + length TOKEN_OPEN) f' =
    match last (omap (token_at line ex) (seq (start + 2) (length line - (start + 2)))) with
    | Some t => Some t | None => f' end) as IH' by (intros f'; apply IH; subst start; simpl; lia).
  rewrite !IH'. pose proof (eq_refl (token_at line ex start)) as Et.
  unfold token_at in Et at 2. cbv zeta in Et. rewrite Hopen in Et. cbn [negb orb] in Et.
  destruct (ends_with [ch "\"] (take start line)); [by rewrite Et; destruct (last _)|].
  destruct (find_sub (u ")") (drop (start + length TOKEN_OPEN) line)) as [cl|] eqn:Ec.
  2:{ cbn [mbind option_bind] in Et. rewrite Et, omap_none; [done|].
      intros i [Hi1 Hi2]%elem_of_seq. unfold token_at. cbv zeta.
      destruct (_ || _)%bool; [done|].
      assert (find_sub (u ")") (drop (i + length TOKEN_OPEN) line) = None) as ->; [|done].
      apply find_sub_None. intros j. rewrite drop_drop.
      pose proof (proj1 (find_sub_None _ _) Ec (i - start + j)) as Hn. rewrite drop_drop in Hn.
      by replace (start + length TOKEN_OPEN + (i - start + j)) with (i + length TOKEN_OPEN + j)
        in Hn by lia. }
  cbn [mbind option_bind] in Et.
  replace (start + length TOKEN_OPEN + cl + 1 - 1 - (start + length TOKEN_OPEN)) with cl by lia.
  destruct (existsb _ ex); [by rewrite Et; destruct (last _)|].
  destruct (parse_when _); rewrite Et; simpl; by destruct (last _).
Qed.

(** The token that counts on a line is the last that opens anywhere on it
    and counts there. *)
Theorem last_token_spec line ex :
  last_token line ex = last (omap (token_at line ex) (seq 0 (length line))).
Proof.
  unfold last_token. rewrite last_token_loop_spec by lia. rewrite Nat.sub_0_r. by destruct (last _).
Qed.
End tokens.

(** ** Code spans and comments come in order *)

(** Ranges in order, apart, within [low..high]. *)
Fixpoint ranges_within (low high : nat) (rs : list range) : Prop :=
  match rs with
  | [] => low ≤ high
  | r :: rs => low ≤ r_start r ∧ r_start r < r_end r ∧ ranges_within (r_end r) high rs
  end.

Lemma ranges_within_snoc low high rs r :
  ranges_within low (r_start r) rs → r_start r < r_end r → r_end r ≤ high →
  ranges_within low high (rs ++ [r]).
Proof. revert low; induction rs as [|x rs IH]; intros low; simpl; [lia|]. intros (?&?&?) ? ?. auto. Qed.

Lemma ranges_within_weaken low high high' rs :
  ranges_within low high rs → high ≤ high' → ranges_within low high' rs.
Proof. revert low; induction rs as [|x rs IH]; intros low; simpl; [lia|]. intros (?&?&?) ?. eauto. Qed.

Lemma run_at_le line i : i ≤ length line → i + run_at line i ≤ length line.
Proof.
  intros Hi. unfold run_at, get_from. rewrite (proj2 (Nat.leb_le _ _)) by done.
  pose proof (count_while_le (is_char BACKTICK) (drop i line)) as Hc. rewrite length_drop in Hc. lia.
Qed.

Lemma closing_run_bounds fuel line len i e :
  closing_run fuel line len i = Some e → i ≤ e ≤ length line.
Proof.
  revert i; induction fuel as [|fuel IH]; intros i; [done|]. cbn [closing_run].
  unfold get_from at 1. destruct (Nat.leb_spec i (length line)) as [Hi|]; [|done].
  cbn [mbind option_bind]. destruct (find_sub _ _) as [rel|] eqn:Ef; [|done].
  apply find_sub_Some in Ef as (_ & Hl & _). rewrite length_drop in Hl. simpl in Hl.
  pose proof (run_at_le line (i + rel)) as Hr.
  destruct (_ =? _)%nat; [intros [= <-]; lia|]. intros He%IH. lia.
Qed.

Lemma scan_inline_loop_ranges fuel line cursor ex id :
  ranges_within 0 cursor ex → cursor ≤ length line →
  ranges_within 0 (length line) (excluded (scan_inline_loop fuel line cursor ex id)).
Proof.
  revert cursor ex id; induction fuel as [|fuel IH]; intros cursor ex id Hex Hc; cbn [scan_inline_loop].
  { simpl. by eapply ranges_within_weaken. }
  destruct (Nat.ltb_spec cursor (length line)) as [Hlt|]; [|simpl; by eapply ranges_within_weaken].
  cbv zeta. destruct (strip_prefix COMMENT_OPEN (drop cursor line)) as [inside|] eqn:Es.
  - apply strip_prefix_Some in Es.
    assert (length line = cursor + (length COMMENT_OPEN + length inside)) as Hlen.
    { apply (f_equal length) in Es. rewrite length_drop, length_app in Es. lia. }
    set (len := if starts_with (u ">") inside then _ else _).
    assert (∀ l, len = Some l → 0 < l ∧ cursor + l ≤ length line) as Hl.
    { intros l. subst len. destruct (starts_with (u ">") inside) eqn:E1.
      - apply starts_with_length in E1. intros [= <-]. simpl in *. lia.
      - destruct (starts_with (u "->") inside) eqn:E2.
        + apply starts_with_length in E2. intros [= <-]. simpl in *. lia.
        + destruct (find_sub COMMENT_CLOSE inside) as [o|] eqn:Ef; [|done].
          apply find_sub_Some in Ef as (_ & Ho & _). intros [= <-]. simpl in *. lia. }
    destruct len as [l|].
    + destruct (Hl l eq_refl). apply IH; [|lia]. apply ranges_within_snoc; simpl; [done|lia|lia].
    + simpl. apply ranges_within_snoc; simpl; [done|lia|lia].
  - destruct (is_some_and _ (line !! cursor)) eqn:Eb; [|apply IH; [|lia]; eapply ranges_within_weaken; [done|lia]].
    set (run := count_while _ _).
    assert (0 < run ∧ cursor + run ≤ length line) as [Hr1 Hr2].
    { subst run. split.
      - destruct (line !! cursor) as [c|] eqn:El; [|done]. simpl in Eb.
        rewrite (drop_S _ _ _ El). simpl. rewrite Eb. lia.
      - pose proof (count_while_le (is_char BACKTICK) (drop cursor line)) as Hcw.
        rewrite length_drop in Hcw. lia. }
    destruct (closing_backticks line (cursor + run) run) as [e|] eqn:Ee.
    + apply closing_run_bounds in Ee. apply IH; [|lia]. apply ranges_within_snoc; simpl; [done|lia|lia].
    + apply IH; [|lia]. eapply ranges_within_weaken; [done|lia].
Qed.

(** The code spans and comments of a line are in order, apart, not empty
    and inside the line, whether or not it starts within a comment. *)
Theorem scan_inline_ranges line in_comment :
  line ≠ [] → ranges_within 0 (length line) (excluded (scan_inline line in_comment)).
Proof.
  intros Hne. unfold scan_inline. destruct in_comment; [|by apply scan_inline_loop_ranges; simpl; lia].
  destruct (find_sub COMMENT_CLOSE line) as [close|] eqn:E.
  - apply find_sub_Some in E as (_ & Hl & _). apply scan_inline_loop_ranges; simpl in *; lia.
  - simpl. destruct line; [done|simpl; lia].
Qed.
