(* ===== verification/Tasks.v ===== *)
(** * Ticking and unticking a reminder ([reminder.rs], [close] and [reopen])

    What precedes a task's box is plain to every scan of the line, so ticking
    the box changes nothing else a reader sees. *)

From S2P Require Import Prelude Strings External Write Lines HeadingKey LineHash Sections Dates.
From S2P Require Import Reminder.

(** ** The shape of a task line *)

Definition is_quote (c : char) : bool := is_whitespace c || (c =? ch ">")%N.

Lemma trim_start_matches_twice (f g : char → bool) s :
  (∀ c, g c = true → f c = true) → trim_start_matches f (trim_start_matches g s) = trim_start_matches f s.
Proof.
  intros Hfg. induction s as [|c s IH]; simpl; [done|]. destruct (g c) eqn:E; [|done].
  by rewrite (Hfg c E), IH.
Qed.

Lemma strip_quote_markers_spec text : strip_quote_markers text = trim_start_matches is_quote text.
Proof.
  unfold strip_quote_markers.
  assert (∀ c, is_whitespace c = true → is_quote c = true) as Hws by (intros c Hc; unfold is_quote; by rewrite Hc).
  rewrite <- (trim_start_matches_twice _ _ text Hws). fold (trim_start text).
  assert (length (trim_start text) ≤ length text) as Hlen.
  { destruct (trim_start_matches_app is_whitespace text) as (p & Hp & _). unfold trim_start.
    rewrite Hp at 2. len_lia. }
  assert (trim_start (trim_start text) = trim_start text) as Hid by (by apply trim_start_matches_twice).
  revert Hlen Hid. generalize (trim_start text) (length text). intros s fuel. revert s.
  induction fuel as [|fuel IH]; intros s Hlen Hid; cbn [strip_quote_loop].
  { destruct s; [done|simpl in Hlen; lia]. }
  destruct (strip_prefix (u ">") s) as [inner|] eqn:E.
  - apply strip_prefix_Some in E as ->. cbn [u app trim_start_matches].
    change (is_quote (ch ">")) with true. cbn iota. rewrite <- (trim_start_matches_twice _ _ inner Hws).
    apply IH.
    + destruct (trim_start_matches_app is_whitespace inner) as (p & Hp & _). unfold trim_start.
      apply (f_equal length) in Hp. rewrite length_app in Hp. simpl in Hlen. lia.
    + by apply trim_start_matches_twice.
  - apply strip_prefix_None in E. destruct s as [|c s]; [done|]. simpl in E.
    rewrite andb_true_r in E. cbn [trim_start_matches].
    assert (is_whitespace c = false) as Hw.
    { destruct (is_whitespace c) eqn:Hw; [|done]. exfalso. unfold trim_start in Hid.
      cbn [trim_start_matches] in Hid. rewrite Hw in Hid.
      destruct (trim_start_matches_app is_whitespace s) as (p & Hp & _).
      apply (f_equal length) in Hid, Hp. rewrite length_app in Hp. simpl in Hid. lia. }
    unfold is_quote. rewrite Hw. unfold ch. rewrite N.eqb_sym. simpl in E |- *. by rewrite E.
Qed.

(** The characters before a task's box: quote marks, then a list marker. *)
Definition marker_char (c : char) : bool :=
  is_quote c || is_ascii_digit c || existsb (N.eqb c) (u "-*+.) ").

Lemma leading_digits text :
  let n := count_while is_ascii_digit text in
  forallb is_ascii_digit (take n text) = true ∧ length (take n text) = n.
Proof.
  cbv zeta. induction text as [|c s IH]; simpl; [done|].
  destruct (is_ascii_digit c) eqn:E; simpl; [|done]. rewrite E. simpl. destruct IH as [-> ->]. done.
Qed.

Lemma count_digits ds s :
  forallb is_ascii_digit ds = true → is_ascii_digit (default 0%N (head s)) = false →
  count_while is_ascii_digit (ds ++ s) = length ds.
Proof.
  intros Hd Hs. induction ds as [|c ds IH]; simpl.
  - destruct s as [|c s]; [done|]. simpl in *. by rewrite Hs.
  - simpl in Hd. apply andb_true_iff in Hd as [-> Hd]. by rewrite IH.
Qed.

Lemma strip_list_marker_shape text after :
  strip_list_marker text = after → length after ≠ length text →
  ∃ m, text = m ++ after ∧ m ≠ [] ∧ forallb marker_char m = true ∧
       is_quote (default 0%N (head m)) = false ∧
       ∀ after', strip_list_marker (m ++ after') = after'.
Proof.
  unfold strip_list_marker.
  destruct (strip_prefix (u "- ") text) as [r|] eqn:E1.
  { apply strip_prefix_Some in E1 as ->. intros <- _. by exists (u "- "). }
  destruct (strip_prefix (u "* ") text) as [r|] eqn:E2.
  { apply strip_prefix_Some in E2 as ->. intros <- _. by exists (u "* "). }
  destruct (strip_prefix (u "+ ") text) as [r|] eqn:E3.
  { apply strip_prefix_Some in E3 as ->. intros <- _. by exists (u "+ "). }
  cbv zeta. destruct (_ && _) eqn:Ed; [|by intros ->].
  set (n := count_while is_ascii_digit text) in *. intros Hr Hne.
  assert (∃ sep, (sep = u ". " ∨ sep = u ") ") ∧ drop n text = sep ++ after) as (sep & Hsep & Hdrop).
  { destruct (strip_prefix (u ". ") (drop n text)) as [r|] eqn:E4.
    - apply strip_prefix_Some in E4. subst r. exists (u ". "). auto.
    - destruct (strip_prefix (u ") ") (drop n text)) as [r|] eqn:E5; simpl in Hr; [|by subst].
      apply strip_prefix_Some in E5. subst r. exists (u ") "). auto. }
  assert (text = take n text ++ sep ++ after) as Htext by (by rewrite <- Hdrop, take_drop).
  destruct (leading_digits text) as [Hdig Hlen]. fold n in Hdig, Hlen.
  exists (take n text ++ sep). rewrite <- app_assoc. split; [done|]. bool_to_prop.
  assert (∀ s, count_while is_ascii_digit (take n text ++ sep ++ s) = n) as Hcount.
  { intros s. rewrite <- Hlen at 2. apply count_digits; [done|]. by destruct Hsep as [-> | ->]. }
  destruct (take n text) as [|c ds] eqn:Et; [simpl in Hlen; lia|].
  assert (is_ascii_digit c = true) as Hc by (simpl in Hdig; by apply andb_true_iff in Hdig as [? _]).
  assert (is_quote c = false ∧ (c =? 45)%N = false ∧ (c =? 42)%N = false ∧ (c =? 43)%N = false)
    as (Hq & Hc1 & Hc2 & Hc3).
  { unfold is_ascii_digit in Hc. bool_to_prop. unfold is_quote, is_whitespace. simpl.
    rewrite !orb_false_iff, !N.eqb_neq. repeat split; try lia; apply andb_false_iff; rewrite !N.leb_gt; lia. }
  split_and!; [by destruct ds| |done|].
  - rewrite forallb_app. apply andb_true_iff. split.
    + apply forallb_Forall. apply forallb_Forall in Hdig. eapply Forall_impl; [exact Hdig|].
      intros x Hx. unfold marker_char. by rewrite Hx, orb_true_r.
    + by destruct Hsep as [-> | ->].
  - intros after'. rewrite <- app_assoc.
    assert (∀ p, (p =? c)%N = false → strip_prefix [p; 32%N] ((c :: ds) ++ sep ++ after') = None) as Hno.
    { intros p Hp. apply strip_prefix_None. cbn [app starts_with]. by rewrite Hp. }
    change (u "- ") with [45%N; 32%N]. change (u "* ") with [42%N; 32%N].
    change (u "+ ") with [43%N; 32%N].
    rewrite !Hno by (by rewrite N.eqb_sym).
    rewrite Hcount.
    rewrite (proj2 (Nat.leb_le 1 n)), (proj2 (Nat.leb_le n 9)) by lia. cbn [andb].
    rewrite drop_app_length' by done. destruct Hsep as [-> | ->].
    + by rewrite strip_prefix_app.
    + assert (strip_prefix (u ". ") (u ") " ++ after') = None) as -> by done.
      by rewrite strip_prefix_app.
Qed.

(** ** What the scans see past a plain prefix *)

Lemma find_sub_skip c p a b :
  c ∉ a → find_sub (c :: p) (a ++ b) = (λ i, length a + i) <$> find_sub (c :: p) b.
Proof.
  induction a as [|x a IH]; intros Hc.
  { simpl. destruct (find_sub (c :: p) b); done. }
  apply not_elem_of_cons in Hc as [Hx Hc]. cbn [app find_sub starts_with].
  rewrite (proj2 (N.eqb_neq c x)) by done. cbn [andb]. rewrite IH by done.
  by destruct (find_sub (c :: p) b).
Qed.

Lemma starts_with_app_l p l r : length p ≤ length l → starts_with p (l ++ r) = starts_with p l.
Proof.
  revert l; induction p as [|x p IH]; intros [|y l] Hl; simpl in *; try done; [lia|].
  f_equal. apply IH. lia.
Qed.

Lemma ends_with_app_r p l r : length p ≤ length r → ends_with p (l ++ r) = ends_with p r.
Proof. intros Hl. unfold ends_with. rewrite rev_app_distr. apply starts_with_app_l. by rewrite !length_rev. Qed.

(** Two lines that differ in a prefix only, read from its end on. *)
Section same_tail.
Context (p p' b : str).
Hypothesis Hlen : length p = length p'.

Lemma same_drop i : length p ≤ i → drop i (p ++ b) = drop i (p' ++ b).
Proof. intros Hi. rewrite !drop_app_ge by lia. by rewrite Hlen. Qed.

Lemma same_get_from i : length p ≤ i → get_from (p ++ b) i = get_from (p' ++ b) i.
Proof. intros Hi. unfold get_from. by rewrite same_drop, !length_app, Hlen. Qed.

Lemma same_lookup i : length p ≤ i → (p ++ b) !! i = (p' ++ b) !! i.
Proof. intros Hi. rewrite !lookup_app_r by lia. by rewrite Hlen. Qed.

Lemma same_closing_run fuel len i :
  length p ≤ i → closing_run fuel (p ++ b) len i = closing_run fuel (p' ++ b) len i.
Proof.
  revert i; induction fuel as [|fuel IH]; intros i Hi; [done|]. cbn [closing_run].
  rewrite same_get_from by done. destruct (_ ≫= _) as [rel|]; [|done].
  unfold run_at. rewrite (same_get_from (i + rel)) by lia. by rewrite IH by lia.
Qed.

Lemma same_scan_loop fuel i ex id :
  length p ≤ i → scan_inline_loop fuel (p ++ b) i ex id = scan_inline_loop fuel (p' ++ b) i ex id.
Proof.
  revert i ex id; induction fuel as [|fuel IH]; intros i ex id Hi; [done|].
  cbn [scan_inline_loop]. cbv zeta. unfold closing_backticks.
  rewrite !length_app, Hlen, (same_drop i), (same_lookup i) by done.
  rewrite same_closing_run by lia.
  destruct (_ <? _)%nat; [|done]. destruct (strip_prefix _ _) as [inside|].
  - destruct (starts_with (u ">") inside); [apply IH; lia|].
    destruct (starts_with (u "->") inside); [apply IH; lia|].
    destruct (find_sub COMMENT_CLOSE inside); cbn [fmap option_fmap option_map]; [apply IH; lia|done].
  - destruct (is_some_and _ _); [|apply IH; lia].
    destruct (closing_run _ _ _ _) as [e|] eqn:E; [|apply IH; lia].
    apply IH. clear -E Hi. revert E. generalize (length p' + length b).
    set (len := count_while _ _). clearbody len. intros f.
    assert (length p ≤ i + len) as Hs by lia. revert Hs. generalize (i + len).
    enough (∀ f s, length p ≤ s → closing_run f (p' ++ b) len s = Some e → length p ≤ e) as H
      by (intros s Hs E; exact (H (S f) s Hs E)).
    clear. intros f; induction f as [|f IH]; intros s Hs; [done|]. cbn [closing_run].
    destruct (_ ≫= _) as [rel|]; [|done]. destruct (_ =? _)%nat.
    + intros [= <-]. lia.
    + apply IH. lia.
Qed.

(** The tokens a line has past the prefix look back at its last two
    characters at most. *)
Context `{Clock}.
Hypothesis Hback : ∀ y, ends_with [ch "\"] (p ++ y) = ends_with [ch "\"] (p' ++ y) ∧
  ends_with STRIKE (p ++ y) = ends_with STRIKE (p' ++ y).

Lemma same_take_ends s i :
  s = [ch "\"] ∨ s = STRIKE → length p ≤ i →
  ends_with s (take i (p ++ b)) = ends_with s (take i (p' ++ b)).
Proof.
  intros Hs Hi. rewrite !take_app_ge by lia. rewrite Hlen.
  destruct Hs as [-> | ->]; apply Hback.
Qed.

Lemma same_token_loop fuel ex i found :
  length p ≤ i →
  last_token_loop fuel (p ++ b) ex i found = last_token_loop fuel (p' ++ b) ex i found.
Proof.
  revert i found; induction fuel as [|fuel IH]; intros i found Hi; [done|].
  cbn [last_token_loop]. cbv zeta. rewrite same_get_from by done.
  destruct (_ ≫= _) as [offset|]; [|done].
  rewrite (same_take_ends [ch "\"] (i + offset)) by (auto; lia).
  rewrite (same_take_ends STRIKE (i + offset)) by (auto; lia).
  rewrite (same_drop (i + offset + length TOKEN_OPEN)) by lia.
  destruct (ends_with [_] _); [apply IH; lia|].
  destruct (find_sub _ _) as [cl|]; [|done].
  rewrite (same_drop (i + offset + length TOKEN_OPEN + cl + 1)) by lia.
  destruct (existsb _ _); [apply IH; lia|].
  destruct (parse_when _); apply IH; lia.
Qed.
End same_tail.

(** A character no scan stops at. *)
Definition inert_char (c : char) : bool :=
  negb (c =? ch "<")%N && negb (c =? BACKTICK)%N && negb (c =? ch "(")%N.

Lemma inert_not_elem s c :
  inert_char c = false → forallb inert_char s = true → c ∉ s.
Proof.
  intros Hc Hs Hin. rewrite forallb_forall in Hs. specialize (Hs c).
  rewrite <- list_elem_of_In in Hs. specialize (Hs Hin). congruence.
Qed.

Lemma scan_loop_inert p b k fuel ex id :
  forallb inert_char p = true → k ≤ length p → length p - k < fuel →
  scan_inline_loop fuel (p ++ b) k ex id
  = scan_inline_loop (fuel - (length p - k)) (p ++ b) (length p) ex id.
Proof.
  intros Hp. remember (length p - k) as n eqn:Hn. revert k fuel Hn.
  induction n as [|n IH]; intros k fuel Hn Hk Hfuel.
  { replace k with (length p) by lia. by rewrite Nat.sub_0_r. }
  destruct fuel as [|fuel]; [lia|]. cbn [scan_inline_loop Nat.sub].
  rewrite (proj2 (Nat.ltb_lt _ _)) by (len_lia).
  assert (∃ c, p !! k = Some c) as [c Hc] by (apply lookup_lt_is_Some_2; lia).
  assert (inert_char c = true) as Hic.
  { rewrite forallb_forall in Hp. apply Hp, list_elem_of_In. by eapply list_elem_of_lookup_2. }
  unfold inert_char in Hic. bool_to_prop. cbv zeta.
  rewrite drop_app_le by lia. rewrite (drop_S _ _ _ Hc).
  assert (strip_prefix COMMENT_OPEN ((c :: drop (S k) p) ++ b) = None) as ->.
  { apply strip_prefix_None. unfold COMMENT_OPEN. cbn [u app starts_with].
    rewrite (proj2 (N.eqb_neq _ c)); [done|]. intros E. by subst c. }
  rewrite lookup_app_l by lia. rewrite Hc. cbn [is_some_and]. unfold is_char at 1.
  rewrite (proj2 (N.eqb_neq BACKTICK c)) by congruence.
  rewrite Nat.add_1_r. apply IH; lia.
Qed.

(** ** Ticking *)

Definition box_line (p : str) (c : char) (b : str) : str := (p ++ [ch "["; c; ch "]"; 32%N]) ++ b.

Definition box_task (c : char) : option Task :=
  if (c =? 32)%N then Some Task_Open
  else if (c =? ch "x")%N || (c =? ch "X")%N then Some Task_Done
  else None.

Lemma marker_inert c : marker_char c = true → inert_char c = true.
Proof.
  unfold inert_char. rewrite !andb_true_iff, !negb_true_iff, !N.eqb_neq. intros H.
  repeat split; intros ->; by vm_compute in H.
Qed.

Lemma task_of_box p c b :
  (∃ q m, p = q ++ m ∧ forallb is_quote q = true ∧ m ≠ [] ∧
     is_quote (default 0%N (head m)) = false ∧ ∀ after, strip_list_marker (m ++ after) = after) →
  task_of (box_line p c b) = (λ t, (t, length p + 1)) <$> box_task c.
Proof.
  intros (q & m & -> & Hq & Hm & Hh & Hs). unfold task_of, box_line.
  rewrite strip_quote_markers_spec, <- !app_assoc.
  rewrite trim_start_matches_app_all by (by apply forallb_Forall).
  destruct m as [|x m]; [done|]. simpl in Hh.
  rewrite (trim_start_matches_id _ ((x :: m) ++ _)) by done. rewrite Hs.
  rewrite !length_app. cbn [length]. cbv zeta.
  rewrite (proj2 (Nat.eqb_neq _ _)) by (simpl; lia).
  replace (length q + (S (length m) + (4 + length b)) - (4 + length b) + 1)
    with (length q + S (length m) + 1) by lia.
  unfold get_range. rewrite (proj2 (Nat.leb_le 4 _)) by (simpl; lia). cbn [Nat.leb andb].
  cbn [drop Nat.sub take app mbind option_bind].
  unfold box_task. destruct (N.eqb_spec c 32) as [->|H1]; [done|].
  rewrite bool_decide_eq_false_2 by (by intros [= ?]).
  destruct (N.eqb_spec c (ch "x")) as [->|H2]; [done|].
  destruct (N.eqb_spec c (ch "X")) as [->|H3]; [done|].
  rewrite !bool_decide_eq_false_2; [done|by intros [= ?]|by intros [= ?]].
Qed.

(** A task line is a box after quote marks and a list marker. *)
Lemma task_of_shape line t mark :
  task_of line = Some (t, mark) →
  ∃ p c b, line = box_line p c b ∧ mark = length p + 1 ∧ box_task c = Some t ∧
    forallb marker_char p = true ∧
    ∀ c', task_of (box_line p c' b) = (λ t, (t, length p + 1)) <$> box_task c'.
Proof.
  intros Ht. pose proof Ht as Ht'. unfold task_of in Ht. rewrite strip_quote_markers_spec in Ht.
  cbv zeta in Ht.
  destruct (trim_start_matches_app is_quote line) as (q & Hline & Hq).
  set (trimmed := trim_start_matches is_quote line) in *.
  destruct (Nat.eqb_spec (length (strip_list_marker trimmed)) (length trimmed)) as [|Hne]; [done|].
  destruct (strip_list_marker_shape _ _ eq_refl Hne) as (m & Htr & Hm & Hmc & Hh & Hs).
  set (after := strip_list_marker trimmed) in *.
  destruct (get_range after 0 4) as [box|] eqn:Eg; [|done]. cbn [mbind option_bind] in Ht.
  unfold get_range in Eg. destruct (_ && _) eqn:E4; [|done].
  apply andb_true_iff in E4 as [_ E4%Nat.leb_le]. cbn [Nat.sub drop] in Eg. injection Eg as Ebox.
  assert (∃ c b, after = ch "[" :: c :: ch "]" :: 32%N :: b) as (c & b & Ha).
  { destruct after as [|x1 [|x2 [|x3 [|x4 b]]]]; simpl in E4; try lia. simpl in Ebox. subst box.
    case_bool_decide as Eb; [injection Eb as -> -> -> ->; by exists 32%N, b|].
    case_bool_decide as Eb1; [injection Eb1 as -> -> -> ->; by exists (ch "x"), b|].
    case_bool_decide as Eb2; [injection Eb2 as -> -> -> ->; by exists (ch "X"), b|done]. }
  assert (line = box_line (q ++ m) c b) as Hl.
  { unfold box_line. rewrite Hline, Htr, Ha. by rewrite <- !app_assoc. }
  assert (∀ c', task_of (box_line (q ++ m) c' b) = (λ t, (t, length (q ++ m) + 1)) <$> box_task c')
    as Hbox.
  { intros c'. apply task_of_box. exists q, m. split_and!; try done. by apply forallb_Forall. }
  exists (q ++ m), c, b. rewrite Hl, Hbox in Ht'.
  destruct (box_task c) as [t'|]; [|done]. simpl in Ht'. injection Ht' as -> <-.
  split_and!; [done|done|done| |done].
  rewrite forallb_app, Hmc, andb_true_r. apply forallb_Forall.
  eapply Forall_impl; [exact Hq|]. intros x Hx. unfold marker_char. by rewrite Hx.
Qed.

Section ticking.
Context `{Clock}.
Context (p b : str).
Hypothesis Hp : forallb marker_char p = true.

Definition box_char (c : char) : Prop := c = 32%N ∨ c = ch "x" ∨ c = ch "X".

Lemma box_prefix_inert c : box_char c → forallb inert_char (p ++ [ch "["; c; ch "]"; 32%N]) = true.
Proof.
  intros Hc. rewrite forallb_app. apply andb_true_iff. split.
  - apply forallb_Forall. apply forallb_Forall in Hp. eapply Forall_impl; [exact Hp|]. apply marker_inert.
  - by destruct Hc as [->|[->| ->]].
Qed.

Lemma box_scan c c' :
  box_char c → box_char c' →
  scan_inline (box_line p c b) false = scan_inline (box_line p c' b) false.
Proof.
  intros Hc Hc'. unfold scan_inline, box_line.
  rewrite (scan_loop_inert _ b 0) by (by apply box_prefix_inert || (len_lia)).
  rewrite (scan_loop_inert (p ++ [ch "["; c'; ch "]"; 32%N]) b 0)
    by (by apply box_prefix_inert || (len_lia)).
  rewrite !length_app. simpl length.
  rewrite (same_scan_loop _ (p ++ [ch "["; c'; ch "]"; 32%N])); [done|..]; by rewrite !length_app.
Qed.

Lemma box_contains c c' x pat :
  inert_char x = false → box_char c → box_char c' →
  contains (x :: pat) (box_line p c b) = contains (x :: pat) (box_line p c' b).
Proof.
  intros Hx Hc Hc'. unfold contains, box_line.
  rewrite !find_sub_skip by (eapply inert_not_elem; [exact Hx|by apply box_prefix_inert]).
  by destruct (find_sub _ b).
Qed.

Lemma box_last_token c c' ex :
  box_char c → box_char c' →
  last_token (box_line p c b) ex = last_token (box_line p c' b) ex.
Proof.
  intros Hc Hc'. unfold last_token.
  assert (∀ c fuel, box_char c → last_token_loop (S fuel) (box_line p c b) ex 0 None
    = last_token_loop (S fuel) (box_line p c b) ex (length (p ++ [ch "["; c; ch "]"; 32%N])) None)
    as Hskip.
  { intros c0 fuel Hc0. cbn [last_token_loop].
    assert (get_from (box_line p c0 b) 0 ≫= find_sub TOKEN_OPEN =
      (λ o, length (p ++ [ch "["; c0; ch "]"; 32%N]) + o) <$>
      (get_from (box_line p c0 b) (length (p ++ [ch "["; c0; ch "]"; 32%N])) ≫= find_sub TOKEN_OPEN))
      as Hf.
    { unfold get_from, box_line. rewrite (proj2 (Nat.leb_le 0 _)) by lia.
      rewrite (proj2 (Nat.leb_le (length (p ++ _)) _)) by (len_lia).
      cbn [mbind option_bind]. rewrite drop_0, drop_app_length.
      unfold TOKEN_OPEN. cbn [u]. apply find_sub_skip.
      eapply inert_not_elem; [|by apply box_prefix_inert]. done. }
    rewrite Hf.
    generalize (get_from (box_line p c0 b) (length (p ++ [ch "["; c0; ch "]"; 32%N]))
      ≫= find_sub TOKEN_OPEN).
    intros [o|]; [|done]. cbn [fmap option_fmap option_map]. by rewrite Nat.add_0_l. }
  assert (length (box_line p c b) = length (box_line p c' b)) as Hl
    by (unfold box_line; by rewrite !length_app).
  rewrite (Hskip c), (Hskip c'), Hl by done.
  assert (length (p ++ [ch "["; c; ch "]"; 32%N]) = length (p ++ [ch "["; c'; ch "]"; 32%N])) as Hpl
    by (by rewrite !length_app).
  rewrite <- Hpl. unfold box_line. apply same_token_loop; [done| |done].
  assert (∀ c s y, length s ≤ 2 → ends_with s ((p ++ [ch "["; c; ch "]"; 32%N]) ++ y)
    = ends_with s ([ch "]"; 32%N] ++ y)) as He.
  { intros c0 s y Hs. change [ch "["; c0; ch "]"; 32%N] with ([ch "["; c0] ++ [ch "]"; 32%N]).
    rewrite app_assoc, <- app_assoc. apply ends_with_app_r. len_lia. }
  intros y. split; rewrite !He by (simpl; lia); done.
Qed.

(** What a reader sees of the line but its box. *)
Lemma box_parse_line c c' r :
  box_char c → box_char c' → parse_line (box_line p c b) None = Some r →
  parse_line (box_line p c' b) None
  = Some (mkLineReminder (lr_id r) (lr_token r) (fst <$> task_of (box_line p c' b)) (lr_due r)).
Proof.
  intros Hc Hc'. unfold parse_line, read_line. cbv zeta.
  unfold CALENDAR_MARKER. cbn [u]. rewrite (box_contains c c') by done.
  rewrite (box_scan c c'), (box_last_token c c') by done.
  destruct (contains _ _); [done|]. cbn [rl_reminder].
  destruct (_ || _)%bool; [|done]. by intros [= <-].
Qed.
End ticking.

(** Closing a task ticks its box and nothing else, the line then reads as
    closed, and reopening it gives back the very line. *)
Theorem reopen_close_task `{Clock} line mark closed :
  task_of line = Some (Task_Open, mark) → close line = Some closed →
  closed = take mark line ++ u "x" ++ drop (mark + 1) line ∧
  reminder_state <$> parse_line closed None = Some State_Closed ∧
  reopen closed = Some line.
Proof.
  intros Ht Hcl. destruct (task_of_shape _ _ _ Ht) as (p & c & b & -> & -> & Hbt & Hp & Hbox).
  assert (c = 32%N) as ->.
  { unfold box_task in Hbt. destruct (N.eqb_spec c 32); [done|]. by destruct (_ || _). }
  unfold close in Hcl. destruct (parse_line (box_line p 32 b) None) as [r|] eqn:Er; [|done].
  cbn [mbind option_bind] in Hcl. case_bool_decide as Hst; cbn [negb] in Hcl; [|done].
  rewrite Ht in Hcl. injection Hcl as <-.
  assert (∀ c c', replace_range (box_line p c b) (mkRange (length p + 1) (length p + 1 + 1)) [c']
    = box_line p c' b) as Hrep.
  { intros c c'. unfold replace_range, box_line. cbn [r_start r_end]. rewrite <- !app_assoc.
    rewrite (take_app_ge p) by lia. rewrite (drop_app_ge p) by lia.
    replace (length p + 1 - length p) with 1 by lia.
    replace (length p + 1 + 1 - length p) with 2 by lia. by rewrite <- app_assoc. }
  assert (box_char 32%N ∧ box_char (ch "x")) as [Hc1 Hc2] by (unfold box_char; auto).
  pose proof (box_parse_line p b Hp _ _ r Hc1 Hc2 Er) as Hx.
  change (u "x") with [ch "x"]. rewrite Hrep in *. rewrite Hbox in Hx. simpl in Hx.
  assert (lr_token r ≠ None ∧ ∀ t, lr_token r = Some t → token_struck t = false) as [Htok Hstruck].
  { revert Hst. unfold reminder_state. destruct (lr_token r) as [t|]; [|done].
    destruct (token_struck t) eqn:E; [done|]. intros _. split; [done|]. by intros ? [= <-]. }
  split_and!.
  - exact (eq_sym (Hrep 32%N (ch "x"))).
  - rewrite Hx. simpl. f_equal. unfold reminder_state. cbn [lr_token lr_task].
    destruct (lr_token r) as [t|]; [|done]. by rewrite orb_true_r.
  - unfold reopen. rewrite Hx. cbn [mbind option_bind].
    assert (reminder_state (mkLineReminder (lr_id r) (lr_token r) (Some Task_Done) (lr_due r))
      = State_Closed) as ->.
    { unfold reminder_state. cbn [lr_token lr_task].
      destruct (lr_token r) as [t|]; [|done]. by rewrite orb_true_r. }
    rewrite bool_decide_eq_true_2 by done. cbn [negb lr_token].
    destruct (lr_token r) as [t|]; [|done]. cbn [mbind option_bind].
    rewrite (Hstruck t eq_refl), Hbox. cbn [box_task fmap option_fmap option_map].
    f_equal. apply (Hrep (ch "x") 32%N).
Qed.
