(* ===== verification/Mirror.v ===== *)
(** * Reminders: display text, mirror lines and whole notes ([reminder.rs])

    What a row shows of a reminder, the copy a daily note keeps of one, and
    every reminder of a note. *)

From S2P Require Import Prelude Strings External Write Lines HeadingKey LineHash Sections Dates.
From S2P Require Import Reminder.

Definition MIRROR_TEXT_CHARS : nat := 80.
Definition EMPTY_MIRROR_TEXT : str := u "Reminder".
(** [ · ], [ → ] and [...] *)
Definition MIRROR_SEPARATOR : str := [32%N; 0xB7%N; 32%N].
Definition MIRROR_ARROW : str := [32%N; 0x2192%N; 32%N].
Definition ELLIPSIS : char := 0x2026.

(** ** Display text *)

Section display.
Context `{Clock}.

Definition strip_reminder (text : str) : str :=
  let without_token :=
    match parse_line text None ≫= lr_token with
    | Some token => remove_range text (token_range token)
    | None => text
    end in
  let text := take (writable_end without_token) without_token in
  take (trailing_comments_start text) text.

Definition trailing_metadata_start (text : str) : nat :=
  let comments := trailing_comments_start (take (writable_end text) text) in
  match parse_line text None ≫= lr_token with
  | Some token =>
      if is_some_and (λ rest, is_empty (trim rest))
           (get_range text (r_end (token_range token)) comments)
      then length (trim_end (take (r_start (token_range token)) text))
      else comments
  | None => comments
  end.

Definition reminder_text (line : str) : str :=
  let text := strip_reminder line in
  let trimmed := strip_quote_markers text in
  let item := strip_list_marker trimmed in
  let text := if (length item <? length trimmed)%nat then strip_checkbox item else item in
  trim (strip_time_prefix text).
End display.

Fixpoint escape_loop (fuel : nat) (escaped rest : str) : str :=
  match fuel with
  | 0 => escaped ++ rest
  | S fuel =>
      match find_sub TOKEN_OPEN rest with
      | None => escaped ++ rest
      | Some offset =>
          let escaped := escaped ++ take offset rest in
          let escaped := if ends_with [ch "\"] escaped then escaped else escaped ++ [ch "\"] in
          escape_loop fuel (escaped ++ TOKEN_OPEN) (drop (offset + length TOKEN_OPEN) rest)
      end
  end.

Definition escape_tokens (text : str) : str := escape_loop (S (length text)) [] text.

(** [str::rfind] of a predicate. *)
Fixpoint rfind_char (f : char → bool) (s : str) : option nat :=
  match s with
  | [] => None
  | c :: s =>
      match rfind_char f s with
      | Some i => Some (S i)
      | None => if f c then Some 0 else None
      end
  end.

Definition cut_text (text : str) (max_chars : nat) : str :=
  if (length text <=? max_chars)%nat then text
  else
    let limit := max_chars in
    let prefix := take limit text in
    let cut := match rfind_char is_whitespace prefix with
      | Some space =>
          if (0 <? space)%nat && negb (is_some_and is_whitespace (head (drop limit text)))
          then take space prefix else prefix
      | None => prefix
      end in
    trim_end cut ++ [ELLIPSIS].

Definition mirror_text (text : str) : str :=
  let clean := join [32%N] (split_whitespace (replace STRIKE [] (replace COMMENT_OPEN [] text))) in
  if is_empty clean then EMPTY_MIRROR_TEXT
  else cut_text (escape_tokens clean) MIRROR_TEXT_CHARS.

Definition note_link (path : str) : str := default path (strip_suffix (u ".md") path).

Definition index_link_line (path id : str) : str :=
  u "- [[" ++ note_link path ++ u "]] " ++ id_marker id.

(** ** Mirror lines *)

Section mirrors.
Context `{Clock}.

Inductive MirrorMark :=
  | Moved (date : NaiveDate)
  | Dropped
  | Removed.

Record MirrorLine := mkMirrorLine {
  ml_checked : bool;
  ml_time : option NaiveTime;
  ml_text : str;
  ml_mark : option MirrorMark;
  ml_carried : option Due;
  ml_note : str;
  ml_id : str;
}.

Definition parse_mirror_body (body : str) : option (str * option MirrorMark) :=
  match strip_prefix STRIKE body with
  | None => if negb (is_empty body) then Some (body, None) else None
  | Some struck =>
      text_after ← rsplit_once STRIKE struck;
      let after := text_after.2 in
      mark ← (if after == u " (dropped)" then Some Dropped
              else if after == u " (removed)" then Some Removed
              else rest ← strip_prefix MIRROR_ARROW after; Moved <$> parse_iso_date rest);
      Some (text_after.1, Some mark)
  end.

Definition mirror_checkbox (rest : str) : option (bool * str) :=
  match strip_prefix (u "- [ ] ") rest with
  | Some rest => Some (false, rest)
  | None =>
      match strip_prefix (u "- [x] ") rest with
      | Some rest => Some (true, rest)
      | None => pair true <$> strip_prefix (u "- [X] ") rest
      end
  end.

(** The carried due at the end of what is left of a line. *)
Definition take_carried (rest : str) : str * option Due :=
  match rsplit_once MIRROR_SEPARATOR rest with
  | Some (before, due) =>
      match Due_parse due with
      | Some due => (before, Some due)
      | None => (rest, None)
      end
  | None => (rest, None)
  end.

(** The planner time before the body. *)
Definition take_time (rest : str) : option NaiveTime * str :=
  match split_once (u " ") rest with
  | Some (time, body) =>
      match parse_clock time with
      | Some parsed => if (length time =? 5)%nat then (Some parsed, body) else (None, rest)
      | None => (None, rest)
      end
  | None => (None, rest)
  end.

Definition MirrorLine_parse (line : str) : option MirrorLine :=
  checked_rest ← mirror_checkbox (trim_end line);
  rest_marker ← rsplit_once (u " ") checked_rest.2;
  id ← id_in_comment rest_marker.2;
  rest ← strip_suffix (u "]]") rest_marker.1;
  rest_note ← rsplit_once (MIRROR_SEPARATOR ++ u "[[") rest;
  let note := default rest_note.2 (head (split_char (ch "|") rest_note.2)) in
  if is_empty note || existsb (λ c, is_char LBRACKET c || is_char RBRACKET c) note then None
  else
    let '(rest, carried) := take_carried rest_note.1 in
    let '(time, body) := take_time rest in
    text_mark ← parse_mirror_body body;
    Some (mkMirrorLine checked_rest.1 time text_mark.1 text_mark.2 carried note id).

(** [impl Display for MirrorLine] *)
Definition show_mirror_body (text : str) (mark : option MirrorMark) : str :=
  match mark with
  | None => text
  | Some (Moved date) => STRIKE ++ text ++ STRIKE ++ MIRROR_ARROW ++ format_ymd date
  | Some Dropped => STRIKE ++ text ++ STRIKE ++ u " (dropped)"
  | Some Removed => STRIKE ++ text ++ STRIKE ++ u " (removed)"
  end.

Definition show_mirror (m : MirrorLine) : str :=
  (u "- [" ++ (if ml_checked m then u "x" else u " ") ++ u "] ")
  ++ (match ml_time m with Some time => format_HM time ++ u " " | None => [] end)
  ++ show_mirror_body (ml_text m) (ml_mark m)
  ++ (match ml_carried m with Some due => MIRROR_SEPARATOR ++ show_due due | None => [] end)
  ++ MIRROR_SEPARATOR ++ u "[[" ++ ml_note m ++ u "]] " ++ id_marker (ml_id m).

(** ** Whole notes *)

Record Appearance := mkAppearance {
  ap_line : nat;
  ap_reminder : LineReminder;
  ap_mirror : bool;
}.

Context `{UnicodeTables}.

Definition heading_matches (text name : str) : bool :=
  if str_to_lowercase (trim text) == str_to_lowercase (trim name) then true
  else
    let key := heading_key name in
    negb (is_empty key) && (heading_key text == key).

Definition day_sections (d : Document) (names : list str) : list range :=
  let hs := headings d in
  map (λ h,
    mkRange (hl_index h + 1)
      (from_option hl_index (length (doc_lines d))
         (find (λ other, (hl_index h <? hl_index other)%nat
                         && (hl_level other <=? hl_level h)%nat) hs)))
    (filter (λ h, existsb (heading_matches (hl_text h)) names) hs).

(** The [for] loop of [parse_note], from line [index] on. *)
Fixpoint parse_note_loop (lines : list Line) (prot : list bool) (sections : list range)
    (day : option NaiveDate) (index : nat) (in_comment : bool) : list Appearance :=
  match lines with
  | [] => []
  | line :: lines =>
      if default false (prot !! index)
      then parse_note_loop lines prot sections day (S index) in_comment
      else
        let read := read_line (Line_text line) day in_comment in
        let rest := parse_note_loop lines prot sections day (S index) (rl_comment_open read) in
        match rl_reminder read with
        | None => rest
        | Some reminder =>
            let mirror :=
              is_none (lr_token reminder) && is_some (lr_id reminder)
              && existsb (λ section, range_contains section index) sections
              && is_some (MirrorLine_parse (Line_text line)) in
            mkAppearance index reminder mirror :: rest
        end
  end.

Definition parse_note (text path : str) (config : ReminderConfig) : list Appearance :=
  let document := Document_split text in
  let day := day_of (config_daily config) path in
  let sections := match day with
    | Some _ => day_sections document (day_headings config)
    | None => []
    end in
  parse_note_loop (doc_lines document) (protected document) sections day 0 false.
End mirrors.

Record NoteHeading := mkNoteHeading {
  nh_row : nat;
  nh_level : nat;
  nh_text : str;
}.

Definition note_headings (text : str) : list NoteHeading :=
  map (λ h, mkNoteHeading (hl_index h) (hl_level h) (hl_text h)) (headings (Document_split text)).

(** ** Mirror lines read back *)

Lemma is_id_no_space id : is_id id = true → 32%N ∉ id_marker id.
Proof.
  unfold is_id, id_marker. intros [_ Hid]%andb_true_iff. rewrite !not_elem_of_app. split_and!.
  - decide_closed.
  - intros Hin. rewrite forallb_forall in Hid. specialize (Hid 32%N).
    rewrite <- list_elem_of_In in Hid. by specialize (Hid Hin).
  - decide_closed.
Qed.

Lemma id_in_comment_marker id : is_id id = true → id_in_comment (id_marker id) = Some id.
Proof.
  intros Hid. unfold id_in_comment, id_marker. rewrite strip_prefix_app. cbn [mbind option_bind].
  rewrite strip_suffix_app. cbn [mbind option_bind]. by rewrite Hid.
Qed.

Section mirror_lines.
Context `{Clock} `{!ChronoLaws} `{!ClockLaws}.

Definition time_text (time : option NaiveTime) : str :=
  match time with Some time => format_HM time ++ u " " | None => [] end.

(** A body whose first word a reader would take for a planner time. *)
Definition clockless (body : str) : Prop :=
  ∀ word rest time, split_once (u " ") body = Some (word, rest) → parse_clock word = Some time →
    length word ≠ 5.

(** Text whose last part a reader would take for a carried due. *)
Definition dueless (text : str) : Prop :=
  ∀ before after, rsplit_once MIRROR_SEPARATOR text = Some (before, after) → Due_parse after = None.

(** A mirror that its line can say. *)
Record mirror_ok (m : MirrorLine) : Prop := {
  mok_time t : ml_time m = Some t → whole_minute t;
  mok_clock : ml_time m = None → clockless (show_mirror_body (ml_text m) (ml_mark m));
  mok_carried : match ml_carried m with
    | Some due => due_ok due
    | None => dueless (time_text (ml_time m) ++ show_mirror_body (ml_text m) (ml_mark m))
    end;
  mok_text : ml_mark m = None → ml_text m ≠ [] ∧ starts_with STRIKE (ml_text m) = false;
  mok_date d : ml_mark m = Some (Moved d) → four_digit d;
  mok_note : ml_note m ≠ [] ∧ LBRACKET ∉ ml_note m ∧ RBRACKET ∉ ml_note m ∧ ch "|" ∉ ml_note m;
  mok_id : is_id (ml_id m) = true;
}.

Lemma split_char_none sep s : sep ∉ s → split_char sep s = [s].
Proof.
  induction s as [|c s IH]; [done|]. intros [Hc Hs]%not_elem_of_cons. simpl.
  rewrite (proj2 (N.eqb_neq c sep)) by done. by rewrite IH.
Qed.

Lemma format_HM_plain c t : is_ascii_digit c = false → c ≠ ch ":" → c ∉ format_HM t.
Proof.
  intros Hc Hd. destruct (format_HM_shape t) as (_ & _ & Hdig). rewrite format_HM_digits.
  rewrite forallb_app, andb_true_iff in Hdig. destruct Hdig as (D1 & D2).
  rewrite !not_elem_of_app. split_and!; try (by apply digits_no_char);
    by intros [?|?%not_elem_of_nil]%elem_of_cons.
Qed.

Lemma show_due_plain c due :
  due_ok due → is_ascii_digit c = false → c ≠ ch "-" → c ≠ ch ":" → c ≠ 32%N → c ∉ show_due due.
Proof.
  intros [Hy _] Hc E1 E2 E3. unfold show_due. rewrite not_elem_of_app. split.
  - by apply format_ymd_plain.
  - destruct (due_time due) as [t|]; [|apply not_elem_of_nil].
    rewrite not_elem_of_app. split; [|by apply format_HM_plain].
    by intros [?|?%not_elem_of_nil]%elem_of_cons.
Qed.

(** The body of a mirror reads back. *)
Lemma parse_mirror_body_show m :
  mirror_ok m → parse_mirror_body (show_mirror_body (ml_text m) (ml_mark m)) = Some (ml_text m, ml_mark m).
Proof.
  intros [_ _ _ Htext Hdate _ _]. unfold parse_mirror_body, show_mirror_body.
  assert (∀ t after, ch "~" ∉ after → rsplit_once STRIKE (t ++ STRIKE ++ after) = Some (t, after)) as Hsp.
  { intros t after Ha. apply (rsplit_once_mark (ch "~") [ch "~"] []); [apply not_elem_of_nil|done]. }
  destruct (ml_mark m) as [[d| |]|].
  - rewrite strip_prefix_app, Hsp.
    + cbn [mbind option_bind fst snd]. rewrite !bool_decide_eq_false_2 by (by intros E).
      rewrite strip_prefix_app. cbn [mbind option_bind].
      rewrite parse_iso_date_format by (by apply Hdate). done.
    + rewrite not_elem_of_app. split; [|by apply format_ymd_plain; [apply Hdate|..]].
      decide_closed.
  - rewrite strip_prefix_app, Hsp; [done|]. decide_closed.
  - rewrite strip_prefix_app, Hsp; [done|]. decide_closed.
  - destruct (Htext eq_refl) as [Hne Hs]. rewrite (proj2 (strip_prefix_None _ _) Hs).
    unfold is_empty. by rewrite bool_decide_eq_false_2.
Qed.

(** The other parts of a line read back. *)
Lemma mirror_checkbox_show (checked : bool) rest :
  mirror_checkbox ((u "- [" ++ (if checked then u "x" else u " ") ++ u "] ") ++ rest)
  = Some (checked, rest).
Proof.
  unfold mirror_checkbox. destruct checked.
  - change (u "- [" ++ u "x" ++ u "] ") with (u "- [x] ").
    assert (strip_prefix (u "- [ ] ") (u "- [x] " ++ rest) = None) as -> by done.
    by rewrite strip_prefix_app.
  - change (u "- [" ++ u " " ++ u "] ") with (u "- [ ] "). by rewrite strip_prefix_app.
Qed.

Definition carried_text (carried : option Due) : str :=
  match carried with Some due => MIRROR_SEPARATOR ++ show_due due | None => [] end.

Lemma take_carried_show text carried :
  match carried with Some due => due_ok due | None => dueless text end →
  take_carried (text ++ carried_text carried) = (text, carried).
Proof.
  unfold take_carried, carried_text. destruct carried as [due|]; intros Hcar.
  - change MIRROR_SEPARATOR with ([32%N] ++ 0xB7%N :: [32%N]).
    rewrite (rsplit_once_mark 0xB7%N [32%N] [32%N]).
    + by rewrite due_roundtrip_lemma.
    + decide_closed.
    + by apply show_due_plain.
  - rewrite app_nil_r. destruct (rsplit_once _ _) as [[before due]|] eqn:E; [|done].
    by rewrite (Hcar _ _ E).
Qed.

Lemma take_time_show time body :
  match time with Some t => whole_minute t | None => clockless body end →
  take_time (time_text time ++ body) = (time, body).
Proof.
  unfold take_time. change (u " ") with ([] ++ 32%N :: []).
  destruct time as [t|]; cbn [time_text]; intros Ht.
  - rewrite <- app_assoc. change (u " ") with ([] ++ 32%N :: []).
    rewrite (split_once_mark 32%N [] []) by (apply not_elem_of_nil || by apply format_HM_plain).
    rewrite parse_clock_format by (by apply Ht).
    destruct (format_HM_shape t) as (L1 & L2 & _).
    rewrite (proj2 (Nat.eqb_eq _ _)); [done|].
    rewrite format_HM_digits, !length_app, L1, L2. done.
  - cbn [app]. destruct (split_once [32%N] body) as [[word rest]|] eqn:E; [|done].
    destruct (parse_clock word) as [t|] eqn:Ec; [|done].
    rewrite (proj2 (Nat.eqb_neq _ _)); [done|]. by eapply Ht.
Qed.

(** The link to the note and the id marker end a line. *)
Lemma show_mirror_split m :
  show_mirror m
  = (u "- [" ++ (if ml_checked m then u "x" else u " ") ++ u "] ")
    ++ (((time_text (ml_time m) ++ show_mirror_body (ml_text m) (ml_mark m))
         ++ carried_text (ml_carried m))
        ++ ((MIRROR_SEPARATOR ++ u "[") ++ LBRACKET :: []) ++ ml_note m ++ u "]]")
       ++ ([] ++ 32%N :: []) ++ id_marker (ml_id m).
Proof.
  unfold show_mirror. fold (time_text (ml_time m)). fold (carried_text (ml_carried m)).
  change (u "]] ") with (u "]]" ++ [] ++ 32%N :: []).
  change ((MIRROR_SEPARATOR ++ u "[") ++ LBRACKET :: []) with (MIRROR_SEPARATOR ++ u "[[").
  by rewrite <- !app_assoc.
Qed.

(** A mirror line reads back into the mirror it was written from. *)
Theorem mirror_roundtrip m : mirror_ok m → MirrorLine_parse (show_mirror m) = Some m.
Proof.
  intros Hok. pose proof (parse_mirror_body_show m Hok) as Hbody.
  destruct Hok as [Htime Hclock Hcar _ _ (Hn1 & Hn2 & Hn3 & Hn4) Hid].
  unfold MirrorLine_parse. rewrite (trim_end_last _ (ch ">")).
  2:{ unfold show_mirror, id_marker. change COMMENT_CLOSE with (u "--" ++ [ch ">"]).
      rewrite !app_assoc. by rewrite last_snoc. }
  2:{ done. }
  rewrite show_mirror_split, mirror_checkbox_show. cbn [mbind option_bind fst snd].
  change (u " ") with ([] ++ 32%N :: []).
  rewrite (rsplit_once_mark 32%N [] []) by (apply not_elem_of_nil || by apply is_id_no_space).
  cbn [mbind option_bind fst snd]. rewrite id_in_comment_marker by done. cbn [mbind option_bind].
  rewrite !app_assoc, strip_suffix_app. cbn [mbind option_bind]. rewrite <- !app_assoc.
  rewrite (app_assoc (time_text _)), (app_assoc (_ ++ show_mirror_body _ _)).
  rewrite (app_assoc MIRROR_SEPARATOR), (app_assoc (MIRROR_SEPARATOR ++ _)).
  change (MIRROR_SEPARATOR ++ u "[[") with ((MIRROR_SEPARATOR ++ u "[") ++ LBRACKET :: []).
  rewrite (rsplit_once_mark LBRACKET) by (done || apply not_elem_of_nil).
  cbn [mbind option_bind fst snd]. rewrite split_char_none by done. cbn [head default from_option id].
  unfold is_empty. rewrite (bool_decide_eq_false_2 (ml_note m = [])) by done. cbn [orb].
  assert (existsb (λ c, is_char LBRACKET c || is_char RBRACKET c) (ml_note m) = false) as ->.
  { apply existsb_false, Forall_forall. intros c Hc. unfold is_char.
    rewrite orb_false_iff, !N.eqb_neq. split; by intros <-. }
  rewrite take_carried_show by done. rewrite take_time_show.
  2:{ destruct (ml_time m); [by apply Htime|by apply Hclock]. }
  rewrite Hbody. cbn [mbind option_bind fst snd]. by destruct m.
Qed.
End mirror_lines.

(** ** A mirror's text holds no live token *)

(** Every [(@] is right after a backslash, where it is text. *)
Definition escaped_tokens (s : str) : Prop :=
  ∀ i, s !! i = Some (ch "(") → s !! S i = Some (ch "@") → ∃ j, i = S j ∧ s !! j = Some (ch "\").

Lemma token_open_at s i :
  starts_with TOKEN_OPEN (drop i s) = true ↔ s !! i = Some (ch "(") ∧ s !! S i = Some (ch "@").
Proof.
  rewrite <- (Nat.add_0_r i) at 2. rewrite <- Nat.add_1_r, <- !lookup_drop.
  generalize (drop i s). intros t. unfold TOKEN_OPEN. destruct t as [|x [|y t]].
  - by split; [|intros []].
  - cbn [u starts_with]. rewrite andb_false_r. by split; [|intros []].
  - cbn [u starts_with]. rewrite andb_true_r, andb_true_iff, !N.eqb_eq. simpl lookup.
    split; [intros [<- <-]; done|by intros [[= ->] [= ->]]].
Qed.

Lemma escaped_prefix a b : escaped_tokens (a ++ b) → escaped_tokens a.
Proof.
  intros H i H1 H2. destruct (H i) as (j & -> & Hj).
  - by apply lookup_app_l_Some.
  - by apply lookup_app_l_Some.
  - exists j. split; [done|]. apply lookup_lt_Some in H1. by rewrite lookup_app_l in Hj by lia.
Qed.

Lemma escaped_snoc a c : escaped_tokens a → c ≠ ch "@" → escaped_tokens (a ++ [c]).
Proof.
  intros Ha Hc i H1 H2. apply lookup_app_Some in H2 as [H2|[Hl H2]].
  - apply lookup_lt_Some in H2 as Hlt. rewrite lookup_app_l in H1 by lia.
    destruct (Ha i H1 H2) as (j & -> & Hj). exists j. split; [done|].
    by apply lookup_app_l_Some.
  - destruct (S i - length a) as [|k]; simpl in H2; [by injection H2 as ->|by destruct k].
Qed.

(** Text without a token, put after escaped text that does not end in an
    opening parenthesis. *)
Lemma escaped_app a b :
  escaped_tokens a → last a ≠ Some (ch "(") →
  (∀ i, starts_with TOKEN_OPEN (drop i b) = false) → escaped_tokens (a ++ b).
Proof.
  intros Ha Hl Hb i H1 H2. apply lookup_app_Some in H1 as [H1|[Hle H1]].
  - destruct (decide (S i < length a)) as [Hlt|Hge].
    + rewrite lookup_app_l in H2 by done. destruct (Ha i H1 H2) as (j & -> & Hj).
      exists j. split; [done|]. by apply lookup_app_l_Some.
    + exfalso. apply Hl. rewrite last_lookup. apply lookup_lt_Some in H1 as Hlt.
      by replace (pred (length a)) with i by lia.
  - exfalso. rewrite lookup_app_r in H2 by lia.
    assert (starts_with TOKEN_OPEN (drop (i - length a) b) = true) as Hs.
    { apply token_open_at. split; [done|]. by replace (S (i - length a)) with (S i - length a) by lia. }
    congruence.
Qed.

Lemma escape_loop_escaped fuel acc rest :
  length rest < fuel → escaped_tokens acc → last acc ≠ Some (ch "(") →
  escaped_tokens (escape_loop fuel acc rest).
Proof.
  revert acc rest; induction fuel as [|fuel IH]; intros acc rest Hf Ha Hl; [lia|].
  cbn [escape_loop]. destruct (find_sub TOKEN_OPEN rest) as [offset|] eqn:E.
  2:{ apply escaped_app; [done..|]. by apply find_sub_None. }
  apply find_sub_Some in E as (Hs & Hlen & _ & Hfirst).
  assert (escaped_tokens (acc ++ take offset rest)) as Hacc.
  { apply escaped_app; [done..|]. intros i. apply not_true_iff_false. intros Hi.
    apply token_open_at in Hi as [H1 H2].
    apply lookup_take_Some in H1 as [H1 Hlt], H2 as [H2 _].
    specialize (Hfirst i Hlt). apply not_true_iff_false in Hfirst. apply Hfirst.
    by apply token_open_at. }
  set (acc1 := acc ++ take offset rest) in *.
  set (acc2 := if ends_with [ch "\"] acc1 then acc1 else acc1 ++ [ch "\"]).
  assert (escaped_tokens acc2 ∧ last acc2 = Some (ch "\")) as [H2 Hlast].
  { subst acc2. destruct (ends_with [ch "\"] acc1) eqn:Ee.
    - split; [done|]. apply ends_with_app in Ee as [r ->]. apply last_snoc.
    - split; [by apply escaped_snoc|apply last_snoc]. }
  apply IH.
  - rewrite length_drop. unfold TOKEN_OPEN in *. simpl in *. lia.
  - intros i H3 H4. assert (acc2 ++ TOKEN_OPEN = (acc2 ++ [ch "("]) ++ [ch "@"]) as Heq
      by (by rewrite <- app_assoc).
    destruct (decide (i = length acc2)) as [->|Hne].
    + exists (pred (length acc2)). destruct acc2 as [|x l]; [done|]. simpl. split; [done|].
      rewrite last_lookup in Hlast. simpl in Hlast.
      by rewrite app_comm_cons, lookup_app_l by (simpl; lia).
    + assert (escaped_tokens (acc2 ++ [ch "("])) as H5 by (by apply escaped_snoc).
      rewrite Heq in H3, H4. apply lookup_lt_Some in H4 as Hlt4.
      rewrite !length_app in Hlt4. simpl in Hlt4.
      rewrite lookup_app_l in H3, H4 by (len_lia).
      destruct (H5 i H3 H4) as (j & -> & Hj). exists j. split; [done|].
      rewrite Heq. by apply lookup_app_l_Some.
  - unfold TOKEN_OPEN. change (u "(@") with ([ch "("] ++ [ch "@"]). rewrite app_assoc, last_snoc.
    by intros [=].
Qed.

Lemma cut_text_escaped s n : escaped_tokens s → escaped_tokens (cut_text s n).
Proof.
  intros Hs. unfold cut_text. destruct (_ <=? _)%nat; [done|]. cbv zeta.
  set (cut := match rfind_char _ _ with Some _ => _ | None => _ end).
  assert (∃ y, s = cut ++ y) as [y Hy].
  { subst cut. destruct (rfind_char _ _) as [space|]; [|exists (drop n s); by rewrite take_drop].
    destruct (_ && _); [|exists (drop n s); by rewrite take_drop].
    rewrite take_take. eexists. by rewrite take_drop. }
  apply escaped_snoc; [|done].
  destruct (trim_end_matches_app is_whitespace cut) as (q & Hq & _). unfold trim_end.
  rewrite Hy, Hq, <- app_assoc in Hs. by apply escaped_prefix in Hs.
Qed.

Section inert.
Context `{Clock}.

Lemma escaped_no_token s ex : escaped_tokens s → last_token s ex = None.
Proof.
  intros Hs. unfold last_token. generalize (S (length s)) as fuel, 0 as search. intros fuel.
  induction fuel as [|fuel IH]; intros search; [done|]. cbn [last_token_loop].
  destruct (get_from s search ≫= find_sub TOKEN_OPEN) as [offset|] eqn:E; [|done].
  unfold get_from in E. destruct (search <=? length s)%nat; [|done]. cbn [mbind option_bind] in E.
  apply find_sub_Some in E as (Ht & _). rewrite drop_drop in Ht.
  apply token_open_at in Ht as [H1 H2]. destruct (Hs _ H1 H2) as (j & Hj & Hb).
  assert (ends_with [ch "\"] (take (search + offset) s) = true) as ->; [|apply IH].
  apply ends_with_app. exists (take j s). rewrite Hj. by apply take_S_r.
Qed.

(** Whatever the words of a reminder, its mirror's text holds no token a
    reader would take for one, even after it is cut. *)
Theorem mirror_text_inert text ex : last_token (mirror_text text) ex = None.
Proof.
  apply escaped_no_token. unfold mirror_text. cbv zeta.
  destruct (is_empty _).
  - intros i H1 _. apply list_elem_of_lookup_2, list_elem_of_In in H1. vm_compute in H1.
    repeat destruct H1 as [H1|H1]; done.
  - apply cut_text_escaped. unfold escape_tokens. apply escape_loop_escaped; [lia| |done].
    by intros i H1.
Qed.
End inert.

(** A cut text has at most the characters allowed and the ellipsis, and
    begins as the text did. *)
Theorem cut_text_bounds text max_chars :
  length (cut_text text max_chars) ≤ S max_chars ∧
  (cut_text text max_chars = text ∨
   ∃ kept dropped, text = kept ++ dropped ∧ cut_text text max_chars = kept ++ [ELLIPSIS]).
Proof.
  unfold cut_text. destruct (Nat.leb_spec (length text) max_chars) as [Hl|Hl]; [split; [lia|by left]|].
  cbv zeta. set (cut := match rfind_char _ _ with Some _ => _ | None => _ end).
  assert (∃ y, take max_chars text = cut ++ y) as [y Hy].
  { subst cut. destruct (rfind_char _ _) as [space|]; [|exists []; by rewrite app_nil_r].
    destruct (_ && _); [|exists []; by rewrite app_nil_r]. exists (drop space (take max_chars text)).
    by rewrite take_drop. }
  destruct (trim_end_matches_app is_whitespace cut) as (q & Hq & _). fold (trim_end cut) in Hq.
  split.
  - rewrite length_app. simpl. apply (f_equal length) in Hy, Hq.
    rewrite length_take, length_app in Hy. rewrite length_app in Hq. lia.
  - right. exists (trim_end cut), (q ++ y ++ drop max_chars text). split; [|done].
    by rewrite !app_assoc, <- Hq, <- Hy, take_drop.
Qed.

(** What the text's doc promises beyond tokens does not hold: taking the
    strikes out can leave a comment opener, which hides the rest of the line. *)
Theorem mirror_text_can_open_comment :
  contains COMMENT_OPEN (mirror_text (u "a <!~~-- b")) = true.
Proof. vm_compute. reflexivity. Qed.
