(* ===== verification/Rules.v ===== *)
(** * The rules of the agents' bridge ([thock-bridge/rules.rs])

    Which vault paths an agent may touch, which facts are refused, the lines
    the desk writes on an agent's behalf and the writes that carry them. *)

From S2P Require Import Prelude Strings External Write.

Definition INBOX_PATH : str := u "memory/inbox.md".
Definition FACT_MAX_CHARS : nat := 300.
Definition FORBIDDEN_HEADING : str := u "What Thock should not keep".
(** [ · ] and [ · via ] *)
Definition SEPARATOR : str := [32%N; 0xB7%N; 32%N].
Definition VIA_MARKER : str := [32%N; 0xB7%N; 32%N] ++ u "via ".
Definition SLASH_CHAR : char := 47.
Definition BACKSLASH_CHAR : char := 92.

(** ** Paths *)

Inductive PathError := PathEmpty | Absolute | Traversal | Hidden | EmptyComponent.

Definition is_path_separator (c : char) : bool :=
  (c =? SLASH_CHAR)%N || (c =? BACKSLASH_CHAR)%N.

(** The body of the loop over the components. *)
Definition component_error (component : str) : option PathError :=
  if component == [] then Some EmptyComponent
  else if component == u ".." then Some Traversal
  else if starts_with (u ".") component then Some Hidden
  else None.

Definition validate_vault_path (path : str) : result unit PathError :=
  let path := trim path in
  err_if (path == []) PathEmpty (
  err_if (starts_with [SLASH_CHAR] path || starts_with [BACKSLASH_CHAR] path
          || (path !! 1 == Some (ch ":"))) Absolute (
  match find_map component_error (split_by is_path_separator path) with
  | Some e => Err e
  | None => Ok tt
  end)).

(** [Display] of a refused path. *)
Definition PathError_message (e : PathError) : str :=
  match e with
  | PathEmpty => u "the path is empty"
  | Absolute => u "the path must be relative to the vault"
  | Traversal => u "the path leaves the vault"
  | Hidden => u "paths under a dot-folder are Thock's own and stay closed"
  | EmptyComponent => u "the path has an empty segment"
  end.

(** ** Harness names *)

(** One character of the loop of [sanitize_harness]: [out], [last_dash]. *)
Definition sanitize_step (state : str * bool) (character : char) : str * bool :=
  let lower := ascii_lower character in
  if is_ascii_alphanumeric lower then (state.1 ++ [lower], false)
  else if negb state.2 then (state.1 ++ [ch "-"], true)
  else state.

Definition sanitize_harness (raw : str) : str :=
  let out := (fold_left sanitize_step (take 60 (trim raw)) ([], true)).1 in
  let out := trim_matches (N.eqb (ch "-")) out in
  if out == [] then u "agent" else take 40 out.

(** [thock_bridge.rs] *)
Record ClientIdentity := mkClientIdentity {
  harness : str;
  host : str;
}.

Definition ClientIdentity_new (harness host : str) : ClientIdentity :=
  mkClientIdentity (sanitize_harness harness) host.

Definition label (identity : ClientIdentity) : str :=
  harness identity ++ u "@" ++ host identity.

(** ** Facts *)

Definition STOP_WORDS : list str :=
  [u "about"; u "after"; u "again"; u "also"; u "anything"; u "around"; u "before";
   u "between"; u "could"; u "during"; u "else"; u "ever"; u "every"; u "everything"; u "from";
   u "have"; u "into"; u "just"; u "keep"; u "kept"; u "like"; u "mine"; u "more"; u "most";
   u "much"; u "never"; u "none"; u "nothing"; u "only"; u "other"; u "ours"; u "over";
   u "please"; u "same"; u "should"; u "some"; u "something"; u "such"; u "than"; u "that";
   u "their"; u "theirs"; u "them"; u "then"; u "there"; u "these"; u "they"; u "thing";
   u "things"; u "this"; u "thock"; u "those"; u "through"; u "under"; u "until"; u "upon";
   u "very"; u "want"; u "what"; u "whatever"; u "when"; u "where"; u "which"; u "while";
   u "with"; u "without"; u "would"; u "your"; u "yours"].

Inductive FilterRefusal :=
  | FactEmpty
  | TooLong
  | Multiline
  | LeadingBullet
  | ForbiddenTopic (topic : str)
  | Credential (kind : str).

(** [Display] of a refusal. *)
Definition refusal_message (e : FilterRefusal) : str :=
  match e with
  | FactEmpty => u "the line is empty"
  | TooLong =>
      u "the line is over " ++ show_N (N.of_nat FACT_MAX_CHARS)
      ++ u " characters; keep it to one fact"
  | Multiline => u "one line only; it holds a line break"
  | LeadingBullet => u "write the fact without a leading `- `; the desk adds the bullet"
  | ForbiddenTopic _ => u "that topic is on the person's do-not-keep list"
  | Credential kind => u "that looks like " ++ kind ++ u "; secrets are never kept"
  end.

Definition is_one_of (s : str) (c : char) : bool := existsb (N.eqb c) s.

(** 13 to 19 digits. *)
Definition card_length (digits : nat) : bool := (13 <=? digits)%nat && (digits <=? 19)%nat.

(** The loop of [has_long_digit_run]: digits of the run so far, and whether the
    character before was a separator. *)
Fixpoint long_digit_run (digits : nat) (previous_was_separator : bool) (text : str) : bool :=
  match text with
  | [] => card_length digits
  | character :: text =>
      if is_ascii_digit character then long_digit_run (S digits) false text
      else if is_one_of (u " -") character && (0 <? digits)%nat && negb previous_was_separator
      then long_digit_run digits true text
      else if card_length digits then true
      else long_digit_run 0 false text
  end.

Definition has_long_digit_run (text : str) : bool := long_digit_run 0 false text.

Definition is_iban (token : str) : bool :=
  let token := trim_matches (λ c, negb (is_ascii_alphanumeric c)) token in
  let bytes := as_bytes token in
  (15 <=? length bytes)%nat && (length bytes <=? 34)%nat
  && is_some_and is_ascii_uppercase (bytes !! 0)
  && is_some_and is_ascii_uppercase (bytes !! 1)
  && is_some_and is_ascii_digit (bytes !! 2)
  && is_some_and is_ascii_digit (bytes !! 3)
  && forallb is_ascii_alphanumeric (drop 4 bytes)
  && existsb is_ascii_digit (drop 4 bytes).

(** The loop over one keyword: whether some occurrence is followed by [:] or
    [=]. [lower] is what follows [from]. *)
Fixpoint keyword_loop (fuel : nat) (keyword lower : str) : bool :=
  match fuel with
  | 0 => false
  | S fuel =>
      match find_sub keyword lower with
      | None => false
      | Some found =>
          let after := drop (found + length keyword) lower in
          if starts_with (u ":") (trim_start after) || starts_with (u "=") (trim_start after)
          then true
          else keyword_loop fuel keyword after
      end
  end.

Definition SECRET_KEYWORDS : list str :=
  [u "password"; u "passwd"; u "secret"; u "token"; u "api_key"; u "api-key"; u "api key";
   u "apikey"].

(** The double quote. *)
Definition QUOTE : char := 34.

Definition splits_tokens (c : char) : bool :=
  is_whitespace c || (c =? QUOTE)%N || is_one_of (u "'`(),;") c.

(** The body of the loop over the tokens. *)
Definition token_shape (strict : bool) (token : str) : option str :=
  if (utf8_len token <? 12)%nat then None
  else if starts_with (u "sk-") token || starts_with (u "ghp_") token
          || starts_with (u "AKIA") token
  then Some (u "an API token")
  else if existsb (λ prefix, starts_with prefix token) [u "xoxa-"; u "xoxb-"; u "xoxp-"]
  then Some (u "an API token")
  else if negb strict then None
  else if (32 <=? utf8_len token)%nat && forallb is_ascii_hexdigit token
  then Some (u "a key")
  else if (32 <=? utf8_len token)%nat
          && forallb (λ c, is_ascii_alphanumeric c || is_one_of (u "+/=_-") c) token
          && existsb is_ascii_digit token
          && existsb is_ascii_uppercase token
          && existsb is_ascii_lowercase token
  then Some (u "a key")
  else if is_iban token then Some (u "an account number")
  else None.

Section facts.
Context `{UnicodeTables}.

(** Lowercased alphanumeric runs. *)
Definition words (text : str) : list str :=
  map str_to_lowercase
    (filter (λ word, word ≠ []) (split_by (λ c, negb (is_alphanumeric c)) text)).

Definition credential_shape (text : str) (strict : bool) : option str :=
  let lower := str_to_lowercase text in
  match find_map (token_shape strict) (split_by splits_tokens text) with
  | Some kind => Some kind
  | None =>
      if existsb (λ keyword, keyword_loop (S (length lower)) keyword lower) SECRET_KEYWORDS
      then Some (u "a secret")
      else if strict && has_long_digit_run text then Some (u "an account or card number")
      else None
  end.

Definition looks_like_credential (text : str) : option str := credential_shape text true.

(** The heading of a line, marks and surrounding space stripped. *)
Definition opens_forbidden (heading : str) : bool :=
  let text := trim (trim_start_matches (N.eqb (ch "#")) heading) in
  eq_ignore_ascii_case text FORBIDDEN_HEADING
  || eq_ignore_ascii_case
       (trim_end_matches (is_one_of (u "*_")) (trim_start_matches (is_one_of (u "*_")) text))
       FORBIDDEN_HEADING.

(** The words of a rule, and those of them that are kept as topics. *)
Definition rule_body (trimmed : str) : str :=
  trim (trim_start_str (u "[x]") (trim_start_str (u "[ ]")
    (trim_start_matches (is_one_of (u "-*+")) trimmed))).

Definition long_words (body : str) : list str :=
  filter (λ word, 4 ≤ length word) (words body).

Definition kept_words (long : list str) : list str :=
  let kept := filter (λ word, word ∉ STOP_WORDS) long in
  if kept == [] then long else kept.

Definition add_topic (topics : list str) (word : str) : list str :=
  if decide (word ∈ topics) then topics else topics ++ [word].

(** One line of the loop of [forbidden_topics]: [inside], [topics]. *)
Definition topics_step (state : bool * list str) (line : str) : bool * list str :=
  let trimmed := trim line in
  match strip_prefix (u "#") trimmed with
  | Some heading => (opens_forbidden heading, state.2)
  | None =>
      if state.1
      then (true, fold_left add_topic (kept_words (long_words (rule_body trimmed))) state.2)
      else state
  end.

Definition forbidden_topics (profile : str) : list str :=
  (fold_left topics_step (str_lines profile) (false, [])).2.

Definition touches (line : str) (forbidden : list str) : option str :=
  let line_words := words line in
  find (λ topic, existsb (λ word, word == topic) line_words) forbidden.

Definition check_fact (text : str) (forbidden : list str) : result str FilterRefusal :=
  let trimmed := trim text in
  err_if (trimmed == []) FactEmpty (
  err_if (existsb (is_one_of [10; 13]%N) trimmed) Multiline (
  err_if (FACT_MAX_CHARS <? length trimmed)%nat TooLong (
  err_if (starts_with (u "- ") trimmed || starts_with (u "* ") trimmed) LeadingBullet (
  match looks_like_credential trimmed with
  | Some kind => Err (Credential kind)
  | None =>
      match touches trimmed forbidden with
      | Some topic => Err (ForbiddenTopic topic)
      | None => Ok trimmed
      end
  end)))).

(** One line of the loop of [find_unkeepable]. *)
Definition unkeepable_line (forbidden : list str) (index : nat) (line : str) : option str :=
  let trimmed := trim line in
  if trimmed == [] then None
  else match credential_shape trimmed false with
  | Some kind => Some (u "line " ++ show_N (N.of_nat (index + 1)) ++ u " looks like " ++ kind)
  | None =>
      match touches trimmed forbidden with
      | Some topic =>
          Some (u "line " ++ show_N (N.of_nat (index + 1))
                ++ u " touches a topic on the person's do-not-keep list (" ++ topic ++ u ")")
      | None => None
      end
  end.

Definition find_unkeepable (text : str) (forbidden : list str) : option str :=
  find_map (λ il : nat * str, unkeepable_line forbidden il.1 il.2) (imap pair (str_lines text)).
End facts.

(** ** Lines the desk writes *)

Section agent_lines.
Context `{ChronoParse}.

Definition inbox_line (date : NaiveDate) (fact : str) (identity : ClientIdentity) : str :=
  u "- " ++ format_ymd date ++ SEPARATOR ++ trim fact ++ VIA_MARKER ++ label identity.

Record InboxLine := mkInboxLine {
  inbox_date : NaiveDate;
  inbox_fact : str;
  inbox_via : option ClientIdentity;
}.

Definition parse_inbox_line (line : str) : option InboxLine :=
  body ← strip_prefix (u "- ") (trim line);
  date_rest ← split_once SEPARATOR body;
  date ← parse_ymd (trim date_rest.1);
  fact_via ← match rsplit_once VIA_MARKER date_rest.2 with
    | Some (fact, via) =>
        harness_host ← split_once (u "@") (trim via);
        Some (fact, Some (mkClientIdentity harness_host.1 harness_host.2))
    | None => Some (date_rest.2, None)
    end;
  Some (mkInboxLine date (trim fact_via.1) fact_via.2).

Definition today_line (identity : ClientIdentity) (line : str) : str :=
  u "- " ++ label identity ++ SEPARATOR ++ trim line.

Definition parse_today_line (line : str) : option (ClientIdentity * str) :=
  body ← strip_prefix (u "- ") (trim line);
  who_text ← split_once SEPARATOR body;
  harness_host ← split_once (u "@") (trim who_text.1);
  Some (mkClientIdentity harness_host.1 harness_host.2, trim who_text.2).
End agent_lines.

Definition inbox_write (client_id line : str) : Write :=
  Write_new client_id INBOX_PATH (Append None [line] End false false None).

Definition today_write (client_id note_path heading : str) (lines : list str) : Write :=
  Write_new client_id note_path
    (Append (Some (Heading_new (trim heading))) lines End false true None).
