(* ===== verification/NoteIndex.v ===== *)
(** * The keyword index of the bridge ([thock-bridge/search.rs])

    One entry a note, in a [BTreeMap] by path; [search] scores the notes whose
    words match every term, [recent] lists the ones of the last days,
    [resolve_link] finds the note a wikilink names. The records a query and its
    answer are made of come from [rpc.rs]. *)

From stdpp Require Import sorting.
From S2P Require Import Prelude Strings External Float64 Ordering Rules.

Definition SNIPPET_CHARS : nat := 240.
(** […] *)
Definition ELLIPSIS : char := 0x2026.

(** The first [# ] heading of a note, else its file stem. *)
Definition stem (path : str) : str :=
  let name := default path (last (split_char SLASH_CHAR path)) in
  default name (strip_suffix (u ".md") name).

Definition heading_title (line : str) : option str :=
  match strip_prefix (u "# ") line with
  | Some rest => let title := trim rest in if title == [] then None else Some title
  | None => None
  end.

Definition note_title (path body : str) : str :=
  default (stem path) (find_map heading_title (map trim (str_lines body))).

Inductive LinkResolution :=
  | Found (path : str)
  | Ambiguous (paths : list str)
  | Missing.

Definition in_folder (path folder : str) : bool :=
  is_some_and (starts_with [SLASH_CHAR]) (strip_prefix folder path).

(** The [folder] filter of a query, slashes trimmed, none when it is empty. *)
Definition folder_filter (folder : option str) : option str :=
  match folder with
  | Some folder =>
      let folder := trim_matches (N.eqb SLASH_CHAR) folder in
      if folder == [] then None else Some folder
  | None => None
  end.

Record Term := mkTerm { term_text : str; prefix : bool }.

Definition matches (term : Term) (word : str) : bool :=
  if prefix term then starts_with (term_text term) word else word == term_text term.

(** How many of the words the term matches. *)
Definition occurrences (term : Term) (words : list str) : nat :=
  length (filter (λ w, matches term w = true) words).

(** The loop over the terms: [None] once a term matches nothing. *)
Fixpoint score_terms (score : f64) (terms : list Term) (title_words body_words : list str)
  : option f64 :=
  match terms with
  | [] => Some score
  | term :: terms =>
      let in_title := occurrences term title_words in
      let in_body := occurrences term body_words in
      if (in_title + in_body =? 0)%nat then None
      else score_terms
        (f64_add score (f64_add (f64_mul (f64_of_Z 3) (f64_of_Z (Z.of_nat in_title)))
                                (f64_of_Z (Z.of_nat in_body))))
        terms title_words body_words
  end.

(** [1.0 + 1.0 / (1.0 + age_days / 30.0)] *)
Definition recency (age_days : Z) : f64 :=
  f64_add (f64_of_Z 1)
    (f64_div (f64_of_Z 1) (f64_add (f64_of_Z 1) (f64_div (f64_of_Z age_days) (f64_of_Z 30)))).

(** The loop of [snippet] over the lines from the hit on. *)
Fixpoint collect (collected : list str) (chars : nat) (lines : list str) : list str :=
  match lines with
  | [] => collected
  | line :: lines =>
      let line := trim line in
      if line == [] then
        if collected == [] then collect collected chars lines else collected
      else
        let len := length line in
        if (SNIPPET_CHARS <? chars + len)%nat then
          if collected == [] then [line] else collected
        else collect (collected ++ [line]) (chars + (len + 1)) lines
  end.

Section index.
Context `{UnicodeTables} `{ChronoDays}.

Definition parse_term (raw : str) : Term :=
  let lower := str_to_lowercase raw in
  match strip_suffix (u "*") lower with
  | Some text => mkTerm text true
  | None => mkTerm lower false
  end.

Definition word_list (text : str) : list str :=
  map str_to_lowercase
    (filter (λ word, word ≠ []) (split_by (λ c, negb (is_alphanumeric c)) text)).

Definition line_hits (term : Term) (line : str) : bool := existsb (matches term) (word_list line).

Definition snippet (body : str) (term : Term) : str :=
  let lines := str_lines body in
  let hit := default 0 (fst <$> list_find (λ line, line_hits term line = true) lines) in
  let text := join (u " ") (collect [] 0 (drop hit lines)) in
  if (SNIPPET_CHARS <? length text)%nat
  then take (SNIPPET_CHARS - 1) text ++ [ELLIPSIS]
  else text.

Record IndexEntry := mkIndexEntry {
  entry_path : str;
  entry_title : str;
  entry_modified : NaiveDate;
  entry_body : str;
  title_words : list str;
  body_words : list str;
}.

Record SearchQuery := mkSearchQuery {
  query : str;
  limit : nat;
  since : option NaiveDate;
  folder : option str;
}.

Record SearchHit := mkSearchHit {
  hit_path : str;
  hit_title : str;
  hit_modified : NaiveDate;
  hit_snippet : str;
}.

Record RecentNote := mkRecentNote {
  note_path : str;
  recent_title : str;
  note_modified : NaiveDate;
}.

(** The entries in key order. *)
Definition SearchIndex : Type := list (str * IndexEntry).
Implicit Types index : SearchIndex.

Definition index_len index : nat := length index.
Definition index_is_empty index : bool := (length index =? 0)%nat.

Definition make_entry (path : str) (modified : NaiveDate) (body : str) : IndexEntry :=
  let title := note_title path body in
  mkIndexEntry path title modified body (word_list title) (word_list body).

Definition upsert (path : str) (modified : NaiveDate) (body : str) index : SearchIndex :=
  btree_insert path (make_entry path modified body) index.

Definition remove_entry (path : str) index : SearchIndex := btree_remove path index.

Definition get_entry (path : str) index : option IndexEntry := btree_get path index.

Definition indexes (path : str) : bool :=
  ends_with (u ".md") path
  && match validate_vault_path path with Ok _ => true | Err _ => false end.

(** ** Search *)

Definition query_terms (q : SearchQuery) : list Term :=
  filter (λ term, term_text term ≠ []) (map parse_term (split_whitespace (query q))).

Definition before (a b : NaiveDate) : bool := date_cmp a b == Lt.

(** The filters of the query on one entry. *)
Definition admitted (q : SearchQuery) (wanted : option str) (entry : IndexEntry) : bool :=
  negb (is_some_and (before (entry_modified entry)) (since q))
  && negb (is_some_and (λ folder, negb (in_folder (entry_path entry) folder)) wanted).

Definition hit_of (first : Term) (entry : IndexEntry) : SearchHit :=
  mkSearchHit (entry_path entry) (entry_title entry) (entry_modified entry)
    (snippet (entry_body entry) first).

(** The body of the loop over the entries: the hit to push, if any. *)
Definition entry_hit (q : SearchQuery) (wanted : option str) (first : Term) (terms : list Term)
    (today : NaiveDate) (entry : IndexEntry) : option (f64 * SearchHit) :=
  if negb (admitted q wanted entry) then None
  else match score_terms (f64_of_Z 0) terms (title_words entry) (body_words entry) with
    | None => None
    | Some score =>
        let age_days :=
          Z.max (num_days_from_ce today - num_days_from_ce (entry_modified entry)) 0 in
        Some (f64_mul score (recency age_days), hit_of first entry)
    end.

Definition hit_cmp (a b : f64 * SearchHit) : comparison :=
  then_with (default Eq (f64_partial_cmp b.1 a.1))
    (then_with (date_cmp (hit_modified b.2) (hit_modified a.2))
       (str_cmp (hit_path a.2) (hit_path b.2))).

Definition search (q : SearchQuery) (today : NaiveDate) index : list SearchHit :=
  let terms := query_terms q in
  match terms with
  | [] => []
  | first :: _ =>
      let hits :=
        omap (entry_hit q (folder_filter (folder q)) first terms today) index.*2 in
      map snd (take (Nat.max (limit q) 1) (sort_by hit_cmp hits))
  end.

(** ** Recent notes *)

Definition recent_of (entry : IndexEntry) : RecentNote :=
  mkRecentNote (entry_path entry) (entry_title entry) (entry_modified entry).

Definition recent_cmp (a b : RecentNote) : comparison :=
  then_with (date_cmp (note_modified b) (note_modified a)) (str_cmp (note_path a) (note_path b)).

(** Whether an entry is of the window that starts on [oldest]. *)
Definition recent_enough (oldest : NaiveDate) (wanted : option str) (entry : IndexEntry) : bool :=
  negb (before (entry_modified entry) oldest)
  && match wanted with
     | Some folder => in_folder (entry_path entry) folder
     | None => true
     end.

(** [None]: the first day of the window is outside the calendar, which
    panics. *)
Definition recent (days : N) (wanted : option str) (today : NaiveDate) index
  : option (list RecentNote) :=
  let wanted := folder_filter wanted in
  oldest ← sub_days today (Z.of_N days);
  Some (sort_by recent_cmp
    (map recent_of (filter (λ entry, recent_enough oldest wanted entry = true) index.*2))).

(** ** Wikilinks *)

Definition link_name (link : str) : str :=
  let inner := trim_end_str (u "]]") (trim_start_str (u "[[") (trim link)) in
  str_to_lowercase (trim (default [] (head (split_char (ch "|") inner)))).

Definition resolve_link (link : str) index : LinkResolution :=
  let wanted := link_name link in
  if wanted == [] then Missing
  else
    let by_title :=
      map entry_path
        (filter (λ entry, str_to_lowercase (entry_title entry) = wanted) index.*2) in
    match by_title with
    | [path] => Found path
    | _ :: _ :: _ => Ambiguous by_title
    | [] =>
        let by_name := filter (λ path, str_to_lowercase (stem path) = wanted) index.*1 in
        match by_name with
        | [] => Missing
        | [path] => Found path
        | _ => Ambiguous by_name
        end
    end.
End index.
