(* ===== verification/NoteIndexTheory.v ===== *)
(** * What the keyword index guarantees *)

From stdpp Require Import sorting gmap.
From S2P Require Import Prelude Strings External Float64 Ordering Rules NoteIndex.

Section index_theory.
Context `{UnicodeTables} `{ChronoDaysLaws}.
Implicit Types (index : SearchIndex) (entry : IndexEntry).

(** ** The index as a map from path to date and text *)

(** Keys in order, and every entry the one [upsert] builds for its key. *)
Definition index_ok index : Prop :=
  btree_ok index ∧
  Forall (λ p, p.2 = make_entry p.1 (entry_modified p.2) (entry_body p.2)) index.

Definition note_of entry : NaiveDate * str := (entry_modified entry, entry_body entry).
Definition notes index : gmap str (NaiveDate * str) := note_of <$> btree_map index.

Lemma insert_Forall (P : str * IndexEntry → Prop) k e index :
  P (k, e) → Forall P index → Forall P (btree_insert k e index).
Proof.
  intros Hk. induction 1 as [|[k' e'] m Hx Hm IH]; simpl; [by constructor|].
  destruct (str_cmp k k'); by repeat constructor.
Qed.

Lemma remove_Forall (P : str * IndexEntry → Prop) k index :
  Forall P index → Forall P (btree_remove k index).
Proof.
  induction 1 as [|[k' e'] m Hx Hm IH]; simpl; [by constructor|].
  destruct (str_cmp k k'); by repeat constructor.
Qed.

Lemma index_ok_nil : index_ok [].
Proof. split; constructor. Qed.

Lemma upsert_ok path modified body index :
  index_ok index → index_ok (upsert path modified body index).
Proof.
  intros [Hs He]. split; [by apply btree_insert_ok|]. by apply insert_Forall.
Qed.

Lemma remove_ok path index : index_ok index → index_ok (remove_entry path index).
Proof. intros [Hs He]. split; [by apply btree_remove_ok|]. by apply remove_Forall. Qed.

(** An entry under its key, as the map sees it. *)
Lemma entry_of_map path entry index :
  index_ok index → (path, entry) ∈ index ↔
  ∃ d b, notes index !! path = Some (d, b) ∧ entry = make_entry path d b.
Proof.
  intros [Hs He]. unfold notes. rewrite (elem_of_btree _ _ _ Hs). split.
  - intros Hl. pose proof Hl as Hin%(elem_of_btree _ _ _ Hs).
    rewrite Forall_forall in He. apply He in Hin. simpl in Hin.
    exists (entry_modified entry), (entry_body entry). rewrite lookup_fmap, Hl. done.
  - intros (d & b & Hl & ->). rewrite lookup_fmap in Hl.
    destruct (btree_map index !! path) as [e|] eqn:E; [|done]. simpl in Hl.
    injection Hl as Hd Hb. f_equal.
    pose proof E as Hin%(elem_of_btree _ _ _ Hs). rewrite Forall_forall in He.
    apply He in Hin. simpl in Hin. by rewrite Hin, Hd, Hb.
Qed.

Lemma notes_upsert path modified body index :
  index_ok index → notes (upsert path modified body index) = <[path := (modified, body)]> (notes index).
Proof. intros [Hs _]. unfold notes, upsert. by rewrite btree_insert_map, fmap_insert. Qed.

Lemma notes_remove path index :
  index_ok index → notes (remove_entry path index) = delete path (notes index).
Proof. intros [Hs _]. unfold notes, remove_entry. by rewrite btree_remove_map, fmap_delete. Qed.

(** The index refines a map from path to date and text: [upsert] inserts
    the note, [remove] deletes it, [get] finds exactly the notes of the map with
    their title and words computed from the text, [len] is the map's size; and
    the operations keep the entries in key order. *)
Theorem index_refines_map path modified body index :
  index_ok index →
  index_ok (upsert path modified body index) ∧
  notes (upsert path modified body index) = <[path := (modified, body)]> (notes index) ∧
  index_ok (remove_entry path index) ∧
  notes (remove_entry path index) = delete path (notes index) ∧
  get_entry path index = (λ n, make_entry path n.1 n.2) <$> notes index !! path ∧
  index_len index = size (notes index).
Proof.
  intros Hok. pose proof Hok as [Hs He].
  split_and!; [by apply upsert_ok|by apply notes_upsert|by apply remove_ok|by apply notes_remove| |].
  - unfold get_entry. rewrite btree_get_map by done. unfold notes. rewrite lookup_fmap.
    destruct (btree_map index !! path) as [e|] eqn:E; [|done]. simpl.
    pose proof E as Hin%(elem_of_btree _ _ _ Hs). rewrite Forall_forall in He.
    apply He in Hin. by rewrite Hin at 1.
  - unfold notes, index_len, btree_map. rewrite map_size_fmap, map_size_list_to_map; [done|].
    clear He Hok. unfold btree_ok in Hs. induction Hs as [|x l Hs IH Hx]; constructor; [|done].
    intros Hin. rewrite Forall_forall in Hx. by apply (str_lt_irrefl x), Hx.
Qed.

(** ** Scores *)

Lemma recency_positive age : (0 <= age)%Z → positive_from (-1074) (recency age).
Proof.
  intros Hage. unfold recency.
  assert (∀ n, (0 < n)%Z → positive_from (-1074) (f64_of_Z n)) as Hpos.
  { intros n Hn. eapply positive_from_le; [|by apply f64_of_Z_positive]. lia. }
  assert (nonneg (f64_of_Z 1)) as Hone by (by apply f64_of_Z_nonneg).
  apply f64_add_positive; [done| |left; by apply Hpos].
  apply f64_div_nonneg; [done|by vm_compute|].
  apply f64_add_positive; [done| |left; by apply Hpos].
  assert (positive_from (-1074) (f64_of_Z 30)) as H30 by (by apply Hpos).
  destruct (f64_of_Z_nonneg age Hage) as [-> |Ha]; [left; vm_compute; reflexivity|].
  destruct (f64_of_Z age) as [[]|[]| |[] m e] eqn:E; try done.
  - right. vm_compute. done.
  - apply f64_div_nonneg; [right; exact Ha|done|done].
Qed.

Lemma term_score_positive t b :
  t + b ≠ 0 →
  positive_from (-1074) (f64_add (f64_mul (f64_of_Z 3) (f64_of_Z (Z.of_nat t)))
                                 (f64_of_Z (Z.of_nat b))).
Proof.
  intros Htb.
  assert (positive_from (-53) (f64_of_Z 3)) as H3 by (by apply f64_of_Z_positive).
  assert (t ≠ 0 → positive_from (-106) (f64_mul (f64_of_Z 3) (f64_of_Z (Z.of_nat t)))) as Ht.
  { intros Ht. apply (f64_mul_positive (-53) (-53)); [lia|done|].
    apply f64_of_Z_positive. lia. }
  assert (b ≠ 0 → positive_from (-53) (f64_of_Z (Z.of_nat b))) as Hb.
  { intros Hb. apply f64_of_Z_positive. lia. }
  apply f64_add_positive.
  - destruct t as [|t]; [left; vm_compute; reflexivity|].
    eapply positive_nonneg; [|by apply Ht]. lia.
  - apply f64_of_Z_nonneg. lia.
  - destruct t as [|t].
    + right. eapply positive_from_le; [|apply Hb; lia]. lia.
    + left. eapply positive_from_le; [|by apply Ht]. lia.
Qed.

(** The loop succeeds exactly when every term matches a word, and its score is
    positive once a term has been counted. *)
Lemma score_terms_Some score terms tw bw s :
  nonneg score → score_terms score terms tw bw = Some s →
  nonneg s ∧ (terms ≠ [] ∨ positive_from (-1074) score → positive_from (-1074) s).
Proof.
  revert score. induction terms as [|t terms IH]; intros score Hsc; simpl.
  - intros [= <-]. split; [done|]. by intros [|].
  - destruct (_ =? 0)%nat eqn:E; [done|]. apply Nat.eqb_neq in E. intros Hs.
    pose proof (term_score_positive _ _ E) as Hpos. apply IH in Hs as [Hn Hp].
    + split; [done|]. intros _. apply Hp. right.
      apply f64_add_positive; [done|by eapply positive_nonneg|by right].
    + apply f64_add_nonneg; [done|by eapply positive_nonneg].
Qed.

Definition word_matched (term : Term) entry : Prop :=
  ∃ w, (w ∈ title_words entry ∨ w ∈ body_words entry) ∧ matches term w = true.

Lemma occurrences_zero term ws : occurrences term ws = 0 ↔ ∀ w, w ∈ ws → matches term w = false.
Proof.
  unfold occurrences. rewrite length_zero_iff_nil. split.
  - intros Hf w Hw. destruct (matches term w) eqn:E; [|done].
    assert (w ∈ filter (λ w, matches term w = true) ws) as Hin by (by apply list_elem_of_filter).
    rewrite Hf in Hin. by apply elem_of_nil in Hin.
  - intros Hw. apply filter_none. intros w Hin. by rewrite Hw.
Qed.

Lemma occurrences_nonzero term ws :
  occurrences term ws ≠ 0 → ∃ w, w ∈ ws ∧ matches term w = true.
Proof.
  unfold occurrences. intros Hn.
  destruct (filter (λ w, matches term w = true) ws) as [|w l] eqn:E; [done|].
  exists w. assert (w ∈ filter (λ w, matches term w = true) ws) as Hin by (rewrite E; left).
  apply list_elem_of_filter in Hin. tauto.
Qed.

Lemma score_terms_is_Some score terms entry :
  is_Some (score_terms score terms (title_words entry) (body_words entry)) ↔
  ∀ term, term ∈ terms → word_matched term entry.
Proof.
  revert score. induction terms as [|t terms IH]; intros score; simpl.
  - split; [|by eexists]. intros _ t Ht. by apply elem_of_nil in Ht.
  - destruct (_ =? 0)%nat eqn:E.
    + apply Nat.eqb_eq in E. assert (occurrences t (title_words entry) = 0
        ∧ occurrences t (body_words entry) = 0) as [Hone Htwo] by lia.
      rewrite occurrences_zero in Hone, Htwo. split; [by intros [? [=]]|].
      intros Hall. destruct (Hall t ltac:(left)) as (w & [Hw|Hw] & Hm).
      * by rewrite Hone in Hm. * by rewrite Htwo in Hm.
    + apply Nat.eqb_neq in E. rewrite IH. split; [|by intros Hall t' Ht'; apply Hall; right].
      intros Hall t' [-> |Ht']%elem_of_cons; [|by apply Hall].
      destruct (decide (occurrences t (title_words entry) = 0)) as [Hz|Hz].
      * assert (occurrences t (body_words entry) ≠ 0) as Hz' by lia.
        apply occurrences_nonzero in Hz' as (w & ? & ?). exists w. auto.
      * apply occurrences_nonzero in Hz as (w & ? & ?). exists w. auto.
Qed.

(** ** Search *)

Definition relevant (q : SearchQuery) (wanted : option str) (terms : list Term) entry : Prop :=
  admitted q wanted entry = true ∧ ∀ term, term ∈ terms → word_matched term entry.

Lemma entry_hit_Some q wanted first terms today entry x :
  terms ≠ [] → entry_hit q wanted first terms today entry = Some x →
  relevant q wanted terms entry ∧ x.2 = hit_of first entry ∧ nonneg x.1.
Proof.
  intros Hne. unfold entry_hit. destruct (admitted q wanted entry) eqn:Ea; cbn [negb]; [|done].
  destruct (score_terms _ _ _ _) as [s|] eqn:Es; [|done]. intros [= <-].
  assert (nonneg (f64_of_Z 0)) as Hz by (by apply f64_of_Z_nonneg).
  destruct (score_terms_Some _ _ _ _ _ Hz Es) as [_ Hp].
  split_and!; [split; [done|]|done|].
  - apply (score_terms_is_Some (f64_of_Z 0)). by rewrite Es.
  - apply f64_mul_nonneg; [auto|]. apply recency_positive. lia.
Qed.

Lemma entry_hit_relevant q wanted first terms today entry :
  relevant q wanted terms entry → is_Some (entry_hit q wanted first terms today entry).
Proof.
  intros [Ha Ht]. unfold entry_hit. rewrite Ha. cbn [negb].
  apply (score_terms_is_Some (f64_of_Z 0)) in Ht as [s ->]. by eexists.
Qed.

(** The comparison of the sort, on scores that are numbers. *)
Definition hit_key_cmp (a b : f64 * SearchHit) : comparison :=
  then_with (key_cmp (f64_key b.1) (f64_key a.1))
    (then_with (Z.compare (num_days_from_ce (hit_modified b.2)) (num_days_from_ce (hit_modified a.2)))
       (str_cmp (hit_path a.2) (hit_path b.2))).

#[local] Instance hit_key_cmp_total : TotalCmp hit_key_cmp.
Proof.
  apply then_with_total; [|apply then_with_total].
  - apply flip_total, (on_total key_cmp), _.
  - apply flip_total, (on_total Z.compare (λ h : f64 * SearchHit, _)), _.
  - apply (on_total str_cmp), _.
Qed.

Lemma hit_cmp_key a b : nonneg a.1 → nonneg b.1 → hit_cmp a b = hit_key_cmp a b.
Proof.
  intros Ha Hb. unfold hit_cmp, hit_key_cmp.
  by rewrite f64_partial_cmp_key, date_cmp_days by done.
Qed.

Lemma hit_cmp_opp a b : hit_cmp b a = CompOpp (hit_cmp a b).
Proof.
  unfold hit_cmp. rewrite (f64_partial_cmp_opp b.1 a.1), !date_cmp_days.
  rewrite (cmp_opp (cmp := Z.compare) (num_days_from_ce (hit_modified b.2))).
  rewrite (cmp_opp (cmp := str_cmp) (hit_path a.2)).
  destruct (f64_partial_cmp b.1 a.1) as [[]|]; simpl; try done; by destruct (_ ?= _)%Z.
Qed.

Lemma index_paths index : index_ok index → map entry_path index.*2 = index.*1.
Proof.
  intros [_ He]. induction He as [|[k e] m Hx Hm IH]; [done|].
  cbn [fmap list_fmap map fst snd] in *. f_equal; [by rewrite Hx|exact IH].
Qed.

Lemma index_keys_NoDup index : index_ok index → NoDup index.*1.
Proof.
  intros [Hs _]. unfold btree_ok in Hs. induction Hs as [|x l Hs IH Hx]; constructor; [|done].
  intros Hin. rewrite Forall_forall in Hx. by apply (str_lt_irrefl x), Hx.
Qed.

Lemma hit_paths_sublist q wanted first terms today (entries : list IndexEntry) :
  terms ≠ [] →
  map (hit_path ∘ snd) (omap (entry_hit q wanted first terms today) entries)
  `sublist_of` map entry_path entries.
Proof.
  intros Hne. induction entries as [|e es IH]; [constructor|]. simpl.
  destruct (entry_hit _ _ _ _ _ e) as [x|] eqn:E; [|by constructor].
  simpl. apply entry_hit_Some in E as (_ & E & _); [|done]. rewrite E. by constructor.
Qed.

Lemma StronglySorted_change {A} (R R' : relation A) l :
  (∀ x y, x ∈ l → y ∈ l → R x y → R' x y) → StronglySorted R l → StronglySorted R' l.
Proof.
  intros Hr. induction 1 as [|x l Hs IH Hx]; constructor.
  - apply IH. intros y z Hy Hz. apply Hr; by right.
  - rewrite Forall_forall in Hx |- *. intros y Hy. apply Hr; [left|by right|]. by apply Hx.
Qed.

(** A search with at least one term ranks exactly the notes that pass the
    filters and have, for every term, a word it matches, each note once, by
    score and then date and then path; it answers the first [max(limit, 1)] of
    that ranking. Every score is a number: the comparison never falls back. *)
Theorem search_spec q today index first rest :
  index_ok index → query_terms q = first :: rest →
  let wanted := folder_filter (folder q) in
  ∃ ranked,
    search q today index = map snd (take (Nat.max (limit q) 1) ranked) ∧
    (∀ hit, hit ∈ map snd ranked ↔
       ∃ entry, entry ∈ index.*2 ∧ relevant q wanted (first :: rest) entry
                ∧ hit = hit_of first entry) ∧
    NoDup (map (hit_path ∘ snd) ranked) ∧
    StronglySorted (λ a b, hit_cmp a b ≠ Gt) ranked ∧
    Forall (λ x, nonneg x.1) ranked.
Proof.
  intros Hok Hq wanted. unfold search. rewrite Hq. fold wanted.
  set (hits := omap _ _). exists (sort_by hit_cmp hits).
  assert (∀ x, x ∈ sort_by hit_cmp hits ↔ x ∈ hits) as Hin
    by (intros x; by rewrite sort_by_Permutation).
  assert (∀ x, x ∈ hits → nonneg x.1) as Hnn.
  { intros x (e & _ & Hx)%list_elem_of_omap. by apply entry_hit_Some in Hx as (_ & _ & ?). }
  split_and!; [done| | | |].
  - intros hit. rewrite list_elem_of_fmap. setoid_rewrite Hin. split.
    + intros (x & -> & (e & He & Hx)%list_elem_of_omap). exists e.
      by apply entry_hit_Some in Hx as (? & ? & _).
    + intros (e & He & Hrel & ->). pose proof Hrel as [x Hx]%(entry_hit_relevant _ _ first _ today).
      exists x. pose proof Hx as (_ & -> & _)%entry_hit_Some; [|done].
      split; [done|]. apply list_elem_of_omap. by exists e.
  - rewrite sort_by_Permutation. eapply sublist_NoDup; [|by apply hit_paths_sublist].
    rewrite index_paths by done. by apply index_keys_NoDup.
  - apply (StronglySorted_change (cmp_le hit_key_cmp)).
    + intros x y Hx Hy Hc. rewrite hit_cmp_key; [exact Hc| |]; by apply Hnn, Hin.
    + apply sort_by_sorted; [apply _|apply hit_cmp_opp|].
      intros x y Hx Hy. apply hit_cmp_key; by apply Hnn.
  - apply Forall_forall. intros x Hx. by apply Hnn, Hin.
Qed.

(** ** Recent notes *)

Lemma in_folder_spec path folder :
  in_folder path folder = true ↔ ∃ r, path = folder ++ SLASH_CHAR :: r.
Proof.
  unfold in_folder. destruct (strip_prefix folder path) as [rest|] eqn:E; cbn [is_some_and].
  - apply strip_prefix_Some in E as ->. rewrite starts_with_app. split.
    + intros [r ->]. by exists r.
    + intros [r E]. apply (inj (app _)) in E as ->. by exists r.
  - split; [done|]. intros [r ->]. by rewrite strip_prefix_app in E.
Qed.

Lemma before_spec a b : before a b = true ↔ (num_days_from_ce a < num_days_from_ce b)%Z.
Proof. unfold before. by rewrite bool_decide_eq_true, date_cmp_days, Z.compare_lt_iff. Qed.

Lemma StronglySorted_strict {A B} (f : A → B) (R R' : relation A) l :
  NoDup (map f l) → (∀ x y, f x ≠ f y → R x y → R' x y) →
  StronglySorted R l → StronglySorted R' l.
Proof.
  intros Hnd Hr. induction 1 as [|x l Hs IH Hx]; constructor.
  - inversion_clear Hnd. by apply IH.
  - rewrite Forall_forall in Hx |- *. intros y Hy. apply Hr; [|by apply Hx].
    inversion_clear Hnd as [|? ? Hn]. intros E. apply Hn. rewrite E. by apply list_elem_of_fmap_2.
Qed.

Definition recent_key_cmp (a b : RecentNote) : comparison :=
  then_with (Z.compare (num_days_from_ce (note_modified b)) (num_days_from_ce (note_modified a)))
    (str_cmp (note_path a) (note_path b)).

#[local] Instance recent_key_cmp_total : TotalCmp recent_key_cmp.
Proof.
  apply then_with_total; [|apply (on_total str_cmp), _].
  apply flip_total, (on_total Z.compare (λ n : RecentNote, _)), _.
Qed.

Lemma recent_cmp_key a b : recent_cmp a b = recent_key_cmp a b.
Proof. unfold recent_cmp. by rewrite date_cmp_days. Qed.

(** Newest first, paths in order within a day. *)
Definition newer (a b : RecentNote) : Prop :=
  (num_days_from_ce (note_modified b) < num_days_from_ce (note_modified a))%Z ∨
  num_days_from_ce (note_modified b) = num_days_from_ce (note_modified a)
  ∧ str_lt (note_path a) (note_path b).

(** [recent] lists exactly the notes of the last [days] days, today's first
    day included, that are under the folder when one is asked for: each once,
    newest first and by path within a day. *)
Theorem recent_spec days wanted today index listed :
  index_ok index → recent days wanted today index = Some listed →
  (∀ note, note ∈ listed ↔
     ∃ entry, entry ∈ index.*2 ∧ note = recent_of entry
       ∧ (num_days_from_ce today - Z.of_N days <= num_days_from_ce (entry_modified entry))%Z
       ∧ ∀ folder, folder_filter wanted = Some folder →
           ∃ r, entry_path entry = folder ++ SLASH_CHAR :: r) ∧
  NoDup (map note_path listed) ∧ StronglySorted newer listed.
Proof.
  intros Hok. unfold recent. destruct (sub_days today (Z.of_N days)) as [oldest|] eqn:E; [|done].
  cbn [mbind option_bind]. set (kept := map _ _). intros [= <-].
  apply sub_days_Some in E.
  assert (NoDup (map note_path (sort_by recent_cmp kept))) as Hnd.
  { rewrite sort_by_Permutation. subst kept. rewrite map_map.
    eapply sublist_NoDup; [by apply index_keys_NoDup|]. rewrite <- index_paths by done.
    apply (fmap_sublist entry_path), sublist_filter. }
  split_and!; [|done|].
  - intros note. rewrite sort_by_Permutation. subst kept. rewrite list_elem_of_fmap.
    apply exist_proper. intros entry. rewrite list_elem_of_filter. unfold recent_enough.
    rewrite andb_true_iff, negb_true_iff, <- not_true_iff_false, before_spec, E.
    assert (match folder_filter wanted with Some folder => in_folder (entry_path entry) folder
            | None => true end = true ↔
      ∀ folder, folder_filter wanted = Some folder →
        ∃ r, entry_path entry = folder ++ SLASH_CHAR :: r) as ->.
    { destruct (folder_filter wanted) as [f|]; [|done]. rewrite in_folder_spec.
      split; [by intros ? ? [= <-]|auto]. }
    rewrite Z.nlt_ge. tauto.
  - apply (StronglySorted_strict note_path (cmp_le recent_cmp)); [done| |].
    + intros a b Hne. unfold cmp_le, recent_cmp, newer. rewrite date_cmp_days.
      destruct (Z.compare_spec (num_days_from_ce (note_modified b))
                  (num_days_from_ce (note_modified a))) as [Hc|Hc|Hc]; simpl; [|by left|done].
      intros Hp. right. split; [done|]. unfold str_lt.
      destruct (str_cmp (note_path a) (note_path b)) eqn:Es; [|done|done].
      by apply str_cmp_eq in Es.
    + apply (StronglySorted_change (cmp_le recent_key_cmp)).
      { intros a b _ _. unfold cmp_le. by rewrite recent_cmp_key. }
      apply sort_by_sorted; [apply _| |intros; apply recent_cmp_key].
      intros a b. rewrite !recent_cmp_key. apply cmp_opp.
Qed.

(** ** Wikilinks *)

Definition titled (wanted : str) entry : Prop := str_to_lowercase (entry_title entry) = wanted.
Definition named (wanted path : str) : Prop := str_to_lowercase (stem path) = wanted.

#[local] Instance titled_dec wanted entry : Decision (titled wanted entry).
Proof. unfold titled. apply _. Defined.
#[local] Instance named_dec wanted path : Decision (named wanted path).
Proof. unfold named. apply _. Defined.

Lemma titled_paths wanted index p :
  index_ok index →
  p ∈ map entry_path (filter (titled wanted) index.*2) ↔ ∃ e, (p, e) ∈ index ∧ titled wanted e.
Proof.
  intros [_ He]. rewrite Forall_forall in He. rewrite list_elem_of_fmap. split.
  - intros (e & -> & [Ht Hin]%list_elem_of_filter).
    apply list_elem_of_fmap in Hin as ([k e'] & -> & Hin). exists e'. split; [|done].
    pose proof (He _ Hin) as Hp. simpl in Hp |- *. rewrite Hp. simpl. by rewrite <- Hp.
  - intros (e & Hin & Ht). exists e. split.
    + pose proof (He _ Hin) as Hp. simpl in Hp. by rewrite Hp.
    + apply list_elem_of_filter. split; [done|]. by apply (list_elem_of_fmap_2 snd _ (p, e)).
Qed.

Lemma titled_sorted wanted index :
  index_ok index → StronglySorted str_lt (map entry_path (filter (titled wanted) index.*2)).
Proof.
  intros Hok. eapply StronglySorted_sublist; [|apply Hok]. rewrite <- index_paths by done.
  apply (fmap_sublist entry_path), sublist_filter.
Qed.

Lemma named_sorted wanted index :
  index_ok index → StronglySorted str_lt (filter (named wanted) index.*1).
Proof. intros [Hs _]. eapply StronglySorted_sublist; [|exact Hs]. apply sublist_filter. Qed.

(** A wikilink is found when one note alone has its name as title or, when
    none has, as file name, letter case apart; it is ambiguous when several do,
    and then all of them are listed, in path order; it is missing when it names
    nothing. A title is always preferred to a file name. *)
Theorem resolve_link_spec link index :
  index_ok index →
  let has_title p := ∃ e, (p, e) ∈ index ∧ titled (link_name link) e in
  let has_name p := p ∈ index.*1 ∧ named (link_name link) p in
  match resolve_link link index with
  | Found path =>
      link_name link ≠ [] ∧
      ((∀ p, has_title p ↔ p = path) ∨ (∀ p, ¬ has_title p) ∧ (∀ p, has_name p ↔ p = path))
  | Ambiguous paths =>
      link_name link ≠ [] ∧ 2 ≤ length paths ∧ StronglySorted str_lt paths ∧
      ((∀ p, has_title p ↔ p ∈ paths) ∨ (∀ p, ¬ has_title p) ∧ (∀ p, has_name p ↔ p ∈ paths))
  | Missing => link_name link = [] ∨ ∀ p, ¬ has_title p ∧ ¬ has_name p
  end.
Proof.
  intros Hok has_title has_name. unfold resolve_link.
  destruct (bool_decide_reflect (link_name link = [])) as [E|Hne]; [by left|].
  assert (∀ p, has_title p ↔ p ∈ map entry_path (filter (titled (link_name link)) index.*2)) as Ht
    by (intros p; by rewrite titled_paths).
  assert (∀ p, has_name p ↔ p ∈ filter (named (link_name link)) index.*1) as Hn
    by (intros p; rewrite list_elem_of_filter; unfold has_name; tauto).
  pose proof (titled_sorted (link_name link) index Hok) as Hts.
  pose proof (named_sorted (link_name link) index Hok) as Hns.
  change (λ entry : IndexEntry, str_to_lowercase (entry_title entry) = link_name link)
    with (titled (link_name link)).
  change (λ path : str, str_to_lowercase (stem path) = link_name link)
    with (named (link_name link)).
  destruct (map entry_path _) as [|p1 [|p2 ps]].
  - assert (∀ p, ¬ has_title p) as Hno by (intros p Hp%Ht; by apply elem_of_nil in Hp).
    destruct (filter (named _) _) as [|p1 [|p2 ps]].
    + right. intros p. split; [apply Hno|]. intros Hp%Hn. by apply elem_of_nil in Hp.
    + split; [done|]. right. split; [done|]. intros p. by rewrite Hn, list_elem_of_singleton.
    + split_and!; [done|simpl; lia|done|]. by right.
  - split; [done|]. left. intros p. by rewrite Ht, list_elem_of_singleton.
  - split_and!; [done|simpl; lia|done|]. by left.
Qed.

(** ** Snippets *)

(** The first run of lines that are not blank. *)
Fixpoint nonblank_run (lines : list str) : list str :=
  match lines with
  | [] => []
  | line :: lines => if line == [] then [] else line :: nonblank_run lines
  end.

Fixpoint paragraph (lines : list str) : list str :=
  match lines with
  | [] => []
  | line :: rest => if line == [] then paragraph rest else nonblank_run lines
  end.

Lemma join_snoc sep l x : l ≠ [] → join sep (l ++ [x]) = join sep l ++ sep ++ x.
Proof.
  induction l as [|a [|b l] IH]; intros Hl; [done|done|].
  change (join sep ((a :: b :: l) ++ [x])) with (a ++ sep ++ join sep ((b :: l) ++ [x])).
  rewrite IH by done. change (join sep (a :: b :: l)) with (a ++ sep ++ join sep (b :: l)).
  by rewrite <- !app_assoc.
Qed.

Lemma collect_spec collected lines :
  collected ≠ [] → length (join (u " ") collected) ≤ SNIPPET_CHARS →
  ∃ taken rest, collect collected (length (join (u " ") collected) + 1) lines = collected ++ taken
    ∧ nonblank_run (map trim lines) = taken ++ rest
    ∧ length (join (u " ") (collected ++ taken)) ≤ SNIPPET_CHARS
    ∧ ∀ l, head rest = Some l →
        SNIPPET_CHARS < length (join (u " ") (collected ++ taken)) + 1 + length l.
Proof.
  revert collected. induction lines as [|line lines IH]; intros collected Hne Hlen.
  - exists [], []. rewrite app_nil_r. done.
  - cbn [collect map nonblank_run].
    destruct (bool_decide_reflect (trim line = [])) as [Eb|Eb].
    + rewrite bool_decide_eq_false_2 by done. exists [], []. by rewrite app_nil_r.
    + destruct (Nat.ltb_spec SNIPPET_CHARS (length (join (u " ") collected) + 1 + length (trim line)))
        as [Hc|Hc].
      * rewrite bool_decide_eq_false_2 by done. exists [], (trim line :: nonblank_run (map trim lines)).
        rewrite app_nil_r. split_and!; [done|done|done|]. intros l [= <-]. done.
      * assert (length (join (u " ") (collected ++ [trim line]))
                = length (join (u " ") collected) + (1 + length (trim line))) as Hj.
        { rewrite join_snoc by done. by rewrite !length_app. }
        destruct (IH (collected ++ [trim line])) as (taken & rest & Hco & Hrun & Hl & Hr).
        { by destruct collected. }
        { lia. }
        exists (trim line :: taken), rest. rewrite Hrun, <- app_assoc in *. split_and!; try done.
        etransitivity; [|exact Hco]. f_equal. rewrite Hj. lia.
Qed.

(** A snippet is the longest run of lines that fits in 240 characters, from
    the first line with a matching word (else from the start), within its
    paragraph, trimmed and joined by spaces; a first line that does not fit
    alone is cut to 239 characters and an ellipsis. *)
Theorem snippet_spec body term :
  let lines := str_lines body in
  let hit := default 0 (fst <$> list_find (λ line, line_hits term line = true) lines) in
  let lines := paragraph (map trim (drop hit lines)) in
  let text := snippet body term in
  length text ≤ SNIPPET_CHARS ∧
  match lines with
  | [] => text = []
  | first :: _ =>
      SNIPPET_CHARS < length first ∧ text = take (SNIPPET_CHARS - 1) first ++ [ELLIPSIS] ∨
      ∃ taken rest, lines = first :: taken ++ rest ∧ text = join (u " ") (first :: taken)
        ∧ ∀ l, head rest = Some l → SNIPPET_CHARS < length text + 1 + length l
  end.
Proof.
  intros all hit lines text. subst text lines. unfold snippet. fold all hit.
  assert (∀ t : str, length (if (SNIPPET_CHARS <? length t)%nat
      then take (SNIPPET_CHARS - 1) t ++ [ELLIPSIS] else t) ≤ SNIPPET_CHARS) as Hcut.
  { intros t. destruct (Nat.ltb_spec SNIPPET_CHARS (length t)); [|lia].
    rewrite length_app, length_take. simpl length. unfold SNIPPET_CHARS in *. lia. }
  split; [apply Hcut|]. clear Hcut.
  induction (drop hit all) as [|line rest IH]; [done|]. cbn [collect map paragraph].
  destruct (bool_decide_reflect (trim line = [])) as [Eb|Eb]; [exact IH|]. clear IH.
  cbn [nonblank_run]. rewrite bool_decide_eq_false_2 by done. cbn [Nat.add].
  destruct (Nat.ltb_spec SNIPPET_CHARS (length (trim line))) as [Hc|Hc].
  - left. rewrite (bool_decide_eq_true_2 (@nil str = [])) by done. cbn [join]. by rewrite (proj2 (Nat.ltb_lt _ _) Hc).
  - right. destruct (collect_spec [trim line] rest) as (taken & more & Hco & Hrun & Hl & Hr);
      [done|done|]. change (length (join (u " ") [trim line])) with (length (trim line)) in Hco.
    cbn [app] in *. rewrite Hco, Hrun.
    rewrite (proj2 (Nat.ltb_ge _ _) Hl). by exists taken, more.
Qed.
End index_theory.
