(* ===== verification/Rpc.v ===== *)
(** * JSON-RPC and the tools of the bridge ([thock-bridge/rpc.rs])

    Requests and responses, the six tools and two resources, and [dispatch],
    which answers a request over whatever holds the vault: a [ToolHost], whose
    operations may change its state and may fail. *)

From S2P Require Import Prelude Strings External Apply Rules NoteIndex.

Definition PROTOCOL_VERSION : str := u "2025-11-25".
Definition SERVER_NAME : str := u "thock".
Definition PARSE_ERROR : Z := -32700.
Definition INVALID_REQUEST : Z := -32600.
Definition METHOD_NOT_FOUND : Z := -32601.
Definition INVALID_PARAMS : Z := -32602.
Definition INDEX_RESOURCE_URI : str := u "thock://memory/index".
Definition NOTE_RESOURCE_PREFIX : str := u "thock://note/".
Definition DEFAULT_SEARCH_LIMIT : N := 10.
Definition MAX_SEARCH_LIMIT : N := 50.
Definition DEFAULT_RECENT_DAYS : N := 7.
Definition MAX_RECENT_DAYS : N := 366.
Definition MAX_TODAY_LINES : nat := 20.
Definition CALL_DATE_WINDOW_DAYS : Z := 7.
Definition QUEUED_SENTENCE : str :=
  u "queued: the desk is unreachable; this will land when it is back".

(** [Ord::clamp] *)
Definition clamp (low high n : N) : N := if (n <? low)%N then low else if (high <? n)%N then high else n.

(** ** Errors of a host *)

Inductive HostError :=
  | Refused (message : str)
  | Transient (message : str).

Definition message (e : HostError) : str :=
  match e with Refused message | Transient message => message end.

Definition is_transient (e : HostError) : bool :=
  match e with Transient _ => true | _ => false end.

(** [From<Refusal>] *)
Definition from_refusal {A} (r : result A FilterRefusal) : result A HostError :=
  match r with Ok a => Ok a | Err e => Err (Refused (refusal_message e)) end.

(** [Option::ok_or_else] with a refusal. *)
Definition or_refused {A} (o : option A) (sentence : str) : result A HostError :=
  match o with Some a => Ok a | None => Err (Refused sentence) end.

(** ** What a write did *)

Inductive WriteOutcome := Created' | SectionAdded' | Applied' | Noop' | Queued.

Definition word (o : WriteOutcome) : str :=
  match o with
  | Created' => u "created"
  | SectionAdded' => u "section_added"
  | Applied' => u "applied"
  | Noop' => u "noop"
  | Queued => u "queued"
  end.

Definition from_outcome (o : Outcome) : WriteOutcome :=
  match o with
  | Created => Created'
  | SectionAdded => SectionAdded'
  | Applied_ | KeptBoth => Applied'
  | Noop => Noop'
  end.

Inductive ReadTarget :=
  | Path (path : str)
  | Link (link : str).

(** ** Responses *)

Record JsonRpcError := mkJsonRpcError { code : Z; error_message : str }.

Section messages.
Context `{JsonOps}.

Record JsonRpcResponse := mkJsonRpcResponse {
  response_jsonrpc : str;
  response_id : json;
  response_result : option json;
  response_error : option JsonRpcError;
}.

Definition jsonrpc_version : str := u "2.0".

Definition error_response (id : json) (code : Z) (message : str) : JsonRpcResponse :=
  mkJsonRpcResponse jsonrpc_version id None (Some (mkJsonRpcError code message)).

Definition result_response (id result : json) : JsonRpcResponse :=
  mkJsonRpcResponse jsonrpc_version id (Some result) None.

(** The one kind of content block is text. *)
Record CallToolResponse := mkCallToolResponse {
  content : list str;
  is_error : bool;
  response_meta : option json;
}.

Definition response_text (text : str) : CallToolResponse := mkCallToolResponse [text] false None.

Definition response_failed (text : str) : CallToolResponse := mkCallToolResponse [text] true None.

Definition response_refused (text : str) : CallToolResponse :=
  mkCallToolResponse [text] true
    (Some (json_object [(u "thock", json_object [(u "refused", json_bool true)])])).

Definition is_refusal (r : CallToolResponse) : bool :=
  is_error r &&
  default false (meta ← response_meta r; thock ← json_get (u "thock") meta;
                 refused ← json_get (u "refused") thock; as_bool refused).

Definition first_text (r : CallToolResponse) : str := default [] (head (content r)).

(** [Serialize] of a tool response. *)
Definition response_value (r : CallToolResponse) : json :=
  json_object
    ([(u "content",
       json_array (map (λ text, json_object [(u "type", json_string (u "text"));
                                             (u "text", json_string text)]) (content r)));
      (u "isError", json_bool (is_error r))]
     ++ match response_meta r with Some meta => [(u "_meta", meta)] | None => [] end).

(** ** Tools and resources *)

Record Tool := mkTool { tool_name : str; description : str; input_schema : json }.

Definition schema (properties : list (str * json)) (required : list str) : json :=
  json_object
    ([(u "type", json_string (u "object")); (u "properties", json_object properties)]
     ++ match required with
        | [] => []
        | _ => [(u "required", json_array (map json_string required))]
        end
     ++ [(u "additionalProperties", json_bool false)]).

Definition string_property (description : str) : json :=
  json_object [(u "type", json_string (u "string")); (u "description", json_string description)].

Definition integer_property (minimum maximum default : N) : json :=
  json_object [(u "type", json_string (u "integer")); (u "minimum", json_int (Z.of_N minimum));
               (u "maximum", json_int (Z.of_N maximum)); (u "default", json_int (Z.of_N default))].

Definition EM_DASH : str := [0x2014%N].

Definition tools : list Tool :=
  [mkTool (u "context")
     (u "What this person's Thock vault knows: today's date and week, where today's and this week's notes live, what past sessions learned about them (memory/index.md), the Routines they run, their language, the topics they asked never to keep, and who you are to the vault. Call it when a task touches the person, their people, their threads or how they like things done, and at the start of a session about them.")
     (schema [] []);
   mkTool (u "search")
     (u "Keyword search over the vault's notes: every word must match (whole word, any case; `plan*` matches a prefix). Returns the path, title, last-modified date and a snippet of each hit. Search before assuming.")
     (schema
        [(u "query", string_property (u "Words to find, space-separated."));
         (u "limit", integer_property 1 MAX_SEARCH_LIMIT DEFAULT_SEARCH_LIMIT);
         (u "since", string_property (u "Only notes modified on or after this day, YYYY-MM-DD."));
         (u "folder", string_property (u "Only notes under this vault folder, e.g. `daily`."))]
        [u "query"]);
   mkTool (u "read")
     (u "The text of one note, by vault-relative path (`daily/2026-11-03.md`) or by `[[wikilink]]` title. Folders starting with a dot are Thock's own and stay closed.")
     (schema
        [(u "path", string_property (u "Vault-relative path of the note."));
         (u "link", string_property (u "A note title, as a [[wikilink]] names it."))]
        []);
   mkTool (u "recent")
     (u "Notes modified in the last `days` days, newest first, with the first heading of each. Use it to see what the person has been writing lately.")
     (schema
        [(u "days", integer_property 1 MAX_RECENT_DAYS DEFAULT_RECENT_DAYS);
         (u "folder", string_property (u "Only notes under this vault folder."))]
        []);
   mkTool (u "remember")
     (u "Leave one dated line in the person's memory inbox, for the Reflect ritual to file. `remember` is for things about the person that will still be true next month " ++ EM_DASH
      ++ u " who someone is to them, how they like things done, a plan that changed, a correction they gave you. Never for what a file, an email or a tool said, and never a secret. One fact, one line, under 300 characters, in your words; the desk adds the date and your name.")
     (schema
        [(u "fact", string_property (u "The fact, one line, no leading bullet."))]
        [u "fact"]);
   mkTool (u "note_today")
     (u "Log what you did to the person's daily note, under its `From your agents` section, one line per item prefixed with your name. Call it once, at the end of a session that did something worth a line in their day. The note is created from their template when it is missing.")
     (schema
        [(u "line", string_property (u "One line."));
         (u "lines", json_object
            [(u "type", json_string (u "array"));
             (u "items", json_object [(u "type", json_string (u "string"))]);
             (u "maxItems", json_int (Z.of_nat MAX_TODAY_LINES));
             (u "description", json_string (u "Several lines, in order."))])]
        [])].

Record Resource := mkResource {
  uri : str;
  resource_name : str;
  resource_description : option str;
  mime_type : option str;
}.

Definition resources : list Resource :=
  [mkResource INDEX_RESOURCE_URI (u "What Thock has learned")
     (Some (u "memory/index.md, capped as the desk agent reads it.")) (Some (u "text/markdown"));
   mkResource (NOTE_RESOURCE_PREFIX ++ u "{path}") (u "A note")
     (Some (u "Any note by vault-relative path; the same rules as `read`."))
     (Some (u "text/markdown"))].

Record ResourceContents := mkResourceContents {
  contents_uri : str;
  contents_mime_type : option str;
  contents_text : str;
}.

(** [Serialize] of the three. *)
Definition optional_field (name : str) (value : option str) : list (str * json) :=
  match value with Some s => [(name, json_string s)] | None => [] end.

Definition tool_value (t : Tool) : json :=
  json_object [(u "name", json_string (tool_name t)); (u "description", json_string (description t));
               (u "inputSchema", input_schema t)].

Definition resource_value (r : Resource) : json :=
  json_object
    ([(u "uri", json_string (uri r)); (u "name", json_string (resource_name r))]
     ++ optional_field (u "description") (resource_description r)
     ++ optional_field (u "mimeType") (mime_type r)).

Definition contents_value (c : ResourceContents) : json :=
  json_object
    ([(u "uri", json_string (contents_uri c))]
     ++ optional_field (u "mimeType") (contents_mime_type c)
     ++ [(u "text", json_string (contents_text c))]).

Definition initialize_result (version : str) : json :=
  json_object
    [(u "protocolVersion", json_string PROTOCOL_VERSION);
     (u "capabilities", json_object [(u "tools", json_object []); (u "resources", json_object [])]);
     (u "serverInfo", json_object [(u "name", json_string SERVER_NAME);
                                   (u "version", json_string version)]);
     (u "instructions",
      json_string (u "Read the thock-memory skill if it is installed; its rules apply to every tool here."))].
End messages.

(** ** Requests *)

Section requests.
Context `{JsonOps} `{ChronoParse}.

Record CallMeta := mkCallMeta {
  call_id : option str;
  call_date : option NaiveDate;
}.

Record JsonRpcRequest := mkJsonRpcRequest {
  jsonrpc : str;
  request_id : option json;
  method : str;
  params : option json;
}.

Definition JsonRpcRequest_new (id : json) (method : str) (params : json) : JsonRpcRequest :=
  mkJsonRpcRequest jsonrpc_version (Some id) method (Some params).

(** A field of type [Option<Value>]: [null] is absent. *)
Definition optional_value (v : option json) : option json :=
  match v with
  | Some x => if x == json_null then None else Some x
  | None => None
  end.

(** [serde_json::from_value] of an object at the derived instance. *)
Definition request_from_value (v : json) : option JsonRpcRequest :=
  version ← match json_get (u "jsonrpc") v with
    | Some x => as_str x
    | None => Some jsonrpc_version
    end;
  name ← json_get (u "method") v;
  name ← as_str name;
  Some (mkJsonRpcRequest version (optional_value (json_get (u "id") v)) name
          (optional_value (json_get (u "params") v))).

(** [is_object]: a field can be inserted. *)
Definition is_object (v : json) : bool := is_some (json_insert (u "_") json_null v).

(** [from_value_error] is the deserializer's sentence on a value it refuses. *)
Definition JsonRpcRequest_parse (from_value_error : json → str) (body : str)
  : result JsonRpcRequest JsonRpcResponse :=
  match json_from_str body with
  | Err error => Err (error_response json_null PARSE_ERROR (u "not JSON: " ++ error))
  | Ok value =>
      if negb (is_object value)
      then Err (error_response json_null INVALID_REQUEST
                  (u "one JSON-RPC request object per POST"))
      else match request_from_value value with
        | Some request => Ok request
        | None => Err (error_response json_null INVALID_REQUEST (from_value_error value))
        end
  end.

(** A notification carries no id and gets no reply. *)
Definition is_notification (r : JsonRpcRequest) : bool := is_none (request_id r).

Definition request_tool_name (r : JsonRpcRequest) : option str :=
  p ← params r; name ← json_get (u "name") p; as_str name.

Definition arguments (r : JsonRpcRequest) : json :=
  default (json_object []) (p ← params r; json_get (u "arguments") p).

Definition call_meta (r : JsonRpcRequest) : CallMeta :=
  let meta := p ← params r; json_get (u "_meta") p in
  mkCallMeta
    (m ← meta; x ← json_get (u "call_id") m; as_str x)
    (m ← meta; x ← json_get (u "date") m; date ← as_str x; parse_ymd date).

Definition with_meta (r : JsonRpcRequest) (meta : CallMeta) : JsonRpcRequest :=
  let p := default (json_object []) (params r) in
  let entry :=
    json_object
      (match call_id meta with Some id => [(u "call_id", json_string id)] | None => [] end
       ++ match call_date meta with
          | Some date => [(u "date", json_string (format_ymd date))]
          | None => []
          end) in
  mkJsonRpcRequest (jsonrpc r) (request_id r) (method r)
    (Some (default p (json_insert (u "_meta") entry p))).

(** ** Arguments of the tools *)

Definition str_arg (name : str) (args : json) : option str :=
  x ← json_get name args; as_str x.

(** [Option::filter(|s| !s.is_empty())] after [str::trim]. *)
Definition trimmed_arg (name : str) (args : json) : option str :=
  s ← str_arg name args; if trim s == [] then None else Some (trim s).

(** [usize::try_from] does not fail on a 64-bit target. *)
Definition parse_search_query (args : json) : result SearchQuery HostError :=
  query ←! or_refused (trimmed_arg (u "query") args) (u "search needs a `query` string");
  let limit :=
    clamp 1 MAX_SEARCH_LIMIT
      (default DEFAULT_SEARCH_LIMIT (x ← json_get (u "limit") args; as_u64 x)) in
  since ←! match str_arg (u "since") args with
    | Some since =>
        match parse_ymd (trim since) with
        | Some date => Ok (Some date)
        | None => Err (Refused (u "`since` must be a day, YYYY-MM-DD"))
        end
    | None => Ok None
    end;
  let folder :=
    s ← str_arg (u "folder") args;
    let folder := trim_matches (N.eqb SLASH_CHAR) (trim s) in
    if folder == [] then None else Some folder in
  Ok (mkSearchQuery query (N.to_nat limit) since folder).

Definition parse_read_target (args : json) : result ReadTarget HostError :=
  match trimmed_arg (u "path") args, trimmed_arg (u "link") args with
  | Some path, _ => Ok (Path path)
  | None, Some link => Ok (Link link)
  | None, None => Err (Refused (u "read needs a `path` or a `link`"))
  end.

(** [u32::try_from(days).unwrap_or(MAX_RECENT_DAYS)], then the clamp. *)
Definition parse_days (args : json) : N :=
  clamp 1 MAX_RECENT_DAYS
    match (x ← json_get (u "days") args; as_u64 x) with
    | Some days => if (days <? 2 ^ 32)%N then days else MAX_RECENT_DAYS
    | None => DEFAULT_RECENT_DAYS
    end.

Definition parse_lines (args : json) : result (list str) HostError :=
  let single := match str_arg (u "line") args with Some line => [line] | None => [] end in
  several ←! match (x ← json_get (u "lines") args; as_array x) with
    | Some array => or_refused (mapM as_str array) (u "`lines` must hold strings")
    | None => Ok []
    end;
  let lines := single ++ several in
  err_if (lines == []) (Refused (u "note_today needs a `line` or `lines`")) (
  err_if (MAX_TODAY_LINES <? length lines)%nat
    (Refused (u "note_today takes at most " ++ show_N (N.of_nat MAX_TODAY_LINES)
              ++ u " lines per call")) (
  Ok lines)).

Definition parse_fact (args : json) : result str HostError :=
  or_refused (str_arg (u "fact") args) (u "remember needs a `fact` string").

(** ** Answers as text *)

Definition hit_line (hit : SearchHit) : str :=
  u "- `" ++ hit_path hit ++ u "` " ++ EM_DASH ++ u " " ++ hit_title hit ++ u " ("
  ++ format_ymd (hit_modified hit) ++ u ")" ++ [10%N] ++ u "  " ++ hit_snippet hit ++ [10%N].

Definition render_hits (q : SearchQuery) (hits : list SearchHit) : str :=
  match hits with
  | [] => u "No notes match `" ++ query q ++ u "`."
  | _ => trim_end (concat (map hit_line hits))
  end.

Definition recent_line (note : RecentNote) : str :=
  u "- `" ++ note_path note ++ u "` " ++ EM_DASH ++ u " " ++ recent_title note ++ u " ("
  ++ format_ymd (note_modified note) ++ u ")".

Definition render_recent (days : N) (listed : list RecentNote) : str :=
  match listed with
  | [] => u "No notes changed in the last " ++ show_N days ++ u " days."
  | _ => join [10%N] (map recent_line listed)
  end.

Definition remember_sentence (outcome : WriteOutcome) : str :=
  match outcome with
  | Queued => QUEUED_SENTENCE
  | Noop' => u "That line is already in memory/inbox.md (noop)."
  | other => u "Noted in memory/inbox.md; the Reflect ritual files it (" ++ word other ++ u ")."
  end.

Definition note_today_sentence (outcome : WriteOutcome) : str :=
  match outcome with
  | Queued => QUEUED_SENTENCE
  | other => u "Added to today's note (" ++ word other ++ u ")."
  end.
End requests.

(** ** Hosts *)

(** What a tool needs from whoever holds the vault. Each operation may change
    the host and may fail. *)
Class ToolHost `{Chrono} (host : Type) := {
  context : host → host * result str HostError;
  memory_index : host → host * result str HostError;
  host_search : SearchQuery → host → host * result (list SearchHit) HostError;
  host_read : ReadTarget → host → host * result str HostError;
  host_recent : N → option str → host → host * result (list RecentNote) HostError;
  host_remember : str → CallMeta → host → host * result WriteOutcome HostError;
  host_note_today : list str → CallMeta → host → host * result WriteOutcome HostError;
}.

Section dispatch.
Context `{JsonOps} `{ChronoParse} {host : Type} `{!ToolHost host}.

(** [Result::map] on what a host answered. *)
Definition answer {A} (render : A → str) (r : host * result A HostError)
  : host * result str HostError :=
  (r.1, match r.2 with Ok a => Ok (render a) | Err e => Err e end).

(** The [match] on the tool's name: the call of the host, unless the arguments
    or the name are refused first. *)
Definition tool_outcome (name : str) (args : json) (meta : CallMeta)
  : result (host → host * result str HostError) HostError :=
  if name == u "context" then Ok context
  else if name == u "search" then
    query ←! parse_search_query args; Ok (λ h, answer (render_hits query) (host_search query h))
  else if name == u "read" then
    target ←! parse_read_target args; Ok (host_read target)
  else if name == u "recent" then
    Ok (λ h, answer (render_recent (parse_days args))
               (host_recent (parse_days args) (str_arg (u "folder") args) h))
  else if name == u "remember" then
    fact ←! parse_fact args; Ok (λ h, answer remember_sentence (host_remember fact meta h))
  else if name == u "note_today" then
    lines ←! parse_lines args; Ok (λ h, answer note_today_sentence (host_note_today lines meta h))
  else Err (Refused (u "no tool named " ++ name)).

(** A failure of the host is a tool response, not a protocol error. *)
Definition tool_response (outcome : result str HostError) : CallToolResponse :=
  match outcome with
  | Ok text => response_text text
  | Err (Transient message) => response_failed message
  | Err (Refused message) => response_refused message
  end.

Definition call_tool (h : host) (request : JsonRpcRequest)
  : host * result CallToolResponse HostError :=
  match or_refused (request_tool_name request) (u "tools/call needs a tool name") with
  | Err e => (h, Err e)
  | Ok name =>
      match tool_outcome name (arguments request) (call_meta request) with
      | Err e => (h, Err e)
      | Ok call => let '(h, outcome) := call h in (h, Ok (tool_response outcome))
      end
  end.

Definition read_resource (h : host) (uri : str) : host * result ResourceContents HostError :=
  let contents text := mkResourceContents uri (Some (u "text/markdown")) text in
  if uri == INDEX_RESOURCE_URI then
    let '(h, text) := memory_index h in (h, text ←! text; Ok (contents text))
  else match strip_prefix NOTE_RESOURCE_PREFIX uri with
    | Some path => let '(h, text) := host_read (Path path) h in (h, text ←! text; Ok (contents text))
    | None => (h, Err (Refused (uri ++ u " is not a resource here")))
    end.

(** [None] for a notification. *)
Definition dispatch (h : host) (request : JsonRpcRequest) (version : str)
  : host * option JsonRpcResponse :=
  match request_id request with
  | None => (h, None)
  | Some id =>
      let name := method request in
      let reply '((h, response) : host * JsonRpcResponse) := (h, Some response) in
      reply
        (if name == u "initialize" then (h, result_response id (initialize_result version))
         else if name == u "ping" then (h, result_response id (json_object []))
         else if name == u "tools/list" then
           (h, result_response id (json_object [(u "tools", json_array (map tool_value tools))]))
         else if name == u "resources/list" then
           (h, result_response id
                 (json_object [(u "resources", json_array (map resource_value resources))]))
         else if name == u "resources/read" then
           let uri := default [] (p ← params request; x ← json_get (u "uri") p; as_str x) in
           match read_resource h uri with
           | (h, Ok contents) =>
               (h, result_response id
                     (json_object [(u "contents", json_array [contents_value contents])]))
           | (h, Err error) => (h, error_response id INVALID_PARAMS (message error))
           end
         else if name == u "tools/call" then
           match call_tool h request with
           | (h, Ok response) => (h, result_response id (response_value response))
           | (h, Err error) => (h, error_response id INVALID_PARAMS (message error))
           end
         else (h, error_response id METHOD_NOT_FOUND (name ++ u " is not served here")))
  end.
End dispatch.

(** ** Checks the client makes before it queues a call *)

Section checks.
Context `{JsonOps} `{ChronoParse} `{ChronoDays} `{UnicodeTables}.

(** [None] outside the window that ends today. The window's first day always
    exists for today's date; where it would not, the subtraction panics. *)
Definition accepted_call_date (date : option NaiveDate) (today : NaiveDate) : option NaiveDate :=
  date ← date;
  oldest ← sub_days today CALL_DATE_WINDOW_DAYS;
  if negb (before date oldest) && negb (before today date) then Some date else None.

Fixpoint check_lines (lines : list str) : result unit HostError :=
  match lines with
  | [] => Ok tt
  | line :: lines => _ ←! from_refusal (check_fact line []); check_lines lines
  end.

Definition validate_tool_arguments (name : str) (args : json) : result unit HostError :=
  if name == u "remember" then
    fact ←! parse_fact args; _ ←! from_refusal (check_fact fact []); Ok tt
  else if name == u "note_today" then
    lines ←! parse_lines args; check_lines lines
  else if name == u "search" then
    _ ←! parse_search_query args; Ok tt
  else if name == u "read" then
    _ ←! parse_read_target args; Ok tt
  else Ok tt.
End checks.

(** The key a search is cached under. *)
Definition cache_key `{Digest} `{UnicodeTables} `{Chrono} (q : SearchQuery) : str :=
  hex_encode (sha256 (as_bytes
    (str_to_lowercase (trim (query q)) ++ [10%N] ++ show_N (N.of_nat (limit q)) ++ [10%N]
     ++ default [] (format_ymd <$> since q) ++ [10%N] ++ default [] (folder q)))).
