(* ===== verification/RpcTheory.v ===== *)
(** * What the protocol guarantees *)

From S2P Require Import Prelude Strings External Apply Rules NoteIndex Rpc.

Lemma clamp_range low high n : (low <= high)%N → (low <= clamp low high n <= high)%N.
Proof. unfold clamp. intros. destruct (N.ltb_spec n low), (N.ltb_spec high n); lia. Qed.

Lemma or_refused_Ok {A} (o : option A) sentence a : or_refused o sentence = Ok a ↔ o = Some a.
Proof. destruct o; simpl; naive_solver. Qed.

Lemma result_bind_Ok {A B E} (r : result A E) (f : A → result B E) b :
  result_bind r f = Ok b ↔ ∃ a, r = Ok a ∧ f a = Ok b.
Proof. destruct r; simpl; naive_solver. Qed.

Lemma result_bind_Err {A B E} (r : result A E) (f : A → result B E) e :
  result_bind r f = Err e ↔ r = Err e ∨ ∃ a, r = Ok a ∧ f a = Err e.
Proof. destruct r; simpl; naive_solver. Qed.

(** ** Dispatch *)

(** The fields of an object written out. *)
Ltac other_field :=
  cbn [fmap list_fmap fst]; rewrite ?elem_of_cons, elem_of_nil; let Hf := fresh in intros Hf;
  repeat (destruct Hf as [Hf|Hf]; [discriminate Hf|]); exact Hf.
Ltac solve_fields :=
  lazymatch goal with
  | |- NoDup _ =>
      cbn [fmap list_fmap fst]; repeat (apply NoDup_cons_2; [other_field|]); apply NoDup_nil_2
  | |- ¬ _ => other_field
  | |- _ ∈ _ => first [left|right; left|right; right; left|right; right; right; left]
  end.

Section dispatch_theory.
Context `{JsonOps} `{ChronoParse} {host : Type} `{!ToolHost host}.

(** The methods that need no host, and those that do. *)
Definition HOSTLESS : list str := [u "initialize"; u "ping"; u "tools/list"; u "resources/list"].
Definition HOSTED : list str := [u "resources/read"; u "tools/call"].

Lemma dispatch_cases (h : host) request version id :
  request_id request = Some id →
  (method request ∈ HOSTLESS ∧
   ∃ v, dispatch h request version = (h, Some (result_response id v))) ∨
  (method request ∈ HOSTED ∧
   ∃ h', (∃ v, dispatch h request version = (h', Some (result_response id v))) ∨
         (∃ m, dispatch h request version = (h', Some (error_response id INVALID_PARAMS m)))) ∨
  (method request ∉ HOSTLESS ++ HOSTED ∧
   dispatch h request version =
     (h, Some (error_response id METHOD_NOT_FOUND (method request ++ u " is not served here")))).
Proof.
  intros Hid. unfold dispatch. rewrite Hid.
  destruct (bool_decide_reflect (method request = u "initialize")) as [-> |N1].
  { left. split; [left|by eexists]. }
  destruct (bool_decide_reflect (method request = u "ping")) as [-> |N2].
  { left. split; [right; left|by eexists]. }
  destruct (bool_decide_reflect (method request = u "tools/list")) as [-> |N3].
  { left. split; [do 2 right; left|by eexists]. }
  destruct (bool_decide_reflect (method request = u "resources/list")) as [-> |N4].
  { left. split; [do 3 right; left|by eexists]. }
  destruct (bool_decide_reflect (method request = u "resources/read")) as [-> |N5].
  { right. left. split; [left|]. destruct (read_resource h _) as [h' [c|e]]; exists h'; eauto. }
  destruct (bool_decide_reflect (method request = u "tools/call")) as [-> |N6].
  { right. left. split; [right; left|]. destruct (call_tool h _) as [h' [c|e]]; exists h'; eauto. }
  right. right. split; [|done]. unfold HOSTLESS, HOSTED.
  cbn [app]. rewrite !elem_of_cons, elem_of_nil. tauto.
Qed.

(** What every operation of the host keeps, every request keeps. *)
Lemma dispatch_keeps (R : host → host → Prop) (h : host) request version :
  R h h → R h (context h).1 → R h (memory_index h).1 → (∀ q, R h (host_search q h).1) →
  (∀ t, R h (host_read t h).1) → (∀ n f, R h (host_recent n f h).1) →
  (∀ f m, R h (host_remember f m h).1) → (∀ l m, R h (host_note_today l m h).1) →
  R h (dispatch h request version).1.
Proof.
  intros Hr Hc Hm Hs Hrd Hre Hrem Hn. unfold dispatch.
  destruct (request_id request) as [id|]; [|done].
  do 4 (destruct (bool_decide _); [done|]). destruct (bool_decide _).
  { unfold read_resource. destruct (bool_decide _).
    - destruct (memory_index h) as [h' r]. by destruct (result_bind r _).
    - destruct (strip_prefix _ _) as [path|]; [|done]. specialize (Hrd (Path path)).
      destruct (host_read _ h) as [h' r]. by destruct (result_bind r _). }
  destruct (bool_decide _); [|done]. unfold call_tool.
  destruct (or_refused _ _) as [name|e]; [|done].
  destruct (tool_outcome _ _ _) as [call|e] eqn:E; [|done].
  enough (R h (call h).1) as H' by (by destruct (call h)).
  revert E. unfold tool_outcome. do 6 (destruct (bool_decide _); [
    first [intros [= <-]; cbn [answer fst]; by auto
          |rewrite result_bind_Ok; intros (a & _ & [= <-]); cbn [answer fst]; auto]|]).
  done.
Qed.

(** A notification changes nothing and gets no reply; every other request
    gets exactly one, with its id, that is a result or an error and never both.
    A method that is not served is answered [METHOD_NOT_FOUND], an error of the
    others is [INVALID_PARAMS], and only [resources/read] and [tools/call] touch
    the host. *)
Theorem dispatch_replies (h : host) request version :
  match request_id request with
  | None => dispatch h request version = (h, None)
  | Some id =>
      ∃ h' response, dispatch h request version = (h', Some response) ∧
        response_id response = id ∧ response_jsonrpc response = u "2.0" ∧
        is_some (response_result response) = negb (is_some (response_error response)) ∧
        (h' = h ∨ method request ∈ HOSTED) ∧
        ∀ e, response_error response = Some e →
          if decide (method request ∈ HOSTLESS ++ HOSTED)
          then method request ∈ HOSTED ∧ code e = INVALID_PARAMS
          else code e = METHOD_NOT_FOUND
  end.
Proof.
  destruct (request_id request) as [id|] eqn:Hid; [|unfold dispatch; by rewrite Hid].
  destruct (dispatch_cases h request version id Hid)
    as [(Hm & v & ->)|[(Hm & h' & [[v ->]|[m ->]])|(Hm & ->)]].
  - exists h, (result_response id v). split_and!; auto. done.
  - exists h', (result_response id v). split_and!; auto. done.
  - exists h', (error_response id INVALID_PARAMS m). split_and!; auto.
    intros e [= <-]. rewrite decide_True by (apply elem_of_app; auto). done.
  - eexists h, _. split_and!; [done|done|done|done|by left|].
    intros e [= <-]. by rewrite decide_False.
Qed.

(** ** Tools *)

Definition TOOL_NAMES : list str :=
  [u "context"; u "search"; u "read"; u "recent"; u "remember"; u "note_today"].

Lemma tools_names : map tool_name tools = TOOL_NAMES.
Proof. reflexivity. Qed.

(** The name of a listed tool, by cases. *)
Lemma tool_name_cases name :
  name ∈ TOOL_NAMES →
  name = u "context" ∨ name = u "search" ∨ name = u "read" ∨ name = u "recent" ∨
  name = u "remember" ∨ name = u "note_today".
Proof. unfold TOOL_NAMES. rewrite !elem_of_cons, elem_of_nil. tauto. Qed.

Lemma tool_outcome_unknown name args meta :
  name ∉ TOOL_NAMES → tool_outcome name args meta = Err (Refused (u "no tool named " ++ name)).
Proof.
  unfold TOOL_NAMES. rewrite !elem_of_cons, elem_of_nil. intros Hn. unfold tool_outcome.
  by rewrite !bool_decide_eq_false_2 by (intros ->; tauto).
Qed.

(** The sentences on unusable arguments. *)
Definition ARGUMENT_SENTENCES : list str :=
  [u "search needs a `query` string"; u "`since` must be a day, YYYY-MM-DD";
   u "read needs a `path` or a `link`"; u "remember needs a `fact` string";
   u "`lines` must hold strings"; u "note_today needs a `line` or `lines`";
   u "note_today takes at most 20 lines per call"].

Ltac listed_sentence := eexists; split; [|reflexivity]; vm_compute; reflexivity.

Lemma tool_outcome_known name args meta :
  name ∈ TOOL_NAMES →
  match tool_outcome name args meta with
  | Ok _ => True
  | Err e => ∃ m, m ∈ ARGUMENT_SENTENCES ∧ e = Refused m
  end.
Proof.
  intros Hn. destruct (tool_outcome name args meta) as [c|e] eqn:E; [done|].
  enough (∃ m, existsb (λ s, s == m) ARGUMENT_SENTENCES = true ∧ e = Refused m) as (m & Hm & ->).
  { exists m. split; [|done]. apply existsb_Exists, Exists_exists in Hm as (s & Hs & ->%bool_decide_eq_true).
    done. }
  revert E. destruct (tool_name_cases name Hn) as [-> |[-> |[-> |[-> |[-> | ->]]]]]; cbn [tool_outcome].
  all: unfold tool_outcome; repeat (rewrite bool_decide_eq_false_2 by (by intros [=]));
    rewrite bool_decide_eq_true_2 by done; try done.
  - rewrite result_bind_Err. intros [E|(q & _ & [=])]. revert E. unfold parse_search_query.
    destruct (trimmed_arg _ _) as [q|]; cbn [or_refused result_bind].
    + destruct (str_arg _ _) as [since|]; [|done].
      destruct (parse_ymd _); [done|]. cbn [result_bind]. intros [= <-]. listed_sentence.
    + intros [= <-]. listed_sentence.
  - rewrite result_bind_Err. intros [E|(q & _ & [=])]. revert E. unfold parse_read_target.
    destruct (trimmed_arg _ _); [done|]. destruct (trimmed_arg _ _); [done|].
    intros [= <-]. listed_sentence.
  - rewrite result_bind_Err. intros [E|(q & _ & [=])]. revert E. unfold parse_fact.
    destruct (str_arg _ _); [done|]. intros [= <-]. listed_sentence.
  - rewrite result_bind_Err. intros [E|(q & _ & [=])]. revert E. unfold parse_lines.
    rewrite result_bind_Err. intros [E|(several & _ & E)]; revert E.
    + destruct (x ← json_get (u "lines") args; as_array x) as [array|]; [|done].
      destruct (mapM as_str array); [done|]. intros [= <-]. listed_sentence.
    + unfold err_if. destruct (bool_decide _); [intros [= <-]; listed_sentence|].
      destruct (_ <? _)%nat; [intros [= <-]; listed_sentence|done].
Qed.

(** The tools that are listed are the tools that are served: a call is
    refused as unknown exactly when no listed tool has its name. *)
Theorem tools_served name args meta :
  (∃ t, t ∈ tools ∧ tool_name t = name) ↔
  tool_outcome name args meta ≠ Err (Refused (u "no tool named " ++ name)).
Proof.
  assert ((∃ t, t ∈ tools ∧ tool_name t = name) ↔ name ∈ TOOL_NAMES) as ->.
  { rewrite <- tools_names, list_elem_of_fmap. naive_solver. }
  split.
  - intros Hn E. pose proof (tool_outcome_known name args meta Hn) as Hk. rewrite E in Hk.
    destruct Hk as (m & Hm & [= <-]).
    unfold ARGUMENT_SENTENCES in Hm. rewrite !elem_of_cons, elem_of_nil in Hm.
    destruct Hm as [[=]|[[=]|[[=]|[[=]|[[=]|[[=]|[[=]|[]]]]]]]].
  - intros Hk. destruct (decide (name ∈ TOOL_NAMES)); [done|].
    destruct Hk. by apply tool_outcome_unknown.
Qed.

(** The client can tell what a failed call means from the reply alone: the
    reply carries the host's sentence, is an error exactly when the host failed,
    and is a refusal exactly when the host refused, which is when a queued call
    is dropped instead of tried again. *)
Theorem tool_response_spec `{!JsonLaws} (outcome : result str HostError) :
  let r := tool_response outcome in
  is_error r = negb match outcome with Ok _ => true | Err _ => false end ∧
  is_refusal r = match outcome with Err (Refused _) => true | _ => false end ∧
  first_text r = match outcome with Ok text => text | Err e => message e end.
Proof.
  destruct outcome as [text|[m|m]]; try done. split_and!; try done.
  unfold is_refusal. cbn [tool_response response_refused is_error response_meta andb].
  cbn [mbind option_bind].
  rewrite (json_get_object (u "thock") (json_object [(u "refused", json_bool true)])); cbn [mbind option_bind].
  - rewrite (json_get_object (u "refused") (json_bool true)); cbn [mbind option_bind].
    + by rewrite as_bool_bool.
    + apply NoDup_singleton.
    + left.
  - apply NoDup_singleton.
  - left.
Qed.
End dispatch_theory.

(** ** Arguments *)

Section argument_theory.
Context `{JsonOps} `{ChronoParse}.

Lemma trimmed_arg_Some name args s :
  trimmed_arg name args = Some s → s ≠ [] ∧ trim s = s ∧ ∃ raw, str_arg name args = Some raw ∧ s = trim raw.
Proof.
  unfold trimmed_arg. destruct (str_arg name args) as [raw|]; [|done]. cbn [mbind option_bind].
  destruct (bool_decide_reflect (trim raw = [])); [done|]. intros [= <-].
  split_and!; [done|apply trim_idemp|eauto].
Qed.

Lemma parse_lines_Ok args lines :
  parse_lines args = Ok lines →
  lines ≠ [] ∧ length lines ≤ MAX_TODAY_LINES ∧
  lines = match str_arg (u "line") args with Some line => [line] | None => [] end
          ++ default [] (x ← json_get (u "lines") args; array ← as_array x; mapM as_str array).
Proof.
  unfold parse_lines. rewrite result_bind_Ok. intros (several & Hs & Hl).
  rewrite !err_if_Ok, bool_decide_eq_false, Nat.ltb_ge in Hl.
  destruct Hl as (Hne & Hlen & [= <-]). split_and!; [done|done|]. f_equal.
  destruct (json_get (u "lines") args) as [x|]; cbn [mbind option_bind] in *; [|by injection Hs].
  destruct (as_array x) as [array|]; cbn [mbind option_bind]; [|by injection Hs].
  apply or_refused_Ok in Hs. by rewrite Hs.
Qed.

(** What reaches the host is within the documented limits: a query is not
    blank and asks for 1 to 50 notes, [recent] for 1 to 366 days, [note_today]
    brings 1 to 20 lines, and a path or title to read is not blank. *)
Theorem arguments_in_bounds args :
  (∀ q, parse_search_query args = Ok q →
     query q ≠ [] ∧ trim (query q) = query q ∧ 1 ≤ limit q ≤ 50 ∧ folder q ≠ Some []) ∧
  (1 <= parse_days args <= 366)%N ∧
  (∀ lines, parse_lines args = Ok lines → 1 ≤ length lines ≤ 20) ∧
  (∀ target, parse_read_target args = Ok target →
     match target with Path s | Link s => s ≠ [] ∧ trim s = s end).
Proof.
  split_and!.
  - intros q. unfold parse_search_query. rewrite result_bind_Ok. intros (s & Hs & Hq).
    apply or_refused_Ok, trimmed_arg_Some in Hs as (Hne & Ht & _).
    apply result_bind_Ok in Hq as (date & _ & [= <-]). cbn [query limit folder].
    assert (∀ n, 1 ≤ N.to_nat (clamp 1 MAX_SEARCH_LIMIT n) ≤ 50) as Hc.
    { intros n. pose proof (clamp_range 1 MAX_SEARCH_LIMIT n ltac:(done)) as Hr.
      unfold MAX_SEARCH_LIMIT in *. lia. }
    split_and!; [done|done|apply Hc|apply Hc|].
    destruct (str_arg _ args) as [f|]; [|done]. cbn [mbind option_bind].
    destruct (bool_decide_reflect (trim_matches (N.eqb SLASH_CHAR) (trim f) = [])); [done|].
    by intros [=].
  - apply clamp_range. done.
  - apply clamp_range. done.
  - intros lines (Hne & Hl & _)%parse_lines_Ok. unfold MAX_TODAY_LINES in Hl.
    destruct lines; [done|]. simpl in *. lia.
  - intros target. unfold parse_read_target.
    destruct (trimmed_arg (u "path") args) as [p|] eqn:Ep.
    + intros [= <-]. by apply trimmed_arg_Some in Ep as (? & ? & _).
    + destruct (trimmed_arg (u "link") args) as [l|] eqn:El; [|done].
      intros [= <-]. by apply trimmed_arg_Some in El as (? & ? & _).
Qed.

(** What [with_meta] puts in, [call_meta] reads, and the rest stays. *)
Lemma with_meta_reads `{!JsonLaws} `{!ChronoParseLaws} request meta :
  match params request with Some p => is_object p = true | None => True end →
  match call_date meta with Some d => (0 <= year d < 10000)%Z | None => True end →
  let forwarded := with_meta request meta in
  call_meta forwarded = meta ∧ request_tool_name forwarded = request_tool_name request ∧
  arguments forwarded = arguments request ∧ request_id forwarded = request_id request ∧
  method forwarded = method request.
Proof.
  intros Hp Hd forwarded.
  set (p := default (json_object []) (params request)).
  set (entry := json_object
    (match call_id meta with Some id => [(u "call_id", json_string id)] | None => [] end
     ++ match call_date meta with
        | Some date => [(u "date", json_string (format_ymd date))]
        | None => [] end)).
  assert (∃ y, json_insert (u "_meta") entry p = Some y) as [y Hy].
  { subst p. destruct (params request) as [x|]; cbn [from_option id].
    - unfold is_object in Hp. apply (json_insert_is_Some (u "_") json_null).
      revert Hp; destruct (json_insert (u "_") json_null x); by eauto.
    - apply json_insert_object. }
  assert (params forwarded = Some y) as Ey.
  { subst forwarded. unfold with_meta. cbn [params]. fold p entry. by rewrite Hy. }
  assert (∀ k, k ≠ u "_meta" → json_get k y = json_get k p) as Hother
    by (intros k Hk; by eapply json_get_insert_ne).
  split_and!; try done.
  - unfold call_meta. rewrite Ey. cbn [mbind option_bind]. rewrite (json_get_insert _ _ _ _ Hy).
    cbn [mbind option_bind]. subst entry. destruct meta as [[id|] [date|]]; cbn [call_id call_date app] in *.
    + rewrite (json_get_object (u "call_id") (json_string id)),
        (json_get_object (u "date") (json_string (format_ymd date))) by solve_fields.
      cbn [mbind option_bind]. rewrite !as_str_string. cbn [mbind option_bind].
      by rewrite parse_ymd_format.
    + rewrite (json_get_object (u "call_id") (json_string id)), json_get_object_None by solve_fields.
      cbn [mbind option_bind]. by rewrite as_str_string.
    + rewrite json_get_object_None, (json_get_object (u "date") (json_string (format_ymd date)))
        by solve_fields.
      cbn [mbind option_bind]. rewrite as_str_string. cbn [mbind option_bind].
      by rewrite parse_ymd_format.
    + by rewrite !json_get_object_None by solve_fields.
  - unfold request_tool_name. rewrite Ey. cbn [mbind option_bind]. rewrite Hother by done.
    subst p. destruct (params request) as [x|]; [done|]. cbn [from_option id mbind option_bind].
    by rewrite json_get_object_None by solve_fields.
  - unfold arguments. rewrite Ey. cbn [mbind option_bind]. rewrite Hother by done.
    subst p. destruct (params request) as [x|]; [done|]. cbn [from_option id mbind option_bind].
    by rewrite json_get_object_None by solve_fields.
Qed.

(** The bookkeeping of a queued write survives its forwarding: the id and
    the day the client puts in [_meta] are the ones the desk reads back, the
    tool and its arguments are untouched, and the reply still goes to the same
    request. *)
Theorem meta_roundtrip `{!JsonLaws} `{!ChronoParseLaws} request meta :
  match params request with Some p => is_object p = true | None => True end →
  match call_date meta with Some d => (0 <= year d < 10000)%Z | None => True end →
  let forwarded := with_meta request meta in
  call_meta forwarded = meta ∧ request_tool_name forwarded = request_tool_name request ∧
  arguments forwarded = arguments request ∧ request_id forwarded = request_id request ∧
  method forwarded = method request.
Proof. exact (with_meta_reads request meta). Qed.
End argument_theory.

(** ** Checks before queueing *)

Section check_theory.
Context `{JsonOps} `{ChronoParse} `{!ChronoDays} `{!ChronoDaysLaws} `{UnicodeTables}.

(** The day of a queued call is kept exactly when it is one of the seven
    before today, or today. *)
Theorem accepted_call_date_spec date today oldest :
  sub_days today CALL_DATE_WINDOW_DAYS = Some oldest →
  ∀ d, accepted_call_date date today = Some d ↔
    date = Some d ∧
    (num_days_from_ce today - 7 <= num_days_from_ce d <= num_days_from_ce today)%Z.
Proof.
  intros Ho d. unfold accepted_call_date. destruct date as [d'|]; [|naive_solver].
  cbn [mbind option_bind]. rewrite Ho. cbn [mbind option_bind].
  apply sub_days_Some in Ho. unfold CALL_DATE_WINDOW_DAYS in Ho. unfold before.
  rewrite !date_cmp_days, Ho.
  destruct (bool_decide_reflect ((num_days_from_ce d' ?= num_days_from_ce today - 7)%Z = Lt)) as [E|E];
    rewrite Z.compare_lt_iff in E.
  { split; [done|]. intros [[= ->] ?]. lia. }
  destruct (bool_decide_reflect ((num_days_from_ce today ?= num_days_from_ce d')%Z = Lt)) as [E'|E'];
    rewrite Z.compare_lt_iff in E'; simpl.
  { split; [done|]. intros [[= ->] ?]. lia. }
  split; [intros [= <-]; split; [done|lia]|by intros [[= ->] _]].
Qed.

(** Whether a list of topics is given matters only for topics. *)
Lemma check_fact_topics text forbidden :
  match check_fact text [] with
  | Ok fact =>
      check_fact text forbidden = Ok fact ∨
      ∃ topic, topic ∈ forbidden ∧ check_fact text forbidden = Err (ForbiddenTopic topic)
  | Err e => check_fact text forbidden = Err e
  end.
Proof.
  unfold check_fact, err_if.
  destruct (bool_decide _); [done|]. destruct (existsb _ _); [done|].
  destruct (_ <? _)%nat; [done|]. destruct (_ || _); [done|].
  destruct (looks_like_credential _); [done|]. cbn [touches find].
  destruct (touches (trim text) forbidden) as [topic|] eqn:E; [|by left].
  right. exists topic. split; [|done]. unfold touches in E.
  by apply find_some in E as [E%list_elem_of_In _].
Qed.

(** The facts a call of a writing tool carries. *)
Definition call_facts (name : str) (args : json) : result (list str) HostError :=
  if name == u "remember" then fact ←! parse_fact args; Ok [fact] else parse_lines args.

Lemma check_lines_Ok lines :
  check_lines lines = Ok tt ↔ ∀ line, line ∈ lines → ∃ fact, check_fact line [] = Ok fact.
Proof.
  induction lines as [|line lines IH]; cbn [check_lines].
  - split; [|done]. intros _ line Hl. by apply elem_of_nil in Hl.
  - rewrite result_bind_Ok. split.
    + intros (fact & Hf & Hl). rewrite IH in Hl. intros l [-> |Hin]%elem_of_cons; [|by apply Hl].
      destruct (check_fact line []) as [f|e]; [by eexists|done].
    + intros Hall. destruct (Hall line ltac:(left)) as [fact Hf]. exists fact.
      split; [by rewrite Hf|]. apply IH. intros l Hl. apply Hall. by right.
Qed.

(** The client refuses a write before queueing it only when the desk would
    refuse it too, whatever topics the person forbids; and what the client lets
    through, the desk can refuse only for such a topic. *)
Theorem validation_agrees name args facts :
  name = u "remember" ∨ name = u "note_today" → call_facts name args = Ok facts →
  match validate_tool_arguments name args with
  | Ok _ =>
      ∀ forbidden fact e, fact ∈ facts → check_fact fact forbidden = Err e →
        ∃ topic, topic ∈ forbidden ∧ e = ForbiddenTopic topic
  | Err _ => ∃ fact e, fact ∈ facts ∧ ∀ forbidden, check_fact fact forbidden = Err e
  end.
Proof.
  intros Hname Hf.
  assert (validate_tool_arguments name args = Ok tt ↔
          ∀ line, line ∈ facts → ∃ fact, check_fact line [] = Ok fact) as Hv.
  { unfold call_facts, validate_tool_arguments in *.
    destruct Hname as [-> | ->].
    - rewrite bool_decide_eq_true_2 in Hf |- * by done.
      apply result_bind_Ok in Hf as (fact & Hp & [= <-]). rewrite Hp. cbn [result_bind].
      rewrite <- check_lines_Ok. done.
    - rewrite (bool_decide_eq_false_2 (u "note_today" = u "remember")) in Hf |- * by (by intros [=]).
      rewrite bool_decide_eq_true_2 by done. rewrite Hf. cbn [result_bind]. by rewrite check_lines_Ok. }
  destruct (validate_tool_arguments name args) as [[]|e].
  - intros forbidden fact e Hin Hc. destruct (proj1 Hv eq_refl fact Hin) as [f Hok].
    pose proof (check_fact_topics fact forbidden) as Ht. rewrite Hok in Ht.
    destruct Ht as [Ht|(topic & Hto & Ht)]; rewrite Ht in Hc; [done|].
    injection Hc as <-. eauto.
  - destruct (list_find (λ line, match check_fact line [] with Ok _ => false | Err _ => true end = true)
      facts) as [[i fact]|] eqn:E.
    + apply list_find_Some in E as (Hi & Hc & _). apply list_elem_of_lookup_2 in Hi.
      destruct (check_fact fact []) as [|e'] eqn:Ec; [done|]. exists fact, e'. split; [done|].
      intros forbidden. pose proof (check_fact_topics fact forbidden) as Ht. by rewrite Ec in Ht.
    + exfalso. assert (Err e = Ok tt) as Hbad; [|done]. apply Hv. intros line Hl.
      apply list_find_None in E. rewrite Forall_forall in E. specialize (E line Hl).
      simpl in E. destruct (check_fact line []); [by eexists|done].
Qed.

(** Arguments that pass the client's check are ones every host gets to see:
    a listed tool is then called, whatever the host. *)
Theorem validated_reaches_host {host : Type} `{!ToolHost host} name args meta :
  name ∈ TOOL_NAMES → validate_tool_arguments name args = Ok tt →
  ∃ call, tool_outcome name args meta = Ok call.
Proof.
  intros Hn. unfold validate_tool_arguments, tool_outcome.
  destruct (tool_name_cases name Hn) as [-> |[-> |[-> |[-> |[-> | ->]]]]].
  all: repeat (rewrite bool_decide_eq_false_2 by (by intros [=])).
  all: rewrite bool_decide_eq_true_2 by done.
  all: repeat (rewrite bool_decide_eq_false_2 by (by intros [=])); try (by eexists).
  all: rewrite ?bool_decide_eq_true_2 by done; rewrite result_bind_Ok; intros (a & -> & _);
    by eexists.
Qed.
End check_theory.
