(* ===== verification/Http.v ===== *)
(** * The bridge's HTTP ([thock-bridge/http.rs])

    Routes, bearer tokens, percent encoding, the request head the desk reads
    and the requests and responses both sides write. Sockets are streams of
    bytes that end or break off. *)

From S2P Require Import Prelude Strings Utf8.

(** ** Routes *)

Inductive Route :=
  | Pair
  | Health
  | Mcp
  | McpNotPost
  | Skill
  | AgentFile (harness path : str)
  | NotFound.

#[export] Instance Route_eq_dec : EqDecision Route.
Proof. solve_decision. Defined.

(** [to_digit(16)] *)
Definition hex_digit (b : N) : option N :=
  (if (48 <=? b) && (b <=? 57) then Some (b - 48)
   else if (65 <=? b) && (b <=? 70) then Some (b - 55)
   else if (97 <=? b) && (b <=? 102) then Some (b - 87)
   else None)%N.

(** In [u8]: [high << 4] of a digit below 16 does not overflow. *)
Definition hex_pair (high low : N) : option N :=
  h ← hex_digit high; l ← hex_digit low; Some (N.lor (N.shiftl h 4) l).

Definition hex_upper (n : N) : char := (if n <? 10 then 48 + n else 55 + n)%N.

Definition unreserved (b : N) : bool :=
  is_ascii_alphanumeric b || (b =? ch "-")%N || (b =? ch "_")%N || (b =? ch ".")%N || (b =? ch "~")%N.

Definition percent_byte (b : N) : str :=
  if unreserved b then [b] else [ch "%"; hex_upper (b / 16); hex_upper (b mod 16)]%N.

Definition percent_encode (segment : str) : str := flat_map percent_byte (as_bytes segment).

Fixpoint percent_decode_bytes (bytes : list N) : list N :=
  match bytes with
  | [] => []
  | b :: rest =>
      match rest with
      | high :: low :: after =>
          match (if (b =? ch "%")%N then hex_pair high low else None) with
          | Some value => value :: percent_decode_bytes after
          | None => b :: percent_decode_bytes rest
          end
      | _ => b :: percent_decode_bytes rest
      end
  end.

Definition percent_decode (text : str) : str :=
  from_utf8_lossy (percent_decode_bytes (as_bytes text)).

Definition AGENTS_PREFIX : str := u "/v1/agents/".

Definition parse_route (method url : str) : Route :=
  let path := default url (head (split_char (ch "?") url)) in
  let path := trim_end_matches (λ c, c =? ch "/")%N path in
  if (method == u "POST") && (path == u "/v1/pair") then Pair
  else if (method == u "GET") && (path == u "/v1/health") then Health
  else if (method == u "POST") && (path == u "/mcp") then Mcp
  else if path == u "/mcp" then McpNotPost
  else if (method == u "GET") && (path == u "/v1/skill") then Skill
  else if (method == u "PUT") && starts_with AGENTS_PREFIX path then
    match split_once (u "/") (drop (length AGENTS_PREFIX) path) with
    | Some (harness, path) =>
        if (harness != []) && (path != [])
        then AgentFile (percent_decode harness) (percent_decode path)
        else NotFound
    | None => NotFound
    end
  else NotFound.

(** ** Headers *)

Definition header_list : Type := list (str * str).

Definition bearer_of (value : str) : option str :=
  match split_once (u " ") (trim value) with
  | Some (scheme, token) =>
      let token := trim token in
      if eq_ignore_ascii_case scheme (u "bearer") && (token != []) then Some token else None
  | None => None
  end.

Definition bearer_token (headers : header_list) : option str :=
  find_map (λ h : str * str, bearer_of h.2)
    (filter (λ h : str * str, eq_ignore_ascii_case h.1 (u "authorization") = true) headers).

Record RequestHead := mkRequestHead {
  head_method : str;
  head_url : str;
  head_headers : header_list;
  content_length : N;
}.

Definition header (head : RequestHead) (name : str) : option str :=
  snd <$> find (λ h : str * str, eq_ignore_ascii_case h.1 name) (head_headers head).

(** ** What the desk reads *)

Inductive ReadError := TimedOut | OtherError.

(** The bytes a peer sends, and how the stream ends after them. *)
Record Stream := mkStream { arriving : list N; broken : option ReadError }.

Definition MAX_HEAD_BYTES : nat := 16 * 1024.
Definition LF : N := 10.
Definition CR : N := 13.

Definition read_error (e : ReadError) : N := match e with TimedOut => 408%N | OtherError => 400%N end.

(** [take(limit).read_line]: up to a newline, the limit or the end. *)
Definition read_line (limit : nat) (s : Stream) : result (list N * Stream) N :=
  let window := take limit (arriving s) in
  match find_sub [LF] window with
  | Some i => Ok (take (S i) window, mkStream (drop (S i) (arriving s)) (broken s))
  | None =>
      if (limit <=? length (arriving s))%nat
      then Ok (window, mkStream (drop limit (arriving s)) (broken s))
      else match broken s with
           | Some e => Err (read_error e)
           | None => Ok (window, mkStream [] None)
           end
  end.

(** The closure [read_line] of [read_request_head]: the line and how much of
    the cap is used. *)
Definition read_head_line (consumed : nat) (s : Stream) : result (str * nat * Stream) N :=
  let remaining := (MAX_HEAD_BYTES - consumed) + 1 in
  read ←! read_line remaining s;
  let '(bytes, s) := read : list N * Stream in
  match from_utf8 bytes with
  | None => Err 400%N
  | Some line =>
      let consumed := consumed + length bytes in
      if ((MAX_HEAD_BYTES <? consumed) || (length bytes =? remaining))%nat then Err 431%N
      else Ok (line, consumed, s)
  end.

Definition ok_or {A E} (o : option A) (e : E) : result A E :=
  match o with Some x => Ok x | None => Err e end.

Definition is_line_end (c : char) : bool := ((c =? CR) || (c =? LF))%N.

(** The loop over the header lines; each takes at least a byte. *)
Fixpoint read_headers (fuel : nat) (consumed : nat) (s : Stream) (headers : header_list)
    (length_ : N) : option (result (header_list * N * Stream) N) :=
  match fuel with
  | 0 => None
  | S fuel =>
      match read_head_line consumed s with
      | Err e => Some (Err e)
      | Ok (line, consumed', s) =>
          if (consumed' =? consumed)%nat then Some (Err 400%N)
          else
            let trimmed := trim_end_matches is_line_end line in
            if trimmed == [] then Some (Ok (headers, length_, s))
            else match split_once (u ":") trimmed with
              | None => Some (Err 400%N)
              | Some (name, value) =>
                  let name := trim name in
                  let value := trim value in
                  if eq_ignore_ascii_case name (u "content-length") then
                    match parse_unsigned USIZE_MAX value with
                    | None => Some (Err 400%N)
                    | Some n => read_headers fuel consumed' s (headers ++ [(name, value)]) n
                    end
                  else read_headers fuel consumed' s (headers ++ [(name, value)]) length_
              end
      end
  end.

Definition read_request_head (s : Stream) : option (result (RequestHead * Stream) N) :=
  match read_head_line 0 s with
  | Err e => Some (Err e)
  | Ok (line, consumed, s) =>
      if (consumed =? 0)%nat then Some (Err 400%N)
      else match split_whitespace line with
        | method :: url :: _ =>
            match read_headers (S (length (arriving s))) consumed s [] 0 with
            | None => None
            | Some (Err e) => Some (Err e)
            | Some (Ok (headers, n, s)) => Some (Ok (mkRequestHead method url headers n, s))
            end
        | _ => Some (Err 400%N)
        end
  end.

Definition read_body (s : Stream) (length_ : N) : result (list N * Stream) N :=
  let n := N.to_nat length_ in
  if (length_ <=? N.of_nat (length (arriving s)))%N
  then Ok (take n (arriving s), mkStream (drop n (arriving s)) (broken s))
  else Err 408%N.

(** ** What the desk answers *)

Definition reason (status : N) : str :=
  if (status =? 200)%N then u "OK"
  else if (status =? 202)%N then u "Accepted"
  else if (status =? 204)%N then u "No Content"
  else if (status =? 400)%N then u "Bad Request"
  else if (status =? 401)%N then u "Unauthorized"
  else if (status =? 403)%N then u "Forbidden"
  else if (status =? 404)%N then u "Not Found"
  else if (status =? 405)%N then u "Method Not Allowed"
  else if (status =? 408)%N then u "Request Timeout"
  else if (status =? 410)%N then u "Gone"
  else if (status =? 413)%N then u "Payload Too Large"
  else if (status =? 422)%N then u "Unprocessable Content"
  else if (status =? 431)%N then u "Request Header Fields Too Large"
  else if (status =? 500)%N then u "Internal Server Error"
  else if (status =? 503)%N then u "Service Unavailable"
  else u "Status".

Definition CRLF : str := [CR; LF].

Definition response_head (status : N) (content_type : str) (body_length : nat) : str :=
  u "HTTP/1.1 " ++ show_N status ++ u " " ++ reason status ++ CRLF
  ++ u "Content-Type: " ++ content_type ++ CRLF
  ++ u "Content-Length: " ++ show_N (N.of_nat body_length) ++ CRLF
  ++ u "Connection: close" ++ CRLF ++ CRLF.

Definition write_response (status : N) (content_type : str) (body : list N) : list N :=
  as_bytes (response_head status content_type (length body)) ++ body.

(** ** The blocking client *)

Record HttpRequest := mkHttpRequest {
  request_method : str;
  request_url : str;
  request_headers : header_list;
  request_body : list N;
}.

Record HttpResponse := mkHttpResponse { response_status : N; response_body : list N }.

Definition response_text_lossy (r : HttpResponse) : str := from_utf8_lossy (response_body r).
Definition is_success (r : HttpResponse) : bool :=
  ((200 <=? response_status r) && (response_status r <? 300))%N.

(** [usize::from_str_radix(_, 16)] *)
Definition parse_hex (s : str) : option N :=
  let digits := default s (strip_prefix (u "+") s) in
  match digits with
  | [] => None
  | _ =>
      match mapM hex_digit digits with
      | Some values =>
          let n := fold_left (λ acc d, 16 * acc + d)%N values 0%N in
          if (n <=? USIZE_MAX)%N then Some n else None
      | None => None
      end
  end.

Definition chunk_size (size_line : list N) : N :=
  default 0%N
    (hex ← head (split_char (ch ";") (from_utf8_lossy size_line)); parse_hex (trim hex)).

(** The loop of [dechunk] at [index]: [None] is the panic of [start + size] past
    [usize], or of the slice that follows where overflow wraps. *)
Fixpoint dechunk_loop (fuel : nat) (body : list N) (index : nat) (out : list N)
  : option (list N) :=
  match fuel with
  | 0 => Some out
  | S fuel =>
      if (length body <=? index)%nat then Some out
      else match find_sub CRLF (drop index body) with
        | None => Some out
        | Some line_end =>
            let size := chunk_size (take line_end (drop index body)) in
            if (size =? 0)%N then Some out
            else
              let start := index + line_end + 2 in
              if (USIZE_MAX <? N.of_nat start + size)%N then None
              else
                let finish := N.to_nat (N.min (N.of_nat start + size) (N.of_nat (length body))) in
                dechunk_loop fuel body (finish + 2) (out ++ take (finish - start) (drop start body))
        end
  end.

Definition dechunk (body : list N) : option (list N) := dechunk_loop (S (length body)) body 0 [].

Definition is_chunked_line (line : str) : bool :=
  starts_with (u "transfer-encoding:chunked") (replace (u " ") [] (map ascii_lower line)).

(** [None] when [dechunk] panics. *)
Definition parse_response (raw : list N) : option (result HttpResponse str) :=
  match find_sub (CRLF ++ CRLF) raw with
  | None => Some (Err (u "the desk's answer had no headers"))
  | Some split =>
      let text := from_utf8_lossy (take split raw) in
      let status :=
        line ← head (str_lines text);
        code ← split_whitespace line !! 1;
        parse_unsigned U16_MAX code in
      match status with
      | None => Some (Err (u "the desk's answer had no status"))
      | Some status =>
          let body := drop (split + 4) raw in
          if existsb is_chunked_line (str_lines text)
          then (λ body, Ok (mkHttpResponse status body)) <$> dechunk body
          else Some (Ok (mkHttpResponse status body))
      end
  end.

(** The address: host, port and target of an [http://] URL. *)
Definition parse_url (url : str) : result (str * N * str) str :=
  match strip_prefix (u "http://") url with
  | None => Err (url ++ u " is not an http:// address")
  | Some rest =>
      let '(authority, target) :=
        match find_sub (u "/") rest with
        | Some index => (take index rest, drop index rest)
        | None => (rest, u "/")
        end in
      match rsplit_once (u ":") authority with
      | Some (host, port) =>
          match parse_unsigned U16_MAX port with
          | Some port => Ok (host, port, target)
          | None => Err (authority ++ u " has no usable port")
          end
      | None => Ok (authority, 80%N, target)
      end
  end.

Definition header_line (h : str * str) : str := h.1 ++ u ": " ++ h.2 ++ CRLF.

Definition sent_header (h : str * str) : bool :=
  negb (eq_ignore_ascii_case h.1 (u "content-length"))
  && negb (eq_ignore_ascii_case h.1 (u "host")).

Definition request_head_text (r : HttpRequest) (host : str) (port : N) (target : str) : str :=
  request_method r ++ u " " ++ target ++ u " HTTP/1.0" ++ CRLF
  ++ u "Host: " ++ host ++ u ":" ++ show_N port ++ CRLF ++ u "Connection: close" ++ CRLF
  ++ flat_map header_line (filter (λ h, sent_header h = true) (request_headers r))
  ++ u "Content-Length: " ++ show_N (N.of_nat (length (request_body r))) ++ CRLF ++ CRLF.

Definition request_bytes (r : HttpRequest) (host : str) (port : N) (target : str) : list N :=
  as_bytes (request_head_text r host port target) ++ request_body r.

(** [exchange host port bytes]: the connection, the write and the read to the
    end of the stream, or what failed. *)
Definition request (exchange : str → N → list N → result (list N) str) (r : HttpRequest)
  : option (result HttpResponse str) :=
  match parse_url (request_url r) with
  | Err e => Some (Err e)
  | Ok (host, port, target) =>
      match exchange host port (request_bytes r host port target) with
      | Err e => Some (Err e)
      | Ok raw => parse_response raw
      end
  end.
