(* ===== verification/HttpTheory.v ===== *)
(** * What the bridge's HTTP guarantees *)

From stdpp Require Import list.
From S2P Require Import Prelude Strings Utf8 Http.

(** ** Percent encoding *)

(** A finite check, number by number. *)
Lemma below_Forall (P : N → Prop) n b :
  Forall P (map N.of_nat (seq 0 n)) → (b < N.of_nat n)%N → P b.
Proof.
  rewrite Forall_forall. intros Hall Hb. apply Hall, list_elem_of_fmap. exists (N.to_nat b).
  split; [by rewrite N2Nat.id|]. apply elem_of_seq. lia.
Qed.

Lemma hex_pair_upper b :
  (b < 256)%N → hex_pair (hex_upper (b / 16)) (hex_upper (b mod 16)) = Some b.
Proof.
  apply (below_Forall (λ b, hex_pair (hex_upper (b / 16)) (hex_upper (b mod 16)) = Some b) 256).
  decide_closed.
Qed.

(** A character [percent_encode] writes. *)
Definition url_char (c : char) : Prop := unreserved c = true ∨ c = ch "%".

Lemma percent_byte_chars b : (b < 256)%N → Forall url_char (percent_byte b).
Proof.
  intros Hb. unfold percent_byte. destruct (unreserved b) eqn:E; [constructor; [by left|done]|].
  assert (∀ n, (n < 16)%N → unreserved (hex_upper n) = true) as Hh.
  { intros n. apply (below_Forall (λ n, unreserved (hex_upper n) = true) 16). decide_closed. }
  rewrite !Forall_cons. split_and!; [by right|left; apply Hh|left; apply Hh|constructor].
  - apply N.Div0.div_lt_upper_bound; lia.
  - by apply N.mod_lt.
Qed.

Lemma as_bytes_byte s : Forall usv s → Forall (λ b, b < 256)%N (as_bytes s).
Proof.
  induction 1 as [|c s Hc _ IH]; [constructor|]. apply Forall_app. split; [|done].
  unfold usv in Hc. unfold utf8_char. clear IH.
  assert (∀ k m : N, m ≠ 0 → k + m <= 256 → k + c mod m < 256)%N as Hm.
  { intros k m Hm Hk. pose proof (N.mod_lt c m Hm). lia. }
  assert (∀ d : N, 0x80 + (c / d) mod 64 < 256)%N as Hd.
  { intros d. pose proof (N.mod_lt (c / d) 64 ltac:(done)). lia. }
  repeat case_match; bool_to_prop; repeat (apply Forall_cons; split); try apply Forall_nil_2;
    try apply Hd; try (by apply Hm); try lia.
  - assert (c / 64 < 32)%N by (apply N.Div0.div_lt_upper_bound; lia). lia.
  - assert (c / 4096 < 16)%N by (apply N.Div0.div_lt_upper_bound; lia). lia.
  - assert (c / 262144 < 5)%N by (apply N.Div0.div_lt_upper_bound; lia). lia.
Qed.

Lemma percent_encode_chars s : Forall usv s → Forall url_char (percent_encode s).
Proof.
  intros Hs%as_bytes_byte. unfold percent_encode. induction Hs as [|b bs Hb _ IH]; [constructor|].
  apply Forall_app. by split; [apply percent_byte_chars|].
Qed.

Lemma url_char_facts c :
  url_char c → (c < 128)%N ∧ c ≠ ch "/" ∧ c ≠ ch "?".
Proof.
  intros [Hc| ->]; [|by vm_compute]. unfold unreserved, is_ascii_alphanumeric, is_ascii_digit,
    is_ascii_uppercase, is_ascii_lowercase in Hc.
  assert (ch "-" = 45 ∧ ch "_" = 95 ∧ ch "." = 46 ∧ ch "~" = 126 ∧ ch "/" = 47 ∧ ch "?" = 63)%N
    as (E1 & E2 & E3 & E4 & -> & ->) by done. rewrite E1, E2, E3, E4 in Hc.
  repeat (apply orb_true_iff in Hc as [Hc|Hc]); bool_to_prop; lia.
Qed.

Lemma percent_encode_ascii s : Forall usv s → Forall (λ c, c < 128)%N (percent_encode s).
Proof. intros Hs%percent_encode_chars. eapply Forall_impl; [exact Hs|]. by intros c [? _]%url_char_facts. Qed.

Lemma percent_encode_not_in c s :
  c = ch "/" ∨ c = ch "?" → Forall usv s → c ∉ percent_encode s.
Proof.
  intros Hc Hs%percent_encode_chars Hin. rewrite Forall_forall in Hs.
  apply Hs, url_char_facts in Hin as (_ & ? & ?). by destruct Hc.
Qed.

Lemma percent_encode_nil s : percent_encode s = [] → s = [].
Proof.
  destruct s as [|c s]; [done|]. unfold percent_encode. cbn [as_bytes flat_map].
  destruct (utf8_char c) as [|b bs] eqn:E; [by apply utf8_char_nonempty in E|].
  cbn [app flat_map]. unfold percent_byte. by destruct (unreserved b).
Qed.

(** One encoded byte is read back, whatever follows. *)
Lemma percent_decode_byte b rest :
  (b < 256)%N → percent_decode_bytes (percent_byte b ++ rest) = b :: percent_decode_bytes rest.
Proof.
  intros Hb. unfold percent_byte. destruct (unreserved b) eqn:E.
  - cbn [app percent_decode_bytes]. destruct rest as [|x [|y rest]]; [done|done|].
    destruct (N.eqb_spec b (ch "%")) as [->|_]; [done|done].
  - cbn [app percent_decode_bytes]. rewrite N.eqb_refl, hex_pair_upper by done. done.
Qed.

Lemma percent_decode_bytes_app bs rest :
  Forall (λ b, b < 256)%N bs →
  percent_decode_bytes (flat_map percent_byte bs ++ rest) = bs ++ percent_decode_bytes rest.
Proof.
  induction 1 as [|b bs Hb _ IH]; [done|]. cbn [flat_map app].
  rewrite <- app_assoc, percent_decode_byte by done. by rewrite IH.
Qed.

(** A [/] stands for itself. *)
Lemma percent_decode_slash rest :
  percent_decode_bytes (ch "/" :: rest) = ch "/" :: percent_decode_bytes rest.
Proof. cbn [percent_decode_bytes]. by destruct rest as [|x [|y rest]]. Qed.

Lemma percent_decode_join segments :
  Forall (Forall usv) segments →
  percent_decode_bytes (join (u "/") (map percent_encode segments)) = as_bytes (join (u "/") segments).
Proof.
  induction 1 as [|s segments Hs Hall IH]; [done|].
  destruct segments as [|s' segments].
  - cbn [map join]. unfold percent_encode. rewrite <- (app_nil_r (flat_map _ _)).
    rewrite percent_decode_bytes_app by (by apply as_bytes_byte). by rewrite app_nil_r.
  - cbn [map]. change (join (u "/") (percent_encode s :: ?x :: ?l))
      with (percent_encode s ++ ch "/" :: join (u "/") (x :: l)).
    change (join (u "/") (s :: s' :: segments)) with (s ++ [ch "/"] ++ join (u "/") (s' :: segments)).
    unfold percent_encode at 1. rewrite percent_decode_bytes_app by (by apply as_bytes_byte).
    rewrite percent_decode_slash, !as_bytes_app. f_equal. cbn [map] in IH. by rewrite IH.
Qed.

Lemma join_Forall (P : char → Prop) sep l :
  Forall P sep → Forall (Forall P) l → Forall P (join sep l).
Proof.
  intros Hsep. induction 1 as [|x l Hx Hl IH]; [constructor|]. destruct l as [|y l]; [done|].
  change (join sep (x :: y :: l)) with (x ++ sep ++ join sep (y :: l)).
  by repeat (apply Forall_app; split).
Qed.

Lemma last_join sep l s : l ≠ [] → s ≠ [] → last (join sep (l ++ [s])) = last s.
Proof.
  intros Hl Hs. induction l as [|x l IH]; [done|]. destruct l as [|y l].
  - change (join sep ([x] ++ [s])) with (x ++ sep ++ s). rewrite app_assoc, last_app.
    destruct (last s) eqn:E; [done|]. by apply last_None in E.
  - change (join sep ((x :: y :: l) ++ [s])) with (x ++ sep ++ join sep ((y :: l) ++ [s])).
    rewrite app_assoc, last_app, IH by done. destruct (last s) eqn:E; [done|]. by apply last_None in E.
Qed.

(** The path a client puts a file at. *)
Definition agent_file_url (harness : str) (segments : list str) : str :=
  AGENTS_PREFIX ++ percent_encode harness ++ u "/" ++ join (u "/") (map percent_encode segments).

Lemma url_segments segments :
  Forall (Forall usv) segments → Forall (Forall url_char) (map percent_encode segments).
Proof.
  intros Hs. apply Forall_map. eapply Forall_impl; [exact Hs|]. intros s. apply percent_encode_chars.
Qed.

Lemma url_segments_plain segments :
  Forall (Forall usv) segments →
  Forall (λ c, (c < 128)%N ∧ c ≠ ch "?") (join (u "/") (map percent_encode segments)).
Proof.
  intros Hs%url_segments. apply join_Forall; [by repeat constructor|].
  eapply Forall_impl; [exact Hs|]. intros s Hss. eapply Forall_impl; [exact Hss|].
  by intros c (?&?&?)%url_char_facts.
Qed.

Lemma split_segment_none c s : c ∉ s → split_char c s = [s].
Proof.
  induction s as [|x s IH]; [done|]. intros [Hx Hs]%not_elem_of_cons. cbn [split_char].
  rewrite (proj2 (N.eqb_neq _ _)) by done. by rewrite IH.
Qed.

Lemma agent_url_query harness segments :
  Forall usv harness → Forall (Forall usv) segments →
  split_char (ch "?") (agent_file_url harness segments) = [agent_file_url harness segments].
Proof.
  intros Hh Hs. apply split_segment_none. unfold agent_file_url.
  rewrite !not_elem_of_app. split_and!; [decide_closed| |decide_closed|].
  - apply percent_encode_not_in; [by right|done].
  - intros Hin. pose proof (url_segments_plain _ Hs) as Hp. rewrite Forall_forall in Hp.
    by apply Hp in Hin as [].
Qed.

(** The URL ends in no slash. *)
Lemma agent_url_last harness segments :
  Forall (Forall usv) segments → segments ≠ [] → Forall (λ s, s ≠ []) segments →
  ∃ c, last (agent_file_url harness segments) = Some c ∧ url_char c.
Proof.
  intros Hs Hne Hall. destruct (exists_last Hne) as (init & s & ->). unfold agent_file_url.
  apply Forall_app in Hall as [_ Hsne]. rewrite Forall_singleton in Hsne.
  assert (percent_encode s ≠ []) as Hsn by (intros ?%percent_encode_nil; by apply Hsne).
  apply Forall_app in Hs as [_ Hs]. rewrite Forall_singleton in Hs. apply percent_encode_chars in Hs.
  destruct (last (percent_encode s)) as [c|] eqn:E; [|by apply last_None in E].
  exists c. split.
  - rewrite map_app. cbn [map]. rewrite !app_assoc, last_app.
    destruct init as [|x init]; [by cbn [map app join]; rewrite E|]. by rewrite last_join, E.
  - rewrite Forall_forall in Hs. apply Hs. rewrite last_lookup in E. by eapply list_elem_of_lookup_2.
Qed.

Lemma split_once_char c a b : c ∉ a → split_once [c] (a ++ [c] ++ b) = Some (a, b).
Proof. intros Hc. apply (split_once_mark c [] []); [by apply not_elem_of_nil|done]. Qed.

(** A file a client mirrors arrives under the name it was sent with: for any
    harness and any path of non-empty components, of any characters, the desk
    routes the encoded URL to exactly that harness and that path. *)
Theorem agent_route_roundtrip harness segments :
  Forall usv harness → Forall (Forall usv) segments → harness ≠ [] → segments ≠ [] →
  Forall (λ s, s ≠ []) segments →
  parse_route (u "PUT") (agent_file_url harness segments) =
  AgentFile harness (join (u "/") segments).
Proof.
  intros Hh Hs Hhne Hsne Hall.
  destruct (agent_url_last harness segments Hs Hsne Hall) as (c & Hc & Hcu).
  apply url_char_facts in Hcu as (_ & Hslash & _).
  set (rest := join (u "/") (map percent_encode segments)).
  assert (rest ≠ []) as Hrest.
  { intros E. unfold agent_file_url in Hc. fold rest in Hc. rewrite E, app_nil_r, app_assoc in Hc.
    change (u "/") with [ch "/"] in Hc. rewrite last_snoc in Hc. by injection Hc as <-. }
  unfold parse_route. rewrite agent_url_query by done. cbn [head from_option id].
  rewrite trim_end_matches_id by (rewrite Hc; by apply N.eqb_neq).
  change (u "PUT" == u "POST") with false. change (u "PUT" == u "GET") with false.
  change (u "PUT" == u "PUT") with true. cbn [andb].
  rewrite (bool_decide_eq_false_2 (_ = u "/mcp")) by (unfold agent_file_url; by intros [=]).
  unfold agent_file_url. fold rest. rewrite starts_with_refl_app, drop_app_length.
  change (u "/") with [ch "/"] at 1 2. rewrite split_once_char.
  2:{ apply percent_encode_not_in; [by left|done]. }
  rewrite !bool_decide_eq_false_2; [|done|by intros ?%percent_encode_nil]. cbn [negb andb].
  unfold percent_decode. f_equal.
  - rewrite as_bytes_ascii by (by apply percent_encode_ascii).
    unfold percent_encode. rewrite <- (app_nil_r (flat_map _ _)).
    rewrite percent_decode_bytes_app by (by apply as_bytes_byte). cbn [percent_decode_bytes].
    rewrite app_nil_r. by apply from_utf8_lossy_as_bytes.
  - rewrite as_bytes_ascii.
    2:{ eapply Forall_impl; [apply url_segments_plain; exact Hs|]. by intros ? []. }
    subst rest. rewrite percent_decode_join by done. apply from_utf8_lossy_as_bytes.
    by apply join_Forall; [repeat constructor|].
Qed.

(** ** The head of a request *)

Lemma read_line_Ok limit s bytes s' :
  read_line limit s = Ok (bytes, s') →
  arriving s = bytes ++ arriving s' ∧ broken s' = broken s ∧ length bytes ≤ limit.
Proof.
  unfold read_line. destruct (find_sub _ _) as [i|] eqn:E.
  - intros [= <- <-]. apply find_sub_Some in E as (_ & Hi & _ & _). simpl in Hi.
    rewrite length_take in Hi. cbn [arriving broken]. rewrite take_take.
    replace (S i `min` limit) with (S i) by lia. split_and!; [by rewrite take_drop|done|].
    rewrite length_take; lia.
  - destruct (Nat.leb_spec limit (length (arriving s))).
    + intros [= <- <-]. cbn [arriving broken].
      split_and!; [by rewrite take_drop|done|rewrite length_take; lia].
    + destruct (broken s); [done|]. intros [= <- <-]. cbn [arriving broken].
      split_and!; [by rewrite app_nil_r, take_ge by lia|done|rewrite length_take; lia].
Qed.

Lemma read_line_Err limit s e :
  read_line limit s = Err e → ∃ fault, broken s = Some fault ∧ e = read_error fault.
Proof.
  unfold read_line. repeat case_match; try done. intros [= <-]. eauto.
Qed.

(** Why a head is refused: the stream broke off, it is malformed, or it is over
    the cap. *)
Definition refused_because (s : Stream) (consumed : nat) (e : N) : Prop :=
  e = 400%N ∨ (e = 408%N ∧ broken s = Some TimedOut) ∨
  (e = 431%N ∧ MAX_HEAD_BYTES < consumed + length (arriving s)).

(** What reading has taken from [s] to leave [s']. *)
Definition taken (s s' : Stream) (n : nat) : Prop :=
  ∃ bytes, arriving s = bytes ++ arriving s' ∧ length bytes = n ∧ broken s' = broken s.

Lemma read_head_line_spec consumed s :
  match read_head_line consumed s with
  | Ok (line, consumed', s') =>
      consumed ≤ consumed' ≤ MAX_HEAD_BYTES ∧ taken s s' (consumed' - consumed)
  | Err e => refused_because s consumed e
  end.
Proof.
  unfold read_head_line. destruct (read_line _ s) as [[bytes s']|e] eqn:E; cbn [result_bind].
  - apply read_line_Ok in E as (Hs & Hb & Hl). destruct (from_utf8 bytes) as [line|]; [|by left].
    destruct (_ || _) eqn:Ec.
    + right; right. split; [done|]. rewrite Hs, length_app.
      apply orb_true_iff in Ec as [Ec|Ec]; bool_to_prop; lia.
    + bool_to_prop. split; [lia|]. exists bytes. split_and!; [done|lia|done].
  - apply read_line_Err in E as (fault & Hb & ->). destruct fault; [right; by left|by left].
Qed.

Lemma taken_trans s1 s2 s3 n m : taken s1 s2 n → taken s2 s3 m → taken s1 s3 (n + m).
Proof.
  intros (b & Hb & Hn & Hr) (b' & Hb' & Hm & Hr'). exists (b ++ b'). rewrite <- app_assoc, <- Hb'.
  split_and!; [done|len_lia|congruence].
Qed.

Lemma taken_shorter s s' n : taken s s' n → length (arriving s) = n + length (arriving s').
Proof. intros (b & -> & <- & _). apply length_app. Qed.

Lemma refused_later s s' n consumed e :
  taken s s' n → refused_because s' (consumed + n) e → refused_because s consumed e.
Proof.
  intros Ht [->|[[-> Hb]|[-> Hl]]]; [by left| |].
  - right; left. split; [done|]. by destruct Ht as (_ & _ & _ & <-).
  - right; right. split; [done|]. rewrite (taken_shorter _ _ _ Ht). lia.
Qed.

(** Fuel for a turn per byte is enough. *)
Lemma read_headers_total fuel consumed s headers n :
  length (arriving s) < fuel → consumed ≤ MAX_HEAD_BYTES →
  match read_headers fuel consumed s headers n with
  | None => False
  | Some (Err e) => refused_because s consumed e
  | Some (Ok (_, _, s')) => ∃ k, taken s s' k ∧ consumed + k ≤ MAX_HEAD_BYTES
  end.
Proof.
  revert consumed s headers n. induction fuel as [|fuel IH]; intros consumed s headers n Hf Hc; [lia|].
  cbn [read_headers]. pose proof (read_head_line_spec consumed s) as Hline.
  destruct (read_head_line consumed s) as [[[line consumed'] s']|e]; [|done].
  destruct Hline as [Hc' Ht]. destruct (Nat.eqb_spec consumed' consumed); [by left|].
  pose proof (taken_shorter _ _ _ Ht) as Hlen.
  destruct (bool_decide _); [exists (consumed' - consumed); split; [done|lia]|].
  destruct (split_once _ _) as [[name value]|]; [|by left].
  assert (∀ headers n, match read_headers fuel consumed' s' headers n with
    | None => False
    | Some (Err e) => refused_because s consumed e
    | Some (Ok (_, _, s'')) => ∃ k, taken s s'' k ∧ consumed + k ≤ MAX_HEAD_BYTES
    end) as Hrec.
  { intros headers' n'. specialize (IH consumed' s' headers' n' ltac:(lia) ltac:(lia)).
    destruct (read_headers fuel _ _ _ _) as [[[[? ?] s'']|e]|]; [| |done].
    - destruct IH as (k & Hk & Hle). exists (consumed' - consumed + k).
      split; [by eapply taken_trans|lia].
    - eapply refused_later; [done|]. by replace (consumed + (consumed' - consumed)) with consumed' by lia. }
  destruct (eq_ignore_ascii_case _ _); [|apply Hrec].
  destruct (parse_unsigned _ _); [apply Hrec|by left].
Qed.

(** Reading a request always comes to an end: whatever bytes a peer sends
    and however its stream breaks off, the desk has a head or a status to answer
    with. It takes at most 16 KiB for a head, answers 408 only when the stream
    timed out and 431 only when there was more than the cap. *)
Theorem read_request_head_total s :
  match read_request_head s with
  | None => False
  | Some (Ok (_, s')) => ∃ k, taken s s' k ∧ k ≤ MAX_HEAD_BYTES
  | Some (Err e) => refused_because s 0 e
  end.
Proof.
  unfold read_request_head. pose proof (read_head_line_spec 0 s) as Hline.
  destruct (read_head_line 0 s) as [[[line consumed] s']|e]; [|done]. destruct Hline as [Hc Ht].
  destruct (consumed =? 0)%nat; [by left|].
  destruct (split_whitespace line) as [|method [|target words]]; [by left|by left|].
  pose proof (read_headers_total (S (length (arriving s'))) consumed s' [] 0 ltac:(lia) ltac:(lia)) as Hh.
  destruct (read_headers _ _ _ _ _) as [[[[headers n] s'']|e]|]; [| |done].
  - destruct Hh as (k & Hk & Hle). exists (consumed - 0 + k). split; [by eapply taken_trans|lia].
  - eapply refused_later; [done|]. by replace (0 + (consumed - 0)) with consumed by lia.
Qed.

(** ** A request, written and read *)

Lemma as_bytes_small c s : (c < 128)%N → c ∈ as_bytes s → c ∈ s.
Proof.
  intros Hc. induction s as [|x s IH]; [by intros ?%not_elem_of_nil|]. cbn [as_bytes flat_map].
  rewrite elem_of_app. intros [Hx|Hs]; [|right; by apply IH].
  enough (c = x) as -> by left. clear IH. unfold utf8_char in Hx.
  assert (∀ k d, c = k + d → 128 <= k → c = x)%N as Hno by lia.
  repeat case_match; repeat (apply elem_of_cons in Hx as [Hx|Hx]); try done;
    try (by apply not_elem_of_nil in Hx); by apply Hno in Hx.
Qed.

(** A line that fits is read whole. *)
Lemma read_head_line_line consumed line rest br :
  LF ∉ line → Forall usv line →
  consumed + length (as_bytes line) + 2 ≤ MAX_HEAD_BYTES →
  read_head_line consumed (mkStream (as_bytes (line ++ CRLF) ++ rest) br) =
  Ok (line ++ CRLF, consumed + length (as_bytes line) + 2, mkStream rest br).
Proof.
  intros Hlf Hu Hlen. unfold read_head_line. set (remaining := MAX_HEAD_BYTES - consumed + 1).
  assert (LF ∉ as_bytes line) as Hlf' by (intros Hin; by apply as_bytes_small in Hin).
  assert (as_bytes (line ++ CRLF) = as_bytes line ++ [CR] ++ [LF]) as Hb by apply as_bytes_app.
  assert (read_line remaining (mkStream (as_bytes (line ++ CRLF) ++ rest) br) =
    Ok (as_bytes (line ++ CRLF), mkStream rest br)) as ->.
  { unfold read_line. cbn [arriving broken].
    assert (length (as_bytes (line ++ CRLF)) = S (S (length (as_bytes line)))) as Hl
      by (rewrite Hb; len_lia).
    rewrite take_app_ge by lia.
    rewrite Hb at 1. rewrite <- !app_assoc, (app_assoc _ [CR]). cbn [app].
    rewrite find_char_app.
    2:{ rewrite not_elem_of_app. split; [done|]. by decide_closed. }
    rewrite length_app. cbn [length]. replace (S (length (as_bytes line) + 1)) with
      (length (as_bytes (line ++ CRLF))) by lia.
    by rewrite take_app_length, drop_app_length. }
  cbn [result_bind]. rewrite from_utf8_as_bytes.
  2:{ apply Forall_app. split; [done|]. by repeat constructor. }
  rewrite Hb, !length_app. cbn [length].
  replace (consumed + (length (as_bytes line) + (1 + 1))) with (consumed + length (as_bytes line) + 2) by lia.
  rewrite (proj2 (Nat.ltb_ge _ _)) by lia. rewrite (proj2 (Nat.eqb_neq _ _)) by (subst remaining; lia).
  done.
Qed.

Lemma split_whitespace_word w r :
  w ≠ [] → Forall (λ c, is_whitespace c = false) w →
  split_whitespace (w ++ 32%N :: r) = w :: split_whitespace r.
Proof.
  intros Hne Hw. induction Hw as [|c w Hc Hw IH]; [done|].
  destruct w as [|d w]; [cbn [app split_whitespace]; by rewrite Hc|].
  specialize (IH ltac:(done)). apply Forall_cons in Hw as [Hd _].
  cbn [app] in *. cbn [split_whitespace]. rewrite Hc, Hd.
  change (split_whitespace (d :: w ++ 32%N :: r)) with (split_whitespace (d :: (w ++ 32%N :: r))) in IH.
  cbn [split_whitespace] in IH. rewrite Hd in IH. by rewrite IH.
Qed.

Definition is_content_length (h : str * str) : bool :=
  eq_ignore_ascii_case h.1 (u "content-length").

(** A header that survives the trip: no colon in its name, one line, no space at
    the ends of its parts, and a number for a length. *)
Record header_ok (h : str * str) : Prop := {
  header_colon : ch ":" ∉ h.1;
  header_one_line : LF ∉ h.1 ++ h.2;
  header_name_trim : trim h.1 = h.1;
  header_value_trim : trim h.2 = h.2;
  header_usv : Forall usv (h.1 ++ h.2);
  header_number : is_content_length h = true → is_Some (parse_unsigned USIZE_MAX h.2);
}.

Lemma trim_last s c : trim s = s → last s = Some c → is_whitespace c = false.
Proof. intros Ht Hl. rewrite <- Ht in Hl. by eapply trim_end_matches_last. Qed.

Lemma header_line_end h :
  header_ok h → trim_end_matches is_line_end (header_line h) = h.1 ++ [ch ":"] ++ 32%N :: h.2.
Proof.
  intros Hh. unfold header_line. rewrite !app_assoc, trim_end_matches_app_all by (by repeat constructor).
  change (u ": ") with ([ch ":"] ++ [32%N]). rewrite <- !app_assoc. cbn [app].
  apply trim_end_matches_id. rewrite last_app. cbn [last].
  destruct (h.2) as [|c s] eqn:E; [done|].
  destruct (last (c :: s)) as [x|] eqn:El; [|by apply last_None in El].
  pose proof (trim_last h.2 x (header_value_trim h Hh)) as Hx. rewrite E in Hx. specialize (Hx El).
  change (last (32%N :: c :: s)) with (last (c :: s)). rewrite El.
  unfold is_line_end. apply orb_false_iff. split; apply N.eqb_neq; intros ->; by vm_compute in Hx.
Qed.

Lemma trim_space s : trim (32%N :: s) = trim s.
Proof. done. Qed.

Definition length_after (n : N) (h : str * str) : N :=
  if is_content_length h then default n (parse_unsigned USIZE_MAX h.2) else n.

Lemma read_headers_step fuel consumed rest br h headers n :
  header_ok h → consumed + length (as_bytes (header_line h)) ≤ MAX_HEAD_BYTES →
  read_headers (S fuel) consumed (mkStream (as_bytes (header_line h) ++ rest) br) headers n =
  read_headers fuel (consumed + length (as_bytes (header_line h))) (mkStream rest br)
    (headers ++ [h]) (length_after n h).
Proof.
  intros Hh Hlen. cbn [read_headers].
  assert (header_line h = (h.1 ++ u ": " ++ h.2) ++ CRLF) as Hline
    by (unfold header_line; by rewrite <- !app_assoc).
  assert (length (as_bytes (header_line h)) = length (as_bytes (h.1 ++ u ": " ++ h.2)) + 2) as Hl
    by (rewrite Hline, as_bytes_app, length_app; done).
  rewrite Hline at 1. rewrite read_head_line_line; [| | |lia].
  2:{ pose proof (header_one_line h Hh). rewrite !not_elem_of_app in *. split_and!; [tauto|decide_closed|tauto]. }
  2:{ pose proof (header_usv h Hh) as Hu. rewrite !Forall_app in *. split_and!; [tauto|by repeat constructor|tauto]. }
  rewrite (proj2 (Nat.eqb_neq _ _)) by lia. rewrite <- Hline, header_line_end by done.
  rewrite bool_decide_eq_false_2 by (by destruct (h.1)).
  change (u ":") with [ch ":"]. rewrite split_once_char by apply header_colon, Hh.
  rewrite header_name_trim, trim_space, header_value_trim by done.
  replace (consumed + length (as_bytes (h.1 ++ u ": " ++ h.2)) + 2)
    with (consumed + length (as_bytes (header_line h))) by lia.
  replace (h.1, h.2) with h by (by destruct h). unfold length_after, is_content_length.
  destruct (eq_ignore_ascii_case _ _) eqn:E; [|done].
  destruct (header_number h Hh E) as [k ->]. done.
Qed.

(** The headers, the blank line, and nothing of the body. *)
Lemma read_headers_lines hs fuel consumed rest br headers n :
  Forall header_ok hs → length hs < fuel →
  consumed + length (as_bytes (flat_map header_line hs)) + 2 ≤ MAX_HEAD_BYTES →
  read_headers fuel consumed (mkStream (as_bytes (flat_map header_line hs ++ CRLF) ++ rest) br) headers n =
  Some (Ok (headers ++ hs, fold_left length_after hs n, mkStream rest br)).
Proof.
  intros Hhs. revert fuel consumed headers n.
  induction Hhs as [|h hs Hh _ IH]; intros fuel consumed headers n Hf Hlen;
    (destruct fuel as [|fuel]; [simpl in Hf; lia|]).
  - cbn [flat_map app read_headers]. change (as_bytes CRLF) with (as_bytes ([] ++ CRLF)).
    rewrite read_head_line_line; [|by apply not_elem_of_nil|constructor|simpl in *; lia].
    rewrite (proj2 (Nat.eqb_neq _ _)) by (simpl; lia). cbn. by rewrite app_nil_r.
  - cbn [flat_map] in *. rewrite as_bytes_app, length_app in Hlen.
    rewrite <- app_assoc, as_bytes_app, <- app_assoc. rewrite read_headers_step by (done || lia).
    rewrite IH; [|simpl in Hf; lia|lia]. by rewrite <- app_assoc.
Qed.

Record request_ok (r : HttpRequest) (host target : str) : Prop := {
  method_word : request_method r ≠ [] ∧ Forall (λ c, is_whitespace c = false ∧ usv c) (request_method r);
  target_word : target ≠ [] ∧ Forall (λ c, is_whitespace c = false ∧ usv c) target;
  host_word : Forall (λ c, is_whitespace c = false ∧ usv c) host;
  headers_ok : Forall header_ok (request_headers r);
  body_fits : (N.of_nat (length (request_body r)) <= USIZE_MAX)%N;
}.

(** The headers of [request_head_text], in order. *)
Definition request_header_list (r : HttpRequest) (host : str) (port : N) : header_list :=
  (u "Host", host ++ u ":" ++ show_N port) :: (u "Connection", u "close")
  :: filter (λ h, sent_header h = true) (request_headers r)
  ++ [(u "Content-Length", show_N (N.of_nat (length (request_body r))))].

Lemma show_N_chars n : Forall (λ c, is_whitespace c = false ∧ usv c) (show_N n).
Proof.
  destruct (show_N_spec n) as (Hd & _). apply forallb_Forall in Hd.
  eapply Forall_impl; [exact Hd|]. intros c Hc. unfold is_ascii_digit in Hc. bool_to_prop.
  split; [|left; lia]. unfold is_whitespace.
  repeat (apply orb_false_iff; split); try apply andb_false_iff;
    try apply N.eqb_neq; rewrite ?N.leb_gt; lia.
Qed.

Lemma word_ok s : Forall (λ c, is_whitespace c = false ∧ usv c) s → trim s = s ∧ LF ∉ s ∧ Forall usv s.
Proof.
  intros Hs. split_and!.
  - apply trim_no_space. eapply Forall_impl; [exact Hs|]. by intros c [].
  - intros Hin. rewrite Forall_forall in Hs. by apply Hs in Hin as [].
  - eapply Forall_impl; [exact Hs|]. by intros c [].
Qed.

Lemma parse_unsigned_show max n : (n <= max)%N → parse_unsigned max (show_N n) = Some n.
Proof.
  intros Hn. destruct (show_N_spec n) as (Hd & Hv & Hne & _). unfold parse_unsigned.
  assert (strip_prefix (u "+") (show_N n) = None) as ->.
  { apply strip_prefix_None. destruct (show_N n) as [|c s]; [done|]. cbn [forallb] in Hd.
    apply andb_true_iff in Hd as [Hc _]. unfold is_ascii_digit in Hc. bool_to_prop.
    cbn [u starts_with]. rewrite (proj2 (N.eqb_neq _ _)); [done|]. vm_compute (Ascii.N_of_ascii _). lia. }
  cbn [from_option]. rewrite parse_digits_spec, Hv by done. cbn [mbind option_bind].
  by rewrite (proj2 (N.leb_le _ _)).
Qed.

Lemma request_headers_ok r host target port :
  request_ok r host target → Forall header_ok (request_header_list r host port).
Proof.
  intros [_ _ Hhost Hhs Hbody]. unfold request_header_list.
  rewrite !Forall_cons, Forall_app, Forall_singleton. split_and!.
  - assert (Forall (λ c, is_whitespace c = false ∧ usv c) (host ++ u ":" ++ show_N port)) as Hw.
    { rewrite !Forall_app. split_and!; [done| |apply show_N_chars]. repeat constructor. }
    apply word_ok in Hw as (Ht & Hl & Hu).
    split; cbn [fst snd]; [decide_closed| |done|done| |done].
    + rewrite not_elem_of_app. split; [decide_closed|done].
    + apply Forall_app. split; [by repeat constructor|done].
  - split; cbn [fst snd]; [decide_closed|decide_closed|done|done|by repeat constructor|done].
  - apply Forall_forall. intros h [_ Hh]%list_elem_of_filter. rewrite Forall_forall in Hhs. by apply Hhs.
  - destruct (word_ok _ (show_N_chars (N.of_nat (length (request_body r))))) as (Ht & Hl & Hu).
    split; cbn [fst snd]; [decide_closed| |done|done| |].
    + rewrite not_elem_of_app. split; [decide_closed|done].
    + apply Forall_app. split; [by repeat constructor|done].
    + intros _. rewrite parse_unsigned_show by done. by eexists.
Qed.

Lemma request_head_lines r host port target :
  request_head_text r host port target =
  (request_method r ++ u " " ++ target ++ u " HTTP/1.0") ++ CRLF
  ++ flat_map header_line (request_header_list r host port) ++ CRLF.
Proof.
  unfold request_head_text, request_header_list. cbn [flat_map]. rewrite flat_map_app.
  assert (∀ v, header_line (u "Host", v) = u "Host: " ++ v ++ CRLF) as -> by done.
  assert (header_line (u "Connection", u "close") = u "Connection: close" ++ CRLF) as -> by done.
  assert (∀ v, flat_map header_line [(u "Content-Length", v)] = u "Content-Length: " ++ v ++ CRLF) as ->
    by (intros; cbn [flat_map]; by rewrite app_nil_r).
  by rewrite <- !app_assoc.
Qed.

Lemma content_length_read r host port :
  (N.of_nat (length (request_body r)) <= USIZE_MAX)%N →
  fold_left length_after (request_header_list r host port) 0%N = N.of_nat (length (request_body r)).
Proof.
  intros Hb. unfold request_header_list. cbn [fold_left]. rewrite fold_left_app. cbn [fold_left].
  unfold length_after at 1. cbn [fst snd is_content_length].
  by rewrite parse_unsigned_show.
Qed.

(** What the client writes is what the desk reads. For any request whose
    parts keep to one word or one line and whose head is within the cap, the
    desk gets the same method, target, headers and body, and the length it reads
    the body by is the body's. *)
Theorem request_roundtrip r host port target br :
  request_ok r host target →
  length (as_bytes (request_head_text r host port target)) ≤ MAX_HEAD_BYTES →
  let n := N.of_nat (length (request_body r)) in
  read_request_head (mkStream (request_bytes r host port target) br) =
    Some (Ok (mkRequestHead (request_method r) target (request_header_list r host port) n,
              mkStream (request_body r) br)) ∧
  read_body (mkStream (request_body r) br) n = Ok (request_body r, mkStream [] br).
Proof.
  intros Hok Hcap n. split.
  2:{ unfold read_body. cbn [arriving broken]. rewrite (proj2 (N.leb_le _ _)) by done.
      subst n. rewrite Nat2N.id, take_ge, drop_ge by done. done. }
  pose proof (request_headers_ok r host target port Hok) as Hhs.
  destruct Hok as [[Hm Hmw] [Ht Htw] _ _ Hb].
  destruct (word_ok _ Hmw) as (_ & Hml & Hmu). destruct (word_ok _ Htw) as (_ & Htl & Htu).
  unfold request_bytes. rewrite request_head_lines in *.
  set (line := request_method r ++ u " " ++ target ++ u " HTTP/1.0") in *.
  set (hs := request_header_list r host port) in *.
  rewrite app_assoc, as_bytes_app, <- app_assoc. rewrite !as_bytes_app, !length_app in Hcap.
  change (length (as_bytes CRLF)) with 2 in Hcap. unfold read_request_head. rewrite read_head_line_line.
  - rewrite (proj2 (Nat.eqb_neq _ _)) by lia.
    assert (split_whitespace (line ++ CRLF) = [request_method r; target; u "HTTP/1.0"]) as ->.
    { subst line. rewrite <- !app_assoc. change (u " " ++ ?x) with (32%N :: x).
      rewrite split_whitespace_word; [|done|eapply Forall_impl; [exact Hmw|by intros c []]].
      f_equal. change (u " HTTP/1.0" ++ CRLF) with (32%N :: (u "HTTP/1.0" ++ CRLF)).
      rewrite split_whitespace_word; [done|done|eapply Forall_impl; [exact Htw|by intros c []]]. }
    rewrite read_headers_lines; [|done| |lia].
    + subst hs. by rewrite content_length_read.
    + cbn [arriving]. rewrite as_bytes_app, !length_app. clear -hs.
      enough (length hs ≤ length (as_bytes (flat_map header_line hs))) by lia.
      generalize hs. intros l. induction l as [|h l IH]; [done|]. cbn [flat_map length].
      rewrite as_bytes_app, length_app. unfold header_line at 1. rewrite !as_bytes_app, !length_app.
      change (length (as_bytes CRLF)) with 2. lia.
  - subst line. rewrite !not_elem_of_app. split_and!; [done|decide_closed|done|decide_closed].
  - subst line. rewrite !Forall_app. split_and!; [done|by repeat constructor|done|by repeat constructor].
  - lia.
Qed.

(** ** A response, written and read *)

Lemma find_bytes_skip (c : N) q l s :
  c ∉ l → find_sub (c :: q) (l ++ s) = (λ i, length l + i) <$> find_sub (c :: q) s.
Proof.
  induction l as [|x l IH]; intros Hc; [cbn [app]; by destruct (find_sub (c :: q) s)|].
  apply not_elem_of_cons in Hc as [Hx Hc]. cbn [app find_sub starts_with].
  rewrite (proj2 (N.eqb_neq _ _)) by done. cbn [andb]. rewrite IH by done.
  by destruct (find_sub (c :: q) s).
Qed.

(** A line of a head: not empty, without [\r] or [\n]. *)
Definition head_line (l : str) : Prop := l ≠ [] ∧ CR ∉ l ∧ LF ∉ l.

Lemma find_blank lines rest :
  lines ≠ [] → Forall head_line lines →
  find_sub (CRLF ++ CRLF) (join CRLF lines ++ (CRLF ++ CRLF) ++ rest) = Some (length (join CRLF lines)).
Proof.
  intros Hne Hls. induction Hls as [|l lines (Hl & Hcr & Hlf) Hls IH]; [done|].
  change (CRLF ++ CRLF) with (CR :: [LF; CR; LF]) in *. destruct lines as [|l' lines].
  - cbn [join]. rewrite find_bytes_skip by done. cbn. f_equal. lia.
  - specialize (IH ltac:(done)).
    change (join CRLF (l :: l' :: lines)) with (l ++ CR :: LF :: join CRLF (l' :: lines)).
    rewrite <- app_assoc, find_bytes_skip by done. cbn [app].
    assert (∀ s, find_sub [CR; LF; CR; LF] (CR :: LF :: s) =
      if starts_with [CR; LF] s then Some 0 else (λ i, S (S i)) <$> find_sub [CR; LF; CR; LF] s) as ->.
    { intros s. cbn [find_sub]. change (starts_with [CR; LF; CR; LF] (CR :: LF :: s)) with (starts_with [CR; LF] s).
      destruct (starts_with [CR; LF] s); [done|]. cbn [starts_with].
      change (CR =? LF)%N with false. cbn [andb]. by destruct (find_sub [CR; LF; CR; LF] s). }
    assert (∀ s, starts_with [CR; LF] (join CRLF (l' :: lines) ++ s) = false) as ->.
    { intros s. inversion_clear Hls as [|? ? (Hl' & Hcr' & _) _]. destruct l' as [|x l']; [done|].
      apply not_elem_of_cons in Hcr' as [Hx _]. destruct lines; cbn [join app starts_with];
        by rewrite (proj2 (N.eqb_neq _ _)). }
    cbn [app] in IH. rewrite IH. cbn. f_equal. rewrite length_app. simpl. lia.
Qed.

Lemma join_crlf_snoc init z :
  join CRLF (init ++ [z]) = flat_map (λ l, (l ++ [CR]) ++ [LF]) init ++ z.
Proof.
  induction init as [|l init IH]; [done|]. destruct init as [|l' init].
  - cbn [app flat_map join]. by rewrite <- !app_assoc.
  - change (join CRLF ((l :: l' :: init) ++ [z])) with (l ++ CRLF ++ join CRLF ((l' :: init) ++ [z])).
    rewrite IH. cbn [flat_map]. by rewrite <- !app_assoc.
Qed.

Lemma split_crlf init z :
  Forall head_line (init ++ [z]) →
  split_char LF (join CRLF (init ++ [z])) = map (λ l, l ++ [CR]) init ++ [z].
Proof.
  rewrite join_crlf_snoc. induction init as [|l init IH]; intros Hls.
  - cbn [flat_map app map]. apply Forall_cons in Hls as [(_ & _ & Hz) _]. by apply split_segment_none.
  - cbn [app flat_map] in *. apply Forall_cons in Hls as [(_ & _ & Hlf) Hls].
    rewrite <- !app_assoc. rewrite app_assoc. cbn [app]. rewrite split_char_line.
    + cbn [map app]. f_equal. by apply IH.
    + rewrite not_elem_of_app. split; [done|decide_closed].
Qed.

Lemma str_lines_crlf lines :
  lines ≠ [] → Forall head_line lines → str_lines (join CRLF lines) = lines.
Proof.
  intros Hne Hls. destruct (exists_last Hne) as (init & z & ->). unfold str_lines.
  change 10%N with LF. rewrite split_crlf by done. rewrite last_snoc, length_app, length_map. cbn [length].
  apply Forall_app in Hls as [Hi Hz]. rewrite Forall_singleton in Hz. destruct Hz as (Hz & _).
  destruct z as [|x z]; [done|].
  replace (length init + 1 - 1) with (length init) by lia.
  rewrite imap_app, length_map. f_equal.
  - clear Hne. apply list_eq. intros i. rewrite list_lookup_imap, list_lookup_fmap.
    destruct (init !! i) as [l|] eqn:E; [|done]. cbn [fmap option_fmap option_map].
    rewrite (proj2 (Nat.ltb_lt _ _)) by (by eapply lookup_lt_Some).
    change [13%N] with [CR]. by rewrite strip_suffix_app.
  - cbn [imap]. rewrite Nat.add_0_r, (proj2 (Nat.ltb_ge _ _)) by done. done.
Qed.

Lemma as_bytes_join sep lines : as_bytes (join sep lines) = join (as_bytes sep) (map as_bytes lines).
Proof.
  induction lines as [|l lines IH]; [done|]. destruct lines as [|l' lines]; [done|].
  change (join sep (l :: l' :: lines)) with (l ++ sep ++ join sep (l' :: lines)).
  rewrite !as_bytes_app, IH. done.
Qed.

Lemma head_line_bytes lines : Forall head_line lines → Forall head_line (map as_bytes lines).
Proof.
  intros Hls. apply Forall_map. eapply Forall_impl; [exact Hls|]. intros l (Hl & Hcr & Hlf). split_and!.
  - destruct l as [|c l]; [done|]. cbn [as_bytes flat_map]. intros [E _]%app_nil.
    by apply utf8_char_nonempty in E.
  - intros Hin. by apply as_bytes_small in Hin.
  - intros Hin. by apply as_bytes_small in Hin.
Qed.

Definition response_lines (status : N) (content_type : str) (n : nat) : list str :=
  [u "HTTP/1.1 " ++ show_N status ++ u " " ++ reason status; u "Content-Type: " ++ content_type;
   u "Content-Length: " ++ show_N (N.of_nat n); u "Connection: close"].

Lemma show_N_head_line n : CR ∉ show_N n ∧ LF ∉ show_N n ∧ Forall usv (show_N n).
Proof.
  pose proof (show_N_chars n) as Hn. destruct (word_ok _ Hn) as (_ & Hl & Hu). split_and!; try done.
  intros Hin. rewrite Forall_forall in Hn. by apply Hn in Hin as [].
Qed.

Lemma response_lines_ok status content_type n :
  CR ∉ content_type → LF ∉ content_type → Forall usv content_type →
  Forall head_line (response_lines status content_type n) ∧
  Forall (Forall usv) (response_lines status content_type n).
Proof.
  intros Hcr Hlf Hu. destruct (show_N_head_line status) as (? & ? & ?).
  destruct (show_N_head_line (N.of_nat n)) as (? & ? & ?).
  assert (CR ∉ reason status ∧ LF ∉ reason status ∧ Forall usv (reason status)) as (? & ? & ?).
  { unfold reason. repeat case_match; split_and!; decide_closed. }
  unfold response_lines, head_line. rewrite !Forall_cons, !Forall_app, !not_elem_of_app.
  split_and!; try done; try decide_closed; by apply Forall_nil_2.
Qed.

(** What the desk answers is what the client reads: the status and every
    byte of the body, whatever the body holds. *)
Theorem response_roundtrip status content_type body :
  (status <= U16_MAX)%N → CR ∉ content_type → LF ∉ content_type → Forall usv content_type →
  parse_response (write_response status content_type body) = Some (Ok (mkHttpResponse status body)).
Proof.
  intros Hs Hcr Hlf Hu. set (lines := response_lines status content_type (length body)).
  destruct (response_lines_ok status content_type (length body) Hcr Hlf Hu) as [Hls Hlu].
  fold lines in Hls, Hlu.
  assert (response_head status content_type (length body) = join CRLF lines ++ CRLF ++ CRLF) as Hhead.
  { subst lines. unfold response_head, response_lines. cbn [join]. by rewrite <- !app_assoc. }
  assert (Forall usv (join CRLF lines)) as Hju by (apply join_Forall; [by repeat constructor|done]).
  unfold parse_response, write_response. rewrite Hhead, as_bytes_app, <- app_assoc.
  change (as_bytes (CRLF ++ CRLF)) with (CRLF ++ CRLF).
  rewrite as_bytes_join. change (as_bytes CRLF) with CRLF.
  rewrite find_blank by (done || by apply head_line_bytes).
  rewrite take_app_length, app_assoc, drop_app_length' by (rewrite length_app; done).
  change CRLF with (as_bytes CRLF) at 1 2. rewrite <- as_bytes_join.
  rewrite from_utf8_lossy_as_bytes, str_lines_crlf by done.
  assert (existsb is_chunked_line lines = false) as -> by done.
  subst lines. cbn [response_lines head mbind option_bind].
  change (u "HTTP/1.1 " ++ ?x) with (u "HTTP/1.1" ++ 32%N :: x).
  rewrite split_whitespace_word by (done || by repeat constructor).
  change (u " " ++ ?x) with (32%N :: x). rewrite split_whitespace_word.
  - cbn [lookup list_lookup mbind option_bind]. by rewrite parse_unsigned_show.
  - apply show_N_spec.
  - eapply Forall_impl; [apply show_N_chars|]. by intros c [].
Qed.

(** ** Chunked answers *)

(** Every turn moves on by more than two bytes, so the length is fuel enough. *)
Lemma dechunk_loop_fuel fuel fuel' body index out :
  length body - index < fuel → length body - index < fuel' →
  dechunk_loop fuel body index out = dechunk_loop fuel' body index out.
Proof.
  revert fuel' index out. induction fuel as [|fuel IH]; intros [|fuel'] index out Hf Hf'; try lia.
  cbn [dechunk_loop]. destruct (Nat.leb_spec (length body) index); [done|].
  destruct (find_sub CRLF _) as [line_end|]; [|done].
  set (size := chunk_size _). destruct (N.eqb_spec size 0); [done|].
  destruct (USIZE_MAX <? _)%N; [done|]. apply IH; lia.
Qed.

Lemma dechunk_fuel fuel body : length body < fuel → dechunk_loop fuel body 0 [] = dechunk body.
Proof. intros Hf. apply dechunk_loop_fuel; lia. Qed.
