(* ===== verification/AgentMirror.v ===== *)
(** * Mirroring an agent's memory folder ([thock-bridge/mirror.rs], the mirror
    pass of [thock-bridge/main.rs])

    Which of a harness's own files go up to the desk, and the record of what
    went and what the desk refused. *)

From stdpp Require Import gmap.
From S2P Require Import Prelude Strings Utf8 External Ordering Rules Http.

Definition MIRROR_MAX_BYTES : N := 1024 * 1024.
Definition MIRRORED_EXTENSIONS : list str := [u "md"; u "txt"; u "json"].

Record MirrorFile := mkMirrorFile {
  mirror_relative : str;
  mirror_modified : N;
  mirror_size : N;
}.

#[export] Instance MirrorFile_eq_dec : EqDecision MirrorFile.
Proof. solve_decision. Defined.

Record RefusedFile := mkRefusedFile {
  refused_modified : N;
  refused_size : N;
  refused_reason : str;
}.

Record MirrorState := mkMirrorState {
  uploaded : gmap str N;
  refused_files : gmap str RefusedFile;
}.

Definition MirrorState_default : MirrorState := mkMirrorState ∅ ∅.

(** [MirrorState::record] *)
Definition record (relative : str) (modified : N) (s : MirrorState) : MirrorState :=
  mkMirrorState (<[relative := modified]> (uploaded s)) (delete relative (refused_files s)).

Definition record_refusal (relative : str) (modified size : N) (reason : str) (s : MirrorState)
  : MirrorState :=
  mkMirrorState (uploaded s)
    (<[relative := mkRefusedFile modified size reason]> (refused_files s)).

Definition is_refused (relative : str) (modified size : N) (s : MirrorState) : bool :=
  is_some_and (λ r, (refused_modified r =? modified)%N && (refused_size r =? size)%N)
    (refused_files s !! relative).

(** [rsplit('.').next()]: what follows the last dot, or all of it. *)
Definition extension_of (relative : str) : str :=
  default relative (snd <$> rsplit_once (u ".") relative).

Definition is_mirrored_path (relative : str) : bool :=
  match validate_vault_path relative with Ok _ => true | Err _ => false end
  && existsb (eq_ignore_ascii_case (extension_of relative)) MIRRORED_EXTENSIONS.

(** ** The walk *)

(** What [fs::metadata] and [fs::read_dir] find under a folder; links are
    followed, a folder that cannot be read has no entries. *)
Inductive FsNode :=
  | FileNode (modified size : N)
  | DirNode (entries : list (str * FsNode))
  | OtherNode.

Definition not_hidden (name : str) : bool := negb (starts_with (u ".") name).

(** A file of the walk: due, or skipped. *)
Definition due (state : MirrorState) (relative : str) (modified size : N) : bool :=
  (size <=? MIRROR_MAX_BYTES)%N && is_mirrored_path relative
  && negb (is_some_and (λ up, (modified <=? up)%N) (uploaded state !! relative))
  && negb (is_refused relative modified size state).

(** [walk] of one entry, [dirs] the folders above it. *)
Fixpoint walk_node (state : MirrorState) (dirs : list str) (name : str) (node : FsNode)
  : list MirrorFile :=
  match node with
  | OtherNode => []
  | FileNode modified size =>
      let relative := join (u "/") (dirs ++ [name]) in
      if due state relative modified size then [mkMirrorFile relative modified size] else []
  | DirNode entries =>
      if not_hidden name
      then flat_map (λ e : str * FsNode, walk_node state (dirs ++ [name]) e.1 e.2) entries
      else []
  end.

Definition walk (state : MirrorState) (root : list (str * FsNode)) : list MirrorFile :=
  flat_map (λ e : str * FsNode, walk_node state [] e.1 e.2) root.

Definition by_relative (a b : MirrorFile) : comparison :=
  str_cmp (mirror_relative a) (mirror_relative b).

Definition plan_mirror (root : list (str * FsNode)) (state : MirrorState) : list MirrorFile :=
  sort_by by_relative (walk state root).

(** ** The pass *)

(** The entries of [m] under a prefix, without it. *)
Definition scoped_map {A} (prefix : str) (m : gmap str A) : gmap str A :=
  list_to_map (omap (λ e : str * A, (λ rest, (rest, e.2)) <$> strip_prefix prefix e.1)
                 (map_to_list m)).

Definition scoped (prefix : str) (s : MirrorState) : MirrorState :=
  mkMirrorState (scoped_map prefix (uploaded s)) (scoped_map prefix (refused_files s)).

Record MirrorReport := mkMirrorReport {
  uploaded_count : nat;
  report_refused : list (str * str);
}.

Definition desk_url (desk path : str) : str :=
  let desk := trim_end_matches (λ c, c =? ch "/")%N (trim desk) in
  u "http://" ++ default desk (strip_prefix (u "http://") desk) ++ path.

(** The path a file is put at. *)
Definition mirror_path (name relative : str) : str :=
  AGENTS_PREFIX ++ percent_encode name ++ u "/"
  ++ join (u "/") (map percent_encode (split_char (ch "/") relative)).

Section pass.
Context `{JsonOps}.

(** The client's world: reading one of its files, the round trip of one
    upload (an answer, or why there was none), and saving the state file. *)
Context (read_file : str → str → result (list N) str).
Context (put : str → list N → result HttpResponse str).
Context (save : MirrorState → result unit str).

(** The desk's sentence in an error body, or the whole body. *)
Definition refusal_reason (response : HttpResponse) : str :=
  let sentence : option str :=
    match json_from_str <$> from_utf8 (response_body response) with
    | Some (Ok value) => match json_get (u "error") value with Some e => as_str e | None => None end
    | _ => None
    end in
  default (trim (response_text_lossy response)) sentence.

(** Where a pass stands: the state in memory, the one on disk, the report. *)
Record Pass := mkPass {
  pass_state : MirrorState;
  pass_saved : MirrorState;
  pass_report : MirrorReport;
}.

(** [state.save(…)?] after a change. *)
Definition saving (state : MirrorState) (report : MirrorReport) (p : Pass) : Pass * result unit str :=
  match save state with
  | Ok _ => (mkPass state state report, Ok tt)
  | Err e => (mkPass state (pass_saved p) (pass_report p), Err e)
  end.

(** The body of the loop over the planned files. *)
Definition mirror_file (name : str) (file : MirrorFile) (p : Pass) : Pass * result unit str :=
  let relative := mirror_relative file in
  match read_file name relative with
  | Err e => (p, Err e)
  | Ok bytes =>
      match put (mirror_path name relative) bytes with
      | Err e => (p, Err e)
      | Ok response =>
          let label := name ++ u "/" ++ relative in
          let status := response_status response in
          let report := pass_report p in
          if (500 <=? status)%N
          then (p, Err (u "the desk answered " ++ show_N status ++ u " for " ++ label))
          else if negb (is_success response) then
            let reason := show_N status ++ u ": " ++ refusal_reason response in
            saving (record_refusal label (mirror_modified file) (mirror_size file) reason (pass_state p))
              (mkMirrorReport (uploaded_count report) (report_refused report ++ [(label, reason)])) p
          else
            saving (record label (mirror_modified file) (pass_state p))
              (mkMirrorReport (uploaded_count report + 1) (report_refused report)) p
      end
  end.

Fixpoint mirror_files (name : str) (files : list MirrorFile) (p : Pass) : Pass * result unit str :=
  match files with
  | [] => (p, Ok tt)
  | file :: files =>
      match mirror_file name file p with
      | (p, Ok _) => mirror_files name files p
      | (p, Err e) => (p, Err e)
      end
  end.

(** One harness folder: entries that are not folders are skipped. *)
Definition mirror_harness (folder : str * FsNode) (p : Pass) : Pass * result unit str :=
  match folder.2 with
  | DirNode root =>
      let name := sanitize_harness folder.1 in
      mirror_files name (plan_mirror root (scoped (name ++ u "/") (pass_state p))) p
  | _ => (p, Ok tt)
  end.

Fixpoint mirror_harnesses (folders : list (str * FsNode)) (p : Pass) : Pass * result unit str :=
  match folders with
  | [] => (p, Ok tt)
  | folder :: folders =>
      match mirror_harness folder p with
      | (p, Ok _) => mirror_harnesses folders p
      | (p, Err e) => (p, Err e)
      end
  end.

(** [mirror_pass]: [saved] is the state file, [folders] the harness folders. *)
Definition mirror_pass (folders : list (str * FsNode)) (saved : MirrorState)
  : Pass * result unit str :=
  mirror_harnesses folders (mkPass saved saved (mkMirrorReport 0 [])).
End pass.
