(* ===== verification/AgentMirrorTheory.v ===== *)
(** * What the mirror of an agent's folder guarantees *)

From stdpp Require Import gmap sorting.
From S2P Require Import Prelude Strings Utf8 External Ordering Rules Http AgentMirror.

(** ** The plan *)

(** Induction on a node and the nodes below it. *)
Lemma FsNode_nested_ind (P : FsNode → Prop) :
  (∀ m s, P (FileNode m s)) → P OtherNode →
  (∀ entries, Forall (λ e : str * FsNode, P e.2) entries → P (DirNode entries)) →
  ∀ node, P node.
Proof.
  intros Hf Ho Hd. fix IH 1. intros [m s|entries|]; [apply Hf| |apply Ho].
  apply Hd. induction entries as [|[name node] entries IHl]; constructor; [apply IH|apply IHl].
Qed.

(** A file below a folder, every folder on the way one the walk goes into. *)
Inductive file_at : list (str * FsNode) → list str → N → N → Prop :=
  | file_here entries name m s : (name, FileNode m s) ∈ entries → file_at entries [name] m s
  | file_below entries name sub path m s :
      (name, DirNode sub) ∈ entries → not_hidden name = true → file_at sub path m s →
      file_at entries (name :: path) m s.

Lemma elem_of_flat_map {A B} (f : A → list B) l y :
  y ∈ flat_map f l ↔ ∃ x, x ∈ l ∧ y ∈ f x.
Proof. setoid_rewrite list_elem_of_In. apply in_flat_map. Qed.

Lemma file_at_one name node path m s :
  file_at [(name, node)] path m s ↔
  (node = FileNode m s ∧ path = [name]) ∨
  ∃ sub path', node = DirNode sub ∧ not_hidden name = true ∧ path = name :: path' ∧
    file_at sub path' m s.
Proof.
  split.
  - remember [(name, node)] as entries eqn:He. destruct 1 as [? ? ? ? Hin|? ? sub ? ? ? Hin Hh Hf];
      subst; apply list_elem_of_singleton in Hin; simplify_eq; [by left|right; eauto 8].
  - intros [[-> ->]|(sub & path' & -> & Hh & -> & Hf)]; econstructor; try done; by left.
Qed.

Lemma file_at_single entries path m s :
  file_at entries path m s ↔ ∃ name node, (name, node) ∈ entries ∧ file_at [(name, node)] path m s.
Proof.
  split.
  - destruct 1 as [? n ? ? Hin|? n sub ? ? ? Hin Hh Hf]; do 2 eexists; (split; [done|]);
      apply file_at_one; [by left|right; eauto 8].
  - intros (name & node & Hin & [[-> ->]|(sub & path' & -> & Hh & -> & Hf)]%file_at_one);
      by econstructor.
Qed.

Lemma walk_node_spec state f node dirs name :
  f ∈ walk_node state dirs name node ↔
  ∃ path m s, file_at [(name, node)] path m s ∧
    f = mkMirrorFile (join (u "/") (dirs ++ path)) m s ∧
    due state (join (u "/") (dirs ++ path)) m s = true.
Proof.
  revert dirs name. induction node as [m s| |entries IH] using FsNode_nested_ind; intros dirs name;
    cbn [walk_node]; setoid_rewrite file_at_one.
  - destruct (due _ _ _ _) eqn:E; rewrite ?list_elem_of_singleton; split.
    + intros ->. exists [name], m, s. split_and!; [by left|done|done].
    + intros (path & m' & s' & [[[= <- <-] ->]|(?&?&?&_)] & -> & _); done.
    + by intros ?%not_elem_of_nil.
    + intros (path & m' & s' & [[[= <- <-] ->]|(?&?&?&_)] & _ & ?); congruence.
  - split; [by intros ?%not_elem_of_nil|].
    intros (path & m' & s' & [[? _]|(?&?&?&_)] & _); done.
  - rewrite Forall_forall in IH. destruct (not_hidden name) eqn:Eh.
    2:{ split; [by intros ?%not_elem_of_nil|].
        intros (path & m' & s' & [[? _]|(?&?&?&?&_)] & _); congruence. }
    rewrite elem_of_flat_map. split.
    + intros ([n node] & Hin & Hf). apply (IH _ Hin) in Hf as (path & m & s & Hf & -> & Hd).
      exists (name :: path), m, s. rewrite <- app_assoc in *. split_and!; [|done|done].
      right. exists entries, path. split_and!; [done|done|done|]. apply file_at_single; eauto.
    + intros (path & m & s & [[? _]|(sub & path' & [= <-] & _ & -> & Hf)] & -> & Hd); [done|].
      apply file_at_single in Hf as (n & node & Hin & Hf). exists (n, node). split; [done|].
      apply (IH _ Hin). exists path', m, s. by rewrite <- app_assoc.
Qed.

Lemma elem_of_plan root state f :
  f ∈ plan_mirror root state ↔
  ∃ path m s, file_at root path m s ∧ f = mkMirrorFile (join (u "/") path) m s ∧
    due state (join (u "/") path) m s = true.
Proof.
  unfold plan_mirror, walk. rewrite sort_by_Permutation, elem_of_flat_map.
  setoid_rewrite walk_node_spec. split.
  - intros ([name node] & Hin & path & m & s & Hf & ? & ?). exists path, m, s.
    split; [apply file_at_single; eauto|done].
  - intros (path & m & s & Hf & ? & ?). apply file_at_single in Hf as (name & node & Hin & Hf).
    exists (name, node). split; [done|]. by exists path, m, s.
Qed.

(** Plain order of the paths. *)
Definition path_le (a b : MirrorFile) : Prop := cmp_le str_cmp (mirror_relative a) (mirror_relative b).

Lemma plan_sorted root state : StronglySorted path_le (plan_mirror root state).
Proof.
  unfold plan_mirror, sort_by.
  assert (∀ x y, cmp_le by_relative x y ↔ path_le x y) as Hle by done.
  assert (Total (cmp_le by_relative)) as Htot.
  { intros x y. unfold cmp_le, by_relative. rewrite (cmp_opp (cmp := str_cmp) (mirror_relative x)).
    destruct (str_cmp _ _); simpl; auto. }
  assert (Transitive (cmp_le by_relative)) as Htrans.
  { intros x y z. apply (cmp_le_trans (cmp := str_cmp)). }
  apply (Sorted_StronglySorted _), Sorted_merge_sort, Htot.
Qed.

Lemma due_spec state r m s :
  due state r m s = true ↔
  (s <= MIRROR_MAX_BYTES)%N ∧ is_mirrored_path r = true ∧
  (∀ up, uploaded state !! r = Some up → up < m)%N ∧ is_refused r m s state = false.
Proof.
  unfold due. rewrite !andb_true_iff, !negb_true_iff, N.leb_le. unfold is_some_and.
  assert (match uploaded state !! r with Some up => (m <=? up)%N | None => false end = false ↔
    (∀ up, uploaded state !! r = Some up → up < m)%N) as ->; [|tauto].
  destruct (uploaded state !! r) as [up|]; [|by split].
  rewrite N.leb_gt. split; [by intros ? ? [= <-]|by eauto].
Qed.

(** The plan of a pass is exactly the files below the harness's folder,
    in folders that are not hidden, that are small enough, of a mirrored kind at
    a valid path, newer than what went up and not refused as they are; in the
    order of their paths. *)
Theorem plan_mirror_spec root state :
  StronglySorted path_le (plan_mirror root state) ∧
  ∀ f, f ∈ plan_mirror root state ↔
    (∃ path, file_at root path (mirror_modified f) (mirror_size f) ∧
       mirror_relative f = join (u "/") path) ∧
    (mirror_size f <= MIRROR_MAX_BYTES)%N ∧ is_mirrored_path (mirror_relative f) = true ∧
    (∀ up, uploaded state !! mirror_relative f = Some up → up < mirror_modified f)%N ∧
    is_refused (mirror_relative f) (mirror_modified f) (mirror_size f) state = false.
Proof.
  split; [apply plan_sorted|]. intros [r m s]. rewrite elem_of_plan. cbn.
  setoid_rewrite due_spec. split.
  - intros (path & m' & s' & Hf & [= -> -> ->] & Hd). eauto.
  - intros ((path & Hf & ->) & Hd). by exists path, m, s.
Qed.

(** ** A pass *)

Lemma scoped_map_lookup {A} (prefix : str) (m : gmap str A) (rest : str) :
  scoped_map prefix m !! rest = m !! (prefix ++ rest).
Proof.
  unfold scoped_map. rewrite <- (list_to_map_to_list m) at 2.
  induction (map_to_list m) as [|[k a] l IH]; [done|]. cbn [omap list_omap fst snd].
  destruct (strip_prefix prefix k) as [r|] eqn:E; cbn [fmap option_fmap option_map].
  - apply strip_prefix_Some in E as ->. cbn [list_to_map foldr fst snd].
    destruct (decide (r = rest)) as [-> |Hne]; [by rewrite !lookup_insert_eq|].
    rewrite !lookup_insert_ne; [done| |done]. by intros ?%app_inv_head.
  - cbn [list_to_map foldr fst snd]. rewrite lookup_insert_ne; [done|].
    intros ->. by rewrite strip_prefix_app in E.
Qed.

(** Nothing more to do for a version of a file. *)
Definition settled (label : str) (modified size : N) (s : MirrorState) : Prop :=
  (∃ up, uploaded s !! label = Some up ∧ (modified <= up)%N) ∨ is_refused label modified size s = true.

Definition file_label (name : str) (f : MirrorFile) : str := name ++ u "/" ++ mirror_relative f.

Definition same_elsewhere (label : str) (s s' : MirrorState) : Prop :=
  ∀ l, l ≠ label → uploaded s' !! l = uploaded s !! l ∧ refused_files s' !! l = refused_files s !! l.

Lemma settled_other label label' m s st st' :
  same_elsewhere label st st' → label' ≠ label → settled label' m s st → settled label' m s st'.
Proof.
  intros Hsame Hne. destruct (Hsame _ Hne) as [Hu Hr]. unfold settled, is_refused. by rewrite Hu, Hr.
Qed.

Section pass_theory.
Context `{JsonOps} (read_file : str → str → result (list N) str).
Context (put : str → list N → result HttpResponse str) (save : MirrorState → result unit str).
Implicit Types p : Pass.

Lemma mirror_file_settles name f p p' :
  mirror_file read_file put save name f p = (p', Ok tt) →
  settled (file_label name f) (mirror_modified f) (mirror_size f) (pass_state p') ∧
  same_elsewhere (file_label name f) (pass_state p) (pass_state p') ∧ pass_saved p' = pass_state p'.
Proof.
  unfold mirror_file. destruct (read_file _ _) as [bytes|e]; [|done].
  destruct (put _ _) as [response|e]; [|done]. destruct (500 <=? _)%N; [done|].
  change (name ++ u "/" ++ mirror_relative f) with (file_label name f).
  destruct (negb _); unfold saving; destruct (save _); try done; intros [= <-]; cbn [pass_state pass_saved];
    (split_and!; [| |done]).
  - right. unfold is_refused. cbn [refused_files record_refusal]. rewrite lookup_insert_eq. cbn.
    by rewrite !N.eqb_refl.
  - intros l Hl. cbn. by rewrite lookup_insert_ne.
  - left. exists (mirror_modified f). cbn. by rewrite lookup_insert_eq.
  - intros l Hl. cbn. by rewrite lookup_insert_ne, lookup_delete_ne.
Qed.

(** Two planned files of one path are one version. *)
Definition one_version (files : list MirrorFile) : Prop :=
  ∀ f g, f ∈ files → g ∈ files → mirror_relative f = mirror_relative g → f = g.

Lemma mirror_files_settle name files p p' :
  one_version files → pass_saved p = pass_state p →
  mirror_files read_file put save name files p = (p', Ok tt) →
  pass_saved p' = pass_state p' ∧
  (∀ f, f ∈ files → settled (file_label name f) (mirror_modified f) (mirror_size f) (pass_state p')) ∧
  (∀ l, (∀ f, f ∈ files → l ≠ file_label name f) →
     uploaded (pass_state p') !! l = uploaded (pass_state p) !! l ∧
     refused_files (pass_state p') !! l = refused_files (pass_state p) !! l).
Proof.
  revert p. induction files as [|f files IH]; intros p Hone Hsaved; cbn [mirror_files].
  - intros [= <-]. split_and!; [done|by intros f ?%not_elem_of_nil|done].
  - destruct (mirror_file _ _ _ name f p) as [p1 [[]|e]] eqn:Ef; [|done]. intros Hrest.
    apply mirror_file_settles in Ef as (Hset & Hsame & Hsaved1).
    apply IH in Hrest as (Hsv & Hall & Hother);
      [|intros g h Hg Hh; apply Hone; by right|done].
    split_and!; [done| |].
    + intros g [-> |Hg]%elem_of_cons; [|by apply Hall].
      destruct (decide (f ∈ files)) as [Hin|Hin]; [by apply Hall|].
      destruct (Hother (file_label name f)) as [Hu Hr].
      { intros g Hg Heq. unfold file_label in Heq. rewrite !app_assoc in Heq. apply app_inv_head in Heq.
        apply Hin. rewrite (Hone f g); [done|by left|by right|done]. }
      unfold settled, is_refused in *. by rewrite Hu, Hr.
    + intros l Hl. destruct (Hother l) as [-> ->]; [intros g Hg; apply Hl; by right|].
      apply Hsame. apply Hl. by left.
Qed.

Lemma due_scoped n st r m s :
  due (scoped (n ++ u "/") st) r m s =
  (s <=? MIRROR_MAX_BYTES)%N && is_mirrored_path r
  && negb (is_some_and (λ up, (m <=? up)%N) (uploaded st !! (n ++ u "/" ++ r)))
  && negb (is_refused (n ++ u "/" ++ r) m s st).
Proof.
  unfold due, is_refused, scoped. cbn [uploaded refused_files].
  by rewrite !scoped_map_lookup, <- !app_assoc.
Qed.

Lemma settled_not_due n st r m s :
  settled (n ++ u "/" ++ r) m s st → due (scoped (n ++ u "/") st) r m s = false.
Proof.
  rewrite due_scoped. intros [(up & -> & Hle)|Hr].
  - cbn [is_some_and]. rewrite (proj2 (N.leb_le m up)) by done. cbn [negb]. by rewrite andb_false_r.
  - rewrite Hr. apply andb_false_r.
Qed.

(** Every version of a file goes up once. When a pass over a harness's folder
    comes to its end, every planned file is on record, as uploaded or as refused,
    in the file of the next run too, and a pass over the same files plans
    nothing. *)
Theorem mirror_settles name root p p' :
  (∀ path path' m s m' s', file_at root path m s → file_at root path' m' s' →
     join (u "/") path = join (u "/") path' → m = m' ∧ s = s') →
  pass_saved p = pass_state p →
  mirror_harness read_file put save (name, DirNode root) p = (p', Ok tt) →
  pass_saved p' = pass_state p' ∧
  plan_mirror root (scoped (sanitize_harness name ++ u "/") (pass_saved p')) = [].
Proof.
  intros Hone Hsaved Hrun. unfold mirror_harness in Hrun. cbn [fst snd] in Hrun.
  set (n := sanitize_harness name) in *.
  set (plan := plan_mirror root (scoped (n ++ u "/") (pass_state p))) in *.
  apply mirror_files_settle in Hrun as (Hsv & Hall & Hother); [|clear Hrun|done].
  2:{ intros f g Hf Hg Hr. apply elem_of_plan in Hf as (pf & m & s & Hf & -> & _).
      apply elem_of_plan in Hg as (pg & m' & s' & Hg & -> & _). cbn [mirror_relative] in Hr.
      destruct (Hone _ _ _ _ _ _ Hf Hg Hr) as [-> ->]. by rewrite Hr. }
  split; [done|]. rewrite Hsv. apply elem_of_nil_inv. intros f Hf.
  pose proof Hf as Hdue. apply elem_of_plan in Hdue as (path & m & s & Hat & -> & Hdue).
  set (r := join (u "/") path) in *. set (label := n ++ u "/" ++ r).
  assert (settled label m s (pass_state p')) as Hset.
  { destruct (due (scoped (n ++ u "/") (pass_state p)) r m s) eqn:Ed.
    - apply (Hall (mkMirrorFile r m s)). apply elem_of_plan. by exists path, m, s.
    - destruct (Hother label) as [Hu Hr].
      { intros g Hg Heq. unfold file_label in Heq. apply app_inv_head, app_inv_head in Heq.
        apply elem_of_plan in Hg as (pg & m' & s' & Hg & -> & Hd). cbn [mirror_relative] in Heq.
        destruct (Hone _ _ _ _ _ _ Hat Hg Heq) as [-> ->]. fold r in Heq. rewrite <- Heq in Hd. congruence. }
      rewrite due_scoped in Hdue, Ed. fold label in Hdue, Ed. unfold is_refused in *.
      rewrite Hu, Hr in Hdue. congruence. }
  apply settled_not_due in Hset. congruence.
Qed.
End pass_theory.
