(* ===== verification/VaultFs.v ===== *)
(** * The vault's files as the desk reaches them

    The desk works on the vault through asynchronous file operations that may
    fail. The files are a map from vault-relative path to text and last-modified
    day; which operations fail, and how, is the environment's choice. An error
    is the chain of sentences [anyhow] keeps, outermost first. *)

From stdpp Require Import gmap.
From S2P Require Import Prelude Strings External.

Definition SLASH : char := 47.

(** [Path::join] on paths written with slashes. *)
Definition join_path (base path : str) : str :=
  if starts_with [SLASH] path then path
  else if (base == []) || ends_with [SLASH] base then base ++ path
  else base ++ SLASH :: path.

(** [Path::file_stem] of a path that ends in a file name. *)
Definition file_stem (path : str) : str :=
  let name := default path (last (split_char SLASH path)) in
  if name == u ".." then []
  else match rsplit_once (u ".") name with
    | Some (before, _) => if before == [] then name else before
    | None => name
    end.

Definition FsError : Type := list str.

Definition with_context {A} (sentence : str) (r : result A FsError) : result A FsError :=
  match r with Ok a => Ok a | Err e => Err (sentence :: e) end.

(** What the environment makes fail. A failed write has written the first
    characters of the text. *)
Class FsFaults := {
  metadata_fault : str → option FsError;
  load_fault : str → option FsError;
  create_dir_fault : str → option FsError;
  create_file_fault : str → option FsError;
  write_fault : str → option (FsError * nat);
  atomic_write_fault : str → option FsError;
  remove_fault : str → option FsError;
  missing_file : str → FsError;
  already_exists : str → FsError;
}.

Record VaultFile `{Chrono} := mkVaultFile {
  file_text : str;
  file_modified : NaiveDate;
}.

Arguments mkVaultFile {_} _ _.

Abbreviation Store := (gmap str VaultFile).

Section store.
Context `{Chrono} `{FsFaults}.
Implicit Types (files : Store) (path : str).

Definition failing {A} (fault : option FsError) (k : result A FsError) : result A FsError :=
  match fault with Some e => Err e | None => k end.

Definition fs_metadata path files : result (option VaultFile) FsError :=
  failing (metadata_fault path) (Ok (files !! path)).

Definition fs_is_file path files : bool :=
  match fs_metadata path files with Ok (Some _) => true | _ => false end.

Definition fs_load path files : result str FsError :=
  failing (load_fault path)
    match files !! path with Some f => Ok (file_text f) | None => Err (missing_file path) end.

Definition fs_create_dir path : result unit FsError := failing (create_dir_fault path) (Ok tt).

(** Creates an empty file, unless there is one. *)
Definition fs_create_file path (today : NaiveDate) files : Store * result unit FsError :=
  match create_file_fault path, files !! path with
  | Some e, _ => (files, Err e)
  | None, Some _ => (files, Err (already_exists path))
  | None, None => (<[path := mkVaultFile [] today]> files, Ok tt)
  end.

Definition fs_write path (text : str) (today : NaiveDate) files : Store * result unit FsError :=
  match write_fault path with
  | Some (e, written) => (<[path := mkVaultFile (take written text) today]> files, Err e)
  | None => (<[path := mkVaultFile text today]> files, Ok tt)
  end.

(** Replaces the file, or leaves it as it was. *)
Definition fs_atomic_write path (text : str) (today : NaiveDate) files
  : Store * result unit FsError :=
  match atomic_write_fault path with
  | Some e => (files, Err e)
  | None => (<[path := mkVaultFile text today]> files, Ok tt)
  end.

(** With [ignore_if_not_exists]. *)
Definition fs_remove_file path files : Store * result unit FsError :=
  match remove_fault path with
  | Some e => (files, Err e)
  | None => (delete path files, Ok tt)
  end.

Lemma fs_is_file_lookup path files : fs_is_file path files = true → is_Some (files !! path).
Proof.
  unfold fs_is_file, fs_metadata, failing. destruct (metadata_fault path); [done|].
  destruct (files !! path); [by eexists|done].
Qed.

Lemma fs_load_Ok path files text :
  fs_load path files = Ok text → ∃ d, files !! path = Some (mkVaultFile text d).
Proof.
  unfold fs_load, failing. destruct (load_fault path); [done|].
  destruct (files !! path) as [[t d]|]; [|done]. intros [= <-]. by exists d.
Qed.
End store.
