(* ===== verification/Notes.v ===== *)
(** * Periodic notes ([thock/notes.rs], and the round of [thock/today_note.rs])

    Where the daily and weekly notes live, how a template becomes a note, how a
    missing note is made, and how the desk tidies the past days whose note is
    still only the template. *)

From stdpp Require Import gmap.
From S2P Require Import Prelude Strings External Dates NoteIndex VaultFs.

Inductive NoteKind := Daily | Weekly.

Inductive TimelineEntry := Today | Yesterday | Tomorrow | ThisWeek | LastWeek.

Definition CLEANUP_WINDOW_DAYS : Z := 30.
Definition CLEANUP_MAX_DAYS : Z := 400.

Record NotesConfig := mkNotesConfig {
  notes_dir : str;
  filename : str;
  template : str;
}.

(** The parts of a vault's configuration the notes use; paths are relative to
    the vault's root. *)
Record Vault := mkVault {
  daily : NotesConfig;
  weekly : NotesConfig;
}.

Definition notes_config (vault : Vault) (kind : NoteKind) : NotesConfig :=
  match kind with Daily => daily vault | Weekly => weekly vault end.

Definition template_path (vault : Vault) (kind : NoteKind) : str :=
  template (notes_config vault kind).

(** The lines of a note, without trailing space and trailing blank lines. *)
Fixpoint drop_trailing_blank (lines : list str) : list str :=
  match lines with
  | [] => []
  | line :: lines =>
      match drop_trailing_blank lines with
      | [] => if line == [] then [] else [line]
      | rest => line :: rest
      end
  end.

Definition normalized_lines (text : str) : list str :=
  drop_trailing_blank (map trim_end (str_lines text)).

Section notes.
Context `{Chrono} `{!ChronoDays}.

Definition note_path (vault : Vault) (kind : NoteKind) (date : NaiveDate) : str :=
  let config := notes_config vault kind in
  join_path (notes_dir config) (format_date date (filename config) ++ u ".md").

(** The date of the note at a path; [Path::strip_prefix] removes whole
    components. *)
Definition note_date (vault : Vault) (kind : NoteKind) (path : str) : option NaiveDate :=
  let config := notes_config vault kind in
  relative ← strip_prefix (join_path (notes_dir config) []) path;
  stem ← strip_suffix (u ".md") relative;
  parse_date stem (filename config).

(** [weekday().num_days_from_monday()] *)
Definition num_days_from_monday (date : NaiveDate) : Z :=
  (Z.of_N (num_days_from_sunday date) + 6) mod 7.

Definition week_start (date : NaiveDate) : option NaiveDate :=
  sub_days date (num_days_from_monday date).

(** [pred_opt] and [succ_opt] are the days one before and one after. *)
Definition resolve (entry : TimelineEntry) (today : NaiveDate) : option (NoteKind * NaiveDate) :=
  match entry with
  | Today => Some (Daily, today)
  | Yesterday => (λ date, (Daily, date)) <$> sub_days today 1
  | Tomorrow => (λ date, (Daily, date)) <$> sub_days today (-1)
  | ThisWeek => (λ date, (Weekly, date)) <$> week_start today
  | LastWeek => monday ← week_start today; (λ date, (Weekly, date)) <$> sub_days monday 7
  end.

(** [NaiveDate::min] and [NaiveDate::max] *)
Definition date_min (a b : NaiveDate) : NaiveDate := if before b a then b else a.
Definition date_max (a b : NaiveDate) : NaiveDate := if before b a then a else b.

(** [successors(Some(start), succ_opt).take_while(|date| date < today)]; one
    unit of fuel a day. *)
Fixpoint days_until (fuel : nat) (start : option NaiveDate) (today : NaiveDate) : list NaiveDate :=
  match fuel, start with
  | S fuel, Some date =>
      if before date today then date :: days_until fuel (sub_days date (-1)) today else []
  | _, _ => []
  end.

Definition cleanup_dates (today : NaiveDate) (last_ensured : option NaiveDate) : list NaiveDate :=
  match sub_days today CLEANUP_WINDOW_DAYS, sub_days today CLEANUP_MAX_DAYS with
  | Some floor, Some cap =>
      let start :=
        date_max (match last_ensured with Some last => date_min last floor | None => floor end) cap in
      days_until (Z.to_nat (num_days_from_ce today - num_days_from_ce start)) (Some start) today
  | _, _ => []
  end.

(** ** Templates *)

Section expansion.
Context `{!Clock}.

(** What replaces [{{token}}]. *)
Definition expand_token (date : NaiveDate) (time : NaiveTime) (title token : str) : str :=
  if token == u "date" then format_ymd date
  else if token == u "time" then format_HM time
  else if token == u "title" then title
  else match strip_prefix (u "date:") token with
    | Some format => format_date date format
    | None => u "{{" ++ token ++ u "}}"
    end.

Fixpoint expand_loop (fuel : nat) (date : NaiveDate) (time : NaiveTime) (title rest : str) : str :=
  match fuel with
  | 0 => rest
  | S fuel =>
      match find_sub (u "{{") rest with
      | None => rest
      | Some start =>
          match find_sub (u "}}") (drop (start + 2) rest) with
          | None => rest
          | Some end_offset =>
              take start rest
              ++ expand_token date time title (take end_offset (drop (start + 2) rest))
              ++ expand_loop fuel date time title (drop (start + 2 + end_offset + 2) rest)
          end
      end
  end.

(** Each pass removes at least four characters. *)
Definition expand_template (template : str) (date : NaiveDate) (time : NaiveTime) (title : str)
  : str := expand_loop (length template) date time title template.

(** [NaiveTime::MIN] is an argument. *)
Definition line_matches (MIN : NaiveTime) (date : NaiveDate) (title : str)
    (template_line note_line : str) : bool :=
  contains (u "{{time}}") template_line
  || (expand_template template_line date MIN title == note_line).

Fixpoint all2 {A B} (f : A → B → bool) (l : list A) (k : list B) : bool :=
  match l, k with x :: l, y :: k => f x y && all2 f l k | _, _ => true end.

Definition is_template_only (MIN : NaiveTime) (note template : str) (date : NaiveDate)
    (title : str) : bool :=
  let note_lines := normalized_lines note in
  let template_lines := normalized_lines template in
  (length note_lines =? length template_lines)%nat
  && all2 (line_matches MIN date title) template_lines note_lines.

(** ** Making a note *)

Inductive EnsureNoteOutcome := AlreadyExisted | Created | CreatedWithoutTemplate.

Section ensuring.
Context `{FsFaults}.

(** What another writer does to the files while the desk waits. *)
Definition Others : Type := Store → Store.

(** The folder of a path; the vault's root is the empty path. *)
Definition parent (path : str) : str := default [] (fst <$> rsplit_once [SLASH] path).

Definition path_exists (path : str) (files : Store) : result bool FsError :=
  with_context (u "checking " ++ path)
    (found ←! fs_metadata path files; Ok (is_some found)).

(** A write that fails partway takes the file away again. *)
Definition create_file_if_missing (path contents : str) (today : NaiveDate) (others : Others)
    (files : Store) : Store * result unit FsError :=
  match with_context (u "creating " ++ parent path) (fs_create_dir (parent path)) with
  | Err e => (files, Err e)
  | Ok _ =>
      let files := others files in
      match fs_create_file path today files with
      | (files, Err error) =>
          match fs_metadata path files with
          | Ok (Some _) => (files, Ok tt)
          | _ => (files, Err ((u "creating " ++ path) :: error))
          end
      | (files, Ok _) =>
          if contents == [] then (files, Ok tt)
          else match fs_write path contents today files with
            | (files, Err error) =>
                ((fs_remove_file path files).1, Err ((u "writing " ++ path) :: error))
            | (files, Ok _) => (files, Ok tt)
            end
      end
  end.

(** [ensure_note_at]. The metadata checks and the reading of the template do not
    change the files. *)
Definition ensure_note_at (vault : Vault) (kind : NoteKind) (date today : NaiveDate)
    (time : NaiveTime) (path : str) (others : Others) (files : Store)
  : Store * result EnsureNoteOutcome FsError :=
  match path_exists path files with
  | Err e => (files, Err e)
  | Ok true => (files, Ok AlreadyExisted)
  | Ok false =>
      let template_path := template_path vault kind in
      match (exists_ ←! path_exists template_path files;
             if exists_ : bool
             then template ←! with_context (u "reading template " ++ template_path)
                    (fs_load template_path files); Ok (template, Created)
             else Ok ([], CreatedWithoutTemplate)) with
      | Err e => (files, Err e)
      | Ok (template, outcome) =>
          let contents := expand_template template date time (file_stem path) in
          match create_file_if_missing path contents today others files with
          | (files, Err e) => (files, Err e)
          | (files, Ok _) => (files, Ok outcome)
          end
      end
  end.

Definition ensure_note (vault : Vault) (kind : NoteKind) (date today : NaiveDate)
    (time : NaiveTime) (others : Others) (files : Store)
  : Store * result (str * EnsureNoteOutcome) FsError :=
  let path := note_path vault kind date in
  match ensure_note_at vault kind date today time path others files with
  | (files, Ok outcome) => (files, Ok (path, outcome))
  | (files, Err e) => (files, Err e)
  end.

(** [EXAMPLE_DAY_NOTE] is an argument. *)
Definition ensure_example_day (EXAMPLE_DAY_NOTE : str) (vault : Vault) (today : NaiveDate)
    (time : NaiveTime) (others : Others) (files : Store) : Store * result (option str) FsError :=
  let path := note_path vault Daily today in
  match path_exists path files with
  | Err e => (files, Err e)
  | Ok true => (files, Ok None)
  | Ok false =>
      let contents := expand_template EXAMPLE_DAY_NOTE today time (file_stem path) in
      match create_file_if_missing path contents today others files with
      | (files, Err e) => (files, Err e)
      | (files, Ok _) => (files, Ok (Some path))
      end
  end.
End ensuring.
End expansion.
End notes.
