(* ===== verification/TodayNote.v ===== *)
(** * Today's note ([thock/today_note.rs])

    A service per vault makes today's daily note when the vault opens and when
    the day changes, and removes the past notes that are still only the
    template. Triggers start rounds, one at a time; a round is a sequence of
    file operations with other writers in between. *)

From stdpp Require Import gmap.
From S2P Require Import Prelude Strings External Dates NoteIndex VaultFs Notes.

Definition RECORD_KEY_PREFIX : str := u "thock-today-note:".

(** ** The service: [running] and [again] *)

Record Service := mkService { running : bool; again : bool }.

Definition Service_new : Service := mkService false false.

(** [run_round]: whether a round starts. *)
Definition run_round (s : Service) : Service * bool :=
  if running s then (mkService true true, false) else (mkService true (again s), true).

(** The end of a round: [mem::take(again)] may start the next. *)
Definition round_ended (s : Service) : Service * bool :=
  let again := again s in
  let s := mkService false false in
  if again then run_round s else (s, false).

(** ** A round *)

Section round.
Context `{ChronoParse} `{!ChronoDays} `{!Clock} `{FsFaults}.

(** What a round reads besides the files: the record of the last day, the open
    buffers, and the errors of the key-value store. *)
Record RoundState := mkRoundState {
  files : Store;
  record : gmap str str;
  checkpoints : nat; (* restore points asked of the vault's history *)
}.

Record RoundEnv := mkRoundEnv {
  vault : Vault;
  vault_root : str;
  now : NaiveDate * NaiveTime;
  min_time : NaiveTime; (* [NaiveTime::MIN] *)
  is_open : str → bool;
  read_fault : option FsError;
  record_fault : option FsError;
}.

Definition record_key (env : RoundEnv) : str := RECORD_KEY_PREFIX ++ vault_root env.

Definition read_last_ensured (env : RoundEnv) (s : RoundState)
  : result (option NaiveDate) FsError :=
  with_context (u "reading the last day a note was ensured")
    (failing (read_fault env) (Ok (value ← record s !! record_key env; parse_ymd value))).

(** The past days whose note exists and is not open. *)
Definition candidates (env : RoundEnv) (last_ensured : option NaiveDate) (files : Store)
  : list (NaiveDate * str) :=
  filter (λ c, fs_is_file c.2 files && negb (is_open env c.2) = true)
    (map (λ date, (date, note_path (vault env) Daily date)) (cleanup_dates (now env).1 last_ensured)).

(** One removal: the note is judged again as it is now; errors are logged. *)
Definition tidy (env : RoundEnv) (template : str) (candidate : NaiveDate * str) (files : Store)
  : Store :=
  let '(date, path) := candidate in
  match fs_load path files with
  | Ok note =>
      if is_template_only (min_time env) note template date (file_stem path)
      then (fs_remove_file path files).1 else files
  | Err _ => files
  end.

(** The loop over the candidates, other writers before each. *)
Fixpoint tidy_all (env : RoundEnv) (template : str) (others : nat → Others)
    (list_ : list (NaiveDate * str)) (files : Store) : Store :=
  match list_ with
  | [] => files
  | candidate :: list_ =>
      tidy_all env template others list_
        (tidy env template candidate (others (length list_) files))
  end.

(** The restore point is asked for, in a task of its own, and not waited for. *)
Definition clean_past_days (env : RoundEnv) (last_ensured : option NaiveDate)
    (others : nat → Others) (s : RoundState) : RoundState * result unit FsError :=
  let template_path := template_path (vault env) Daily in
  match with_context (u "reading " ++ template_path) (fs_load template_path (files s)) with
  | Err e => (s, Err e)
  | Ok template =>
      match candidates env last_ensured (files s) with
      | [] => (s, Ok tt)
      | list_ =>
          (mkRoundState (tidy_all env template others list_ (files s)) (record s)
             (S (checkpoints s)), Ok tt)
      end
  end.

Definition ensure_today (env : RoundEnv) (others : Others) (s : RoundState)
  : RoundState * result unit FsError :=
  let '(today, time) := now env in
  match ensure_note (vault env) Daily today today time others (files s) with
  | (files, Ok _) => (mkRoundState files (record s) (checkpoints s), Ok tt)
  | (files, Err e) =>
      (mkRoundState files (record s) (checkpoints s), Err (u "creating today's note" :: e))
  end.

(** The whole pass. [waiting] is what the sync service and others write while
    the round waits for it. *)
Definition run (env : RoundEnv) (creating waiting : Others) (tidying : nat → Others)
    (s : RoundState) : RoundState * result unit FsError :=
  if negb (fs_is_file (template_path (vault env) Daily) (files s)) then (s, Ok tt)
  else match read_last_ensured env s with
    | Err e => (s, Err e)
    | Ok last_ensured =>
        match ensure_today env creating s with
        | (s, Err e) => (s, Err e)
        | (s, Ok _) =>
            match record_fault env with
            | Some e => (s, Err (u "recording the day a note was ensured" :: e))
            | None =>
                let record := <[record_key env := format_ymd (now env).1]> (record s) in
                let s := mkRoundState (waiting (files s)) record (checkpoints s) in
                clean_past_days env last_ensured tidying s
            end
        end
    end.
End round.
