(* ===== verification/NotesTheory.v ===== *)
(** * What the notes and the round guarantee *)

From stdpp Require Import gmap.
From S2P Require Import Prelude Strings External Dates NoteIndex VaultFs Notes TodayNote.

(** ** The service *)

Inductive Event := Trigger | Ended.

Definition service_step (s : Service) (e : Event) : Service * bool :=
  match e with Trigger => run_round s | Ended => round_ended s end.

(** A round ends only while one runs. *)
Definition enabled (s : Service) (e : Event) : Prop :=
  match e with Trigger => True | Ended => running s = true end.

(** The states, and whether each event started a round. *)
Inductive history : Service → list (Event * bool) → Service → Prop :=
  | history_nil s : history s [] s
  | history_step s e s' started h s'' :
      enabled s e → service_step s e = (s', started) → history s' h s'' →
      history s ((e, started) :: h) s''.

(** A round is only wanted again while one runs. *)
Definition service_ok (s : Service) : Prop := again s = true → running s = true.

Lemma service_step_ok s e s' started :
  service_ok s → enabled s e → service_step s e = (s', started) → service_ok s'.
Proof.
  destruct s as [[] []], e; intros Hok He [= <- <-]; try done; by intros ?.
Qed.

Lemma history_ok s h s' : service_ok s → history s h s' → service_ok s'.
Proof.
  intros Hok. induction 1 as [|s e s' b h s'' He Hs Hh IH]; [done|].
  apply IH. by eapply service_step_ok.
Qed.

Lemma again_starts s h s' :
  again s = true → running s = true → history s h s' → Ended ∈ h.*1 → true ∈ h.*2.
Proof.
  intros Ha Hr Hh. revert Ha Hr. induction Hh as [|s e s1 b h s2 He Hs Hh IH]; intros Ha Hr.
  - intros Hin. by apply elem_of_nil in Hin.
  - destruct s as [r a]. simpl in Ha, Hr. subst. destruct e; injection Hs as <- <-.
    + intros [[=]|Hin]%elem_of_cons. apply elem_of_cons. right. by apply IH.
    + intros _. apply elem_of_cons. by left.
Qed.

(** No trigger is lost: from any reachable state, a trigger starts a round at
    once or, when one is running, a new round starts by the time that one has
    ended, whatever else triggers meanwhile; and two rounds never run at once. *)
Theorem triggers_are_served s0 s h s' started :
  history Service_new s0 s → history s ((Trigger, started) :: h) s' →
  (started = true ∨ (Ended ∈ h.*1 → true ∈ h.*2)) ∧
  (running s = true → started = false).
Proof.
  intros Hreach Hh. assert (service_ok s) as Hok by (by eapply history_ok; [|exact Hreach]).
  inversion Hh as [|? ? s1 ? ? ? _ Hs Hh']; subst. unfold service_step, run_round in Hs.
  destruct s as [[] a]; simpl in *; injection Hs as <- <-.
  - split; [|done]. right. intros Hin. by apply (again_starts (mkService true true) _ _ eq_refl eq_refl Hh').
  - split; [by left|done].
Qed.

(** ** Templates *)

Section expand_theory.
Context `{Chrono} `{!Clock}.
Implicit Types (date : NaiveDate) (time : NaiveTime) (title rest : str).

Lemma find_braces s i : find_sub (u "{{") s = Some i → i + 2 ≤ length s.
Proof.
  intros (H1 & _)%find_sub_Some. apply starts_with_length in H1. rewrite length_drop in H1.
  simpl in H1. lia.
Qed.

Lemma expand_loop_fuel n m date time title rest :
  length rest ≤ n → length rest ≤ m →
  expand_loop n date time title rest = expand_loop m date time title rest.
Proof.
  revert m rest. induction n as [|n IH]; intros [|m] rest Hn Hm; try done.
  - destruct rest; [done|simpl in Hn; lia].
  - destruct rest; [done|simpl in Hm; lia].
  - cbn [expand_loop]. destruct (find_sub (u "{{") rest) as [start|] eqn:E; [|done].
    apply find_braces in E. destruct (find_sub (u "}}") _) as [e|]; [|done].
    do 2 f_equal. apply IH; rewrite length_drop; lia.
Qed.

(** One pass of the loop. *)
Lemma expand_template_eq date time title template :
  expand_template template date time title =
  match find_sub (u "{{") template with
  | None => template
  | Some start =>
      match find_sub (u "}}") (drop (start + 2) template) with
      | None => template
      | Some end_offset =>
          take start template
          ++ expand_token date time title (take end_offset (drop (start + 2) template))
          ++ expand_template (drop (start + 2 + end_offset + 2) template) date time title
      end
  end.
Proof.
  unfold expand_template. destruct template as [|c t]; [done|]. set (s := c :: t).
  change (length s) with (S (length t)). cbn [expand_loop].
  destruct (find_sub (u "{{") s) as [start|] eqn:E; [|done].
  apply find_braces in E. destruct (find_sub (u "}}") _) as [e|]; [|done].
  do 2 f_equal. apply expand_loop_fuel; rewrite length_drop; subst s; simpl length; lia.
Qed.

(** Expanding a template stops whatever it holds: any fuel from its length
    on gives the same text, which is that of the loop's equation; text without
    an opening brace pair, or without a closing one after it, is kept as it
    is, and so is a token the desk does not know. *)
Theorem expand_template_total date time title template :
  (∀ n, length template ≤ n →
     expand_loop n date time title template = expand_template template date time title) ∧
  (contains (u "{{") template = false → expand_template template date time title = template) ∧
  (∀ before token rest, contains (u "{{") (before ++ u "{") = false →
     contains (u "}}") (token ++ u "}") = false →
     expand_template (before ++ u "{{" ++ token ++ u "}}" ++ rest) date time title
     = before ++ expand_token date time title token ++ expand_template rest date time title).
Proof.
  split_and!.
  - intros n Hn. by apply expand_loop_fuel.
  - intros Hc. rewrite expand_template_eq. unfold contains in Hc.
    by destruct (find_sub (u "{{") template).
  - intros before token rest Hb Ht. rewrite expand_template_eq.
    assert (∀ (c : char) (s r : str), contains [c; c] (s ++ [c]) = false →
      find_sub [c; c] (s ++ [c; c] ++ r) = Some (length s)) as Hfind.
    { intros c s r Hc. apply find_sub_first.
      - rewrite drop_app_length. apply starts_with_app. by exists r.
      - rewrite length_app. lia.
      - intros j Hj. unfold contains in Hc.
        destruct (find_sub [c; c] (s ++ [c])) eqn:E; [done|].
        rewrite find_sub_None in E. specialize (E j). rewrite drop_app_le in E |- * by lia.
        remember (drop j s) as d eqn:Ed. assert (length d = length s - j) as Hl
          by (by rewrite Ed, length_drop).
        destruct d as [|x [|y d]]; [simpl in Hl; lia|exact E|exact E]. }
    change (u "{{") with [ch "{"; ch "{"] at 2. change (u "{{") with [ch "{"; ch "{"] in Hb |- *.
    change (u "}}") with [ch "}"; ch "}"] in Ht |- *.
    rewrite (Hfind (ch "{") before _ Hb).
    replace (drop (length before + 2) (before ++ [ch "{"; ch "{"] ++ token ++ [ch "}"; ch "}"] ++ rest))
      with (token ++ [ch "}"; ch "}"] ++ rest)
      by (rewrite drop_app_add; done).
    rewrite (Hfind (ch "}") token _ Ht).
    rewrite take_app_length, take_app_length.
    replace (length before + 2 + length token + 2)
      with (length before + (2 + (length token + 2))) by lia.
    rewrite drop_app_add, (drop_app_add' [ch "{"; ch "{"] _ 2), drop_app_add by done. done.
Qed.

(** The time matters only to a template with [{{time}}]. *)
Lemma expand_time_free date time time' title template :
  contains (u "{{time}}") template = false →
  expand_template template date time title = expand_template template date time' title.
Proof.
  remember (length template) as n eqn:Hn. revert template Hn.
  induction n as [n IH] using lt_wf_ind. intros template -> Hc.
  rewrite (expand_template_eq date time), (expand_template_eq date time').
  destruct (find_sub (u "{{") template) as [start|] eqn:E; [|done].
  destruct (find_sub (u "}}") (drop (start + 2) template)) as [e|] eqn:E2; [|done].
  pose proof (find_braces _ _ E) as Hlen. unfold contains in Hc.
  destruct (find_sub (u "{{time}}") template) eqn:Et; [done|]. clear Hc.
  rewrite find_sub_None in Et. f_equal. f_equal.
  - unfold expand_token.
    destruct (bool_decide_reflect (take e (drop (start + 2) template) = u "time")) as [Eq|Hne]; [|done].
    exfalso. specialize (Et start). apply not_true_iff_false in Et. apply Et, starts_with_app.
    apply find_sub_Some in E as (E & _), E2 as (E2 & _).
    apply starts_with_app in E as [r Hr], E2 as [r2 Hr2].
    exists r2. rewrite Hr. assert (r = drop (start + 2) template) as Er.
    { rewrite <- drop_drop, Hr. done. }
    rewrite Er. rewrite <- (take_drop e (drop (start + 2) template)), Eq, Hr2. done.
  - apply (IH (length (drop (start + 2 + e + 2) template))); [rewrite length_drop; lia|done|].
    unfold contains. enough (find_sub (u "{{time}}") (drop (start + 2 + e + 2) template) = None)
      as -> by done.
    apply find_sub_None. intros j. rewrite drop_drop. apply Et.
Qed.
End expand_theory.

(** ** The days a cleanup looks at *)

Section cleanup_theory.
Context `{ChronoDaysLaws}.
Implicit Types (d today start : NaiveDate).

Lemma not_before a b : before a b = false ↔ (num_days_from_ce b <= num_days_from_ce a)%Z.
Proof.
  unfold before. rewrite bool_decide_eq_false, date_cmp_days, Z.compare_lt_iff. lia.
Qed.

Lemma before_days a b : before a b = true ↔ (num_days_from_ce a < num_days_from_ce b)%Z.
Proof. rewrite <- not_false_iff_true, not_before. lia. Qed.

Lemma date_min_days a b :
  num_days_from_ce (date_min a b) = Z.min (num_days_from_ce a) (num_days_from_ce b).
Proof.
  unfold date_min. destruct (before b a) eqn:E; [apply before_days in E|apply not_before in E]; lia.
Qed.

Lemma date_max_days a b :
  num_days_from_ce (date_max a b) = Z.max (num_days_from_ce a) (num_days_from_ce b).
Proof.
  unfold date_max. destruct (before b a) eqn:E; [apply before_days in E|apply not_before in E]; lia.
Qed.

Lemma days_until_lookup fuel start today i d :
  days_until fuel (Some start) today !! i = Some d →
  num_days_from_ce d = (num_days_from_ce start + Z.of_nat i)%Z ∧
  (num_days_from_ce d < num_days_from_ce today)%Z.
Proof.
  revert start i. induction fuel as [|fuel IH]; intros start i; [done|]. cbn [days_until].
  destruct (before start today) eqn:E; [|done]. apply before_days in E.
  destruct i as [|i]; cbn [lookup list_lookup]; [intros [= <-]; lia|].
  destruct (sub_days start (-1)) as [next|] eqn:En; [|by destruct fuel].
  apply sub_days_Some in En. intros Hl. apply IH in Hl. lia.
Qed.

(** Enough fuel for the days up to today. *)
Lemma days_until_fuel n m start today :
  (num_days_from_ce today - num_days_from_ce start <= Z.of_nat n)%Z →
  (num_days_from_ce today - num_days_from_ce start <= Z.of_nat m)%Z →
  days_until n (Some start) today = days_until m (Some start) today.
Proof.
  revert m start. induction n as [|n IH]; intros [|m] start Hn Hm; cbn [days_until]; try done.
  - assert (before start today = false) as -> by (apply not_before; lia). done.
  - assert (before start today = false) as -> by (apply not_before; lia). done.
  - destruct (before start today); [|done]. f_equal.
    destruct (sub_days start (-1)) as [next|] eqn:En; [|by destruct n, m].
    apply sub_days_Some in En. apply IH; lia.
Qed.

(** The days whose note a cleanup may remove are consecutive days before
    today, from thirty days back or from the last recorded day when that is
    older, and never from more than 400 days back; the walk over them stops, and
    giving it more steps adds no day. *)
Theorem cleanup_dates_spec today last floor cap :
  sub_days today CLEANUP_WINDOW_DAYS = Some floor → sub_days today CLEANUP_MAX_DAYS = Some cap →
  let first := (num_days_from_ce today
    - Z.min 400 (match last with
                 | Some last => Z.max 30 (num_days_from_ce today - num_days_from_ce last)
                 | None => 30
                 end))%Z in
  (∀ i d, cleanup_dates today last !! i = Some d →
     num_days_from_ce d = (first + Z.of_nat i)%Z ∧
     (num_days_from_ce today - 400 <= num_days_from_ce d < num_days_from_ce today)%Z) ∧
  length (cleanup_dates today last) ≤ 400 ∧
  ∃ start, num_days_from_ce start = first ∧
    ∀ fuel, 400 ≤ fuel → days_until fuel (Some start) today = cleanup_dates today last.
Proof.
  intros Hf Hc first. unfold cleanup_dates. rewrite Hf, Hc.
  apply sub_days_Some in Hf, Hc. unfold CLEANUP_WINDOW_DAYS, CLEANUP_MAX_DAYS in *.
  set (start := date_max _ cap).
  assert (num_days_from_ce start = first) as Hs.
  { subst start first. rewrite date_max_days. destruct last as [l|]; [rewrite date_min_days|]; lia. }
  assert (num_days_from_ce today - 400 <= first)%Z as Hge by (subst first; lia).
  assert (∀ i d, days_until (Z.to_nat (num_days_from_ce today - num_days_from_ce start))
      (Some start) today !! i = Some d → num_days_from_ce d = (first + Z.of_nat i)%Z ∧
      (num_days_from_ce today - 400 <= num_days_from_ce d < num_days_from_ce today)%Z) as Hl.
  { intros i d [Hd Ht]%days_until_lookup. rewrite Hs in Hd. lia. }
  split_and!; [done| |].
  - set (l := days_until _ _ _) in *. destruct (decide (length l ≤ 400)); [done|].
    destruct (lookup_lt_is_Some_2 l 400 ltac:(lia)) as [d Hd]. apply Hl in Hd. lia.
  - exists start. split; [done|]. intros fuel Hfu. apply days_until_fuel; lia.
Qed.
End cleanup_theory.

(** ** Making a note *)

Section ensure_theory.
Context `{Chrono} `{!ChronoDays} `{!Clock} `{FsFaults}.
Implicit Types (files : Store) (path : str).

Lemma path_exists_Ok path files b :
  path_exists path files = Ok b → (b = true ↔ is_Some (files !! path)).
Proof.
  unfold path_exists, fs_metadata, failing. destruct (metadata_fault path); [done|].
  cbn. intros [= <-]. by destruct (files !! path) as [f|]; cbn; split; [eauto|done|done|intros [? ?]].
Qed.

(** Every file there is stays as it is, and only [path] may be new: with the
    text, or not at all. *)
Lemma create_file_if_missing_spec path contents today (others : Others) files files' r :
  create_file_if_missing path contents today others files = (files', r) →
  ∃ base, (base = files ∨ base = others files) ∧
    (∀ p f, base !! p = Some f → files' !! p = Some f) ∧
    (∀ p, p ≠ path → files' !! p = base !! p) ∧
    match r with
    | Ok _ => is_Some (files' !! path) ∧
        (base !! path = None → files' !! path = Some (mkVaultFile contents today))
    | Err _ => remove_fault path = None → base !! path = None → files' !! path = None
    end.
Proof.
  unfold create_file_if_missing. destruct (with_context _ (fs_create_dir _)) as [?|e].
  2:{ intros [= <- <-]. exists files. split_and!; [by left|done|done|done]. }
  unfold fs_create_file. set (base := others files). intros Hr. exists base. split; [by right|].
  destruct (create_file_fault path) as [e|].
  { unfold fs_metadata, failing in Hr. destruct (metadata_fault path) as [e'|].
    - injection Hr as <- <-. done.
    - destruct (base !! path) as [f|] eqn:Ef; injection Hr as <- <-.
      + rewrite Ef. done.
      + rewrite Ef. done. }
  destruct (base !! path) as [f|] eqn:Ef.
  { unfold fs_metadata, failing in Hr. destruct (metadata_fault path) as [e'|].
    - injection Hr as <- <-. rewrite Ef. done.
    - rewrite Ef in Hr. injection Hr as <- <-. rewrite Ef. done. }
  assert (∀ p f t, base !! p = Some f → <[path := t]> base !! p = Some f) as Hkeep.
  { intros p f t Hp. rewrite lookup_insert_ne; [done|]. by intros ->; rewrite Ef in Hp. }
  destruct (bool_decide_reflect (contents = [])) as [-> |Hne].
  { injection Hr as <- <-. rewrite lookup_insert_eq. split_and!; [eauto| |done|done].
    intros p Hp. by rewrite lookup_insert_ne. }
  unfold fs_write in Hr.
  destruct (write_fault path) as [[e n]|].
  - injection Hr as <- <-. rewrite !insert_insert_eq.
    unfold fs_remove_file. destruct (remove_fault path); cbn [fst].
    + split_and!; [eauto| |done]. intros p Hp. by rewrite lookup_insert_ne.
    + rewrite delete_insert_eq, (delete_id _ _ Ef). done.
  - injection Hr as <- <-. rewrite !insert_insert_eq, lookup_insert_eq. split_and!; [eauto| |done|done].
    intros p Hp. by rewrite lookup_insert_ne.
Qed.

(** Making sure of a note never touches a file that is already there, even
    one another writer made meanwhile; it creates at most the note itself, whose
    text is then the expanded template (empty when the vault has none), and when
    it fails it leaves no partial note behind, unless removing it fails too. *)
Theorem ensure_note_spec vault kind date today time (others : Others) files files' r :
  ensure_note vault kind date today time others files = (files', r) →
  let path := note_path vault kind date in
  ∃ base, (base = files ∨ base = others files) ∧
    (∀ p f, base !! p = Some f → files' !! p = Some f) ∧
    (∀ p, p ≠ path → files' !! p = base !! p) ∧
    match r with
    | Ok (p, outcome) =>
        p = path ∧ is_Some (files' !! path) ∧ (outcome = AlreadyExisted → files' = files) ∧
        (base !! path = None → ∃ t,
           files' !! path =
             Some (mkVaultFile (expand_template t date time (file_stem path)) today) ∧
           match outcome with
           | Created => file_text <$> files !! template_path vault kind = Some t
           | _ => t = []
           end)
    | Err _ => remove_fault path = None → base !! path = None → files' !! path = None
    end.
Proof.
  unfold ensure_note, ensure_note_at. set (path := note_path vault kind date).
  destruct (path_exists path files) as [b|e] eqn:Ee.
  2:{ intros [= <- <-]. exists files. by split_and!; [left|..]. }
  pose proof (path_exists_Ok _ _ _ Ee) as Hb. destruct b.
  { intros [= <- <-]. exists files. destruct (proj1 Hb eq_refl) as [f Hf].
    split_and!; [by left|done|done|done|by rewrite Hf|done|]. intros Hn. by rewrite Hn in Hf. }
  destruct (result_bind _ _) as [[template outcome]|e] eqn:Et.
  2:{ intros [= <- <-]. exists files. by split_and!; [left|..]. }
  assert (match outcome with
          | Created => file_text <$> files !! template_path vault kind = Some template
          | AlreadyExisted => False
          | CreatedWithoutTemplate => template = [] end) as Hout.
  { unfold result_bind at 1 in Et. destruct (path_exists (template_path vault kind) files) as [[]|] eqn:Ep;
      [| |done].
    - unfold with_context in Et. destruct (fs_load _ files) as [t|] eqn:El; [|done].
      injection Et as <- <-. apply fs_load_Ok in El as [d ->]. done.
    - by injection Et as <- <-. }
  destruct (create_file_if_missing _ _ _ _ _) as [files2 r2] eqn:Ec.
  apply create_file_if_missing_spec in Ec as (base & Hbase & Hk & Ho & Hr).
  destruct r2 as [?|e]; intros [= <- <-]; exists base; split_and!; try done.
  - apply Hr.
  - by destruct outcome.
  - intros Hn. exists template. split; [by apply Hr|]. by destruct outcome.
Qed.
End ensure_theory.

(** ** The round *)

Section round_theory.
Context `{ChronoParse} `{!ChronoDays} `{!ChronoDaysLaws} `{!Clock} `{FsFaults}.

Implicit Types (date : NaiveDate) (path p : str) (f file : VaultFile) (files : Store) (template : str)
  (env : RoundEnv) (s : RoundState) (r : result unit FsError) (l : list (NaiveDate * str))
  (others : nat → Others).

(** Other writers leave the file at [path] alone while it is [file]. *)
Definition leaves (path : str) (file : VaultFile) (others : Others) : Prop :=
  ∀ files, files !! path = Some file → others files !! path = Some file.

(** The file is the untouched note of [date]: line for line what the template
    gives, where a line of the template with the time holds anything. *)
Definition untouched (env : RoundEnv) (template : str) (date : NaiveDate) (path : str)
    (file : VaultFile) : Prop :=
  Forall2 (λ from line, contains (u "{{time}}") from = true ∨
             line = expand_template from date (min_time env) (file_stem path))
    (normalized_lines template) (normalized_lines (file_text file)).

Lemma all2_Forall2 {A B} (g : A → B → bool) (l1 : list A) (l2 : list B) :
  length l2 = length l1 → all2 g l1 l2 = true → Forall2 (λ x y, g x y = true) l1 l2.
Proof.
  revert l2. induction l1 as [|x l1 IH]; intros [|y l2] Hlen; try done.
  cbn [all2]. intros [Hx Hl]%andb_true_iff. constructor; [done|]. apply IH; [|done]. by injection Hlen.
Qed.

Lemma template_only_untouched env template date path file :
  is_template_only (min_time env) (file_text file) template date (file_stem path) = true →
  untouched env template date path file.
Proof.
  unfold is_template_only. intros [Hlen%Nat.eqb_eq Hall]%andb_true_iff.
  apply all2_Forall2 in Hall; [|done]. eapply Forall2_impl; [exact Hall|]. intros from line.
  unfold line_matches. intros [Ht|Hl]%orb_true_iff; [by left|right]. by apply bool_decide_eq_true in Hl.
Qed.

Lemma tidy_keeps env template date (path p : str) (f : VaultFile) (files : Store) :
  files !! p = Some f →
  tidy env template (date, path) files !! p = Some f ∨
  path = p ∧ untouched env template date p f.
Proof.
  intros Hp. unfold tidy. destruct (fs_load path files) as [note|e] eqn:El; [|by left].
  destruct (is_template_only _ _ _ _ _) eqn:Et; [|by left].
  unfold fs_remove_file. destruct (remove_fault path); [by left|]. cbn [fst].
  destruct (decide (path = p)) as [-> |Hne].
  - right. split; [done|]. apply fs_load_Ok in El as [d El]. rewrite Hp in El.
    injection El as ->. by apply template_only_untouched.
  - left. by rewrite lookup_delete_ne.
Qed.

Lemma tidy_all_keeps env template others l (p : str) (f : VaultFile) (files : Store) :
  files !! p = Some f → (∀ n, leaves p f (others n)) →
  tidy_all env template others l files !! p = Some f ∨
  ∃ date, (date, p) ∈ l ∧ untouched env template date p f.
Proof.
  revert files. induction l as [|[date path] l IH]; intros files Hp Ho; [by left|].
  cbn [tidy_all]. apply (Ho (length l)) in Hp.
  destruct (tidy_keeps env template date path p f _ Hp) as [Hk|[-> Hu]].
  - destruct (IH _ Hk Ho) as [|(date' & Hin & Hu)]; [by left|].
    right. exists date'. split; [by right|done].
  - right. exists date. split; [left|done].
Qed.

(** C11: a round of the desk loses nothing a person wrote. A note that the other
    writers leave alone is still there, unchanged, after the round, unless it is
    the note of a day before today in the cleanup window of the last day on
    record, not open in an editor, and holds, line for line, nothing but what the
    vault's template gives for that day (a template line with the time holds
    anything); and the round asks for a restore point before the first removal. *)
Theorem round_keeps_notes env (creating waiting : Others) (tidying : nat → Others) s s' r
    (p : str) (f template : VaultFile) :
  run env creating waiting tidying s = (s', r) → files s !! p = Some f →
  files s !! template_path (vault env) Daily = Some template →
  leaves p f creating → leaves p f waiting → (∀ n, leaves p f (tidying n)) →
  leaves (template_path (vault env) Daily) template creating →
  leaves (template_path (vault env) Daily) template waiting →
  files s' !! p = Some f ∨
  ∃ date last, read_last_ensured env s = Ok last ∧ date ∈ cleanup_dates (now env).1 last ∧
    (num_days_from_ce date < num_days_from_ce (now env).1)%Z ∧
    p = note_path (vault env) Daily date ∧ is_open env p = false ∧
    untouched env (file_text template) date p f ∧ checkpoints s' = S (checkpoints s).
Proof.
  intros Hrun Hp Htf Hc Hw Ht Htc Htw. unfold run in Hrun.
  destruct (negb _); [injection Hrun as <- <-; by left|].
  destruct (read_last_ensured env s) as [last|e]; [|injection Hrun as <- <-; by left].
  unfold ensure_today in Hrun. destruct (now env) as [today time] eqn:En. cbn [fst] in *.
  destruct (ensure_note _ _ _ _ _ _ _) as [files1 r1] eqn:Ee.
  apply ensure_note_spec in Ee as (base & Hbase & Hk & _).
  assert (files1 !! p = Some f ∧ files1 !! template_path (vault env) Daily = Some template) as [Hp1 Ht1].
  { destruct Hbase as [-> | ->]; split; apply Hk; auto. }
  destruct r1 as [[path outcome]|e]; [|injection Hrun as <- <-; by left].
  destruct (record_fault env); [injection Hrun as <- <-; by left|].
  apply Hw in Hp1. apply Htw in Ht1. unfold clean_past_days in Hrun. cbn [files record checkpoints] in Hrun.
  set (files2 := waiting files1) in *.
  destruct (fs_load _ files2) as [text|e] eqn:El; cbn [with_context] in Hrun; [|injection Hrun as <- <-; by left].
  apply fs_load_Ok in El as [day El]. rewrite Ht1 in El. injection El as ->. cbn [file_text].
  destruct (candidates env last files2) as [|c cs] eqn:Ec; [injection Hrun as <- <-; by left|].
  injection Hrun as <- <-. cbn [files checkpoints].
  destruct (tidy_all_keeps env text tidying (c :: cs) p f files2 Hp1 Ht)
    as [|(date & Hin & Hu)]; [by left|right].
  rewrite <- Ec in Hin. unfold candidates in Hin. rewrite En in Hin. cbn [fst] in Hin.
  apply list_elem_of_filter in Hin as [Ho Hin].
  apply list_elem_of_fmap in Hin as (date' & [= <- ->] & Hin). cbn [snd] in Ho.
  apply andb_true_iff in Ho as [_ Ho%negb_true_iff].
  exists date, last. split_and!; try done.
  unfold cleanup_dates in Hin. destruct (sub_days today CLEANUP_WINDOW_DAYS), (sub_days today CLEANUP_MAX_DAYS);
    try by apply elem_of_nil in Hin.
  apply list_elem_of_lookup in Hin as [i Hi]. apply days_until_lookup in Hi. apply Hi.
Qed.
End round_theory.

(** ** Where a note is *)

Section path_theory.
Context `{ChronoLaws} `{!ChronoNames}.

(** The desk recognises the notes it names: with a file name format that
    carries the day, or the year and week of a Monday, the date read from the
    path of a note is the date the path was made for, also when the format
    makes folders. *)
Theorem note_date_roundtrip vault kind date :
  let format := filename (notes_config vault kind) in
  starts_with [SLASH] (format_date date format) = false →
  forallb fixed_token (format_tokens format) = true →
  forallb (reads_back date) (format_tokens format) = true → names_the_date date format →
  note_date vault kind (note_path vault kind date) = Some date.
Proof.
  intros format Hs Hf Hr Hn. unfold note_date, note_path. fold format.
  set (dir := notes_dir (notes_config vault kind)).
  set (name := format_date date format) in *.
  assert (starts_with [SLASH] (name ++ u ".md") = false) as Hs'.
  { destruct name as [|c name']; [done|]. exact Hs. }
  assert (∃ base, join_path dir [] = base ∧ join_path dir (name ++ u ".md") = base ++ name ++ u ".md")
    as (base & -> & ->).
  { unfold join_path. rewrite Hs'. cbn [starts_with].
    destruct (_ || _); eexists; (split; [reflexivity|]); by rewrite <- app_assoc. }
  rewrite strip_prefix_app. cbn [mbind option_bind]. rewrite strip_suffix_app.
  cbn [mbind option_bind]. by apply parse_date_exact_lemma.
Qed.
End path_theory.
