(* ===== verification/Memory.v ===== *)
(** * The agent's memory of the person ([thock/memory.rs])

    The capped reading of [memory/index.md] and the counter behind the
    suggestion to run Reflect. *)

From stdpp Require Import gmap.
From S2P Require Import Prelude Strings External VaultFs.

Definition MEMORY_DIR : str := u "memory".
Definition INDEX_PATH : str := u "memory/index.md".
Definition INDEX_OVER_CAP_LINE : str :=
  u "(The rest of this page is over its cap; the next Reflect will trim it.)".
Definition NUDGE_COUNTER_PATH : str := u ".thock/state/memory/sessions-with-inbox".

(** A list item; [len] counts bytes. *)
Definition is_entry (line : str) : bool :=
  let line := trim_start line in
  (starts_with (u "- ") line || starts_with (u "* ") line) && (2 <? utf8_len line)%nat.

Definition has_entries (raw : str) : bool := existsb is_entry (str_lines raw).

Definition cap_index (raw : str) (index_lines : nat) : option str :=
  if negb (has_entries raw) then None
  else
    let lines := str_lines raw in
    if (length lines <=? index_lines)%nat then Some (trim_end raw)
    else Some (join [10%N] (take index_lines lines) ++ [10%N] ++ INDEX_OVER_CAP_LINE).

Section memory.
Context `{Chrono} `{FsFaults}.
Implicit Types (files : Store).

Definition read_index_capped files (index_lines : nat) : option str :=
  if negb (fs_is_file INDEX_PATH files) then None
  else match fs_load INDEX_PATH files with
    | Ok raw => cap_index raw index_lines
    | Err _ => None
    end.

(** [memory/inbox.md] is an argument: the path is [Rules.INBOX_PATH]. *)
Definition inbox_has_entries (INBOX_PATH : str) files : bool :=
  match fs_load INBOX_PATH files with Ok raw => has_entries raw | Err _ => false end.

Definition read_nudge_counter files : N :=
  match fs_load NUDGE_COUNTER_PATH files with
  | Ok raw => default 0%N (parse_unsigned USIZE_MAX (trim raw))
  | Err _ => 0%N
  end.

Definition nudge_dir : str := u ".thock/state/memory".

Definition write_nudge_counter (count : N) (today : NaiveDate) files
  : Store * result unit FsError :=
  match with_context (u "creating " ++ nudge_dir) (fs_create_dir nudge_dir) with
  | Err e => (files, Err e)
  | Ok _ =>
      let '(files, r) := fs_write NUDGE_COUNTER_PATH (show_N count) today files in
      (files, with_context (u "writing " ++ NUDGE_COUNTER_PATH) r)
  end.

Definition saturating_add (a b : N) : N := N.min (a + b) USIZE_MAX.

(** A failed write of the counter is logged. *)
Definition note_session_started (INBOX_PATH : str) (nudge_after_sessions : N)
    (today : NaiveDate) files : Store * bool :=
  if (nudge_after_sessions =? 0)%N || negb (inbox_has_entries INBOX_PATH files) then
    if negb (read_nudge_counter files =? 0)%N
    then ((write_nudge_counter 0 today files).1, false)
    else (files, false)
  else
    let count := saturating_add (read_nudge_counter files) 1 in
    ((write_nudge_counter count today files).1, (nudge_after_sessions <=? count)%N).

Definition dismiss_nudge (today : NaiveDate) files : Store * result unit FsError :=
  write_nudge_counter 0 today files.
End memory.
