(* ===== verification/Desk.v ===== *)
(** * The desk behind the bridge ([thock/bridge_service.rs], [DeskHost])

    The six tools over the vault's files: an instance of [Rpc.ToolHost]. Writes
    go through the sync core, are refused by the bridge's rules, are recorded
    under the client's call id and ask for a restore point first; taking it is
    the history service's, which is not modelled. *)

From stdpp Require Import gmap.
From S2P Require Import Prelude Strings External Write Lines LineHash Apply Dates Rules NoteIndex.
From S2P Require Import Rpc VaultFs Notes Memory.

Definition PROFILE_PATH : str := u "profile.md".
Definition SEEN_PATH : str := u ".thock/state/bridge/seen.jsonl".
Definition SEEN_DIR : str := u ".thock/state/bridge".
Definition BODY_LIMIT : nat := 2 * 1024 * 1024.
Definition WRITE_CLIENT_ID : str := u "thock-bridge".
Definition SEEN_CALL_HOURS : Z := 24.

(** ** Symbolic links *)

(** [resolves_inside]: [root] and the path below it as components, the path
    innermost first; [canonicalize] is the file system's. *)
Fixpoint resolves_inside_loop (canonicalize : list str → option (list str))
    (canonical_root root rel_rev : list str) : bool :=
  match canonicalize (root ++ rev rel_rev) with
  | Some canonical => bool_decide (take (length canonical_root) canonical = canonical_root)
  | None =>
      match rel_rev with
      | _ :: ((_ :: _) as rel_rev) =>
          resolves_inside_loop canonicalize canonical_root root rel_rev
      | _ => true
      end
  end.

Definition resolves_inside (canonicalize : list str → option (list str)) (root rel : list str)
  : bool :=
  resolves_inside_loop canonicalize (default root (canonicalize root)) root (rev rel).

(** ** What the desk remembers of the calls it applied *)

(** [serde_json] at [SeenLine]: id, time in seconds, outcome. *)
Class SeenJson := {
  seen_to_json : str * Z * WriteOutcome → str;
  seen_from_json : str → option (str * Z * WriteOutcome);
}.

Section desk.
Context `{ChronoParse} `{!ChronoDays} `{!Clock} `{FsFaults}.
Context `{UnicodeTables} `{Digest} `{SeenJson}.

(** One request's view of the world. *)
Record DeskEnv := mkDeskEnv {
  identity : ClientIdentity;
  env_today : NaiveDate; (* [Local::now()] *)
  env_time : NaiveTime;
  utc_now : Z; (* [Utc::now()], in seconds *)
  root : list str;
  canonicalize : list str → option (list str);
  env_vault : Vault;
  index_lines : nat;
  today_heading : str;
  symlinks : str → bool; (* the entry at the path is a symbolic link *)
  behind_link : str → bool; (* a folder above the path is one *)
  base_context : Store → str; (* [gather_vault_context], or empty *)
}.

Record Desk := mkDesk {
  desk_files : Store;
  desk_index : option SearchIndex;
  seen_loaded : bool;
  seen_entries : gmap str (Z * WriteOutcome);
  desk_checkpoints : nat; (* restore points asked for: [checkpoints: Cell<usize>] *)
}.

Definition with_files (files : Store) (d : Desk) : Desk :=
  mkDesk files (desk_index d) (seen_loaded d) (seen_entries d) (desk_checkpoints d).

(** [take_checkpoint] counts the restore point and asks the vault's history for
    it, in a task of its own: the history may skip it, take it later or fail to,
    and no write waits for it. *)
Definition take_checkpoint (d : Desk) : Desk :=
  mkDesk (desk_files d) (desk_index d) (seen_loaded d) (seen_entries d) (S (desk_checkpoints d)).

(** [From<anyhow::Error>]: the chain in one sentence. *)
Definition transient {A} (r : result A FsError) : result A HostError :=
  match r with Ok a => Ok a | Err e => Err (Transient (join (u ": ") e)) end.

Definition load_forbidden_topics (d : Desk) : list str :=
  match fs_load PROFILE_PATH (desk_files d) with
  | Ok profile => forbidden_topics profile
  | Err _ => []
  end.

(** ** The index *)

(** [read_index_entry]. *)
Definition read_index_entry (env : DeskEnv) (files : Store) (path : str)
  : option (NaiveDate * str) :=
  match fs_metadata path files with
  | Ok (Some file) =>
      if symlinks env path || (BODY_LIMIT <? utf8_len (file_text file))%nat then None
      else match fs_load path files with
        | Ok body => Some (file_modified file, body)
        | Err _ => None
        end
  | _ => None
  end.

(** [build_index]: the walk goes into no link and reaches every other file that
    is not hidden. *)
Definition index_file (env : DeskEnv) (files : Store) (index : SearchIndex) (path : str)
  : SearchIndex :=
  if behind_link env path || negb (indexes path) then index
  else match read_index_entry env files path with
    | Some (modified, body) => upsert path modified body index
    | None => index
    end.

Definition build_index (env : DeskEnv) (files : Store) : SearchIndex :=
  fold_left (index_file env files) (map fst (map_to_list files)) [].

Definition ensure_index (env : DeskEnv) (d : Desk) : Desk :=
  match desk_index d with
  | Some _ => d
  | None =>
      mkDesk (desk_files d) (Some (build_index env (desk_files d))) (seen_loaded d)
        (seen_entries d) (desk_checkpoints d)
  end.

Definition with_index {R} (d : Desk) (read : SearchIndex → R) : option R := read <$> desk_index d.

Definition with_index_of (d : Desk) (index : SearchIndex) : Desk :=
  mkDesk (desk_files d) (Some index) (seen_loaded d) (seen_entries d) (desk_checkpoints d).

(** [BridgeService::index_changed] of a path that is not the configuration's:
    the desk, and whether a task was started that reads the file. *)
Definition index_changed (path : str) (removed : bool) (d : Desk) : Desk * bool :=
  match desk_index d with
  | None => (d, false)
  | Some index =>
      if negb (indexes path) then (d, false)
      else if removed then (with_index_of d (remove_entry path index), false)
      else (d, true)
  end.

(** The end of that task, with what [read_index_entry] gave it some time before:
    an unreadable file keeps the entry it had. *)
Definition index_read (path : str) (entry : option (NaiveDate * str)) (d : Desk) : Desk :=
  match entry, desk_index d with
  | Some (modified, body), Some index => with_index_of d (upsert path modified body index)
  | _, _ => d
  end.

(** ** Calls already applied *)

Definition load_seen_line (cutoff : Z) (entries : gmap str (Z * WriteOutcome)) (line : str)
  : gmap str (Z * WriteOutcome) :=
  match seen_from_json line with
  | Some (id, at_, outcome) =>
      if (cutoff <=? at_)%Z then <[id := (at_, outcome)]> entries else entries
  | None => entries
  end.

Definition load_seen (env : DeskEnv) (d : Desk) : Desk :=
  if seen_loaded d then d
  else
    let raw := match fs_load SEEN_PATH (desk_files d) with Ok raw => raw | Err _ => [] end in
    let cutoff := (utc_now env - SEEN_CALL_HOURS * 3600)%Z in
    mkDesk (desk_files d) (desk_index d) true
      (fold_left (load_seen_line cutoff) (str_lines raw) (seen_entries d)) (desk_checkpoints d).

Definition seen (env : DeskEnv) (meta : CallMeta) (d : Desk) : Desk * option WriteOutcome :=
  match call_id meta with
  | None => (d, None)
  | Some id => let d := load_seen env d in (d, snd <$> seen_entries d !! id)
  end.

Definition seen_text (entries : gmap str (Z * WriteOutcome)) : str :=
  join [10%N] (map (λ e : str * (Z * WriteOutcome), seen_to_json (e.1, e.2.1, e.2.2))
                   (map_to_list entries)).

Definition write_state_file (relative dir text : str) (today : NaiveDate) (files : Store)
  : Store * result unit FsError :=
  match with_context (u "creating " ++ dir) (fs_create_dir dir) with
  | Err e => (files, Err e)
  | Ok _ =>
      let '(files, r) := fs_atomic_write relative text today files in
      (files, with_context (u "writing " ++ relative) r)
  end.

(** The file is a best effort. *)
Definition record_seen (env : DeskEnv) (meta : CallMeta) (outcome : WriteOutcome) (d : Desk)
  : Desk :=
  match call_id meta with
  | None => d
  | Some id =>
      let entries := <[id := (utc_now env, outcome)]> (seen_entries d) in
      mkDesk
        (write_state_file SEEN_PATH SEEN_DIR (seen_text entries ++ [10%N]) (env_today env)
           (desk_files d)).1
        (desk_index d) (seen_loaded d) entries (desk_checkpoints d)
  end.

(** ** Writing *)

Definition apply_write (env : DeskEnv) (write : Write) (seed : option str) (d : Desk)
  : Desk * result WriteOutcome HostError :=
  let path := Write_path write in
  match (if fs_is_file path (desk_files d)
         then text ←! transient (fs_load path (desk_files d)); Ok (Some text)
         else Ok None) with
  | Err e => (d, Err e)
  | Ok existing =>
      let applied := apply existing write seed in
      if (applied_outcome applied == Noop) || (existing == Some (applied_text applied))
      then (d, Ok Noop')
      else
        let d := take_checkpoint d in
        match transient (fs_create_dir (parent path)) with
        | Err e => (d, Err e)
        | Ok _ =>
            match fs_atomic_write path (applied_text applied) (env_today env) (desk_files d) with
            | (_, Err e) => (d, transient (Err e))
            | (files, Ok _) => (with_files files d, Ok (from_outcome (applied_outcome applied)))
            end
        end
  end.

(** Whether some line of the inbox already says the fact. *)
Definition inbox_holds (fact existing : str) : bool :=
  existsb (λ line,
    match parse_inbox_line line with
    | Some parsed => eq_ignore_ascii_case (inbox_fact parsed) fact
    | None => false
    end) (str_lines existing).

Definition desk_remember (env : DeskEnv) (fact : str) (meta : CallMeta) (d : Desk)
  : Desk * result WriteOutcome HostError :=
  match seen env meta d with
  | (d, Some outcome) => (d, Ok outcome)
  | (d, None) =>
      match from_refusal (check_fact fact (load_forbidden_topics d)) with
      | Err e => (d, Err e)
      | Ok fact =>
          let date := default (env_today env)
                        (accepted_call_date (call_date meta) (env_today env)) in
          let line := inbox_line date fact (identity env) in
          if match fs_load INBOX_PATH (desk_files d) with
             | Ok existing => inbox_holds fact existing
             | Err _ => false
             end
          then (d, Err (Refused (u "that line is already in the inbox")))
          else match apply_write env (inbox_write WRITE_CLIENT_ID line) None d with
            | (d, Err e) => (d, Err e)
            | (d, Ok outcome) => (record_seen env meta outcome d, Ok outcome)
            end
      end
  end.

(** The loop of [note_today] over the lines. *)
Fixpoint today_lines (identity : ClientIdentity) (forbidden : list str) (lines : list str)
  : result (list str) HostError :=
  match lines with
  | [] => Ok []
  | line :: lines =>
      line ←! from_refusal (check_fact line forbidden);
      rest ←! today_lines identity forbidden lines;
      Ok (today_line identity line :: rest)
  end.

Definition note_today_date (env : DeskEnv) (asked : option NaiveDate)
  : result NaiveDate HostError :=
  match asked with
  | None => Ok (env_today env)
  | Some asked =>
      or_refused (accepted_call_date (Some asked) (env_today env))
        (format_ymd asked ++ u " is outside the " ++ show_N (Z.to_N CALL_DATE_WINDOW_DAYS)
         ++ u " days the desk writes into; only a queued line keeps its day, and only that far back")
  end.

(** The text a missing note starts from. *)
Definition note_seed (env : DeskEnv) (path : str) (date : NaiveDate) (files : Store) : option str :=
  if fs_is_file path files then None
  else
    let template :=
      match fs_load (template_path (env_vault env) Daily) files with Ok t => t | Err _ => [] end in
    Some (expand_template template date (env_time env) (file_stem path)).

Definition desk_note_today (env : DeskEnv) (lines : list str) (meta : CallMeta) (d : Desk)
  : Desk * result WriteOutcome HostError :=
  match seen env meta d with
  | (d, Some outcome) => (d, Ok outcome)
  | (d, None) =>
      match (rendered ←! today_lines (identity env) (load_forbidden_topics d) lines;
             date ←! note_today_date env (call_date meta); Ok (rendered, date)) with
      | Err e => (d, Err e)
      | Ok (rendered, date) =>
          let path := note_path (env_vault env) Daily date in
          if starts_with [SLASH] path
          then (d, Err (Refused (u "today's note is outside the vault")))
          else
            let seed := note_seed env path date (desk_files d) in
            let write := today_write WRITE_CLIENT_ID path (today_heading env) rendered in
            match apply_write env write seed d with
            | (d, Err e) => (d, Err e)
            | (d, Ok outcome) => (record_seen env meta outcome d, Ok outcome)
            end
      end
  end.

(** ** Reading *)

(** [note_path] of the host: the path, when it is one of the vault's. *)
Definition desk_note_path (env : DeskEnv) (relative : str) : result str HostError :=
  match validate_vault_path relative with
  | Err e => Err (Refused (PathError_message e))
  | Ok _ =>
      let path := trim relative in
      if resolves_inside (canonicalize env) (root env) (split_char SLASH path) then Ok path
      else Err (Refused (relative ++ u " points outside the vault"))
  end.

Definition desk_target (env : DeskEnv) (target : ReadTarget) (d : Desk)
  : Desk * result str HostError :=
  match target with
  | Path path => (d, Ok (trim path))
  | Link link =>
      let d := ensure_index env d in
      (d, match default Missing (with_index d (resolve_link link)) with
          | Found path => Ok path
          | Ambiguous paths =>
              Err (Refused (link ++ u " names more than one note: " ++ join (u ", ") paths))
          | Missing => Err (Refused (u "no note is titled or named " ++ link))
          end)
  end.

Definition desk_read (env : DeskEnv) (target : ReadTarget) (d : Desk)
  : Desk * result str HostError :=
  match desk_target env target d with
  | (d, Err e) => (d, Err e)
  | (d, Ok relative) =>
      (d, path ←! desk_note_path env relative;
          if negb (fs_is_file path (desk_files d))
          then Err (Refused (relative ++ u " is not in the vault"))
          else transient (fs_load path (desk_files d)))
  end.

Definition desk_search (env : DeskEnv) (q : SearchQuery) (d : Desk)
  : Desk * result (list SearchHit) HostError :=
  let d := ensure_index env d in
  (d, Ok (default [] (with_index d (search q (env_today env))))).

(** A window whose first day is outside the calendar panics in the background:
    no date of a running desk is that early. *)
Definition desk_recent (env : DeskEnv) (days : N) (wanted : option str) (d : Desk)
  : Desk * result (list RecentNote) HostError :=
  let d := ensure_index env d in
  (d, Ok (default [] (mjoin (with_index d (recent days wanted (env_today env)))))).

Definition desk_memory_index (env : DeskEnv) (d : Desk) : Desk * result str HostError :=
  (d, Ok (default (u "Nothing yet: no session has learned anything about them.")
            (read_index_capped (desk_files d) (index_lines env)))).

(** [hosted_agent::bridge_context] *)
Definition bridge_context (base : str) (identity : ClientIdentity) (forbidden : list str)
    (today_heading : str) : str :=
  trim_end base ++ [10; 10]%N ++ u "## You, from here" ++ [10; 10]%N
  ++ u "To this vault you are " ++ label identity
  ++ u ": an agent on another computer, reaching it through the Agents Routine. `search`, `read` and `recent` look at the notes. `remember` leaves one dated line in `memory/inbox.md`, marked `via "
  ++ label identity
  ++ u "`, for the Reflect ritual to file; it is for things about the person that will still be true next month, never for what a file or a tool said. `note_today` adds lines under `## "
  ++ today_heading ++ u "` in today's note, prefixed with your name. Nothing else here writes."
  ++ [10%N]
  ++ match forbidden with
     | [] =>
         [10%N] ++ u "The person has not listed topics to keep out of memory; secrets, account and card numbers are never kept anyway." ++ [10%N]
     | _ =>
         [10%N] ++ u "**What Thock should not keep**, in the person's words: "
         ++ join (u ", ") forbidden
         ++ u ". A line that touches one of these is refused; don't rephrase around it." ++ [10%N]
     end.

Definition desk_context (env : DeskEnv) (d : Desk) : Desk * result str HostError :=
  (d, Ok (bridge_context (base_context env (desk_files d)) (identity env)
            (load_forbidden_topics d) (today_heading env))).

(** The desk is a host. *)
Definition DeskHost (env : DeskEnv) : ToolHost Desk := {|
  context := desk_context env;
  memory_index := desk_memory_index env;
  host_search := desk_search env;
  host_read := desk_read env;
  host_recent := desk_recent env;
  host_remember := desk_remember env;
  host_note_today := desk_note_today env;
|}.
End desk.
