(* ===== verification/Server.v ===== *)
(** * The desk's server ([thock/bridge_service.rs], [thock-bridge/thock_bridge.rs])

    Pairing, authentication, routing and the requests other than the six tools:
    what happens between a request's head and its answer. A request is
    authenticated on its connection's thread ([answer]) and handled on the
    foreground, one at a time ([handle_incoming]). *)

From stdpp Require Import gmap.
From S2P Require Import Prelude Strings Utf8 External Dates Rules NoteIndex Rpc Http AgentMirror.
From S2P Require Import VaultFs Notes Memory Desk.

Definition BRIDGE_CONFIG_PATH : str := u ".thock/routines/agents/bridge.toml".
Definition CLIENTS_PATH : str := u ".thock/state/bridge/clients.toml".
Definition PENDING_PATH : str := u ".thock/state/bridge/pending.toml".
Definition PAIR_BODY_LIMIT : nat := 1024.
Definition DEFAULT_PORT : N := 7557.
Definition DEFAULT_BIND : str := u "0.0.0.0".
Definition DEFAULT_TODAY_HEADING : str := u "From your agents".
Definition PAIRING_CODE_MINUTES : Z := 10.
Definition HARNESS_HEADER : str := u "X-Thock-Harness".
Definition SKILL_PATH : str := u "routines/agents/skills/thock-memory/SKILL.md".
Definition AGENTS_DIR : str := u "memory/agents".

(** A second, in the nanoseconds instants are counted in. *)
Definition SECOND : Z := 10 ^ 9.

(** ** Settings and state files *)

Definition quoted (s : str) : str := [34%N] ++ s ++ [34%N].

Record BridgeConfig := mkBridgeConfig {
  port : N;
  bind_address : str;
  config_today_heading : str;
}.

Definition BridgeConfig_default : BridgeConfig :=
  mkBridgeConfig DEFAULT_PORT DEFAULT_BIND DEFAULT_TODAY_HEADING.

Definition BridgeConfig_render (c : BridgeConfig) : str :=
  u "# The Agents Routine's server (V55). The desk serves while this vault is open." ++ [LF]
  ++ u "port = " ++ show_N (port c) ++ [LF]
  ++ u "bind = " ++ quoted (bind_address c) ++ [LF]
  ++ u "# The daily-note section `note_today` appends under." ++ [LF]
  ++ u "today_heading = " ++ quoted (config_today_heading c) ++ [LF].

Record PairedClient := mkPairedClient {
  client_name : str;
  token_sha256 : str;
  paired_at : str;
  last_seen : str;
  last_harness : str;
  paired_via : str;
}.

Record PendingCode := mkPendingCode { code_sha256 : str; expires_at : str }.

Record PairRequest := mkPairRequest { pair_code : str; pair_name : str; pair_version : str }.
Record PairResponse := mkPairResponse { paired_token : str; paired_vault : str; paired_desk : str }.
Record HealthResponse := mkHealthResponse {
  health_vault : str;
  health_desk : str;
  health_version : str;
  health_serving_since : str;
}.

(** [serde_json] and [toml] at the derived instances, and [chrono]'s RFC 3339
    text of an instant, in whole seconds when it is written. *)
Class ServerFormats `{JsonValue} := {
  response_json : str → str; (* [json!({"error": _})] *)
  pair_request_from_slice : list N → option PairRequest;
  pair_response_json : PairResponse → str;
  health_json : HealthResponse → str;
  rpc_response_json : JsonRpcResponse → str;
  from_value_error : json → str;
  parse_config : str → result BridgeConfig str;
  parse_clients : str → result (list PairedClient) str;
  render_clients : list PairedClient → str;
  parse_pending : str → option PendingCode;
  render_pending : PendingCode → str;
  parse_rfc3339 : str → option Z;
  to_rfc3339 : Z → str;
}.

(** What the service's status row shows. *)
Inductive BridgeState :=
  | Off
  | Paused
  | Starting
  | Serving (address : str) (port : N)
  | Failed (port : N) (error : str).

(** ** Tokens and codes *)

Definition sha256_hex `{Digest} (text : str) : str := hex_encode (sha256 (as_bytes text)).

Definition constant_time_eq (left right : str) : bool :=
  let left := as_bytes left in
  let right := as_bytes right in
  if negb (length left =? length right)%nat then false
  else (fold_left (λ (acc : N) (ab : N * N), N.lor acc (N.lxor ab.1 ab.2)) (zip left right) 0 =? 0)%N.

(** [bytes] from the system's random source. *)
Definition generate_token `{Digest} (bytes : list N) : str := hex_encode bytes.

(** [words] chosen from [CODE_WORDS]. *)
Definition generate_code (words : list str) : str := join (u "-") words.

(** ** Requests and answers *)

Definition PAIR_NEEDS : str :=
  u "pair needs {" ++ quoted (u "code") ++ u ", " ++ quoted (u "name") ++ u "}".

Record Incoming := mkIncoming {
  incoming_route : Route;
  incoming_client : option str;
  incoming_harness : str;
  incoming_host : str;
  incoming_body : list N;
}.

Record Outgoing := mkOutgoing { out_status : N; out_content_type : str; out_body : list N }.

Definition out_json (status : N) (body : str) : Outgoing :=
  mkOutgoing status (u "application/json") (as_bytes body).
Definition out_empty (status : N) : Outgoing := mkOutgoing status (u "text/plain") [].

Section server.
Context `{JsonOps} `{ChronoParse} `{!ChronoDays} `{!Clock} `{FsFaults}.
Context `{UnicodeTables} `{Digest} `{SeenJson} `{!ServerFormats}.

Definition out_error (status : N) (message : str) : Outgoing := out_json status (response_json message).

Definition is_expired (now : Z) (code : PendingCode) : bool :=
  match parse_rfc3339 (expires_at code) with Some expires => (expires <=? now)%Z | None => true end.

Definition code_matches (code : str) (p : PendingCode) : bool :=
  constant_time_eq (code_sha256 p) (sha256_hex (trim code)).

(** *** On the connection's thread *)

Definition authenticate (clients : list PairedClient) (head : RequestHead) : option str :=
  let hash := sha256_hex <$> bearer_token (head_headers head) in
  client_name <$>
    find (λ client, is_some_and (λ hash, constant_time_eq hash (token_sha256 client)) hash) clients.

Definition is_host_char (c : char) : bool :=
  is_ascii_alphanumeric c
  || existsb (λ d, c =? d)%N [ch "."; ch ":"; ch "-"; ch "_"; ch "["; ch "]"].

(** The first half of [answer]: whose request this is, before its body. *)
Definition identify (clients : list PairedClient) (head : RequestHead) (route : Route)
  : Outgoing + option str :=
  match route with
  | NotFound => inl (out_error 404 (u "nothing here"))
  | McpNotPost => inl (out_error 405 (u "POST one JSON-RPC request to /mcp"))
  | Pair => inr None
  | _ =>
      match authenticate clients head with
      | Some name => inr (Some name)
      | None => inl (out_error 401 (u "unknown client; pair again from the desk"))
      end
  end.

(** The second half: the body, capped by who is asking. *)
Definition take_body (head : RequestHead) (route : Route) (client : option str) (body : Stream)
  : Outgoing + Incoming :=
  let limit := if is_some client then BODY_LIMIT else PAIR_BODY_LIMIT in
  if (N.of_nat limit <? content_length head)%N
  then inl (out_error 413 (u "that is more than the desk takes in one request"))
  else match read_body body (content_length head) with
    | Err status => inl (out_error status (u "the request's body didn't arrive in time"))
    | Ok (body, _) =>
        inr (mkIncoming route client
               (sanitize_harness (default (u "agent") (header head HARNESS_HEADER)))
               (take 120 (filter (λ c, is_host_char c = true)
                            (default [] (header head (u "host")))))
               body)
    end.

(** [answer], up to the foreground: a reply, or a request for it. *)
Definition answer (clients : list PairedClient) (head : RequestHead) (body : Stream)
  : Outgoing + Incoming :=
  let route := parse_route (head_method head) (head_url head) in
  match identify clients head route with
  | inl reply => inl reply
  | inr client => take_body head route client body
  end.

(** *** On the foreground *)

(** A request's view of the world; [token_bytes] is what the random source would
    give. *)
Record ServerEnv := mkServerEnv {
  desk_env : DeskEnv;
  now : Z;
  token_bytes : list N;
  vault_name : str;
  desk_name : str;
  app_version : str;
}.

Record Server := mkServer {
  server_desk : Desk;
  clients : list PairedClient;
  pending : option PendingCode;
  vault_open : bool;
  serving_since : str;
  clients_write_due : bool; (* a [persist_clients_later] still to run *)
}.

Definition set_desk (d : Desk) (s : Server) : Server :=
  mkServer d (clients s) (pending s) (vault_open s) (serving_since s) (clients_write_due s).
Definition set_clients (cs : list PairedClient) (s : Server) : Server :=
  mkServer (server_desk s) cs (pending s) (vault_open s) (serving_since s) (clients_write_due s).
Definition set_pending (p : option PendingCode) (s : Server) : Server :=
  mkServer (server_desk s) (clients s) p (vault_open s) (serving_since s) (clients_write_due s).
Definition set_write_due (due : bool) (s : Server) : Server :=
  mkServer (server_desk s) (clients s) (pending s) (vault_open s) (serving_since s) due.

Definition with_identity (id : ClientIdentity) (env : DeskEnv) : DeskEnv :=
  mkDeskEnv id (env_today env) (env_time env) (utc_now env) (root env) (canonicalize env)
    (env_vault env) (index_lines env) (today_heading env) (symlinks env) (behind_link env)
    (base_context env).

Definition today_of (env : ServerEnv) : NaiveDate := env_today (desk_env env).

(** The writes of [clients.toml] asked for so far, one after the other: each
    renders the list as it is when it runs, so all of them write this. *)
Definition persist_clients (env : ServerEnv) (s : Server) : Server * result unit FsError :=
  let '(files, r) :=
    write_state_file CLIENTS_PATH SEEN_DIR (render_clients (clients s)) (today_of env)
      (desk_files (server_desk s)) in
  (set_write_due false (set_desk (with_files files (server_desk s)) s), r).

(** [persist_clients_later], and the write it leaves for later. *)
Definition persist_clients_later (s : Server) : Server := set_write_due true s.
Definition run_clients_write (env : ServerEnv) (s : Server) : Server :=
  if clients_write_due s then (persist_clients env s).1 else s.

(** [name.len()] is in bytes. *)
Definition plain_host_name (name : str) : bool :=
  (name != []) && (utf8_len name <=? 64)%nat && negb (starts_with (u ".") name)
  && forallb (λ c, is_ascii_alphanumeric c || existsb (λ d, c =? d)%N [ch "-"; ch "_"; ch "."]) name.

Definition not_named (name : str) (client : PairedClient) : Prop := client_name client ≠ name.
#[export] Instance not_named_dec name client : Decision (not_named name client).
Proof. unfold not_named. apply _. Defined.

Definition remove_pending_file (s : Server) : Server :=
  set_desk (with_files (fs_remove_file PENDING_PATH (desk_files (server_desk s))).1 (server_desk s)) s.

Definition handle_pair (env : ServerEnv) (body : list N) (host : str) (s : Server)
  : Server * Outgoing :=
  match pair_request_from_slice body with
  | None => (s, out_error 400 PAIR_NEEDS)
  | Some request =>
      let name := trim (pair_name request) in
      if negb (plain_host_name name)
      then (s, out_error 400 (u "the client's name must be a plain host name"))
      else
        let refuse s := (s, out_error 410 (u "that code was already used or has expired")) in
        match pending s with
        | None => refuse s
        | Some code =>
            if is_expired (now env) code then refuse (set_pending None s)
            else if negb (code_matches (pair_code request) code)
            then (s, out_error 403 (u "that is not the code on the desk"))
            else
              let token := generate_token (token_bytes env) in
              let at_ := to_rfc3339 (now env) in
              let client := mkPairedClient name (sha256_hex token) at_ at_ [] host in
              let s := set_clients (filter (not_named name) (clients s) ++ [client])
                         (set_pending None s) in
              match persist_clients env s with
              | (s, Err _) => (s, out_error 500 (u "the desk couldn't record the pairing"))
              | (s, Ok _) =>
                  (remove_pending_file s,
                   out_json 200 (pair_response_json
                     (mkPairResponse token (vault_name env) (desk_name env))))
              end
        end
  end.

Definition handle_mcp (env : ServerEnv) (incoming : Incoming) (s : Server) : Server * Outgoing :=
  match JsonRpcRequest_parse from_value_error (from_utf8_lossy (incoming_body incoming)) with
  | Err error => (s, out_json 400 (rpc_response_json error))
  | Ok request =>
      if is_notification request then (s, out_empty 202)
      else match incoming_client incoming with
        | None => (s, out_error 401 (u "unknown client; pair again from the desk"))
        | Some client =>
            let identity := ClientIdentity_new (incoming_harness incoming) client in
            let '(d, response) :=
              @dispatch _ _ _ _ Desk (DeskHost (with_identity identity (desk_env env)))
                (server_desk s) request (app_version env) in
            (set_desk d s,
             match response with
             | Some response => out_json 200 (rpc_response_json response)
             | None => out_empty 202
             end)
        end
  end.

Definition agent_file_path (harness client path : str) : str :=
  AGENTS_DIR ++ u "/" ++ sanitize_harness harness ++ u "/" ++ client ++ u "/" ++ path.

Definition handle_agent_file (env : ServerEnv) (client : option str) (harness path : str)
    (body : list N) (s : Server) : Server * Outgoing :=
  match client with
  | None => (s, out_error 401 (u "unknown client; pair again from the desk"))
  | Some client =>
      if (MIRROR_MAX_BYTES <? N.of_nat (length body))%N
      then (s, out_error 413 (u "mirrored files stay under 1 MiB"))
      else if negb (is_mirrored_path path)
      then (s, out_error 400 (u "only .md, .txt and .json files at plain paths are mirrored"))
      else
        let relative := agent_file_path harness client path in
        if match validate_vault_path relative with Ok _ => false | Err _ => true end
        then (s, out_error 400 (u "that path can't live in the vault"))
        else if negb (resolves_inside (canonicalize (desk_env env)) (root (desk_env env))
                        (split_char SLASH relative))
        then (s, out_error 400 (u "that path points outside the vault"))
        else match from_utf8 body with
          | None => (s, out_error 400 (u "mirrored files must be UTF-8 text"))
          | Some text =>
              let d := server_desk s in
              match find_unkeepable text (load_forbidden_topics d) with
              | Some reason =>
                  (s, out_error 422 (path ++ u ": " ++ reason ++ u "; the vault doesn't keep it"))
              | None =>
                  if fs_is_file relative (desk_files d)
                     && match fs_load relative (desk_files d) with Ok old => old == text | Err _ => false end
                  then (s, out_empty 204)
                  else
                    let d := take_checkpoint d in
                    let written :=
                      match fs_create_dir (parent relative) with
                      | Err e => (desk_files d, Err e)
                      | Ok _ => fs_atomic_write relative text (today_of env) (desk_files d)
                      end in
                    (set_desk (with_files written.1 d) s,
                     match written.2 with
                     | Ok _ => out_empty 204
                     | Err _ => out_error 500 (u "the desk couldn't write the file")
                     end)
              end
          end
  end.

(** The first client of a name, changed; whether there is one. *)
Fixpoint update_client (name : str) (f : PairedClient → PairedClient) (cs : list PairedClient)
  : option (PairedClient * list PairedClient) :=
  match cs with
  | [] => None
  | client :: cs =>
      if client_name client == name then Some (client, f client :: cs)
      else prod_map id (cons client) <$> update_client name f cs
  end.

(** [num_seconds] rounds towards zero. *)
Definition touch_client (env : ServerEnv) (name harness : str) (s : Server) : Server * bool :=
  let touched client :=
    mkPairedClient (client_name client) (token_sha256 client) (paired_at client)
      (to_rfc3339 (now env)) harness (paired_via client) in
  match update_client name touched (clients s) with
  | None => (s, false)
  | Some (client, cs) =>
      let stale :=
        match parse_rfc3339 (last_seen client) with
        | Some seen => (60 <=? Z.quot (now env - seen) SECOND)%Z
        | None => true
        end in
      (set_clients cs s, stale || (last_harness client != harness))
  end.

Definition handle_skill (s : Server) : Outgoing :=
  match fs_load SKILL_PATH (desk_files (server_desk s)) with
  | Ok text => mkOutgoing 200 (u "text/markdown") (as_bytes text)
  | Err _ => out_error 404 (u "the vault has no thock-memory skill")
  end.

(** The match of [handle_incoming]. *)
Definition handle_route (env : ServerEnv) (incoming : Incoming) (s : Server) : Server * Outgoing :=
  match incoming_route incoming with
  | Pair => handle_pair env (incoming_body incoming) (incoming_host incoming) s
  | Health =>
      (s, out_json 200 (health_json (mkHealthResponse (vault_name env) (desk_name env)
             (app_version env) (serving_since s))))
  | Mcp => handle_mcp env incoming s
  | McpNotPost => (s, out_error 405 (u "POST one JSON-RPC request to /mcp"))
  | Skill => (s, handle_skill s)
  | AgentFile harness path =>
      handle_agent_file env (incoming_client incoming) harness path (incoming_body incoming) s
  | NotFound => (s, out_error 404 (u "nothing here"))
  end.

Definition handle_incoming (env : ServerEnv) (incoming : Incoming) (s : Server)
  : Server * Outgoing :=
  if negb (vault_open s) then (s, out_error 503 (u "the vault is closed"))
  else
    let '(s, reply) := handle_route env incoming s in
    match incoming_client incoming with
    | None => (s, reply)
    | Some name =>
        let '(s, persist) := touch_client env name (incoming_harness incoming) s in
        (if persist then persist_clients_later s else s, reply)
    end.

(** *** From the desk's own panel *)

(** [begin_pairing], in the service's [state]: the code is live before its file
    is written. *)
Definition begin_pairing (env : ServerEnv) (words : list str) (state : BridgeState) (s : Server)
  : Server * result str FsError :=
  if negb (vault_open s) then (s, Err [u "this workspace isn't a vault"])
  else match state with
  | Failed _ error => (s, Err [u "the desk isn't serving: " ++ error])
  | Off | Paused | Starting => (s, Err [u "the desk isn't serving yet; try again in a moment"])
  | Serving _ _ =>
    let code := generate_code words in
    let p := mkPendingCode (sha256_hex code)
               (to_rfc3339 (now env + PAIRING_CODE_MINUTES * 60 * SECOND)) in
    let s := set_pending (Some p) s in
    let '(files, r) :=
      write_state_file PENDING_PATH SEEN_DIR (render_pending p) (today_of env)
        (desk_files (server_desk s)) in
    (set_desk (with_files files (server_desk s)) s,
     match r with Ok _ => Ok code | Err e => Err e end)
  end.

Definition disconnect (name : str) (s : Server) : Server :=
  persist_clients_later (set_clients (filter (not_named name) (clients s)) s).

(** *** Starting *)

Definition config_dir : str := u ".thock/routines/agents".

Definition load_parsed {A} (path : str) (parse : str → result A str) (files : Store)
  : result A FsError :=
  raw ←! fs_load path files;
  with_context (u "reading " ++ path)
    (match parse raw with Ok a => Ok a | Err message => Err [message] end).

Definition load_server_files (env : ServerEnv) (files : Store)
  : Store * result (BridgeConfig * list PairedClient * option PendingCode) FsError :=
  let '(files, config) :=
    if fs_is_file BRIDGE_CONFIG_PATH files
    then (files, load_parsed BRIDGE_CONFIG_PATH parse_config files)
    else
      let '(files, r) :=
        write_state_file BRIDGE_CONFIG_PATH config_dir (BridgeConfig_render BridgeConfig_default)
          (today_of env) files in
      (files, match r with Ok _ => Ok BridgeConfig_default | Err e => Err e end) in
  (files,
   config ←! config;
   clients ←! (if fs_is_file CLIENTS_PATH files then load_parsed CLIENTS_PATH parse_clients files
               else Ok []);
   pending ←! (if fs_is_file PENDING_PATH files
               then raw ←! fs_load PENDING_PATH files;
                    Ok (match parse_pending raw with
                        | Some p => if is_expired (now env) p then None else Some p
                        | None => None
                        end)
               else Ok None);
   Ok (config, clients, pending)).

(** What a start does with the files it loaded. *)
Definition install (loaded : BridgeConfig * list PairedClient * option PendingCode) (s : Server)
  : Server :=
  set_pending loaded.2 (set_clients loaded.1.2 s).
End server.
