(* ===== verification/Listener.v ===== *)
(** * The accept loop and its workers ([thock/bridge_service.rs], [listen],
    [release_preauth], [handle_connection])

    Every connection has a thread of its own; two counters, shared between the
    threads, keep strangers from taking them all. The loop and the workers take
    their steps in any order. *)

From stdpp Require Import gmap relations.
From S2P Require Import Prelude.

Definition MAX_WORKERS : nat := 16.
Definition MAX_PREAUTH_PER_IP : nat := 2.

Section listener.
Context {IpAddr : Type} `{Countable IpAddr}.
Implicit Types (ip : IpAddr).

Definition release_preauth (ip : IpAddr) (counts : gmap IpAddr nat) : gmap IpAddr nat :=
  match counts !! ip with
  | Some count =>
      let count := count - 1 in
      if (count =? 0)%nat then delete ip counts else <[ip := count]> counts
  | None => counts
  end.

(** The locked part of an accept: whether the address has too many already, and
    the counters after it. *)
Definition take_preauth (ip : IpAddr) (counts : gmap IpAddr nat) : bool * gmap IpAddr nat :=
  let count := default 0 (counts !! ip) in
  if (MAX_PREAUTH_PER_IP <=? count)%nat then (true, <[ip := count]> counts)
  else (false, <[ip := count + 1]> counts).

(** A worker's connection: the peer, and whether its slot was released. *)
Record Connection := mkConnection { peer : IpAddr; released : bool }.

(** Where the loop of [listen] is with the connection it accepted. *)
Inductive AcceptPhase :=
  | Accepting
  | BelowWorkers (ip : IpAddr) (* past the check of the workers *)
  | SlotTaken (ip : IpAddr)
  | WorkerCounted (ip : IpAddr)
  | SpawnFailed (ip : IpAddr) (* the worker is uncounted, the slot is not *)
  | Stopped.

Record ListenerState := mkListenerState {
  workers : nat;
  preauth : gmap IpAddr nat;
  connections : list Connection;
  phase : AcceptPhase;
}.

Definition listener_start : ListenerState := mkListenerState 0 ∅ [] Accepting.

(** What the loop does next. Accepting answers 503 and goes on when the desk is
    busy; [shutdown] and [spawned] are the environment's. *)
Definition accept (ip : IpAddr) (shutdown : bool) (l : ListenerState) : ListenerState :=
  if shutdown then mkListenerState (workers l) (preauth l) (connections l) Stopped
  else if (MAX_WORKERS <=? workers l)%nat then l
  else mkListenerState (workers l) (preauth l) (connections l) (BelowWorkers ip).

Definition take_slot (ip : IpAddr) (l : ListenerState) : ListenerState :=
  let '(too_many, counts) := take_preauth ip (preauth l) in
  mkListenerState (workers l) counts (connections l) (if too_many then Accepting else SlotTaken ip).

Definition count_worker (ip : IpAddr) (l : ListenerState) : ListenerState :=
  mkListenerState (workers l + 1) (preauth l) (connections l) (WorkerCounted ip).

Definition spawn (ip : IpAddr) (spawned : bool) (l : ListenerState) : ListenerState :=
  if spawned
  then mkListenerState (workers l) (preauth l) (connections l ++ [mkConnection ip false]) Accepting
  else mkListenerState (workers l - 1) (preauth l) (connections l) (SpawnFailed ip).

Definition spawn_failed (ip : IpAddr) (l : ListenerState) : ListenerState :=
  mkListenerState (workers l) (release_preauth ip (preauth l)) (connections l) Accepting.

(** The closure [release] of worker [i]: once, the first time it is called. *)
Definition release (i : nat) (l : ListenerState) : ListenerState :=
  match connections l !! i with
  | Some c =>
      if released c then l
      else mkListenerState (workers l) (release_preauth (peer c) (preauth l))
             (<[i := mkConnection (peer c) true]> (connections l)) (phase l)
  | None => l
  end.

(** The end of worker [i]. *)
Definition finish (i : nat) (l : ListenerState) : ListenerState :=
  mkListenerState (workers l - 1) (preauth l) (delete i (connections l)) (phase l).

(** Workers release when the token checks out or when the answer is ready, in
    any case before they write it and end. *)
Inductive listener_step : ListenerState → ListenerState → Prop :=
  | step_accept l ip shutdown :
      phase l = Accepting → listener_step l (accept ip shutdown l)
  | step_take_slot l ip : phase l = BelowWorkers ip → listener_step l (take_slot ip l)
  | step_count_worker l ip : phase l = SlotTaken ip → listener_step l (count_worker ip l)
  | step_spawn l ip spawned : phase l = WorkerCounted ip → listener_step l (spawn ip spawned l)
  | step_spawn_failed l ip : phase l = SpawnFailed ip → listener_step l (spawn_failed ip l)
  | step_release l i : i < length (connections l) → listener_step l (release i l)
  | step_finish l i c :
      connections l !! i = Some c → released c = true → listener_step l (finish i l).

Definition listening (l : ListenerState) : Prop := rtc listener_step listener_start l.

(** ** The counters are exact *)

(** The slots of an address in use: connections not released, and the one the
    loop is about to hand over. *)
Definition holds (ip : IpAddr) (c : Connection) : Prop := peer c = ip ∧ released c = false.
#[export] Instance holds_dec ip c : Decision (holds ip c).
Proof. unfold holds. apply _. Defined.

Definition unreleased (ip : IpAddr) (cs : list Connection) : nat := length (filter (holds ip) cs).

Definition slot_in_loop (ip : IpAddr) (p : AcceptPhase) : nat :=
  match p with
  | SlotTaken ip' | WorkerCounted ip' | SpawnFailed ip' => if decide (ip' = ip) then 1 else 0
  | _ => 0
  end.

Definition worker_in_loop (p : AcceptPhase) : nat := match p with WorkerCounted _ => 1 | _ => 0 end.

Record counters_exact (l : ListenerState) : Prop := {
  workers_exact : workers l = length (connections l) + worker_in_loop (phase l);
  preauth_exact ip : default 0 (preauth l !! ip) = unreleased ip (connections l) + slot_in_loop ip (phase l);
  preauth_positive ip n : preauth l !! ip = Some n → 0 < n ≤ MAX_PREAUTH_PER_IP;
  workers_bounded : workers l ≤ MAX_WORKERS;
  workers_room ip : phase l = BelowWorkers ip ∨ phase l = SlotTaken ip → workers l < MAX_WORKERS;
}.

Lemma unreleased_app ip cs cs' : unreleased ip (cs ++ cs') = unreleased ip cs + unreleased ip cs'.
Proof. unfold unreleased. by rewrite filter_app, length_app. Qed.

Lemma unreleased_one ip c : unreleased ip [c] = if decide (holds ip c) then 1 else 0.
Proof. unfold unreleased. rewrite filter_cons, filter_nil. by destruct (decide _). Qed.

Lemma unreleased_cons ip c cs : unreleased ip (c :: cs) = unreleased ip [c] + unreleased ip cs.
Proof. exact (unreleased_app ip [c] cs). Qed.

Lemma unreleased_lookup ip cs i c :
  cs !! i = Some c →
  unreleased ip cs = unreleased ip (take i cs) + unreleased ip [c] + unreleased ip (drop (S i) cs).
Proof.
  intros Hi. rewrite <- (take_drop_middle cs i c Hi) at 1.
  rewrite unreleased_app, unreleased_cons. lia.
Qed.

Lemma unreleased_release ip cs i c :
  cs !! i = Some c → released c = false →
  unreleased ip (<[i := mkConnection (peer c) true]> cs) + (if decide (peer c = ip) then 1 else 0) =
  unreleased ip cs.
Proof.
  intros Hi Hr. rewrite (unreleased_lookup ip cs i c Hi).
  rewrite insert_take_drop by (by eapply lookup_lt_Some).
  rewrite unreleased_app, unreleased_cons, !unreleased_one. unfold holds. cbn [peer released].
  destruct (decide (peer c = ip ∧ true = false)) as [[_ ?]|]; [done|].
  destruct (decide (peer c = ip)), (decide (peer c = ip ∧ released c = false)); try lia; naive_solver.
Qed.

Lemma unreleased_delete ip cs i c :
  cs !! i = Some c → released c = true → unreleased ip (delete i cs) = unreleased ip cs.
Proof.
  intros Hi Hr. rewrite (unreleased_lookup ip cs i c Hi), delete_take_drop, unreleased_app, unreleased_one.
  destruct (decide (holds ip c)) as [[_ ?]|]; [congruence|lia].
Qed.

(** Giving a held slot back. *)
Lemma release_preauth_spec ip ip' counts :
  0 < default 0 (counts !! ip) →
  (∀ ip n, counts !! ip = Some n → 0 < n ≤ MAX_PREAUTH_PER_IP) →
  default 0 (release_preauth ip counts !! ip') + (if decide (ip = ip') then 1 else 0) =
    default 0 (counts !! ip') ∧
  ∀ n, release_preauth ip counts !! ip' = Some n → 0 < n ≤ MAX_PREAUTH_PER_IP.
Proof.
  intros Hpos Hb. unfold release_preauth. destruct (counts !! ip) as [count|] eqn:E; [|simpl in Hpos; lia].
  pose proof (Hb _ _ E) as Hc. destruct (Nat.eqb_spec (count - 1) 0) as [Hz|Hz].
  - destruct (decide (ip = ip')) as [<-|Hne].
    + rewrite lookup_delete_eq, E. simpl. split; [lia|done].
    + rewrite lookup_delete_ne by done. split; [lia|apply Hb].
  - destruct (decide (ip = ip')) as [<-|Hne].
    + rewrite lookup_insert_eq, E. simpl. split; [lia|]. intros n [= <-]. lia.
    + rewrite lookup_insert_ne by done. split; [lia|apply Hb].
Qed.

Lemma counters_start : counters_exact listener_start.
Proof. split; cbn; try done; [lia|]. by intros ip [|]. Qed.

(** A slot given back, whoever held it. *)
Lemma release_exact ip l cs (held : IpAddr → nat) :
  (∀ ip', default 0 (preauth l !! ip') = held ip' + (if decide (ip = ip') then 1 else 0)) →
  (∀ ip n, preauth l !! ip = Some n → 0 < n ≤ MAX_PREAUTH_PER_IP) →
  ∀ l', l' = mkListenerState (workers l) (release_preauth ip (preauth l)) cs (phase l) →
  (∀ ip', default 0 (preauth l' !! ip') = held ip') ∧
  (∀ ip n, preauth l' !! ip = Some n → 0 < n ≤ MAX_PREAUTH_PER_IP).
Proof.
  intros Hheld Hb l' ->. cbn [preauth].
  assert (0 < default 0 (preauth l !! ip)) as Hpos
    by (rewrite Hheld; rewrite decide_True by done; lia).
  split.
  - intros ip'. destruct (release_preauth_spec ip ip' (preauth l) Hpos Hb) as [He _].
    rewrite Hheld in He. lia.
  - intros ip'. by apply release_preauth_spec.
Qed.

Ltac counters :=
  unfold count_worker, finish, spawn_failed in *;
  cbn [workers preauth connections phase slot_in_loop worker_in_loop] in *.

Lemma step_exact l l' : listener_step l l' → counters_exact l → counters_exact l'.
Proof.
  intros Hstep [Hw Hp Hb Hm Hr].
  destruct Hstep as [l ip shutdown Ha|l ip Ha|l ip Ha|l ip spawned Ha|l ip Ha|l i Hi|l i c Hi Hc].
  - unfold accept. rewrite Ha in *. destruct shutdown; [|destruct (Nat.leb_spec MAX_WORKERS (workers l))].
    + split; counters; try done; by intros ? [|].
    + split; rewrite ?Ha; done.
    + split; counters; done || lia.
  - assert (workers l < MAX_WORKERS) as Hroom by (apply (Hr ip); by left).
    unfold take_slot, take_preauth. rewrite Ha in *.
    destruct (Nat.leb_spec MAX_PREAUTH_PER_IP (default 0 (preauth l !! ip))) as [Hle|Hlt].
    + assert (<[ip:=default 0 (preauth l !! ip)]> (preauth l) = preauth l) as ->.
      { destruct (preauth l !! ip) as [n|] eqn:E; [by rewrite insert_id|]. unfold MAX_PREAUTH_PER_IP in Hle.
        simpl in Hle. lia. }
      split; counters; try done; by intros ? [|].
    + split; counters; try done.
      * intros ip'. specialize (Hp ip'). destruct (decide (ip = ip')) as [<-|Hne].
        -- rewrite lookup_insert_eq, ?decide_True by done. cbn [from_option] in *. unfold id in *. lia.
        -- rewrite lookup_insert_ne, ?decide_False by done. lia.
      * intros ip' n. destruct (decide (ip = ip')) as [<-|Hne].
        -- rewrite lookup_insert_eq. intros [= <-]. lia.
        -- rewrite lookup_insert_ne by done. apply Hb.
  - assert (workers l < MAX_WORKERS) as Hroom by (apply (Hr ip); by right).
    rewrite Ha in *. split; counters; try done; try lia; by intros ? [|].
  - rewrite Ha in *. unfold spawn. destruct spawned; split; counters; try done; try lia;
      try (by intros ? [|]).
    + rewrite length_app. simpl. lia.
    + intros ip'. rewrite Hp, unreleased_app, unreleased_one. unfold holds. cbn [peer released].
      destruct (decide (ip = ip')), (decide (ip = ip' ∧ false = false)); try lia; naive_solver.
  - rewrite Ha in *. counters.
    destruct (release_exact ip l (connections l) (λ ip', unreleased ip' (connections l)) Hp Hb _ eq_refl)
      as [Hp' Hb'].
    split; counters; try done; [|by intros ? [|]]. intros ip'. rewrite Hp'. lia.
  - unfold release. destruct (connections l !! i) as [c|] eqn:E; [|by split].
    destruct (released c) eqn:Er; [by split|].
    destruct (release_exact (peer c) l (<[i := mkConnection (peer c) true]> (connections l))
      (λ ip', unreleased ip' (<[i := mkConnection (peer c) true]> (connections l)) + slot_in_loop ip' (phase l)))
      with (l' := release i l) as [Hp' Hb'].
    { intros ip'. rewrite Hp. pose proof (unreleased_release ip' _ _ _ E Er). lia. }
    { done. }
    { unfold release. by rewrite E, Er. }
    unfold release in Hp', Hb'. rewrite E, Er in Hp', Hb'.
    split; counters; try done. by rewrite length_insert.
  - assert (length (connections l) = S (length (delete i (connections l)))) as Hlen.
    { rewrite length_delete by (by eexists). apply lookup_lt_Some in Hi. lia. }
    split; counters; try done.
    + lia.
    + intros ip'. rewrite Hp. by rewrite (unreleased_delete _ _ _ _ Hi Hc).
    + lia.
    + intros ip Hph. specialize (Hr ip Hph). lia.
Qed.

Lemma listening_exact l : listening l → counters_exact l.
Proof.
  unfold listening. intros Hl. pose proof counters_start as Hs.
  induction Hl as [l|l l1 l2 Hstep _ IH]; [done|]. apply IH. by eapply step_exact.
Qed.

(** C29: strangers cannot take the desk over. However connections arrive, release
    their slots and end, in any order, there are never more than sixteen workers
    and never more than two connections of one address that have not shown a
    token; the counters that decide it are exactly those numbers. *)
Theorem strangers_are_bounded l :
  listening l →
  length (connections l) ≤ workers l ≤ MAX_WORKERS ∧
  (∀ ip, unreleased ip (connections l) ≤ MAX_PREAUTH_PER_IP) ∧
  (phase l = Accepting →
     workers l = length (connections l) ∧
     ∀ ip, default 0 (preauth l !! ip) = unreleased ip (connections l)).
Proof.
  intros [Hw Hp Hb Hm _]%listening_exact. split_and!.
  - lia.
  - done.
  - intros ip. specialize (Hp ip). destruct (preauth l !! ip) as [n|] eqn:E; simpl in Hp; [|lia].
    apply Hb in E. lia.
  - intros Ha. rewrite Ha in *. cbn in *. split; [lia|]. intros ip. rewrite Hp. lia.
Qed.

(** Every worker ends: it releases its slot, then leaves. *)
Lemma workers_end l :
  ∃ l', rtc listener_step l l' ∧ connections l' = [] ∧ phase l' = phase l.
Proof.
  remember (length (connections l)) as n eqn:Hn. revert l Hn.
  induction n as [|n IH]; intros l Hn.
  { exists l. split_and!; [done|by destruct (connections l)|done]. }
  destruct (connections l) as [|c cs] eqn:E; [done|].
  set (l1 := release 0 l).
  assert (listener_step l l1) as Hs1 by (apply step_release; rewrite E; simpl; lia).
  assert (connections l1 = mkConnection (peer c) true :: cs ∧ phase l1 = phase l) as [E1 Ep].
  { subst l1. unfold release. rewrite E. cbn [lookup list_lookup]. destruct (released c) eqn:Er.
    - split; [|done]. rewrite E. by destruct c; cbn in *; subst.
    - done. }
  set (l2 := finish 0 l1).
  assert (listener_step l1 l2) as Hs2 by (eapply step_finish; [by rewrite E1|done]).
  destruct (IH l2) as (l' & Hl' & Hc & Hph).
  { subst l2. cbn. rewrite E1. cbn. simpl in Hn. congruence. }
  exists l'. split_and!; [|done|by rewrite Hph].
  eapply rtc_l; [done|]. by eapply rtc_l.
Qed.

(** No slot is ever lost: from any point a desk can come to, when its workers
    end, no worker is counted and no address is held against anyone, so every
    address is let in again. *)
Theorem slots_come_back l :
  listening l → phase l = Accepting →
  ∃ l', rtc listener_step l l' ∧ workers l' = 0 ∧ preauth l' = ∅ ∧
    ∀ ip, phase (take_slot ip (accept ip false l')) = SlotTaken ip.
Proof.
  intros Hl Ha. destruct (workers_end l) as (l' & Hsteps & Hc & Hp).
  assert (listening l') as Hl' by (unfold listening; by etrans).
  apply listening_exact in Hl' as [Hw Hpre Hb _ _]. rewrite Hc, Hp, Ha in *. cbn in Hw.
  assert (preauth l' = ∅) as Hempty.
  { apply map_eq. intros ip. rewrite lookup_empty. destruct (preauth l' !! ip) as [n|] eqn:E; [|done].
    specialize (Hpre ip). rewrite E in Hpre. apply Hb in E. cbn in Hpre. lia. }
  exists l'. split_and!; [done|done|done|]. intros ip. unfold accept. rewrite Hw.
  cbn [Nat.leb MAX_WORKERS]. unfold take_slot, take_preauth. cbn [preauth]. rewrite Hempty, lookup_empty. done.
Qed.
End listener.
