(* ===== verification/Lifecycle.v ===== *)
(** * When the desk serves ([thock/bridge_service.rs], [BridgeService])

    The service as a state machine: the vault it looks at, the Routine's switch,
    the pause, the listener and the tasks that start and stop it. A task is the
    step it will take next on the foreground; dropping it is its cancellation. *)

From S2P Require Import Prelude Strings External Dates Rules NoteIndex Rpc Http Server.

(** ** State *)

Definition state_label (state : BridgeState) (client_count : nat) : str :=
  match state with
  | Off => u "Off"
  | Paused => u "Paused"
  | Starting => u "Starting" ++ [0x2026%N]
  | Serving address port =>
      let agents :=
        match client_count with
        | 0 => u "no agents yet"
        | 1 => u "1 agent"
        | n => show_N (N.of_nat n) ++ u " agents"
        end in
      u "Serving on " ++ address ++ u ":" ++ show_N port ++ u " " ++ [0xB7%N] ++ u " " ++ agents
  | Failed port error => u "Not serving: " ++ error ++ u " (port " ++ show_N port ++ u ")"
  end.

(** The start task: waiting for earlier listeners, or reading the files of the
    vault it was started for. *)
Inductive StartTask :=
  | WaitingForStop (root : str) (port : N)
  | Loading (root : str).

Record Service := mkService {
  vault_root : option str;
  enabled : bool;
  paused : bool;
  state : BridgeState;
  config : BridgeConfig;
  service_clients : list PairedClient;
  service_pending : option PendingCode;
  listener : bool;
  start_task : option StartTask;
  joining : bool; (* a stopped listener's thread has not ended yet *)
  config_reads : list str; (* vaults whose [bridge.toml] is being read again *)
  index_of : option str; (* the vault whose notes the index holds *)
  seen_of : option str; (* the vault whose record of calls was read *)
}.

(** [BridgeService::bare] *)
Definition service_bare : Service :=
  mkService None false false Off BridgeConfig_default [] None false None false [] None None.

(** ** Operations *)

Definition stop (to : BridgeState) (s : Service) : Service :=
  mkService (vault_root s) (enabled s) (paused s) to (config s) (service_clients s)
    (service_pending s) false None (joining s || listener s) (config_reads s) (index_of s) (seen_of s).

Definition with_start (task : option StartTask) (to : BridgeState) (s : Service) : Service :=
  mkService (vault_root s) (enabled s) (paused s) to (config s) (service_clients s)
    (service_pending s) (listener s) task (joining s) (config_reads s) (index_of s) (seen_of s).

(** A stop already over makes nobody wait. *)
Definition start (s : Service) : Service :=
  match vault_root s with
  | None => s
  | Some root =>
      with_start (Some (if joining s then WaitingForStop root (port (config s)) else Loading root))
        Starting s
  end.

Definition should_serve (s : Service) : bool := is_some (vault_root s) && enabled s && negb (paused s).

Definition apply_state (s : Service) : Service :=
  if negb (should_serve s) then stop (if enabled s && paused s then Paused else Off) s
  else if listener s || is_some (start_task s) then s
  else start s.

Definition toggle (s : Service) : Service :=
  apply_state
    (mkService (vault_root s) (enabled s) (negb (paused s)) (state s) (config s) (service_clients s)
       (service_pending s) (listener s) (start_task s) (joining s) (config_reads s) (index_of s)
       (seen_of s)).

(** [reload], with the vault [Vault::detect] finds and its switch. *)
Definition reload (vault : option (str * bool)) (s : Service) : Service :=
  let root := fst <$> vault in
  let changed_root := negb (bool_decide (vault_root s = root)) in
  let s :=
    mkService root (is_some_and snd vault) (paused s) (state s) (config s) (service_clients s)
      (service_pending s) (listener s) (start_task s) (joining s) (config_reads s) (index_of s)
      (seen_of s) in
  let s :=
    if changed_root then
      let s := stop Off s in
      mkService (vault_root s) (enabled s) (paused s) (state s) (config s) (service_clients s)
        (service_pending s) (listener s) (start_task s) (joining s) (config_reads s) None None
    else s in
  apply_state s.

(** What the operating system says to [TcpListener::bind] and [local_addr], with the
    port bound, and to the spawn of the thread. *)
Inductive BindResult :=
  | Bound (port : N)
  | AddrInUse
  | BindError (error : str)
  | SpawnFailed (port : N) (error : str).

Definition bind (desk_name : str) (result : BindResult) (s : Service) : Service :=
  match result with
  | Bound port =>
      mkService (vault_root s) (enabled s) (paused s) (Serving desk_name port) (config s)
        (service_clients s) (service_pending s) true (start_task s) (joining s) (config_reads s)
        (index_of s) (seen_of s)
  | AddrInUse =>
      let port := port (config s) in
      with_start (start_task s) (Failed port (u "port " ++ show_N port ++ u " is in use")) s
  | BindError error => with_start (start_task s) (Failed (port (config s)) error) s
  | SpawnFailed port error =>
      with_start (start_task s) (Failed port (u "couldn't start its thread: " ++ error)) s
  end.

(** The start task goes on: earlier listeners have ended, or five seconds are up. *)
Definition start_waited (ended : bool) (s : Service) : Service :=
  match start_task s with
  | Some (WaitingForStop root port) =>
      if ended
      then if joining s then s else with_start (Some (Loading root)) (state s) s
      else with_start None
             (Failed port (u "the previous listener hasn't stopped yet; try Toggle Bridge again")) s
  | _ => s
  end.

Definition loaded : Type := BridgeConfig * list PairedClient * option PendingCode.

(** The files are read. *)
Definition start_loaded (desk_name : str) (files : result loaded str) (bound : BindResult)
    (s : Service) : Service :=
  match start_task s with
  | Some (Loading root) =>
      let s := with_start None (state s) s in
      match files with
      | Ok (config, clients, pending) =>
          bind desk_name bound
            (mkService (vault_root s) (enabled s) (paused s) (state s) config clients pending
               (listener s) (start_task s) (joining s) (config_reads s) (index_of s) (seen_of s))
      | Err error =>
          with_start None
            (Failed (port (config s)) (u "couldn't read its settings: " ++ error)) s
      end
  | _ => s
  end.

(** [reload_bridge_config] *)
Definition reload_bridge_config (s : Service) : Service :=
  if negb (listener s) then apply_state s
  else match vault_root s with
    | None => s
    | Some root =>
        mkService (vault_root s) (enabled s) (paused s) (state s) (config s) (service_clients s)
          (service_pending s) (listener s) (start_task s) (joining s) (config_reads s ++ [root])
          (index_of s) (seen_of s)
    end.

(** The [i]-th of those reads ends: [None] for a file that cannot be parsed. *)
Definition config_read (i : nat) (read : option BridgeConfig) (s : Service) : Service :=
  match config_reads s !! i with
  | None => s
  | Some _ =>
      let keep config' s :=
        mkService (vault_root s) (enabled s) (paused s) (state s) config' (service_clients s)
          (service_pending s) (listener s) (start_task s) (joining s) (delete i (config_reads s))
          (index_of s) (seen_of s) in
      match read with
      | None => keep (config s) s
      | Some new =>
          let rebind :=
            negb (port new =? port (config s))%N || (bind_address new != bind_address (config s)) in
          let s := keep new s in
          if rebind then apply_state (stop Starting s) else s
      end
  end.

Definition listener_ended (s : Service) : Service :=
  mkService (vault_root s) (enabled s) (paused s) (state s) (config s) (service_clients s)
    (service_pending s) (listener s) (start_task s) false (config_reads s) (index_of s) (seen_of s).

(** A request served builds the index, or reads the record of calls. *)
Definition index_built (s : Service) : Service :=
  if listener s then
    mkService (vault_root s) (enabled s) (paused s) (state s) (config s) (service_clients s)
      (service_pending s) (listener s) (start_task s) (joining s) (config_reads s) (vault_root s)
      (seen_of s)
  else s.
Definition seen_read (s : Service) : Service :=
  if listener s then
    mkService (vault_root s) (enabled s) (paused s) (state s) (config s) (service_clients s)
      (service_pending s) (listener s) (start_task s) (joining s) (config_reads s) (index_of s)
      (vault_root s)
  else s.

(** ** Events of the project *)

Definition VAULT_CONFIG : str := u ".thock/config.toml".

(** What the changed entries of a worktree ask for: a reload, else a read of the
    settings; and the notes to index again. *)
Definition updated_entries (changes : list (str * bool)) : bool * bool * list (str * bool) :=
  let reload := existsb (λ c, c.1 == VAULT_CONFIG) changes in
  let settings := existsb (λ c, c.1 == BRIDGE_CONFIG_PATH) changes in
  (reload, settings,
   filter (λ c : str * bool, (c.1 != VAULT_CONFIG) && (c.1 != BRIDGE_CONFIG_PATH) && indexes c.1 = true)
     changes).

Inductive ServiceEvent :=
  | VaultSeen (vault : option (str * bool)) (* worktrees added or removed *)
  | EntriesUpdated (vault : option (str * bool)) (changes : list (str * bool))
  | Toggled
  | StartWaited (ended : bool)
  | StartLoaded (desk_name : str) (files : result loaded str) (bound : BindResult)
  | ConfigRead (i : nat) (read : option BridgeConfig)
  | ListenerEnded
  | IndexBuilt
  | SeenRead.

Definition run_service (s : Service) (e : ServiceEvent) : Service :=
  match e with
  | VaultSeen vault => reload vault s
  | EntriesUpdated vault changes =>
      let '(asks_reload, asks_settings, _) := updated_entries changes in
      if asks_reload then reload vault s
      else if asks_settings then reload_bridge_config s
      else s
  | Toggled => toggle s
  | StartWaited ended => start_waited ended s
  | StartLoaded desk_name files bound => start_loaded desk_name files bound s
  | ConfigRead i read => config_read i read s
  | ListenerEnded => listener_ended s
  | IndexBuilt => index_built s
  | SeenRead => seen_read s
  end.

Definition run_all (s : Service) (es : list ServiceEvent) : Service := fold_left run_service es s.
