(* ===== verification/RuleTheory.v ===== *)
(** * The bridge's rules keep their promises ([thock-bridge/rules.rs])

    Accepted paths stay inside the vault, harness names are what the desk
    records, an accepted fact holds nothing the person forbade, the lines the
    desk writes read back, and the writes that carry them are valid. *)

From S2P Require Import Prelude Strings External Samples Write Dates Rules.

(** ** Paths *)

(** A component that names a file or folder and hides nothing. *)
Definition plain_component (component : str) : Prop :=
  ∃ c rest, component = c :: rest ∧ c ≠ ch ".".

(** Where a component leads from a folder of the vault, as a file system reads
    it; [None] above the root. *)
Definition walk (folder : option (list str)) (component : str) : option (list str) :=
  folder ← folder;
  if component == u ".." then match folder with [] => None | _ => Some (removelast folder) end
  else if (component == u ".") || (component == []) then Some folder
  else Some (folder ++ [component]).

Lemma component_error_None component : component_error component = None ↔ plain_component component.
Proof.
  unfold component_error, plain_component. destruct component as [|c rest].
  - rewrite bool_decide_eq_true_2 by done. split; [done|]. by intros (? & ? & ? & _).
  - rewrite (bool_decide_eq_false_2 (c :: rest = [])) by done. cbn [u starts_with].
    change (Ascii.N_of_ascii _) with (ch ".").
    destruct (N.eqb_spec (ch ".") c) as [<-|Hc]; cbn [andb].
    + case_bool_decide; (split; [done|]); intros (? & ? & [= <- <-] & ?); done.
    + rewrite bool_decide_eq_false_2 by (intros [= -> _]; done). split; [|done].
      intros _. exists c, rest. split; [done|]. by intros ->.
Qed.

Lemma walk_plain components folder :
  Forall plain_component components →
  fold_left walk components (Some folder) = Some (folder ++ components).
Proof.
  revert folder. induction components as [|component components IH]; intros folder Hp; simpl;
    [by rewrite app_nil_r|].
  apply Forall_cons in Hp as [(c & rest & -> & Hc) Hp].
  rewrite !bool_decide_eq_false_2 by (intros [= -> _]; done). cbn [orb].
  by rewrite IH, <- app_assoc.
Qed.

Lemma find_map_first {A B} (f : A → option B) l y :
  find_map f l = Some y →
  ∃ before x after, l = before ++ x :: after ∧ f x = Some y ∧ Forall (λ z, f z = None) before.
Proof.
  induction l as [|x l IH]; simpl; [done|]. destruct (f x) eqn:E.
  - intros [= <-]. by exists [], x, l.
  - intros (before & z & after & -> & Hz & Hb)%IH. exists (x :: before), z, after. auto.
Qed.

Lemma find_map_None {A B} (f : A → option B) l :
  find_map f l = None ↔ Forall (λ x, f x = None) l.
Proof.
  induction l as [|x l IH]; simpl; [by split|]. rewrite Forall_cons, <- IH.
  destruct (f x); naive_solver.
Qed.

(** Which vault paths an agent may touch. An accepted path is relative and
    made of plain names only, so that from any folder of the vault it leads
    below that folder, name by name, never above it or through a dot-folder;
    each refusal names the first thing wrong. *)
Theorem vault_path_spec path :
  let components := split_by is_path_separator (trim path) in
  match validate_vault_path path with
  | Ok _ =>
      trim path !! 1 ≠ Some (ch ":") ∧ Forall plain_component components ∧
      ∀ folder, fold_left walk components (Some folder) = Some (folder ++ components)
  | Err PathEmpty => trim path = []
  | Err Absolute =>
      ∃ c rest, trim path = c :: rest ∧ (is_path_separator c = true ∨ head rest = Some (ch ":"))
  | Err e =>
      ∃ before component after, components = before ++ component :: after ∧
        Forall plain_component before ∧
        match e with
        | EmptyComponent => component = []
        | Traversal => component = u ".."
        | _ => component ≠ u ".." ∧ ∃ name, component = ch "." :: name
        end
  end.
Proof.
  cbv zeta. unfold validate_vault_path, err_if. set (path' := trim path).
  destruct (bool_decide_reflect (path' = [])) as [?|Hne]; [done|].
  destruct (starts_with [SLASH_CHAR] path' || starts_with [BACKSLASH_CHAR] path'
            || (path' !! 1 == Some (ch ":"))) eqn:Ea.
  - destruct path' as [|c rest]; [done|]. exists c, rest. split; [done|].
    cbn [starts_with] in Ea. rewrite !andb_true_r in Ea. unfold is_path_separator.
    apply orb_true_iff in Ea as [Ea|Ea%bool_decide_eq_true].
    + left. by rewrite (N.eqb_sym c), (N.eqb_sym c).
    + right. by destruct rest.
  - bool_to_prop. destruct (find_map _ _) as [e|] eqn:Ef.
    + apply find_map_first in Ef as (before & component & after & Hc & He & Hb).
      assert (∃ before component after, split_by is_path_separator path' = before ++ component :: after ∧
        Forall plain_component before ∧ component_error component = Some e) as Hex.
      { exists before, component, after. split; [done|]. split; [|done].
        eapply Forall_impl; [exact Hb|]. intros z. apply component_error_None. }
      clear -Hex. destruct Hex as (before & component & after & Hc & Hb & He).
      unfold component_error in He. destruct (bool_decide_reflect (component = [])) as [Hn|Hn].
      { injection He as <-. by exists before, component, after. }
      destruct (bool_decide_reflect (component = u "..")) as [Hd|Hd].
      { injection He as <-. by exists before, component, after. }
      destruct (starts_with (u ".") component) eqn:Es; [|done]. injection He as <-.
      apply starts_with_app in Es as [name ->].
      exists before, (u "." ++ name), after. split_and!; [done|done|done|by exists name].
    + apply find_map_None in Ef. assert (Forall plain_component (split_by is_path_separator path')).
      { eapply Forall_impl; [exact Ef|]. intros z. apply component_error_None. }
      split_and!; [done|done|]. intros folder. by apply walk_plain.
Qed.

Lemma vault_path_components path :
  validate_vault_path path = Ok tt →
  trim path ≠ [] ∧ starts_with [SLASH_CHAR] (trim path) = false ∧
  Forall plain_component (split_by is_path_separator (trim path)).
Proof.
  unfold validate_vault_path, err_if. destruct (bool_decide_reflect (trim path = [])); [done|].
  destruct (starts_with [SLASH_CHAR] (trim path)); [done|]. cbn [orb].
  destruct (_ || _); [done|]. destruct (find_map _ _) eqn:Ef; [done|]. intros _.
  split_and!; [done|done|]. apply find_map_None in Ef.
  eapply Forall_impl; [exact Ef|]. intros z. apply component_error_None.
Qed.

(** ** Harness names *)

Definition name_char (c : char) : bool :=
  is_ascii_digit c || is_ascii_lowercase c || (c =? ch "-")%N.

(** Dashes stand alone, and none comes first. *)
Definition single_dashes (s : str) : Prop :=
  head s ≠ Some (ch "-") ∧ ∀ i, s !! i = Some (ch "-") → s !! S i ≠ Some (ch "-").

Record harness_name (s : str) : Prop := {
  harness_nonempty : s ≠ [];
  harness_short : length s ≤ 40;
  harness_chars : forallb name_char s = true;
  harness_dashes : single_dashes s;
}.

Lemma single_dashes_prefix a b : single_dashes (a ++ b) → single_dashes a.
Proof.
  intros [Hh Hd]. split.
  - destruct a; [done|]. done.
  - intros i H1 H2. apply (Hd i); by apply lookup_app_l_Some.
Qed.

Lemma single_dashes_snoc s c :
  single_dashes s → (c = ch "-" → s ≠ [] ∧ last s ≠ Some (ch "-")) → single_dashes (s ++ [c]).
Proof.
  intros [Hh Hd] Hc. split.
  - destruct s as [|d s]; [|done]. simpl. intros [= E]. by destruct (Hc E).
  - intros i H1 H2. destruct (decide (S i < length s)) as [Hi|Hi].
    + rewrite lookup_app_l in H1, H2 by lia. by apply (Hd i).
    + apply lookup_lt_Some in H2 as Hl. rewrite length_app in Hl. simpl in Hl.
      assert (S i = length s) as E by lia. rewrite E, lookup_app_r, Nat.sub_diag in H2 by lia.
      injection H2 as E2. destruct (Hc E2) as [_ Hlast]. apply Hlast.
      rewrite lookup_app_l in H1 by lia. rewrite last_lookup. by rewrite <- E.
Qed.

Lemma lower_name_char c : is_ascii_alphanumeric (ascii_lower c) = true →
  name_char (ascii_lower c) = true ∧ ascii_lower c ≠ ch "-".
Proof.
  unfold is_ascii_alphanumeric, name_char, is_ascii_digit, is_ascii_uppercase, is_ascii_lowercase,
    ascii_lower. change (ch "-") with 45%N.
  destruct ((65 <=? c) && (c <=? 90))%N eqn:E; bool_to_prop; intros Ha.
  - split; [|lia]. apply orb_true_iff; left; apply orb_true_iff; right. apply andb_true_iff.
    split; apply N.leb_le; lia.
  - rewrite E, orb_false_r in Ha. split; [by rewrite Ha|]. intros ->. done.
Qed.

(** What the loop keeps true of [out] and [last_dash]. *)
Definition sanitized (state : str * bool) : Prop :=
  forallb name_char state.1 = true ∧ single_dashes state.1 ∧
  if state.2 then state.1 = [] ∨ last state.1 = Some (ch "-")
  else state.1 ≠ [] ∧ last state.1 ≠ Some (ch "-").

Lemma sanitize_step_ok state c : sanitized state → sanitized (sanitize_step state c).
Proof.
  intros (Hc & Hd & Hl). unfold sanitize_step.
  destruct (is_ascii_alphanumeric (ascii_lower c)) eqn:Ea.
  - apply lower_name_char in Ea as [Hn Hne]. unfold sanitized; cbn [fst snd].
    rewrite forallb_app. simpl. rewrite Hc, Hn, last_snoc. split_and!; [done| |by destruct state.1|].
    + apply single_dashes_snoc; [done|]. by intros ?.
    + by intros [= ?].
  - destruct state as [out [|]]; cbn [fst snd negb] in *; [by split_and!|].
    destruct Hl as [Hne Hl]. unfold sanitized; cbn [fst snd].
    rewrite forallb_app. simpl. rewrite Hc, last_snoc.
    split_and!; [done| |by right]. by apply single_dashes_snoc.
Qed.

Lemma sanitize_fold_ok state s : sanitized state → sanitized (fold_left sanitize_step s state).
Proof. revert state. induction s as [|c s IH]; intros state H; [done|]. simpl. by apply IH, sanitize_step_ok. Qed.

Lemma trim_end_prefix f s : ∃ b, s = trim_end_matches f s ++ b.
Proof. destruct (trim_end_matches_app f s) as (b & Hb & _). by exists b. Qed.

Lemma trim_dashes out :
  single_dashes out → ∃ b, out = trim_matches (N.eqb (ch "-")) out ++ b.
Proof.
  intros [Hh _]. unfold trim_matches.
  rewrite (trim_start_matches_id (N.eqb (ch "-")) out); [apply trim_end_prefix|].
  destruct out as [|c out]; [done|]. apply N.eqb_neq. by intros <-.
Qed.

Lemma sanitize_keeps s out :
  harness_name (out ++ s) → sanitized (out, match last out with Some c => (c =? ch "-")%N | None => true end) →
  (fold_left sanitize_step s (out, match last out with Some c => (c =? ch "-")%N | None => true end)).1
  = out ++ s.
Proof.
  revert out. induction s as [|c s IH]; intros out Hn Hs; [by rewrite app_nil_r|].
  assert (sanitize_step (out, match last out with Some c => (c =? ch "-")%N | None => true end) c
    = (out ++ [c], (c =? ch "-")%N)) as Hstep.
  { destruct Hn as [_ _ Hc [Hh Hd]]. rewrite forallb_app in Hc.
    apply andb_true_iff in Hc as [_ Hc]. simpl in Hc. apply andb_true_iff in Hc as [Hc _].
    unfold name_char in Hc. destruct (N.eqb_spec c (ch "-")) as [->|Hdash].
    - unfold sanitize_step. cbn [fst snd]. change (is_ascii_alphanumeric (ascii_lower (ch "-"))) with false.
      destruct out as [|o out'] eqn:Eo; [done|]. rewrite <- Eo in *.
      destruct (last out) as [d|] eqn:El; [|by apply last_None in El; subst].
      destruct (N.eqb_spec d (ch "-")) as [->|]; [|done].
      exfalso. rewrite last_lookup in El. apply (Hd (pred (length out))).
      + rewrite lookup_app_l; [done|]. by apply lookup_lt_Some in El.
      + rewrite Nat.succ_pred_pos by (subst; simpl; lia). by rewrite lookup_app_r, Nat.sub_diag by lia.
    - rewrite orb_false_r in Hc.
      assert (ascii_lower c = c) as E.
      { unfold ascii_lower, is_ascii_digit, is_ascii_lowercase in *.
        destruct ((65 <=? c) && (c <=? 90))%N eqn:Eu; [|done]. exfalso.
        apply orb_true_iff in Hc as [Hc|Hc]; bool_to_prop; lia. }
      unfold sanitize_step. rewrite E. unfold is_ascii_alphanumeric.
      apply orb_true_iff in Hc as [Hc|Hc]; rewrite Hc; cbn [orb]; rewrite ?orb_true_r; done. }
  assert (match last (out ++ [c]) with Some c => (c =? ch "-")%N | None => true end = (c =? ch "-")%N) as El
    by (by rewrite last_snoc).
  cbn [fold_left]. rewrite Hstep, <- El. change (c :: s) with ([c] ++ s). rewrite app_assoc.
  apply IH.
  - by rewrite <- app_assoc.
  - rewrite El, <- Hstep. by apply sanitize_step_ok.
Qed.

Lemma sanitize_harness_facts raw :
  harness_name (sanitize_harness raw) ∧
  (harness_name raw → last raw ≠ Some (ch "-") → sanitize_harness raw = raw).
Proof.
  assert (sanitized ([], true)) as H0.
  { split_and!; [done| |by left]. split; [done|]. by intros i. }
  split.
  - unfold sanitize_harness. pose proof (sanitize_fold_ok _ (take 60 (trim raw)) H0) as (Hc & Hd & _).
    set (out := (fold_left _ _ _).1) in *. destruct (trim_dashes out Hd) as [b Hb].
    case_bool_decide as He.
    { split; [done|vm_compute; lia|done|]. split; [done|]. intros i H1 _.
      apply list_elem_of_lookup_2 in H1. revert H1. decide_closed. }
    set (name := trim_matches _ out) in *. rewrite Hb in Hc, Hd.
    rewrite forallb_app in Hc. apply andb_true_iff in Hc as [Hc _]. apply single_dashes_prefix in Hd.
    rewrite <- (take_drop 40 name) in Hc, Hd.
    rewrite forallb_app in Hc. apply andb_true_iff in Hc as [Hc _]. apply single_dashes_prefix in Hd.
    split; [by destruct name|rewrite length_take; lia|done|done].
  - intros Hn Hlast. assert (∀ c, c ∈ raw → is_whitespace c = false) as Hsp.
    { intros c Hin. destruct Hn as [_ _ Hc _]. rewrite forallb_forall in Hc. specialize (Hc c).
      rewrite <- list_elem_of_In in Hc. specialize (Hc Hin). clear -Hc.
      unfold name_char, is_ascii_digit, is_ascii_lowercase in Hc. change (ch "-") with 45%N in Hc.
      unfold is_whitespace. repeat (apply orb_true_iff in Hc as [Hc|Hc]); bool_to_prop;
        repeat (apply orb_false_iff; split); try apply andb_false_iff;
        rewrite ?N.eqb_neq, ?N.leb_gt; lia. }
    unfold sanitize_harness. rewrite (trim_no_space raw) by (by apply Forall_forall).
    rewrite take_ge by (destruct Hn; lia).
    pose proof (sanitize_keeps raw [] Hn H0) as Hk. cbn [last app] in Hk. rewrite Hk.
    assert (trim_matches (N.eqb (ch "-")) raw = raw) as ->.
    { unfold trim_matches. rewrite (trim_start_matches_id _ raw).
      - apply trim_end_matches_id. destruct (last raw) as [c|]; [|done].
        apply N.eqb_neq. by intros <-.
      - destruct Hn as [_ _ _ [Hh _]]. destruct raw as [|c r]; [done|].
        apply N.eqb_neq. by intros <-. }
    rewrite bool_decide_eq_false_2 by (by destruct Hn). apply take_ge. by destruct Hn.
Qed.

(** A harness name is what the desk records, whatever header it came from:
    lowercase letters, digits and single dashes, never empty, at most forty
    characters; and such a name that does not end in a dash is kept as it is. *)
Theorem sanitize_harness_spec raw :
  harness_name (sanitize_harness raw) ∧
  (harness_name raw → last raw ≠ Some (ch "-") → sanitize_harness raw = raw).
Proof. apply sanitize_harness_facts. Qed.

(** ** Topics the person forbade *)

Section topics.
Context `{UnicodeTables}.

(** What follows the first mark of a heading line. *)
Definition heading_of (line : str) : option str := strip_prefix (u "#") (trim line).

(** Whether the line at [i] stands under the do-not-keep heading: the last
    heading above it opens that section. *)
Definition stands_under (lines : list str) (i : nat) : bool :=
  is_some_and opens_forbidden (last (omap heading_of (take i lines))).

Lemma add_topic_elem topics w x : x ∈ add_topic topics w ↔ x = w ∨ x ∈ topics.
Proof.
  unfold add_topic. destruct (decide (w ∈ topics)); [|rewrite elem_of_app, elem_of_cons].
  - split; [by right|]. by intros [->|?].
  - split; [intros [?|[?|[]%elem_of_nil]]; auto|intros [->|?]; auto].
Qed.

Lemma add_topics_elem ws topics x : x ∈ fold_left add_topic ws topics ↔ x ∈ ws ∨ x ∈ topics.
Proof.
  revert topics. induction ws as [|w ws IH]; intros topics; simpl.
  - split; [by right|]. by intros [?%elem_of_nil|?].
  - rewrite IH, add_topic_elem, elem_of_cons. naive_solver.
Qed.

(** The rules of the lines below the do-not-keep headings, and nothing else,
    are the topics. *)
Lemma topics_fold lines :
  (fold_left topics_step lines (false, [])).1 = stands_under lines (length lines) ∧
  ∀ w, w ∈ (fold_left topics_step lines (false, [])).2 ↔
    ∃ i line, lines !! i = Some line ∧ heading_of line = None ∧ stands_under lines i = true ∧
      w ∈ kept_words (long_words (rule_body (trim line))).
Proof.
  induction lines as [|l lines [IH1 IH2]] using rev_ind.
  { split; [done|]. intros w. split; [by intros ?%elem_of_nil|]. by intros (? & ? & ? & _). }
  rewrite fold_left_app. cbn [fold_left].
  destruct (fold_left topics_step lines (false, [])) as [inside topics]. cbn [fst snd] in *. subst inside.
  assert (∀ i, i ≤ length lines → stands_under (lines ++ [l]) i = stands_under lines i) as Hst.
  { intros i Hi. unfold stands_under. by rewrite take_app_le. }
  assert (stands_under (lines ++ [l]) (length (lines ++ [l]))
    = match heading_of l with Some h => opens_forbidden h | None => stands_under lines (length lines) end)
    as Hend.
  { unfold stands_under. rewrite !firstn_all, omap_app. cbn [omap list_omap].
    destruct (heading_of l); [by rewrite last_snoc|by rewrite app_nil_r]. }
  assert (∀ w, (∃ i line, (lines ++ [l]) !! i = Some line ∧ heading_of line = None ∧
      stands_under (lines ++ [l]) i = true ∧ w ∈ kept_words (long_words (rule_body (trim line)))) ↔
    w ∈ topics ∨ (heading_of l = None ∧ stands_under lines (length lines) = true ∧
      w ∈ kept_words (long_words (rule_body (trim l))))) as Hsplit.
  { intros w. rewrite IH2. split.
    - intros (i & line & Hl & Hr). destruct (decide (i < length lines)) as [Hi|Hi].
      + left. rewrite lookup_app_l in Hl by done. rewrite Hst in Hr by lia. by exists i, line.
      + right. apply lookup_lt_Some in Hl as Hlen. rewrite length_app in Hlen. simpl in Hlen.
        assert (i = length lines) as -> by lia.
        rewrite lookup_app_r, Nat.sub_diag in Hl by lia. injection Hl as ->. by rewrite Hst in Hr.
    - intros [(i & line & Hl & Hr)|Hr].
      + exists i, line. rewrite lookup_app_l by (by eapply lookup_lt_Some).
        rewrite Hst by (apply lookup_lt_Some in Hl; lia). done.
      + exists (length lines), l. rewrite Hst by lia. split; [|done].
        by rewrite lookup_app_r, Nat.sub_diag. }
  setoid_rewrite Hsplit. rewrite Hend. unfold topics_step. cbn [fst snd].
  fold (heading_of l). destruct (heading_of l) as [h|] eqn:Eh; cbn [fst snd].
  - split; [done|]. intros w. split; [by left|]. by intros [?|(? & _)].
  - destruct (stands_under lines (length lines)) eqn:Es; cbn [fst snd].
    + split; [done|]. intros w. rewrite add_topics_elem. naive_solver.
    + split; [done|]. intros w. split; [by left|]. by intros [?|(_ & ? & _)].
Qed.

Lemma kept_words_elem long w :
  w ∈ kept_words long ↔ w ∈ long ∧ (w ∉ STOP_WORDS ∨ Forall (λ x, x ∈ STOP_WORDS) long).
Proof.
  unfold kept_words. case_bool_decide as Hk.
  - assert (Forall (λ x, x ∈ STOP_WORDS) long) as Hall.
    { apply Forall_forall. intros x Hx. destruct (decide (x ∈ STOP_WORDS)) as [|Hs]; [done|].
      exfalso. assert (x ∈ filter (λ word, word ∉ STOP_WORDS) long) as Hf
        by (by apply list_elem_of_filter).
      rewrite Hk in Hf. by apply elem_of_nil in Hf. }
    naive_solver.
  - rewrite list_elem_of_filter. split; [naive_solver|]. intros [Hw [Hs|Hall]]; [done|].
    exfalso. apply Hk. apply filter_none. intros x Hx Hs. rewrite Forall_forall in Hall. auto.
Qed.

(** Exactly which facts are accepted, and as what: the trimmed text. *)
Lemma check_fact_Ok text forbidden fact :
  check_fact text forbidden = Ok fact ↔
  fact = trim text ∧ fact ≠ [] ∧ (10%N ∉ fact ∧ 13%N ∉ fact) ∧ length fact ≤ FACT_MAX_CHARS ∧
  starts_with (u "- ") fact = false ∧ starts_with (u "* ") fact = false ∧
  looks_like_credential fact = None ∧ ∀ topic, topic ∈ forbidden → topic ∉ words fact.
Proof.
  unfold check_fact. rewrite !err_if_Ok, bool_decide_eq_false, Nat.ltb_ge, orb_false_iff.
  assert (existsb (is_one_of [10; 13]%N) (trim text) = false ↔ 10%N ∉ trim text ∧ 13%N ∉ trim text)
    as ->.
  { rewrite existsb_false, Forall_forall. unfold is_one_of. cbn [existsb]. split.
    - intros Hf. split; intros Hin; by specialize (Hf _ Hin).
    - intros [H1 H2] x Hx. apply orb_false_iff. rewrite orb_false_iff, !N.eqb_neq.
      split_and!; [by intros ->|by intros ->|done]. }
  assert (touches (trim text) forbidden = None ↔ ∀ topic, topic ∈ forbidden → topic ∉ words (trim text))
    as Ht.
  { unfold touches. set (ws := words _). induction forbidden as [|t forbidden IH]; simpl.
    { split; [|done]. by intros _ ? ?%elem_of_nil. }
    destruct (existsb (λ word, word == t) ws) eqn:E.
    - split; [done|]. intros Hf. exfalso. apply existsb_Exists, Exists_exists in E as (x & Hx & Ex).
      apply bool_decide_eq_true in Ex. subst x. apply (Hf t); [by left|done].
    - rewrite IH. setoid_rewrite elem_of_cons. split; [|naive_solver].
      intros Hf topic [->|?]; [|auto]. intros Hin. rewrite existsb_false, Forall_forall in E.
      specialize (E _ Hin). by apply bool_decide_eq_false in E. }
  split.
  - intros (Hne & [Hb1 Hb2] & Hl & [Hm1 Hm2] & Hok).
    destruct (looks_like_credential _) eqn:Ec; [done|].
    destruct (touches _ _) eqn:Et; [done|]. injection Hok as <-. pose proof (proj1 Ht eq_refl). by split_and!.
  - intros (-> & Hne & [Hb1 Hb2] & Hl & Hm1 & Hm2 & Hc & Hf). apply Ht in Hf. rewrite Hc, Hf. by split_and!.
Qed.

(** C35: what the person told Thock not to keep is not kept. Under the
    do-not-keep heading of the profile, every word of four letters or more is
    forbidden in an accepted fact, unless it only phrases the rule, and where
    a rule has no other words those are forbidden too. *)
Theorem forbidden_never_kept profile text fact i line :
  check_fact text (forbidden_topics profile) = Ok fact →
  str_lines profile !! i = Some line → heading_of line = None →
  stands_under (str_lines profile) i = true →
  ∀ w, w ∈ words (rule_body (trim line)) → 4 ≤ length w →
    w ∉ STOP_WORDS ∨ Forall (λ x, x ∈ STOP_WORDS) (long_words (rule_body (trim line))) →
    w ∉ words fact.
Proof.
  intros (_ & _ & _ & _ & _ & _ & _ & Hf)%check_fact_Ok Hl Hh Hu w Hw Hlen Hs.
  apply Hf. unfold forbidden_topics. apply topics_fold. exists i, line. split_and!; [done..|].
  apply kept_words_elem. split; [|done]. by apply list_elem_of_filter.
Qed.
End topics.

(** ** Credentials *)

(** No proper suffix of the keyword is one of its prefixes, so that two of its
    occurrences never overlap. *)
Definition borderless (p : str) : bool :=
  forallb (λ k, drop k p != take (length p - k) p) (seq 1 (length p - 1)).

Lemma borderless_apart p a b c d :
  borderless p = true → p ≠ [] → a ++ p ++ b = c ++ p ++ d → length a < length c →
  length a + length p ≤ length c.
Proof.
  intros Hb Hne E Hlt. destruct (decide (length a + length p ≤ length c)) as [|Hn]; [done|]. exfalso.
  set (k := length c - length a). unfold borderless in Hb.
  rewrite forallb_forall in Hb. specialize (Hb k ltac:(apply in_seq; lia)).
  apply negb_true_iff, bool_decide_eq_false in Hb. apply Hb.
  assert (drop (length a) (a ++ p ++ b) = p ++ b) as E1 by apply drop_app_length.
  assert (drop (length c) (a ++ p ++ b) = p ++ d) as E2 by (rewrite E; apply drop_app_length).
  replace (length c) with (length a + k) in E2 by lia. rewrite <- drop_drop, E1 in E2.
  apply (f_equal (take (length p - k))) in E2. rewrite (take_app_le p d) in E2 by lia.
  rewrite <- E2, drop_app_le by lia. rewrite take_app_length' by (rewrite length_drop; lia). done.
Qed.

Lemma keyword_found fuel p before after :
  borderless p = true → p ≠ [] → length (before ++ p ++ after) < fuel →
  starts_with (u ":") (trim_start after) || starts_with (u "=") (trim_start after) = true →
  keyword_loop fuel p (before ++ p ++ after) = true.
Proof.
  intros Hb Hne. revert before. induction fuel as [|fuel IH]; intros before Hf Ha; [lia|].
  cbn [keyword_loop]. destruct (find_sub p (before ++ p ++ after)) as [found|] eqn:E.
  2:{ rewrite find_sub_None in E. specialize (E (length before)).
      by rewrite drop_app_length, starts_with_refl_app in E. }
  apply find_sub_Some in E as (_ & Hl & Es & Hfirst).
  set (s := before ++ p ++ after) in *. set (rest := drop (found + length p) s) in *.
  assert (length (take found s) = found) as Hfound by (rewrite length_take; lia).
  destruct (starts_with (u ":") (trim_start rest) || starts_with (u "=") (trim_start rest)) eqn:Et;
    [done|].
  destruct (lt_eq_lt_dec found (length before)) as [[Hlt|Heq]|Hgt].
  - pose proof (borderless_apart p (take found s) rest before after Hb Hne ltac:(by rewrite <- Es)
      ltac:(lia)) as Hap. rewrite Hfound in Hap.
    assert (rest = drop (found + length p) before ++ p ++ after) as Erest
      by (unfold rest, s; by rewrite drop_app_le).
    rewrite Erest. apply IH; [|done]. rewrite <- Erest. unfold rest. rewrite length_drop.
    destruct p; [done|]. simpl in *. lia.
  - assert (rest = after) as Erest.
    { unfold rest, s. rewrite Heq, <- drop_drop, drop_app_length. apply drop_app_length. }
    congruence.
  - specialize (Hfirst _ Hgt). unfold s in Hfirst. by rewrite drop_app_length, starts_with_refl_app in Hfirst.
Qed.

(** ** Card numbers *)

Definition card_separator (c : char) : bool := is_one_of (u " -") c.

(** [n] digits, the separators between them single. *)
Inductive digit_run : str → nat → Prop :=
  | run_one d : is_ascii_digit d = true → digit_run [d] 1
  | run_digit d run n : is_ascii_digit d = true → digit_run run n → digit_run (d :: run) (S n)
  | run_separator d c run n :
      is_ascii_digit d = true → card_separator c = true → digit_run run n →
      digit_run (d :: c :: run) (S n).

(** The text after a run does not go on with it, nor the text before: a digit
    next to it, or past one separator, would. *)
Definition run_ends (after : str) : bool :=
  match after with
  | [] => true
  | c :: rest =>
      negb (is_ascii_digit c) &&
      negb (card_separator c && is_some_and is_ascii_digit (head rest))
  end.
Definition run_begins (before : str) : bool := run_ends (rev before).

Lemma digit_not_separator c : is_ascii_digit c = true → card_separator c = false.
Proof.
  unfold is_ascii_digit, card_separator, is_one_of. cbn [existsb u]. intros H. bool_to_prop.
  rewrite orb_false_r. apply orb_false_iff. rewrite !N.eqb_neq.
  split; intros ->; vm_compute in H, H0; congruence.
Qed.

Lemma run_counted run k n f rest :
  digit_run run k → long_digit_run n f (run ++ rest) = long_digit_run (n + k) false rest.
Proof.
  intros H. revert n f. induction H as [d Hd|d run k Hd _ IH|d c run k Hd Hc _ IH]; intros n f;
    cbn [app long_digit_run]; rewrite Hd.
  - by rewrite Nat.add_1_r.
  - rewrite IH. f_equal. lia.
  - assert (is_ascii_digit c = false) as ->.
    { destruct (is_ascii_digit c) eqn:E; [|done]. by rewrite digit_not_separator in Hc. }
    fold (card_separator c). rewrite Hc. cbn. rewrite IH. f_equal. lia.
Qed.

Lemma run_stops n after : card_length n = true → run_ends after = true → long_digit_run n false after = true.
Proof.
  intros Hn He. destruct after as [|c rest]; [done|]. cbn [run_ends] in He.
  apply andb_true_iff in He as [Hd Hs]. cbn [long_digit_run]. apply negb_true_iff in Hd. rewrite Hd.
  fold (card_separator c). rewrite Hn.
  assert (0 <? n = true)%nat as -> by (unfold card_length in Hn; bool_to_prop; apply Nat.ltb_lt; lia).
  destruct (card_separator c) eqn:Ec; [|done]. cbn [andb negb]. cbn [andb] in Hs.
  destruct rest as [|d rest]; [done|]. cbn [head hd_error is_some_and] in Hs.
  apply negb_true_iff in Hs. cbn [long_digit_run]. rewrite Hs. by rewrite andb_false_r, Hn.
Qed.

Lemma run_ends_change x a b :
  (run_ends a = true → run_ends b = true) →
  (is_some_and is_ascii_digit (head b) = true → is_some_and is_ascii_digit (head a) = true) →
  run_ends (x ++ a) = true → run_ends (x ++ b) = true.
Proof.
  intros Hab Hd. destruct x as [|e [|e' x]]; [done| |done]. cbn [app run_ends].
  rewrite !andb_true_iff, !negb_true_iff. intros [H1 H2]. split; [done|].
  destruct (card_separator e); [|done]. cbn [andb] in *.
  destruct (is_some_and is_ascii_digit (head b)); [|done]. by rewrite Hd in H2.
Qed.

(** The end of the text read so far, backwards, as far as the state of the
    loop remembers it. *)
Definition remembered (n : nat) (f : bool) : str :=
  match n with 0 => [] | S _ => if f then [32%N; 48%N] else [48%N] end.

Lemma run_reached n f before rest :
  run_ends (rev before ++ remembered n f) = true →
  long_digit_run n f (before ++ rest) = true ∨
  long_digit_run n f (before ++ rest) = long_digit_run 0 false rest.
Proof.
  revert n f. induction before as [|c before IH]; intros n f Hr.
  - destruct n; [|by destruct f]. right. simpl. destruct rest as [|c rest]; [done|].
    cbn [long_digit_run Nat.ltb Nat.leb]. by rewrite !andb_false_r.
  - cbn [rev app] in Hr. rewrite <- app_assoc in Hr. cbn [app] in Hr. cbn [app long_digit_run].
    fold (card_separator c). destruct (is_ascii_digit c) eqn:Ed.
    + apply IH. revert Hr. apply run_ends_change; cbn [run_ends head is_some_and negb andb]; by rewrite Ed.
    + destruct (card_separator c && (0 <? n)%nat && negb f) eqn:Es.
      * apply IH. apply andb_true_iff in Es as [[Hc Hn%Nat.ltb_lt]%andb_true_iff Hf%negb_true_iff].
        subst f. destruct n as [|n]; [lia|]. revert Hr.
        apply (run_ends_change _ _ [32; 48]%N); cbn [run_ends head is_some_and negb andb];
          by rewrite Ed, ?Hc.
      * destruct (card_length n); [by left|]. apply IH. revert Hr. by apply (run_ends_change _ _ []).
Qed.

Lemma card_found before run k after :
  digit_run run k → card_length k = true → run_begins before = true → run_ends after = true →
  has_long_digit_run (before ++ run ++ after) = true.
Proof.
  intros Hrun Hk Hb Ha. unfold has_long_digit_run.
  destruct (run_reached 0 false before (run ++ after)) as [E|E]; [by rewrite app_nil_r|done|].
  rewrite E.
  rewrite (run_counted run k) by done. by apply run_stops.
Qed.

(** Secrets are never kept: a fact that spells a keyword followed by [:] or
    [=], or a card number of 13 to 19 digits with single spaces or dashes
    between them, has a credential's shape, whatever stands around it. *)
Theorem secrets_found `{UnicodeTables} text :
  (∃ keyword before after, keyword ∈ SECRET_KEYWORDS ∧
     str_to_lowercase text = before ++ keyword ++ after ∧
     (head (trim_start after) = Some (ch ":") ∨ head (trim_start after) = Some (ch "="))) ∨
  (∃ before run k after, digit_run run k ∧ 13 ≤ k ≤ 19 ∧ text = before ++ run ++ after ∧
     run_begins before = true ∧ run_ends after = true) →
  is_Some (looks_like_credential text).
Proof.
  intros Hs. unfold looks_like_credential, credential_shape.
  destruct (find_map _ _); [done|]. destruct (existsb _ SECRET_KEYWORDS) eqn:Ek; [done|].
  destruct Hs as [(keyword & before & after & Hin & Hl & Ha)|(before & run & k & after & Hr & Hk & -> & Hb & He)].
  - exfalso. rewrite existsb_false, Forall_forall in Ek. specialize (Ek _ Hin). cbv beta in Ek.
    assert (Forall (λ k, borderless k = true ∧ k ≠ []) SECRET_KEYWORDS) as Hk
      by (repeat constructor; intros [=]).
    rewrite Forall_forall in Hk. destruct (Hk _ Hin) as [Hb Hne].
    rewrite Hl, keyword_found in Ek; [done|done|done|lia|].
    apply orb_true_iff. destruct (trim_start after) as [|c r]; [by destruct Ha|].
    destruct Ha as [[= ->]|[= ->]]; [left|right]; reflexivity.
  - rewrite (card_found before run k) by (done || by apply andb_true_iff; rewrite !Nat.leb_le). done.
Qed.

(** ** The lines the desk writes *)

Definition DOT_CHAR : char := 0xB7.

Lemma name_char_plain s c : forallb name_char s = true → name_char c = false → c ∉ s.
Proof.
  intros Hs Hc Hin. rewrite forallb_forall in Hs. specialize (Hs c).
  rewrite <- list_elem_of_In in Hs. specialize (Hs Hin). congruence.
Qed.

Lemma split_label harness host :
  ch "@" ∉ harness → split_once (u "@") (label (mkClientIdentity harness host)) = Some (harness, host).
Proof. intros Hh. apply (split_once_mark (ch "@") [] [] harness host); [apply not_elem_of_nil|done]. Qed.

(** A label as the desk makes it: nothing to trim, nothing to split at. *)
Record plain_label (identity : ClientIdentity) : Prop := {
  plain_harness : forallb name_char (harness identity) = true ∧ harness identity ≠ [];
  plain_host_dot : DOT_CHAR ∉ host identity;
  plain_host_end : trim_end (host identity) = host identity;
}.

Lemma label_last identity c :
  plain_label identity → last (label identity) = Some c → is_whitespace c = false.
Proof.
  intros [_ _ He]. unfold label. rewrite !app_assoc, last_app.
  destruct (last (host identity)) as [d|] eqn:E.
  - intros [= <-]. rewrite <- He in E. by apply trim_end_matches_last in E.
  - change (u "@") with [ch "@"]. rewrite last_snoc. by intros [= <-].
Qed.

Lemma label_nonempty identity : label identity ≠ [].
Proof. unfold label. by destruct (harness identity). Qed.

Lemma trim_label identity : plain_label identity → trim (label identity) = label identity.
Proof.
  intros Hl. unfold trim, trim_matches. rewrite (trim_start_matches_id _ (label identity)).
  - apply trim_end_matches_id. destruct (last _) eqn:E; [|done]. by eapply label_last.
  - destruct Hl as [[Hc Hne] _ _]. unfold label. destruct (harness identity) as [|c s]; [done|].
    simpl. simpl in Hc. apply andb_true_iff in Hc as [Hc _].
    destruct (is_whitespace c) eqn:E; [|done]. exfalso. revert E Hc.
    unfold is_whitespace, name_char, is_ascii_digit, is_ascii_lowercase. change (ch "-") with 45%N.
    intros E Hc. repeat (apply orb_true_iff in Hc as [Hc|Hc]); bool_to_prop;
      repeat (apply orb_true_iff in E as [E|E]); bool_to_prop; lia.
Qed.

Lemma label_no_dot identity : plain_label identity → DOT_CHAR ∉ label identity.
Proof.
  intros [[Hc _] Hd _]. unfold label. rewrite !not_elem_of_app. split_and!; [|by decide_closed|done].
  by eapply name_char_plain.
Qed.

Lemma trim_bullet a b :
  b ≠ [] → (∀ c, last b = Some c → is_whitespace c = false) →
  trim (u "- " ++ a ++ b) = u "- " ++ a ++ b.
Proof.
  intros Hne Hl. unfold trim, trim_matches. rewrite (trim_start_matches_id _ (u "- " ++ _)) by done.
  apply trim_end_matches_id. rewrite !last_app. destruct (last b) as [c|] eqn:E; [by apply Hl|].
  by apply last_None in E.
Qed.

Lemma identity_plain harness host :
  DOT_CHAR ∉ host → trim_end host = host → plain_label (ClientIdentity_new harness host).
Proof.
  intros Hd He. destruct (proj1 (sanitize_harness_facts harness)) as [Hne _ Hc _]. by split.
Qed.

(** What the desk writes on an agent's behalf reads back: the day, the fact
    and who said it from an inbox line, who and what from a line of the day,
    whatever the fact or the line holds. *)
Theorem agent_lines_roundtrip `{ChronoParse} `{!ChronoLaws} `{!ChronoParseLaws}
    date fact line harness host :
  four_digit date → DOT_CHAR ∉ host → trim_end host = host → trim line ≠ [] →
  let identity := ClientIdentity_new harness host in
  parse_inbox_line (inbox_line date fact identity)
  = Some (mkInboxLine date (trim fact) (Some identity)) ∧
  parse_today_line (today_line identity line) = Some (identity, trim line).
Proof.
  intros Hy Hd He Hne identity. pose proof (identity_plain harness host Hd He) as Hp.
  fold identity in Hp. assert (ch "@" ∉ Rules.harness identity) as Hat.
  { apply (name_char_plain _ _ (proj1 (plain_harness _ Hp))). reflexivity. }
  assert (split_once (u "@") (label identity) = Some (Rules.harness identity, Rules.host identity))
    as Hsplit by (destruct identity; by apply split_label).
  split.
  - unfold parse_inbox_line, inbox_line.
    rewrite !(app_assoc (format_ymd date)), !(app_assoc (format_ymd date ++ SEPARATOR)).
    rewrite (app_assoc _ VIA_MARKER), trim_bullet by (apply label_nonempty || by intros c; apply label_last).
    rewrite strip_prefix_app. cbn [mbind option_bind]. rewrite <- !app_assoc.
    change SEPARATOR with ([32%N] ++ DOT_CHAR :: [32%N]) at 1.
    change SEPARATOR with ([32%N] ++ DOT_CHAR :: [32%N]).
    rewrite (split_once_mark DOT_CHAR [32%N] [32%N]) by first [by apply format_ymd_plain|decide_closed].
    cbn [mbind option_bind fst snd]. rewrite (trim_no_space (format_ymd date)), parse_ymd_format; [|done|].
    2:{ apply Forall_forall. intros c Hin. destruct (is_whitespace c) eqn:E; [|done]. exfalso.
        revert Hin. apply format_ymd_plain; [done| |by intros ->].
        unfold is_ascii_digit. revert E. unfold is_whitespace. intros E.
        apply andb_false_iff. rewrite !N.leb_gt.
        repeat (apply orb_true_iff in E as [E|E]); bool_to_prop; lia. }
    cbn [mbind option_bind]. change VIA_MARKER with ([32%N] ++ DOT_CHAR :: u " via ").
    rewrite (rsplit_once_mark DOT_CHAR [32%N] (u " via "))
      by first [by apply label_no_dot|decide_closed].
    cbn [mbind option_bind]. rewrite trim_label, Hsplit by done. cbn [mbind option_bind fst snd].
    rewrite trim_idemp. by destruct identity.
  - unfold parse_today_line, today_line.
    assert (∀ c, last (trim line) = Some c → is_whitespace c = false) as Hlast.
    { intros c. unfold trim, trim_matches. apply trim_end_matches_last. }
    rewrite (app_assoc (label identity)), trim_bullet by done.
    rewrite strip_prefix_app. cbn [mbind option_bind]. rewrite <- app_assoc.
    change SEPARATOR with ([32%N] ++ DOT_CHAR :: [32%N]).
    rewrite (split_once_mark DOT_CHAR [32%N] [32%N]) by first [by apply label_no_dot|decide_closed].
    cbn [mbind option_bind fst snd]. rewrite trim_label, Hsplit by done. cbn [mbind option_bind fst snd].
    rewrite trim_idemp. by destruct identity.
Qed.
