(* ===== verification/DeskTheory.v ===== *)
(** * What the desk guarantees to the agents, and against them *)

From stdpp Require Import gmap relations.
From S2P Require Import Prelude Strings External Write Lines LineHash Apply Changes Append Dates Ordering.
From S2P Require Import Rules RuleTheory NoteIndex NoteIndexTheory Rpc RpcTheory.
From S2P Require Import VaultFs Notes Memory Desk.

(** ** Symbolic links *)

Lemma resolves_inside_loop_spec canonicalize croot root rel_rev :
  resolves_inside_loop canonicalize croot root rel_rev = true ↔
  ∀ k c, k ≤ length rel_rev → (0 < k ∨ rel_rev = []) →
    (∀ j, k < j → j ≤ length rel_rev → canonicalize (root ++ take j (rev rel_rev)) = None) →
    canonicalize (root ++ take k (rev rel_rev)) = Some c → croot `prefix_of` c.
Proof.
  assert (∀ c : list str, bool_decide (take (length croot) c = croot) = true ↔ croot `prefix_of` c) as Hpre.
  { intros c. rewrite bool_decide_eq_true. split.
    - intros E. exists (drop (length croot) c). by rewrite <- E at 1; rewrite take_drop.
    - intros [r ->]. apply take_app_length. }
  induction rel_rev as [|x rel IH]; cbn [resolves_inside_loop].
  - destruct (canonicalize (root ++ rev [])) as [c|] eqn:E.
    + rewrite Hpre. split.
      * intros Hc k c' Hk _ _ Hc'. cbn [rev] in *. rewrite take_nil in Hc'. by simplify_eq.
      * intros Hall. apply (Hall 0); [done|by right|intros; simpl in *; lia|done].
    + split; [|done]. intros _ k c' _ _ _ Hc'. cbn [rev] in *. rewrite take_nil in Hc'. congruence.
  - set (all := rev (x :: rel)). assert (length all = S (length rel)) as Hlen
      by (subst all; by rewrite length_rev).
    assert (take (S (length rel)) all = all) as Hfull by (by rewrite take_ge by lia).
    assert (∀ j, j ≤ length rel → take j all = take j (rev rel)) as Htake.
    { intros j Hj. subst all. cbn [rev]. rewrite take_app_le; [done|]. by rewrite length_rev. }
    destruct (canonicalize (root ++ all)) as [c|] eqn:E.
    + rewrite Hpre. split.
      * intros Hc k c' Hk Hk0 Hnone Hc'. simpl in Hk.
        destruct (decide (k = S (length rel))) as [-> |Hne].
        -- rewrite Hfull in Hc'. by simplify_eq.
        -- specialize (Hnone (S (length rel)) ltac:(lia) ltac:(simpl; lia)).
           rewrite Hfull in Hnone. congruence.
      * intros Hall. apply (Hall (S (length rel))); [done|left; lia|intros; simpl in *; lia|].
        by rewrite Hfull.
    + destruct rel as [|y rel].
      * split; [|done]. intros _ k c' Hk [Hk0|]; [|done]. simpl in Hk.
        assert (k = 1) as -> by lia. intros _. simpl length in Hfull. rewrite Hfull. congruence.
      * rewrite IH. split; intros Hall k c' Hk Hk0 Hnone Hc'.
        -- destruct (decide (k = S (length (y :: rel)))) as [-> |Hne]; [rewrite Hfull in Hc'; congruence|].
           simpl in Hk, Hne. rewrite Htake in Hc' by (simpl; lia).
           apply (Hall k); [simpl; lia| |intros j Hj Hj'|done].
           { left. destruct Hk0; [done|discriminate]. }
           rewrite <- Htake by done. apply Hnone; [done|simpl in *; lia].
        -- apply (Hall k); [simpl in *; lia| |intros j Hj Hj'|by rewrite Htake].
           { left. destruct Hk0; [done|discriminate]. }
           destruct (decide (j = S (length (y :: rel)))) as [-> |Hne]; [by rewrite Hfull|].
           rewrite Htake by (simpl in *; lia). apply Hnone; [done|simpl in *; lia].
Qed.

(** A path is taken for one of the vault exactly when the deepest of it and
    of the folders above it, up to below the root, that the file system can
    resolve leads below the vault's own resolved root: a link out of the vault
    is refused whether or not the file behind it exists. *)
Theorem resolves_inside_spec canonicalize root rel :
  rel ≠ [] →
  resolves_inside canonicalize root rel = true ↔
  ∀ k c, 0 < k ≤ length rel →
    (∀ j, k < j ≤ length rel → canonicalize (root ++ take j rel) = None) →
    canonicalize (root ++ take k rel) = Some c →
    default root (canonicalize root) `prefix_of` c.
Proof.
  intros Hne. unfold resolves_inside. rewrite resolves_inside_loop_spec, rev_involutive, length_rev.
  split; intros Hall k c.
  - intros Hk Hnone. apply Hall; [lia|left; lia|]. intros j Hj Hj'. apply Hnone. lia.
  - intros Hk [Hk0|E] Hnone.
    + apply Hall; [lia|]. intros j Hj. apply Hnone; lia.
    + destruct rel as [|x rel]; [done|]. simpl in E. by destruct (rev rel).
Qed.

Section desk_theory.
Context `{ChronoParse} `{!ChronoDays} `{!Clock} {faults : FsFaults}.
Context `{UnicodeTables} `{Digest} `{SeenJson}.
Implicit Types (d : Desk) (env : DeskEnv) (meta : CallMeta) (files : Store) (path : str).

(** ** Calls are applied once *)

(** A write an agent may ask for. *)
Inductive WriteCall :=
  | CallRemember (fact : str)
  | CallNoteToday (lines : list str).

Definition run_write env (call : WriteCall) meta d : Desk * result WriteOutcome HostError :=
  match call with
  | CallRemember fact => desk_remember env fact meta d
  | CallNoteToday lines => desk_note_today env lines meta d
  end.

(** The memory of the calls only grows. *)
Definition remembers (d d' : Desk) : Prop :=
  seen_loaded d = true → seen_loaded d' = true ∧
  ∀ id e, seen_entries d !! id = Some e → seen_entries d' !! id = Some e.

Lemma remembers_refl d : remembers d d.
Proof. done. Qed.

Lemma remembers_same d d' :
  seen_loaded d' = seen_loaded d → seen_entries d' = seen_entries d → remembers d d'.
Proof. intros Hl He Hd. rewrite Hl, He. done. Qed.

Lemma apply_write_seen env write seed d d' r :
  apply_write env write seed d = (d', r) →
  seen_loaded d' = seen_loaded d ∧ seen_entries d' = seen_entries d ∧ desk_index d' = desk_index d.
Proof.
  unfold apply_write. destruct (if fs_is_file _ _ then _ else _) as [existing|e]; [|by intros [= <- <-]].
  destruct (_ || _); [by intros [= <- <-]|].
  destruct (transient _); [|by intros [= <- <-]].
  destruct (fs_atomic_write _ _ _ _) as [files [?|e]]; by intros [= <- <-].
Qed.

(** The part of both writes after the call id was not found. *)
Definition write_fresh env (call : WriteCall) meta d : Desk * result WriteOutcome HostError :=
  match call with
  | CallRemember fact =>
      match from_refusal (check_fact fact (load_forbidden_topics d)) with
      | Err e => (d, Err e)
      | Ok fact =>
          let date := default (env_today env)
                        (accepted_call_date (call_date meta) (env_today env)) in
          let line := inbox_line date fact (identity env) in
          if match fs_load INBOX_PATH (desk_files d) with
             | Ok existing => inbox_holds fact existing
             | Err _ => false
             end
          then (d, Err (Refused (u "that line is already in the inbox")))
          else match apply_write env (inbox_write WRITE_CLIENT_ID line) None d with
            | (d, Err e) => (d, Err e)
            | (d, Ok outcome) => (record_seen env meta outcome d, Ok outcome)
            end
      end
  | CallNoteToday lines =>
      match (rendered ←! today_lines (identity env) (load_forbidden_topics d) lines;
             date ←! note_today_date env (call_date meta); Ok (rendered, date)) with
      | Err e => (d, Err e)
      | Ok (rendered, date) =>
          let path := note_path (env_vault env) Daily date in
          if starts_with [SLASH] path
          then (d, Err (Refused (u "today's note is outside the vault")))
          else
            let seed := note_seed env path date (desk_files d) in
            let write := today_write WRITE_CLIENT_ID path (today_heading env) rendered in
            match apply_write env write seed d with
            | (d, Err e) => (d, Err e)
            | (d, Ok outcome) => (record_seen env meta outcome d, Ok outcome)
            end
      end
  end.

Lemma run_write_eq env call meta d :
  run_write env call meta d =
  match seen env meta d with
  | (d, Some outcome) => (d, Ok outcome)
  | (d, None) => write_fresh env call meta d
  end.
Proof. by destruct call. Qed.

(** A fresh write ends in one application, recorded when it succeeds. *)
Lemma write_fresh_cases env call meta d d' r :
  write_fresh env call meta d = (d', r) →
  (d' = d ∧ ∃ e, r = Err e) ∨
  ∃ write seed d1 r1, apply_write env write seed d = (d1, r1) ∧
    match r1 with
    | Ok outcome => d' = record_seen env meta outcome d1 ∧ r = Ok outcome
    | Err e => d' = d1 ∧ r = Err e
    end.
Proof.
  destruct call as [fact|lines]; cbn [write_fresh].
  - destruct (from_refusal _) as [accepted|e]; [|intros [= <- <-]; left; eauto].
    destruct (match fs_load _ _ with Ok _ => _ | Err _ => _ end); [intros [= <- <-]; left; eauto|].
    destruct (apply_write _ _ _ _) as [d1 [o|e]] eqn:E; intros [= <- <-]; right; do 4 eexists;
      (split; [exact E|done]).
  - destruct (result_bind _ _) as [[rendered date]|e]; [|intros [= <- <-]; left; eauto].
    destruct (starts_with _ _); [intros [= <- <-]; left; eauto|].
    destruct (apply_write _ _ _ _) as [d1 [o|e]] eqn:E; intros [= <- <-]; right; do 4 eexists;
      (split; [exact E|done]).
Qed.

Lemma seen_spec env meta d d' o :
  seen env meta d = (d', o) →
  remembers d d' ∧ desk_files d' = desk_files d ∧ desk_checkpoints d' = desk_checkpoints d ∧
  desk_index d' = desk_index d ∧
  (∀ id, call_id meta = Some id → seen_loaded d' = true ∧ o = snd <$> seen_entries d' !! id) ∧
  (call_id meta = None → o = None).
Proof.
  unfold seen. destruct (call_id meta) as [id|]; [|by intros [= <- <-]].
  intros [= <- <-]. unfold load_seen. destruct (seen_loaded d) eqn:El.
  - split_and!; try done. by intros ? [= <-].
  - split_and!; try done; [intros Hl; by rewrite El in Hl|by intros ? [= <-]].
Qed.

Lemma run_write_remembers env call meta d : remembers d (run_write env call meta d).1.
Proof.
  rewrite run_write_eq. destruct (seen env meta d) as [d0 o] eqn:Es.
  apply seen_spec in Es as (Hr & _ & _ & _ & Hid & Hno). destruct o as [outcome|]; [done|].
  destruct (write_fresh env call meta d0) as [d' r] eqn:Ew. cbn [fst].
  apply write_fresh_cases in Ew as [(-> & _)|(write & seed & d1 & r1 & Ea & Hr1)]; [done|].
  apply apply_write_seen in Ea as (El & Ee & _). intros Hl. apply Hr in Hl as [Hl He].
  destruct r1 as [outcome|e]; destruct Hr1 as [-> _].
  - unfold record_seen. destruct (call_id meta) as [id|] eqn:Ei; cbn [seen_loaded seen_entries].
    + rewrite El, Ee. split; [done|]. intros id' e Hid'. destruct (Hid id eq_refl) as [_ Hnone].
      rewrite lookup_insert_ne; [by apply He|]. intros ->. apply He in Hid'. by rewrite Hid' in Hnone.
    + rewrite El, Ee. done.
  - rewrite El, Ee. done.
Qed.

Lemma ensure_index_seen env d : remembers d (ensure_index env d).
Proof. unfold ensure_index. by destruct (desk_index d). Qed.

Lemma index_changed_seen path removed d : remembers d (index_changed path removed d).1.
Proof.
  unfold index_changed. destruct (desk_index d); [|done]. destruct (negb _); [done|].
  by destruct removed.
Qed.

Lemma index_read_seen path entry d : remembers d (index_read path entry d).
Proof. unfold index_read. destruct entry as [[m b]|]; [|done]. by destruct (desk_index d). Qed.

Lemma desk_read_state env target d :
  (desk_read env target d).1 = d ∨ (desk_read env target d).1 = ensure_index env d.
Proof.
  unfold desk_read. destruct target as [path|link]; cbn [desk_target]; [by left|].
  destruct (default _ _); by right.
Qed.

Lemma dispatch_remembers `{JsonOps} env request version d :
  remembers d (@dispatch _ _ _ _ Desk (DeskHost env) d request version).1.
Proof.
  apply (dispatch_keeps (ToolHost0 := DeskHost env) remembers); try done; intros.
  - apply ensure_index_seen.
  - cbn [host_read DeskHost]. destruct (desk_read_state env t d) as [-> | ->];
      [done|apply ensure_index_seen].
  - apply ensure_index_seen.
  - apply (run_write_remembers env (CallRemember f)).
  - apply (run_write_remembers env (CallNoteToday l)).
Qed.

(** After a successful write the call is on record. *)
Lemma run_write_recorded env call meta d d' outcome id :
  run_write env call meta d = (d', Ok outcome) → call_id meta = Some id →
  seen_loaded d' = true ∧ snd <$> seen_entries d' !! id = Some outcome.
Proof.
  intros Hrun Hid. rewrite run_write_eq in Hrun. destruct (seen env meta d) as [d0 o] eqn:Es.
  apply seen_spec in Es as (_ & _ & _ & _ & Hs & _). destruct (Hs id Hid) as [Hl Ho].
  destruct o as [o|]; [by injection Hrun as <- <-|].
  apply write_fresh_cases in Hrun as [(_ & e & [=])|(write & seed & d1 & r1 & Ea & Hr)].
  apply apply_write_seen in Ea as (El & Ee & _).
  destruct r1 as [o|e]; destruct Hr as [-> [= <-]]. unfold record_seen. rewrite Hid.
  cbn [seen_loaded seen_entries]. by rewrite lookup_insert_eq, El.
Qed.

Lemma run_write_known env call meta d id e :
  call_id meta = Some id → seen_loaded d = true → seen_entries d !! id = Some e →
  run_write env call meta d = (d, Ok e.2).
Proof. intros Hid Hl He. rewrite run_write_eq. unfold seen, load_seen. by rewrite Hid, Hl, He. Qed.
End desk_theory.

(** ** Whatever happens between two deliveries *)

Section desk_steps.
Context `{ChronoParse} `{!ChronoDays} `{!Clock} `{UnicodeTables} `{Digest} `{SeenJson} `{JsonOps}.
Implicit Types (d : Desk).

(** What may happen to a desk between two deliveries of a call: any request
    served, file events, the readings they started, and other programs writing into the vault; the file
    system may fail differently each time. *)
Inductive desk_step : Desk → Desk → Prop :=
  | step_request `{FsFaults} env request version d :
      desk_step d (@dispatch _ _ _ _ Desk (DeskHost env) d request version).1
  | step_event path removed d : desk_step d (index_changed path removed d).1
  | step_index path entry d : desk_step d (index_read path entry d)
  | step_files files d : desk_step d (with_files files d).

Lemma remembers_steps d d' : rtc desk_step d d' → remembers d d'.
Proof.
  induction 1 as [d|d d1 d2 Hs _ IH]; [done|].
  assert (remembers d d1) as Hr.
  { destruct Hs; [apply dispatch_remembers|apply index_changed_seen|apply index_read_seen|done]. }
  intros Hl. apply Hr in Hl as [Hl He]. apply IH in Hl as [Hl He']. split; [done|].
  intros id e Hid. by apply He', He.
Qed.

(** C2: a call that was applied is never applied again, however often its reply
    is lost: after any other requests, file events and writes of other programs,
    the same call id gets the same outcome and changes nothing, not even a file
    or a restore point. *)
Theorem applied_once (faults faults' : FsFaults) env call meta d d1 d2 outcome id :
  run_write (faults := faults) env call meta d = (d1, Ok outcome) → call_id meta = Some id →
  rtc desk_step d1 d2 →
  ∀ env' call' meta', call_id meta' = Some id →
    run_write (faults := faults') env' call' meta' d2 = (d2, Ok outcome).
Proof.
  intros Hrun Hid Hsteps env' call' meta' Hid'.
  destruct (run_write_recorded _ _ _ _ _ _ _ Hrun Hid) as [Hl Ho].
  destruct (remembers_steps _ _ Hsteps Hl) as [Hl2 He].
  destruct (seen_entries d1 !! id) as [e|] eqn:E; [|done]. injection Ho as <-.
  apply (run_write_known env' call' meta' d2 id e Hid' Hl2 (He _ _ E)).
Qed.
End desk_steps.

(** ** What a write changes *)

Section desk_writes.
Context `{ChronoParse} `{!ChronoDays} `{!Clock} `{FsFaults}.
Context `{UnicodeTables} `{Digest} `{SeenJson}.
Implicit Types (d : Desk) (env : DeskEnv) (meta : CallMeta) (files : Store) (path : str).

(** The text a write starts from: the file's, as far as its metadata can be
    read. *)
Definition starts_from path files (existing : option str) : Prop :=
  metadata_fault path = None → existing = file_text <$> files !! path.

(** Everything but the path of the write stays, and it changes only after a
    restore point was asked for. *)
Lemma apply_write_effect env write seed d d' r :
  apply_write env write seed d = (d', r) →
  (desk_files d' = desk_files d ∧ (∀ outcome, r = Ok outcome → outcome = Noop')) ∨
  ∃ existing,
    starts_from (Write_path write) (desk_files d) existing ∧
    applied_outcome (apply existing write seed) ≠ Noop ∧
    desk_files d' =
      <[Write_path write :=
          mkVaultFile (applied_text (apply existing write seed)) (env_today env)]> (desk_files d) ∧
    desk_checkpoints d' = S (desk_checkpoints d) ∧
    r = Ok (from_outcome (applied_outcome (apply existing write seed))).
Proof.
  unfold apply_write. destruct (if fs_is_file _ _ then _ else _) as [existing|e] eqn:Ee.
  2:{ intros [= <- <-]. left. split; [done|]. intros ? E; discriminate E. }
  destruct (_ == Noop) eqn:En; [intros [= <- <-]; left; split; [done|by intros ? [= <-]]|].
  destruct (_ == Some _); [intros [= <- <-]; left; split; [done|by intros ? [= <-]]|].
  cbn [orb].
  destruct (transient (fs_create_dir _)) as [?|e]; [|intros Hq; injection Hq as <- <-; left; split; [done|intros ? E; discriminate E]].
  unfold fs_atomic_write. destruct (atomic_write_fault _) as [e|]; intros [= <- <-].
  { left. split; [done|]. intros ? E; discriminate E. }
  right. exists existing. split_and!; try done; [|by intros E; rewrite E in En]. intros Hm.
  unfold fs_is_file, fs_metadata, failing in Ee. rewrite Hm in Ee.
  destruct (desk_files d !! Write_path write) as [f|] eqn:Ef; [|by injection Ee as <-].
  destruct (fs_load _ _) as [t|e] eqn:El; [|done]. cbn in Ee. injection Ee as <-.
  apply fs_load_Ok in El as [day El]. rewrite Ef in El. by injection El as ->.
Qed.

Lemma write_state_file_other relative dir text today files p :
  p ≠ relative → (write_state_file relative dir text today files).1 !! p = files !! p.
Proof.
  intros Hp. unfold write_state_file, fs_atomic_write. destruct (with_context _ _); [|done].
  destruct (atomic_write_fault _); [done|]. cbn [fst]. by rewrite lookup_insert_ne.
Qed.

Lemma record_seen_files env meta outcome d path :
  path ≠ SEEN_PATH → desk_files (record_seen env meta outcome d) !! path = desk_files d !! path.
Proof.
  intros Hp. unfold record_seen. destruct (call_id meta); [|done]. cbn [desk_files].
  by apply write_state_file_other.
Qed.

Lemma record_seen_checkpoints env meta outcome d :
  desk_checkpoints (record_seen env meta outcome d) = desk_checkpoints d.
Proof. unfold record_seen. by destruct (call_id meta). Qed.

Lemma today_lines_Ok who forbidden lines rendered :
  today_lines who forbidden lines = Ok rendered →
  Forall2 (λ line out, ∃ fact, check_fact line forbidden = Ok fact ∧ out = today_line who fact)
    lines rendered.
Proof.
  revert rendered. induction lines as [|line lines IH]; intros rendered; cbn [today_lines].
  - intros [= <-]. constructor.
  - destruct (check_fact line forbidden) as [fact|e] eqn:Ec; [|done].
    cbn [from_refusal result_bind]. rewrite result_bind_Ok. intros (rest & Hr & [= <-]).
    constructor; [eauto|by apply IH].
Qed.

Lemma sublist_applied existing write seed :
  adds (Write_operation write) →
  default [] existing `sublist_of` applied_text (apply existing write seed).
Proof.
  intros Ha. destruct existing as [text|]; cbn [from_option id]; [|apply sublist_nil_l].
  apply nothing_lost_lemma. by left.
Qed.

(** What an agent's call asks to be written, once the rules accepted every line
    it brings against the topics of the person's profile: to which file, under
    which heading and with which lines. *)
Inductive asks env meta d : WriteCall → str → option Heading → list str → option str → Prop :=
  | asks_remember fact accepted :
      check_fact fact (load_forbidden_topics d) = Ok accepted →
      asks env meta d (CallRemember fact) INBOX_PATH None
        [inbox_line (default (env_today env) (accepted_call_date (call_date meta) (env_today env)))
           accepted (identity env)] None
  | asks_note_today lines rendered date :
      Forall2 (λ line out, ∃ accepted, check_fact line (load_forbidden_topics d) = Ok accepted ∧
                 out = today_line (identity env) accepted) lines rendered →
      note_today_date env (call_date meta) = Ok date →
      starts_with [SLASH] (note_path (env_vault env) Daily date) = false →
      asks env meta d (CallNoteToday lines) (note_path (env_vault env) Daily date)
        (Some (Heading_new (trim (today_heading env)))) rendered
        (note_seed env (note_path (env_vault env) Daily date) date (desk_files d)).

(** The call's lines added to the file at [path], which is made from [seed] when
    it is missing. *)
Definition added_to env meta call d d' (r : result WriteOutcome HostError) : Prop :=
  ∃ path heading lines seed existing text base,
    asks env meta d call path heading lines seed ∧
    starts_from path (desk_files d) existing ∧
    base = base_document existing (Append heading lines End false (is_some heading) None) seed ∧
    holds_lines base heading lines text ∧ default [] existing `sublist_of` text ∧
    (∃ outcome, r = Ok outcome) ∧
    desk_checkpoints d' = S (desk_checkpoints d) ∧
    (∀ p, p ≠ path → p ≠ SEEN_PATH → desk_files d' !! p = desk_files d !! p) ∧
    (path ≠ SEEN_PATH → desk_files d' !! path = Some (mkVaultFile text (env_today env))).

Definition leaves_files d d' : Prop :=
  ∀ p, p ≠ SEEN_PATH → desk_files d' !! p = desk_files d !! p.

Lemma recorded_write_adds env call meta path heading lines seed d d' r :
  asks env meta d call path heading lines seed →
  match apply_write env (Write_new WRITE_CLIENT_ID path
          (Append heading lines End false (is_some heading) None)) seed d with
  | (d1, Err e) => (d1, Err e)
  | (d1, Ok outcome) => (record_seen env meta outcome d1, Ok outcome)
  end = (d', r) →
  leaves_files d d' ∨ added_to env meta call d d' r.
Proof.
  intros Hask Hw. set (write := Write_new _ _ _) in Hw.
  destruct (apply_write env write seed d) as [d1 r1] eqn:Ew.
  apply apply_write_effect in Ew as [[Hd1 _]|(existing & Hst & Hn & Hd1 & Hck & ->)].
  - left. intros p Hp. destruct r1 as [outcome|e]; injection Hw as <- <-.
    + by rewrite record_seen_files, Hd1.
    + by rewrite Hd1.
  - right. injection Hw as <- <-.
    exists path, heading, lines, seed, existing, (applied_text (apply existing write seed)),
      (base_document existing (Write_operation write) seed).
    split; [exact Hask|]. split_and!; [exact Hst|done| | | | | |].
    + by apply (append_adds_lines existing write seed heading lines End false (is_some heading)).
    + by apply sublist_applied.
    + by eexists.
    + by rewrite record_seen_checkpoints.
    + intros p Hp Hs. rewrite record_seen_files by done. by rewrite Hd1, lookup_insert_ne.
    + intros Hs. rewrite record_seen_files by done. rewrite Hd1. apply lookup_insert_eq.
Qed.

Lemma write_fresh_adds env call meta d d' r :
  write_fresh env call meta d = (d', r) → leaves_files d d' ∨ added_to env meta call d d' r.
Proof.
  assert (∀ r', (d, r') = (d', r) → leaves_files d d' ∨ added_to env meta call d d' r)
    as Hsame by (intros r' [= <- <-]; by left).
  destruct call as [fact|lines]; cbn [write_fresh].
  - destruct (check_fact fact _) as [accepted|e] eqn:Eacc; [|apply Hsame].
    cbn [from_refusal]. destruct (match fs_load _ _ with Ok _ => _ | Err _ => _ end); [apply Hsame|].
    apply (recorded_write_adds env _ meta INBOX_PATH None). by constructor.
  - destruct (result_bind _ _) as [[rendered date]|e] eqn:Eb; [|apply Hsame].
    apply result_bind_Ok in Eb as (rendered' & Hr & Eb).
    apply result_bind_Ok in Eb as (date' & Hd & [= -> ->]).
    destruct (starts_with _ _) eqn:Esl; [apply Hsame|].
    apply (recorded_write_adds env _ meta _ (Some (Heading_new (trim (today_heading env))))).
    constructor; [by apply today_lines_Ok|done..].
Qed.

Lemma agent_writes_lemma env call meta d d' r :
  run_write env call meta d = (d', r) →
  leaves_files d d' ∨ added_to env meta call d d' r.
Proof.
  rewrite run_write_eq. destruct (seen env meta d) as [d0 o] eqn:Es.
  apply seen_spec in Es as (_ & Hf & Hc & _ & _ & _).
  destruct o as [outcome|].
  { intros [= <- <-]. left. intros p _. by rewrite Hf. }
  intros [Hl|(path & heading & lines & seed & existing & text & base & Hask & Hadd)]%write_fresh_adds.
  { left. unfold leaves_files in *. by rewrite Hf in Hl. }
  right. exists path, heading, lines, seed, existing, text, base.
  unfold starts_from in *. rewrite Hf, Hc in Hadd. split; [|done].
  destruct Hask; [constructor|rewrite Hf; constructor]; try done;
    unfold load_forbidden_topics in *; by rewrite Hf in *.
Qed.

Lemma run_write_leaves env call meta d p :
  p ≠ SEEN_PATH → p ≠ INBOX_PATH → (∀ date, p ≠ note_path (env_vault env) Daily date) →
  desk_files (run_write env call meta d).1 !! p = desk_files d !! p.
Proof.
  intros Hs Hi Hn. destruct (run_write env call meta d) as [d' r] eqn:E.
  apply agent_writes_lemma in E as [Hl|(path & heading & lines & seed & existing & text & base & Hask & Hadd)];
    [by apply Hl|].
  destruct Hadd as (_ & _ & _ & _ & _ & _ & Hother & _). apply Hother; [|done]. destruct Hask; [done|apply Hn].
Qed.


(** ** What a read returns *)

(** C34: whatever an agent asks to read, by path or by wikilink, it gets at most
    the text of a file of the vault, at a relative path with no hidden or parent
    folder in it, that leads nowhere outside the vault; and reading changes
    nothing but the index built for it. *)
Theorem desk_read_safe env target d d' text :
  desk_read env target d = (d', Ok text) →
  (d' = d ∨ d' = ensure_index env d) ∧
  ∃ path modified,
    desk_files d !! path = Some (mkVaultFile text modified) ∧
    starts_with [SLASH_CHAR] path = false ∧
    Forall plain_component (split_by is_path_separator path) ∧
    resolves_inside (canonicalize env) (root env) (split_char SLASH path) = true.
Proof.
  intros Hrun. split.
  { pose proof (desk_read_state env target d) as Hs. by rewrite Hrun in Hs. }
  unfold desk_read in Hrun. destruct (desk_target env target d) as [d0 [relative|e]] eqn:Et; [|done].
  injection Hrun as <- Hrun. apply result_bind_Ok in Hrun as (path & Hp & Hl).
  unfold desk_note_path in Hp. destruct (validate_vault_path relative) as [[]|] eqn:Ev; [|done].
  apply vault_path_components in Ev as (_ & Hs & Hc).
  destruct (resolves_inside _ _ _) eqn:Er; [|done]. injection Hp as <-.
  destruct (negb _); [done|].
  destruct (fs_load _ _) as [t|e] eqn:El; [|done]. injection Hl as <-.
  apply fs_load_Ok in El as [day El]. exists (trim relative), day. split_and!; try done.
  assert (desk_files d0 = desk_files d) as <-; [|done].
  destruct target; cbn [desk_target] in Et; injection Et as <-; [done|].
  unfold ensure_index. by destruct (desk_index d).
Qed.

(** ** The index follows the files *)

(** What the index should hold of a path. *)
Definition indexed env files path : option (NaiveDate * str) :=
  if behind_link env path || negb (indexes path) then None else read_index_entry env files path.

Definition in_sync env files index : Prop :=
  index_ok index ∧ ∀ path, notes index !! path = indexed env files path.

Lemma index_file_ok env files index path :
  index_ok index → index_ok (index_file env files index path).
Proof.
  intros Hok. unfold index_file. destruct (_ || _); [done|].
  destruct (read_index_entry _ _ _) as [[m b]|]; [by apply upsert_ok|done].
Qed.

Lemma index_file_notes env files index path p :
  index_ok index →
  notes (index_file env files index path) !! p =
  if bool_decide (p = path) then
    match indexed env files path with Some n => Some n | None => notes index !! p end
  else notes index !! p.
Proof.
  intros Hok. unfold index_file, indexed. destruct (_ || _); [by case_bool_decide|].
  destruct (read_index_entry _ _ _) as [[m b]|]; [|by case_bool_decide].
  rewrite notes_upsert by done. case_bool_decide as Hp; [subst; apply lookup_insert_eq|].
  by rewrite lookup_insert_ne.
Qed.

Lemma index_files_notes env files paths index :
  index_ok index → (∀ p, notes index !! p = None ∨ notes index !! p = indexed env files p) →
  index_ok (fold_left (index_file env files) paths index) ∧
  ∀ p, notes (fold_left (index_file env files) paths index) !! p =
    if bool_decide (p ∈ paths) then indexed env files p else notes index !! p.
Proof.
  revert index. induction paths as [|path paths IH]; intros index Hok Hn; [done|].
  cbn [fold_left]. destruct (IH (index_file env files index path)) as [Hok' Hl].
  - by apply index_file_ok.
  - intros p. rewrite index_file_notes by done. case_bool_decide as Hp; [subst|apply Hn].
    destruct (indexed env files path) eqn:E; [by right|].
    destruct (Hn path) as [?|?]; [by left|left; congruence].
  - split; [done|]. intros p. rewrite Hl, index_file_notes by done.
    destruct (decide (p ∈ paths)) as [Hin|Hin].
    { rewrite !bool_decide_eq_true_2; [done|by right|done]. }
    rewrite bool_decide_eq_false_2 by done. destruct (decide (p = path)) as [-> |Hne].
    + rewrite !bool_decide_eq_true_2; [|by left|done]. destruct (indexed env files path) eqn:E; [done|].
      destruct (Hn path) as [Hn'|Hn']; [done|congruence].
    + rewrite !bool_decide_eq_false_2; [done| |done]. by intros [->|]%elem_of_cons.
Qed.

Lemma read_index_entry_file env files path n :
  read_index_entry env files path = Some n → is_Some (files !! path).
Proof.
  unfold read_index_entry, fs_metadata, failing. destruct (metadata_fault path); [done|].
  destruct (files !! path); [by eexists|done].
Qed.

Lemma build_index_in_sync env files : in_sync env files (build_index env files).
Proof.
  unfold build_index. destruct (index_files_notes env files (map fst (map_to_list files)) [])
    as [Hok Hl]; [apply index_ok_nil|by left|]. split; [done|]. intros p. rewrite Hl.
  case_bool_decide as Hin; [done|]. change (notes []) with (∅ : gmap str (NaiveDate * str)).
  rewrite lookup_empty. unfold indexed. destruct (_ || _); [done|].
  destruct (read_index_entry env files p) as [n|] eqn:E; [|done]. exfalso. apply Hin.
  apply read_index_entry_file in E as [f Hf]. change (map fst (map_to_list files)) with (map_to_list files).*1.
  apply list_elem_of_fmap. exists (p, f). split; [done|]. by apply elem_of_map_to_list.
Qed.

(** ** The index while files change

    The desk and what is under way: the paths whose change was not announced
    yet, and the readings that were started, each with what it found once it
    has. *)
Record Watched := mkWatched {
  watched_desk : Desk;
  due : gset str;
  readings : gmap str (option (option (NaiveDate * str)));
}.

Definition with_desk d (w : Watched) : Watched := mkWatched d (due w) (readings w).

Definition watched_files (w : Watched) : Store := desk_files (watched_desk w).

Definition plain_note env path : Prop := indexes path = true ∧ behind_link env path = false.

(** One step: a note is written or removed, an event comes for one, a reading
    that was started gives what the file holds or ends, or a first search builds
    the index. A note that is written can be read, and no event comes for a file
    while a reading of it is under way. *)
Inductive watch_step env : Watched → Watched → Prop :=
  | watch_change path file w :
      plain_note env path →
      let files := partial_alter (λ _, file) path (watched_files w) in
      (is_Some file → is_Some (read_index_entry env files path)) →
      watch_step env w
        (mkWatched (with_files files (watched_desk w)) ({[path]} ∪ due w) (readings w))
  | watch_event path d started w :
      plain_note env path → readings w !! path = None →
      index_changed path (bool_decide (watched_files w !! path = None)) (watched_desk w) = (d, started) →
      watch_step env w (mkWatched d (due w ∖ {[path]})
        (if started then <[path := None]> (readings w) else readings w))
  | watch_read path w :
      readings w !! path = Some None →
      watch_step env w (mkWatched (watched_desk w) (due w)
        (<[path := Some (read_index_entry env (watched_files w) path)]> (readings w)))
  | watch_update path entry w :
      readings w !! path = Some (Some entry) →
      watch_step env w (mkWatched (index_read path entry (watched_desk w)) (due w)
        (delete path (readings w)))
  | watch_search w : watch_step env w (with_desk (ensure_index env (watched_desk w)) w).

(** What the index, or the reading under way, holds of a path whose change was
    announced. *)
Definition follows env (w : Watched) index path : Prop :=
  let current := indexed env (watched_files w) path in
  match readings w !! path with
  | None | Some (Some None) => notes index !! path = current
  | Some None => notes index !! path = current ∨ is_Some current
  | Some (Some (Some entry)) => Some entry = current
  end.

Record watched_ok env (w : Watched) : Prop := {
  due_readable path : path ∈ due w → is_Some (watched_files w !! path) →
    is_Some (indexed env (watched_files w) path);
  readings_plain path : is_Some (readings w !! path) → plain_note env path;
  index_follows :
    match desk_index (watched_desk w) with
    | None => readings w = ∅
    | Some index => index_ok index ∧ ∀ path, path ∉ due w → follows env w index path
    end;
}.

Lemma indexed_plain env files path :
  plain_note env path → indexed env files path = read_index_entry env files path.
Proof. intros [Hi Hb]. unfold indexed. by rewrite Hi, Hb. Qed.

Lemma indexed_missing env files path : files !! path = None → indexed env files path = None.
Proof.
  intros Hf. unfold indexed. destruct (_ || _); [done|].
  destruct (read_index_entry env files path) as [n|] eqn:E; [|done].
  apply read_index_entry_file in E as [f E]. congruence.
Qed.

Lemma indexed_other env files path file p :
  p ≠ path → indexed env (partial_alter (λ _, file) path files) p = indexed env files p.
Proof.
  intros Hp. unfold indexed, read_index_entry, fs_metadata, fs_load.
  by rewrite lookup_partial_alter_ne.
Qed.

Lemma watch_change_ok env path file w :
  plain_note env path →
  let files := partial_alter (λ _, file) path (watched_files w) in
  (is_Some file → is_Some (read_index_entry env files path)) → watched_ok env w →
  watched_ok env (mkWatched (with_files files (watched_desk w)) ({[path]} ∪ due w) (readings w)).
Proof.
  intros Hp files Hread [Hd Hr Hx]. split; [|exact Hr|].
  - intros p. cbn [due watched_files watched_desk with_files desk_files].
    destruct (decide (p = path)) as [-> |Hne].
    + intros _ Hf. rewrite indexed_plain by done. apply Hread. unfold files in Hf.
      by rewrite lookup_partial_alter_eq in Hf.
    + intros Hin Hf. unfold files in *. rewrite indexed_other by done.
      rewrite lookup_partial_alter_ne in Hf by done. apply Hd; set_solver.
  - cbn [watched_desk with_files desk_index]. destruct (desk_index _) as [index|]; [|done].
    destruct Hx as [Hok Hx]. split; [done|]. intros p Hin.
    assert (p ≠ path) as Hne by set_solver. specialize (Hx p ltac:(set_solver)).
    unfold follows in *. cbn [watched_files watched_desk with_files desk_files readings].
    unfold files. by rewrite indexed_other.
Qed.

Lemma watch_event_ok env path d started w :
  plain_note env path → readings w !! path = None →
  index_changed path (bool_decide (watched_files w !! path = None)) (watched_desk w) = (d, started) →
  watched_ok env w →
  watched_ok env (mkWatched d (due w ∖ {[path]})
    (if started then <[path := None]> (readings w) else readings w)).
Proof.
  intros Hp Hnone He [Hd Hr Hx]. unfold index_changed in He. rewrite (proj1 Hp) in He. cbn [negb] in He.
  assert (∀ p, p ∈ due w ∖ {[path]} → is_Some (watched_files w !! p) →
    is_Some (indexed env (watched_files w) p)) as Hd' by (intros p ?; apply Hd; set_solver).
  destruct (desk_index (watched_desk w)) as [index|] eqn:Ei.
  2:{ injection He as <- <-. split; [exact Hd'|exact Hr|]. cbn [watched_desk]. by rewrite Ei. }
  destruct Hx as [Hok Hx]. case_bool_decide as Hf; injection He as <- <-.
  - split; [exact Hd'|exact Hr|]. cbn. split; [by apply remove_ok|]. intros p Hin.
    unfold follows. cbn. rewrite notes_remove by done.
    destruct (decide (p = path)) as [-> |Hne].
    + rewrite Hnone, lookup_delete_eq. symmetry. by apply indexed_missing.
    + rewrite lookup_delete_ne by done. apply (Hx p). set_solver.
  - split; [exact Hd'| |].
    { intros p. cbn [readings]. destruct (decide (p = path)) as [-> |Hne]; [done|].
      rewrite lookup_insert_ne by done. apply Hr. }
    cbn [watched_desk]. rewrite Ei. split; [done|]. intros p Hin. cbn [due] in Hin.
    unfold follows, watched_files. cbn [readings watched_desk].
    destruct (decide (p = path)) as [-> |Hne].
    + rewrite lookup_insert_eq. destruct (decide (path ∈ due w)) as [Hdue|Hdue].
      * right. apply Hd; [done|]. by apply not_eq_None_Some.
      * left. specialize (Hx path Hdue). unfold follows in Hx. by rewrite Hnone in Hx.
    + rewrite lookup_insert_ne by done. apply (Hx p). set_solver.
Qed.

Lemma watch_read_ok env path w :
  readings w !! path = Some None → watched_ok env w →
  watched_ok env (mkWatched (watched_desk w) (due w)
    (<[path := Some (read_index_entry env (watched_files w) path)]> (readings w))).
Proof.
  intros Hnone [Hd Hr Hx]. assert (plain_note env path) as Hp by (apply Hr; by rewrite Hnone).
  split; [exact Hd| |].
  { intros p. cbn [readings]. destruct (decide (p = path)) as [-> |Hne]; [done|].
    rewrite lookup_insert_ne by done. apply Hr. }
  cbn [watched_desk]. destruct (desk_index _) as [index|]; [|by rewrite Hx, lookup_empty in Hnone].
  destruct Hx as [Hok Hx]. split; [done|]. intros p Hin. specialize (Hx p Hin).
  unfold follows, watched_files in *. cbn [readings watched_desk].
  destruct (decide (p = path)) as [-> |Hne]; [|by rewrite lookup_insert_ne].
  rewrite lookup_insert_eq. rewrite Hnone, indexed_plain in Hx by done. rewrite indexed_plain by done.
  destruct (read_index_entry _ _ _) eqn:E; [done|]. destruct Hx as [Hx|[n Hx]]; [done|discriminate].
Qed.

Lemma watch_update_ok env path entry w :
  readings w !! path = Some (Some entry) → watched_ok env w →
  watched_ok env (mkWatched (index_read path entry (watched_desk w)) (due w) (delete path (readings w))).
Proof.
  intros Hsome [Hd Hr Hx]. unfold watched_files in *.
  destruct (desk_index (watched_desk w)) as [index|] eqn:Ei; [|by rewrite Hx, lookup_empty in Hsome].
  destruct Hx as [Hok Hx].
  assert (desk_files (index_read path entry (watched_desk w)) = desk_files (watched_desk w)) as Hfiles.
  { unfold index_read. rewrite Ei. by destruct entry as [[m b]|]. }
  split; unfold watched_files; cbn [watched_desk due readings]; rewrite ?Hfiles; [exact Hd| |].
  { intros p [x Hl%lookup_delete_Some]. apply Hr. exists x. tauto. }
  unfold index_read. rewrite Ei. destruct entry as [[m b]|].
  - cbn [with_index_of desk_index]. split; [by apply upsert_ok|]. intros p Hin. specialize (Hx p Hin).
    unfold follows, watched_files in *. cbn [readings watched_desk with_index_of desk_files].
    rewrite notes_upsert by done. destruct (decide (p = path)) as [-> |Hne].
    + rewrite lookup_delete_eq, lookup_insert_eq. by rewrite Hsome in Hx.
    + by rewrite lookup_delete_ne, lookup_insert_ne.
  - rewrite Ei. split; [done|]. intros p Hin. specialize (Hx p Hin).
    unfold follows, watched_files in *. cbn [readings watched_desk].
    destruct (decide (p = path)) as [-> |Hne]; [|by rewrite lookup_delete_ne].
    by rewrite lookup_delete_eq; rewrite Hsome in Hx.
Qed.

Lemma watch_search_ok env w :
  watched_ok env w → watched_ok env (with_desk (ensure_index env (watched_desk w)) w).
Proof.
  intros [Hd Hr Hx]. unfold ensure_index. destruct (desk_index (watched_desk w)) as [index|] eqn:Ei.
  { destruct w as [d u r]. by split; cbn in *; rewrite ?Ei. }
  split; [exact Hd|exact Hr|]. cbn. destruct (build_index_in_sync env (watched_files w)) as [Hok Hn].
  split; [done|]. intros p _. unfold follows, watched_files. cbn. by rewrite Hx, lookup_empty, Hn.
Qed.

Lemma watch_steps_ok env w w' : rtc (watch_step env) w w' → watched_ok env w → watched_ok env w'.
Proof.
  induction 1 as [w|w w1 w2 Hs _ IH]; [done|]. intros Hok. apply IH. destruct Hs.
  - by apply watch_change_ok.
  - by eapply watch_event_ok.
  - by apply watch_read_ok.
  - by apply watch_update_ok.
  - by apply watch_search_ok.
Qed.

(** A desk just started: no index yet, and nothing under way. *)
Definition watching d : Watched := mkWatched d ∅ ∅.


(** An event that comes while a reading of its file is under way is not
    covered, and would not be: a reading that ends after the file was removed
    puts the removed note back. *)
Lemma late_reading_restores path entry d index :
  desk_index d = Some index → index_ok index → indexes path = true →
  ∃ index', desk_index (index_read path (Some entry) (index_changed path true d).1) = Some index' ∧
    notes index' !! path = Some entry.
Proof.
  intros Hi Hok Hp. unfold index_changed. rewrite Hi, Hp. cbn. destruct entry as [m b].
  eexists. split; [done|]. rewrite notes_upsert by (by apply remove_ok). apply lookup_insert_eq.
Qed.
End desk_writes.

(** ** Across restarts *)

(** What [serde_json] promises: a line of its own, read back as it was. *)
Class SeenJsonLaws `{SeenJson} := {
  seen_json_line e : 10%N ∉ seen_to_json e ∧ 13%N ∉ seen_to_json e;
  seen_json_roundtrip e : seen_from_json (seen_to_json e) = Some e;
}.

Lemma join_unlines (l : list str) : l ≠ [] → join [10%N] l ++ [10%N] = unlines l.
Proof.
  induction l as [|x l IH]; intros Hne; [done|]. destruct l as [|y l]; [by cbn; rewrite app_nil_r|].
  change (join [10%N] (x :: y :: l)) with (x ++ [10%N] ++ join [10%N] (y :: l)).
  rewrite <- !app_assoc, IH by done. cbn [unlines flat_map]. by rewrite <- !app_assoc.
Qed.

Section restart.
Context `{ChronoParse} `{!ChronoDays} `{!Clock} `{FsFaults}.
Context `{UnicodeTables} `{Digest} `{SeenJsonLaws}.
Implicit Types (d : Desk) (env : DeskEnv) (meta : CallMeta) (entries : gmap str (Z * WriteOutcome)).

Definition seen_row (e : str * (Z * WriteOutcome)) : str * Z * WriteOutcome := (e.1, e.2.1, e.2.2).

Lemma load_seen_rows cutoff (rows : list (str * (Z * WriteOutcome))) entries :
  fold_left (load_seen_line cutoff) (map (λ e, seen_to_json (seen_row e)) rows) entries =
  fold_left (λ m e, if (cutoff <=? e.2.1)%Z then <[e.1 := e.2]> m else m) rows entries.
Proof.
  revert entries. induction rows as [|[id [t o]] rows IH]; intros entries; [done|].
  cbn [map fold_left]. rewrite IH. unfold load_seen_line at 1. by rewrite seen_json_roundtrip.
Qed.

Lemma kept_rows cutoff (rows : list (str * (Z * WriteOutcome))) entries id :
  NoDup rows.*1 →
  fold_left (λ m e, if (cutoff <=? e.2.1)%Z then <[e.1 := e.2]> m else m) rows entries !! id =
  match (list_to_map rows : gmap str (Z * WriteOutcome)) !! id with
  | Some e => if (cutoff <=? e.1)%Z then Some e else entries !! id
  | None => entries !! id
  end.
Proof.
  revert entries. induction rows as [|[k e] rows IH]; intros entries Hnd.
  { cbn [fold_left list_to_map foldr]. by rewrite lookup_empty. }
  apply NoDup_cons in Hnd as [Hk Hnd]. cbn [fold_left list_to_map foldr fst snd]. rewrite IH by done.
  destruct (decide (k = id)) as [-> |Hne].
  - rewrite lookup_insert_eq. cbn [snd fst]. apply not_elem_of_list_to_map_1 in Hk. cbn [fst] in Hk.
    rewrite Hk. destruct (cutoff <=? e.1)%Z; [by rewrite lookup_insert_eq|done].
  - rewrite lookup_insert_ne by done. destruct (list_to_map rows !! id) as [e'|].
    + destruct (cutoff <=? e'.1)%Z; [done|]. destruct (cutoff <=? e.1)%Z; [|done].
      by rewrite lookup_insert_ne.
    + destruct (cutoff <=? e.1)%Z; [|done]. by rewrite lookup_insert_ne.
Qed.

(** The lines of the file, read back. *)
Lemma load_seen_text cutoff entries :
  entries ≠ ∅ → ∀ id,
  fold_left (load_seen_line cutoff) (str_lines (seen_text entries ++ [10%N])) ∅ !! id =
  match entries !! id with
  | Some e => if (cutoff <=? e.1)%Z then Some e else None
  | None => None
  end.
Proof.
  intros Hne id. unfold seen_text.
  change (map _ (map_to_list entries)) with (map (λ e, seen_to_json (seen_row e)) (map_to_list entries)).
  rewrite join_unlines.
  2:{ intros E%map_eq_nil. by apply Hne, map_to_list_empty_iff. }
  rewrite str_lines_unlines, load_seen_rows, kept_rows.
  - by rewrite list_to_map_to_list, lookup_empty.
  - apply NoDup_fst_map_to_list.
  - apply Forall_forall. intros line [e [-> _]]%list_elem_of_fmap. apply seen_json_line.
Qed.

(** The next process on the same files. *)
Definition restarted d : Desk := mkDesk (desk_files d) None false ∅ 0.

End restart.
