(* ===== verification/ServerTheory.v ===== *)
(** * What the desk's server guarantees *)

From stdpp Require Import gmap relations.
From S2P Require Import Prelude Strings Utf8 External Dates Rules RuleTheory NoteIndex Rpc RpcTheory.
From S2P Require Import Http HttpTheory AgentMirror VaultFs Notes Memory Desk DeskTheory Server.

(** ** Comparing hashes *)

Lemma fold_lor_zero (l : list (N * N)) acc :
  fold_left (λ (acc : N) (ab : N * N), N.lor acc (N.lxor ab.1 ab.2)) l acc = 0%N ↔
  acc = 0%N ∧ Forall (λ ab, ab.1 = ab.2) l.
Proof.
  revert acc. induction l as [|[a b] l IH]; intros acc; cbn [fold_left fst snd].
  - split; [intros ->; split; [done|constructor]|by intros []].
  - rewrite IH, N.lor_eq_0_iff, N.lxor_eq_0_iff, Forall_cons. cbn [fst snd]. tauto.
Qed.

Lemma zip_equal (l r : list N) :
  length l = length r → Forall (λ ab : N * N, ab.1 = ab.2) (zip l r) → l = r.
Proof.
  revert r. induction l as [|x l IH]; intros [|y r]; try done.
  cbn. intros [= Hl] Hall. apply Forall_cons in Hall as [Hxy Hall]. cbn in Hxy. subst. f_equal. by apply IH.
Qed.

Lemma zip_self (l : list N) : Forall (λ ab : N * N, ab.1 = ab.2) (zip l l).
Proof. by induction l; constructor. Qed.

Lemma constant_time_eq_bytes l r : constant_time_eq l r = true ↔ as_bytes l = as_bytes r.
Proof.
  unfold constant_time_eq. destruct (Nat.eqb_spec (length (as_bytes l)) (length (as_bytes r))) as [E|E];
    cbn [negb].
  - rewrite N.eqb_eq, fold_lor_zero. split; [intros [_ ?]; by apply zip_equal|].
    intros ->. split; [done|apply zip_self].
  - split; [done|]. congruence.
Qed.

(** The comparison of token hashes that looks at every byte says what
    equality says. *)
Theorem constant_time_eq_spec l r :
  Forall scalar l → Forall scalar r → constant_time_eq l r = bool_decide (l = r).
Proof.
  intros Hl Hr. apply eq_true_iff_eq. rewrite constant_time_eq_bytes, bool_decide_eq_true.
  split; [by apply as_bytes_inj|by intros ->].
Qed.

Section server_theory.
Context `{JsonOps} `{ChronoParse} `{!ChronoDays} `{!Clock} `{FsFaults}.
Context `{UnicodeTables} `{Digest} `{SeenJson} `{!ServerFormats}.
Implicit Types (s : Server) (env : ServerEnv) (files : Store) (name : str).

(** ** Who gets in *)

(** The request carries the token of this client. *)
Definition token_of (client : PairedClient) (head : RequestHead) : Prop :=
  ∃ token, bearer_token (head_headers head) = Some token ∧
    as_bytes (sha256_hex token) = as_bytes (token_sha256 client).

Lemma authenticate_Some cs head name :
  authenticate cs head = Some name →
  ∃ client, client ∈ cs ∧ client_name client = name ∧ token_of client head.
Proof.
  unfold authenticate. intros (client & Hf & ->)%fmap_Some_1.
  apply List.find_some in Hf as [Hin Ht]. exists client. split; [by apply list_elem_of_In|]. split; [done|].
  unfold token_of. destruct (bearer_token _) as [token|]; [|done]. exists token. split; [done|].
  by apply constant_time_eq_bytes.
Qed.

Lemma authenticate_None cs head :
  authenticate cs head = None ↔ ∀ client, client ∈ cs → ¬ token_of client head.
Proof.
  unfold authenticate. rewrite fmap_None. split.
  - intros Hf client Hin (token & Ht & Heq). apply list_elem_of_In in Hin.
    eapply List.find_none in Hf; [|exact Hin]. rewrite Ht in Hf. cbn in Hf.
    apply constant_time_eq_bytes in Heq. congruence.
  - intros Hno. destruct (find _ cs) as [client|] eqn:Hf; [|done]. exfalso.
    apply List.find_some in Hf as [Hin Ht]. apply (Hno client); [by apply list_elem_of_In|].
    unfold token_of. destruct (bearer_token _) as [token|]; [|done]. exists token. split; [done|].
    by apply constant_time_eq_bytes.
Qed.

Lemma identify_spec cs head route :
  match identify cs head route with
  | inl reply => out_status reply ≠ 200%N
  | inr None => route = Pair
  | inr (Some name) => authenticate cs head = Some name
  end.
Proof. unfold identify. destruct route; try done; by destruct (authenticate cs head). Qed.

Lemma take_body_spec head route client body :
  match take_body head route client body with
  | inl reply => out_status reply ≠ 200%N
  | inr incoming =>
      incoming_route incoming = route ∧ incoming_client incoming = client ∧
      ∃ rest, read_body body (content_length head) = Ok (incoming_body incoming, rest)
  end.
Proof.
  unfold take_body. destruct (_ <? _)%N; [done|]. unfold read_body.
  destruct (_ <=? _)%N; [|done]. split_and!; [done|done|by eexists].
Qed.

(** A token no earlier client has is the last one's. *)
Lemma authenticate_last cs client head token :
  bearer_token (head_headers head) = Some token → token_sha256 client = sha256_hex token →
  (∀ c, c ∈ cs → as_bytes (token_sha256 c) ≠ as_bytes (sha256_hex token)) →
  authenticate (cs ++ [client]) head = Some (client_name client).
Proof.
  intros Ht Hc Hno. unfold authenticate. rewrite Ht. cbn [fmap option_fmap option_map is_some_and].
  induction cs as [|c cs IH]; cbn [app find].
  - rewrite (proj2 (constant_time_eq_bytes _ _)) by (by rewrite Hc). done.
  - destruct (constant_time_eq _ (token_sha256 c)) eqn:E.
    + apply constant_time_eq_bytes in E. by destruct (Hno c); [left|].
    + apply IH. intros c' Hin. apply Hno. by right.
Qed.

Lemma answer_spec cs head body :
  match answer cs head body with
  | inl reply => out_status reply ≠ 200%N
  | inr incoming =>
      incoming_route incoming = parse_route (head_method head) (head_url head) ∧
      (∃ rest, read_body body (content_length head) = Ok (incoming_body incoming, rest)) ∧
      match incoming_client incoming with
      | None => incoming_route incoming = Pair
      | Some name => authenticate cs head = Some name
      end
  end.
Proof.
  unfold answer. set (route := parse_route _ _). pose proof (identify_spec cs head route) as Ha.
  destruct (identify cs head route) as [reply|client]; [done|].
  pose proof (take_body_spec head route client body) as Hb.
  destruct (take_body _ _ _ _) as [reply|incoming]; [done|].
  destruct Hb as (-> & -> & Hr). split_and!; [done|done|by destruct client].
Qed.

(** A whole request, as far as the foreground. *)
Definition serve env (head : RequestHead) (body : Stream) s : Server * Outgoing :=
  match answer (clients s) head body with
  | inl reply => (s, reply)
  | inr incoming => handle_incoming env incoming s
  end.

(** The request gives the pairing code the desk shows, in time. *)
Definition spends_code env (body : list N) s : Prop :=
  ∃ request code, pair_request_from_slice body = Some request ∧
    plain_host_name (trim (pair_name request)) = true ∧ pending s = Some code ∧
    is_expired (now env) code = false ∧ code_matches (pair_code request) code = true.

Lemma handle_pair_idle env body host s :
  ¬ spends_code env body s →
  ∃ reply, handle_pair env body host s =
    (set_pending (if is_some_and (is_expired (now env)) (pending s)
                     && is_some_and (λ r, plain_host_name (trim (pair_name r)))
                          (pair_request_from_slice body)
                  then None else pending s) s, reply) ∧
    out_status reply ≠ 200%N ∧ out_status reply ≠ 500%N.
Proof.
  intros Hno. unfold handle_pair.
  assert (∀ p, p = pending s → set_pending p s = s) as Hset by (intros p ->; by destruct s).
  destruct (pair_request_from_slice body) as [request|] eqn:Er; cbn [is_some_and].
  2:{ rewrite andb_false_r, Hset by done. by eexists. }
  destruct (plain_host_name _) eqn:En; cbn [negb is_some_and].
  2:{ rewrite andb_false_r, Hset by done. by eexists. }
  destruct (pending s) as [code|] eqn:Ep; cbn [is_some_and].
  2:{ rewrite Hset by done. by eexists. }
  destruct (is_expired _ code) eqn:Ee; cbn [andb]; [by eexists|].
  destruct (code_matches _ code) eqn:Em; cbn [negb].
  { exfalso. apply Hno. by exists request, code. }
  rewrite Hset by done. by eexists.
Qed.

(** C5: without a paired machine's token, a request does nothing: it reads no
    note, changes no file and adds no machine. The one exception is the right
    pairing code, sent in time to the pairing address; a wrong one at most drops
    a code that has run out. *)
Theorem unpaired_requests_change_nothing env head body s s' reply :
  (∀ client, client ∈ clients s → ¬ token_of client head) →
  serve env head body s = (s', reply) →
  (parse_route (head_method head) (head_url head) = Pair →
   ∀ bytes rest, read_body body (content_length head) = Ok (bytes, rest) → ¬ spends_code env bytes s) →
  server_desk s' = server_desk s ∧ clients s' = clients s ∧
  (pending s' = pending s ∨ pending s' = None ∧ is_some_and (is_expired (now env)) (pending s) = true) ∧
  out_status reply ≠ 200%N.
Proof.
  intros Hno Hrun Hpair. apply authenticate_None in Hno. unfold serve in Hrun.
  pose proof (answer_spec (clients s) head body) as Ha.
  destruct (answer (clients s) head body) as [refusal|incoming].
  { injection Hrun as <- <-. by split_and!; [|  |left|]. }
  destruct Ha as (Hr & (rest & Hb) & Hp).
  destruct (incoming_client incoming) as [name|] eqn:Hc; [congruence|].
  rewrite Hp in Hr. specialize (Hpair (eq_sym Hr) _ _ Hb).
  unfold handle_incoming in Hrun. destruct (negb (vault_open s)).
  { injection Hrun as <- <-. split_and!; [done|done|by left|done]. }
  unfold handle_route in Hrun. rewrite Hp, Hc in Hrun.
  destruct (handle_pair_idle env _ (incoming_host incoming) s Hpair) as (r & Hh & Hst & _).
  rewrite Hh in Hrun. injection Hrun as <- <-. split_and!; [done|done| |done]. cbn [pending set_pending].
  destruct (is_some_and (is_expired (now env)) (pending s)) eqn:Ee; cbn [andb]; [|by left].
  destruct (is_some_and _ (pair_request_from_slice _)); [by right; split|by left].
Qed.

(** ** What a request leaves alone *)

Lemma update_client_Some name f cs client cs' :
  (∀ c, client_name (f c) = client_name c ∧ token_sha256 (f c) = token_sha256 c) →
  update_client name f cs = Some (client, cs') →
  map client_name cs' = map client_name cs ∧ map token_sha256 cs' = map token_sha256 cs.
Proof.
  intros Hf. revert cs'. induction cs as [|c cs IH]; intros cs'; [done|]. cbn [update_client].
  destruct (bool_decide _).
  - intros [= <- <-]. cbn [map]. destruct (Hf c) as [-> ->]. done.
  - destruct (update_client name f cs) as [[c' cs'']|]; [|done]. intros [= <- <-]. cbn [map].
    destruct (IH _ eq_refl) as [-> ->]. done.
Qed.

(** Only the clients' last calls change. *)
Definition same_machines s s' : Prop :=
  map client_name (clients s') = map client_name (clients s) ∧
  map token_sha256 (clients s') = map token_sha256 (clients s) ∧ pending s' = pending s.

Lemma touch_client_spec env name harness s s' persist :
  touch_client env name harness s = (s', persist) →
  same_machines s s' ∧ server_desk s' = server_desk s.
Proof.
  unfold touch_client. destruct (update_client _ _ _) as [[client cs]|] eqn:E; intros [= <- <-]; [|done].
  apply update_client_Some in E as [Hn Ht]; [|done]. done.
Qed.

(** Every request but a pairing works on the desk alone. *)
Lemma handle_mcp_desk env incoming s : ∃ d, (handle_mcp env incoming s).1 = set_desk d s.
Proof.
  assert (∃ d, s = set_desk d s) as Hs by (exists (server_desk s); by destruct s).
  unfold handle_mcp. destruct (JsonRpcRequest_parse _ _) as [request|]; [|exact Hs].
  destruct (is_notification _); [exact Hs|]. destruct (incoming_client _); [|exact Hs].
  destruct (dispatch _ _ _) as [d response]. by exists d.
Qed.

Lemma handle_agent_file_desk env client harness path body s :
  ∃ d, (handle_agent_file env client harness path body s).1 = set_desk d s.
Proof.
  assert (∃ d, s = set_desk d s) as Hs by (exists (server_desk s); by destruct s).
  unfold handle_agent_file. destruct client; [|exact Hs]. destruct (_ <? _)%N; [exact Hs|].
  destruct (negb _); [exact Hs|]. destruct (match validate_vault_path _ with Ok _ => _ | Err _ => _ end); [exact Hs|].
  destruct (negb _); [exact Hs|]. destruct (from_utf8 body); [|exact Hs].
  destruct (find_unkeepable _ _); [exact Hs|]. destruct (_ && _); [exact Hs|]. by eexists.
Qed.

Lemma handle_route_desk env incoming s :
  incoming_route incoming ≠ Pair → ∃ d, (handle_route env incoming s).1 = set_desk d s.
Proof.
  intros Hr. assert (∃ d, s = set_desk d s) as Hs by (exists (server_desk s); by destruct s).
  unfold handle_route. destruct (incoming_route incoming); try exact Hs; [done| |].
  - apply handle_mcp_desk.
  - apply handle_agent_file_desk.
Qed.

Lemma handle_incoming_machines env incoming s :
  incoming_route incoming ≠ Pair → same_machines s (handle_incoming env incoming s).1.
Proof.
  intros Hr. unfold handle_incoming. destruct (negb _); [done|].
  destruct (handle_route_desk env incoming s Hr) as [d Hd].
  destruct (handle_route env incoming s) as [s1 reply]. cbn [fst] in Hd. subst s1.
  destruct (incoming_client incoming) as [name|]; [|done].
  destruct (touch_client _ _ _ _) as [s' persist] eqn:Et.
  apply touch_client_spec in Et as [Hm _]. by destruct persist.
Qed.

Lemma persist_clients_machines env s : same_machines s (persist_clients env s).1.
Proof. unfold persist_clients. by destruct (write_state_file _ _ _ _ _). Qed.

Lemma handle_pair_clients env body host s :
  clients (handle_pair env body host s).1 = clients s ∨
  ∃ request client, pair_request_from_slice body = Some request ∧
    client_name client = trim (pair_name request) ∧
    clients (handle_pair env body host s).1 =
      filter (not_named (client_name client)) (clients s) ++ [client].
Proof.
  unfold handle_pair. destruct (pair_request_from_slice body) as [request|]; [|by left].
  destruct (negb _); [by left|]. destruct (pending s) as [code|]; [|by left].
  destruct (is_expired _ _); [by left|]. destruct (negb _); [by left|]. right.
  unfold persist_clients.
  match goal with |- context [mkPairedClient ?a ?b ?c ?d ?e ?f] =>
    exists request, (mkPairedClient a b c d e f) end.
  by destruct (write_state_file _ _ _ _ _) as [files [?|?]].
Qed.

Lemma handle_pair_pending env body host s :
  pending (handle_pair env body host s).1 = pending s ∨ pending (handle_pair env body host s).1 = None.
Proof.
  unfold handle_pair. destruct (pair_request_from_slice body) as [request|]; [|by left].
  destruct (negb _); [by left|]. destruct (pending s) as [code|] eqn:Ep; [|by left].
  destruct (is_expired _ _); [by right|]. destruct (negb _); [by left|]. right.
  unfold persist_clients. by destruct (write_state_file _ _ _ _ _) as [files [?|?]].
Qed.

Lemma handle_incoming_pair env incoming s :
  incoming_route incoming = Pair → incoming_client incoming = None → vault_open s = true →
  handle_incoming env incoming s = handle_pair env (incoming_body incoming) (incoming_host incoming) s.
Proof.
  intros Hr Hc Ho. unfold handle_incoming, handle_route. rewrite Ho, Hr, Hc. cbn [negb].
  by destruct (handle_pair _ _ _ _).
Qed.
End server_theory.

(** ** The server over time *)

Section server_events.
Context `{JsonOps} `{ChronoParse} `{!ChronoDays} `{!Clock}.
Context `{UnicodeTables} `{Digest} `{SeenJson} `{!ServerFormats}.
Implicit Types (s : Server) (env : ServerEnv) (name : str).

(** What happens to a serving desk; the file system may fail differently each
    time. *)
Inductive Event :=
  | Request (faults : FsFaults) (env : ServerEnv) (incoming : Incoming)
  | ClientsWrite (faults : FsFaults) (env : ServerEnv)
  | Disconnect (name : str)
  | BeginPairing (faults : FsFaults) (env : ServerEnv) (words : list str) (state : BridgeState)
  | Start (loaded : BridgeConfig * list PairedClient * option PendingCode)
  | DeskChange (d : Desk)
  | VaultOpened (is_open : bool).

Definition run_event s (e : Event) : Server :=
  match e with
  | Request faults env incoming => (handle_incoming env incoming s).1
  | ClientsWrite faults env => run_clients_write env s
  | Disconnect name => disconnect name s
  | BeginPairing faults env words state => (begin_pairing env words state s).1
  | Start loaded => install loaded s
  | DeskChange d => set_desk d s
  | VaultOpened is_open =>
      mkServer (server_desk s) (clients s) (pending s) is_open (serving_since s) (clients_write_due s)
  end.

Definition run_events s (es : list Event) : Server := fold_left run_event es s.

(** A pairing request carries no client. *)
Definition well_routed (e : Event) : Prop :=
  match e with
  | Request _ _ incoming => incoming_route incoming = Pair → incoming_client incoming = None
  | _ => True
  end.

Lemma run_events_keeps (P : Server → Prop) (ok : Event → Prop) s es :
  (∀ s e, ok e → P s → P (run_event s e)) → Forall ok es → P s → P (run_events s es).
Proof.
  intros Hstep Hes. revert s. induction Hes as [|e es He _ IH]; intros s Hs; [done|].
  apply IH, Hstep; done.
Qed.

Lemma run_event_request (faults : FsFaults) env incoming s :
  well_routed (Request faults env incoming) →
  (handle_incoming env incoming s).1 = s ∨
  same_machines s (handle_incoming env incoming s).1 ∨
  incoming_route incoming = Pair ∧
    (handle_incoming env incoming s).1 =
      (handle_pair env (incoming_body incoming) (incoming_host incoming) s).1.
Proof.
  intros Hw. destruct (decide (incoming_route incoming = Pair)) as [Hr|Hr].
  - destruct (vault_open s) eqn:Ho.
    + right; right. split; [done|]. by rewrite handle_incoming_pair by auto.
    + left. unfold handle_incoming. by rewrite Ho.
  - right; left. by apply handle_incoming_machines.
Qed.

(** *** One machine, one token *)

Definition names_unique s : Prop := NoDup (map client_name (clients s)).

Lemma filter_names (name : str) (cs : list PairedClient) :
  map client_name (filter (not_named name) cs) = filter (λ n, n ≠ name) (map client_name cs).
Proof.
  induction cs as [|c cs IH]; [done|]. cbn [map]. rewrite !filter_cons.
  unfold not_named at 1. destruct (decide (client_name c ≠ name)) as [Hn|Hn];
    destruct (decide (not_named name c)) as [Hn'|Hn']; try done. cbn [map]. by f_equal.
Qed.

(** A machine has one token. Whatever requests, pairings, disconnections and
    restarts happen, no name is in the list of paired machines twice, so pairing
    a machine again ends its old token. *)
Theorem machines_have_one_token s es :
  Forall (λ e, well_routed e ∧
    match e with Start loaded => NoDup (map client_name loaded.1.2) | _ => True end) es →
  names_unique s → names_unique (run_events s es).
Proof.
  apply run_events_keeps. clear. unfold names_unique.
  intros s e [Hw Hl] Hn. destruct e as [faults env incoming|faults env|name|faults env words state|loaded|d|o];
    cbn [run_event].
  - destruct (run_event_request faults env incoming s Hw) as [->|[(-> & _)|[_ ->]]]; [done|done|].
    destruct (handle_pair_clients env (incoming_body incoming) (incoming_host incoming) s)
      as [->|(request & client & _ & _ & ->)]; [done|].
    rewrite map_app, filter_names. apply NoDup_app. split_and!.
    + by apply NoDup_filter.
    + intros n [Hne _]%list_elem_of_filter Hin. apply list_elem_of_singleton in Hin. by subst.
    + apply NoDup_singleton.
  - unfold run_clients_write. destruct (clients_write_due s); [|done].
    destruct (persist_clients_machines env s) as [-> _]. done.
  - cbn. rewrite filter_names. by apply NoDup_filter.
  - unfold begin_pairing. destruct (negb _), state; try done.
    by destruct (write_state_file _ _ _ _ _).
  - done.
  - done.
  - done.
Qed.

(** *** Codes are spent once *)

(** No new code: nothing begins a pairing, and a start finds no code on disk. *)
Definition no_new_code (e : Event) : Prop :=
  match e with BeginPairing _ _ _ _ => False | Start loaded => loaded.2 = None | _ => True end.

Lemma no_code_kept s e :
  well_routed e ∧ no_new_code e → pending s = None → pending (run_event s e) = None.
Proof.
  intros [Hw Hn] Hs. destruct e as [faults env incoming|faults env|name|faults env words state|loaded|d|o];
    cbn [run_event]; try done.
  - destruct (run_event_request faults env incoming s Hw) as [->|[(_ & _ & ->)|[_ ->]]]; [done|done|].
    destruct (handle_pair_pending env (incoming_body incoming) (incoming_host incoming) s) as [->| ->]; done.
  - unfold run_clients_write. destruct (clients_write_due s); [|done].
    destruct (persist_clients_machines env s) as (_ & _ & ->). done.
Qed.


(** *** A machine that was disconnected stays out *)

(** The list of machines on disk, as far as it can be read, is without the name. *)
Definition off_disk name (files : Store) : Prop :=
  ∀ f cs, files !! CLIENTS_PATH = Some f → parse_clients (file_text f) = Ok cs → Forall (not_named name) cs.

Definition clients_file s : option VaultFile := desk_files (server_desk s) !! CLIENTS_PATH.

(** The list of machines can be written. *)
Definition list_writable (faults : FsFaults) : Prop :=
  create_dir_fault SEEN_DIR = None ∧ atomic_write_fault CLIENTS_PATH = None.

(** Nothing pairs the machine again; and the writes of the list go through. *)
Definition not_pairing name (e : Event) : Prop :=
  match e with
  | Request faults _ incoming =>
      list_writable faults ∧ ∀ request, incoming_route incoming = Pair →
        pair_request_from_slice (incoming_body incoming) = Some request → trim (pair_name request) ≠ name
  | ClientsWrite faults _ => list_writable faults
  | Start _ => False
  | _ => True
  end.

(** The next process on the same files, and what its start loads from them. *)
Definition next_process (files : Store) s : Server :=
  mkServer (restarted (with_files files (server_desk s))) [] None (vault_open s) (serving_since s) false.

(** One thing that happens to the desk after the machine was disconnected: an
    event; another program's change of files that is not one of the list; or,
    when no write of the list is outstanding, a start of the service or of a new
    process, with what it loads or with the error it meets. *)
Inductive life_step name : Server → Server → Prop :=
  | life_event e s :
      well_routed e → not_pairing name e →
      (∀ d, e = DeskChange d → desk_files d !! CLIENTS_PATH = clients_file s) →
      life_step name s (run_event s e)
  | life_start (faults : FsFaults) env again s files loaded :
      clients_write_due s = false →
      load_server_files env (desk_files (server_desk s)) = (files, Ok loaded) →
      life_step name s (install loaded (if again : bool then next_process files s
                                        else set_desk (with_files files (server_desk s)) s))
  | life_failed_start (faults : FsFaults) env again s files e :
      clients_write_due s = false →
      load_server_files env (desk_files (server_desk s)) = (files, Err e) →
      life_step name s (if again : bool then next_process files s
                        else set_desk (with_files files (server_desk s)) s).

(** A client's list that was written is read back. *)
Class ClientsLaws : Prop :=
  parse_rendered cs : parse_clients (render_clients cs) = Ok cs.

(** The machine is off the list, and off the disk once the list was written. *)
Definition out name s : Prop :=
  Forall (not_named name) (clients s) ∧
  (clients_write_due s = true ∨ off_disk name (desk_files (server_desk s))).

Lemma same_machines_absent name s s' :
  same_machines s s' → Forall (not_named name) (clients s) → Forall (not_named name) (clients s').
Proof.
  intros (Hn & _) Ha.
  assert (∀ cs, Forall (not_named name) cs ↔ Forall (λ n, n ≠ name) (map client_name cs)) as Hcs
    by (intros cs; by rewrite Forall_map).
  rewrite Hcs, Hn. by apply Hcs.
Qed.

Lemma Forall_filter_absent name n cs :
  Forall (not_named name) cs → Forall (not_named name) (filter (not_named n) cs).
Proof.
  intros Ha. apply Forall_forall. intros c [_ Hin]%list_elem_of_filter.
  rewrite Forall_forall in Ha. by apply Ha.
Qed.

Lemma off_disk_same name (files files' : Store) :
  files' !! CLIENTS_PATH = files !! CLIENTS_PATH → off_disk name files → off_disk name files'.
Proof. unfold off_disk. by intros ->. Qed.

Lemma out_same name s s' :
  Forall (not_named name) (clients s') → (clients_write_due s = true → clients_write_due s' = true) →
  clients_file s' = clients_file s → out name s → out name s'.
Proof.
  intros Hc Hd Hf [_ [Hdue|Hdisk]]; split; try done; [left; by apply Hd|right]. by eapply off_disk_same.
Qed.

Lemma persist_clients_out `{!ClientsLaws} (faults : FsFaults) name env s :
  list_writable faults → Forall (not_named name) (clients s) → out name (persist_clients env s).1.
Proof.
  intros [Hd Hw] Ha. unfold persist_clients, write_state_file, fs_create_dir, failing. rewrite Hd. cbn [with_context].
  unfold fs_atomic_write. rewrite Hw. cbn [with_context fst]. split; [done|right]. intros f cs.
  cbn [set_write_due set_desk server_desk with_files desk_files]. rewrite lookup_insert_eq. intros [= <-].
  cbn [file_text]. rewrite parse_rendered. by intros [= <-].
Qed.

Lemma note_is_not_the_list vault date : CLIENTS_PATH ≠ note_path vault Daily date.
Proof.
  intros E. assert (∃ a, note_path vault Daily date = a ++ u ".md") as [a Ha].
  { unfold note_path, join_path. destruct (starts_with _ _); [by eexists|].
    destruct (_ || _); eexists; [by rewrite app_assoc|]. by rewrite app_comm_cons, app_assoc. }
  rewrite Ha in E. apply (f_equal last) in E. rewrite last_app in E. discriminate E.
Qed.

Lemma dispatch_leaves_list `{FsFaults} (env : DeskEnv) request version (d : Desk) :
  desk_files (@dispatch _ _ _ _ Desk (DeskHost env) d request version).1 !! CLIENTS_PATH = desk_files d !! CLIENTS_PATH.
Proof.
  assert (∀ d, desk_files (ensure_index env d) = desk_files d) as Hi
    by (intros d0; unfold ensure_index; by destruct (desk_index d0)).
  assert (∀ call meta, desk_files (run_write env call meta d).1 !! CLIENTS_PATH = desk_files d !! CLIENTS_PATH) as Hw.
  { intros call meta. apply run_write_leaves; [done..|apply note_is_not_the_list]. }
  apply (dispatch_keeps (ToolHost0 := DeskHost env)
    (λ d d', desk_files d' !! CLIENTS_PATH = desk_files d !! CLIENTS_PATH)); try done; intros.
  - cbn [host_search DeskHost desk_search fst]. by rewrite Hi.
  - cbn [host_read DeskHost]. destruct (desk_read_state env t d) as [-> | ->]; [done|by rewrite Hi].
  - cbn [host_recent DeskHost desk_recent fst]. by rewrite Hi.
  - apply (Hw (CallRemember f)).
  - apply (Hw (CallNoteToday l)).
Qed.

Lemma mirrored_is_not_the_list harness client path : CLIENTS_PATH ≠ agent_file_path harness client path.
Proof. intros E. discriminate E. Qed.

(** No request but a pairing touches the list on disk. *)
Lemma handle_route_leaves_list `{FsFaults} env incoming s :
  incoming_route incoming ≠ Pair → clients_file (handle_route env incoming s).1 = clients_file s.
Proof.
  intros Hr. unfold handle_route. destruct (incoming_route incoming); try done.
  - unfold handle_mcp. destruct (JsonRpcRequest_parse _ _) as [request|]; [|done].
    destruct (is_notification _); [done|]. destruct (incoming_client _) as [name|]; [|done].
    set (e := with_identity _ _). pose proof (dispatch_leaves_list e request (app_version env) (server_desk s)) as Hd.
    destruct (dispatch _ _ _) as [d response]. exact Hd.
  - unfold handle_agent_file. destruct (incoming_client incoming); [|done]. destruct (_ <? _)%N; [done|].
    destruct (negb _); [done|]. destruct (match validate_vault_path _ with Ok _ => _ | Err _ => _ end); [done|].
    destruct (negb _); [done|]. destruct (from_utf8 _); [|done]. destruct (find_unkeepable _ _); [done|].
    destruct (_ && _); [done|]. unfold fs_create_dir, failing, fs_atomic_write.
    destruct (create_dir_fault _); [done|]. destruct (atomic_write_fault _); [done|].
    unfold clients_file. cbn [fst set_desk server_desk with_files desk_files take_checkpoint].
    apply lookup_insert_ne. apply not_eq_sym, mirrored_is_not_the_list.
Qed.

Lemma handle_pair_out `{!ClientsLaws} (faults : FsFaults) name env body host s :
  list_writable faults → (∀ request, pair_request_from_slice body = Some request → trim (pair_name request) ≠ name) →
  out name s → out name (handle_pair env body host s).1.
Proof.
  intros Hl Hn Hs. unfold handle_pair. destruct (pair_request_from_slice body) as [request|]; [|done].
  specialize (Hn request eq_refl). destruct (negb _); [done|]. destruct (pending s) as [code|]; [|done].
  destruct (is_expired _ _); [exact Hs|]. destruct (negb _); [done|].
  set (s1 := set_clients _ _). assert (Forall (not_named name) (clients s1)) as Ha.
  { cbn. apply Forall_app. split; [apply Forall_filter_absent, Hs|by apply Forall_singleton]. }
  pose proof (persist_clients_out faults name env s1 Hl Ha) as Ho.
  destruct (persist_clients env s1) as [s2 [[]|e]]; [|exact Ho]. cbn [fst] in *.
  apply (out_same name s2); [apply Ho|done| |done]. unfold clients_file, remove_pending_file, fs_remove_file.
  destruct (remove_fault _); [done|]. cbn [fst set_desk server_desk with_files desk_files]. by rewrite lookup_delete_ne.
Qed.

Lemma handle_incoming_out `{!ClientsLaws} (faults : FsFaults) name env incoming s :
  well_routed (Request faults env incoming) → not_pairing name (Request faults env incoming) →
  out name s → out name (handle_incoming env incoming s).1.
Proof.
  intros Hw [Hl Hn] Hs. unfold handle_incoming. destruct (negb _); [done|].
  destruct (decide (incoming_route incoming = Pair)) as [Hr|Hr].
  - rewrite (Hw Hr). unfold handle_route. rewrite Hr.
    pose proof (handle_pair_out faults name env (incoming_body incoming) (incoming_host incoming) s Hl
      (λ r, Hn r Hr) Hs) as Hp. by destruct (handle_pair _ _ _ _).
  - pose proof (handle_route_leaves_list env incoming s Hr) as Hf.
    destruct (handle_route_desk env incoming s Hr) as [d Hd].
    destruct (handle_route env incoming s) as [s1 reply]. cbn [fst] in Hd, Hf.
    assert (out name s1) as Hs1 by (apply (out_same name s); rewrite ?Hd; [apply Hs|done|by rewrite Hd in Hf|done]).
    destruct (incoming_client incoming) as [who|]; [|done].
    destruct (touch_client _ _ _ _) as [s2 persist] eqn:Et. pose proof Et as [Hm Hdesk]%touch_client_spec.
    assert (clients_write_due s2 = clients_write_due s1) as Hdue
      by (unfold touch_client in Et; destruct (update_client _ _ _) as [[??]|]; by injection Et as <- _).
    assert (out name s2) as Hs2.
    { apply (out_same name s1); [by eapply same_machines_absent; [|apply Hs1]|by rewrite Hdue| |done].
      unfold clients_file. by rewrite Hdesk. }
    destruct persist; [|done]. split; [apply Hs2|by left].
Qed.

Lemma write_state_file_leaves_list `{FsFaults} (relative dir text : str) (today : NaiveDate) (files : Store) :
  relative ≠ CLIENTS_PATH → (write_state_file relative dir text today files).1 !! CLIENTS_PATH = files !! CLIENTS_PATH.
Proof. intros Hr. apply write_state_file_other. by apply not_eq_sym. Qed.

Lemma run_event_out `{!ClientsLaws} name e s :
  well_routed e → not_pairing name e → (∀ d, e = DeskChange d → desk_files d !! CLIENTS_PATH = clients_file s) →
  out name s → out name (run_event s e).
Proof.
  intros Hw Hn Hd Hs. destruct e as [faults env incoming|faults env|n|faults env words state|loaded|d|o]; cbn [run_event].
  - by apply handle_incoming_out.
  - unfold run_clients_write. destruct (clients_write_due s); [|done]. apply persist_clients_out; [done|apply Hs].
  - split; [apply Forall_filter_absent, Hs|by left].
  - unfold begin_pairing. destruct (negb _), state; try done.
    pose proof (write_state_file_leaves_list PENDING_PATH SEEN_DIR (render_pending (mkPendingCode (sha256_hex (generate_code words))
      (to_rfc3339 (now env + PAIRING_CODE_MINUTES * 60 * SECOND)))) (today_of env) (desk_files (server_desk s)) ltac:(done)) as Hf.
    cbn [set_pending server_desk]. destruct (write_state_file _ _ _ _ _) as [files r]. cbn [fst] in *.
    apply (out_same name s); [apply Hs|done|exact Hf|done].
  - done.
  - apply (out_same name s); [apply Hs|done|by apply Hd|done].
  - apply (out_same name s); [apply Hs|done|done|done].
Qed.

Lemma load_server_files_leaves_list `{FsFaults} env (files files' : Store) r :
  load_server_files env files = (files', r) → files' !! CLIENTS_PATH = files !! CLIENTS_PATH.
Proof.
  unfold load_server_files. destruct (fs_is_file BRIDGE_CONFIG_PATH files); [by intros [= <- _]|].
  pose proof (write_state_file_leaves_list BRIDGE_CONFIG_PATH config_dir (BridgeConfig_render BridgeConfig_default)
    (today_of env) files ltac:(done)) as Hf. destruct (write_state_file _ _ _ _ _) as [files1 r1].
  by intros [= <- _].
Qed.

Lemma loaded_clients `{FsFaults} env (files files' : Store) config cs code :
  load_server_files env files = (files', Ok (config, cs, code)) →
  cs = [] ∨ ∃ f, files !! CLIENTS_PATH = Some f ∧ parse_clients (file_text f) = Ok cs.
Proof.
  intros Hl. pose proof (load_server_files_leaves_list env files files' _ Hl) as Hf. unfold load_server_files in Hl.
  destruct (if fs_is_file BRIDGE_CONFIG_PATH files then _ else _) as [files1 config1]. injection Hl as <- Hl.
  apply result_bind_Ok in Hl as (config2 & _ & Hl). apply result_bind_Ok in Hl as (cs2 & Hcs & Hl).
  apply result_bind_Ok in Hl as (code2 & _ & [= <- <- <-]).
  destruct (fs_is_file CLIENTS_PATH files1); [|injection Hcs as <-; by left]. right.
  apply result_bind_Ok in Hcs as (raw & Hraw & Hp). apply fs_load_Ok in Hraw as [day Hraw]. rewrite Hf in Hraw.
  eexists. split; [exact Hraw|]. cbn [file_text]. destruct (parse_clients raw) as [cs'|]; [by injection Hp as <-|done].
Qed.

Lemma life_step_out `{!ClientsLaws} name s s' : life_step name s s' → out name s → out name s'.
Proof.
  intros Hstep Hs. destruct Hstep as [e s Hw Hn Hd|faults env again s files [[config cs] code] Hdue Hl
    |faults env again s files e Hdue Hl]; [by apply run_event_out|..];
    pose proof (load_server_files_leaves_list env _ _ _ Hl) as Hf; destruct Hs as [Ha [Hd|Hdisk]]; try congruence;
    assert (off_disk name files) as Hdisk' by (by eapply off_disk_same).
  - apply loaded_clients in Hl. split.
    + destruct Hl as [-> |(f & Hlf & Hp)]; destruct again; cbn; [constructor..| |]; by eapply Hdisk.
    + right. by destruct again.
  - destruct again; (split; [|by right]); [constructor|exact Ha].
Qed.

(** C24: a machine that was disconnected is out at once and stays out, until it
    is paired again. Whatever requests, pairings of other machines, writes of the
    list, changes of files and restarts follow, no token gets a request in under
    its name; and once the write of the list that the disconnection asks for has
    run, the list on disk is without it. The writes of the list go through, no
    start reads the list before the write that is outstanding, and no other
    program writes it: a restart that comes first brings the machine back. *)
Theorem disconnected_stays_out `{!ClientsLaws} name s s' :
  rtc (life_step name) (disconnect name s) s' →
  (∀ head, authenticate (clients s') head ≠ Some name) ∧
  (clients_write_due s' = false → off_disk name (desk_files (server_desk s'))).
Proof.
  intros Hrun. assert (out name (disconnect name s)) as Hout.
  { split; [|by left]. cbn. apply Forall_forall. by intros c [Hc _]%list_elem_of_filter. }
  assert (out name s') as [Ha Hd].
  { induction Hrun as [s0|s0 s1 s2 Hstep _ IH]; [done|]. apply IH. by eapply life_step_out. }
  split; [|by destruct Hd; [congruence|]].
  intros head (client & Hin & Hc & _)%authenticate_Some. rewrite Forall_forall in Ha. by apply (Ha client).
Qed.

(** *** Pairing works *)

(** What [chrono] promises of the instants it writes, to the second. *)
Definition rfc3339_laws : Prop :=
  ∀ t, (0 <= t < 253402300800 * SECOND)%Z → parse_rfc3339 (to_rfc3339 t) = Some (t - t mod SECOND)%Z.

(** The code on the desk pairs. Given within ten minutes, less the second
    the expiry is rounded down by, to a desk that can write its list, the code
    is answered with a token, and a request with that token is the machine's. *)
Theorem pairing_works (faults faults' : FsFaults) env env' words state s s1 code body request host :
  rfc3339_laws →
  begin_pairing env words state s = (s1, Ok code) →
  (0 <= now env)%Z → (now env + 601 * SECOND < 253402300800 * SECOND)%Z →
  (now env' <= now env + 599 * SECOND)%Z →
  pair_request_from_slice body = Some request → trim (pair_code request) = code →
  plain_host_name (trim (pair_name request)) = true →
  create_dir_fault SEEN_DIR = None → atomic_write_fault CLIENTS_PATH = None →
  let token := generate_token (token_bytes env') in
  (∀ c, c ∈ clients s → as_bytes (token_sha256 c) ≠ as_bytes (sha256_hex token)) →
  let '(s2, reply) := handle_pair env' body host s1 in
  reply = out_json 200 (pair_response_json (mkPairResponse token (vault_name env') (desk_name env'))) ∧
  ∀ head, bearer_token (head_headers head) = Some token →
    authenticate (clients s2) head = Some (trim (pair_name request)).
Proof.
  intros Hlaws Hbegin Hn0 Hn1 Hnow Hreq Hcode Hname Hd Hw token Hfresh.
  unfold begin_pairing in Hbegin. destruct (negb (vault_open s)), state; try done.
  destruct (write_state_file _ _ _ _ _) as [files [[]|e]]; [|done]. injection Hbegin as <- Hc.
  unfold handle_pair. rewrite Hreq, Hname. cbn [negb pending set_desk set_pending].
  assert (is_expired (now env') (mkPendingCode (sha256_hex (generate_code words))
    (to_rfc3339 (now env + PAIRING_CODE_MINUTES * 60 * SECOND))) = false) as ->.
  { unfold is_expired. cbn [expires_at]. unfold PAIRING_CODE_MINUTES.
    change SECOND with 1000000000%Z in Hn1, Hnow |- *.
    rewrite Hlaws by (change SECOND with 1000000000%Z; lia). apply Z.leb_gt.
    change SECOND with 1000000000%Z.
    pose proof (Z.mod_pos_bound (now env + 10 * 60 * 1000000000) 1000000000 ltac:(lia)). lia. }
  assert (code_matches (pair_code request) (mkPendingCode (sha256_hex (generate_code words))
    (to_rfc3339 (now env + PAIRING_CODE_MINUTES * 60 * SECOND))) = true) as ->.
  { unfold code_matches. cbn [code_sha256]. rewrite Hcode, Hc. by apply constant_time_eq_bytes. }
  cbn [negb]. fold token. unfold persist_clients, write_state_file, fs_create_dir, failing. rewrite Hd.
  cbn [with_context]. unfold fs_atomic_write. rewrite Hw.
  cbn [with_context set_clients set_pending set_desk set_write_due remove_pending_file clients].
  split; [done|]. intros head Ht.
  apply (authenticate_last _ (mkPairedClient (trim (pair_name request)) _ _ _ _ _) _ token); [done|done|].
  intros c [_ Hin]%list_elem_of_filter. by apply Hfresh.
Qed.
End server_events.

(** ** Mirrored files *)

Lemma mirrored_last path :
  is_mirrored_path path = true → ∃ c, last path = Some c ∧ is_whitespace c = false.
Proof.
  unfold is_mirrored_path. intros [_ He]%andb_true_iff.
  assert (∃ c, last (extension_of path) = Some c ∧ is_whitespace c = false) as (c & Hc & Hw).
  { apply existsb_Exists, Exists_exists in He as (e & He & Heq). unfold eq_ignore_ascii_case in Heq.
    bool_to_prop. unfold MIRRORED_EXTENSIONS in He.
    assert (∃ x, last (map ascii_lower (extension_of path)) = Some x ∧ x ∈ [ch "d"; ch "t"; ch "n"])
      as (x & Hx & Hin).
    { rewrite Heq. repeat (apply elem_of_cons in He as [-> |He]; [eexists; split; [done|]; decide_closed|]).
      by apply not_elem_of_nil in He. }
    change (map ascii_lower (extension_of path)) with (ascii_lower <$> extension_of path) in Hx.
    rewrite fmap_last in Hx. destruct (last (extension_of path)) as [c|]; [|done].
    exists c. split; [done|]. injection Hx as <-. unfold ascii_lower in Hin.
    destruct ((65 <=? c) && (c <=? 90))%N eqn:E.
    - bool_to_prop. unfold is_whitespace.
      repeat (apply orb_false_iff; split); try apply andb_false_iff;
        try apply N.eqb_neq; rewrite ?N.leb_gt; lia.
    - repeat (apply elem_of_cons in Hin as [-> |Hin]; [done|]). by apply not_elem_of_nil in Hin. }
  exists c. split; [|done]. unfold extension_of in Hc.
  destruct (rsplit_once (u ".") path) as [[a b]|] eqn:E; [|done]. cbn in Hc.
  apply rsplit_once_Some in E as [E _]. rewrite E, app_assoc, last_app, Hc. done.
Qed.

Section agent_files.
Context `{JsonOps} `{ChronoParse} `{!ChronoDays} `{!Clock} `{FsFaults}.
Context `{UnicodeTables} `{Digest} `{SeenJson} `{!ServerFormats}.

(** The path has nothing to trim. *)
Lemma agent_file_path_trim harness client path :
  is_mirrored_path path = true →
  trim (agent_file_path harness client path) = agent_file_path harness client path.
Proof.
  intros (c & Hc & Hw)%mirrored_last. unfold agent_file_path, trim, trim_matches.
  rewrite (trim_start_matches_id is_whitespace) by done.
  apply trim_end_matches_id. by rewrite !app_assoc, last_app, Hc.
Qed.

(** C4: a file an agent mirrors lands only where it may. It changes at most one
    file, [memory/agents/{harness}/{client}/{path}], named after the machine the
    token belongs to, at a path with no hidden or parent folder in it that leads
    nowhere outside the vault; the file then holds exactly the bytes sent; nothing
    in them is a secret or touches a topic the person forbids; and one restore
    point is asked for. (Taking it is the history service's, which may skip it.) *)
Theorem agent_file_lands_inside env client harness path body s s' reply :
  handle_agent_file env client harness path body s = (s', reply) →
  s' = s ∨ ∃ c text, let relative := agent_file_path harness c path in
    client = Some c ∧ as_bytes text = body ∧
    (N.of_nat (length body) <= MIRROR_MAX_BYTES)%N ∧ is_mirrored_path path = true ∧
    Forall plain_component (split_by is_path_separator relative) ∧
    resolves_inside (canonicalize (desk_env env)) (root (desk_env env)) (split_char SLASH relative) = true ∧
    find_unkeepable text (load_forbidden_topics (server_desk s)) = None ∧
    desk_checkpoints (server_desk s') = S (desk_checkpoints (server_desk s)) ∧
    (desk_files (server_desk s') = desk_files (server_desk s) ∧ out_status reply = 500%N ∨
     desk_files (server_desk s') =
       <[relative := mkVaultFile text (today_of env)]> (desk_files (server_desk s)) ∧
     out_status reply = 204%N).
Proof.
  intros Hrun. unfold handle_agent_file in Hrun.
  destruct client as [c|]; [|injection Hrun as <- _; by left].
  destruct (N.ltb_spec MIRROR_MAX_BYTES (N.of_nat (length body))) as [|Hlen]; [injection Hrun as <- _; by left|].
  destruct (is_mirrored_path path) eqn:Em; cbn [negb] in Hrun; [|injection Hrun as <- _; by left].
  set (relative := agent_file_path harness c path) in *.
  destruct (validate_vault_path relative) as [[]|e] eqn:Ev; [|injection Hrun as <- _; by left].
  destruct (resolves_inside _ _ _) eqn:Er; cbn [negb] in Hrun; [|injection Hrun as <- _; by left].
  destruct (from_utf8 body) as [text|] eqn:Et; [|injection Hrun as <- _; by left].
  destruct (find_unkeepable text _) as [why|] eqn:Ek; [injection Hrun as <- _; by left|].
  destruct (_ && _); [injection Hrun as <- _; by left|]. right. exists c, text. cbv zeta.
  apply vault_path_components in Ev as (_ & _ & Hplain).
  unfold relative in Hplain. rewrite agent_file_path_trim in Hplain by done. fold relative in Hplain |- *.
  injection Hrun as <- <-. split_and!; try done; [by apply from_utf8_exact|].
  unfold fs_create_dir, failing, fs_atomic_write. cbn [set_desk server_desk with_files desk_files take_checkpoint].
  destruct (create_dir_fault _); [by left|]. destruct (atomic_write_fault _); [by left|by right].
Qed.
End agent_files.
