(* ===== verification/LifecycleTheory.v ===== *)
(** * What the service's state machine guarantees *)

From S2P Require Import Prelude Strings External Dates Rules NoteIndex Rpc Http Server Lifecycle.

Implicit Types (s : Service) (root : str).

Definition is_serving (b : BridgeState) : Prop := match b with Serving _ _ => True | _ => False end.
Definition is_failed (b : BridgeState) : Prop := match b with Failed _ _ => True | _ => False end.

Definition task_root (task : StartTask) : str :=
  match task with WaitingForStop root _ | Loading root => root end.
Definition is_loading (task : StartTask) : Prop :=
  match task with Loading _ => True | WaitingForStop _ _ => False end.

(** What holds between the operations, even before [apply_state]. *)
Record service_pre s : Prop := {
  pre_serving : listener s = true ↔ is_serving (state s);
  pre_starting task : start_task s = Some task → state s = Starting;
  pre_joining : listener s = true → joining s = false;
  pre_loading task : start_task s = Some task → is_loading task → joining s = false;
  pre_root task : start_task s = Some task → vault_root s = Some (task_root task);
  pre_index root : index_of s = Some root → vault_root s = Some root;
  pre_seen root : seen_of s = Some root → vault_root s = Some root;
}.

Record service_ok s : Prop := {
  ok_pre : service_pre s;
  ok_starting : state s = Starting → is_some (start_task s) = true;
  ok_should : listener s = true ∨ is_some (start_task s) = true ∨ is_failed (state s) →
    should_serve s = true;
  ok_off : state s = Off → should_serve s = false;
  ok_paused : state s = Paused → enabled s = true ∧ paused s = true;
}.

Lemma service_bare_ok : service_ok service_bare.
Proof. split; [split|..]; cbn; try done; by intros [|[]]. Qed.

Ltac service := cbn [vault_root enabled paused state config service_clients service_pending listener
  start_task joining config_reads index_of seen_of is_some is_some_and is_serving is_failed] in *.

Lemma stop_pre to s :
  (∀ root, index_of s = Some root → vault_root s = Some root) →
  (∀ root, seen_of s = Some root → vault_root s = Some root) →
  ¬ is_serving to → service_pre (stop to s).
Proof. intros Hi Hs Ht. unfold stop. split; service; try done. Qed.

Lemma apply_state_ok s : service_pre s → service_ok (apply_state s).
Proof.
  intros Hpre. pose proof Hpre as [Hserv Hstart Hjoin Hload Hroot Hidx Hseen]. unfold apply_state.
  destruct (should_serve s) eqn:Esh; cbn [negb].
  - destruct (listener s) eqn:El; cbn [orb].
    + assert (is_serving (state s)) as Hs by (by apply Hserv).
      split; try done; by intros E; rewrite E in Hs.
    + destruct (start_task s) as [task|] eqn:Et; cbn [is_some is_some_and].
      * pose proof (Hstart _ eq_refl) as Hst.
        split; rewrite ?Hst, ?Et; try done; by rewrite Esh.
      * unfold start. unfold should_serve in Esh.
        destruct (vault_root s) as [root|] eqn:Ev; [|done]. unfold with_start.
        rewrite Ev, El. split; [split|..]; service; try done;
          try (intros task [= <-]; destruct (joining s); by cbn).
  - set (to := if enabled s && paused s then Paused else Off).
    assert (¬ is_serving to ∧ ¬ is_failed to ∧ to ≠ Starting) as (Hns & Hnf & Hnst)
      by (subst to; destruct (enabled s && paused s); split_and!; (done || by intros [])).
    split; [by apply stop_pre|..]; unfold stop; service; try done.
    + intros [?|[?|?]]; done.
    + intros Hp. subst to. apply andb_true_iff. by destruct (enabled s && paused s).
Qed.

Lemma toggle_ok s : service_ok s → service_ok (toggle s).
Proof. intros [[] ? ? ? ?]. apply apply_state_ok. split; service; done. Qed.

Lemma reload_ok vault s : service_ok s → service_ok (reload vault s).
Proof.
  intros [[Hserv Hstart Hjoin Hload Hroot Hidx Hseen] _ _ _ _]. unfold reload.
  destruct (bool_decide_reflect (vault_root s = fst <$> vault)) as [E|E]; cbn [negb];
    apply apply_state_ok.
  - split; service; try done; by rewrite <- E.
  - split; service; try done.
Qed.

Lemma start_waited_ok ended s : service_ok s → service_ok (start_waited ended s).
Proof.
  intros [[Hserv Hstart Hjoin Hload Hroot Hidx Hseen] Hst Hsh Hoff Hp]. unfold start_waited.
  destruct (start_task s) as [[root p|root]|] eqn:Et; [|split; [split|..]; rewrite ?Et; done..].
  pose proof (Hstart _ eq_refl) as Hs. pose proof (Hroot _ eq_refl) as Hr. cbn in Hr.
  assert (listener s = false) as Hl.
  { destruct (listener s); [|done]. rewrite Hs in Hserv. by destruct Hserv as [[] _]. }
  assert (should_serve s = true) as Hss by (by apply Hsh; right; left).
  destruct ended.
  - destruct (joining s) eqn:Ej; [split; [split|..]; rewrite ?Et, ?Ej; done|]. unfold with_start.
    split; [split|..]; service; rewrite ?Hl, ?Hs in *; try done; try (by intros task [= <-]).
  - unfold with_start. split; [split|..]; service; rewrite ?Hl in *; done.
Qed.

Lemma start_loaded_ok desk_name files bound s :
  service_ok s → service_ok (start_loaded desk_name files bound s).
Proof.
  intros [[Hserv Hstart Hjoin Hload Hroot Hidx Hseen] Hst Hsh Hoff Hp]. unfold start_loaded.
  destruct (start_task s) as [[root p|root]|] eqn:Et; [split; [split|..]; rewrite ?Et; done| |
    split; [split|..]; rewrite ?Et; done].
  pose proof (Hstart _ eq_refl) as Hs. pose proof (Hload _ eq_refl I) as Hj.
  assert (listener s = false) as Hl.
  { destruct (listener s); [|done]. rewrite Hs in Hserv. by destruct Hserv as [[] _]. }
  assert (should_serve s = true) as Hss by (by apply Hsh; right; left).
  destruct files as [[[config clients] pending]|e]; [destruct bound|]; unfold bind, with_start; service;
    rewrite ?Hl; (split; [split|..]; service; try done); by rewrite ?Hl, ?Hj.
Qed.

Lemma config_read_ok i read s : service_ok s → service_ok (config_read i read s).
Proof.
  intros [[Hserv Hstart Hjoin Hload Hroot Hidx Hseen] Hst Hsh Hoff Hp]. unfold config_read.
  destruct (config_reads s !! i); [|by split; [split|..]].
  destruct read as [new|]; [|by split; [split|..]].
  destruct (negb _ || negb _); [|by split; [split|..]].
  apply apply_state_ok, stop_pre; service; auto.
Qed.

Lemma run_service_ok s e : service_ok s → service_ok (run_service s e).
Proof.
  intros Hok. destruct e as [vault|vault changes| |ended|desk_name files bound|i read| | |]; cbn [run_service].
  - by apply reload_ok.
  - destruct (updated_entries changes) as [[asks_reload asks_settings] ?].
    destruct asks_reload; [by apply reload_ok|]. destruct asks_settings; [|done].
    unfold reload_bridge_config. destruct (listener s) eqn:El; cbn [negb]; [|apply apply_state_ok, Hok].
    destruct (vault_root s) as [root|] eqn:Ev; [|done].
    destruct Hok as [[] ? ? ? ?]. unfold should_serve in *.
    split; [split|..]; unfold should_serve; service; rewrite ?Ev, ?El in *; done.
  - by apply toggle_ok.
  - by apply start_waited_ok.
  - by apply start_loaded_ok.
  - by apply config_read_ok.
  - destruct Hok as [[] ? ? ? ?]. split; [split|..]; service; done.
  - unfold index_built. destruct (listener s) eqn:El; [|done].
    destruct Hok as [[] ? ? ? ?]. split; [split|..]; service; rewrite ?El in *; done.
  - unfold seen_read. destruct (listener s) eqn:El; [|done].
    destruct Hok as [[] ? ? ? ?]. split; [split|..]; service; rewrite ?El in *; done.
Qed.

Lemma run_all_ok es s : service_ok s → service_ok (run_all s es).
Proof. revert s. induction es as [|e es IH]; intros s Hs; [done|]. by apply IH, run_service_ok. Qed.

(** C25: the port is open exactly when it should be. Through any sequence of
    events, the desk has a listener, or is starting one, only while the workspace
    is a vault, the Routine is on and the bridge is not paused; what the panel
    says is so; a new listener is only bound after every earlier one has ended;
    and the index and the record of calls are those of the vault that is served. *)
Theorem service_state_is_true es :
  let s := run_all service_bare es in
  (listener s = true ↔ is_serving (state s)) ∧
  (is_some (start_task s) = true ↔ state s = Starting) ∧
  (listener s = true ∨ is_some (start_task s) = true →
     is_some (vault_root s) = true ∧ enabled s = true ∧ paused s = false) ∧
  (listener s = true → start_task s = None ∧ joining s = false) ∧
  (∀ root, index_of s = Some root ∨ seen_of s = Some root → vault_root s = Some root).
Proof.
  intros s. pose proof (run_all_ok es service_bare service_bare_ok) as Hok.
  change (service_ok s) in Hok. clearbody s.
  destruct Hok as [[Hserv Hstart Hjoin Hload Hroot Hidx Hseen] Hst Hsh Hoff Hp].
  split_and!.
  - done.
  - split; [|done]. destruct (start_task s) as [task|]; [|done]. intros _. by apply (Hstart task).
  - intros Hon. assert (should_serve s = true) as Hss by (apply Hsh; tauto).
    unfold should_serve in Hss. apply andb_true_iff in Hss as [[? ?]%andb_true_iff ?%negb_true_iff]. done.
  - intros Hl. split; [|by apply Hjoin]. destruct (start_task s) as [task|] eqn:Et; [|done].
    apply Hserv in Hl. by rewrite (Hstart _ eq_refl) in Hl.
  - intros root [Hi|Hi]; auto.
Qed.

Lemma run_all_app s es es' : run_all s (es ++ es') = run_all (run_all s es) es'.
Proof. apply fold_left_app. Qed.

(** What a cooperating system answers. *)
Definition cooperative (loaded : Lifecycle.loaded) (name : str) (bound : N) : list ServiceEvent :=
  [ListenerEnded; StartWaited true; StartLoaded name (Ok loaded) (Bound bound)].

(** C26: a desk that should serve comes to serve. From any state it can be in
    with the vault open, the Routine on and no pause, once earlier listeners
    end, the files are read and the port is free, it is serving; one that has
    failed does when it is paused and resumed. *)
Theorem desk_comes_to_serve es loaded name bound :
  let s := run_all service_bare es in
  should_serve s = true →
  (¬ is_failed (state s) → is_serving (state (run_all s (cooperative loaded name bound)))) ∧
  state (run_all s ([Toggled; Toggled] ++ cooperative loaded name bound)) = Serving name bound.
Proof.
  intros s. pose proof (run_all_ok es service_bare service_bare_ok) as Hok.
  change (service_ok s) in Hok. clearbody s. intros Hss.
  assert (∀ s, service_ok s → state s = Starting →
    state (run_all s (cooperative loaded name bound)) = Serving name bound) as Hstarts.
  { clear. intros s [[Hserv Hstart Hjoin Hload Hroot Hidx Hseen] Hst Hsh Hoff Hp] Hs.
    destruct (start_task s) as [[root p|root]|] eqn:Et; [| |by specialize (Hst Hs)];
      destruct loaded as [[config clients] pending];
      cbn [cooperative run_all fold_left run_service]; unfold listener_ended, start_waited; service;
      rewrite Et; cbn; done. }
  split.
  - intros Hnf. destruct (state s) as [| | |a p|p e] eqn:Es.
    + destruct Hok as [_ _ _ Hoff _]. specialize (Hoff Es). congruence.
    + destruct Hok as [_ _ _ _ Hp]. specialize (Hp Es) as [_ Hp]. unfold should_serve in Hss.
      rewrite Hp in Hss. by rewrite andb_false_r in Hss.
    + by rewrite Hstarts.
    + destruct Hok as [[Hserv Hstart _ _ _ _ _] _ _ _ _].
      destruct (start_task s) as [task|] eqn:Et; [specialize (Hstart _ eq_refl); congruence|].
      cbn [cooperative run_all fold_left run_service].
      unfold listener_ended, start_waited, start_loaded; service. rewrite Et. service. rewrite ?Et.
      by rewrite Es.
    + by destruct Hnf.
  - rewrite run_all_app. unfold run_all at 2. cbn [fold_left run_service].
    apply Hstarts; [by apply toggle_ok, toggle_ok|].
    unfold should_serve in Hss. apply andb_true_iff in Hss as [[Hv He]%andb_true_iff Hp%negb_true_iff].
    destruct (vault_root s) as [root|] eqn:Ev; [|done].
    unfold toggle at 2. unfold apply_state, should_serve, stop. service. rewrite Ev, He, Hp.
    unfold toggle, apply_state, should_serve, start, with_start. service. done.
Qed.
