(* ===== verification/Remember.v ===== *)
(** * What an agent asks Thock to remember ([thock-bridge/rules.rs] over the sync core)

    The fact an agent sends passes the rules of the bridge, becomes a line of
    the inbox and a write, and the write is applied by the sync core. *)

From S2P Require Import Prelude Strings External Samples Write Lines HeadingKey LineHash.
From S2P Require Import Sections Apply Insertion Append Dates Calendar Rules RuleTheory.

Section remembering.
Context `{ChronoParse} `{!ChronoLaws} `{!ChronoParseLaws} `{UnicodeTables} `{Digest}.

Lemma has_break_false_iff t : has_break t = false ↔ 10%N ∉ t ∧ 13%N ∉ t.
Proof. unfold has_break. by rewrite orb_false_iff, !existsb_eqb_false. Qed.

Lemma inbox_line_no_break date fact identity :
  four_digit date → has_break (trim fact) = false → plain_label identity →
  has_break (host identity) = false → has_break (inbox_line date fact identity) = false.
Proof.
  intros Hy Hf [[Hn _] _ _] Hh. unfold inbox_line, label. rewrite !has_break_app, Hf, Hh.
  assert (has_break (format_ymd date) = false) as ->
    by (apply has_break_false_iff; split; by apply format_ymd_plain).
  assert (has_break (harness identity) = false) as ->
    by (apply has_break_false_iff; split; by eapply name_char_plain).
  done.
Qed.

(** A bullet that is more than dashes and spaces is plain text. *)
Lemma bullet_settled rest :
  has_break rest = false → ch "@" ∈ rest → settled [u "- " ++ rest].
Proof.
  intros Hb Hat. assert (trim_start_matches is_space (u "- " ++ rest) = u "- " ++ rest) as E by done.
  split.
  - apply Forall_singleton. split; [|by rewrite has_break_app, Hb].
    apply plain_spec. split_and!.
    + unfold opens_fence. by rewrite E, Nat.sub_diag.
    + done.
    + unfold is_front_matter_end. by rewrite !bool_decide_eq_false_2.
  - intros t Ht. change (Some (u "- " ++ rest) = Some t) in Ht. apply (inj Some) in Ht as <-. split.
    + intros He%trim_nil_iff. by apply Forall_cons in He as [? _].
    + unfold is_thematic_break. rewrite E, Nat.sub_diag. cbn [Nat.ltb Nat.leb u app].
      destruct (_ || _ || _)%N; [|done]. apply andb_false_iff. right. apply not_true_iff_false.
      rewrite forallb_forall. intros Hall. specialize (Hall (ch "@")).
      discriminate Hall. right. right. by apply list_elem_of_In.
Qed.

(** What the rules accept can be remembered, and is remembered once. The
    write that carries an accepted fact is valid, and on an inbox whose fences
    are closed, or on none, delivering it again after it was applied changes
    nothing: a reply lost on the way costs no second line. *)
Theorem remember_once client_id date text forbidden fact harness host :
  check_fact text forbidden = Ok fact → four_digit date → trim client_id ≠ [] →
  DOT_CHAR ∉ host → trim_end host = host → has_break host = false →
  let write := inbox_write client_id (inbox_line date fact (ClientIdentity_new harness host)) in
  validate write = Ok tt ∧
  ∀ existing seed,
    let base := base_document existing (Write_operation write) seed in
    fences_closed base → no_stray_cr base →
    let once := applied_text (apply existing write seed) in
    effect_present once write = true ∧ apply (Some once) write seed = mkApplied once Noop.
Proof.
  intros (-> & Hne & Hb & _)%check_fact_Ok Hy Hid Hd He Hh. cbv zeta.
  pose proof (identity_plain harness host Hd He) as Hp.
  set (line := inbox_line _ _ _).
  assert (has_break line = false) as Hline.
  { apply inbox_line_no_break; try done. rewrite trim_idemp. by apply has_break_false_iff. }
  split.
  - apply validate_spec_lemma. split; simpl; try done.
    + intros h Hin. by apply elem_of_nil in Hin.
    + intros t [->|Hin%elem_of_nil]%elem_of_cons; [|done]. by apply has_break_false_iff.
  - intros existing seed Hcl Hcr.
    apply (append_twice existing _ seed None [line] End false false); try done.
    unfold line, inbox_line. apply bullet_settled.
    + unfold line, inbox_line in Hline. rewrite has_break_app in Hline. exact Hline.
    + rewrite !elem_of_app. do 4 right. unfold label. rewrite !elem_of_app. right. left. by left.
Qed.
End remembering.
