(* ===== verification/Clock.v ===== *)
(** * Logical clocks of the editor ([clock/clock.rs])

    Lamport timestamps and version vectors, on which the buffers of the editor
    order the edits of their replicas. A version vector is a vector of the
    sequence numbers of the replicas, by replica id; a replica past its end has
    not been observed. *)

From stdpp Require Import gmap relations.
From S2P Require Import Prelude.

(** [u32] and [u16]: sequence numbers wrap. *)
Definition SEQ_MODULUS : N := (2 ^ 32)%N.
Definition REPLICA_MODULUS : N := (2 ^ 16)%N.

(** ** Timestamps *)

(** A [ReplicaId] is its number. *)
Definition ReplicaId : Type := N.
Definition LOCAL : ReplicaId := 0%N.
Definition REMOTE_SERVER : ReplicaId := 1%N.
Definition AGENT : ReplicaId := 2%N.
Definition LOCAL_BRANCH : ReplicaId := 3%N.
Definition FIRST_COLLAB_ID : ReplicaId := 8%N.

Definition is_remote (id : ReplicaId) : bool :=
  (id =? REMOTE_SERVER)%N || (FIRST_COLLAB_ID <=? id)%N.

Record Lamport := mkLamport { value : N; replica_id : ReplicaId }.

#[export] Instance Lamport_eq_dec : EqDecision Lamport.
Proof. solve_decision. Defined.
#[export] Instance Lamport_countable : Countable Lamport.
Proof.
  apply (inj_countable' (λ t, (value t, replica_id t)) (λ p, mkLamport p.1 p.2)). by intros [].
Defined.

Definition Lamport_new (id : ReplicaId) : Lamport := mkLamport 1 id.

(** [Ord]: the replica breaks the ties of concurrent events. *)
Definition lamport_cmp (a b : Lamport) : comparison :=
  match (value a ?= value b)%N with Eq => (replica_id a ?= replica_id b)%N | c => c end.

Definition as_u64 (t : Lamport) : N := N.lor (N.shiftl (value t) 32) (replica_id t).

(** The clock of a replica moves on and hands out the time it stood at. *)
Definition tick (t : Lamport) : Lamport * Lamport :=
  (mkLamport ((value t + 1) mod SEQ_MODULUS)%N (replica_id t), t).

Definition lamport_observe (t timestamp : Lamport) : Lamport :=
  mkLamport ((N.max (value t) (value timestamp) + 1) mod SEQ_MODULUS)%N (replica_id t).

(** ** Version vectors *)

Abbreviation Global := (list N).

Definition Global_new : Global := [].

Definition get (g : Global) (id : ReplicaId) : N := default 0%N (g !! N.to_nat id).

(** [Vec::resize] to a longer length. *)
Definition grown (n : nat) (g : Global) : Global := g ++ replicate (n - length g) 0%N.

Definition observe (timestamp : Lamport) (g : Global) : Global :=
  if (0 <? value timestamp)%N then
    let index := N.to_nat (replica_id timestamp) in
    alter (λ entry, N.max entry (value timestamp)) index (grown (S index) g)
  else g.

(** [iter_mut().zip]: the entries past the end of the other stay. *)
Fixpoint zip_onto (f : N → N → N) (ls rs : list N) : list N :=
  match ls, rs with
  | l :: ls, r :: rs => f l r :: zip_onto f ls rs
  | _, _ => ls
  end.

Definition join (g other : Global) : Global := zip_onto N.max (grown (length other) g) other.

(** An entry of [meet]: what only one has observed is kept. *)
Definition meet_entry (left right : N) : N :=
  if (left =? 0)%N then right else if (right =? 0)%N then left else N.min left right.

(** [new_len] at the end of the loop: past the last entry that is not zero, of
    those zipped. *)
Fixpoint new_len (entries : list N) (index len : nat) : nat :=
  match entries with
  | [] => len
  | e :: entries => new_len entries (S index) (if (e =? 0)%N then len else S index)
  end.

Definition meet (g other : Global) : Global :=
  let g := zip_onto meet_entry (grown (length other) g) other in
  if (length other =? length g)%nat
  then take (new_len (take (length other) g) 0 0) g
  else g.

Definition observed (g : Global) (timestamp : Lamport) : bool :=
  (value timestamp <=? get g (replica_id timestamp))%N.

Definition observed_any (g other : Global) : bool :=
  existsb (λ lr : N * N, (0 <? lr.2)%N && (lr.2 <=? lr.1)%N) (zip g other).

Definition observed_all (g other : Global) : bool :=
  if (length g <? length other)%nat then false
  else forallb (λ lr : N * N, (lr.2 <=? lr.1)%N) (zip g other).

Definition changed_since (g other : Global) : bool :=
  (length other <? length g)%nat || existsb (λ lr : N * N, (lr.2 <? lr.1)%N) (zip g other).

(** [iter]: a [u16] is cut from the index. *)
Definition iter (g : Global) : list Lamport :=
  imap (λ index seq, mkLamport seq (N.of_nat index mod REPLICA_MODULUS)%N) g.

(** [max_by_key]: the last of the greatest. *)
Definition most_recent (g : Global) : option Lamport :=
  fold_left (λ best t,
    match best with
    | Some b => if (value t <? value b)%N then best else Some t
    | None => Some t
    end) (iter g) None.

Definition from_iter (locals : list Lamport) : Global :=
  fold_left (λ g t, observe t g) locals Global_new.

(** ** What a version vector means *)

(** No vector ends in a replica it has not observed. *)
Definition canonical (g : Global) : Prop := last g ≠ Some 0%N.

Lemma get_app_zeros g n id : get (g ++ replicate n 0%N) id = get g id.
Proof.
  unfold get. destruct (decide (N.to_nat id < length g)) as [Hl|Hl].
  - by rewrite lookup_app_l.
  - rewrite lookup_app_r by lia. rewrite (lookup_ge_None_2 g) by lia. cbn.
    destruct (replicate n 0%N !! _) as [x|] eqn:E; [|done].
    apply lookup_replicate in E as [-> _]. done.
Qed.

Lemma get_grown n g id : get (grown n g) id = get g id.
Proof. apply get_app_zeros. Qed.

Lemma length_grown n g : length (grown n g) = max n (length g).
Proof. unfold grown. rewrite length_app, length_replicate. lia. Qed.

Lemma length_zip_onto f l r : length (zip_onto f l r) = length l.
Proof. revert r. induction l as [|x l IH]; intros [|y r]; cbn; auto. Qed.

Lemma lookup_zip_onto f l r i :
  zip_onto f l r !! i =
    match l !! i, r !! i with Some x, Some y => Some (f x y) | o, _ => o end.
Proof.
  revert r i. induction l as [|x l IH]; intros [|y r] [|i]; cbn; try apply IH; try done.
  all: by destruct (l !! i).
Qed.

Lemma get_zip_onto f l r id :
  length r ≤ length l → (∀ x, f x 0 = x)%N →
  get (zip_onto f l r) id = f (get l id) (get r id).
Proof.
  intros Hl Hf. unfold get. rewrite lookup_zip_onto.
  destruct (l !! _) as [x|] eqn:El; [destruct (r !! _); cbn; by rewrite ?Hf|].
  apply lookup_ge_None in El. rewrite (lookup_ge_None_2 r) by lia. cbn. by rewrite Hf.
Qed.

Lemma get_observe timestamp g id :
  get (observe timestamp g) id =
    if decide (id = replica_id timestamp) then N.max (get g id) (value timestamp) else get g id.
Proof.
  unfold observe. destruct (N.ltb_spec 0 (value timestamp)) as [Hv|Hv].
  2:{ destruct (decide _); [|done]. lia. }
  rewrite <- (get_grown (S (N.to_nat (replica_id timestamp))) g id). unfold get.
  destruct (decide (id = replica_id timestamp)) as [-> |Hne].
  - rewrite list_lookup_alter_eq.
    destruct (lookup_lt_is_Some_2 (grown (S (N.to_nat (replica_id timestamp))) g)
      (N.to_nat (replica_id timestamp))) as [x ->]; [rewrite length_grown; lia|done].
  - by rewrite list_lookup_alter_ne by lia.
Qed.

Lemma get_join g other id : get (join g other) id = N.max (get g id) (get other id).
Proof.
  unfold join. rewrite get_zip_onto; [by rewrite get_grown|rewrite length_grown; lia|intros; lia].
Qed.

(** What is cut off is zeros. *)
Lemma new_len_spec entries index len :
  len ≤ index →
  let n := new_len entries index len in
  len ≤ n ≤ index + length entries ∧
  (∀ i x, entries !! i = Some x → n ≤ index + i → x = 0%N) ∧
  (n = len ∨ ∃ i x, entries !! i = Some x ∧ n = S (index + i) ∧ x ≠ 0%N).
Proof.
  revert index len. induction entries as [|e entries IH]; intros index len Hle; cbn [new_len length].
  { split_and!; [lia|lia|intros ? ? E; by rewrite lookup_nil in E|by left]. }
  destruct (N.eqb_spec e 0) as [-> |He].
  - destruct (IH (S index) len ltac:(lia)) as (Hb & Hz & Hn). split_and!; [lia|lia| |].
    + intros [|i] x E Hi; cbn in E; [by injection E|]. apply (Hz i x E). lia.
    + destruct Hn as [Hn|(i & x & E & Hn & Hx)]; [by left|right]. exists (S i), x.
      split_and!; [done|lia|done].
  - destruct (IH (S index) (S index) ltac:(lia)) as (Hb & Hz & Hn). split_and!; [lia|lia| |].
    + intros [|i] x E Hi; [lia|]. cbn in E. apply (Hz i x E). lia.
    + right. destruct Hn as [Hn|(i & x & E & Hn & Hx)].
      * exists 0, e. split_and!; [done|lia|done].
      * exists (S i), x. split_and!; [done|lia|done].
Qed.

Lemma get_take_len g id : get (take (new_len g 0 0) g) id = get g id.
Proof.
  destruct (new_len_spec g 0 0 ltac:(lia)) as (_ & Hz & _). unfold get.
  destruct (decide (N.to_nat id < new_len g 0 0)) as [Hl|Hl]; [by rewrite lookup_take_lt|].
  rewrite lookup_take_ge by lia. destruct (g !! N.to_nat id) as [x|] eqn:E; [|done].
  cbn. rewrite (Hz _ _ E); [done|lia].
Qed.

Lemma get_meet g other id :
  get (meet g other) id = meet_entry (get g id) (get other id).
Proof.
  assert (get (zip_onto meet_entry (grown (length other) g) other) id =
    meet_entry (get g id) (get other id)) as Hz.
  { rewrite get_zip_onto; [by rewrite get_grown|rewrite length_grown; lia|].
    intros x. unfold meet_entry. destruct (N.eqb_spec x 0); by subst. }
  unfold meet. destruct (Nat.eqb_spec (length other) (length (zip_onto meet_entry (grown (length other) g) other)))
    as [E|_]; [|done].
  rewrite <- Hz, (take_ge _ (length other)) by lia. apply get_take_len.
Qed.

(** *** Canonical vectors *)

Lemma canonical_get g : canonical g → g ≠ [] → get g (N.of_nat (length g - 1)) ≠ 0%N.
Proof.
  intros Hc Hne. unfold get. rewrite Nat2N.id. destruct g as [|x g] using rev_ind; [done|].
  unfold canonical in Hc. rewrite last_snoc in Hc. rewrite length_app. cbn [length].
  replace (length g + 1 - 1) with (length g + 0) by lia.
  rewrite lookup_app_r by lia. replace (length g + 0 - length g) with 0 by lia. cbn. congruence.
Qed.

Lemma get_beyond g id : (length g ≤ N.to_nat id) → get g id = 0%N.
Proof. intros Hl. unfold get. by rewrite lookup_ge_None_2. Qed.

(** Of canonical vectors, the numbers are the vector. *)
Lemma canonical_length g other :
  canonical g → (∀ id, get g id ≤ get other id)%N → length g ≤ length other.
Proof.
  intros Hc Hle. destruct (decide (g = [])) as [-> |Hne]; [simpl; lia|].
  pose proof (canonical_get g Hc Hne) as Hg. specialize (Hle (N.of_nat (length g - 1))).
  destruct (decide (length g ≤ length other)); [done|].
  rewrite (get_beyond other) in Hle by lia. lia.
Qed.

Lemma canonical_eq g other :
  canonical g → canonical other → (∀ id, get g id = get other id) → g = other.
Proof.
  intros Hg Ho Heq.
  assert (length g = length other) as Hl.
  { apply Nat.le_antisymm; apply canonical_length; auto; intros id; rewrite Heq; lia. }
  apply list_eq_same_length with (length g); [done|done|]. intros i x y _ Hx Hy.
  specialize (Heq (N.of_nat i)). unfold get in Heq. rewrite Nat2N.id, Hx, Hy in Heq. done.
Qed.

Lemma canonical_last g : (∀ x, last g = Some x → x ≠ 0%N) → canonical g.
Proof. intros Hl E. by apply (Hl 0%N). Qed.

Lemma last_lookup_length (g : Global) x : last g = Some x ↔ g !! (length g - 1) = Some x ∧ g ≠ [].
Proof.
  destruct g as [|y g] using rev_ind; [split; [done|by intros [_ ?]]|].
  rewrite last_snoc, length_app. cbn [length]. replace (length g + 1 - 1) with (length g) by lia.
  rewrite lookup_app_r, Nat.sub_diag by lia. cbn. split; [|by intros []].
  intros ->. split; [done|]. by destruct g.
Qed.

Lemma canonical_observe timestamp g : canonical g → canonical (observe timestamp g).
Proof.
  intros Hc. unfold observe. destruct (N.ltb_spec 0 (value timestamp)) as [Hv|]; [|done].
  set (i := N.to_nat (replica_id timestamp)). intros [E _]%last_lookup_length. revert E.
  rewrite length_alter, length_grown. destruct (decide (S i ≤ length g)) as [Hl|Hl].
  - replace (max (S i) (length g) - 1) with (length g - 1) by lia.
    assert (grown (S i) g = g) as ->.
    { unfold grown. replace (S i - length g) with 0 by lia. apply app_nil_r. }
    destruct (decide (i = length g - 1)) as [E|Hne].
    + rewrite E, list_lookup_alter_eq. destruct (g !! _) as [x|]; cbn; intros [= E']. lia.
    + rewrite list_lookup_alter_ne by done. intros E. apply Hc, last_lookup_length.
      split; [done|]. intros ->. simpl in Hl. lia.
  - replace (max (S i) (length g) - 1) with i by lia. rewrite list_lookup_alter_eq.
    destruct (grown (S i) g !! i) as [x|]; cbn; intros [= E']. lia.
Qed.

Lemma canonical_join g other : canonical g → canonical other → canonical (join g other).
Proof.
  intros Hg Ho [E Hne]%last_lookup_length. unfold join in *. rewrite length_zip_onto, length_grown in E.
  set (n := max (length other) (length g)) in *.
  assert (get (join g other) (N.of_nat (n - 1)) = 0%N) as Hz
    by (unfold get, join; by rewrite Nat2N.id, E).
  rewrite get_join in Hz. destruct (decide (length other ≤ length g)) as [Hl|Hl].
  - destruct (decide (g = [])) as [-> |Hng].
    + destruct other; [|simpl in Hl; lia]. by apply Hne.
    + apply (canonical_get g Hg Hng). replace (length g - 1) with (n - 1) by lia. lia.
  - apply (canonical_get other Ho); [intros ->; simpl in Hl; lia|].
    replace (length other - 1) with (n - 1) by lia. lia.
Qed.

Lemma canonical_meet g other : canonical g → canonical (meet g other).
Proof.
  intros Hg. unfold meet. set (z := zip_onto meet_entry (grown (length other) g) other).
  assert (length z = max (length other) (length g)) as Hlz
    by (subst z; by rewrite length_zip_onto, length_grown).
  destruct (Nat.eqb_spec (length other) (length z)) as [E|Hne].
  - rewrite (take_ge _ (length other)) by lia.
    destruct (new_len_spec z 0 0 ltac:(lia)) as (Hb & _ & Hn).
    destruct Hn as [-> |(i & x & Ei & -> & Hx)]; [done|]. apply canonical_last. intros y Hy.
    apply last_lookup_length in Hy as [Hy _]. rewrite length_take in Hy.
    pose proof (lookup_lt_Some _ _ _ Ei). replace (min (S (0 + i)) (length z) - 1) with i in Hy by lia.
    rewrite lookup_take_lt in Hy by lia. congruence.
  - apply canonical_last. intros y Hy. apply last_lookup_length in Hy as [Hy _].
    rewrite Hlz in Hy. assert (length other < length g) as Hlt by lia.
    replace (max (length other) (length g) - 1) with (length g - 1) in Hy by lia.
    subst z. rewrite lookup_zip_onto in Hy. rewrite (lookup_ge_None_2 other) in Hy by lia.
    unfold grown in Hy. replace (length other - length g) with 0 in Hy by lia. cbn in Hy.
    rewrite app_nil_r in Hy. destruct (g !! (length g - 1)) as [x|] eqn:Ex; [|done]. injection Hy as <-.
    intros ->. apply Hg, last_lookup_length. split; [done|]. intros ->. simpl in Hlt. lia.
Qed.

(** *** Comparing vectors *)

Lemma zip_forall (f : N → N → bool) (l r : Global) :
  forallb (λ lr : N * N, f lr.1 lr.2) (zip l r) = true ↔
  ∀ i x y, l !! i = Some x → r !! i = Some y → f x y = true.
Proof.
  revert r. induction l as [|a l IH]; intros r; [split; [intros _ i x y E; by rewrite lookup_nil in E|done]|].
  destruct r as [|b r]; [split; [intros _ i x y _ E; by rewrite lookup_nil in E|done]|].
  cbn [zip zip_with forallb]. rewrite andb_true_iff, (IH r). split.
  - intros [Ha Hall] [|i] x y Hx Hy; cbn in Hx, Hy; [by simplify_eq|by apply (Hall i)].
  - intros Hall. split; [by apply (Hall 0)|intros i; apply (Hall (S i))].
Qed.

Lemma zip_exists (f : N → N → bool) (l r : Global) :
  existsb (λ lr : N * N, f lr.1 lr.2) (zip l r) =
  negb (forallb (λ lr : N * N, negb (f lr.1 lr.2)) (zip l r)).
Proof. induction (zip l r) as [|[x y] z IH]; [done|]. cbn. rewrite IH. by destruct (f x y). Qed.

Lemma observed_all_spec g other :
  canonical other → observed_all g other = true ↔ ∀ id, (get other id ≤ get g id)%N.
Proof.
  intros Hc. unfold observed_all. destruct (Nat.ltb_spec (length g) (length other)) as [Hlt|Hge].
  - split; [done|]. intros Hle. pose proof (canonical_length other g Hc Hle). lia.
  - rewrite (zip_forall (λ l r, r <=? l)%N). split.
    + intros Hall id. unfold get. destruct (other !! N.to_nat id) as [y|] eqn:Ey; [|cbn; lia].
      pose proof (lookup_lt_Some _ _ _ Ey).
      destruct (lookup_lt_is_Some_2 g (N.to_nat id)) as [x Ex]; [lia|]. rewrite Ex. cbn.
      apply N.leb_le. by apply (Hall (N.to_nat id)).
    + intros Hle i x y Hx Hy. apply N.leb_le. specialize (Hle (N.of_nat i)). unfold get in Hle.
      by rewrite Nat2N.id, Hx, Hy in Hle.
Qed.

(** Version vectors are ordered by what they have observed, and [join] is
    their least upper bound. For vectors made by the operations, one has observed
    all of another exactly when no replica's number is behind; two that have
    observed all of each other are equal; a vector has changed since another
    exactly when that one has not observed all of it; and what has observed both
    of two vectors is what has observed their join. *)
Theorem vectors_are_ordered g other :
  canonical g → canonical other →
  (observed_all g other = true ↔ ∀ id, (get other id ≤ get g id)%N) ∧
  (observed_all g other = true → observed_all other g = true → g = other) ∧
  changed_since g other = negb (observed_all other g) ∧
  canonical (join g other) ∧
  (∀ upper, canonical upper →
    observed_all upper (join g other) = true ↔
    observed_all upper g = true ∧ observed_all upper other = true).
Proof.
  intros Hg Ho. split_and!.
  - by apply observed_all_spec.
  - rewrite !observed_all_spec by done. intros Hle Hge. apply canonical_eq; [done|done|].
    intros id. specialize (Hle id). specialize (Hge id). lia.
  - unfold changed_since, observed_all. destruct (length other <? length g); [done|]. cbn.
    rewrite (zip_exists (λ l r, r <? l)%N). f_equal. rewrite <- (zip_with_flip pair other g).
    clear. revert other. induction g as [|x g IH]; intros [|y other]; try done. cbn. rewrite IH.
    f_equal. apply eq_true_iff_eq. rewrite negb_true_iff, N.ltb_ge, N.leb_le. done.
  - by apply canonical_join.
  - intros upper Hu. rewrite !observed_all_spec by (done || by apply canonical_join). split.
    + intros Hle. split; intros id; specialize (Hle id); rewrite get_join in Hle; lia.
    + intros [Hle Hle'] id. rewrite get_join. specialize (Hle id). specialize (Hle' id). lia.
Qed.

(** The vectors the operations make say exactly what was observed. A vector
    of timestamps has, for each replica, the latest of its timestamps, so a
    timestamp of the list is observed, whatever the order they came in; a meet
    keeps the lesser number of what both have observed and what only one of them
    has; and every operation keeps the vectors canonical. *)
Theorem vectors_say_what_was_observed timestamps g other :
  (∀ id, get (from_iter timestamps) id = foldr N.max 0%N
     (map value (filter (λ t, replica_id t = id) timestamps))) ∧
  (∀ t, t ∈ timestamps → observed (from_iter timestamps) t = true) ∧
  canonical (from_iter timestamps) ∧
  (canonical g → canonical (meet g other)) ∧
  (∀ id, get (meet g other) id =
    if (get g id =? 0)%N then get other id
    else if (get other id =? 0)%N then get g id else N.min (get g id) (get other id)).
Proof.
  assert (∀ g0 id, get (fold_left (λ g t, observe t g) timestamps g0) id =
    N.max (get g0 id) (foldr N.max 0%N (map value (filter (λ t, replica_id t = id) timestamps)))) as Hget.
  { induction timestamps as [|t timestamps IH]; intros g0 id; cbn [fold_left].
    - cbn. lia.
    - rewrite IH, get_observe. destruct (decide (replica_id t = id)) as [E|E].
      + rewrite filter_cons_True, decide_True by done. cbn [map foldr]. lia.
      + rewrite filter_cons_False, decide_False by done. done. }
  assert (∀ id, get (from_iter timestamps) id = foldr N.max 0%N
    (map value (filter (λ t, replica_id t = id) timestamps))) as Hfrom.
  { intros id. unfold from_iter. rewrite Hget. unfold Global_new, get. rewrite lookup_nil. cbn. lia. }
  split_and!; [done| | |by apply canonical_meet|intros id; apply get_meet].
  - intros t Ht. unfold observed. rewrite Hfrom. apply N.leb_le.
    assert (t ∈ filter (λ t', replica_id t' = replica_id t) timestamps) as Hin
      by (by apply list_elem_of_filter).
    revert Hin. generalize (filter (λ t', replica_id t' = replica_id t) timestamps) as l.
    intros l Hin. induction l as [|t' l IH]; [by apply elem_of_nil in Hin|]. cbn.
    apply elem_of_cons in Hin as [-> |Hin]; [lia|]. specialize (IH Hin). lia.
  - clear. unfold from_iter. assert (canonical Global_new) as Hnew by done. revert Hnew.
    generalize Global_new. induction timestamps as [|t timestamps IH]; intros g0 Hg0; [done|].
    cbn [fold_left]. apply IH. by apply canonical_observe.
Qed.

(** ** Lamport time over replicas *)

Definition lamport_lt (a b : Lamport) : Prop := lamport_cmp a b = Lt.

Definition in_width (t : Lamport) : Prop := (value t < SEQ_MODULUS ∧ replica_id t < REPLICA_MODULUS)%N.

Lemma as_u64_sum t : in_width t → as_u64 t = (value t * SEQ_MODULUS + replica_id t)%N.
Proof.
  intros [Hv Hr]. unfold as_u64. rewrite N.shiftl_mul_pow2. change (2 ^ 32)%N with SEQ_MODULUS.
  assert (N.land (value t * SEQ_MODULUS) (replica_id t) = 0)%N as Hland.
  2:{ by rewrite <- N.lxor_lor, N.add_nocarry_lxor. }
  apply N.bits_inj_iff. intros i. rewrite N.land_spec, N.bits_0. destruct (N.ltb_spec i 32) as [Hi|Hi].
  - change SEQ_MODULUS with (2 ^ 32)%N. by rewrite N.mul_pow2_bits_low.
  - destruct (N.eq_dec (replica_id t) 0) as [-> |Hne]; [by rewrite N.bits_0, andb_false_r|].
    rewrite (N.bits_above_log2 (replica_id t)), andb_false_r; [done|].
    apply N.lt_le_trans with 16%N; [|lia]. apply N.log2_lt_pow2; [lia|exact Hr].
Qed.

(** The order of timestamps is the order of the numbers they are sent as:
    first the sequence number, then the replica. *)
Theorem lamport_order_is_u64_order a b :
  in_width a → in_width b → lamport_cmp a b = (as_u64 a ?= as_u64 b)%N ∧ (as_u64 a < 2 ^ 64)%N.
Proof.
  intros Ha Hb. rewrite !as_u64_sum by done. destruct Ha as [Hva Hra], Hb as [Hvb Hrb].
  unfold lamport_cmp. change SEQ_MODULUS with 4294967296%N in *. change REPLICA_MODULUS with 65536%N in *.
  change (2 ^ 64)%N with 18446744073709551616%N. split; [|lia].
  destruct (N.compare_spec (value a) (value b)) as [E|Hlt|Hgt]; symmetry.
  - rewrite E. destruct (N.compare_spec (replica_id a) (replica_id b)) as [E'|Hlt|Hgt].
    + rewrite E'. apply N.compare_refl.
    + apply N.compare_lt_iff. lia.
    + apply N.compare_gt_iff. lia.
  - apply N.compare_lt_iff. lia.
  - apply N.compare_gt_iff. lia.
Qed.

(** An event of a replica: its timestamp, and all that the replica had seen. *)
Record LamportEvent := mkEvent { stamp : Lamport; past : gset Lamport }.

(** Replicas, each with its clock and what it has seen, and the events so far. *)
Record Replicas := mkReplicas {
  clocks : gmap ReplicaId Lamport;
  seen_by : gmap ReplicaId (gset Lamport);
  events : list LamportEvent;
}.

Definition knows (w : Replicas) (id : ReplicaId) : gset Lamport := default ∅ (seen_by w !! id).

(** A replica edits, which ticks its clock, or takes in an edit of another; the
    sequence numbers stay below the width of the clock. *)
Inductive replica_step : Replicas → Replicas → Prop :=
  | step_joins w id :
      clocks w !! id = None →
      replica_step w (mkReplicas (<[id := Lamport_new id]> (clocks w)) (seen_by w) (events w))
  | step_edits w id clock :
      clocks w !! id = Some clock → (value clock + 1 < SEQ_MODULUS)%N →
      let '(moved, stamp) := tick clock in
      replica_step w
        (mkReplicas (<[id := moved]> (clocks w)) (<[id := knows w id ∪ {[stamp]}]> (seen_by w))
           (events w ++ [mkEvent stamp (knows w id)]))
  | step_receives w id clock e :
      clocks w !! id = Some clock → e ∈ events w → (N.max (value clock) (value (stamp e)) + 1 < SEQ_MODULUS)%N →
      replica_step w
        (mkReplicas (<[id := lamport_observe clock (stamp e)]> (clocks w))
           (<[id := knows w id ∪ past e ∪ {[stamp e]}]> (seen_by w)) (events w)).

Definition no_replicas : Replicas := mkReplicas ∅ ∅ [].

(** Each clock is its replica's and past all its replica knows; what an event
    knew is before it; and the events of a replica are behind its clock. *)
Record ordered (w : Replicas) : Prop := {
  clock_id id clock : clocks w !! id = Some clock → replica_id clock = id;
  clock_ahead id clock t : clocks w !! id = Some clock → t ∈ knows w id → (value t < value clock)%N;
  clock_missing id : clocks w !! id = None → knows w id = ∅;
  event_past e t : e ∈ events w → t ∈ past e → (value t < value (stamp e))%N;
  event_owner e : e ∈ events w →
    is_Some (clocks w !! replica_id (stamp e)) ∧ stamp e ∈ knows w (replica_id (stamp e));
  stamps_unique : NoDup (map stamp (events w));
}.

Lemma knows_insert w id s cl es id' :
  knows (mkReplicas cl (<[id := s]> (seen_by w)) es) id' = if decide (id' = id) then s else knows w id'.
Proof.
  unfold knows. cbn [seen_by]. destruct (decide (id' = id)) as [-> |Hne].
  - by rewrite lookup_insert_eq.
  - by rewrite lookup_insert_ne by done.
Qed.

Lemma ordered_step w w' : replica_step w w' → ordered w → ordered w'.
Proof.
  intros Hstep [Hid Hahead Hmiss Hpast Howner Huniq].
  destruct Hstep as [w id Hnone|w id clock Hc Hw|w id clock e Hc He Hw].
  - split; cbn [clocks events]; try done.
    + intros id' c. destruct (decide (id' = id)) as [-> |Hne].
      * rewrite lookup_insert_eq. by intros [= <-].
      * rewrite lookup_insert_ne by done. apply Hid.
    + intros id' c t. destruct (decide (id' = id)) as [-> |Hne].
      * rewrite lookup_insert_eq. intros _. unfold knows. cbn [seen_by]. fold (knows w id).
        rewrite (Hmiss id Hnone). set_solver.
      * rewrite lookup_insert_ne by done. apply Hahead.
    + intros id'. destruct (decide (id' = id)) as [-> |Hne]; [by rewrite lookup_insert_eq|].
      rewrite lookup_insert_ne by done. apply Hmiss.
    + intros e He. destruct (Howner e He) as [Hs Hin]. split; [|done].
      destruct (decide (replica_id (stamp e) = id)) as [-> |Hne];
        [rewrite lookup_insert_eq; by eexists|by rewrite lookup_insert_ne].
  - pose proof (Hid id clock Hc) as Hci. cbn [tick]. rewrite N.mod_small by done.
    split; cbn [clocks events].
    + intros id' c. destruct (decide (id' = id)) as [-> |Hne].
      * rewrite lookup_insert_eq. by intros [= <-].
      * rewrite lookup_insert_ne by done. apply Hid.
    + intros id' c t. rewrite knows_insert. destruct (decide (id' = id)) as [-> |Hne].
      * rewrite lookup_insert_eq. intros [= <-] [Ht|Ht%elem_of_singleton]%elem_of_union; cbn [value].
        -- pose proof (Hahead id clock t Hc Ht). lia.
        -- subst t. lia.
      * rewrite lookup_insert_ne by done. apply Hahead.
    + intros id'. rewrite knows_insert. destruct (decide (id' = id)) as [-> |Hne];
        [by rewrite lookup_insert_eq|]. rewrite lookup_insert_ne by done. apply Hmiss.
    + intros e t [He|He%list_elem_of_singleton]%elem_of_app; [by apply Hpast|]. subst e. cbn [past stamp].
      intros Ht. by apply (Hahead id).
    + intros e He. rewrite knows_insert. apply elem_of_app in He as [He|He%list_elem_of_singleton].
      * destruct (Howner e He) as [Hs Hin]. destruct (decide (replica_id (stamp e) = id)) as [E|Hne].
        -- rewrite E, lookup_insert_eq. rewrite E in Hin. split; [by eexists|set_solver].
        -- by rewrite lookup_insert_ne.
      * subst e. cbn [stamp]. rewrite Hci, decide_True, lookup_insert_eq by done.
        split; [by eexists|set_solver].
    + rewrite map_app. apply NoDup_app. split_and!; [done| |apply NoDup_singleton].
      intros t Ht ->%list_elem_of_singleton. cbn [map stamp] in *.
      apply list_elem_of_fmap in Ht as (e & Ee & He). destruct (Howner e He) as [_ Hin].
      rewrite <- Ee, Hci in Hin. pose proof (Hahead id clock clock Hc Hin). lia.
  - assert (∀ t, t ∈ knows w id ∪ past e ∪ {[stamp e]} →
      (value t < value (lamport_observe clock (stamp e)))%N) as Hnew.
    { intros t Ht. unfold lamport_observe. cbn [value]. rewrite N.mod_small by done.
      apply elem_of_union in Ht as [[Ht|Ht]%elem_of_union|Ht%elem_of_singleton].
      - pose proof (Hahead id clock t Hc Ht). lia.
      - pose proof (Hpast e t He Ht). lia.
      - subst t. lia. }
    split; cbn [clocks events]; try done.
    + intros id' c. destruct (decide (id' = id)) as [-> |Hne].
      * rewrite lookup_insert_eq. intros [= <-]. exact (Hid id clock Hc).
      * rewrite lookup_insert_ne by done. apply Hid.
    + intros id' c t. rewrite knows_insert. destruct (decide (id' = id)) as [-> |Hne].
      * rewrite lookup_insert_eq. intros [= <-]. apply Hnew.
      * rewrite lookup_insert_ne by done. apply Hahead.
    + intros id'. rewrite knows_insert. destruct (decide (id' = id)) as [-> |Hne];
        [by rewrite lookup_insert_eq|]. rewrite lookup_insert_ne by done. apply Hmiss.
    + intros e' He'. rewrite knows_insert. destruct (Howner e' He') as [Hs Hin].
      destruct (decide (replica_id (stamp e') = id)) as [E|Hne].
      * rewrite E, lookup_insert_eq. rewrite E in Hin. split; [by eexists|set_solver].
      * by rewrite lookup_insert_ne.
Qed.

(** Lamport time agrees with what happened before. However the replicas edit
    and take in each other's edits, no two edits get the same timestamp, and an
    edit that was made knowing another, directly or through others, has the
    later timestamp; so a sort by timestamp never puts an edit before one it was
    made on. *)
Theorem lamport_time_is_causal w :
  rtc replica_step no_replicas w →
  NoDup (map stamp (events w)) ∧
  ∀ e t, e ∈ events w → t ∈ past e → lamport_lt t (stamp e).
Proof.
  intros Hsteps. assert (ordered w) as [_ _ _ Hpast _ Huniq].
  { assert (ordered no_replicas) as Hstart
      by (split; cbn; try done; try apply NoDup_nil_2; set_solver).
    revert Hstart. induction Hsteps as [|w1 w2 w3 Hs _ IH]; [done|].
    intros Hone. by apply IH, ordered_step with w1. }
  split; [done|]. intros e t He Ht. unfold lamport_lt, lamport_cmp.
  by rewrite (proj2 (N.compare_lt_iff _ _) (Hpast e t He Ht)).
Qed.

Lemma vectors_are_ordered_witness :
  observed_all [2; 0; 3]%N [1; 0; 3]%N = true ∧
  changed_since [2; 0; 3]%N [1; 0; 3]%N = negb (observed_all [1; 0; 3]%N [2; 0; 3]%N).
Proof.
  destruct (vectors_are_ordered [2; 0; 3]%N [1; 0; 3]%N) as (Hle & _ & Hc & _); [discriminate|discriminate|].
  split; [reflexivity|exact Hc].
Defined.

Lemma lamport_order_is_u64_order_witness :
  lamport_cmp (mkLamport 7%N 2%N) (mkLamport 7%N 9%N) = (as_u64 (mkLamport 7%N 2%N) ?= as_u64 (mkLamport 7%N 9%N))%N.
Proof. apply (lamport_order_is_u64_order (mkLamport 7%N 2%N) (mkLamport 7%N 9%N)); split; reflexivity. Defined.

Definition one_edit : Replicas :=
  mkReplicas {[0%N := mkLamport 2%N 0%N]} {[0%N := {[mkLamport 1%N 0%N]}]} [mkEvent (mkLamport 1%N 0%N) ∅].

Lemma lamport_time_is_causal_witness : NoDup (map stamp (events one_edit)).
Proof.
  refine (proj1 (lamport_time_is_causal one_edit _)).
  apply (rtc_l _ _ _ _ (step_joins no_replicas 0%N eq_refl)).
  refine (rtc_once _ _ _).
  exact (step_edits (mkReplicas {[0%N := Lamport_new 0%N]} ∅ []) 0%N (Lamport_new 0%N) eq_refl eq_refl).
Defined.
