(* ===== verification/PlanTime.v ===== *)
(** * Times in a day's plan ([day_plan.rs], from [parse_leading_time] on)

    The times a task may start with. Minutes are [u32]s: sums wrap. *)

From S2P Require Import Prelude Strings.

Definition MINUTES_PER_DAY : N := 1440.
Definition U32_MODULUS : N := 2 ^ 32.

Definition EN_DASH : char := 0x2013%N.
Definition EM_DASH_CHAR : char := 0x2014%N.

(** [H:MM] or [HH:MM] at the very start: the minutes and the rest. *)
Definition parse_time_prefix (text : str) : option (N * str) :=
  let hour_digits := Nat.min 2 (count_while is_ascii_digit text) in
  if (hour_digits =? 0)%nat then None
  else if negb (bool_decide (text !! hour_digits = Some (ch ":"))) then None
  else if (length text <? hour_digits + 3)%nat then None
  else
    let minutes_text := take 2 (drop (hour_digits + 1) text) in
    if negb (forallb is_ascii_digit minutes_text) then None
    else
      hours ← parse_unsigned (U32_MODULUS - 1) (take hour_digits text);
      minutes ← parse_unsigned (U32_MODULUS - 1) minutes_text;
      if (23 <? hours)%N || (59 <? minutes)%N then None
      else Some ((hours * 60 + minutes)%N, drop (hour_digits + 3) text).

(** [Option::or_else] over prefixes. *)
Definition strip_any (prefixes : list str) (s : str) : option str :=
  find_map (λ p, strip_prefix p s) prefixes.

Definition RANGE_SEPARATORS : list str := [[EN_DASH]; [EM_DASH_CHAR]; u "-"; u "to"].

(** A range separator and a time; [24:00] ends a range. *)
Definition parse_range_end (text : str) : option (N * str) :=
  rest ← strip_any RANGE_SEPARATORS (trim_start text);
  let after_separator := trim_start rest in
  match strip_prefix (u "24:00") after_separator with
  | Some rest => Some (MINUTES_PER_DAY, rest)
  | None => parse_time_prefix after_separator
  end.

(** White space before the label, or no label. *)
Definition label_after_token (after_token : str) : option str :=
  if after_token == [] then Some []
  else
    let rest := trim_start after_token in
    if (length rest <? length after_token)%nat then Some rest else None.

(** [(start_min + default_duration).min(MINUTES_PER_DAY)] *)
Definition default_end (start default_duration : N) : N :=
  N.min ((start + default_duration) mod U32_MODULUS) MINUTES_PER_DAY.

(** Start, end and label of a task that starts with a time. *)
Definition parse_leading_time (text : str) (default_duration : N) : option (N * N * str) :=
  match parse_time_prefix text with
  | None => None
  | Some (start, after_start) =>
      let ranged :=
        match parse_range_end after_start with
        | Some (range_end, after_end) =>
            match label_after_token after_end with
            | Some rest =>
                Some (start, if (start <? range_end)%N then range_end else default_end start default_duration,
                      rest)
            | None => None
            end
        | None => None
        end in
      match ranged with
      | Some r => Some r
      | None =>
          rest ← label_after_token after_start;
          Some (start, default_end start default_duration, rest)
      end
  end.

(** A [day_start] or [day_end] of the configuration. *)
Definition parse_grid_bound (text : str) : option N :=
  let trimmed := trim text in
  if trimmed == u "24:00" then Some MINUTES_PER_DAY
  else match parse_time_prefix trimmed with
    | Some (minutes, []) => Some minutes
    | _ => None
    end.

(** [format!("{:02}:{:02}", …)] *)
Definition show_clock (minutes : N) : str :=
  show_padded 2 (minutes / 60) ++ u ":" ++ show_padded 2 (minutes mod 60).

(** ** Bounds *)

Lemma parse_time_prefix_bound text minutes rest :
  parse_time_prefix text = Some (minutes, rest) → (minutes < MINUTES_PER_DAY)%N.
Proof.
  unfold parse_time_prefix. destruct (_ =? 0)%nat; [done|]. destruct (negb _); [done|].
  destruct (_ <? _)%nat; [done|]. destruct (negb _); [done|].
  intros (hours & _ & (m & _ & H)%bind_Some)%bind_Some. revert H.
  destruct (_ || _) eqn:E; [done|]. intros [= <- _]. apply orb_false_iff in E as [Eh Em].
  apply N.ltb_ge in Eh, Em. unfold MINUTES_PER_DAY. lia.
Qed.

Lemma parse_range_end_bound text minutes rest :
  parse_range_end text = Some (minutes, rest) → (minutes <= MINUTES_PER_DAY)%N.
Proof.
  unfold parse_range_end. destruct (strip_any _ _) as [after|]; [|done]. cbn [mbind option_bind].
  destruct (strip_prefix _ _).
  - intros [= <- _]. lia.
  - intros H%parse_time_prefix_bound. lia.
Qed.

Lemma default_end_bound start duration :
  (start < MINUTES_PER_DAY)%N → (0 < duration <= U32_MODULUS - MINUTES_PER_DAY)%N →
  (start < default_end start duration <= MINUTES_PER_DAY)%N.
Proof.
  unfold default_end, MINUTES_PER_DAY. change U32_MODULUS with 4294967296%N. intros Hs Hd.
  rewrite N.mod_small by lia. lia.
Qed.

Lemma leading_time_bounds text duration start end_ label :
  (0 < duration <= U32_MODULUS - MINUTES_PER_DAY)%N →
  parse_leading_time text duration = Some (start, end_, label) →
  (start < end_ <= MINUTES_PER_DAY)%N.
Proof.
  intros Hd. unfold parse_leading_time. destruct (parse_time_prefix text) as [[s after]|] eqn:Es; [|done].
  apply parse_time_prefix_bound in Es. pose proof (default_end_bound s duration Es Hd) as Hdef.
  assert ((rest ← label_after_token after; Some (s, default_end s duration, rest)) =
    Some (start, end_, label) → (start < end_ <= MINUTES_PER_DAY)%N) as Hplain.
  { destruct (label_after_token after); cbn [mbind option_bind]; [|done]. intros [= <- <- _]. exact Hdef. }
  destruct (parse_range_end after) as [[e rest]|] eqn:Ee; [|exact Hplain].
  destruct (label_after_token rest); [|exact Hplain]. apply parse_range_end_bound in Ee.
  destruct (N.ltb_spec s e); intros [= <- <- _]; [lia|exact Hdef].
Qed.

(** A task's time is a piece of the day. Whatever its text, a task that
    starts with a time starts within the day and ends after it starts, at
    midnight at the latest, as long as the configured duration is at least a
    minute and leaves the sum below the width. *)
Theorem leading_time_in_day text duration start end_ label :
  (0 < duration <= U32_MODULUS - MINUTES_PER_DAY)%N →
  parse_leading_time text duration = Some (start, end_, label) →
  (start < end_ <= MINUTES_PER_DAY)%N.
Proof. apply leading_time_bounds. Qed.

(** ** Round trips *)

Lemma parse_unsigned_padded max w n :
  (n <= max)%N → (n < 10 ^ N.of_nat w)%N → w ≠ 0 → parse_unsigned max (show_padded w n) = Some n.
Proof.
  intros Hm Hn Hw. unfold parse_unsigned.
  destruct (show_padded_spec w n Hw Hn) as (Hl & Hd & _).
  assert (strip_prefix (u "+") (show_padded w n) = None) as ->.
  { apply strip_prefix_None. destruct (show_padded w n) as [|c s]; [done|]. cbn [forallb] in Hd.
    apply andb_true_iff in Hd as [Hc _]. unfold is_ascii_digit in Hc. bool_to_prop.
    cbn [u starts_with]. rewrite (proj2 (N.eqb_neq _ _)); [done|]. vm_compute (Ascii.N_of_ascii _). lia. }
  cbn [default]. unfold id. rewrite parse_digits_padded by done. cbn [mbind option_bind].
  by rewrite (proj2 (N.leb_le _ _)).
Qed.

Lemma count_while_app_stop f a c rest :
  forallb f a = true → f c = false → count_while f (a ++ c :: rest) = length a.
Proof.
  induction a as [|x a IH]; cbn; intros Ha Hc; [by rewrite Hc|].
  apply andb_true_iff in Ha as [-> Ha]. cbn. by rewrite IH.
Qed.

Lemma show_clock_parts minutes :
  (minutes < 100 * 60)%N →
  show_clock minutes = show_padded 2 (minutes / 60) ++ ch ":" :: show_padded 2 (minutes mod 60) ∧
  length (show_padded 2 (minutes / 60)) = 2 ∧ forallb is_ascii_digit (show_padded 2 (minutes / 60)) = true ∧
  length (show_padded 2 (minutes mod 60)) = 2 ∧
  forallb is_ascii_digit (show_padded 2 (minutes mod 60)) = true.
Proof.
  intros Hm. destruct (show_padded_spec 2 (minutes / 60)) as (? & ? & _); [done| |].
  { apply N.Div0.div_lt_upper_bound. change (60 * 10 ^ N.of_nat 2)%N with 6000%N. lia. }
  destruct (show_padded_spec 2 (minutes mod 60)) as (? & ? & _); [done| |].
  { change (10 ^ N.of_nat 2)%N with 100%N. pose proof (N.mod_lt minutes 60). lia. }
  done.
Qed.

(** A clock time is read back, whatever follows. *)
Lemma parse_time_prefix_show minutes rest :
  (minutes < MINUTES_PER_DAY)%N → parse_time_prefix (show_clock minutes ++ rest) = Some (minutes, rest).
Proof.
  unfold MINUTES_PER_DAY. intros Hm.
  destruct (show_clock_parts minutes ltac:(lia)) as (Hs & Hlh & Hdh & Hlm & Hdm).
  rewrite Hs, <- app_assoc. set (h := show_padded 2 (minutes / 60)) in *.
  set (m := show_padded 2 (minutes mod 60)) in *. unfold parse_time_prefix.
  rewrite <- app_comm_cons, count_while_app_stop by done. rewrite Hlh.
  change (Nat.min 2 2) with 2. cbn [Nat.eqb].
  rewrite bool_decide_eq_true_2 by (rewrite lookup_app_r, Hlh by lia; done). cbn [negb].
  rewrite (proj2 (Nat.ltb_ge _ _)) by (rewrite !length_app; cbn [length]; rewrite length_app; lia).
  assert (drop (2 + 1) (h ++ ch ":" :: m ++ rest) = m ++ rest) as ->.
  { by rewrite drop_app_add'. }
  rewrite take_app_length' by done. rewrite Hdm. cbn [negb].
  rewrite take_app_length' by done. subst h m.
  assert (minutes / 60 < 24)%N by (apply N.Div0.div_lt_upper_bound; lia).
  pose proof (N.mod_lt minutes 60 ltac:(lia)).
  rewrite !parse_unsigned_padded; try done; change (U32_MODULUS - 1)%N with 4294967295%N; try lia;
    try (change (10 ^ N.of_nat 2)%N with 100%N; lia).
  cbn [mbind option_bind]. rewrite (proj2 (N.ltb_ge _ _)), (proj2 (N.ltb_ge _ _)) by lia. cbn [orb].
  f_equal. f_equal.
  - pose proof (N.div_mod' minutes 60). lia.
  - rewrite drop_app_add' by done. cbn [drop]. by rewrite drop_app_length'.
Qed.

(** A range end as it is written is read back, whatever follows. *)
Lemma parse_range_end_show end_ rest :
  (end_ <= MINUTES_PER_DAY)%N → parse_range_end (u " - " ++ show_clock end_ ++ rest) = Some (end_, rest).
Proof.
  intros He. unfold parse_range_end. change (u " - " ++ ?x) with (32%N :: ch "-" :: 32%N :: x).
    change (trim_start (32%N :: ch "-" :: ?x)) with (ch "-" :: x).
    change (strip_any RANGE_SEPARATORS (ch "-" :: ?x)) with (Some x). cbn [mbind option_bind].
    change (trim_start (32%N :: ?x)) with (trim_start x).
    assert (trim_start (show_clock end_ ++ rest) = show_clock end_ ++ rest) as ->.
    { destruct (show_clock_parts end_) as (-> & Hlen & Hd & _); [unfold MINUTES_PER_DAY in He; lia|].
      destruct (show_padded 2 (end_ / 60)) as [|c h]; [done|]. cbn [forallb] in Hd.
      apply andb_true_iff in Hd as [Hc _]. unfold trim_start. cbn [app trim_start_matches].
      replace (is_whitespace c) with false; [done|]. unfold is_ascii_digit in Hc. bool_to_prop.
      symmetry. unfold is_whitespace.
      repeat (apply orb_false_iff; split); first [apply N.eqb_neq; lia|apply andb_false_iff; left; apply N.leb_gt; lia
        |apply andb_false_iff; right; apply N.leb_gt; lia]. }
    destruct (strip_prefix (u "24:00") _) as [r|] eqn:E.
    - apply strip_prefix_Some in E. destruct (decide (end_ = MINUTES_PER_DAY)) as [-> |Hne].
      + change (show_clock MINUTES_PER_DAY) with (u "24:00") in E. apply app_inv_head in E. by subst r.
      + exfalso. pose proof (parse_time_prefix_show end_ (rest)) as Hp.
        rewrite E in Hp. assert (parse_time_prefix (u "24:00" ++ r) = None) as Hn by reflexivity.
        rewrite Hn in Hp. discriminate Hp. lia.
    - destruct (decide (end_ = MINUTES_PER_DAY)) as [-> |Hne].
      + exfalso. change (show_clock MINUTES_PER_DAY) with (u "24:00") in E.
        by rewrite strip_prefix_app in E.
      + apply parse_time_prefix_show. lia.
Qed.

(** The times the desk writes are the times it reads. A task line that
    starts with a range as the calendar writes one, start before end, is read as
    that range and the text after it, even when the range ends at midnight. *)
Theorem written_range_is_read start end_ label duration :
  (start < end_ <= MINUTES_PER_DAY)%N → trim_start label = label →
  parse_leading_time (show_clock start ++ u " - " ++ show_clock end_ ++ u " " ++ label) duration
  = Some (start, end_, label).
Proof.
  intros [Hse He] Hl. unfold parse_leading_time.
  rewrite parse_time_prefix_show by lia.
  rewrite parse_range_end_show by lia.
  assert (label_after_token (u " " ++ label) = Some label) as ->.
  { unfold label_after_token. change (u " " ++ label) with (32%N :: label).
    change (trim_start (32%N :: label)) with (trim_start label). rewrite Hl.
    rewrite bool_decide_eq_false_2 by done. by rewrite (proj2 (Nat.ltb_lt _ _)) by (cbn; lia). }
  by rewrite (proj2 (N.ltb_lt _ _)).
Qed.

Lemma leading_time_in_day_witness :
  parse_leading_time (u "09:30 Standup") 30 = Some (570%N, 600%N, u "Standup") ∧ (570 < 600 <= MINUTES_PER_DAY)%N.
Proof.
  assert (parse_leading_time (u "09:30 Standup") 30 = Some (570%N, 600%N, u "Standup")) as E
    by (vm_compute; reflexivity).
  split; [exact E|]. apply (leading_time_in_day (u "09:30 Standup") 30 570 600 (u "Standup")); [|exact E].
  split; [reflexivity|]. vm_compute. discriminate.
Defined.

Lemma written_range_is_read_witness :
  parse_leading_time (u "22:00 - 24:00 Sleep") 30 = Some (1320%N, 1440%N, u "Sleep").
Proof.
  apply (written_range_is_read 1320 1440 (u "Sleep") 30); [|reflexivity]. split; [reflexivity|].
  vm_compute. discriminate.
Defined.
