(* ===== verification/MarkdownSyntax.v ===== *)
(** * Markdown of the desk ([thock/src/markdown_syntax.rs])

    The line scanner behind the editor's concealed markup: blocks, inline code,
    comments, links, strikethroughs, emphasis and images, and the edits of the
    [/] menu. Positions count characters; what a loop finds on a line is the list
    of its results, in order. *)

From S2P Require Import Prelude Strings External HeadingKey PlanTime.

(** ** What a span shows *)

(** [reminders.rs]: how a reminder's chip is drawn. *)
Inductive ChipState := Upcoming | Today | Overdue | Closed | NoDay.

Inductive SpanKind :=
| Marker
| Rule
| Heading (level : nat)
| WikilinkLabel
| LinkLabel
| Checkbox (checked : bool)
| DoneTask
| Strikethrough
| Bold
| Italic
| Code
| Bullet
| Quote
| EmailHidden
| EmailLink
| EmailMarker (own : bool)
| EmailSender (own : bool)
| EmailDate
| EmailQuote
| ImageBang
| ImageAlt
| ImageTail (found : bool)
| ImageSource
| JournalTime
| TaskTime
| TimeDash (done : bool)
| Reminder (label : str) (state : ChipState).

Record ConcealSpan := mkSpan { span_range : range; kind : SpanKind }.

Definition shift_range (n : nat) (r : range) : range := mkRange (n + r_start r) (n + r_end r).
Definition shift (n : nat) (s : ConcealSpan) : ConcealSpan :=
  mkSpan (shift_range n (span_range s)) (kind s).

(** [markdown_conceal.rs]: the spans hidden behind a placeholder. *)
Definition is_folded (k : SpanKind) : bool :=
  match k with
  | Marker | Rule | Bullet | Checkbox _ | EmailHidden | EmailLink | EmailMarker _
  | ImageTail _ | TimeDash _ | Reminder _ _ => true
  | _ => false
  end.

(** ** Characters *)

Definition SPACE : char := 32%N.
Definition TAB : char := 9%N.
Definition HASH : char := 35%N.
Definition TILDE : char := 126%N.
Definition UNDERSCORE : char := 95%N.
Definition STAR : char := 42%N.
Definition BANG : char := 33%N.
Definition BACKSLASH : char := 92%N.

Definition is_blank_char (c : char) : bool := is_char SPACE c || is_char TAB c.
Definition is_ascii_whitespace (c : char) : bool :=
  is_char SPACE c || is_char TAB c || is_char 10%N c || is_char 12%N c || is_char 13%N c.
Definition is_bullet_char (c : char) : bool := is_char 45%N c || is_char STAR c || is_char 43%N c.

(** [s.starts_with(f)] and [s.ends_with(f)] on a predicate of characters. *)
Definition starts_as (f : char → bool) (s : str) : bool := is_some_and f (head s).
Definition ends_as (f : char → bool) (s : str) : bool := is_some_and f (last s).

(** [s.find(f)]: the first character [f] takes. *)
Fixpoint find_char (f : char → bool) (s : str) : option nat :=
  match s with
  | [] => None
  | c :: s' => if f c then Some 0 else S <$> find_char f s'
  end.

(** ** Blocks of lines *)

Definition block_indent (line : str) : option nat :=
  let indent := count_while (is_char SPACE) line in
  if (indent <=? 3)%nat then Some indent else None.

Definition opens_fence (line : str) : option (char * nat) :=
  indent ← block_indent line;
  let rest := drop indent line in
  marker ← head rest;
  if negb (is_char BACKTICK marker || is_char TILDE marker) then None
  else
    let len := count_while (is_char marker) rest in
    if (len <? 3)%nat then None
    else if is_char BACKTICK marker && existsb (is_char BACKTICK) (drop len rest) then None
    else Some (marker, len).

Definition closes_fence (line : str) (marker : char) (len : nat) : bool :=
  match block_indent line with
  | None => false
  | Some indent =>
      let rest := drop indent line in
      let run := count_while (is_char marker) rest in
      (len <=? run)%nat && forallb is_ascii_whitespace (drop run rest)
  end.

Record BlockState := mkBlocks {
  fence : option (char * nat);
  front_matter : bool;
  lines_seen : nat
}.

Definition BlockState_default : BlockState := mkBlocks None false 0.

(** Whether the line is content, and the state after it. *)
Definition advance (state : BlockState) (line : str) : bool * BlockState :=
  let line := default line (strip_suffix [13%N] line) in
  let first := (lines_seen state =? 0)%nat in
  let seen := S (lines_seen state) in
  if first && (trim_end line == u "---") then (false, mkBlocks (fence state) true seen)
  else if front_matter state then
    let trimmed := trim_end line in
    (false, mkBlocks (fence state) (negb ((trimmed == u "---") || (trimmed == u "..."))) seen)
  else match fence state with
    | Some (marker, len) =>
        (false, mkBlocks (if closes_fence line marker len then None else Some (marker, len)) false seen)
    | None =>
        match opens_fence line with
        | Some opened => (false, mkBlocks (Some opened) false seen)
        | None => (true, mkBlocks None false seen)
        end
    end.

(** [BlockState::after]: the piece behind the last newline is the next line. *)
Definition after (above : str) : BlockState :=
  fold_left (λ state line, (advance state line).2) (removelast (split_char 10%N above)) BlockState_default.

Definition is_content (state : BlockState) (line : str) : bool := (advance state line).1.

Fixpoint content_loop (state : BlockState) (offset : nat) (raw_lines : list str) : list (nat * str) :=
  match raw_lines with
  | [] => []
  | raw :: rest =>
      let line := default raw (strip_suffix [13%N] raw) in
      let '(content, state) := advance state line in
      let later := content_loop state (offset + length raw + 1) rest in
      if content then (offset, line) :: later else later
  end.

(** [each_content_line]: where each line outside fences and front matter
    starts, and the line. *)
Definition content_lines (text : str) : list (nat * str) :=
  content_loop BlockState_default 0 (split_char 10%N text).

(** ** Shapes of a line *)

Definition is_thematic_break (line : str) : bool :=
  match block_indent line with
  | None => false
  | Some indent =>
      let rest := drop indent line in
      let run := count_while (is_char UNDERSCORE) rest in
      (3 <=? run)%nat && forallb is_blank_char (drop run rest)
  end.

(** Level, start of the hashes, start of the text. *)
Definition atx_heading (line : str) : option (nat * nat * nat) :=
  indent ← block_indent line;
  let level := count_while (is_char HASH) (drop indent line) in
  if (level =? 0)%nat || (6 <? level)%nat then None
  else
    let spaces := count_while is_blank_char (drop (indent + level) line) in
    if (spaces =? 0)%nat then None else Some (level, indent, indent + level + spaces).

(** The [try_fold] of [bullet_marker]: how many markers, when nothing else. *)
Fixpoint count_only (marker : char) (s : str) : option nat :=
  match s with
  | [] => Some 0
  | c :: s' => if is_char marker c then S <$> count_only marker s' else None
  end.

Definition bullet_marker (line : str) : option range :=
  let indent := count_while is_blank_char line in
  let rest := drop indent line in
  marker ← head rest;
  if negb (is_bullet_char marker) then None
  else if negb (starts_as is_blank_char (drop 1 rest)) then None
  else if is_some_and (λ count, (3 <=? count)%nat)
      (count_only marker (filter (λ c, is_ascii_whitespace c = false) rest)) then None
  else Some (mkRange indent (indent + 1)).

Definition blockquote_range (line : str) : option range :=
  indent ← block_indent line;
  if negb (starts_as (is_char 62%N) (drop indent line)) then None
  else
    let end_ := length (trim_end line) in
    if (indent <? end_)%nat then Some (mkRange indent end_) else None.

(** The [[ ]] of a task and whether it is ticked. *)
Definition task_checkbox (line : str) : option (range * bool) :=
  match trim_start_matches is_blank_char line with
  | bullet :: after_bullet =>
      if negb (is_bullet_char bullet) then None
      else
        let after_space := trim_start_matches is_blank_char after_bullet in
        if (length after_space =? length after_bullet)%nat then None
        else match after_space with
          | open :: mark :: close :: after_checkbox =>
              if negb (is_char LBRACKET open) then None
              else
                checked ← (if is_char SPACE mark then Some false
                           else if is_char 120%N mark || is_char 88%N mark then Some true else None);
                if negb (is_char RBRACKET close) then None
                else if negb (after_checkbox == []) && negb (starts_as is_blank_char after_checkbox) then None
                else
                  let end_ := length line - length after_checkbox in
                  Some (mkRange (end_ - 3) end_, checked)
          | _ => None
          end
  | [] => None
  end.

Definition list_prefix (line : str) : option range :=
  bullet ← bullet_marker line;
  let marker_end := match task_checkbox line with
    | Some (checkbox, _) => r_end checkbox
    | None => r_end bullet
    end in
  let rest := drop marker_end line in
  Some (mkRange (r_start bullet) (length line - length (trim_start_matches is_blank_char rest))).

(** The character between the brackets and what replaces it. *)
Definition toggle_task_edit (line : str) : option (range * str) :=
  _ ← bullet_marker line;
  match task_checkbox line with
  | Some (checkbox, checked) =>
      Some (mkRange (r_start checkbox + 1) (r_start checkbox + 2), if checked then u " " else u "x")
  | None => None
  end.

(** ** The [/] menu *)

Inductive Block :=
| BlockTask | BlockBullet | BlockNumbered | BlockHeading (level : nat) | BlockQuote.

Definition Block_prefix (b : Block) : str :=
  match b with
  | BlockTask => u "- [ ] "
  | BlockBullet => u "- "
  | BlockNumbered => u "1. "
  | BlockHeading level => replicate (Nat.min (Nat.max level 1) 6) HASH ++ u " "
  | BlockQuote => u "> "
  end.

Definition block_text_start (line : str) (indent : nat) : nat :=
  match list_prefix line with
  | Some prefix => r_end prefix
  | None =>
      let rest := drop indent line in
      let digits := count_while is_ascii_digit rest in
      let hashes := count_while (is_char HASH) rest in
      let marker :=
        if (1 <=? digits)%nat && (digits <=? 9)%nat
           && starts_as (λ c, is_char 46%N c || is_char RPAREN c) (drop digits rest) then Some (digits + 1)
        else if (1 <=? hashes)%nat && (hashes <=? 6)%nat then Some hashes
        else if starts_as (is_char 62%N) rest then Some 1
        else None in
      match marker with
      | None => indent
      | Some marker =>
          let after := drop marker rest in
          let spaced := trim_start_matches is_blank_char after in
          if (length spaced =? length after)%nat && negb (after == [])
             && negb (starts_as (is_char 62%N) rest) then indent
          else length line - length spaced
      end
  end.

(** The line as a line of the block, and where the cursor lands. *)
Definition apply_block (line : str) (block : Block) (cursor : nat) : str * nat :=
  let indent := count_while is_blank_char line in
  let text_start := block_text_start line indent in
  let new_text_start := indent + length (Block_prefix block) in
  (take indent line ++ Block_prefix block ++ drop text_start line,
   new_text_start + (Nat.min cursor (length line) - text_start)).

(** ** Code spans and comments *)

(** The runs of backticks and their lengths. *)
Fixpoint backtick_runs (fuel : nat) (line : str) (cursor : nat) : list (nat * nat) :=
  match fuel with
  | 0 => []
  | S fuel =>
      match line !! cursor with
      | None => []
      | Some c =>
          if is_char BACKTICK c then
            let len := count_while (is_char BACKTICK) (drop cursor line) in
            (cursor, len) :: backtick_runs fuel line (cursor + len)
          else backtick_runs fuel line (cursor + 1)
      end
  end.

Record InlineCode := mkCode { code_range : range; code_text : range }.

(** Each run pairs with the next one of its length. *)
Fixpoint pair_runs (fuel : nat) (runs : list (nat * nat)) : list InlineCode :=
  match fuel, runs with
  | S fuel, (open_start, open_length) :: rest =>
      match list_find (λ run, run.2 = open_length) rest with
      | Some (index, (close_start, close_length)) =>
          mkCode (mkRange open_start (close_start + close_length))
            (mkRange (open_start + open_length) close_start)
          :: pair_runs fuel (drop (S index) rest)
      | None => pair_runs fuel rest
      end
  | _, _ => []
  end.

Definition code_spans (line : str) : list InlineCode :=
  let runs := backtick_runs (S (length line)) line 0 in
  pair_runs (S (length runs)) runs.

Definition code_span_ranges (line : str) : list range := map code_range (code_spans line).

Definition overlaps_excluded (excluded : list range) (range : range) : bool :=
  existsb (λ other, overlaps other range) excluded.

Fixpoint comments_loop (fuel : nat) (line : str) (code_spans : list range) (cursor : nat) : list range :=
  match fuel with
  | 0 => []
  | S fuel =>
      match find_sub (u "<!--") (drop cursor line) with
      | None => []
      | Some index =>
          let open := index + cursor in
          let body := open + 4 in
          match find_sub (u "-->") (drop body line) with
          | None => []
          | Some index =>
              let close := index + body + 3 in
              let range := mkRange open close in
              let later := comments_loop fuel line code_spans close in
              if overlaps_excluded code_spans range then later else range :: later
          end
      end
  end.

Definition html_comment_ranges (line : str) (code_spans : list range) : list range :=
  comments_loop (S (length line)) line code_spans 0.

Definition inline_exclusions (line : str) : list range :=
  let code_spans := code_span_ranges line in
  code_spans ++ html_comment_ranges line code_spans.

(** ** Links *)

Record InlineLink := mkLink {
  link_range : range;
  link_label : range;
  wikilink_target : option range;
  destination : option range
}.

Definition slice (line : str) (r : range) : str := take (r_end r - r_start r) (drop (r_start r) line).

Definition parse_wikilink (line : str) (open : nat) : option InlineLink :=
  let inner_start := open + 2 in
  close ← find_sub (u "]]") (drop inner_start line);
  let close := close + inner_start in
  let inner := slice line (mkRange inner_start close) in
  let end_ := close + 2 in
  if (inner == []) || contains [LBRACKET] inner || contains [RBRACKET] inner then None
  else match split_once (u "|") inner with
    | Some (target, alias) =>
        if (target == []) || (alias == []) then None
        else Some (mkLink (mkRange open end_) (mkRange (inner_start + length target + 1) close)
          (Some (mkRange inner_start (inner_start + length target))) None)
    | None =>
        Some (mkLink (mkRange open end_) (mkRange inner_start close) (Some (mkRange inner_start close)) None)
    end.

Fixpoint destination_end (s : str) (offset depth : nat) : option nat :=
  match s with
  | [] => None
  | c :: s' =>
      if is_char LPAREN c then destination_end s' (S offset) (S depth)
      else if is_char RPAREN c then
        if (depth - 1 =? 0)%nat then Some offset else destination_end s' (S offset) (depth - 1)
      else destination_end s' (S offset) depth
  end.

Definition balanced_destination (line : str) (text_end : nat) : option (nat * nat) :=
  if negb (starts_with [LPAREN] (drop (text_end + 1) line)) then None
  else
    let dest_start := text_end + 2 in
    offset ← destination_end (drop dest_start line) 0 1;
    Some (dest_start, dest_start + offset).

Definition parse_inline_link (line : str) (open : nat) : option InlineLink :=
  let text_start := open + 1 in
  text_end ← find_sub [RBRACKET] (drop text_start line);
  let text_end := text_end + text_start in
  let text := slice line (mkRange text_start text_end) in
  if (text == []) || contains [LBRACKET] text then None
  else
    '(dest_start, close) ← balanced_destination line text_end;
    Some (mkLink (mkRange open (close + 1)) (mkRange text_start text_end) None (Some (mkRange dest_start close))).

(** The links of a line from [cursor], in order: [each_inline_link] with a
    visitor that keeps walking. *)
Fixpoint links_loop (fuel : nat) (line : str) (excluded : list range) (cursor : nat) : list InlineLink :=
  match fuel with
  | 0 => []
  | S fuel =>
      match find_sub [LBRACKET] (drop cursor line) with
      | None => []
      | Some relative =>
          let open := cursor + relative in
          if (0 <? open)%nat && is_some_and (λ c, is_char BANG c || is_char BACKSLASH c) (line !! (open - 1))
          then links_loop fuel line excluded (open + 1)
          else match find (λ range, range_contains range open) excluded with
            | Some range => links_loop fuel line excluded (r_end range)
            | None =>
                let parsed :=
                  if starts_with [LBRACKET; LBRACKET] (drop open line) then parse_wikilink line open
                  else parse_inline_link line open in
                match parsed with
                | Some link =>
                    if overlaps_excluded excluded (link_range link)
                    then links_loop fuel line excluded (open + 1)
                    else link :: links_loop fuel line excluded (r_end (link_range link))
                | None => links_loop fuel line excluded (open + 1)
                end
            end
      end
  end.

Definition each_inline_link (line : str) (from : nat) (excluded : list range) : list InlineLink :=
  links_loop (S (length line)) line excluded from.

Definition inline_links (line : str) : list InlineLink :=
  each_inline_link line 0 (inline_exclusions line).

(** ** Strikethrough and emphasis *)

Record InlineStrikethrough := mkStrike { strike_range : range; strike_text : range }.

Definition strikethrough_exclusions (line : str) : list range :=
  let inline := inline_exclusions line in
  inline ++ map link_range (each_inline_link line 0 inline).

Definition parse_strikethrough (line : str) (open : nat) : option InlineStrikethrough :=
  let text_start := open + 2 in
  close ← find_sub (u "~~") (drop text_start line);
  let close := close + text_start in
  let text := slice line (mkRange text_start close) in
  if (text == []) || starts_as is_whitespace text || ends_as is_whitespace text
     || is_some_and (is_char TILDE) (line !! (close + 2)) then None
  else Some (mkStrike (mkRange open (close + 2)) (mkRange text_start close)).

Fixpoint strikes_loop (fuel : nat) (line : str) (excluded : list range) (cursor : nat)
  : list InlineStrikethrough :=
  match fuel with
  | 0 => []
  | S fuel =>
      match find_sub (u "~~") (drop cursor line) with
      | None => []
      | Some relative =>
          let open := cursor + relative in
          let cursor := open + 2 in
          if is_some_and (is_char TILDE) (line !! (open + 2))
             || ((0 <? open)%nat && is_some_and (λ c, is_char TILDE c || is_char BACKSLASH c) (line !! (open - 1)))
          then strikes_loop fuel line excluded cursor
          else match parse_strikethrough line open with
            | None => strikes_loop fuel line excluded cursor
            | Some run =>
                if overlaps_excluded excluded (mkRange (r_start (strike_range run)) (r_start (strike_text run)))
                   || overlaps_excluded excluded (mkRange (r_end (strike_text run)) (r_end (strike_range run)))
                then strikes_loop fuel line excluded cursor
                else run :: strikes_loop fuel line excluded (r_end (strike_range run))
            end
      end
  end.

Definition each_strikethrough (line : str) (from : nat) (excluded : list range) : list InlineStrikethrough :=
  strikes_loop (S (length line)) line excluded from.

Definition inline_strikethroughs (line : str) : list InlineStrikethrough :=
  each_strikethrough line 0 (strikethrough_exclusions line).

Record InlineEmphasis := mkEmphasis { emph_range : range; emph_text : range; emph_length : nat }.

Definition is_bold (e : InlineEmphasis) : bool := (2 <=? emph_length e)%nat.
Definition is_italic (e : InlineEmphasis) : bool := negb (emph_length e =? 2)%nat.
Definition emph_kinds (e : InlineEmphasis) : list SpanKind :=
  (if is_bold e then [Bold] else []) ++ (if is_italic e then [Italic] else []).

Definition marker_run_length (line : str) (start : nat) (marker : char) : nat :=
  count_while (is_char marker) (drop start line).

(** A byte of a word: every byte of a character beyond ASCII is one. *)
Definition is_word_byte (c : char) : bool := is_ascii_alphanumeric c || (128 <=? c)%N.

(** The loop over the candidates for the closing run. *)
Fixpoint emphasis_close (fuel : nat) (line : str) (marker : char) (len cursor : nat) : option nat :=
  match fuel with
  | 0 => None
  | S fuel =>
      relative ← find_char (is_char marker) (drop cursor line);
      let candidate := cursor + relative in
      let run := marker_run_length line candidate marker in
      let cursor := candidate + run in
      if (run =? len)%nat && negb (is_some_and is_ascii_whitespace (line !! (candidate - 1)))
         && negb (is_some_and is_word_byte (line !! cursor))
      then Some candidate
      else emphasis_close fuel line marker len cursor
  end.

Definition parse_emphasis (line : str) (open : nat) (marker : char) (excluded : list range)
  : option InlineEmphasis :=
  let len := marker_run_length line open marker in
  if (3 <? len)%nat then None
  else
    let text_start := open + len in
    next ← line !! text_start;
    if is_ascii_whitespace next then None
    else if (0 <? open)%nat && is_some_and (λ c, is_char BACKSLASH c || is_word_byte c) (line !! (open - 1))
    then None
    else
      close ← emphasis_close (S (length line)) line marker len text_start;
      if overlaps_excluded excluded (mkRange open text_start)
         || overlaps_excluded excluded (mkRange close (close + len)) then None
      else Some (mkEmphasis (mkRange open (close + len)) (mkRange text_start close) len).

Definition is_emphasis_char (c : char) : bool := is_char STAR c || is_char UNDERSCORE c.

Fixpoint emphases_loop (nested : str → nat → list InlineEmphasis) (fuel : nat) (line : str)
    (excluded : list range) (cursor : nat) : list InlineEmphasis :=
  match fuel with
  | 0 => []
  | S fuel =>
      match find_char is_emphasis_char (drop cursor line) with
      | None => []
      | Some relative =>
          let open := cursor + relative in
          let marker := default STAR (line !! open) in
          match parse_emphasis line open marker excluded with
          | None => emphases_loop nested fuel line excluded (open + marker_run_length line open marker)
          | Some run =>
              run :: nested (take (r_end (emph_text run)) line) (r_start (emph_text run))
              ++ emphases_loop nested fuel line excluded (r_end (emph_range run))
          end
      end
  end.

(** [levels] more levels are read inside the runs of this one. *)
Fixpoint emphases_at (levels : nat) (line : str) (from : nat) (excluded : list range) : list InlineEmphasis :=
  emphases_loop
    (match levels with
     | 0 => λ _ _, []
     | S levels => λ line from, emphases_at levels line from excluded
     end) (S (length line)) line excluded from.

Definition MAX_EMPHASIS_DEPTH : nat := 3.

Definition each_emphasis (line : str) (from : nat) (excluded : list range) (depth : nat) : list InlineEmphasis :=
  emphases_at (MAX_EMPHASIS_DEPTH - depth) line from excluded.

Definition inline_emphases (line : str) : list InlineEmphasis :=
  each_emphasis line 0 (strikethrough_exclusions line) 0.

(** ** Images *)

Record ImageLink := mkImage { image_range : range; image_alt : range; image_src : range }.

Definition parse_image (line : str) (bang : nat) : option ImageLink :=
  let alt_start := bang + 2 in
  alt_end ← find_sub [RBRACKET] (drop alt_start line);
  let alt_end := alt_end + alt_start in
  if contains [LBRACKET] (slice line (mkRange alt_start alt_end)) then None
  else
    '(dest_start, close) ← balanced_destination line alt_end;
    let dest := slice line (mkRange dest_start close) in
    let src_start := dest_start + (length dest - length (trim_start dest)) in
    let src := trim_start dest in
    let src_len := default (length src) (find_char is_whitespace src) in
    if (src_len =? 0)%nat then None
    else Some (mkImage (mkRange bang (close + 1)) (mkRange alt_start alt_end)
      (mkRange src_start (src_start + src_len))).

Definition image_line (line : str) : option ImageLink :=
  let content := trim line in
  let start := length line - length (trim_start line) in
  if negb (starts_with (u "![") content) || starts_with [LBRACKET] (drop 2 content) then None
  else
    image ← parse_image line start;
    if (r_end (image_range image) =? start + length content)%nat then Some image else None.

(** What an image line shows: its alt text, or the stem of its file. *)
Definition image_shown (image : ImageLink) (line : str) : option range :=
  if (r_start (image_alt image) <? r_end (image_alt image))%nat then Some (image_alt image)
  else
    let src := slice line (image_src image) in
    let name_start := match rfind_sub (u "/") src with Some slash => slash + 1 | None => 0 end in
    let name := drop name_start src in
    let stem_len := default (length name) (rfind_sub (u ".") name) in
    if (stem_len =? 0)%nat then None
    else Some (mkRange (r_start (image_src image) + name_start)
      (r_start (image_src image) + name_start + stem_len)).

Definition push_image_spans (image : ImageLink) (line : str) : list ConcealSpan :=
  match image_shown image line with
  | None => []
  | Some shown =>
      let start := r_start (image_range image) in
      [mkSpan (mkRange start (start + 1)) ImageBang;
       mkSpan (mkRange (start + 1) (r_start shown)) Marker;
       mkSpan shown ImageAlt;
       mkSpan (mkRange (r_end shown) (r_end (image_range image))) (ImageTail true);
       mkSpan (image_src image) ImageSource]
  end.

(** ** The spans of a line *)

Definition journal_time (line : str) : option range :=
  '(_, rest) ← parse_time_prefix line;
  if starts_with [32; 183; 32]%N rest then Some (mkRange 0 (length line - length rest)) else None.

Definition push_task_time_spans (line : str) (checked : bool) (after_checkbox : nat) : list ConcealSpan :=
  let text := drop after_checkbox line in
  let indent := count_while is_blank_char text in
  let token_start := after_checkbox + indent in
  let token := drop token_start line in
  match parse_time_prefix token with
  | None => []
  | Some (_, after_start) =>
      let start_len := length token - length after_start in
      let '(token_len, dash) :=
        match parse_range_end after_start with
        | Some (_, after_end) =>
            let token_len := length token - length after_end in
            let between := slice token (mkRange start_len token_len) in
            let leading := length between - length (trim_start between) in
            (token_len,
             match strip_prefix (u "-") (drop leading between) with
             | Some after_hyphen =>
                 let trailing := length after_hyphen - length (trim_start after_hyphen) in
                 Some (mkRange start_len (start_len + leading + 1 + trailing))
             | None => None
             end)
        | None => (start_len, None)
        end in
      let after_token := drop token_len token in
      if negb (after_token == []) && negb (starts_as is_blank_char after_token) then []
      else
        (if checked then [] else [mkSpan (mkRange token_start (token_start + token_len)) TaskTime])
        ++ match dash with
           | Some dash => [mkSpan (shift_range token_start dash) (TimeDash checked)]
           | None => []
           end
  end.

(** What a line is as a block: its spans and where its text starts; nothing for
    a heading without text. *)
Definition block_spans (line : str) : option (list ConcealSpan * nat) :=
  match atx_heading line with
  | Some (level, marker_start, text_start) =>
      let text := trim_end (drop text_start line) in
      if text == [] then None
      else Some ([mkSpan (mkRange marker_start text_start) Marker;
                  mkSpan (mkRange text_start (text_start + length text)) (Heading level)], text_start)
  | None =>
      match bullet_marker line with
      | Some bullet =>
          match task_checkbox line with
          | Some (box, checked) =>
              let text_end := length (trim_end line) in
              Some ([mkSpan (mkRange (r_start bullet) (r_start box)) Marker;
                     mkSpan box (Checkbox checked)]
                    ++ (if checked && (r_end box <? text_end)%nat
                        then [mkSpan (mkRange (r_end box) text_end) DoneTask] else [])
                    ++ push_task_time_spans line checked (r_end box), r_end box)
          | None => Some ([mkSpan bullet Bullet], r_end bullet)
          end
      | None =>
          Some (match journal_time line with Some r => [mkSpan r JournalTime] | None => [] end, 0)
      end
  end.

(** A construct between two delimiters, both hidden. *)
Definition delimited (range text : range) (kinds : list SpanKind) : list ConcealSpan :=
  mkSpan (mkRange (r_start range) (r_start text)) Marker
  :: map (mkSpan text) kinds
  ++ [mkSpan (mkRange (r_end text) (r_end range)) Marker].

Definition code_conceal (c : InlineCode) : list ConcealSpan := delimited (code_range c) (code_text c) [Code].
Definition link_conceal (l : InlineLink) : list ConcealSpan :=
  delimited (link_range l) (link_label l) [if is_some (wikilink_target l) then WikilinkLabel else LinkLabel].
Definition strike_conceal (s : InlineStrikethrough) : list ConcealSpan :=
  delimited (strike_range s) (strike_text s) [Strikethrough].
Definition emph_conceal (e : InlineEmphasis) : list ConcealSpan :=
  delimited (emph_range e) (emph_text e) (emph_kinds e).

Definition inline_spans (line : str) (inline_from : nat) : list ConcealSpan :=
  let code := code_spans line in
  let code_ranges := map code_range code in
  let comments := html_comment_ranges line code_ranges in
  let excluded := code_ranges ++ comments in
  let links := each_inline_link line inline_from excluded in
  let struck_excluded := excluded ++ map link_range links in
  map (λ comment, mkSpan comment Marker) comments
  ++ flat_map code_conceal code
  ++ flat_map link_conceal links
  ++ flat_map strike_conceal (each_strikethrough line inline_from struck_excluded)
  ++ flat_map emph_conceal (each_emphasis line inline_from struck_excluded 0).

Definition scan_line (line : str) : list ConcealSpan :=
  match image_line line with
  | Some image => push_image_spans image line
  | None =>
      match blockquote_range line with Some r => [mkSpan r Quote] | None => [] end
      ++ match block_spans line with
         | None => []
         | Some (spans, inline_from) => spans ++ inline_spans line inline_from
         end
  end.

Definition conceal_spans (text : str) : list ConcealSpan :=
  flat_map (λ '(line_start, line),
    if is_thematic_break line then [mkSpan (mkRange line_start (line_start + length line)) Rule]
    else map (shift line_start) (scan_line line)) (content_lines text).

(** ** What is under the cursor *)

Record WikilinkReference := mkWikilink { wiki_range : range; wiki_target : range }.

(** The visitor of [wikilink_at] on the links of one line. *)
Fixpoint wikilink_in (line_start offset : nat) (links : list InlineLink) : option WikilinkReference :=
  match links with
  | [] => None
  | link :: rest =>
      let range := shift_range line_start (link_range link) in
      if range_contains range offset then
        target ← wikilink_target link;
        Some (mkWikilink range (shift_range line_start target))
      else if (r_end range <=? offset)%nat then wikilink_in line_start offset rest
      else None
  end.

Definition wikilink_at (text : str) (offset : nat) : option WikilinkReference :=
  fold_left (λ found '(line_start, line),
    if is_some found || (offset <? line_start)%nat || (line_start + length line <? offset)%nat then found
    else wikilink_in line_start offset (each_inline_link line 0 (inline_exclusions line)))
    (content_lines text) None.

Definition is_prose_at (text : str) (offset : nat) : bool :=
  fold_left (λ prose '(line_start, line),
    if (line_start <=? offset)%nat && (offset <=? line_start + length line)%nat then
      let column := offset - line_start in
      negb (existsb (λ range, range_contains range column) (inline_exclusions line))
    else prose) (content_lines text) false.

Record ImageReference := mkImageRef { ref_range : range; ref_src : range }.

Definition image_at (text : str) (offset : nat) : option ImageReference :=
  fold_left (λ found '(line_start, line),
    if is_some found || (offset <? line_start)%nat || (line_start + length line <? offset)%nat then found
    else match image_line line with
      | Some image =>
          Some (mkImageRef (shift_range line_start (image_range image)) (shift_range line_start (image_src image)))
      | None => found
      end) (content_lines text) None.

Definition in_open_link (before : str) : bool :=
  let open_wikilink := is_some_and (λ open, negb (contains (u "]]") (drop open before))) (rfind_sub (u "[[") before) in
  let open_destination := is_some_and (λ open, negb (contains [RPAREN] (drop open before))) (rfind_sub (u "](") before) in
  open_wikilink || open_destination.

Section alphabets.
Context `{UnicodeTables}.

Definition slash_query_start (line : str) (column : nat) : option nat :=
  line_prefix ← get_range line 0 column;
  slash ← rfind_sub (u "/") line_prefix;
  if negb (forallb is_alphanumeric (drop (slash + 1) line_prefix)) then None
  else
    let before := take slash line_prefix in
    if negb ((trim before == []) || ends_as is_whitespace before) then None
    else if in_open_link before then None
    else if existsb (λ range, range_contains range slash)
        (inline_exclusions line ++ map link_range (inline_links line)) then None
    else Some slash.

(** ** Heading keys ([day_plan.rs]) *)

(** The text with its links reduced to their labels. *)
Fixpoint plain_loop (text : str) (cursor : nat) (plain : str) (links : list InlineLink) : str :=
  match links with
  | [] => plain ++ drop cursor text
  | link :: rest =>
      if (r_start (link_range link) <? cursor)%nat then plain_loop text cursor plain rest
      else plain_loop text (r_end (link_range link))
        (plain ++ slice text (mkRange cursor (r_start (link_range link))) ++ slice text (link_label link)) rest
  end.

Definition heading_key (text : str) : str :=
  let plain := plain_loop text 0 [] (inline_links text) in
  let key := fold_left key_step plain [] in
  let trimmed := trim_end key in
  take (length trimmed) key.
End alphabets.
