(* ===== verification/MarkdownKeys.v ===== *)
(** * One key for a heading

    The desk ([day_plan.rs], on the scanner of [markdown_syntax.rs]) and the
    agents' tools ([markdown.rs]) each compute a heading's comparison key. Here
    the two are shown to be the same function. *)

From S2P Require Import Prelude Strings External HeadingKey MarkdownSyntax.

(** ** Positions *)

Lemma find_get text i p :
  p ≠ [] → get_from text i ≫= find_sub p = find_sub p (drop i text).
Proof.
  intros Hp. unfold get_from. destruct (Nat.leb_spec i (length text)); [done|].
  cbn [mbind option_bind]. rewrite drop_ge by lia. symmetry. apply find_sub_None. intros j.
  rewrite drop_nil. by destruct p.
Qed.

Lemma find_drop_bounds p text i k :
  find_sub p (drop i text) = Some k → p ≠ [] → i + k + length p ≤ length text.
Proof.
  intros (_ & Hl & _ & _)%find_sub_Some Hp. rewrite length_drop in Hl.
  assert (length p ≠ 0) by (by destruct p). lia.
Qed.

Lemma get_slice text a b :
  b ≤ length text → default [] (get_range text a b) = slice text (mkRange a b).
Proof.
  intros Hb. unfold get_range, slice. cbn [r_start r_end].
  rewrite (proj2 (Nat.leb_le _ _) Hb), andb_true_r. destruct (Nat.leb_spec a b); [done|].
  by replace (b - a) with 0 by lia.
Qed.

Lemma get_default text i : default [] (get_from text i) = drop i text.
Proof. unfold get_from. destruct (Nat.leb_spec i (length text)); [done|]. by rewrite drop_ge by lia. Qed.

(** ** Code spans *)

Lemma run_at_drop text i : run_at text i = count_while (is_char BACKTICK) (drop i text).
Proof. unfold run_at, get_from. destruct (Nat.leb_spec i (length text)); [done|]. by rewrite drop_ge by lia. Qed.

Lemma count_while_drop_le f text i : count_while f (drop i text) ≤ length text - i.
Proof. pose proof (count_while_le f (drop i text)). by rewrite length_drop in H. Qed.

Lemma run_at_pos text i : text !! i = Some BACKTICK → 1 ≤ run_at text i.
Proof.
  intros Hi. rewrite run_at_drop. rewrite (drop_S _ _ _ Hi). cbn [count_while].
  change (is_char BACKTICK BACKTICK) with true. cbn iota. lia.
Qed.

Lemma backtick_runs_fuel f1 f2 text cursor :
  length text - cursor < f1 → length text - cursor < f2 →
  backtick_runs f1 text cursor = backtick_runs f2 text cursor.
Proof.
  revert f2 cursor. induction f1 as [|f1 IH]; intros [|f2] cursor H1 H2; try lia. cbn [backtick_runs].
  destruct (text !! cursor) as [c|] eqn:E; [|done]. pose proof (lookup_lt_Some _ _ _ E).
  destruct (is_char BACKTICK c) eqn:Ec; [|apply IH; lia]. f_equal.
  rewrite (drop_S _ _ _ E). cbn [count_while]. rewrite Ec. apply IH; lia.
Qed.

Definition runs (text : str) (cursor : nat) : list (nat * nat) :=
  backtick_runs (S (length text)) text cursor.

(** The runs from a position on: the next one, then those after it. *)
Lemma runs_step text cursor :
  runs text cursor =
  match find_sub [BACKTICK] (drop cursor text) with
  | None => []
  | Some r => (cursor + r, run_at text (cursor + r)) :: runs text (cursor + r + run_at text (cursor + r))
  end.
Proof.
  remember (length text - cursor) as n eqn:En. revert cursor En.
  induction n as [n IH] using lt_wf_ind. intros cursor ->. unfold runs at 1. cbn [backtick_runs].
  destruct (text !! cursor) as [c|] eqn:E.
  - pose proof (lookup_lt_Some _ _ _ E). rewrite (drop_S _ _ _ E). cbn [find_sub starts_with].
    change (BACKTICK =? c)%N with (is_char BACKTICK c). destruct (is_char BACKTICK c) eqn:Ec; cbn [andb].
    + rewrite Nat.add_0_r, run_at_drop, (drop_S _ _ _ E). f_equal. unfold runs.
      apply backtick_runs_fuel; cbn [count_while]; rewrite Ec; lia.
    + rewrite (backtick_runs_fuel _ (S (length text))) by lia. fold (runs text (cursor + 1)).
      rewrite (IH (length text - (cursor + 1))) by lia. rewrite Nat.add_1_r.
      destruct (find_sub _ (drop (S cursor) text)) as [r|]; cbn; [|done].
      by replace (cursor + S r) with (S (cursor + r)) by lia.
  - apply lookup_ge_None in E. by rewrite drop_ge by lia.
Qed.

Lemma find_backtick text cursor r :
  find_sub [BACKTICK] (drop cursor text) = Some r →
  text !! (cursor + r) = Some BACKTICK ∧ cursor + r < length text.
Proof.
  intros H. apply find_sub_Some in H as (Hs & _). apply starts_with_app in Hs as [rest Hr].
  rewrite drop_drop in Hr. assert (text !! (cursor + r) = Some BACKTICK) as Hl.
  { rewrite <- (Nat.add_0_r (cursor + r)), <- lookup_drop. by rewrite Hr. }
  split; [done|]. by apply lookup_lt_Some in Hl.
Qed.

(** A run is a stretch of backticks behind the position. *)
Definition run_ok (text : str) (cursor : nat) (run : nat * nat) : Prop :=
  cursor ≤ run.1 ∧ 1 ≤ run.2 ∧ run.1 + run.2 ≤ length text.

Lemma runs_ok text cursor : Forall (run_ok text cursor) (runs text cursor).
Proof.
  remember (length text - cursor) as n eqn:En. revert cursor En.
  induction n as [n IH] using lt_wf_ind. intros cursor ->. rewrite runs_step.
  destruct (find_sub _ _) as [r|] eqn:E; [|constructor]. apply find_backtick in E as [Hb Hl].
  pose proof (run_at_pos _ _ Hb). pose proof (count_while_drop_le (is_char BACKTICK) text (cursor + r)) as Hc.
  rewrite <- run_at_drop in Hc. constructor; [repeat split; cbn; lia|].
  eapply Forall_impl;
    [apply (IH (length text - (cursor + r + run_at text (cursor + r)))); [lia|reflexivity]|]. intros run (? & ? & ?). repeat split; lia.
Qed.

Lemma closing_run_runs fuel text len search :
  length text - search < fuel →
  closing_run fuel text len search = (λ x, x.2.1 + x.2.2) <$> list_find (λ run, run.2 = len) (runs text search).
Proof.
  revert search. induction fuel as [|fuel IH]; intros search Hf; [lia|]. cbn [closing_run].
  rewrite find_get by done. rewrite runs_step.
  destruct (find_sub _ _) as [r|] eqn:E; [|done]. apply find_backtick in E as [Hb Hl].
  pose proof (run_at_pos _ _ Hb). cbn [list_find snd].
  destruct (decide (run_at text (search + r) = len)) as [Heq|Hne].
  - rewrite (proj2 (Nat.eqb_eq _ _) Heq). cbn. by rewrite Heq.
  - rewrite (proj2 (Nat.eqb_neq _ _) Hne), IH by lia.
    by destruct (list_find _ _) as [[i [s l]]|].
Qed.

Lemma runs_behind text search P `{∀ x, Decision (P x)} i s l :
  list_find P (runs text search) = Some (i, (s, l)) →
  drop (S i) (runs text search) = runs text (s + l).
Proof.
  revert search. induction i as [|i IH]; intros search; rewrite runs_step;
    (destruct (find_sub _ _) as [r|]; [|done]); cbn [list_find]; destruct (decide _).
  - intros [= <- <-]. done.
  - by destruct (list_find _ _) as [[? ?]|].
  - done.
  - destruct (list_find P (runs text _)) as [[k x]|] eqn:E; [|done]. cbn [fmap option_fmap option_map prod_map]. intros [= <- ->].
    exact (IH _ E).
Qed.

(** The agents' search for the closing run pairs the runs as the desk's list of
    them does. *)
Lemma code_spans_pairs fuel fuel' text cursor spans :
  length text - cursor < fuel → length (runs text cursor) < fuel' →
  code_spans_loop fuel text cursor spans = spans ++ map code_range (pair_runs fuel' (runs text cursor)).
Proof.
  revert fuel' cursor spans. induction fuel as [|fuel IH]; intros [|fuel'] cursor spans Hf Hf'; [lia..|].
  cbn [code_spans_loop]. rewrite find_get by done. revert Hf'. rewrite (runs_step text cursor).
  destruct (find_sub _ _) as [r|] eqn:E; [|by rewrite app_nil_r]. apply find_backtick in E as [Hb Hl].
  pose proof (run_at_pos _ _ Hb). set (open := cursor + r) in *. set (len := run_at text open) in *.
  cbn [length pair_runs]. intros Hf'. rewrite closing_run_runs by lia.
  destruct (list_find _ _) as [[i [s l]]|] eqn:Ei; cbn [fmap option_fmap option_map fst snd]; [|apply IH; lia].
  pose proof (runs_behind _ _ _ _ _ _ Ei) as Hd. pose proof Ei as (Hi & _)%list_find_Some.
  pose proof (Forall_lookup_1 _ _ _ _ (runs_ok text (open + len)) Hi) as (? & ? & ?). cbn in *.
  rewrite Hd, (IH fuel'); [by rewrite <- app_assoc|lia|].
  rewrite <- Hd, length_drop. apply lookup_lt_Some in Hi. lia.
Qed.

Lemma code_spans_desk text : HeadingKey.code_spans text = code_span_ranges text.
Proof.
  unfold HeadingKey.code_spans, code_span_ranges, code_spans. fold (runs text 0).
  rewrite (code_spans_pairs _ (S (length (runs text 0)))) by lia. done.
Qed.

(** ** Comments *)

Lemma comments_desk fuel text codes found cursor :
  Forall (λ r, r_end r ≤ cursor) found →
  HeadingKey.comments_loop fuel text cursor (codes ++ found)
  = codes ++ found ++ comments_loop fuel text codes cursor.
Proof.
  revert found cursor. induction fuel as [|fuel IH]; intros found cursor Hf;
    cbn [HeadingKey.comments_loop comments_loop]; [by rewrite app_nil_r|].
  rewrite find_get by done. destruct (find_sub (u "<!--") _) as [i|]; [|by rewrite app_nil_r].
  rewrite find_get by done. rewrite (Nat.add_comm i cursor).
  destruct (find_sub (u "-->") _) as [k|]; [|by rewrite app_nil_r].
  replace (k + (cursor + i + 4) + 3) with (cursor + i + 4 + k + 3) by lia.
  set (r := mkRange (cursor + i) (cursor + i + 4 + k + 3)).
  rewrite existsb_app. assert (existsb (λ other, overlaps other r) found = false) as ->.
  { apply existsb_false. eapply Forall_impl; [exact Hf|]. intros other Ho. unfold overlaps. cbn in *.
    apply andb_false_iff. right. apply Nat.ltb_ge. lia. }
  rewrite orb_false_r. fold (overlaps_excluded codes r).
  destruct (overlaps_excluded codes r).
  - apply IH. eapply Forall_impl; [exact Hf|]. cbn; intros; lia.
  - rewrite <- app_assoc, IH, <- (app_assoc found); [done|]. apply Forall_app. split.
    + eapply Forall_impl; [exact Hf|]. cbn; intros; lia.
    + by repeat constructor.
Qed.

Lemma exclusions_desk text : HeadingKey.inline_exclusions text = inline_exclusions text.
Proof.
  unfold HeadingKey.inline_exclusions, inline_exclusions, html_comment_ranges. rewrite code_spans_desk.
  rewrite <- (app_nil_r (code_span_ranges text)) at 1. by rewrite comments_desk by constructor.
Qed.

(** ** Links *)

(** A link on a line: its label lies inside it, and is not empty. *)
Record link_ok (line : str) (open : nat) (link : InlineLink) : Prop := {
  ok_start : r_start (link_range link) = open;
  ok_label_start : open < r_start (link_label link);
  ok_label : r_start (link_label link) < r_end (link_label link);
  ok_label_end : r_end (link_label link) < r_end (link_range link);
  ok_end : r_end (link_range link) ≤ length line
}.

Lemma slice_length line a b : length (slice line (mkRange a b)) = Nat.min (b - a) (length line - a).
Proof. unfold slice. cbn. by rewrite length_take, length_drop. Qed.

Lemma parse_wikilink_ok line open link : parse_wikilink line open = Some link → link_ok line open link.
Proof.
  unfold parse_wikilink. destruct (find_sub _ _) as [k|] eqn:E; [|done]. cbn [mbind option_bind].
  apply find_drop_bounds in E; [|done]. cbn [length u] in E. change (length (u "]]")) with 2 in E.
  destruct (_ || _ || _) eqn:Ei; [done|]. apply orb_false_iff in Ei as [[Ei _]%orb_false_iff _].
  set (inner := slice _ _) in *. assert (length inner = k) as Hk.
  { subst inner. rewrite slice_length. lia. }
  assert (k ≠ 0) by (intros ->; apply bool_decide_eq_false in Ei; by destruct inner).
  unfold split_once. destruct (find_sub (u "|") inner) as [i|] eqn:Eb; cbn [mbind option_bind].
  - apply find_sub_Some in Eb as (_ & Hl & _). change (length (u "|")) with 1 in *.
    destruct (_ || _) eqn:Ea; [done|]. apply orb_false_iff in Ea as [_ Ea].
    apply bool_decide_eq_false in Ea.
    assert (i + 1 < length inner) by (destruct (decide (i + 1 < length inner)); [done|]; exfalso;
      apply Ea, drop_ge; lia).
    intros [= <-]. rewrite length_take. split; cbn; lia.
  - intros [= <-]. split; cbn; lia.
Qed.

Lemma destination_end_lt s offset depth e :
  destination_end s offset depth = Some e → offset ≤ e < offset + length s.
Proof.
  revert offset depth. induction s as [|c s IH]; intros offset depth; cbn [destination_end length]; [done|].
  destruct (is_char LPAREN c); [intros ?%IH; lia|]. destruct (is_char RPAREN c).
  - destruct (_ =? _)%nat; [intros [= <-]; lia|intros ?%IH; lia].
  - intros ?%IH. lia.
Qed.

Lemma balanced_destination_ok line text_end start close :
  balanced_destination line text_end = Some (start, close) →
  start = text_end + 2 ∧ start ≤ close < length line ∧ starts_with [LPAREN] (drop (text_end + 1) line) = true.
Proof.
  unfold balanced_destination. destruct (starts_with _ _) eqn:Ep; [|done]. cbn [negb].
  destruct (destination_end _ _ _) as [o|] eqn:E; [|done]. cbn. intros [= <- <-].
  apply destination_end_lt in E. rewrite length_drop in E. split; [done|]. split; [lia|done].
Qed.

Lemma parse_inline_link_ok line open link : parse_inline_link line open = Some link → link_ok line open link.
Proof.
  unfold parse_inline_link. destruct (find_sub _ _) as [k|] eqn:E; [|done]. cbn [mbind option_bind].
  apply find_drop_bounds in E; [|done]. cbn [length] in E.
  destruct (_ || _) eqn:Ei; [done|]. apply orb_false_iff in Ei as [Ei _]. apply bool_decide_eq_false in Ei.
  set (text := slice _ _) in *. assert (length text = k) as Hk by (subst text; rewrite slice_length; lia).
  assert (k ≠ 0) by (intros ->; by destruct text).
  destruct (balanced_destination _ _) as [[start close]|] eqn:Eb; [|done].
  apply balanced_destination_ok in Eb as (-> & Hc & _). intros [= <-]. split; cbn; lia.
Qed.

Definition link_pair (link : InlineLink) : range * range := (link_range link, link_label link).

Lemma wikilink_desk text open :
  HeadingKey.parse_wikilink text open = link_pair <$> parse_wikilink text open.
Proof.
  unfold HeadingKey.parse_wikilink, parse_wikilink.
  change (rest ← get_from text (open + 2); find_sub (u "]]") rest)
    with (get_from text (open + 2) ≫= find_sub (u "]]")).
  rewrite find_get by done. destruct (find_sub _ _) as [k|] eqn:E; [|done]. cbn [mbind option_bind].
  apply find_drop_bounds in E; [|done]. unfold get_range.
  rewrite (proj2 (Nat.leb_le (open + 2) _)), (proj2 (Nat.leb_le _ (length text))) by lia.
  cbn [andb mbind option_bind]. unfold slice. cbn [r_start r_end].
  set (inner := take _ _). destruct (_ || _ || _); [done|].
  destruct (split_once _ _) as [[target alias]|]; [|done]. by destruct (_ || _).
Qed.

Lemma closing_paren_desk s offset depth : closing_paren s offset depth = destination_end s offset depth.
Proof.
  revert offset depth. induction s as [|c s IH]; intros offset depth; cbn [closing_paren destination_end]; [done|].
  by rewrite !IH.
Qed.

Lemma inline_link_desk text open :
  HeadingKey.parse_inline_link text open = link_pair <$> parse_inline_link text open.
Proof.
  unfold HeadingKey.parse_inline_link, parse_inline_link.
  change (rest ← get_from text (open + 1); find_sub [RBRACKET] rest)
    with (get_from text (open + 1) ≫= find_sub [RBRACKET]).
  rewrite find_get by done. destruct (find_sub _ _) as [k|] eqn:E; [|done]. cbn [mbind option_bind].
  apply find_drop_bounds in E; [|done]. cbn [length] in E. unfold get_range.
  rewrite (proj2 (Nat.leb_le (open + 1) _)), (proj2 (Nat.leb_le _ (length text))) by lia.
  cbn [andb mbind option_bind]. unfold slice. cbn [r_start r_end].
  set (label := take _ _). destruct (_ || _); [done|].
  unfold get_from. rewrite (proj2 (Nat.leb_le (k + (open + 1) + 1) _)) by lia. cbn [mbind option_bind].
  unfold balanced_destination. destruct (starts_with _ _) eqn:Ep; [|done]. cbn [negb].
  apply starts_with_length in Ep. rewrite length_drop in Ep. cbn [length] in Ep.
  rewrite (proj2 (Nat.leb_le (k + (open + 1) + 2) _)) by lia. cbn [mbind option_bind].
  rewrite closing_paren_desk. by destruct (destination_end _ _ _).
Qed.

(** The opening bracket a walk stops at. *)
Definition parse_link (line : str) (open : nat) : option InlineLink :=
  if starts_with [LBRACKET; LBRACKET] (drop open line) then parse_wikilink line open
  else parse_inline_link line open.

Lemma parse_link_ok line open link : parse_link line open = Some link → link_ok line open link.
Proof. unfold parse_link. destruct (starts_with _ _); eauto using parse_wikilink_ok, parse_inline_link_ok. Qed.

Lemma reduce_desk fuel text excluded out cursor scan :
  cursor ≤ scan →
  reduce_loop fuel text excluded out cursor scan
  = plain_loop text cursor out (links_loop fuel text excluded scan).
Proof.
  revert out cursor scan. induction fuel as [|fuel IH]; intros out cursor scan Hs;
    cbn [reduce_loop links_loop]; [cbn; by rewrite get_default|].
  rewrite find_get by done. destruct (find_sub _ _) as [r|] eqn:E; [|cbn; by rewrite get_default].
  apply find_drop_bounds in E; [|done]. cbn [length] in E. destruct (_ && _); [apply IH; lia|].
  destruct (find _ _) as [jump|] eqn:Ej.
  { apply find_some in Ej as [_ Ej]. unfold range_contains in Ej. bool_to_prop. apply IH. lia. }
  fold (parse_link text (scan + r)).
  assert (HeadingKey.parse_wikilink text (scan + r) = link_pair <$> parse_wikilink text (scan + r)) as ->
    by apply wikilink_desk.
  assert (HeadingKey.parse_inline_link text (scan + r) = link_pair <$> parse_inline_link text (scan + r)) as ->
    by apply inline_link_desk.
  unfold get_from at 1. rewrite (proj2 (Nat.leb_le _ (length text))) by lia. cbn [is_some_and].
  replace (if starts_with [LBRACKET; LBRACKET] (drop (scan + r) text)
    then link_pair <$> parse_wikilink text (scan + r) else link_pair <$> parse_inline_link text (scan + r))
    with (link_pair <$> parse_link text (scan + r)) by (unfold parse_link; by destruct (starts_with _ _)).
  destruct (parse_link _ _) as [link|] eqn:El; cbn [fmap option_fmap option_map link_pair]; [|apply IH; lia].
  apply parse_link_ok in El as []. unfold overlaps_excluded. destruct (existsb _ _); [apply IH; lia|].
  cbn [plain_loop]. rewrite (proj2 (Nat.ltb_ge _ _)) by lia. rewrite IH by lia.
  rewrite !get_slice by lia. by rewrite <- app_assoc; destruct (link_label link).
Qed.

Section alphabets.
Context `{UnicodeTables}.

Lemma heading_key_desk text : HeadingKey.heading_key text = heading_key text.
Proof.
  unfold HeadingKey.heading_key, heading_key, reduce_links, inline_links, each_inline_link.
  by rewrite reduce_desk, exclusions_desk.
Qed.

(** C36: the desk and the agents' tools mean the same heading. For every text and
    every alphabet, the key the desk computes on its scanner is the key the tools
    compute with theirs, so a heading one of them finds by its key is found by
    the other. *)
Theorem one_heading_key text : heading_key text = HeadingKey.heading_key text.
Proof. symmetry. apply heading_key_desk. Qed.
End alphabets.
