(* ===== verification/MarkdownBlocks.v ===== *)
(** * Tasks and blocks of the desk's lines

    Ticking a task and giving a line another block ([toggle_task_edit],
    [apply_block] of [markdown_syntax.rs]). *)

From S2P Require Import Prelude Strings HeadingKey MarkdownSyntax.

(** ** Blanks at the front *)

Definition no_blank_head (s : str) : Prop := starts_as is_blank_char s = false.

Lemma count_while_app_all f a s :
  Forall (λ c, f c = true) a → starts_as f s = false → count_while f (a ++ s) = length a.
Proof.
  intros Ha Hs. induction Ha as [|c a Hc Ha IH]; cbn.
  - destruct s as [|c s]; [done|]. cbn in *. by rewrite Hs.
  - by rewrite Hc, IH.
Qed.

Lemma trim_start_matches_app_head f a s :
  Forall (λ c, f c = true) a → starts_as f s = false → trim_start_matches f (a ++ s) = s.
Proof.
  intros Ha Hs. induction Ha as [|c a Hc Ha IH]; cbn; [|by rewrite Hc].
  destruct s as [|c s]; [done|]. cbn in *. by rewrite Hs.
Qed.

Lemma trim_start_matches_no_head f s : starts_as f (trim_start_matches f s) = false.
Proof. induction s as [|c s IH]; cbn; [done|]. destruct (f c) eqn:E; [done|]. cbn. by rewrite E. Qed.

Lemma count_while_split f s :
  ∃ a b, s = a ++ b ∧ Forall (λ c, f c = true) a ∧ starts_as f b = false ∧ count_while f s = length a ∧
    trim_start_matches f s = b.
Proof.
  induction s as [|c s (a & b & -> & Ha & Hb & Hl & Ht)]; cbn; [by exists [], []|].
  destruct (f c) eqn:E.
  - exists (c :: a), b. cbn. rewrite Hl. split_and!; try done. by constructor.
  - by exists [], (c :: a ++ b).
Qed.

Lemma drop_count_while f s : drop (count_while f s) s = trim_start_matches f s.
Proof.
  destruct (count_while_split f s) as (a & b & -> & _ & _ & -> & ->). apply drop_app_length.
Qed.

Lemma is_bullet_not_blank b : is_bullet_char b = true → is_blank_char b = false.
Proof.
  unfold is_bullet_char, is_blank_char, is_char.
  intros [[<-%N.eqb_eq | <-%N.eqb_eq]%orb_true_iff | <-%N.eqb_eq]%orb_true_iff; reflexivity.
Qed.

(** ** The shape of a task *)

Record task_shape (line : str) (before : str) (mark : char) (rest : str) : Prop := {
  shape : ∃ a b spaces, before = a ++ b :: spaces ++ [LBRACKET] ∧ line = before ++ mark :: RBRACKET :: rest ∧
    Forall (λ c, is_blank_char c = true) a ∧ is_bullet_char b = true ∧
    Forall (λ c, is_blank_char c = true) spaces ∧ spaces ≠ [];
  shape_rest : rest = [] ∨ starts_as is_blank_char rest = true
}.

Definition mark_checked (mark : char) : option bool :=
  if is_char SPACE mark then Some false
  else if is_char 120%N mark || is_char 88%N mark then Some true else None.

Lemma task_checkbox_shape line box checked :
  task_checkbox line = Some (box, checked) →
  ∃ before mark rest, task_shape line before mark rest ∧ mark_checked mark = Some checked ∧
    box = mkRange (length before - 1) (length before + 2).
Proof.
  unfold task_checkbox. destruct (count_while_split is_blank_char line) as (a & s & -> & Ha & _ & _ & ->).
  destruct s as [|b s]; [done|]. destruct (is_bullet_char b) eqn:Eb; [|done]. cbn [negb].
  destruct (count_while_split is_blank_char s) as (spaces & s' & -> & Hs & _ & _ & ->).
  destruct (Nat.eqb_spec (length s') (length (spaces ++ s'))) as [?|Hne]; [done|].
  assert (spaces ≠ []) by (intros ->; by apply Hne).
  destruct s' as [|o [|mark [|c rest]]]; [done..|].
  destruct (is_char LBRACKET o) eqn:Eo; [|done]. cbn [negb]. fold (mark_checked mark).
  destruct (mark_checked mark) as [chk|] eqn:Em; [|done]. cbn [mbind option_bind].
  destruct (is_char RBRACKET c) eqn:Ec; [|done]. cbn [negb].
  apply N.eqb_eq in Eo as <-. apply N.eqb_eq in Ec as <-.
  destruct (_ && _) eqn:Er; [done|]. intros [= <- <-].
  exists (a ++ b :: spaces ++ [LBRACKET]), mark, rest. split_and!; [|done|].
  - split; [exists a, b, spaces; split_and!; [done| |done..]; by rewrite <- !app_assoc; cbn; rewrite <- app_assoc|].
    apply andb_false_iff in Er as [Er|Er]; apply negb_false_iff in Er; [left; by apply bool_decide_eq_true in Er|by right].
  - f_equal; rewrite !length_app; cbn [length]; rewrite !length_app; cbn [length]; lia.
Qed.

Lemma task_shape_checkbox line before mark rest checked :
  task_shape line before mark rest → mark_checked mark = Some checked →
  task_checkbox line = Some (mkRange (length before - 1) (length before + 2), checked).
Proof.
  intros [(a & b & spaces & -> & -> & Ha & Hb & Hs & Hne) Hr] Hm. unfold task_checkbox.
  rewrite <- !app_assoc. cbn [app]. rewrite <- app_assoc. cbn [app].
  rewrite trim_start_matches_app_head; [|done|by cbn; apply is_bullet_not_blank]. rewrite Hb. cbn [negb].
  rewrite trim_start_matches_app_head by done. rewrite (proj2 (Nat.eqb_neq _ _)).
  2: { rewrite length_app. destruct spaces; [done|]. cbn. lia. }
  change (is_char LBRACKET LBRACKET) with true. change (is_char RBRACKET RBRACKET) with true. cbn [negb].
  fold (mark_checked mark). rewrite Hm. cbn [mbind option_bind].
  assert (negb (rest == []) && negb (starts_as is_blank_char rest) = false) as ->.
  { destruct Hr as [-> | ->]; [done|apply andb_false_r]. }
  f_equal. f_equal. f_equal; rewrite !length_app; cbn [length]; rewrite !length_app; cbn [length]; lia.
Qed.

Lemma count_only_other marker s c : c ∈ s → is_char marker c = false → count_only marker s = None.
Proof.
  intros Hin Hc. induction s as [|d s IH]; [by apply not_elem_of_nil in Hin|]. cbn.
  apply elem_of_cons in Hin as [-> |Hin]; [by rewrite Hc|]. destruct (is_char marker d); [|done]. by rewrite IH.
Qed.

(** A task is a bullet: its brackets are no thematic break's. *)
Lemma task_shape_bullet line before mark rest :
  task_shape line before mark rest →
  ∃ indent, bullet_marker line = Some (mkRange indent (indent + 1)) ∧ indent = count_while is_blank_char line ∧
    indent + 1 < length before - 1.
Proof.
  intros [(a & b & spaces & -> & -> & Ha & Hb & Hs & Hne) Hr]. exists (length a).
  rewrite <- !app_assoc. cbn [app]. rewrite <- app_assoc. cbn [app].
  assert (count_while is_blank_char (a ++ b :: spaces ++ LBRACKET :: mark :: RBRACKET :: rest) = length a) as Hc.
  { apply count_while_app_all; [done|]. by apply is_bullet_not_blank. }
  split_and!; [|done|rewrite !length_app; cbn; rewrite length_app; cbn; destruct spaces; [done|cbn; lia]].
  unfold bullet_marker. rewrite Hc, drop_app_length. cbn [head mbind option_bind]. rewrite Hb. cbn [negb drop]. rewrite drop_0.
  assert (starts_as is_blank_char (spaces ++ LBRACKET :: mark :: RBRACKET :: rest) = true) as ->.
  { destruct spaces as [|c spaces]; [done|]. apply Forall_cons in Hs as [Hs _]. exact Hs. }
  cbn [negb]. rewrite (count_only_other _ _ LBRACKET); [done| |].
  - apply list_elem_of_filter. split; [reflexivity|]. apply elem_of_cons. right. apply elem_of_app. right.
    apply elem_of_cons. by left.
  - apply N.eqb_neq. intros ->. by vm_compute in Hb.
Qed.

(** ** Ticking a task *)

(** The edit of [toggle_task_edit] made on its line. *)
Definition toggled (line : str) (edit : range * str) : str :=
  take (r_start edit.1) line ++ edit.2 ++ drop (r_end edit.1) line.

Lemma toggle_shape line before mark rest checked :
  task_shape line before mark rest → mark_checked mark = Some checked →
  toggle_task_edit line
  = Some (mkRange (length before) (length before + 1), if checked then u " " else u "x").
Proof.
  intros Hs Hm. unfold toggle_task_edit. destruct (task_shape_bullet _ _ _ _ Hs) as (i & -> & _ & Hi).
  cbn [mbind option_bind]. rewrite (task_shape_checkbox _ _ _ _ _ Hs Hm). cbn [r_start].
  f_equal. f_equal. f_equal; lia.
Qed.

(** Ticking a task ticks it, and nothing else. Whatever task line the edit
    is made on, the new line is a task with the same box, now the other way, and
    differs from the old one in the mark alone; a second edit unticks it, giving
    the line back unless its mark was a capital [X]. *)
Theorem toggle_ticks_and_unticks line box checked :
  task_checkbox line = Some (box, checked) →
  ∃ edit edit', toggle_task_edit line = Some edit ∧
    edit.1 = mkRange (r_start box + 1) (r_start box + 2) ∧
    task_checkbox (toggled line edit) = Some (box, negb checked) ∧
    toggle_task_edit (toggled line edit) = Some edit' ∧
    (line !! (r_start box + 1) ≠ Some 88%N → toggled (toggled line edit) edit' = line).
Proof.
  intros (before & mark & rest & Hs & Hm & ->)%task_checkbox_shape.
  assert (2 ≤ length before) as Hlen by (destruct (task_shape_bullet _ _ _ _ Hs) as (? & _ & _ & ?); lia).
  pose proof (toggle_shape _ _ _ _ _ Hs Hm) as He.
  set (mark' := if checked then SPACE else 120%N). set (line' := before ++ mark' :: RBRACKET :: rest).
  pose proof (shape _ _ _ _ Hs) as (a & b & spaces & Hb & Hline & Hrest).
  assert (toggled line (mkRange (length before) (length before + 1), if checked then u " " else u "x") = line') as Ht.
  { unfold toggled. cbn [fst snd r_start r_end]. rewrite Hline, take_app_length, drop_app_add.
    by destruct checked. }
  assert (task_shape line' before mark' rest) as Hs'.
  { split; [|apply Hs]. exists a, b, spaces. naive_solver. }
  assert (mark_checked mark' = Some (negb checked)) as Hm' by by destruct checked.
  pose proof (toggle_shape _ _ _ _ _ Hs' Hm') as He'.
  eexists _, _. split; [exact He|]. rewrite Ht. split; [cbn; f_equal; lia|].
  split; [exact (task_shape_checkbox _ _ _ _ _ Hs' Hm')|]. split; [exact He'|]. cbn [r_start].
  replace (length before - 1 + 1) with (length before) by lia. intros Hx. unfold toggled. cbn [fst snd r_start r_end].
  unfold line'. rewrite take_app_length, drop_app_add. rewrite Hline in Hx |- *.
  rewrite lookup_app_r, Nat.sub_diag in Hx by lia. cbn in Hx. unfold mark_checked, is_char in Hm.
  destruct (N.eqb_spec SPACE mark) as [<-|]; [by injection Hm as <-|].
  destruct (N.eqb_spec 120 mark) as [<-|]; [by injection Hm as <-|].
  destruct (N.eqb_spec 88 mark) as [<-|]; [by destruct Hx|done].
Qed.

(** ** Giving a line a block *)

Lemma starts_as_app_blank a s f : Forall (λ c, f c = true) a → a ≠ [] → starts_as f (a ++ s) = true.
Proof. intros Ha Hne. destruct a; [done|]. by apply Forall_cons in Ha as [Ha _]. Qed.

Lemma trim_drop f s : trim_start_matches f s = drop (length s - length (trim_start_matches f s)) s.
Proof.
  destruct (count_while_split f s) as (a & b & -> & _ & _ & _ & ->).
  rewrite length_app, drop_app_length' by lia. done.
Qed.

Lemma drop_length_minus {A} (l : list A) k : k ≤ length l → length l - length (drop k l) = k.
Proof. rewrite length_drop. lia. Qed.

(** Where a line's text starts: past its indentation, at no blank. *)
Lemma drop_trimmed line k :
  k ≤ length line →
  let rest := trim_start_matches is_blank_char (drop k line) in
  k ≤ length line - length rest ∧ no_blank_head (drop (length line - length rest) line).
Proof.
  intros Hk rest. destruct (count_while_split is_blank_char (drop k line)) as (a & b & Hd & _ & Hb & _ & Ht).
  subst rest. rewrite Ht. assert (length line - k = length a + length b) as Hl.
  { rewrite <- length_app, <- Hd. by rewrite length_drop. }
  split; [lia|]. replace (length line - length b) with (k + length a) by lia.
  rewrite <- drop_drop, Hd, drop_app_length. exact Hb.
Qed.

Lemma count_while_len f line : count_while f line ≤ length line.
Proof. apply count_while_le. Qed.

Lemma block_text_start_spec line :
  let indent := count_while is_blank_char line in
  let start := block_text_start line indent in
  indent ≤ start ∧ no_blank_head (drop start line).
Proof.
  intros indent start. pose proof (count_while_len is_blank_char line) as Hi. fold indent in Hi.
  assert (no_blank_head (drop indent line)) as Hplain.
  { subst indent. rewrite drop_count_while. apply trim_start_matches_no_head. }
  subst start. unfold block_text_start. destruct (list_prefix line) as [p|] eqn:Ep.
  - unfold list_prefix in Ep. destruct (bullet_marker line) as [bullet|] eqn:Eb; [|done]. cbn [mbind option_bind] in Ep.
    assert (bullet = mkRange indent (indent + 1) ∧ indent < length line) as [-> Hlt].
    { revert Eb. unfold bullet_marker. fold indent. destruct (drop indent line) as [|c s] eqn:Ed; [done|].
      assert (indent < length line) by (apply (f_equal length) in Ed; rewrite length_drop in Ed; cbn in Ed; lia).
      cbn [head mbind option_bind]. destruct (negb _); [done|]. destruct (negb _); [done|].
      destruct (is_some_and _ _); [done|]. by intros [= <-]. }
    assert (∃ k, indent ≤ k ≤ length line ∧
      r_end p = length line - length (trim_start_matches is_blank_char (drop k line))) as (k & Hk & ->).
    { destruct (task_checkbox line) as [[box checked]|] eqn:Et; injection Ep as <-; cbn [r_end];
        [|exists (indent + 1); split; [lia|done]]. exists (r_end box). split; [|done].
      apply task_checkbox_shape in Et as (before & mark & rest & Hs & _ & ->). cbn [r_end].
      destruct (task_shape_bullet _ _ _ _ Hs) as (i & _ & Hi' & ?). fold indent in Hi'.
      destruct Hs as [(? & ? & ? & _ & -> & _) _]. rewrite length_app. cbn. lia. }
    destruct (drop_trimmed line k) as [H1 H2]; [lia|]. split; [lia|done].
  - set (marker := if _ : bool then _ else _). destruct marker as [m|]; [|done].
    destruct (_ && _ && _); [done|].
    destruct (decide (indent + m ≤ length line)) as [Hm|Hm].
    + destruct (drop_trimmed line (indent + m)) as [H1 H2]; [done|]. rewrite drop_drop. split; [lia|done].
    + rewrite (drop_ge (drop indent line)) by (rewrite length_drop; lia). cbn. rewrite Nat.sub_0_r, drop_all. done.
Qed.

(** A line of a block: indentation, what opens the block, a space, the text. *)
Lemma block_opened a p text k :
  Forall (λ c, is_blank_char c = true) a → no_blank_head text → k = length a + length p →
  k ≤ length (a ++ p ++ SPACE :: text) ∧
  length (a ++ p ++ SPACE :: text)
    - length (trim_start_matches is_blank_char (drop k (a ++ p ++ SPACE :: text)))
  = length a + length p + 1.
Proof.
  intros Ha Ht ->. rewrite <- drop_drop, drop_app_length, drop_app_length.
  change (SPACE :: text) with ([SPACE] ++ text). rewrite trim_start_matches_app_head; [|by repeat constructor|done].
  rewrite !length_app. cbn. lia.
Qed.

Definition not_bullet (c : char) : Prop := is_bullet_char c = false ∧ is_blank_char c = false.

Lemma marked_text_start a p c q text m :
  Forall (λ c, is_blank_char c = true) a → no_blank_head text → p = c :: q → not_bullet c → m = length p →
  (let rest := p ++ SPACE :: text in
   let digits := count_while is_ascii_digit rest in
   let hashes := count_while (is_char HASH) rest in
   if (1 <=? digits)%nat && (digits <=? 9)%nat
      && starts_as (λ c, is_char 46%N c || is_char RPAREN c) (drop digits rest) then Some (digits + 1)
   else if (1 <=? hashes)%nat && (hashes <=? 6)%nat then Some hashes
   else if starts_as (is_char 62%N) rest then Some 1 else None) = Some m →
  block_text_start (a ++ p ++ SPACE :: text) (length a) = length a + length p + 1.
Proof.
  intros Ha Ht Hp [Hc Hb] Hm Hmark. unfold block_text_start.
  assert (list_prefix (a ++ p ++ SPACE :: text) = None) as ->.
  { unfold list_prefix, bullet_marker. rewrite count_while_app_all; [|done|subst p; exact Hb].
    rewrite drop_app_length. subst p. cbn [app head mbind option_bind]. by rewrite Hc. }
  cbn zeta in Hmark. rewrite drop_app_length. cbn zeta. rewrite Hmark. subst m.
  rewrite drop_app_length. change (SPACE :: text) with ([SPACE] ++ text).
  rewrite trim_start_matches_app_head; [|by repeat constructor|done].
  rewrite (proj2 (Nat.eqb_neq _ _)) by (cbn; lia). cbn [andb]. rewrite !length_app. cbn. lia.
Qed.

Lemma count_while_replicate f n c s :
  f c = true → starts_as f s = false → count_while f (replicate n c ++ s) = n.
Proof.
  intros Hc Hs. rewrite count_while_app_all; [apply length_replicate| |done]. apply Forall_forall. intros d Hd. apply elem_of_replicate in Hd as [-> _]. done.
Qed.

Lemma heading_mark n text :
  1 ≤ n ≤ 6 →
  let rest := replicate n HASH ++ SPACE :: text in
  let digits := count_while is_ascii_digit rest in
  let hashes := count_while (is_char HASH) rest in
  (if (1 <=? digits)%nat && (digits <=? 9)%nat
      && starts_as (λ c, is_char 46%N c || is_char RPAREN c) (drop digits rest) then Some (digits + 1)
   else if (1 <=? hashes)%nat && (hashes <=? 6)%nat then Some hashes
   else if starts_as (is_char 62%N) rest then Some 1 else None) = Some n.
Proof.
  intros Hn rest digits hashes. assert (digits = 0) as -> by (subst digits rest; destruct n; [lia|done]).
  assert (hashes = n) as -> by (subst hashes rest; by apply count_while_replicate).
  change (1 <=? 0) with false. cbn [andb]. rewrite (proj2 (Nat.leb_le 1 n)), (proj2 (Nat.leb_le n 6)) by lia. done.
Qed.

(** What keeps a new bullet a bullet: the text makes it no task and no break. *)
Definition stays (block : Block) (line : str) : Prop :=
  match block with
  | BlockBullet => task_checkbox line = None ∧ bullet_marker line ≠ None
  | _ => True
  end.

(** The text of a line just given a block is what the block was put before. *)
Lemma block_text_start_new a text block :
  Forall (λ c, is_blank_char c = true) a → no_blank_head text → stays block (a ++ Block_prefix block ++ text) →
  block_text_start (a ++ Block_prefix block ++ text) (length a) = length a + length (Block_prefix block).
Proof.
  intros Ha Ht Hstay. destruct block; cbn [Block_prefix stays] in *.
  - change (u "- [ ] " ++ text) with (u "- [ ]" ++ SPACE :: text) in *.
    assert (task_shape (a ++ u "- [ ]" ++ SPACE :: text) (a ++ u "- [") SPACE (SPACE :: text)) as Hs.
    { split; [|by right]. exists a, (ch "-"), (u " "). split_and!;
        [done|by rewrite <- app_assoc|done|done|by repeat constructor|done]. }
    unfold block_text_start, list_prefix. destruct (task_shape_bullet _ _ _ _ Hs) as (i & -> & _ & _).
    rewrite (task_shape_checkbox _ _ _ _ false Hs eq_refl). cbn [mbind option_bind r_end].
    destruct (block_opened a (u "- [ ]") text (length (a ++ u "- [") + 2)) as [_ ->]; [done..| |cbn; lia].
    rewrite length_app. cbn. lia.
  - change (u "- " ++ text) with (u "-" ++ SPACE :: text) in *. destruct Hstay as [Htask Hbullet].
    unfold block_text_start, list_prefix. rewrite Htask.
    destruct (bullet_marker _) as [bullet|] eqn:Eb; [|done]. cbn [mbind option_bind r_end].
    assert (r_end bullet = length a + 1) as ->.
    { revert Eb. unfold bullet_marker. rewrite count_while_app_all by done. destruct (head _); [|done].
      cbn [mbind option_bind]. destruct (negb _); [done|]. destruct (negb _); [done|].
      destruct (is_some_and _ _); [done|]. by intros [= <-]. }
    destruct (block_opened a (u "-") text (length a + 1)) as [_ ->]; [done..|]. cbn. lia.
  - change (u "1. " ++ text) with (u "1." ++ SPACE :: text).
    rewrite (marked_text_start a (u "1.") (ch "1") (u ".") text 2); try done; [cbn; lia].
  - rewrite <- app_assoc. change (u " ") with [SPACE]. change ([SPACE] ++ text) with (SPACE :: text).
    set (n := Nat.min _ _). assert (1 ≤ n ≤ 6) as Hn by lia.
    rewrite (marked_text_start a (replicate n HASH) HASH (replicate (n - 1) HASH) text n); try done.
    + rewrite !length_app, length_replicate. cbn. lia.
    + destruct n; [lia|]. cbn. by rewrite Nat.sub_0_r.
    + by rewrite length_replicate.
    + by apply heading_mark.
  - change (u "> " ++ text) with (u ">" ++ SPACE :: text).
    rewrite (marked_text_start a (u ">") (ch ">") [] text 1); try done; [cbn; lia].
Qed.

(** A line has one block. Giving a line a block and then another one leaves
    the line the second would have given at once, whatever the first was: the
    indentation and the text survive, the first block's prefix does not. (A first
    block of a bullet is the exception where its dash and the text together are a
    task or a thematic break.) The cursor stays on its character of the text, or
    goes to the text's start. *)
Theorem block_replaces_block line block block' cursor cursor' :
  stays block (apply_block line block cursor).1 →
  let '(line', moved) := apply_block line block cursor in
  (apply_block line' block' cursor').1 = (apply_block line block' cursor').1 ∧
  drop moved line'
  = drop (Nat.max (Nat.min cursor (length line)) (block_text_start line (count_while is_blank_char line))) line.
Proof.
  destruct (block_text_start_spec line) as [Hi Ht]. set (indent := count_while is_blank_char line) in *.
  pose proof (count_while_split is_blank_char line) as (a & s & Hline & Ha & _ & Hc & _). fold indent in Hc.
  assert (take indent line = a) as Hta by (rewrite Hline, Hc; apply take_app_length).
  set (text := drop (block_text_start line indent) line) in *.
  assert ((apply_block line block cursor).1 = a ++ Block_prefix block ++ text) as Hnew.
  { unfold apply_block. fold indent. cbn [fst]. by rewrite Hta. }
  assert (indent = length a) as Hla by done.
  rewrite (surjective_pairing (apply_block line block cursor)), Hnew. intros Hstay. split.
  - unfold apply_block. fold indent text. rewrite Hta. cbn [fst].
    assert (starts_as is_blank_char (Block_prefix block ++ text) = false) as Hp.
    { destruct block; try done. cbn. by destruct (Nat.min _ _) as [|n] eqn:E; [lia|]. }
    rewrite (count_while_app_all _ a _ Ha Hp), take_app_length, block_text_start_new by done.
    rewrite <- drop_drop, drop_app_length, drop_app_length. done.
  - unfold apply_block. fold indent. cbn [snd]. set (k := Nat.min _ _).
    assert (∀ x, drop indent (a ++ x) = x) as Hd by (intros; rewrite Hla; apply drop_app_length).
    rewrite <- drop_drop, <- drop_drop, Hd, drop_app_length. subst text. rewrite drop_drop.
    f_equal. lia.
Qed.
