(* ===== verification/MarkdownFolds.v ===== *)
(** * Hidden spans never overlap

    The promise of [conceal_spans] to the editor: what it hides are stretches of
    the text no two of which overlap. *)

From S2P Require Import Prelude Strings HeadingKey PlanTime MarkdownSyntax MarkdownKeys MarkdownBlocks.

(** ** Ranges apart *)

Definition apart (a b : range) : Prop := r_end a ≤ r_start b ∨ r_end b ≤ r_start a.

Fixpoint apart_all (l : list range) : Prop :=
  match l with [] => True | r :: l' => Forall (apart r) l' ∧ apart_all l' end.

Definition apart_lists (a b : list range) : Prop := ∀ x y, x ∈ a → y ∈ b → apart x y.

(** Not empty, and between two positions. *)
Definition inside (a b : nat) (r : range) : Prop := a ≤ r_start r ∧ r_start r < r_end r ∧ r_end r ≤ b.

Lemma apart_sym a b : apart a b → apart b a.
Proof. unfold apart. lia. Qed.

Lemma apart_all_app a b : apart_all (a ++ b) ↔ apart_all a ∧ apart_all b ∧ apart_lists a b.
Proof.
  induction a as [|x a IH]; cbn.
  - split; [intros; split_and!; [done|done|]|naive_solver]. by intros ? ? ?%not_elem_of_nil.
  - rewrite Forall_app, IH. unfold apart_lists. setoid_rewrite elem_of_cons.
    rewrite !Forall_forall. naive_solver.
Qed.

Lemma overlaps_apart a b : overlaps a b = false ↔ apart a b.
Proof. unfold overlaps, apart. rewrite andb_false_iff, !Nat.ltb_ge. lia. Qed.

Lemma overlaps_excluded_apart excluded r :
  overlaps_excluded excluded r = false ↔ Forall (λ other, apart other r) excluded.
Proof.
  unfold overlaps_excluded. rewrite existsb_false. apply Forall_iff. intros other. apply overlaps_apart.
Qed.

Lemma inside_apart a b c d r s : inside a b r → inside c d s → b ≤ c → apart r s.
Proof. unfold inside, apart. lia. Qed.

Lemma inside_weaken a b c d r : inside a b r → c ≤ a → b ≤ d → inside c d r.
Proof. unfold inside. lia. Qed.

(** ** Stretches of a line *)

Definition covers (line : str) (f : char → bool) (r : range) : Prop :=
  ∀ i, r_start r ≤ i < r_end r → ∃ c, line !! i = Some c ∧ f c = true.

Definition excludes (f g : char → bool) : Prop := ∀ c, f c = true → g c = false.

Lemma covers_apart line f g r s a b c d :
  covers line f r → covers line g s → excludes f g → inside a b r → inside c d s → apart r s.
Proof.
  intros Hf Hg Hfg (_ & Hr & _) (_ & Hs & _). unfold apart.
  destruct (decide (r_end r ≤ r_start s)); [lia|]. destruct (decide (r_end s ≤ r_start r)); [lia|]. exfalso.
  destruct (Hf (Nat.max (r_start r) (r_start s))) as (x & Hx & Hfx); [lia|].
  destruct (Hg (Nat.max (r_start r) (r_start s))) as (y & Hy & Hgy); [lia|].
  apply Hfg in Hfx. congruence.
Qed.

(** A position of another character is past the stretch, or before it. *)
Lemma covers_past line f a b i c :
  covers line f (mkRange a b) → line !! i = Some c → f c = false → a ≤ i → b ≤ i.
Proof.
  intros Hf Hi Hc Ha. destruct (decide (b ≤ i)); [done|]. destruct (Hf i) as (d & Hd & Hfd); [cbn; lia|]. congruence.
Qed.

Lemma covers_join line f a b c :
  covers line f (mkRange a b) → covers line f (mkRange b c) → covers line f (mkRange a c).
Proof. intros H1 H2 i Hi. cbn in *. destruct (decide (i < b)); [apply H1|apply H2]; cbn; lia. Qed.

Lemma covers_weaken line f g r : covers line f r → (∀ c, f c = true → g c = true) → covers line g r.
Proof. intros Hf Hfg i Hi. destruct (Hf i Hi) as (c & Hc & Hx). eauto. Qed.

Lemma covers_sub line f a b c d :
  covers line f (mkRange a b) → a ≤ c → d ≤ b → covers line f (mkRange c d).
Proof. intros Hf Ha Hb i Hi. apply Hf. cbn in *. lia. Qed.

Lemma covers_count line f from :
  covers line f (mkRange from (from + count_while f (drop from line))).
Proof.
  intros i Hi. cbn in Hi. assert (∀ s k, k < count_while f s → ∃ c, s !! k = Some c ∧ f c = true) as Hg.
  { induction s as [|x s IH]; cbn; intros k Hk; [lia|]. destruct (f x) eqn:E; [|lia].
    destruct k as [|k]; [by eexists|]. apply IH. lia. }
  destruct (Hg (drop from line) (i - from)) as (c & Hc & Hfc); [lia|]. exists c. split; [|done].
  rewrite lookup_drop in Hc. by replace (from + (i - from)) with i in Hc by lia.
Qed.

Lemma covers_prefix line f from p rest :
  drop from line = p ++ rest → Forall (λ c, f c = true) p → covers line f (mkRange from (from + length p)).
Proof.
  intros Hd Hp i Hi. cbn in Hi. destruct (lookup_lt_is_Some_2 p (i - from)) as [c Hc]; [lia|].
  exists c. split; [|by eapply Forall_lookup_1 in Hp].
  replace i with (from + (i - from)) by lia. rewrite <- lookup_drop, Hd. by rewrite lookup_app_l by lia.
Qed.

Lemma covers_find line f from p k :
  find_sub p (drop from line) = Some k → Forall (λ c, f c = true) p →
  covers line f (mkRange (from + k) (from + k + length p)).
Proof.
  intros (Hs & _)%find_sub_Some Hp. apply starts_with_app in Hs as [rest Hs]. rewrite drop_drop in Hs.
  eapply covers_prefix; [|exact Hp]. exact Hs.
Qed.

(** ** Delimiters *)

Definition delims (range text : range) : list HeadingKey.range :=
  [mkRange (r_start range) (r_start text); mkRange (r_end text) (r_end range)].

Definition folds (spans : list ConcealSpan) : list range :=
  map span_range (filter (λ s, is_folded (kind s) = true) spans).

Lemma folds_app a b : folds (a ++ b) = folds a ++ folds b.
Proof. unfold folds. by rewrite filter_app, map_app. Qed.

Lemma folds_flat_map {A} (f : A → list ConcealSpan) l : folds (flat_map f l) = flat_map (λ x, folds (f x)) l.
Proof. induction l as [|x l IH]; cbn [flat_map]; [done|]. by rewrite folds_app, IH. Qed.

Lemma folds_delimited r t kinds :
  Forall (λ k, is_folded k = false) kinds → folds (delimited r t kinds) = delims r t.
Proof.
  intros Hk. unfold delimited. change (?a :: ?l ++ ?b) with ([a] ++ l ++ b). rewrite !folds_app.
  assert (folds (map (mkSpan t) kinds) = []) as ->; [|done].
  unfold folds. rewrite filter_none; [done|]. intros s Hs. apply list_elem_of_fmap in Hs as (k & -> & Hin).
  rewrite Forall_forall in Hk. cbn. rewrite Hk by done. done.
Qed.

(** A construct: delimiters of one kind of character around a text. *)
Record construct_ok (line : str) (f : char → bool) (range text : range) : Prop := {
  opening : r_start range < r_start text;
  middle : r_start text ≤ r_end text;
  closing : r_end text < r_end range;
  on_line : r_end range ≤ length line;
  delims_cover : Forall (covers line f) (delims range text)
}.

Lemma construct_inside line f r t d :
  construct_ok line f r t → d ∈ delims r t → inside (r_start r) (r_end r) d ∧ covers line f d.
Proof.
  intros [? ? ? ? Hc] Hd. rewrite Forall_forall in Hc. split; [|by apply Hc].
  unfold delims in Hd. unfold inside. set_unfold in Hd. destruct Hd as [-> |[-> |[]]]; cbn; lia.
Qed.

Lemma delims_apart line f r t : construct_ok line f r t → apart_all (delims r t).
Proof. intros []. cbn. split_and!; try done. repeat constructor. unfold apart. cbn. lia. Qed.

(** ** Constructs in order *)

Fixpoint ordered_from (cursor : nat) (l : list range) : Prop :=
  match l with
  | [] => True
  | r :: l' => cursor ≤ r_start r ∧ r_start r ≤ r_end r ∧ ordered_from (r_end r) l'
  end.

Lemma ordered_from_weaken a b l : ordered_from b l → a ≤ b → ordered_from a l.
Proof. destruct l; cbn; [done|]. intros (? & ? & ?) ?. split_and!; [lia|done|done]. Qed.

Lemma ordered_from_ge cursor l : ordered_from cursor l → Forall (λ r, cursor ≤ r_start r) l.
Proof.
  revert cursor. induction l as [|r l IH]; intros cursor; cbn; [constructor|]. intros (? & ? & Ho).
  constructor; [done|]. eapply Forall_impl; [exact (IH _ Ho)|]. cbn. intros; lia.
Qed.

Lemma ordered_apart cursor l : ordered_from cursor l → apart_all l.
Proof.
  revert cursor. induction l as [|r l IH]; intros cursor; cbn; [done|]. intros (? & ? & Ho).
  split; [|by eapply IH]. eapply Forall_impl; [exact (ordered_from_ge _ _ Ho)|]. intros s Hs. by left.
Qed.

Section constructs.
Context {A : Type} (line : str) (f : char → bool) (rg tx : A → range).

Definition all_delims (l : list A) : list range := flat_map (λ x, delims (rg x) (tx x)) l.

Lemma all_delims_elem l d :
  d ∈ all_delims l ↔ ∃ x, x ∈ l ∧ d ∈ delims (rg x) (tx x).
Proof.
  unfold all_delims. rewrite list_elem_of_In, in_flat_map. setoid_rewrite list_elem_of_In. done.
Qed.

Lemma constructs_apart cursor l :
  Forall (λ x, construct_ok line f (rg x) (tx x)) l → ordered_from cursor (map rg l) →
  apart_all (all_delims l) ∧
  Forall (λ d, inside cursor (length line) d ∧ covers line f d) (all_delims l).
Proof.
  revert cursor. induction l as [|x l IH]; intros cursor Hl Ho; cbn; [done|].
  apply Forall_cons in Hl as [Hx Hl]. destruct Ho as (Hs & Hse & Ho). destruct (IH _ Hl Ho) as [Ha Hi].
  change (mkRange (r_start (rg x)) (r_start (tx x)) :: mkRange (r_end (tx x)) (r_end (rg x)) :: ?r)
    with (delims (rg x) (tx x) ++ r).
  assert (Forall (λ d, inside cursor (length line) d ∧ covers line f d) (delims (rg x) (tx x))) as Hd.
  { apply Forall_forall. intros d Hd. destruct (construct_inside _ _ _ _ _ Hx Hd) as [Hin Hc].
    split; [|done]. eapply inside_weaken; [exact Hin|lia|]. apply Hx. }
  split.
  - apply (apart_all_app (delims (rg x) (tx x))). split_and!; [by eapply delims_apart|done|].
    intros a b Hda Hb. destruct (construct_inside _ _ _ _ _ Hx Hda) as [Hin _].
    rewrite Forall_forall in Hi. destruct (Hi b Hb) as [Hb' _]. eapply inside_apart; [exact Hin|exact Hb'|lia].
  - apply (Forall_app _ (delims (rg x) (tx x))). split; [done|]. eapply Forall_impl; [exact Hi|].
    intros d [Hin Hc]. split; [|done]. eapply inside_weaken; [exact Hin|lia|lia].
Qed.
End constructs.

(** ** Code *)

Lemma runs_cover line cursor :
  Forall (λ run, covers line (is_char BACKTICK) (mkRange run.1 (run.1 + run.2))) (runs line cursor).
Proof.
  remember (length line - cursor) as n eqn:En. revert cursor En.
  induction n as [n IH] using lt_wf_ind. intros cursor ->. rewrite runs_step.
  destruct (find_sub _ _) as [r|] eqn:E; [|constructor]. apply find_backtick in E as [Hb Hl].
  pose proof (run_at_pos _ _ Hb). constructor.
  - cbn. rewrite run_at_drop. apply covers_count.
  - apply (IH (length line - (cursor + r + run_at line (cursor + r)))); [lia|done].
Qed.

Lemma pairs_ok fuel line cursor :
  Forall (λ c, construct_ok line (is_char BACKTICK) (code_range c) (code_text c)) (pair_runs fuel (runs line cursor)) ∧
  ordered_from cursor (map code_range (pair_runs fuel (runs line cursor))).
Proof.
  revert cursor. induction fuel as [|fuel IH]; intros cursor; [by cbn|].
  pose proof (runs_ok line cursor) as Hok. pose proof (runs_cover line cursor) as Hcov.
  revert Hok Hcov. rewrite (runs_step line cursor). destruct (find_sub _ _) as [r|]; [|done].
  intros Hok%Forall_cons Hcov%Forall_cons. destruct Hok as [(_ & ? & ?) _], Hcov as [Hcov _].
  set (open := cursor + r) in *. set (len := run_at line open) in *. cbn [pair_runs fst snd] in *.
  destruct (list_find _ _) as [[i [s l]]|] eqn:Ei.
  - rewrite (runs_behind _ _ _ _ _ _ Ei). apply list_find_Some in Ei as (Hi & Hl & _). cbn in Hl. subst l.
    pose proof (Forall_lookup_1 _ _ _ _ (runs_ok line (open + len)) Hi) as (? & ? & ?). cbn in *.
    pose proof (Forall_lookup_1 _ _ _ _ (runs_cover line (open + len)) Hi) as Hcl.
    destruct (IH (s + len)) as [IH1 IH2]. split.
    + constructor; [|done]. split; cbn; [lia..|]. repeat constructor; done.
    + split_and!; [lia|lia|done].
  - destruct (IH (open + len)) as [IH1 IH2]. split; [done|]. eapply ordered_from_weaken; [done|lia].
Qed.

Lemma code_spans_ok line :
  Forall (λ c, construct_ok line (is_char BACKTICK) (code_range c) (code_text c)) (code_spans line) ∧
  ordered_from 0 (map code_range (code_spans line)).
Proof. apply pairs_ok. Qed.

(** ** Comments *)

Definition comment_ok (line : str) (codes : list range) (r : range) : Prop :=
  inside 0 (length line) r ∧ line !! r_start r = Some (ch "<") ∧ Forall (λ c, apart c r) codes.

Lemma find_sub_head line from c p k :
  find_sub (c :: p) (drop from line) = Some k → line !! (from + k) = Some c.
Proof.
  intros (Hs & _)%find_sub_Some. apply starts_with_app in Hs as [rest Hs]. rewrite drop_drop in Hs.
  rewrite <- (Nat.add_0_r (from + k)), <- lookup_drop. by rewrite Hs.
Qed.

Lemma comments_ok fuel line codes cursor :
  Forall (comment_ok line codes) (comments_loop fuel line codes cursor) ∧
  ordered_from cursor (comments_loop fuel line codes cursor).
Proof.
  revert cursor. induction fuel as [|fuel IH]; intros cursor; [by cbn|]. cbn [comments_loop].
  destruct (find_sub (u "<!--") _) as [i|] eqn:Eo; [|by cbn].
  destruct (find_sub (u "-->") _) as [k|] eqn:Ec; [|by cbn].
  apply find_drop_bounds in Ec; [|done]. change (length (u "-->")) with 3 in Ec.
  apply find_sub_head in Eo. rewrite (Nat.add_comm cursor) in Eo.
  set (r := mkRange _ _). destruct (IH (k + (i + cursor + 4) + 3)) as [IH1 IH2].
  destruct (overlaps_excluded codes r) eqn:E.
  - split; [done|]. eapply ordered_from_weaken; [done|]. lia.
  - apply overlaps_excluded_apart in E. split; [|cbn; split_and!; [lia|lia|done]].
    constructor; [|done]. split_and!; [|done|done]. unfold inside. cbn. lia.
Qed.

(** ** Links *)

Definition link_placed (line : str) (excluded : list range) (link : InlineLink) : Prop :=
  line !! r_start (link_range link) = Some LBRACKET ∧ link_ok line (r_start (link_range link)) link ∧
  Forall (λ r, apart r (link_range link)) excluded.

Lemma links_ok fuel line excluded cursor :
  Forall (link_placed line excluded) (links_loop fuel line excluded cursor) ∧
  ordered_from cursor (map link_range (links_loop fuel line excluded cursor)).
Proof.
  revert cursor. induction fuel as [|fuel IH]; intros cursor; [by cbn|]. cbn [links_loop].
  destruct (find_sub [LBRACKET] _) as [k|] eqn:E; [|by cbn]. apply find_sub_head in E.
  assert (∀ next, cursor ≤ next →
    Forall (link_placed line excluded) (links_loop fuel line excluded next) ∧
    ordered_from cursor (map link_range (links_loop fuel line excluded next))) as Hnext.
  { intros next Hn. destruct (IH next). split; [done|]. by eapply ordered_from_weaken. }
  destruct (_ && _); [apply Hnext; lia|]. destruct (find _ _) as [jump|] eqn:Ej.
  { apply find_some in Ej as [_ Ej]. unfold range_contains in Ej. bool_to_prop. apply Hnext. lia. }
  fold (parse_link line (cursor + k)). destruct (parse_link _ _) as [link|] eqn:El; [|apply Hnext; lia].
  apply parse_link_ok in El as Hok. pose proof Hok as [? ? ? ? ?].
  destruct (overlaps_excluded _ _) eqn:Eo; [apply Hnext; lia|]. apply overlaps_excluded_apart in Eo.
  destruct (IH (r_end (link_range link))) as [IH1 IH2]. split.
  - constructor; [|done]. unfold link_placed. by replace (r_start (link_range link)) with (cursor + k).
  - cbn. split_and!; [lia|lia|done].
Qed.

Lemma covers_any line a b : b ≤ length line → covers line (λ _, true) (mkRange a b).
Proof. intros Hb i Hi. cbn in Hi. destruct (lookup_lt_is_Some_2 line i) as [c Hc]; [lia|]. eauto. Qed.

Lemma link_construct line excluded link :
  link_placed line excluded link → construct_ok line (λ _, true) (link_range link) (link_label link).
Proof.
  intros (_ & [? ? ? ? ?] & _). split; [lia..|]. repeat constructor; apply covers_any; lia.
Qed.

(** ** Strikethroughs *)

Definition strike_ok (line : str) (excluded : list range) (run : InlineStrikethrough) : Prop :=
  construct_ok line (is_char TILDE) (strike_range run) (strike_text run) ∧
  ∀ d r, d ∈ delims (strike_range run) (strike_text run) → r ∈ excluded → apart r d.

Lemma parse_strikethrough_ok line open run :
  parse_strikethrough line open = Some run →
  covers line (is_char TILDE) (mkRange open (open + 2)) →
  r_start (strike_range run) = open ∧ construct_ok line (is_char TILDE) (strike_range run) (strike_text run).
Proof.
  unfold parse_strikethrough. destruct (find_sub _ _) as [k|] eqn:E; [|done]. cbn [mbind option_bind].
  pose proof E as Hb. apply find_drop_bounds in Hb; [|done]. change (length (u "~~")) with 2 in Hb.
  apply (covers_find _ (is_char TILDE)) in E; [|by repeat constructor]. change (length (u "~~")) with 2 in E.
  destruct (_ || _ || _ || _); [done|]. intros [= <-] Hopen. cbn. split; [done|].
  rewrite (Nat.add_comm k). split; cbn; [lia..|]. repeat constructor; done.
Qed.

Lemma excluded_delims excluded r t :
  overlaps_excluded excluded (mkRange (r_start r) (r_start t))
  || overlaps_excluded excluded (mkRange (r_end t) (r_end r)) = false →
  ∀ d x, d ∈ delims r t → x ∈ excluded → apart x d.
Proof.
  intros [H1%overlaps_excluded_apart H2%overlaps_excluded_apart]%orb_false_iff d x Hd Hx.
  rewrite Forall_forall in H1, H2. unfold delims in Hd. set_unfold in Hd.
  destruct Hd as [-> |[-> |[]]]; auto.
Qed.

Lemma strikes_ok fuel line excluded cursor :
  Forall (strike_ok line excluded) (strikes_loop fuel line excluded cursor) ∧
  ordered_from cursor (map strike_range (strikes_loop fuel line excluded cursor)).
Proof.
  revert cursor. induction fuel as [|fuel IH]; intros cursor; [by cbn|]. cbn [strikes_loop].
  destruct (find_sub (u "~~") _) as [k|] eqn:E; [|by cbn].
  apply (covers_find _ (is_char TILDE)) in E; [|by repeat constructor]. change (length (u "~~")) with 2 in E.
  assert (∀ next, cursor ≤ next →
    Forall (strike_ok line excluded) (strikes_loop fuel line excluded next) ∧
    ordered_from cursor (map strike_range (strikes_loop fuel line excluded next))) as Hnext.
  { intros next Hn. destruct (IH next). split; [done|]. by eapply ordered_from_weaken. }
  destruct (_ || _); [apply Hnext; lia|].
  destruct (parse_strikethrough _ _) as [run|] eqn:Er; [|apply Hnext; lia].
  apply parse_strikethrough_ok in Er as [Hs Hok]; [|done].
  destruct (_ || _) eqn:Eo; [apply Hnext; lia|].
  destruct (IH (r_end (strike_range run))) as [IH1 IH2]. pose proof Hok as [? ? ? ? ?]. split.
  - constructor; [|done]. split; [done|]. by apply excluded_delims.
  - cbn. split_and!; [lia|lia|done].
Qed.

(** ** Emphasis *)

Lemma find_char_Some_at f s k :
  find_char f s = Some k → ∃ c, s !! k = Some c ∧ f c = true.
Proof.
  revert k. induction s as [|c s IH]; cbn; intros k; [done|]. destruct (f c) eqn:E.
  - intros [= <-]. by exists c.
  - destruct (find_char f s) as [j|]; [|done]. intros [= <-]. by apply IH.
Qed.

Lemma emphasis_close_ok fuel line marker len cursor close :
  emphasis_close fuel line marker len cursor = Some close →
  cursor ≤ close ∧ marker_run_length line close marker = len.
Proof.
  revert cursor. induction fuel as [|fuel IH]; intros cursor; cbn [emphasis_close]; [done|].
  destruct (find_char _ _) as [k|]; [|done]. cbn [mbind option_bind].
  destruct (_ && _ && _) eqn:E.
  - intros [= <-]. apply andb_true_iff in E as [[E _]%andb_true_iff _]. apply Nat.eqb_eq in E. split; [lia|done].
  - intros [Hc Hl]%IH. split; [|done]. lia.
Qed.

Definition emph_ok (line : str) (excluded : list range) (run : InlineEmphasis) : Prop :=
  construct_ok line is_emphasis_char (emph_range run) (emph_text run) ∧
  ∀ d r, d ∈ delims (emph_range run) (emph_text run) → r ∈ excluded → apart r d.

Lemma run_length_covers line start marker :
  is_emphasis_char marker = true →
  covers line is_emphasis_char (mkRange start (start + marker_run_length line start marker)).
Proof.
  intros Hm. eapply covers_weaken; [apply covers_count|]. intros c Hc. unfold is_char in Hc. bool_to_prop. by subst.
Qed.

Lemma parse_emphasis_ok line open marker excluded run :
  line !! open = Some marker → is_emphasis_char marker = true →
  parse_emphasis line open marker excluded = Some run →
  r_start (emph_range run) = open ∧ emph_ok line excluded run.
Proof.
  intros Hl Hm. unfold parse_emphasis. pose proof (run_length_covers line open marker Hm) as Hopen.
  assert (1 ≤ marker_run_length line open marker) as Hpos.
  { unfold marker_run_length. rewrite (drop_S _ _ _ Hl). cbn [count_while]. unfold is_char at 1.
    rewrite N.eqb_refl. lia. }
  set (len := marker_run_length line open marker) in *. destruct (_ <? _)%nat; [done|].
  destruct (line !! (open + len)); [|done]. cbn [mbind option_bind].
  destruct (is_ascii_whitespace _); [done|]. destruct (_ && _); [done|].
  destruct (emphasis_close _ _ _ _ _) as [close|] eqn:Ec; [|done]. cbn [mbind option_bind].
  apply emphasis_close_ok in Ec as [Hc Hlen]. pose proof (run_length_covers line close marker Hm) as Hclose.
  rewrite Hlen in Hclose. pose proof (count_while_drop_le (is_char marker) line close) as Hle.
  fold (marker_run_length line close marker) in Hle. rewrite Hlen in Hle.
  destruct (_ || _) eqn:Eo; [done|]. intros [= <-]. cbn. split; [done|]. split.
  - split; cbn; [lia..|]. repeat constructor; done.
  - by apply (excluded_delims excluded (mkRange open (close + len)) (mkRange (open + len) close)).
Qed.

Definition emph_delims : list InlineEmphasis → list range := all_delims emph_range emph_text.

(** What a scan for emphasis from a position on a line yields. *)
Definition emphases_ok (excluded : list range) (line : str) (from : nat) (l : list InlineEmphasis) : Prop :=
  Forall (emph_ok line excluded) l ∧ apart_all (emph_delims l) ∧
  Forall (inside from (length line)) (emph_delims l).

Lemma emph_ok_take n line excluded run : emph_ok (take n line) excluded run → emph_ok line excluded run.
Proof.
  intros [[H1 H2 H3 H4 H5] H6]. split; [|done]. rewrite length_take in H4. split; [done..|lia|].
  eapply Forall_impl; [exact H5|]. intros d Hd i Hi. destruct (Hd i Hi) as (c & Hc & Hf).
  apply lookup_take_Some in Hc as [Hc _]. eauto.
Qed.

Lemma emph_delims_app a b : emph_delims (a ++ b) = emph_delims a ++ emph_delims b.
Proof. unfold emph_delims, all_delims. by rewrite flat_map_app. Qed.

Lemma emphases_weaken excluded line from from' l :
  emphases_ok excluded line from l → from' ≤ from → emphases_ok excluded line from' l.
Proof.
  intros (H1 & H2 & H3) Hf. split_and!; [done..|]. eapply Forall_impl; [exact H3|].
  intros d Hd. eapply inside_weaken; [exact Hd|done|done].
Qed.

Lemma inside_lists a b c d l l' :
  Forall (inside a b) l → Forall (inside c d) l' → b ≤ c → apart_lists l l'.
Proof.
  rewrite !Forall_forall. intros H1 H2 Hbc x y Hx Hy. eapply inside_apart; [by apply H1|by apply H2|done].
Qed.

(** A run, those inside its text and those behind it. *)
Lemma emphases_cons excluded line from run inner later :
  emph_ok line excluded run → from ≤ r_start (emph_range run) →
  emphases_ok excluded (take (r_end (emph_text run)) line) (r_start (emph_text run)) inner →
  emphases_ok excluded line (r_end (emph_range run)) later →
  emphases_ok excluded line from (run :: inner ++ later).
Proof.
  intros [Hok Hex] Hfrom (I1 & I2 & I3) (L1 & L2 & L3). pose proof Hok as [? ? ? ? _].
  rewrite length_take in I3. replace (_ `min` _) with (r_end (emph_text run)) in I3 by lia.
  change (run :: inner ++ later) with ([run] ++ inner ++ later). unfold emphases_ok. rewrite !emph_delims_app.
  assert (emph_delims [run] = delims (emph_range run) (emph_text run)) as -> by reflexivity.
  assert (Forall (λ d, inside (r_start (emph_range run)) (r_end (emph_range run)) d)
    (delims (emph_range run) (emph_text run))) as Hin.
  { apply Forall_forall. intros d Hd. by destruct (construct_inside _ _ _ _ _ Hok Hd). }
  split_and!.
  - constructor; [done|]. apply Forall_app. split; [|done]. eapply Forall_impl; [exact I1|]. apply emph_ok_take.
  - rewrite !apart_all_app. split_and!; [by eapply delims_apart|done|done| |].
    + eapply inside_lists; [exact I3|exact L3|lia].
    + intros x y Hx [Hy|Hy]%elem_of_app; [|rewrite Forall_forall in Hin, L3;
        eapply inside_apart; [by apply Hin|by apply L3|done]].
      rewrite Forall_forall in I3. destruct (I3 y Hy) as (? & ? & ?). unfold delims in Hx. set_unfold in Hx.
      unfold apart. destruct Hx as [-> |[-> |[]]]; cbn; lia.
  - rewrite !Forall_app. split_and!; (eapply Forall_impl; [eassumption|]);
      intros d Hd; (eapply inside_weaken; [exact Hd|lia|lia]).
Qed.

Lemma emphases_loop_ok nested fuel line excluded cursor :
  (∀ line from, emphases_ok excluded line from (nested line from)) →
  emphases_ok excluded line cursor (emphases_loop nested fuel line excluded cursor).
Proof.
  intros Hnested. revert cursor. induction fuel as [|fuel IH]; intros cursor; [by repeat constructor|].
  cbn [emphases_loop]. destruct (find_char _ _) as [k|] eqn:E; [|by repeat constructor].
  apply find_char_Some_at in E as (c & Hc & Hm). rewrite lookup_drop in Hc. rewrite Hc. cbn [default].
  unfold id. destruct (parse_emphasis _ _ _ _) as [run|] eqn:Er.
  - apply parse_emphasis_ok in Er as [Hs Hok]; [|done..]. apply emphases_cons; [done|lia|apply Hnested|apply IH].
  - eapply emphases_weaken; [apply IH|lia].
Qed.

Lemma emphases_at_ok levels line from excluded :
  emphases_ok excluded line from (emphases_at levels line from excluded).
Proof.
  revert line from. induction levels as [|levels IH]; intros line from; cbn [emphases_at];
    apply emphases_loop_ok; [by repeat constructor|exact IH].
Qed.

(** ** The front of a line *)

(** What a task's time is written with, and what may stand before a line's
    inline text. *)
Definition token_char (c : char) : bool :=
  is_whitespace c || is_ascii_digit c || is_char (ch ":") c || is_char (ch "-") c.
Definition front_char (c : char) : bool :=
  token_char c || is_char HASH c || is_bullet_char c || is_char LBRACKET c || is_char RBRACKET c
  || is_char (ch "x") c || is_char (ch "X") c.

Ltac excluded_chars :=
  let c := fresh in
  intros c;
  match goal with |- _ → ?g = false => destruct g eqn:?E; [|reflexivity] end;
  unfold is_emphasis_char, is_char in *;
  repeat match goal with
    | E : (_ || _) = true |- _ => apply orb_true_iff in E; destruct E
    | E : (_ =? _)%N = true |- _ => apply N.eqb_eq in E
    | E : _ = c |- _ => rewrite <- E; clear E
    | E : c = _ |- _ => rewrite E; clear E
    end;
  let H := fresh in intros H; vm_compute in H; discriminate H.

Lemma front_no_backtick : excludes front_char (is_char BACKTICK).
Proof. excluded_chars. Qed.
Lemma front_no_tilde : excludes front_char (is_char TILDE).
Proof. excluded_chars. Qed.
Lemma token_no_emphasis : excludes token_char is_emphasis_char.
Proof. excluded_chars. Qed.
Lemma tilde_no_emphasis : excludes (is_char TILDE) is_emphasis_char.
Proof. excluded_chars. Qed.

Lemma blank_token c : is_blank_char c = true → token_char c = true.
Proof. unfold is_blank_char, is_char. intros [<-%N.eqb_eq | <-%N.eqb_eq]%orb_true_iff; reflexivity. Qed.

Lemma token_front c : token_char c = true → front_char c = true.
Proof. unfold front_char. by intros ->. Qed.

(** The spans before the inline text, which starts at [from]; [F] is past them,
    and past the time a task starts with. *)
Record front_ok (line : str) (F from : nat) (head : list range) : Prop := {
  front_covers : covers line front_char (mkRange 0 F);
  front_token : covers line token_char (mkRange from F);
  front_from : from ≤ F ≤ length line;
  front_apart : apart_all head;
  front_inside : Forall (inside 0 F) head;
  front_sides : Forall (λ r, r_end r ≤ from ∨ from ≤ r_start r) head
}.

Definition inline_folds (line : str) (from : nat) : list range :=
  let code := code_spans line in
  let comments := html_comment_ranges line (map code_range code) in
  let excluded := map code_range code ++ comments in
  let links := each_inline_link line from excluded in
  let struck := excluded ++ map link_range links in
  comments ++ all_delims code_range code_text code ++ all_delims link_range link_label links
  ++ all_delims strike_range strike_text (each_strikethrough line from struck)
  ++ emph_delims (each_emphasis line from struck 0).

Lemma folds_inline line from : folds (inline_spans line from) = inline_folds line from.
Proof.
  unfold inline_spans, inline_folds, all_delims, emph_delims. rewrite !folds_app, !folds_flat_map.
  assert (∀ l, folds (map (λ c, mkSpan c Marker) l) = l) as ->.
  { intros l. unfold folds. rewrite filter_all.
    - rewrite map_map. cbn. apply map_id.
    - intros s Hs. by apply list_elem_of_fmap in Hs as (r & -> & _). }
  repeat lazymatch goal with |- _ ++ _ = _ ++ _ => apply f_equal2 end; try reflexivity;
    apply flat_map_ext; intros x; apply folds_delimited; [by repeat constructor; destruct (is_some _)|].
  apply Forall_app. split; [by destruct (is_bold x); repeat constructor|].
  by destruct (is_italic x); repeat constructor.
Qed.

Lemma in_range_delims {A} (rg tx : A → range) line f l d other :
  Forall (λ x, construct_ok line f (rg x) (tx x)) l → d ∈ all_delims rg tx l →
  (∀ x, x ∈ l → apart other (rg x)) → apart other d.
Proof.
  intros Hl (x & Hx & Hd)%all_delims_elem Ho. rewrite Forall_forall in Hl.
  destruct (construct_inside _ _ _ _ _ (Hl x Hx) Hd) as [(? & ? & ?) _].
  destruct (Ho x Hx); unfold apart; lia.
Qed.

Lemma backtick_no_tilde : excludes (is_char BACKTICK) (is_char TILDE).
Proof. excluded_chars. Qed.
Lemma backtick_no_emphasis : excludes (is_char BACKTICK) is_emphasis_char.
Proof. excluded_chars. Qed.

Section line.
Context (line : str) (from : nat).

Let codes := code_spans line.
Let code_ranges := map code_range codes.
Let comments := html_comment_ranges line code_ranges.
Let excluded := code_ranges ++ comments.
Let links := each_inline_link line from excluded.
Let struck := excluded ++ map link_range links.
Let strikes := each_strikethrough line from struck.
Let emphases := each_emphasis line from struck 0.

Let CD := all_delims code_range code_text codes.
Let LD := all_delims link_range link_label links.
Let SD := all_delims strike_range strike_text strikes.
Let ED := emph_delims emphases.

Lemma codes_facts :
  Forall (λ c, construct_ok line (is_char BACKTICK) (code_range c) (code_text c)) codes ∧ apart_all CD ∧
  ∀ d, d ∈ CD → inside 0 (length line) d ∧ covers line (is_char BACKTICK) d.
Proof.
  destruct (code_spans_ok line) as [H1 H2]. destruct (constructs_apart _ _ _ _ _ _ H1 H2) as [H3 H4].
  rewrite Forall_forall in H4. done.
Qed.

Lemma comments_facts :
  apart_all comments ∧ ∀ d, d ∈ comments → comment_ok line code_ranges d.
Proof.
  destruct (comments_ok (S (length line)) line code_ranges 0) as [H1 H2]. rewrite Forall_forall in H1.
  split; [by eapply ordered_apart|exact H1].
Qed.

Lemma links_facts :
  Forall (λ l, construct_ok line (λ _, true) (link_range l) (link_label l)) links ∧ apart_all LD ∧
  (∀ l, l ∈ links → link_placed line excluded l ∧ from ≤ r_start (link_range l)) ∧
  ∀ d, d ∈ LD → inside from (length line) d.
Proof.
  assert (Forall (link_placed line excluded) links ∧ ordered_from from (map link_range links)) as [H1 H2]
    by apply links_ok.
  assert (Forall (λ l, construct_ok line (λ _, true) (link_range l) (link_label l)) links) as Hc.
  { eapply Forall_impl; [exact H1|]. intros l. apply link_construct. }
  destruct (constructs_apart _ _ _ _ _ _ Hc H2) as [H3 H4]. rewrite Forall_forall in H1; rewrite Forall_forall in H4.
  apply ordered_from_ge in H2. rewrite Forall_forall in H2. split_and!; [done|done| |intros d Hd; by apply H4].
  intros l Hl. split; [by apply H1|]. apply H2. by apply list_elem_of_fmap_2.
Qed.

Lemma strikes_facts :
  apart_all SD ∧ ∀ d, d ∈ SD →
  inside from (length line) d ∧ covers line (is_char TILDE) d ∧ ∀ r, r ∈ struck → apart r d.
Proof.
  assert (Forall (strike_ok line struck) strikes ∧ ordered_from from (map strike_range strikes)) as [H1 H2]
    by apply strikes_ok.
  assert (Forall (λ s, construct_ok line (is_char TILDE) (strike_range s) (strike_text s)) strikes) as Hc.
  { eapply Forall_impl; [exact H1|]. by intros s []. }
  destruct (constructs_apart _ _ _ _ _ _ Hc H2) as [H3 H4]. split; [done|]. intros d Hd.
  rewrite Forall_forall in H1; rewrite Forall_forall in H4. destruct (H4 d Hd). split_and!; [done|done|]. intros r Hr.
  apply all_delims_elem in Hd as (s & Hs & Hd). by apply (proj2 (H1 s Hs)).
Qed.

Lemma emphases_facts :
  apart_all ED ∧ ∀ d, d ∈ ED →
  inside from (length line) d ∧ covers line is_emphasis_char d ∧ ∀ r, r ∈ struck → apart r d.
Proof.
  assert (emphases_ok struck line from emphases) as (H1 & H2 & H3) by apply emphases_at_ok. split; [done|].
  intros d Hd. rewrite Forall_forall in H1; rewrite Forall_forall in H3. split; [by apply H3|].
  apply all_delims_elem in Hd as (e & He & Hd). destruct (H1 e He) as [Hok Hex].
  split; [by apply (construct_inside _ _ _ _ _ Hok)|]. intros r Hr. by apply Hex.
Qed.

Lemma code_links_apart : apart_lists CD LD.
Proof.
  destruct codes_facts as (Hc & _ & _), links_facts as (Hl & _ & Hp & _). intros x y Hx Hy.
  apply (in_range_delims link_range link_label line (λ _, true) links y x Hl Hy). intros l Hin.
  apply apart_sym. apply (in_range_delims code_range code_text line (is_char BACKTICK) codes x _ Hc Hx).
  intros c Hc'. apply apart_sym. destruct (Hp l Hin) as [(_ & _ & Hex) _]. rewrite Forall_forall in Hex.
  apply Hex, elem_of_app. left. by apply list_elem_of_fmap_2.
Qed.

Lemma inline_apart : apart_all (inline_folds line from) ∧ Forall (inside 0 (length line)) (inline_folds line from).
Proof.
  change (inline_folds line from) with (comments ++ CD ++ LD ++ SD ++ ED).
  destruct codes_facts as (Hc & Ac & Fc), comments_facts as [Ak Fk], links_facts as (Hl & Al & Fl & Il),
    strikes_facts as [As Fs], emphases_facts as [Ae Fe].
  assert (∀ k, k ∈ comments → k ∈ struck) as Hks by (intros; subst struck excluded; set_solver).
  assert (∀ l, l ∈ links → link_range l ∈ struck) as Hls.
  { intros l Hin. apply elem_of_app. right. by apply list_elem_of_fmap_2. }
  assert (∀ k d, k ∈ comments → d ∈ CD → apart k d) as Hkc.
  { intros k d Hk Hd. apply (in_range_delims code_range code_text line (is_char BACKTICK) codes d k Hc Hd).
    intros c Hin. destruct (Fk k Hk) as (_ & _ & Hap). rewrite Forall_forall in Hap. apply apart_sym, Hap.
    by apply list_elem_of_fmap_2. }
  assert (∀ k d, k ∈ comments → d ∈ LD → apart k d) as Hkl.
  { intros k d Hk Hd. apply (in_range_delims link_range link_label line (λ _, true) links d k Hl Hd).
    intros l Hin. destruct (Fl l Hin) as [(_ & _ & Hap) _]. rewrite Forall_forall in Hap. apply Hap, elem_of_app.
    by right. }
  assert (∀ d e, d ∈ LD → (∀ r, r ∈ struck → apart r e) → apart d e) as Hlx.
  { intros d e Hd He. apply apart_sym. apply (in_range_delims link_range link_label line (λ _, true) links d e Hl Hd).
    intros l Hin. apply apart_sym, He, Hls, Hin. }
  split.
  - rewrite !apart_all_app. unfold apart_lists. setoid_rewrite elem_of_app. setoid_rewrite elem_of_app.
    setoid_rewrite elem_of_app.
    split_and!; try done.
    + intros x y Hx Hy. destruct (Fs x Hx) as (? & ? & _), (Fe y Hy) as (? & ? & _).
      by eapply covers_apart; [..|apply tilde_no_emphasis| |].
    + intros x y Hx [Hy|Hy]; apply Hlx; [done|by apply Fs|done|by apply Fe].
    + intros x y Hx [Hy|[Hy|Hy]]; [by apply code_links_apart| |]; destruct (Fc x Hx) as [? ?].
      * destruct (Fs y Hy) as (? & ? & _). by eapply covers_apart; [..|apply backtick_no_tilde| |].
      * destruct (Fe y Hy) as (? & ? & _). by eapply covers_apart; [..|apply backtick_no_emphasis| |].
    + intros x y Hx [Hy|[Hy|[Hy|Hy]]]; [by apply Hkc|by apply Hkl|by apply Fs, Hks|by apply Fe, Hks].
  - rewrite !Forall_app, !Forall_forall. split_and!; intros d Hd.
    + by apply Fk.
    + by apply Fc.
    + eapply inside_weaken; [by apply Il|lia|done].
    + eapply inside_weaken; [by apply Fs|lia|done].
    + eapply inside_weaken; [by apply Fe|lia|done].
Qed.

Lemma line_apart F head :
  front_ok line F from head →
  apart_all (head ++ inline_folds line from) ∧ Forall (inside 0 (length line)) (head ++ inline_folds line from).
Proof.
  intros [Hf Ht HF Ha Hi Hsides]. destruct inline_apart as [H1 H2].
  split; [|apply Forall_app; split; [|done]; eapply Forall_impl; [exact Hi|];
    intros d Hd; eapply inside_weaken; [exact Hd|done|lia]].
  apply apart_all_app. split_and!; [done|done|]. intros x y Hx Hy. rewrite Forall_forall in Hi, Hsides.
  specialize (Hi x Hx). pose proof (Hsides x Hx) as Hside.
  assert (covers line front_char x) as Hcx.
  { destruct x. eapply covers_sub; [exact Hf|lia|apply Hi]. }
  assert (from ≤ r_start x → covers line token_char x) as Htx.
  { intros ?. destruct x. eapply covers_sub; [exact Ht|done|apply Hi]. }
  change (inline_folds line from) with (comments ++ CD ++ LD ++ SD ++ ED) in Hy.
  rewrite !elem_of_app in Hy. destruct Hy as [Hy|[Hy|[Hy|[Hy|Hy]]]].
  - destruct comments_facts as [_ Fk]. destruct (Fk y Hy) as (Hin & Hlt & _). left.
    pose proof (covers_past _ _ _ _ _ _ Hf Hlt eq_refl ltac:(lia)). unfold inside in *. lia.
  - destruct codes_facts as (_ & _ & Fc). destruct (Fc y Hy). by eapply covers_apart; [..|apply front_no_backtick| |].
  - destruct links_facts as (Hl & _ & Fl & _).
    apply (in_range_delims link_range link_label line (λ _, true) links y x Hl Hy). intros l Hin.
    destruct (Fl l Hin) as [(Hb & _) Hge]. left. destruct Hside as [? | Hs]; [lia|].
    pose proof (covers_past _ _ _ _ _ _ Ht Hb eq_refl Hge). unfold inside in *. lia.
  - destruct strikes_facts as [_ Fs]. destruct (Fs y Hy) as (? & ? & _).
    by eapply covers_apart; [..|apply front_no_tilde| |].
  - destruct emphases_facts as [_ Fe]. destruct (Fe y Hy) as (Hin & ? & _).
    destruct Hside as [? | Hs]; [left; unfold inside in *; lia|].
    by eapply covers_apart; [by apply Htx|..|apply token_no_emphasis| |].
Qed.
End line.

(** ** Blocks *)

Lemma digit_token c : is_ascii_digit c = true → token_char c = true.
Proof. unfold token_char. intros ->. by rewrite orb_true_r. Qed.

Lemma take_count_while f s n : n ≤ count_while f s → Forall (λ c, f c = true) (take n s).
Proof.
  revert n. induction s as [|c s IH]; intros n; cbn; [by rewrite take_nil|].
  destruct n as [|n]; [constructor|]. destruct (f c) eqn:E; [|lia]. intros Hn. cbn. constructor; [done|].
  apply IH. lia.
Qed.

Lemma parse_time_prefix_shape text m rest :
  parse_time_prefix text = Some (m, rest) →
  ∃ p, text = p ++ rest ∧ Forall (λ c, token_char c = true) p ∧ p ≠ [].
Proof.
  unfold parse_time_prefix. set (h := Nat.min 2 _). destruct (h =? 0)%nat; [done|].
  destruct (bool_decide _) eqn:Ec; [|done]. apply bool_decide_eq_true in Ec. cbn [negb].
  destruct (Nat.ltb_spec (length text) (h + 3)) as [|Hl]; [done|].
  destruct (forallb _ _) eqn:Ed; [|done]. cbn [negb].
  intros (hours & _ & (minutes & _ & H)%bind_Some)%bind_Some. revert H. destruct (_ || _); [done|].
  intros [= _ <-]. exists (take (h + 3) text). split; [by rewrite take_drop|]. split.
  2: { intros E. apply (f_equal length) in E. rewrite length_take in E. cbn in E. lia. }
  replace (h + 3) with (h + (1 + 2)) by lia. rewrite <- take_take_drop. apply Forall_app. split.
  { eapply Forall_impl; [apply (take_count_while is_ascii_digit); lia|]. apply digit_token. }
  rewrite (drop_S _ _ _ Ec). cbn [take]. constructor; [done|]. apply forallb_Forall in Ed.
  rewrite Nat.add_1_r in Ed. eapply Forall_impl; [exact Ed|]. apply digit_token.
Qed.

Lemma whitespace_token c : is_whitespace c = true → token_char c = true.
Proof. unfold token_char. by intros ->. Qed.

Lemma trim_start_split s : ∃ p, s = p ++ trim_start s ∧ Forall (λ c, is_whitespace c = true) p.
Proof. apply trim_start_matches_app. Qed.

(** The dash of a task's time: only what a time is written with stands between
    the box and its end. *)
Lemma time_folds line checked from :
  from ≤ length line →
  folds (push_task_time_spans line checked from) = [] ∨
  ∃ d, folds (push_task_time_spans line checked from) = [d] ∧ inside from (length line) d ∧
    covers line token_char (mkRange from (r_end d)).
Proof.
  intros Hfrom. unfold push_task_time_spans. set (indent := count_while _ _). set (start := from + indent).
  pose proof (covers_count line is_blank_char from) as Hblank. fold indent in Hblank. fold start in Hblank.
  destruct (parse_time_prefix _) as [[m after]|] eqn:Et; [|by left].
  apply parse_time_prefix_shape in Et as (p & Hp & Hpt & Hne).
  assert (length (drop start line) - length after = length p) as Hlen by (rewrite Hp, length_app; lia).
  rewrite Hlen. destruct (parse_range_end after) as [[e after_end]|]; [|destruct (_ && _), checked; by left].
  set (token_len := _ - length after_end). set (between := slice _ _).
  destruct (trim_start_split between) as (lead & Hlead & Hw).
  assert (length between - length (trim_start between) = length lead) as ->
    by (rewrite Hlead at 1; rewrite length_app; lia).
  assert (drop (length lead) between = trim_start between) as -> by (rewrite Hlead at 1; apply drop_app_length).
  destruct (strip_prefix _ _) as [hyphen|] eqn:Eh; [|destruct (_ && _), checked; by left].
  apply strip_prefix_Some in Eh. destruct (trim_start_split hyphen) as (trail & Htrail & Hw').
  assert (length hyphen - length (trim_start hyphen) = length trail) as ->
    by (rewrite Htrail at 1; rewrite length_app; lia).
  destruct (_ && _); [by left|]. right.
  set (d := shift_range start (mkRange (length p) (length p + length lead + 1 + length trail))).
  exists d. split; [by destruct checked|].
  assert (drop start line = (p ++ lead ++ u "-" ++ trail) ++
    (trim_start hyphen ++ drop (length between) after)) as Hd.
  { rewrite Hp at 1. rewrite <- app_assoc. f_equal.
    assert (after = between ++ drop (length between) after) as Ha.
    { rewrite <- (take_drop (length between) after) at 1. f_equal. subst between. unfold slice. cbn [r_start r_end].
      rewrite Hp, drop_app_length. set (n := token_len - length p). rewrite length_take.
      destruct (Nat.le_ge_cases n (length after)); [by rewrite Nat.min_l|by rewrite Nat.min_r, !take_ge]. }
    rewrite Ha at 1. rewrite Hlead, Eh, Htrail at 1. by rewrite <- !app_assoc. }
  assert (covers line token_char (mkRange start (start + length (p ++ lead ++ u "-" ++ trail)))) as Hc.
  { eapply covers_prefix; [exact Hd|]. rewrite !Forall_app. split_and!; [done| |by repeat constructor|];
      (eapply Forall_impl; [eassumption|]; apply whitespace_token). }
  apply (f_equal length) in Hd. rewrite length_app in Hd. rewrite length_drop in Hd.
  revert Hc Hd. rewrite !length_app. change (length (u "-")) with 1. intros Hc Hd.
  assert (r_end d = start + (length p + (length lead + (1 + length trail)))) as He by (cbn; lia).
  split; [unfold inside; cbn; destruct p; [done|]; cbn in *; lia|].
  rewrite He. eapply covers_join; [|exact Hc]. eapply covers_weaken; [exact Hblank|apply blank_token].
Qed.

Lemma blank_front c : is_blank_char c = true → front_char c = true.
Proof. intros H. by apply token_front, blank_token. Qed.

Lemma bullet_front c : is_bullet_char c = true → front_char c = true.
Proof. unfold front_char. intros ->. by rewrite !orb_true_r. Qed.

Lemma heading_front line level start text_start :
  atx_heading line = Some (level, start, text_start) →
  covers line front_char (mkRange 0 text_start) ∧ start < text_start ≤ length line.
Proof.
  unfold atx_heading. destruct (block_indent line) as [indent|] eqn:Ei; [|done]. cbn [mbind option_bind].
  destruct (_ || _); [done|]. set (hashes := count_while (is_char HASH) _).
  set (spaces := count_while is_blank_char _). destruct (Nat.eqb_spec spaces 0); [done|].
  intros [= <- <- <-]. unfold block_indent in Ei. destruct (_ <=? _)%nat; [|done]. injection Ei as <-.
  set (indent := count_while (is_char SPACE) line) in *.
  pose proof (count_while_drop_le is_blank_char line (indent + hashes)) as Hl. fold spaces in Hl.
  split; [|lia]. eapply covers_join; [eapply covers_join|].
  - pose proof (covers_count line (is_char SPACE) 0) as H. cbn in H. rewrite drop_0 in H.
    eapply covers_weaken; [exact H|]. intros c Hc. unfold is_char in Hc. by apply N.eqb_eq in Hc as <-.
  - eapply covers_weaken; [apply (covers_count line (is_char HASH) indent)|]. intros c Hc. unfold is_char in Hc.
    by apply N.eqb_eq in Hc as <-.
  - eapply covers_weaken; [apply covers_count|apply blank_front].
Qed.

Lemma bullet_front_covers line bullet :
  bullet_marker line = Some bullet →
  covers line front_char (mkRange 0 (r_end bullet)) ∧ r_start bullet < r_end bullet ≤ length line.
Proof.
  unfold bullet_marker. set (indent := count_while _ _). destruct (drop indent line) as [|b rest] eqn:Ed; [done|].
  cbn [head mbind option_bind]. destruct (is_bullet_char b) eqn:Eb; [|done]. cbn [negb].
  destruct (negb _); [done|]. destruct (is_some_and _ _); [done|]. intros [= <-]. cbn [r_start r_end].
  assert (indent < length line) by (apply (f_equal length) in Ed; rewrite length_drop in Ed; cbn in Ed; lia).
  split; [|lia]. eapply covers_join with (b := indent).
  - pose proof (covers_count line is_blank_char 0) as H'. rewrite drop_0 in H'.
    eapply covers_weaken; [exact H'|apply blank_front].
  - change (indent + 1) with (indent + length [b]). eapply covers_prefix; [exact Ed|]. repeat constructor.
    by apply bullet_front.
Qed.

Lemma mark_front mark checked : mark_checked mark = Some checked → front_char mark = true.
Proof.
  unfold mark_checked, is_char. destruct (N.eqb_spec SPACE mark) as [<-|]; [done|].
  destruct (N.eqb_spec 120 mark) as [<-|]; [done|]. by destruct (N.eqb_spec 88 mark) as [<-|].
Qed.

Lemma task_front_covers line before mark rest checked :
  task_shape line before mark rest → mark_checked mark = Some checked →
  covers line front_char (mkRange 0 (length before + 2)) ∧ length before + 2 ≤ length line.
Proof.
  intros [(a & b & spaces & Hb & Hline & Ha & Hbc & Hs & _) _] Hm.
  split; [|rewrite Hline, length_app; cbn; lia].
  replace (length before + 2) with (0 + length (before ++ [mark; RBRACKET])) by (rewrite length_app; cbn; lia).
  eapply covers_prefix; [rewrite drop_0, Hline; by rewrite <- app_assoc|].
  rewrite Hb, !Forall_app, Forall_cons, !Forall_app. split_and!.
  - eapply Forall_impl; [exact Ha|apply blank_front].
  - by apply bullet_front.
  - eapply Forall_impl; [exact Hs|apply blank_front].
  - by repeat constructor.
  - repeat constructor. by eapply mark_front.
Qed.

Lemma covers_empty line f a : covers line f (mkRange a a).
Proof. intros i Hi. cbn in Hi. lia. Qed.

Lemma block_front line spans from :
  block_spans line = Some (spans, from) → ∃ F, front_ok line F from (folds spans).
Proof.
  unfold block_spans. destruct (atx_heading line) as [[[level start] text_start]|] eqn:Eh.
  { destruct (_ == _); [done|]. intros [= <- <-]. apply heading_front in Eh as [Hc Hl]. exists text_start.
    split; [done|apply covers_empty|lia| |repeat constructor; cbn; lia|repeat constructor; cbn; lia].
    by repeat constructor. }
  destruct (bullet_marker line) as [bullet|] eqn:Eb.
  2: { intros [= <- <-]. exists 0. assert (folds match journal_time line with
      | Some r => [mkSpan r JournalTime] | None => [] end = []) as -> by by destruct (journal_time line).
    split; [apply covers_empty|apply covers_empty|lia|done|constructor|constructor]. }
  destruct (task_checkbox line) as [[box checked]|] eqn:Et.
  2: { intros [= <- <-]. apply bullet_front_covers in Eb as [Hc Hl]. exists (r_end bullet).
    split; [done|apply covers_empty|lia|by repeat constructor|repeat constructor; cbn; lia|repeat constructor; cbn; lia]. }
  intros [= <- <-]. apply task_checkbox_shape in Et as (before & mark & rest & Hs & Hm & ->).
  destruct (task_shape_bullet _ _ _ _ Hs) as (i & Hbullet & _ & Hi). rewrite Hbullet in Eb. injection Eb as <-.
  destruct (task_front_covers _ _ _ _ _ Hs Hm) as [Hc Hl]. cbn [r_start r_end] in *.
  set (from := length before + 2) in *. set (box := mkRange (length before - 1) from).
  match goal with |- ∃ F, front_ok _ F _ (folds ?l) =>
    assert (folds l = [mkRange i (length before - 1); box] ++ folds (push_task_time_spans line checked from)) as -> end.
  { by destruct (_ && _). }
  assert (apart_all [mkRange i (length before - 1); box] ∧ Forall (λ r, inside 0 from r) [mkRange i (length before - 1); box]) as [Ha Hin].
  { subst box from. unfold inside. split; [|repeat constructor; cbn; lia]. by repeat constructor. }
  assert (Forall (λ r, r_end r ≤ from ∨ from ≤ r_start r) [mkRange i (length before - 1); box]) as Hside.
  { eapply Forall_impl; [exact Hin|]. intros r (? & ? & ?). by left. }
  destruct (time_folds line checked from Hl) as [-> |(d & -> & Hd & Hcd)].
  - exists from. rewrite app_nil_r. by split; [|apply covers_empty|lia|..].
  - exists (r_end d). pose proof Hd as (? & ? & ?). split; [|done|lia| | |].
    + eapply covers_join; [exact Hc|]. eapply covers_weaken; [exact Hcd|apply token_front].
    + apply apart_all_app. split_and!; [done|by repeat constructor|].
      rewrite Forall_forall in Hin. intros x y Hx ->%list_elem_of_singleton. left. destruct (Hin x Hx) as (? & ? & ?). lia.
    + apply Forall_app. split; [|by repeat constructor; unfold inside; lia].
      eapply Forall_impl; [exact Hin|]. intros x (? & ? & ?). unfold inside. lia.
    + apply Forall_app. split; [done|]. apply Forall_singleton. right. lia.
Qed.

(** ** Lines and documents *)

Lemma image_spans_apart line image :
  image_line line = Some image →
  apart_all (folds (push_image_spans image line)) ∧
  Forall (inside 0 (length line)) (folds (push_image_spans image line)).
Proof.
  unfold image_line. destruct (_ || _); [done|]. destruct (parse_image _ _) as [img|] eqn:Ei; [|done].
  cbn [mbind option_bind]. destruct (_ =? _)%nat; [|done]. intros [= ->]. revert Ei. unfold parse_image.
  destruct (find_sub _ _) as [k|] eqn:Ek; [|done]. cbn [mbind option_bind]. destruct (contains _ _); [done|].
  destruct (balanced_destination _ _) as [[dest close]|] eqn:Ed; [|done]. cbn [mbind option_bind].
  apply balanced_destination_ok in Ed as (-> & Hc & _).
  set (start := length line - length (trim_start line)) in *. set (alt_end := k + (start + 2)) in *.
  set (dst := slice line (mkRange (alt_end + 2) close)). assert (length dst ≤ close - (alt_end + 2)) as Hdst.
  { subst dst. rewrite slice_length. lia. }
  assert (length (trim_start dst) ≤ length dst) as Htrim.
  { destruct (trim_start_split dst) as (p & Hp & _). rewrite Hp at 2. rewrite length_app. lia. }
  set (src_len := default _ _). assert (src_len ≤ length (trim_start dst)) as Hsrc.
  { subst src_len. destruct (find_char _ _) as [j|] eqn:Ej; cbn [default]; [|done].
    apply find_char_Some_at in Ej as (c & Hj & _). apply lookup_lt_Some in Hj. unfold id. lia. }
  destruct (src_len =? 0)%nat; [done|]. intros [= <-]. unfold push_image_spans.
  set (img := mkImage _ _ _). destruct (image_shown img line) as [shown|] eqn:Es; [|by cbn].
  assert (start + 2 ≤ r_start shown ∧ r_start shown ≤ r_end shown ≤ close) as Hshown.
  { revert Es. unfold image_shown. subst img. cbn [image_alt image_src r_start r_end].
    destruct (Nat.ltb_spec (start + 2) alt_end); [intros [= <-]; cbn; lia|].
    set (src := slice _ _). assert (length src ≤ src_len) as Hl by (subst src; rewrite slice_length; lia).
    set (name_start := match rfind_sub _ _ with Some _ => _ | None => _ end).
    assert (name_start ≤ length src) as Hn.
    { subst name_start. destruct (rfind_sub (u "/") src) as [j|] eqn:Ej; [|lia].
      apply rfind_sub_Some in Ej as (? & ? & _). change (length (u "/")) with 1 in *. lia. }
    set (stem := default _ _). assert (stem ≤ length (drop name_start src)) as Hstem.
    { subst stem. destruct (rfind_sub (u ".") _) as [j|] eqn:Ej; cbn [default]; [|done].
      apply rfind_sub_Some in Ej as (? & ? & _). change (length (u ".")) with 1 in *. unfold id. lia. }
    rewrite length_drop in Hstem. destruct (stem =? 0)%nat; [done|]. intros [= <-]. cbn [r_start r_end]. lia. }
  cbn [image_range r_start r_end] in *. change (folds _) with
    [mkRange (start + 1) (r_start shown); mkRange (r_end shown) (close + 1)].
  split; [cbn; split_and!; try done; repeat constructor; unfold apart; cbn; lia|].
  repeat constructor; unfold inside; cbn; lia.
Qed.

Lemma scan_line_apart line :
  apart_all (folds (scan_line line)) ∧ Forall (inside 0 (length line)) (folds (scan_line line)).
Proof.
  unfold scan_line. destruct (image_line line) as [image|] eqn:Ei; [by apply image_spans_apart|].
  rewrite folds_app. assert (folds match blockquote_range line with
    | Some r => [mkSpan r Quote] | None => [] end = []) as -> by by destruct (blockquote_range line).
  cbn [app]. destruct (block_spans line) as [[spans from]|] eqn:Eb; [|by cbn].
  apply block_front in Eb as [F HF]. rewrite folds_app, folds_inline. by eapply line_apart.
Qed.

Lemma folds_shift n spans : folds (map (shift n) spans) = map (shift_range n) (folds spans).
Proof.
  unfold folds. induction spans as [|s spans IH]; [done|]. cbn [map]. rewrite !filter_cons. cbn [kind shift].
  destruct (decide _); cbn [map]; by rewrite IH.
Qed.

Lemma shift_inside n a b r : inside a b r → inside (n + a) (n + b) (shift_range n r).
Proof. unfold inside. cbn. lia. Qed.

Lemma shift_apart_all n l : apart_all l → apart_all (map (shift_range n) l).
Proof.
  induction l as [|r l IH]; cbn; [done|]. intros [Hr Hl]. split; [|by apply IH].
  apply Forall_map. eapply Forall_impl; [exact Hr|]. unfold apart. cbn. intros; lia.
Qed.

(** The spans of one content line of a document. *)
Definition line_spans (entry : nat * str) : list ConcealSpan :=
  let '(line_start, line) := entry in
  if is_thematic_break line then [mkSpan (mkRange line_start (line_start + length line)) Rule]
  else map (shift line_start) (scan_line line).

Lemma line_spans_apart start line :
  apart_all (folds (line_spans (start, line))) ∧
  Forall (inside start (start + length line)) (folds (line_spans (start, line))).
Proof.
  cbn [line_spans]. destruct (is_thematic_break line) eqn:Et.
  - split; [by repeat constructor|]. apply Forall_singleton. unfold inside. cbn.
    cut (length line ≠ 0); [lia|].
    unfold is_thematic_break in Et. destruct (block_indent line) as [i|]; [|done]. bool_to_prop.
    destruct line as [|c line]; [|done]. rewrite drop_nil in *. cbn in *. lia.
  - destruct (scan_line_apart line) as [Ha Hi]. rewrite folds_shift. split; [by apply shift_apart_all|].
    apply Forall_map. eapply Forall_impl; [exact Hi|]. intros r Hr. apply (shift_inside start) in Hr.
    by rewrite Nat.add_0_r in Hr.
Qed.

Lemma strip_cr_length (raw : str) : length (default raw (strip_suffix [13%N] raw)) ≤ length raw.
Proof. unfold strip_suffix. destruct (ends_with _ _); cbn; unfold id; [rewrite length_take|]; lia. Qed.

Lemma content_lines_apart state offset raws :
  let l := folds (flat_map line_spans (content_loop state offset raws)) in
  apart_all l ∧ Forall (inside offset (offset + length (join [10%N] raws))) l.
Proof.
  revert state offset. induction raws as [|raw raws IH]; intros state offset; cbn [content_loop]; [by cbn|].
  destruct (advance _ _) as [content state']. set (line := default _ _).
  pose proof (strip_cr_length raw) as Hlen. fold line in Hlen.
  destruct (IH state' (offset + length raw + 1)) as [Ha Hi].
  assert (Forall (inside (offset + length raw + 1) (offset + length (join [10%N] (raw :: raws))))
    (folds (flat_map line_spans (content_loop state' (offset + length raw + 1) raws)))) as Hlater.
  { destruct raws as [|raw' raws]; [by cbn|]. eapply Forall_impl; [exact Hi|]. intros r Hr.
    eapply inside_weaken; [exact Hr|done|]. cbn [join]. rewrite length_app. cbn [app length]. lia. }
  assert (length raw ≤ length (join [10%N] (raw :: raws))) as Hj
    by (destruct raws; cbn [join]; rewrite ?length_app; lia).
  assert (Forall (inside offset (offset + length (join [10%N] (raw :: raws))))
    (folds (flat_map line_spans (content_loop state' (offset + length raw + 1) raws)))) as Hlate.
  { eapply Forall_impl; [exact Hlater|]. intros r Hr. eapply inside_weaken; [exact Hr|lia|done]. }
  destruct content; [|done]. cbn [flat_map]. rewrite folds_app.
  destruct (line_spans_apart offset line) as [Hla Hli]. split.
  - apply apart_all_app. split_and!; [done|done|]. eapply inside_lists; [exact Hli|exact Hlater|lia].
  - apply Forall_app. split; [|done]. eapply Forall_impl; [exact Hli|]. intros r Hr.
    eapply inside_weaken; [exact Hr|done|lia].
Qed.

Lemma split_char_cons (sep : char) text : ∃ piece pieces, split_char sep text = piece :: pieces.
Proof.
  destruct text as [|c text]; cbn; [by eexists _, _|]. destruct (c =? sep)%N; [by eexists _, _|].
  destruct (split_char sep text); by eexists _, _.
Qed.

Lemma joined_split (sep : char) text : join [sep] (split_char sep text) = text.
Proof.
  induction text as [|c text IH]; cbn [split_char]; [done|].
  destruct (split_char_cons sep text) as (p & ps & Hp). rewrite Hp in IH |- *.
  destruct (N.eqb_spec c sep) as [-> |Hc]; [by rewrite <- IH|].
  rewrite <- IH. by destruct ps.
Qed.

(** The editor never has to hide the same text twice. In every document, the
    spans the scanner hides behind a placeholder are not empty, lie in the
    document and no two of them overlap, whatever code, comments, links,
    strikethroughs, nested emphasis, tasks with times and images its lines mix. *)
Theorem folds_never_overlap text i j a b :
  folds (conceal_spans text) !! i = Some a → folds (conceal_spans text) !! j = Some b →
  r_start a < r_end a ≤ length text ∧ (i ≠ j → overlaps a b = false).
Proof.
  destruct (content_lines_apart BlockState_default 0 (split_char 10%N text)) as [Ha Hi]. rewrite joined_split in Hi.
  change (flat_map line_spans _) with (conceal_spans text) in Ha, Hi. set (l := folds _) in *. intros Hla Hlb.
  pose proof (Forall_lookup_1 _ _ _ _ Hi Hla) as (_ & ? & ?). split; [lia|]. clear Hi.
  assert (∀ l i j a b, apart_all l → i < j → l !! i = Some a → l !! j = Some b → apart a b) as Hap.
  { clear. induction l as [|r l IH]; intros [|i] [|j] a b; cbn; try done; try lia; intros [Hr Hl] Hij Hx Hy.
    - injection Hx as ->. by eapply Forall_lookup_1 in Hy.
    - eapply (IH i j); [done|lia|done|done]. }
  intros Hne. apply overlaps_apart. destruct (lt_eq_lt_dec i j) as [[?|?]|?]; [by eapply Hap|done|].
  apply apart_sym. by eapply (Hap l j i).
Qed.
