(* ===== verification/DeskHeadings.v ===== *)
(** * Headings as the desk finds them ([thock/src/day_plan.rs])

    The names a section may be written as, the best heading for them, and the
    lines under it. Rows count lines. *)

From S2P Require Import Prelude Strings External HeadingKey MarkdownSyntax MarkdownKeys.

(** ** Levels *)

(** ATX, however far the line is indented. *)
Definition heading_level_and_text (line : str) : option (nat * str) :=
  let trimmed := trim_start line in
  let after_hashes := trim_start_matches (is_char HASH) trimmed in
  let level := length trimmed - length after_hashes in
  if (level =? 0)%nat || (6 <? level)%nat then None
  else if negb (after_hashes == []) && negb (starts_as is_blank_char after_hashes) then None
  else Some (level, trim after_hashes).

(** [max_by_key]: the last of the greatest. *)
Definition pick_level (counts : nat → nat) (best : option nat) (level : nat) : option nat :=
  match best with
  | None => Some level
  | Some b =>
      (* keys are (count, Reverse(level)); a later level is never equal *)
      if (counts b <? counts level)%nat then Some level else Some b
  end.

Definition section_heading_level (text : str) : nat :=
  let levels := omap (λ line, fst <$> heading_level_and_text line) (str_lines text) in
  match levels with
  | [] => 2
  | title_level :: rest =>
      let counts level := length (filter (λ l, l = level) rest) in
      match fold_left (pick_level counts) (filter (λ level, 0 < counts level) (seq 1 6)) None with
      | Some level => Nat.min level 5
      | None => Nat.min (Nat.max (title_level + 1) 2) 5
      end
  end.

Section names.
Context `{UnicodeTables}.

(** ** Names *)

Record HeadingNames := mkNames { lowercased : list str; keys : list str }.

Definition names_step (names : HeadingNames) (name : str) : HeadingNames :=
  let name := trim name in
  if name == [] then names
  else
    let key := heading_key name in
    mkNames (lowercased names ++ [str_to_lowercase name])
      (if negb (key == []) && negb (bool_decide (key ∈ keys names)) then keys names ++ [key] else keys names).

Definition HeadingNames_new (names : list str) : HeadingNames := fold_left names_step names (mkNames [] []).

Definition names_is_empty (names : HeadingNames) : bool := lowercased names == [].

(** [iter().position(|name| *name == wanted)] *)
Definition position_of (wanted : str) (l : list str) : option nat := fst <$> list_find (λ name, name = wanted) l.

Definition rank (names : HeadingNames) (text : str) : option nat :=
  match position_of (str_to_lowercase (trim text)) (lowercased names) with
  | Some index => Some index
  | None =>
      let key := heading_key text in
      if key == [] then None
      else
        index ← position_of key (keys names);
        Some (length (lowercased names) + index)
  end.

(** ** The best heading *)

Fixpoint best_loop (names : HeadingNames) (level : option nat) (best : option (nat * nat * nat))
    (lines : list (nat * str)) : option (nat * nat) :=
  match lines with
  | [] => (λ '(_, row, heading_level), (row, heading_level)) <$> best
  | (row, line) :: rest =>
      match heading_level_and_text line with
      | None => best_loop names level best rest
      | Some (heading_level, text) =>
          if is_some_and (λ wanted, negb (wanted =? heading_level)%nat) level
          then best_loop names level best rest
          else match rank names text with
            | None => best_loop names level best rest
            | Some r =>
                if (r =? 0)%nat then Some (row, heading_level)
                else
                  let better := match best with None => true | Some (best_rank, _, _) => (r <? best_rank)%nat end in
                  best_loop names level (if better then Some (r, row, heading_level) else best) rest
            end
      end
  end.

Definition best_heading (lines : list (nat * str)) (names : HeadingNames) (level : option nat)
  : option (nat * nat) :=
  if names_is_empty names then None else best_loop names level None lines.

Definition rows (lines : list str) : list (nat * str) := imap pair lines.

Definition heading_at_most (level : nat) (line : str) : bool :=
  is_some_and (λ '(l, _), (l <=? level)%nat) (heading_level_and_text line).

(** The rows under the heading, and its level. *)
Definition planner_section (lines : list str) (names : HeadingNames) : option (range * nat) :=
  '(start, level) ← best_heading (rows lines) names None;
  let end_ := match list_find (λ line, heading_at_most level line = true) (drop (start + 1) lines) with
    | Some (offset, _) => start + 1 + offset
    | None => length lines
    end in
  Some (mkRange (start + 1) end_, level).

(** ** What a search finds *)

(** A heading among the lines, and how well it matches. *)
Definition candidate (names : HeadingNames) (level : option nat) (entry : nat * str) (r lvl : nat) : Prop :=
  ∃ text, heading_level_and_text entry.2 = Some (lvl, text) ∧
    (∀ wanted, level = Some wanted → wanted = lvl) ∧ rank names text = Some r.

Lemma candidate_fun names level entry r lvl r' lvl' :
  candidate names level entry r lvl → candidate names level entry r' lvl' → r = r' ∧ lvl = lvl'.
Proof. intros (t & ? & _ & ?) (t' & ? & _ & ?). naive_solver. Qed.

Lemma candidate_step names level row line :
  (∀ r lvl, ¬ candidate names level (row, line) r lvl) ∧
    (∀ best rest, best_loop names level best ((row, line) :: rest) = best_loop names level best rest) ∨
  ∃ r lvl, candidate names level (row, line) r lvl ∧
    (∀ best rest, best_loop names level best ((row, line) :: rest) =
      if (r =? 0)%nat then Some (row, lvl)
      else best_loop names level
        (if match best with None => true | Some (b, _, _) => (r <? b)%nat end then Some (r, row, lvl) else best) rest).
Proof.
  cbn [best_loop]. unfold candidate. cbn [snd].
  destruct (heading_level_and_text line) as [[lvl text]|]; [|left; naive_solver].
  destruct (is_some_and _ level) eqn:El.
  { left. split; [|done]. intros r l (t & [= <- <-] & Hw & _). destruct level as [w|]; [|done]. cbn in El.
    rewrite (Hw w eq_refl), Nat.eqb_refl in El. done. }
  destruct (rank names text) as [r|] eqn:Er; [|left; naive_solver]. right. exists r, lvl. split; [|done].
  exists text. split_and!; [done| |done]. intros w ->. cbn in El. apply negb_false_iff, Nat.eqb_eq in El. done.
Qed.

(** The search keeps the earliest of the best seen so far. *)
Definition best_of (names : HeadingNames) (level : option nat) (lines : list (nat * str))
    (found : option (nat * nat * nat)) : Prop :=
  match found with
  | None => ∀ e r lvl, e ∈ lines → ¬ candidate names level e r lvl
  | Some (r, row, lvl) => ∃ before line after, lines = before ++ (row, line) :: after ∧
      candidate names level (row, line) r lvl ∧
      (∀ e r' lvl', e ∈ before → candidate names level e r' lvl' → r < r') ∧
      (∀ e r' lvl', e ∈ after → candidate names level e r' lvl' → r ≤ r')
  end.

Lemma best_of_skip names level lines best row line :
  best_of names level lines best → (∀ r lvl, ¬ candidate names level (row, line) r lvl) →
  best_of names level (lines ++ [(row, line)]) best.
Proof.
  intros Hb Hno. destruct best as [[[r0 row0] lvl0]|]; cbn.
  - destruct Hb as (before & l0 & after & -> & Hc & Hbef & Haft). exists before, l0, (after ++ [(row, line)]).
    split_and!; [by rewrite <- app_assoc|done|done|]. intros e r' lvl' [He| ->%list_elem_of_singleton]%elem_of_app Hc';
      [by eapply Haft|by destruct (Hno r' lvl')].
  - intros e r lvl [He| ->%list_elem_of_singleton]%elem_of_app; [by apply Hb|apply Hno].
Qed.

Lemma best_of_snoc names level lines best row line r lvl :
  best_of names level lines best → candidate names level (row, line) r lvl →
  best_of names level (lines ++ [(row, line)])
    (if match best with None => true | Some (b, _, _) => (r <? b)%nat end then Some (r, row, lvl) else best).
Proof.
  intros Hb Hcand. destruct best as [[[r0 row0] lvl0]|]; cbn in Hb.
  - destruct Hb as (before & l0 & after & -> & Hc & Hbef & Haft). destruct (Nat.ltb_spec r r0) as [Hlt|Hge]; cbn.
    + exists (before ++ (row0, l0) :: after), line, []. split_and!; [done|done| |by intros ? ? ? ?%not_elem_of_nil].
      intros e r' lvl' [He|[-> |He]%elem_of_cons]%elem_of_app Hc'.
      * pose proof (Hbef _ _ _ He Hc'). lia.
      * destruct (candidate_fun _ _ _ _ _ _ _ Hc Hc') as [-> _]. done.
      * pose proof (Haft _ _ _ He Hc'). lia.
    + exists before, l0, (after ++ [(row, line)]). split_and!; [by rewrite <- app_assoc|done|done|].
      intros e r' lvl' [He| ->%list_elem_of_singleton]%elem_of_app Hc'; [by eapply Haft|].
      destruct (candidate_fun _ _ _ _ _ _ _ Hcand Hc') as [-> _]. done.
  - cbn. exists lines, line, []. split_and!; [done|done| |by intros ? ? ? ?%not_elem_of_nil].
    intros e r' lvl' He Hc'. by destruct (Hb e r' lvl').
Qed.

Lemma best_loop_spec names level seen best lines :
  best_of names level seen best → (∀ r row lvl, best = Some (r, row, lvl) → 0 < r) →
  ∃ found, best_of names level (seen ++ lines) found ∧
    best_loop names level best lines = (λ '(_, row, lvl), (row, lvl)) <$> found.
Proof.
  revert seen best. induction lines as [|[row line] lines IH]; intros seen best Hb Hpos.
  { exists best. by rewrite app_nil_r. }
  destruct (candidate_step names level row line) as [[Hno Hskip]|(r & lvl & Hc & Hstep)].
  - rewrite Hskip. change ((row, line) :: lines) with ([(row, line)] ++ lines). rewrite app_assoc.
    apply IH; [by apply best_of_skip|done].
  - rewrite Hstep. destruct (Nat.eqb_spec r 0) as [-> |Hr].
    + exists (Some (0, row, lvl)). split; [|done]. exists seen, line, lines. split_and!; [done|done| |lia].
      intros e r' lvl' He Hc'. destruct best as [[[r0 row0] lvl0]|]; [|by destruct (Hb e r' lvl')].
      specialize (Hpos _ _ _ eq_refl). destruct Hb as (before & l0 & after & -> & Hc0 & Hbef & Haft).
      apply elem_of_app in He as [He|[-> |He]%elem_of_cons].
      * pose proof (Hbef _ _ _ He Hc'). lia.
      * destruct (candidate_fun _ _ _ _ _ _ _ Hc0 Hc') as [<- _]. done.
      * pose proof (Haft _ _ _ He Hc'). lia.
    + change ((row, line) :: lines) with ([(row, line)] ++ lines). rewrite app_assoc.
      apply IH; [by apply best_of_snoc|]. intros r1 row1 lvl1.
      destruct best as [[[r0 row0] lvl0]|]; [destruct (r <? r0)%nat|]; intros [= <- <- <-];
        [lia|by eapply Hpos|lia].
Qed.

(** A section is found under the best of its names. Among the headings of a
    note the search picks one that matches a name best, an exact spelling before a
    decorated one and an earlier name before a later one, and of those the first
    in the note; it finds none only where no heading matches. *)
Theorem best_heading_is_best lines names level :
  names_is_empty names = false →
  match best_heading lines names level with
  | Some (row, lvl) => ∃ before line after r, lines = before ++ (row, line) :: after ∧
      candidate names level (row, line) r lvl ∧
      (∀ e r' lvl', e ∈ before → candidate names level e r' lvl' → r < r') ∧
      (∀ e r' lvl', e ∈ after → candidate names level e r' lvl' → r ≤ r')
  | None => ∀ e r lvl, e ∈ lines → ¬ candidate names level e r lvl
  end.
Proof.
  intros Hn. unfold best_heading. rewrite Hn.
  destruct (best_loop_spec names level [] None lines) as (found & Hf & ->); [|done|].
  { by intros ? ? ? ?%not_elem_of_nil. }
  destruct found as [[[r row] lvl]|]; cbn; [|done]. destruct Hf as (before & line & after & ? & ? & ? & ?).
  by exists before, line, after, r.
Qed.
End names.
