(* ===== verification/EventMarker.v ===== *)
(** * Sync markers of calendar lines ([thock/src/calendar.rs])

    The comment a synced line ends with: the event's id and what kind of event
    it is. *)

From S2P Require Import Prelude Strings.

Definition MARKER_PREFIX : str := u "<!--gcal:".
Definition MARKER_SUFFIX : str := u "-->".

Inductive EventKind := EventDefault | FocusTime | OutOfOffice.

#[export] Instance EventKind_eq_dec : EqDecision EventKind.
Proof. solve_decision. Defined.

Definition from_google (event_type : str) : EventKind :=
  if event_type == u "focusTime" then FocusTime
  else if event_type == u "outOfOffice" then OutOfOffice
  else EventDefault.

Definition marker_suffix (k : EventKind) : option str :=
  match k with
  | EventDefault => None
  | FocusTime => Some (u "focus")
  | OutOfOffice => Some (u "ooo")
  end.

Definition from_marker_suffix (suffix : str) : option EventKind :=
  if suffix == u "focus" then Some FocusTime
  else if suffix == u "ooo" then Some OutOfOffice
  else None.

Definition is_status (k : EventKind) : bool := negb (bool_decide (k = EventDefault)).

Definition render_marker (id : str) (k : EventKind) : str :=
  MARKER_PREFIX ++ id
  ++ match marker_suffix k with Some suffix => u ":" ++ suffix | None => [] end
  ++ MARKER_SUFFIX.

Definition parse_marker_payload (payload : str) : option (str * option str) :=
  let '(id, suffix) := match split_once (u ":") payload with
    | Some (id, suffix) => (id, Some suffix)
    | None => (payload, None)
    end in
  if (id == []) || negb (forallb is_ascii_hexdigit id) then None
  else if is_some_and (λ suffix, (suffix == []) || negb (forallb is_ascii_lowercase suffix)) suffix then None
  else Some (id, suffix).

Definition line_event_kind (line : str) : EventKind :=
  let trimmed := trim_end line in
  match rfind_sub MARKER_PREFIX trimmed with
  | None => EventDefault
  | Some marker_start =>
      default EventDefault
        (payload ← strip_suffix MARKER_SUFFIX (drop (marker_start + length MARKER_PREFIX) trimmed);
         parsed ← parse_marker_payload payload;
         suffix ← snd parsed;
         from_marker_suffix suffix)
  end.

(** ** Markers are read back *)

(** An id of the syncer: hexadecimal digits. *)
Definition marker_id (id : str) : Prop := id ≠ [] ∧ Forall (λ c, is_ascii_hexdigit c = true) id.

Lemma hexdigit_not c d : is_ascii_hexdigit c = true → is_ascii_hexdigit d = false → c ≠ d.
Proof. congruence. Qed.

Lemma no_colon id : marker_id id → ch ":" ∉ id.
Proof. intros [_ Hid] Hin. rewrite Forall_forall in Hid. by specialize (Hid _ Hin). Qed.

Lemma parse_rendered_payload id k :
  marker_id id →
  parse_marker_payload (id ++ match marker_suffix k with Some suffix => u ":" ++ suffix | None => [] end)
  = Some (id, marker_suffix k).
Proof.
  intros Hid. pose proof (no_colon _ Hid) as Hc. destruct Hid as [Hne Hhex]. unfold parse_marker_payload.
  assert (forallb is_ascii_hexdigit id = true) as Hf by by apply forallb_Forall.
  destruct (marker_suffix k) as [suffix|] eqn:Ek.
  - assert (split_once (u ":") (id ++ u ":" ++ suffix) = Some (id, suffix)) as ->.
    { unfold split_once. change (u ":" ++ suffix) with (ch ":" :: suffix). change (u ":") with [ch ":"].
      rewrite find_char_app by done. cbn [mbind option_bind length]. rewrite take_app_length. f_equal. f_equal.
      rewrite drop_app_add. done. }
    rewrite bool_decide_eq_false_2 by done. rewrite Hf. cbn [negb orb is_some_and].
    destruct k; [done|by injection Ek as <-..].
  - rewrite app_nil_r. unfold split_once. change (u ":") with [ch ":"].
    rewrite (proj2 (find_char_None (ch ":") id) Hc). cbn [mbind option_bind].
    rewrite bool_decide_eq_false_2 by done. by rewrite Hf.
Qed.

Lemma from_rendered_suffix k : default EventDefault (marker_suffix k ≫= from_marker_suffix) = k.
Proof. by destruct k. Qed.
