(* ===== verification/DayPlan.v ===== *)
(** * The day planner ([thock/src/day_plan.rs])

    A note's checklist as a plan, and the plan's timed items placed in columns.
    Minutes are [u32]s and rows become [u32]s; the time tokens are in [PlanTime],
    the headings in [DeskHeadings]. *)

From stdpp Require Import gmap.
From S2P Require Import Prelude Strings External HeadingKey Reminder Mirror Ordering.
From S2P Require Import PlanTime MarkdownSyntax DeskHeadings EventMarker.

(** ** Configuration and items *)

Record DayPlannerConfig := mkPlanner {
  heading : str;
  heading_aliases : list str;
  day_start : N;
  day_end : N;
  default_duration : N;
  show_now_indicator : bool;
  section_pins : gmap str nat
}.

Definition DayPlannerConfig_default : DayPlannerConfig :=
  mkPlanner (u "Day planner") [] 360 1440 30 true ∅.

Inductive ItemTiming :=
| Timed (start_min end_min : N)
| Unscheduled
| Point (at_min : N).

#[export] Instance ItemTiming_eq_dec : EqDecision ItemTiming.
Proof. solve_decision. Defined.

Inductive ItemWeight := Normal | Status.

#[export] Instance ItemWeight_eq_dec : EqDecision ItemWeight.
Proof. solve_decision. Defined.

Definition as_u32 (n : nat) : N := (N.of_nat n mod U32_MODULUS)%N.

Section plan.
Context `{Clock} `{UnicodeTables}.

Definition heading_names (config : DayPlannerConfig) : HeadingNames :=
  HeadingNames_new (heading config :: heading_aliases config).

Record PlanItem := mkItem {
  row : N;
  done : bool;
  weight : ItemWeight;
  struck : bool;
  label : str;
  timing : ItemTiming;
  section : option str;
  reminder_min : option N;
  carried_from : option NaiveDate
}.

(** A [DayPlan] is its items. *)
Abbreviation DayPlan := (list PlanItem) (only parsing).

Definition plan_sections (plan : DayPlan) : list str :=
  fold_left (λ names item,
    match section item with
    | Some name => if bool_decide (name ∈ names) then names else names ++ [name]
    | None => names
    end) plan [].

Definition indexed {A} (l : list A) : list (nat * A) := imap pair l.

Definition unscheduled_indices (plan : DayPlan) : list nat :=
  map fst (filter (λ e, timing e.2 = Unscheduled) (indexed plan)).

Definition is_timed (t : ItemTiming) : bool := match t with Timed _ _ => true | _ => false end.

Definition has_timed_items (plan : DayPlan) : bool := existsb (λ item, is_timed (timing item)) plan.

Definition point_of (entry : nat * PlanItem) : option (nat * N) :=
  let '(index, item) := entry in
  match timing item with
  | Point at_min => Some (index, at_min)
  | _ => (λ at_min, (index, at_min)) <$> reminder_min item
  end.

(** By minute, then by index. *)
Definition point_cmp (a b : nat * N) : comparison :=
  then_with (a.2 ?= b.2)%N (a.1 ?= b.1).

Definition points (plan : DayPlan) : list (nat * N) := sort_by point_cmp (omap point_of (indexed plan)).

(** ** Reading a note *)

Record PlanReminders := mkReminders { plan_day : option NaiveDate; day_headings : list str }.

Definition parse_task_line (line : str) : option (bool * str) :=
  match trim_start line with
  | bullet :: after_bullet =>
      if negb (is_bullet_char bullet) then None
      else
        let after_space := trim_start after_bullet in
        if (length after_space =? length after_bullet)%nat then None
        else match after_space with
          | open :: mark :: close :: after_checkbox =>
              if negb (is_char LBRACKET open) then None
              else
                done ← (if is_char SPACE mark then Some false
                        else if is_char 120%N mark || is_char 88%N mark then Some true else None);
                if negb (is_char RBRACKET close) then None
                else
                  let text := trim_start after_checkbox in
                  if (length text =? length after_checkbox)%nat && negb (text == []) then None
                  else Some (done, text)
          | _ => None
          end
  | [] => None
  end.

Definition minute_of_day (time : NaiveTime) : N := (hour time * 60 + minute time)%N.

Definition token_minute (line : str) (day : option NaiveDate) : option N :=
  reminder ← parse_line line day;
  token ← lr_token reminder;
  match token_when token with
  | When_Time time => Some (minute_of_day time)
  | When_DateTime date time => if bool_decide (Some date = day) then Some (minute_of_day time) else None
  | When_Date _ => None
  end.

Definition unwrap_strikethrough (text : str) : str * bool :=
  let trimmed := trim text in
  match inline_strikethroughs trimmed with
  | [run] =>
      if bool_decide (strike_range run = mkRange 0 (length trimmed))
      then (trim (slice trimmed (strike_text run)), true) else (trimmed, false)
  | _ => (trimmed, false)
  end.

Definition strip_trailing_metadata (label : str) : str := trim_end (take (trailing_metadata_start label) label).

Definition mirror_item (row : nat) (mirror : MirrorLine) (section : option str) : PlanItem :=
  mkItem (as_u32 row) (ml_checked mirror) Normal (is_some (ml_mark mirror)) (ml_text mirror)
    (match ml_time mirror with Some time => Point (minute_of_day time) | None => Unscheduled end)
    section None (due_date <$> ml_carried mirror).

(** The item of a task's line. *)
Definition task_item (config : DayPlannerConfig) (reminders : PlanReminders) (row : nat) (line : str)
    (done : bool) (task_text : str) (section : option str) : PlanItem :=
  let weight := if is_status (line_event_kind line) then Status else Normal in
  let '(task_text, struck_line) := unwrap_strikethrough (strip_trailing_metadata task_text) in
  let '(timing, label) := match parse_leading_time task_text (default_duration config) with
    | Some (start_min, end_min, rest) => (Timed start_min end_min, rest)
    | None => (Unscheduled, task_text)
    end in
  let '(label, struck_label) := unwrap_strikethrough (strip_reminder label) in
  mkItem (as_u32 row) done weight (struck_line || struck_label) label timing section
    (token_minute line (plan_day reminders)) None.

(** What a line of the section is to the plan: the name of a subsection, an
    item, or nothing. *)
Inductive RowOf := RowSection (name : str) | RowItem (item : PlanItem) | RowNone.

Definition read_row (config : DayPlannerConfig) (reminders : PlanReminders) (planner_level : option nat)
    (current_section : option str) (row : nat) (line : str) : RowOf :=
  let subsection :=
    level ← planner_level;
    h ← heading_level_and_text line;
    if (h.1 =? level + 1)%nat then Some h.2 else None in
  match subsection with
  | Some name => RowSection name
  | None =>
      let in_day_section :=
        is_some_and (λ section, existsb (λ name, heading_matches section name) (day_headings reminders))
          current_section in
      match (if in_day_section then MirrorLine_parse line else None) with
      | Some mirror => RowItem (mirror_item row mirror current_section)
      | None =>
          match parse_task_line line with
          | None => RowNone
          | Some (done, task_text) =>
              RowItem (task_item config reminders row line done task_text current_section)
          end
      end
  end.

Definition read_step (config : DayPlannerConfig) (reminders : PlanReminders) (planner_level : option nat)
    (lines : list str) (state : DayPlan * option str) (row : nat) : DayPlan * option str :=
  match lines !! row with
  | None => state
  | Some line =>
      match read_row config reminders planner_level state.2 row line with
      | RowSection name => (state.1, Some name)
      | RowItem item => (state.1 ++ [item], state.2)
      | RowNone => state
      end
  end.

Definition plan_range (lines : list str) (names : HeadingNames) : range * option nat :=
  match planner_section lines names with
  | Some (range, level) => (range, Some level)
  | None => (mkRange 0 (length lines), None)
  end.

Definition parse_day_plan_for (text : str) (config : DayPlannerConfig) (reminders : PlanReminders) : DayPlan :=
  let lines := str_lines text in
  let '(range, planner_level) := plan_range lines (heading_names config) in
  (fold_left (read_step config reminders planner_level lines)
    (seq (r_start range) (r_end range - r_start range)) ([], None)).1.

(** ** Section colours *)

Definition U64_MODULUS : N := 2 ^ 64.

(** FNV-1a. *)
Definition fnv_step (hash byte : N) : N := (N.lxor hash byte * 0x100000001b3 mod U64_MODULUS)%N.

Definition section_palette_index (name : str) (palette_len : nat) : nat :=
  if (palette_len =? 0)%nat then 0
  else N.to_nat (fold_left fnv_step (as_bytes (str_to_lowercase (trim name))) 0xcbf29ce484222325
                 mod N.of_nat palette_len)%N.

Definition section_palette_slot (name : str) (config : DayPlannerConfig) (palette_len : nat) : nat :=
  match section_pins config !! str_to_lowercase (trim name) with
  | Some pinned => if (pinned <? palette_len)%nat then pinned else section_palette_index name palette_len
  | None => section_palette_index name palette_len
  end.

(** ** The grid *)

Definition div_ceil (n d : N) : N := ((n + (d - 1)) / d)%N.

Definition grid_item (bounds : N * N) (item : PlanItem) : N * N :=
  match timing item with
  | Timed start_min end_min => (N.min bounds.1 start_min, N.max bounds.2 end_min)
  | _ => bounds
  end.

Definition grid_point (bounds : N * N) (point : nat * N) : N * N :=
  (N.min bounds.1 point.2, N.max bounds.2 ((point.2 + 1) mod U32_MODULUS)).

Definition grid_bounds (plan : DayPlan) (config : DayPlannerConfig) : N * N :=
  let start := N.min (day_start config) (day_end config - 60) in
  let bounds := fold_left grid_item plan (start, day_end config) in
  let '(start, end_) := fold_left grid_point (points plan) bounds in
  (start / 60 * 60, div_ceil end_ 60 * 60 mod U32_MODULUS)%N.

(** ** Columns *)

Record PlacedBlock := mkBlock {
  item_index : nat;
  start_min : N;
  end_min : N;
  column : nat;
  column_count : nat
}.

Definition block_of (wanted : ItemWeight) (entry : nat * PlanItem) : option PlacedBlock :=
  if bool_decide (weight entry.2 = wanted) then
    match timing entry.2 with
    | Timed start_min end_min => Some (mkBlock entry.1 start_min end_min 0 1)
    | _ => None
    end
  else None.

Definition block_cmp (a b : PlacedBlock) : comparison :=
  then_with (start_min a ?= start_min b)%N (end_min a ?= end_min b)%N.

Definition visual_end (min_visual : N) (b : PlacedBlock) : N :=
  N.max (end_min b) ((start_min b + min_visual) mod U32_MODULUS).

Definition set_column (column : nat) (b : PlacedBlock) : PlacedBlock :=
  mkBlock (item_index b) (start_min b) (end_min b) column (column_count b).
Definition set_count (count : nat) (b : PlacedBlock) : PlacedBlock :=
  mkBlock (item_index b) (start_min b) (end_min b) (column b) count.

(** The leftmost column free at the block's start, or a new one. *)
Definition place (min_visual : N) (state : list N * list PlacedBlock) (b : PlacedBlock)
  : list N * list PlacedBlock :=
  let '(column_ends, placed) := state in
  match list_find (λ end_, (end_ <= start_min b)%N) column_ends with
  | Some (column, _) =>
      (<[column := visual_end min_visual b]> column_ends, placed ++ [set_column column b])
  | None =>
      (column_ends ++ [visual_end min_visual b], placed ++ [set_column (length column_ends) b])
  end.

Definition assign_columns (cluster : list PlacedBlock) (min_visual : N) : list PlacedBlock :=
  let '(column_ends, placed) := fold_left (place min_visual) cluster ([], []) in
  map (set_count (Nat.max (length column_ends) 1)) placed.

(** The loop over the sorted blocks: a cluster ends where a block starts past
    everything in it. *)
Fixpoint lay_clusters (min_visual : N) (cluster : list PlacedBlock) (cluster_max_end : N)
    (blocks : list PlacedBlock) : list PlacedBlock :=
  match blocks with
  | [] => assign_columns cluster min_visual
  | b :: rest =>
      if negb (length cluster =? 0)%nat && (cluster_max_end <=? start_min b)%N
      then assign_columns cluster min_visual
           ++ lay_clusters min_visual [b] (N.max 0 (visual_end min_visual b)) rest
      else lay_clusters min_visual (cluster ++ [b]) (N.max cluster_max_end (visual_end min_visual b)) rest
  end.

Definition layout_lane (plan : DayPlan) (wanted : ItemWeight) (min_visual : N) : list PlacedBlock :=
  lay_clusters min_visual [] 0 (sort_by block_cmp (omap (block_of wanted) (indexed plan))).

Definition layout_blocks (plan : DayPlan) (min_visual : N) : list PlacedBlock :=
  layout_lane plan Normal min_visual ++ layout_lane plan Status min_visual.

Definition has_status_blocks (plan : DayPlan) : bool :=
  existsb (λ item, bool_decide (weight item = Status) && is_timed (timing item)) plan.
End plan.
