(* ===== verification/DayPlanTheory.v ===== *)
(** * The day planner, from note to grid

    The columns of a lane: no two blocks drawn side by side in one column overlap,
    none is lost, and no column is there without need. What [parse_day_plan_for]
    keeps of a note, and the extent of its grid. *)

From stdpp Require Import sorting.
From S2P Require Import Prelude Strings External HeadingKey Reminder Mirror Ordering.
From S2P Require Import PlanTime MarkdownSyntax MarkdownKeys DeskHeadings EventMarker DayPlan.

(** ** The columns of a lane *)

Section layout.
Context (min_visual : N).
Notation ve := (visual_end min_visual).

(** A block that is on the grid at a minute. *)
Definition live (t : N) (b : PlacedBlock) : Prop := (start_min b <= t < ve b)%N.

#[global] Instance live_dec t b : Decision (live t b).
Proof. unfold live. apply _. Defined.

Definition block_ok (b : PlacedBlock) : Prop := (start_min b < end_min b)%N.

Definition by_start (a b : PlacedBlock) : Prop := (start_min a <= start_min b)%N.

(** Blocks in order, none overlapping an earlier one of its column. *)
Fixpoint separate (l : list PlacedBlock) : Prop :=
  match l with
  | [] => True
  | b :: rest => Forall (λ b', column b = column b' → (ve b <= start_min b')%N) rest ∧ separate rest
  end.

Lemma separate_app a b :
  separate (a ++ b) ↔ separate a ∧ separate b ∧
  ∀ x y, x ∈ a → y ∈ b → column x = column y → (ve x <= start_min y)%N.
Proof.
  induction a as [|x a IH]; cbn.
  - split; [intros; split_and!; [done|done|by intros ? ? ?%not_elem_of_nil]|naive_solver].
  - rewrite Forall_app, IH, !Forall_forall. setoid_rewrite elem_of_cons. naive_solver.
Qed.

Lemma ve_end b : (end_min b <= ve b)%N.
Proof. unfold visual_end. lia. Qed.

(** ** One cluster *)

(** The columns while a cluster is laid out. *)
Record columns_ok (ends : list N) (placed : list PlacedBlock) : Prop := {
  columns_bound : Forall (λ b, column b < length ends) placed;
  columns_separate : separate placed;
  columns_ends : ∀ b e, b ∈ placed → ends !! column b = Some e → (ve b <= e)%N;
  columns_last : ∀ c e, ends !! c = Some e → ∃ b, b ∈ placed ∧ column b = c ∧ ve b = e;
  columns_needed : placed ≠ [] → ∃ t, length ends ≤ length (filter (live t) placed)
}.

Definition same_block (a b : PlacedBlock) : Prop :=
  item_index a = item_index b ∧ start_min a = start_min b ∧ end_min a = end_min b.

Lemma ve_same a b : same_block a b → ve a = ve b.
Proof. intros (_ & Hs & He). unfold visual_end. by rewrite Hs, He. Qed.

Lemma same_set_column c b : same_block (set_column c b) b.
Proof. by split_and!. Qed.

Lemma live_enough t placed n :
  (∀ c, c < n → ∃ b, b ∈ placed ∧ column b = c ∧ live t b) → n ≤ length (filter (live t) placed).
Proof.
  intros Hc. rewrite <- (length_seq n 0), <- (length_map column (filter (live t) placed)).
  apply NoDup_incl_length; [apply List.seq_NoDup|]. intros c Hin%in_seq. destruct (Hc c) as (b & Hb & <- & Hl); [lia|].
  apply in_map, list_elem_of_In, list_elem_of_filter. done.
Qed.

Lemma place_reused ends placed b column e :
  columns_ok ends placed → block_ok b → (∀ p, p ∈ placed → by_start p b) →
  ends !! column = Some e → (e <= start_min b)%N →
  columns_ok (<[column := ve b]> ends) (placed ++ [set_column column b]).
Proof.
  intros [Hb Hs He Hl Hn] Hok Hafter Hc Hle. pose proof (lookup_lt_Some _ _ _ Hc) as Hlt.
  assert (ve (set_column column b) = ve b) as Hve by done. split; rewrite ?length_insert.
  - apply Forall_app. split; [done|]. by apply Forall_singleton.
  - apply separate_app. split_and!; [done|done|]. intros x y Hx ->%list_elem_of_singleton Hcol. cbn in Hcol |- *.
    rewrite <- Hcol in Hc. specialize (He x e Hx Hc). lia.
  - intros x e' [Hx| ->%list_elem_of_singleton]%elem_of_app Hx'.
    + destruct (decide (DayPlan.column x = column)) as [Heq|Hne].
      * rewrite Heq, list_lookup_insert_eq in Hx' by done. injection Hx' as <-. rewrite <- Heq in Hc.
        specialize (He x e Hx Hc). pose proof (ve_end b). unfold block_ok in Hok. lia.
      * rewrite list_lookup_insert_ne in Hx' by done. by eapply He.
    + cbn [DayPlan.column set_column] in Hx'. rewrite list_lookup_insert_eq in Hx' by done. injection Hx' as <-. lia.
  - intros c e' Hc'. destruct (decide (column = c)) as [<-|Hne].
    + rewrite list_lookup_insert_eq in Hc' by done. injection Hc' as <-. exists (set_column column b). set_solver.
    + rewrite list_lookup_insert_ne in Hc' by done. destruct (Hl c e' Hc') as (x & Hx & ? & ?). exists x. set_solver.
  - intros _. destruct Hn as [t Ht]; [intros ->; destruct (Hl column e Hc) as (x & Hx%not_elem_of_nil & _); done|].
    exists t. rewrite filter_app, length_app. lia.
Qed.

Lemma place_new ends placed b :
  columns_ok ends placed → block_ok b → (∀ p, p ∈ placed → by_start p b) →
  (∀ c e, ends !! c = Some e → (start_min b < e)%N) →
  columns_ok (ends ++ [ve b]) (placed ++ [set_column (length ends) b]).
Proof.
  intros [Hb Hs He Hl Hn] Hok Hafter Hbusy. rewrite Forall_forall in Hb. split; rewrite ?length_app; cbn [length].
  - apply Forall_app. split; [|apply Forall_singleton; cbn; lia]. apply Forall_forall. intros x Hx.
    specialize (Hb x Hx). cbn in Hb. lia.
  - apply separate_app. split_and!; [done|done|]. intros x y Hx ->%list_elem_of_singleton Hcol. cbn in Hcol.
    specialize (Hb x Hx). cbn in Hb. lia.
  - intros x e' [Hx| ->%list_elem_of_singleton]%elem_of_app Hx'.
    + rewrite lookup_app_l in Hx' by by apply Hb. by eapply He.
    + cbn [column set_column] in Hx'. rewrite list_lookup_middle in Hx' by done. injection Hx' as <-.
      change (ve (set_column (length ends) b)) with (ve b). lia.
  - intros c e' [Hc'|[Hge Hc']]%lookup_app_Some.
    + destruct (Hl c e' Hc') as (x & Hx & ? & ?). exists x. set_solver.
    + apply list_lookup_singleton_Some in Hc' as [Hz <-]. exists (set_column (length ends) b).
      split_and!; [set_solver|cbn; lia|done].
  - intros _. exists (start_min b). apply live_enough. intros c Hc.
    destruct (decide (c = length ends)) as [-> |Hne].
    + exists (set_column (length ends) b). split_and!; [set_solver|done|]. unfold live.
      change (ve (set_column (length ends) b)) with (ve b). pose proof (ve_end b). unfold block_ok in Hok. cbn. lia.
    + destruct (lookup_lt_is_Some_2 ends c) as [e' He']; [lia|]. destruct (Hl c e' He') as (x & Hx & ? & Hv).
      exists x. split_and!; [set_solver|done|]. specialize (Hafter x Hx). specialize (Hbusy c e' He').
      unfold live, by_start in *. lia.
Qed.

Lemma place_ok ends placed b :
  columns_ok ends placed → block_ok b → (∀ p, p ∈ placed → by_start p b) →
  ∃ ends' column, place min_visual (ends, placed) b = (ends', placed ++ [set_column column b]) ∧
    columns_ok ends' (placed ++ [set_column column b]).
Proof.
  intros Hok Hb Hafter. unfold place. destruct (list_find _ _) as [[column e]|] eqn:E.
  - apply list_find_Some in E as (Hc & Hle & _). eexists _, column. split; [done|]. by eapply place_reused.
  - eexists _, (length ends). split; [done|]. apply place_new; [done..|]. intros c e Hc.
    apply list_find_None in E. eapply Forall_lookup_1 in E; [|exact Hc]. cbn in E. lia.
Qed.

Lemma place_fold ends placed cluster :
  columns_ok ends placed → Forall block_ok cluster → StronglySorted by_start cluster →
  (∀ p b, p ∈ placed → b ∈ cluster → by_start p b) →
  ∃ ends' placed', fold_left (place min_visual) cluster (ends, placed) = (ends', placed ++ placed') ∧
    columns_ok ends' (placed ++ placed') ∧ Forall2 same_block placed' cluster.
Proof.
  revert ends placed. induction cluster as [|b cluster IH]; intros ends placed Hok Hb Hs Hafter.
  { exists ends, []. rewrite app_nil_r. by split_and!. }
  apply Forall_cons in Hb as [Hb Hbs]. apply StronglySorted_inv in Hs as [Hs Hle]. rewrite Forall_forall in Hle.
  destruct (place_ok ends placed b Hok Hb) as (ends1 & c & Hp & Hok1); [intros; apply Hafter; set_solver|].
  destruct (IH ends1 (placed ++ [set_column c b]) Hok1 Hbs Hs) as (ends' & placed' & Hf & Hok' & H2).
  { intros p x [Hp'| ->%list_elem_of_singleton]%elem_of_app Hx; [apply Hafter; set_solver|].
    specialize (Hle x Hx). done. }
  exists ends', (set_column c b :: placed'). cbn [fold_left]. rewrite Hp, Hf, <- app_assoc. split; [done|].
  rewrite <- app_assoc in Hok'. split; [done|]. constructor; [apply same_set_column|done].
Qed.

(** What is true of blocks once laid out. *)
Record laid_out (l blocks : list PlacedBlock) : Prop := {
  laid_same : Forall2 same_block l blocks;
  laid_separate : separate l;
  laid_column : Forall (λ b, column b < column_count b) l;
  laid_needed : ∀ b, b ∈ l → ∃ t, column_count b ≤ length (filter (live t) l)
}.

Lemma live_set_count n t l : length (filter (live t) (map (set_count n) l)) = length (filter (live t) l).
Proof.
  induction l as [|b l IH]; [done|]. cbn [map]. rewrite !filter_cons.
  change (live t (set_count n b)) with (live t b). destruct (decide (live t b)); cbn; by rewrite IH.
Qed.

Lemma separate_set_count n l : separate l → separate (map (set_count n) l).
Proof.
  induction l as [|b l IH]; cbn; [done|]. intros [Hb Hl]. split; [|by apply IH]. apply Forall_map.
  eapply Forall_impl; [exact Hb|]. done.
Qed.

Lemma assign_columns_ok cluster :
  Forall block_ok cluster → StronglySorted by_start cluster →
  laid_out (assign_columns cluster min_visual) cluster.
Proof.
  intros Hb Hs. assert (columns_ok [] []) as H0.
  { split; [constructor|done|by intros ? ? ?%not_elem_of_nil|done|done]. }
  destruct (place_fold [] [] cluster H0 Hb Hs) as (ends & placed & Hf & [Hcol Hsep He Hl Hn] & H2).
  { by intros ? ? ?%not_elem_of_nil. }
  unfold assign_columns. rewrite Hf. cbn [app] in *. split.
  - clear -H2. induction H2; cbn; constructor; done.
  - by apply separate_set_count.
  - apply Forall_map. eapply Forall_impl; [exact Hcol|]. cbn. intros. lia.
  - intros b (b' & -> & Hb')%list_elem_of_fmap. destruct Hn as [t Ht]; [by intros ->; apply not_elem_of_nil in Hb'|].
    exists t. rewrite live_set_count. cbn [set_count column_count]. rewrite Forall_forall in Hcol.
    specialize (Hcol b' Hb'). cbn in Hcol. lia.
Qed.

Lemma laid_app a b blocks blocks' :
  laid_out a blocks → laid_out b blocks' → (∀ x y, x ∈ a → y ∈ b → (ve x <= start_min y)%N) →
  laid_out (a ++ b) (blocks ++ blocks').
Proof.
  intros [A1 A2 A3 A4] [B1 B2 B3 B4] Hab. split.
  - by apply Forall2_app.
  - apply separate_app. split_and!; [done|done|]. intros x y Hx Hy _. by apply Hab.
  - by apply Forall_app.
  - intros x [Hx|Hx]%elem_of_app; [destruct (A4 x Hx) as [t Ht]|destruct (B4 x Hx) as [t Ht]]; exists t;
      rewrite filter_app, length_app; lia.
Qed.

Lemma same_block_in l blocks x :
  Forall2 same_block l blocks → x ∈ l → ∃ b, b ∈ blocks ∧ same_block x b.
Proof.
  intros H2 [i Hi]%list_elem_of_lookup. destruct (Forall2_lookup_l _ _ _ _ _ H2 Hi) as (b & Hb & Hs).
  exists b. split; [by eapply list_elem_of_lookup_2|done].
Qed.

Lemma lay_clusters_ok cluster max_end blocks :
  Forall block_ok (cluster ++ blocks) → StronglySorted by_start (cluster ++ blocks) →
  Forall (λ b, (ve b <= max_end)%N) cluster →
  laid_out (lay_clusters min_visual cluster max_end blocks) (cluster ++ blocks).
Proof.
  revert cluster max_end. induction blocks as [|b blocks IH]; intros cluster max_end Hb Hs Hmax; cbn [lay_clusters].
  { rewrite app_nil_r in *. by apply assign_columns_ok. }
  destruct (_ && _) eqn:E.
  - apply andb_true_iff in E as [_ E]. apply N.leb_le in E. pose proof Hb as [Hb1 Hb2]%Forall_app.
    assert (StronglySorted by_start cluster ∧ StronglySorted by_start (b :: blocks)) as [Hs1 Hs2].
    { clear -Hs. induction cluster as [|c cluster IHc]; [by split; [constructor|]|].
      apply StronglySorted_inv in Hs as [Hs Hall]. destruct (IHc Hs). split; [|done]. constructor; [done|].
      by apply Forall_app in Hall as [? _]. }
    pose proof (IH [b] (N.max 0 (ve b)) Hb2 Hs2 ltac:(apply Forall_singleton; lia)) as Hlater.
    apply laid_app; [by apply assign_columns_ok|exact Hlater|]. intros x y Hx Hy.
    destruct (same_block_in _ _ _ (laid_same _ _ (assign_columns_ok _ Hb1 Hs1)) Hx) as (x' & Hx' & Hsx).
    destruct (same_block_in _ _ _ (laid_same _ _ Hlater) Hy) as (y' & Hy' & (_ & Hsy & _)).
    rewrite (ve_same _ _ Hsx), Hsy. rewrite Forall_forall in Hmax. specialize (Hmax x' Hx'). cbn in Hmax.
    apply elem_of_app in Hy' as [->%list_elem_of_singleton|Hy']; [lia|].
    apply StronglySorted_inv in Hs2 as [_ Hall]. rewrite Forall_forall in Hall. specialize (Hall y' Hy').
    unfold by_start in Hall. lia.
  - replace (cluster ++ b :: blocks) with ((cluster ++ [b]) ++ blocks) in * by by rewrite <- app_assoc.
    apply IH; [done|done|]. apply Forall_app. split; [|apply Forall_singleton; lia].
    eapply Forall_impl; [exact Hmax|]. cbn. intros; lia.
Qed.
End layout.

(** ** A lane *)

Section lanes.
Context `{Clock} `{UnicodeTables}.

#[export] Instance block_cmp_total : TotalCmp block_cmp.
Proof.
  unfold block_cmp. apply (then_with_total (λ a b, (start_min a ?= start_min b)%N) (λ a b, (end_min a ?= end_min b)%N));
    apply on_total, N_compare_total.
Qed.

Lemma block_cmp_start a b : cmp_le block_cmp a b → by_start a b.
Proof.
  unfold cmp_le, block_cmp, then_with, by_start. destruct (N.compare_spec (start_min a) (start_min b)); [lia|lia|done].
Qed.

Definition plan_ok (plan : list PlanItem) : Prop :=
  ∀ item s e, item ∈ plan → timing item = Timed s e → (s < e)%N.

Definition lane_blocks (plan : list PlanItem) (wanted : ItemWeight) : list PlacedBlock :=
  omap (block_of wanted) (indexed plan).

Lemma lane_blocks_ok plan wanted : plan_ok plan → Forall block_ok (lane_blocks plan wanted).
Proof.
  intros Hok. apply Forall_forall. intros b ([i item] & Hin & Hb)%list_elem_of_omap.
  unfold block_of in Hb. destruct (bool_decide _); [|done]. cbn [snd fst] in Hb.
  destruct (timing item) as [s e| |] eqn:Et; [|done|done]. injection Hb as <-. unfold block_ok. cbn.
  eapply Hok; [|exact Et]. unfold indexed in Hin. apply elem_of_lookup_imap in Hin as (j & y & [= <- <-] & Hy).
  by eapply list_elem_of_lookup_2.
Qed.

Lemma layout_lane_ok plan wanted min_visual :
  plan_ok plan →
  laid_out min_visual (layout_lane plan wanted min_visual) (sort_by block_cmp (lane_blocks plan wanted)).
Proof.
  intros Hok. unfold layout_lane. fold (lane_blocks plan wanted).
  apply (lay_clusters_ok min_visual [] 0); [| |constructor]; cbn [app].
  - rewrite sort_by_Permutation. by apply lane_blocks_ok.
  - pose proof (sort_by_sorted block_cmp block_cmp (lane_blocks plan wanted)) as Hs.
    assert (StronglySorted (cmp_le block_cmp) (sort_by block_cmp (lane_blocks plan wanted))) as Hss.
    { apply Hs; [intros x y; apply cmp_opp|done]. }
    clear -Hss. induction Hss as [|b l Hss IH Hall]; constructor; [done|].
    eapply Forall_impl; [exact Hall|]. intros b'. apply block_cmp_start.
Qed.

Definition place_of (b : PlacedBlock) : nat * N * N := (item_index b, start_min b, end_min b).

Lemma lane_blocks_spec plan wanted i s e :
  (i, s, e) ∈ map place_of (lane_blocks plan wanted) ↔
  ∃ item, plan !! i = Some item ∧ weight item = wanted ∧ timing item = Timed s e.
Proof.
  unfold lane_blocks, indexed. rewrite list_elem_of_fmap. split.
  - intros (b & Hb & ([j item] & Hin & Hof)%list_elem_of_omap).
    apply elem_of_lookup_imap in Hin as (j' & y & [= <- <-] & Hy). unfold block_of in Hof. cbn [fst snd] in Hof.
    destruct (bool_decide_reflect (weight item = wanted)); [|done].
    destruct (timing item) as [s' e'| |] eqn:Et; [|done..]. injection Hof as <-. injection Hb as -> -> ->. by exists item.
  - intros (item & Hi & Hw & Ht). exists (mkBlock i s e 0 1). split; [done|]. apply list_elem_of_omap.
    exists (i, item). split; [apply elem_of_lookup_imap; by exists i, item|].
    unfold block_of. cbn [fst snd]. by rewrite bool_decide_eq_true_2, Ht.
Qed.

Lemma block_indices wanted entries :
  map item_index (omap (block_of wanted) entries) `sublist_of` entries.*1.
Proof.
  induction entries as [|[i item] entries IH]; [done|]. cbn.
  destruct (block_of wanted (i, item)) as [b|] eqn:E; [|by apply sublist_cons]. cbn.
  assert (item_index b = i) as ->; [|by apply sublist_skip].
  unfold block_of in E. destruct (bool_decide _); [|done]. destruct (timing _); [|done..]. by injection E as <-.
Qed.

Lemma lane_blocks_NoDup plan wanted : NoDup (map item_index (lane_blocks plan wanted)).
Proof.
  eapply sublist_NoDup; [|apply block_indices]. unfold indexed.
  assert ((imap pair plan).*1 = seq 0 (length plan)) as ->; [|apply NoDup_seq].
  rewrite fmap_imap, <- (list_fmap_id (seq 0 (length plan))). apply (imap_seq_0 plan id).
Qed.

(** C28: every timed task has its place on the grid, and no place is shared. Let every timed item of the plan end after
    it starts. In each lane there is a block, at the item's times, for each timed item of the lane and for nothing
    else, and no item has two; two blocks of one column never overlap, however short they are drawn; a block's column is
    one of its cluster's, and a cluster has no more columns than blocks that overlap at one minute. *)
Theorem blocks_have_room plan wanted min_visual :
  plan_ok plan →
  let l := layout_lane plan wanted min_visual in
  (∀ i s e, (i, s, e) ∈ map place_of l ↔
     ∃ item, plan !! i = Some item ∧ weight item = wanted ∧ timing item = Timed s e) ∧
  NoDup (map item_index l) ∧
  (∀ i j a b, i < j → l !! i = Some a → l !! j = Some b → column a = column b →
    (visual_end min_visual a <= start_min b)%N) ∧
  (∀ b, b ∈ l → column b < column_count b ∧
    ∃ t, column_count b ≤ length (filter (live min_visual t) l)).
Proof.
  intros Hok l. destruct (layout_lane_ok plan wanted min_visual Hok) as [L1 L2 L3 L4]. fold l in L1, L2, L3, L4.
  assert (map place_of l ≡ₚ map place_of (lane_blocks plan wanted)) as Hplaces.
  { rewrite <- (sort_by_Permutation block_cmp (lane_blocks plan wanted)).
    clear -L1. induction L1 as [|a b k k' (E1 & E2 & E3) Hk IH]; cbn; [done|]. unfold place_of at 1 3.
    rewrite E1, E2, E3. by constructor. }
  split_and!.
  - intros i s e. rewrite Hplaces. apply lane_blocks_spec.
  - assert (∀ k, map item_index k = map (λ p : nat * N * N, p.1.1) (map place_of k)) as Hidx
      by (intros k; by rewrite map_map).
    rewrite Hidx, Hplaces, <- Hidx. apply lane_blocks_NoDup.
  - clear -L2. induction l as [|x l IH]; [done|]. destruct L2 as [Hx Hl]. intros [|i] [|j] a b Hij; try lia; cbn.
    + intros [= <-] Hb. by eapply Forall_lookup_1 in Hx.
    + apply IH; [done|lia].
  - intros b Hb. rewrite Forall_forall in L3. split; [by apply L3|by apply L4].
Qed.
End lanes.

Section plan.
Context `{clock : Clock} `{tables : UnicodeTables}.

(** ** Items *)

(** What is true of each item of a plan: its times are times of the day. *)
Definition item_ok (item : PlanItem) : Prop :=
  match timing item with
  | Timed s e => (s < e <= MINUTES_PER_DAY)%N
  | _ => True
  end.

Definition durations_ok (config : DayPlannerConfig) : Prop :=
  (0 < default_duration config <= U32_MODULUS - MINUTES_PER_DAY)%N.

Lemma task_item_ok config reminders row line d text section :
  durations_ok config → item_ok (task_item config reminders row line d text section).
Proof.
  intros Hd. unfold task_item. destruct (unwrap_strikethrough _) as [task_text s].
  destruct (parse_leading_time _ _) as [[[start end_] rest]|] eqn:E;
    destruct (unwrap_strikethrough _); [|done]. unfold item_ok. cbn. by eapply leading_time_bounds.
Qed.

Lemma mirror_item_ok row mirror section : item_ok (mirror_item row mirror section).
Proof. unfold item_ok, mirror_item. cbn. by destruct (ml_time mirror). Qed.

Lemma task_item_row config reminders n line d text section :
  row (task_item config reminders n line d text section) = as_u32 n.
Proof.
  unfold task_item. destruct (unwrap_strikethrough _). destruct (parse_leading_time _ _) as [[[? ?] ?]|];
    by destruct (unwrap_strikethrough _).
Qed.

(** A task's line is no heading. *)
Lemma task_no_heading line t h : parse_task_line line = Some t → heading_level_and_text line = Some h → False.
Proof.
  unfold parse_task_line, heading_level_and_text. destruct (trim_start line) as [|b s]; [done|].
  destruct (is_bullet_char b) eqn:Eb; [|done]. intros _. cbn [trim_start_matches].
  destruct (is_char HASH b) eqn:Eh.
  - unfold is_char in Eh. apply N.eqb_eq in Eh as <-. by vm_compute in Eb.
  - by rewrite Nat.sub_diag.
Qed.

Lemma read_row_task config reminders level section n line t :
  parse_task_line line = Some t →
  ∃ item, read_row config reminders level section n line = RowItem item ∧ row item = as_u32 n.
Proof.
  intros Ht. unfold read_row.
  assert ((l ← level; h ← heading_level_and_text line; if (h.1 =? l + 1)%nat then Some h.2 else None) = None) as ->.
  { destruct level as [l|]; [|done]. cbn [mbind option_bind].
    destruct (heading_level_and_text line) eqn:Eh; [|done]. by destruct (task_no_heading _ _ _ Ht Eh). }
  destruct (if _ : bool then _ else _) as [mirror|]; [by eexists|]. rewrite Ht. destruct t as [d text].
  eexists. split; [done|]. apply task_item_row.
Qed.

Lemma read_row_item config reminders level section n line item :
  durations_ok config → read_row config reminders level section n line = RowItem item →
  item_ok item ∧ row item = as_u32 n.
Proof.
  intros Hd. unfold read_row. destruct (level ≫= _) as [name|]; [done|].
  destruct (if _ : bool then _ else _) as [mirror|].
  - intros [= <-]. split; [apply mirror_item_ok|done].
  - destruct (parse_task_line line) as [[d text]|]; [|done]. intros [= <-].
    split; [by apply task_item_ok|apply task_item_row].
Qed.

Lemma read_fold config reminders level lines rows state :
  durations_ok config →
  ∃ new, (fold_left (read_step config reminders level lines) rows state).1 = state.1 ++ new ∧
    map row new `sublist_of` map as_u32 rows ∧ Forall item_ok new ∧
    ∀ n line t, n ∈ rows → lines !! n = Some line → parse_task_line line = Some t → as_u32 n ∈ map row new.
Proof.
  intros Hd. revert state. induction rows as [|n rows IH]; intros state; cbn [fold_left].
  { exists []. rewrite app_nil_r. split_and!; [done|done|constructor|by intros ? ? ? ?%not_elem_of_nil]. }
  assert ((∃ item, read_step config reminders level lines state n = (state.1 ++ [item], state.2) ∧
      item_ok item ∧ row item = as_u32 n) ∨
    ((read_step config reminders level lines state n).1 = state.1 ∧
      ∀ line t, lines !! n = Some line → parse_task_line line ≠ Some t)) as [(item & Hs & Hok & Hr)|[Hs Hno]].
  { unfold read_step. destruct (lines !! n) as [line|] eqn:El; [|right; naive_solver].
    destruct (read_row _ _ _ _ _ _) as [name|item|] eqn:Er.
    - right. split; [done|]. intros line' t [= <-] Ht. destruct (read_row_task config reminders level state.2 n _ _ Ht)
        as (item & Hi & _). congruence.
    - left. exists item. split; [done|]. by eapply read_row_item.
    - right. split; [done|]. intros line' t [= <-] Ht. destruct (read_row_task config reminders level state.2 n _ _ Ht)
        as (item & Hi & _). congruence. }
  - destruct (IH (read_step config reminders level lines state n)) as (new & Hf & Hsub & Hall & Htask).
    rewrite Hf, Hs. exists (item :: new). cbn [fst]. rewrite <- app_assoc. split_and!; [done| | |].
    + cbn. rewrite Hr. by apply sublist_skip.
    + by constructor.
    + intros m line t [-> |Hm]%elem_of_cons Hl Ht; cbn; [rewrite Hr; set_solver|].
      apply elem_of_cons. right. by eapply Htask.
  - destruct (IH (read_step config reminders level lines state n)) as (new & Hf & Hsub & Hall & Htask).
    rewrite Hf, Hs. exists new. split_and!; [done|by apply sublist_cons|done|].
    intros m line t [-> |Hm]%elem_of_cons Hl Ht; [by destruct (Hno line t)|by eapply Htask].
Qed.

Lemma parse_day_plan_spec text config reminders :
  durations_ok config →
  let lines := str_lines text in
  let range := (plan_range lines (heading_names config)).1 in
  let rows := seq (r_start range) (r_end range - r_start range) in
  let plan := parse_day_plan_for text config reminders in
  map row plan `sublist_of` map as_u32 rows ∧ Forall item_ok plan ∧
  ∀ n line t, n ∈ rows → lines !! n = Some line → parse_task_line line = Some t → as_u32 n ∈ map row plan.
Proof.
  intros Hd lines range rows plan. subst plan. unfold parse_day_plan_for. fold lines.
  destruct (plan_range lines (heading_names config)) as [range' level] eqn:E. subst range rows. cbn [fst].
  destruct (read_fold config reminders level lines (seq (r_start range') (r_end range' - r_start range')) ([], None) Hd)
    as (new & -> & Hnew). exact Hnew.
Qed.

Lemma item_ok_plan plan : Forall item_ok plan → plan_ok plan.
Proof.
  rewrite Forall_forall. intros Hall item s e Hin Ht. specialize (Hall item Hin). unfold item_ok in Hall.
  rewrite Ht in Hall. lia.
Qed.

(** No task of the day is dropped, and each is somewhere. Whatever the note,
    every checkbox line of the planner's section is an item of the plan, however
    its time is written; items come in the order of their rows, one for a row at
    most; and every timed item, its times within the day, has a block on the
    grid. *)
Theorem every_task_is_planned text config reminders min_visual :
  durations_ok config →
  let lines := str_lines text in
  let range := (plan_range lines (heading_names config)).1 in
  let rows := seq (r_start range) (r_end range - r_start range) in
  let plan := parse_day_plan_for text config reminders in
  map row plan `sublist_of` map as_u32 rows ∧
  (∀ n line t, n ∈ rows → lines !! n = Some line → parse_task_line line = Some t → as_u32 n ∈ map row plan) ∧
  ∀ i item s e, plan !! i = Some item → timing item = Timed s e →
    (s < e <= MINUTES_PER_DAY)%N ∧
    ∃ b, b ∈ layout_blocks plan min_visual ∧ item_index b = i ∧ start_min b = s ∧ end_min b = e.
Proof.
  intros Hd lines range rows plan. destruct (parse_day_plan_spec text config reminders Hd) as (Hsub & Hok & Htask).
  split_and!; [exact Hsub|exact Htask|]. intros i item s e Hi Ht. fold plan in Hok.
  pose proof (Forall_lookup_1 _ _ _ _ Hok Hi) as Hitem. unfold item_ok in Hitem. rewrite Ht in Hitem. split; [done|].
  assert (mkBlock i s e 0 1 ∈ lane_blocks plan (weight item)) as Hb.
  { apply list_elem_of_omap. exists (i, item). split; [by apply elem_of_lookup_imap_2 with (f := pair)|].
    unfold block_of. cbn [fst snd]. by rewrite bool_decide_eq_true_2, Ht. }
  rewrite <- (sort_by_Permutation block_cmp) in Hb.
  pose proof (laid_same _ _ _ (layout_lane_ok plan (weight item) min_visual (item_ok_plan _ Hok))) as Hsame.
  apply list_elem_of_lookup in Hb as [k Hk]. destruct (Forall2_lookup_r _ _ _ _ _ Hsame Hk) as (b & Hlb & (Hi' & Hs & He)).
  exists b. split_and!; [|done..]. apply elem_of_app. apply list_elem_of_lookup_2 in Hlb.
  destruct (weight item); [by left|by right].
Qed.

(** ** The grid *)

Lemma div_ceil_spec n : (n <= div_ceil n 60 * 60 < n + 60)%N.
Proof.
  unfold div_ceil. change (60 - 1)%N with 59%N. pose proof (N.div_mod' (n + 59) 60).
  pose proof (N.mod_lt (n + 59) 60 ltac:(lia)). set (q := ((n + 59) / 60)%N) in *.
  set (r := ((n + 59) mod 60)%N) in *. clearbody q r. lia.
Qed.

Definition extends (a b : N * N) : Prop := (b.1 <= a.1 ∧ a.2 <= b.2)%N.

Lemma extends_trans a b c : extends a b → extends b c → extends a c.
Proof. unfold extends. lia. Qed.

Lemma grid_items_spec plan bounds :
  Forall item_ok plan → (bounds.2 <= MINUTES_PER_DAY)%N →
  let r := fold_left grid_item plan bounds in
  extends bounds r ∧ (r.2 <= MINUTES_PER_DAY)%N ∧
  ∀ item s e, item ∈ plan → timing item = Timed s e → (r.1 <= s ∧ e <= r.2)%N.
Proof.
  revert bounds. induction plan as [|item plan IH]; intros bounds Hok Hb; cbn [fold_left].
  { split_and!; [unfold extends; lia|done|by intros ? ? ? ?%not_elem_of_nil]. }
  apply Forall_cons in Hok as [Hi Hok].
  assert (extends bounds (grid_item bounds item) ∧ ((grid_item bounds item).2 <= MINUTES_PER_DAY)%N ∧
    ∀ s e, timing item = Timed s e → ((grid_item bounds item).1 <= s ∧ e <= (grid_item bounds item).2)%N) as (H1 & H2 & H3).
  { unfold grid_item, item_ok, extends in *. destruct (timing item); cbn; split_and!; try lia; naive_solver lia. }
  destruct (IH (grid_item bounds item) Hok H2) as (H4 & H5 & H6). split_and!; [by eapply extends_trans|done|].
  intros x s e [-> |Hx]%elem_of_cons Ht; [|by eapply H6]. specialize (H3 _ _ Ht). unfold extends in H4. lia.
Qed.

Lemma grid_points_spec pts bounds :
  Forall (λ p, p.2 < MINUTES_PER_DAY)%N pts → (bounds.2 <= MINUTES_PER_DAY)%N →
  let r := fold_left grid_point pts bounds in
  extends bounds r ∧ (r.2 <= MINUTES_PER_DAY)%N ∧ ∀ p, p ∈ pts → (r.1 <= p.2 < r.2)%N.
Proof.
  revert bounds. induction pts as [|p pts IH]; intros bounds Hok Hb; cbn [fold_left].
  { split_and!; [unfold extends; lia|done|by intros ? ?%not_elem_of_nil]. }
  apply Forall_cons in Hok as [Hp Hok]. unfold MINUTES_PER_DAY in *.
  assert ((p.2 + 1) mod U32_MODULUS = p.2 + 1)%N as Hmod by (apply N.mod_small; change U32_MODULUS with 4294967296%N; lia).
  assert (extends bounds (grid_point bounds p) ∧ (grid_point bounds p).2 <= 1440 ∧
    (grid_point bounds p).1 <= p.2 < (grid_point bounds p).2)%N as (H1 & H2 & H3).
  { unfold extends, grid_point. cbn [fst snd]. rewrite Hmod. lia. }
  destruct (IH (grid_point bounds p) Hok H2) as (H4 & H5 & H6). unfold extends in *.
  split_and!; [lia|lia|done|]. intros x [-> |Hx]%elem_of_cons; [lia|by apply H6].
Qed.

(** The grid shows everything on the plan. It runs from a whole hour to a
    whole hour of the day, at least over the configured hours, and every timed
    item and every reminder's minute lies on it. *)
Theorem grid_shows_everything plan config :
  Forall item_ok plan → Forall (λ p, p.2 < MINUTES_PER_DAY)%N (points plan) → (day_end config <= MINUTES_PER_DAY)%N →
  let '(top, bottom) := grid_bounds plan config in
  (top mod 60 = 0 ∧ bottom mod 60 = 0 ∧ bottom <= MINUTES_PER_DAY)%N ∧
  (top <= day_start config ∧ day_end config <= bottom)%N ∧
  (∀ item s e, item ∈ plan → timing item = Timed s e → (top <= s ∧ e <= bottom)%N) ∧
  (∀ p, p ∈ points plan → (top <= p.2 < bottom)%N).
Proof.
  intros Hok Hpts Hend. unfold grid_bounds. set (start := N.min _ _).
  destruct (grid_items_spec plan (start, day_end config) Hok Hend) as (I1 & I2 & I3).
  set (bounds := fold_left grid_item _ _) in *. destruct (grid_points_spec (points plan) bounds Hpts I2) as (P1 & P2 & P3).
  destruct (fold_left grid_point _ _) as [s e]. cbn [fst snd] in *. unfold extends in *. cbn [fst snd] in *.
  pose proof (div_ceil_spec e) as Hc. pose proof (N.Div0.mul_div_le s 60) as Hf. unfold MINUTES_PER_DAY in *.
  assert (div_ceil e 60 <= 24)%N as H24.
  { unfold div_ceil. apply N.lt_succ_r, N.Div0.div_lt_upper_bound. lia. }
  rewrite (N.mod_small (div_ceil e 60 * 60)) by (change U32_MODULUS with 4294967296%N; lia).
  split_and!; [apply N.Div0.mod_mul|apply N.Div0.mod_mul|lia|lia|lia| |].
  - intros item s' e' Hin Ht. destruct (I3 _ _ _ Hin Ht). lia.
  - intros p Hp. specialize (P3 p Hp). lia.
Qed.
End plan.
