(* ===== verification/EventSync.v ===== *)
(** * Calendar events in the daily note ([thock/src/calendar.rs])

    The reconciler that keeps the planner's calendar subsection in line with the
    day's events: the grammar of a synced line, the edits, and their application.
    Positions in a line count characters. *)

From S2P Require Import Prelude Strings External HeadingKey Ordering.
From S2P Require Import PlanTime MarkdownSyntax DeskHeadings EventMarker.

Definition CANCELLED_SUFFIX : str := u "~~ (cancelled)".

Record CalendarEvent := mkEvent {
  event_id : str;
  event_title : str;
  event_time : option (N * N);
  event_kind : EventKind
}.

(** What [reconcile] reads of the configuration. *)
Record CalendarConfig := mkCalendarConfig { config_section : str; planner_heading : list str }.

Definition with_planner_heading (name : str) : CalendarConfig := mkCalendarConfig (u "Calendar") [name].

Inductive LineEditKind := Insert (text : str) | Replace (text : str).
Record LineEdit := mkEdit { edit_row : nat; edit_kind : LineEditKind }.

Record Divergence := mkDivergence { div_id : str; div_line : str; div_title : str }.

Inductive Reconciled :=
| NoPlannerSection
| NoSectionRoom
| Edits (edits : list LineEdit) (diverged : list Divergence).

(** ** Events as lines *)

Definition sort_start (time : option (N * N)) : option N := fst <$> time.

Definition option_cmp (a b : option N) : comparison :=
  match a, b with
  | None, None => Eq
  | None, Some _ => Lt
  | Some _, None => Gt
  | Some a, Some b => (a ?= b)%N
  end.

(** The order of the keys of [event_sort_key]. *)
Definition event_cmp (a b : CalendarEvent) : comparison :=
  then_with (option_cmp (sort_start (event_time a)) (sort_start (event_time b)))
    (then_with (option_cmp (snd <$> event_time a) (snd <$> event_time b))
      (then_with (str_cmp (event_title a) (event_title b)) (str_cmp (event_id a) (event_id b)))).

Definition is_line_break (c : char) : bool := (c =? 10)%N || (c =? 13)%N.

Definition sanitize_title (title : str) : str :=
  trim (join (u " ") (filter (λ part, part ≠ []) (map trim (split_by is_line_break (replace (u "<!--") [] title))))).

Definition format_time_token (start end_ : N) : str := show_clock start ++ u " - " ++ show_clock end_.

Definition render_synced_line (event : CalendarEvent) : str :=
  u "- [ ] "
  ++ match event_time event with
     | Some (start, end_) => format_time_token start end_ ++ u " "
     | None => []
     end
  ++ (if event_title event == [] then [] else event_title event ++ u " ")
  ++ render_marker (event_id event) (event_kind event).

(** ** Synced lines *)

Record SyncedLine := mkSynced {
  sl_row : nat;
  sl_line : str;
  sl_id : str;
  sl_sort_start : option N;
  sl_token : option range;
  sl_text : range;
  sl_marker : range;
  sl_suffix : option str
}.

(** Where the text of a checkbox line starts. *)
Definition checkbox_text_offset (line : str) : option nat :=
  match trim_start line with
  | bullet :: after_bullet =>
      if negb (is_bullet_char bullet) then None
      else
        let after_space := trim_start after_bullet in
        if (length after_space =? length after_bullet)%nat then None
        else match after_space with
          | open :: mark :: close :: after_checkbox =>
              if negb (is_char LBRACKET open) then None
              else if negb (is_char SPACE mark || is_char 120%N mark || is_char 88%N mark) then None
              else if negb (is_char RBRACKET close) then None
              else
                let text := trim_start after_checkbox in
                if (length text =? length after_checkbox)%nat && negb (text == []) then None
                else Some (length line - length text)
          | _ => None
          end
  | [] => None
  end.

Definition ends_token (after : str) : bool := (after == []) || starts_as is_whitespace after.

(** The start minute and the length of a leading time. *)
Definition leading_time_token (text : str) : option (N * nat) :=
  match parse_time_prefix text with
  | None => None
  | Some (start, after_start) =>
      match (match parse_range_end after_start with
             | Some (_, after_end) => if ends_token after_end then Some (start, length text - length after_end) else None
             | None => None
             end) with
      | Some token => Some token
      | None => if ends_token after_start then Some (start, length text - length after_start) else None
      end
  end.

Definition SyncedLine_parse (row : nat) (line : str) : option SyncedLine :=
  let trimmed := trim_end line in
  marker_start ← rfind_sub MARKER_PREFIX trimmed;
  payload ← strip_suffix MARKER_SUFFIX (drop (marker_start + length MARKER_PREFIX) trimmed);
  id_suffix ← parse_marker_payload payload;
  text_offset ← checkbox_text_offset line;
  let before_marker := slice line (mkRange text_offset marker_start) in
  let '(sort_start, token_len) := match leading_time_token before_marker with
    | Some (start, len) => (Some start, len)
    | None => (None, 0)
    end in
  let token_span := if (0 <? token_len)%nat then Some (mkRange text_offset (text_offset + token_len)) else None in
  let after_token := slice line (mkRange (text_offset + token_len) marker_start) in
  let text_start := text_offset + token_len + (length after_token - length (trim_start after_token)) in
  Some (mkSynced row line id_suffix.1 sort_start token_span
    (mkRange text_start (text_start + length (trim after_token)))
    (mkRange marker_start (length trimmed)) id_suffix.2).

Definition marker_update_for (s : SyncedLine) (k : EventKind) : option str :=
  if bool_decide (sl_suffix s = marker_suffix k) then None
  else if is_some_and (λ suffix, is_none (from_marker_suffix suffix)) (sl_suffix s) then None
  else Some (render_marker (sl_id s) k).

Definition text_of (s : SyncedLine) : str := slice (sl_line s) (sl_text s).
Definition token_of (s : SyncedLine) : option str := slice (sl_line s) <$> sl_token s.

(** What is struck and what follows, of a line marked as cancelled. *)
Definition cancelled_parts (s : SyncedLine) : option (str * str) :=
  text ← strip_prefix (u "~~") (text_of s);
  end_ ← find_sub CANCELLED_SUFFIX text;
  Some (take end_ text, drop (end_ + length CANCELLED_SUFFIX) text).

Definition is_cancelled (s : SyncedLine) : bool := is_some (cancelled_parts s).

(** The line with what stands between checkbox and marker replaced. *)
Definition rebuilt (s : SyncedLine) (token : option str) (text : str) (marker : option str) : str :=
  let content_start := match sl_token s with Some span => r_start span | None => r_start (sl_text s) end in
  let content := match token with
    | Some token => token ++ (if text == [] then [] else u " ")
    | None => []
    end ++ text in
  take content_start (sl_line s) ++ content
  ++ slice (sl_line s) (mkRange (r_end (sl_text s)) (r_start (sl_marker s)))
  ++ default (slice (sl_line s) (sl_marker s)) marker
  ++ drop (r_end (sl_marker s)) (sl_line s).

Definition cancelled_form (s : SyncedLine) : str :=
  rebuilt s (token_of s) (u "~~" ++ text_of s ++ CANCELLED_SUFFIX) None.

(** What follows the title; nothing where the user rewrote it. *)
Definition title_trailing (text event_title : str) : option str :=
  if event_title == [] then Some text
  else
    rest ← strip_prefix event_title text;
    if ends_token rest then Some rest else None.

Definition updated_for (s : SyncedLine) (event : CalendarEvent) : option str :=
  let expected_token := (λ '(start, end_), format_time_token start end_) <$> event_time event in
  let marker := marker_update_for s (event_kind event) in
  match cancelled_parts s with
  | Some (_, trailing) => Some (rebuilt s expected_token (trim_end (event_title event ++ trailing)) marker)
  | None =>
      trailing ← title_trailing (text_of s) (event_title event);
      if bool_decide (token_of s = expected_token) then
        Some (match marker with
          | Some marker => rebuilt s (token_of s) (text_of s) (Some marker)
          | None => sl_line s
          end)
      else Some (rebuilt s expected_token (trim_end (event_title event ++ trailing)) marker)
  end.

(** ** The section *)

Section reconcile.
Context `{UnicodeTables}.

Definition planner_heading_names (config : CalendarConfig) : HeadingNames :=
  HeadingNames_new (planner_heading config).

Definition is_blank_line (line : str) : bool := trim line == [].

(** The rows of a range, with their lines. *)
Definition rows_of (lines : list str) (r : range) : list (nat * str) :=
  filter (λ e, range_contains r e.1 = true) (rows lines).

Definition find_child_section (lines : list str) (planner_range : range) (planner_level : nat) (section : str)
  : option range :=
  let child_level := planner_level + 1 in
  '(start, _) ← best_heading (rows_of lines planner_range) (HeadingNames_new [section]) (Some child_level);
  let end_ := match list_find (λ e, heading_at_most child_level e.2 = true)
      (rows_of lines (mkRange (start + 1) (r_end planner_range))) with
    | Some (_, (row, _)) => row
    | None => r_end planner_range
    end in
  Some (mkRange (start + 1) end_).

Definition after_last_content_row (lines : list str) (r : range) : nat :=
  match last (filter (λ e, is_blank_line e.2 = false) (rows_of lines r)) with
  | Some (row, _) => row + 1
  | None => r_start r
  end.

Definition section_creation_edits (lines : list str) (planner_range : range) (planner_level : nat)
    (section : str) (events : list CalendarEvent) : list LineEdit :=
  let row := r_end planner_range in
  let blank_before := if (0 <? row)%nat && is_some_and (λ line, negb (is_blank_line line)) (lines !! (row - 1))
    then [[]] else [] in
  let block := blank_before
    ++ [replicate (planner_level + 1) HASH ++ u " " ++ section; []]
    ++ map render_synced_line (sort_by event_cmp events)
    ++ (if is_some_and (λ next, negb (is_blank_line next)) (lines !! row) then [[]] else []) in
  map (λ text, mkEdit row (Insert text)) block.

(** ** Reconciling *)

(** The first event of each id. *)
Definition dedup_step (events : list CalendarEvent) (event : CalendarEvent) : list CalendarEvent :=
  if bool_decide (event_id event ∈ map event_id events) then events
  else events ++ [mkEvent (event_id event) (sanitize_title (event_title event)) (event_time event) (event_kind event)].

Definition dedup_events (events : list CalendarEvent) : list CalendarEvent := fold_left dedup_step events [].

(** [lines_by_id.get(id)]: the first synced line of an id. *)
Definition line_by_id (synced : list SyncedLine) (id : str) : option SyncedLine :=
  snd <$> list_find (λ s, sl_id s = id) synced.

(** The edits, divergences and inserts of the loop over the events. *)
Definition event_step (synced : list SyncedLine) (acc : list LineEdit * list Divergence * list CalendarEvent)
    (event : CalendarEvent) : list LineEdit * list Divergence * list CalendarEvent :=
  let '(edits, diverged, inserts) := acc in
  match line_by_id synced (event_id event) with
  | None => (edits, diverged, inserts ++ [event])
  | Some line =>
      match updated_for line event with
      | Some replacement =>
          (if bool_decide (replacement = sl_line line) then edits
           else edits ++ [mkEdit (sl_row line) (Replace replacement)], diverged, inserts)
      | None => (edits, diverged ++ [mkDivergence (event_id event) (sl_line line) (event_title event)], inserts)
      end
  end.

Definition option_gt (a b : option N) : bool := match option_cmp a b with Gt => true | _ => false end.

Definition insert_edit (synced : list SyncedLine) (fallback_row : nat) (event : CalendarEvent) : LineEdit :=
  let key := sort_start (event_time event) in
  let row := match list_find (λ s, option_gt (sl_sort_start s) key = true) synced with
    | Some (_, s) => sl_row s
    | None => fallback_row
    end in
  mkEdit row (Insert (render_synced_line event)).

Definition row_cmp (a b : LineEdit) : comparison := (edit_row a ?= edit_row b).

Definition synced_lines (lines : list str) (r : range) : list SyncedLine :=
  omap (λ e, SyncedLine_parse e.1 e.2) (rows_of lines r).

Definition section_edits (lines : list str) (section_range : range) (events : list CalendarEvent)
  : list LineEdit * list Divergence :=
  let synced := synced_lines lines section_range in
  let '(edits, diverged, inserts) := fold_left (event_step synced) events ([], [], []) in
  let cancelled := omap (λ s,
    if negb (bool_decide (sl_id s ∈ map event_id events)) && negb (is_cancelled s)
    then Some (mkEdit (sl_row s) (Replace (cancelled_form s))) else None) synced in
  let inserted := map (insert_edit synced (after_last_content_row lines section_range)) (sort_by event_cmp inserts) in
  (sort_by row_cmp (edits ++ cancelled ++ inserted), diverged).

Definition reconcile (note : str) (events : list CalendarEvent) (config : CalendarConfig) : Reconciled :=
  let lines := str_lines note in
  match planner_section lines (planner_heading_names config) with
  | None => NoPlannerSection
  | Some (planner_range, planner_level) =>
      let events := dedup_events events in
      match find_child_section lines planner_range planner_level (config_section config) with
      | None =>
          if bool_decide (events = []) then Edits [] []
          else if (6 <=? planner_level)%nat then NoSectionRoom
          else Edits (section_creation_edits lines planner_range planner_level (config_section config) events) []
      | Some section_range =>
          let '(edits, diverged) := section_edits lines section_range events in
          Edits edits diverged
      end
  end.

(** ** Applying edits *)

Definition inserts_at (edits : list LineEdit) (row : nat) : list str :=
  omap (λ e, match edit_kind e with
    | Insert text => if (edit_row e =? row)%nat then Some text else None
    | Replace _ => None
    end) edits.

(** The last replacement of a row. *)
Definition replacement_at (edits : list LineEdit) (row : nat) : option str :=
  last (omap (λ e, match edit_kind e with
    | Replace text => if (edit_row e =? row)%nat then Some text else None
    | Insert _ => None
    end) edits).

(** Rows past the end that something is inserted at, in order. *)
Definition trailing_rows (edits : list LineEdit) (count : nat) : list nat :=
  sort_by Nat.compare (remove_dups (omap (λ e, match edit_kind e with
    | Insert _ => if (count <=? edit_row e)%nat then Some (edit_row e) else None
    | Replace _ => None
    end) edits)).

Definition edited_row (edits : list LineEdit) (row : nat) (line : str) : list str :=
  inserts_at edits row ++ [default line (replacement_at edits row)].

Definition edited_lines (lines : list str) (edits : list LineEdit) : list str :=
  concat (imap (edited_row edits) lines)
  ++ flat_map (inserts_at edits) (trailing_rows edits (length lines)).

Definition apply_line_edits (note : str) (edits : list LineEdit) : str :=
  let text := join [10%N] (edited_lines (str_lines note) edits) in
  if ends_with [10%N] note || ((note == []) && negb (text == [])) then text ++ [10%N] else text.
End reconcile.
