(* ===== verification/EventSyncTheory.v ===== *)
(** * The calendar settles

    One pass of [reconcile] is enough: what it writes it reads back, and finds
    nothing more to do; and it writes over its own lines only. First the grammar
    of a calendar line ([SyncedLine]), taken apart and put together: a checkbox, a
    time token, the text, the marker. *)

From stdpp Require Import sorting.
From S2P Require Import Prelude Strings External HeadingKey Ordering.
From S2P Require Import PlanTime MarkdownSyntax MarkdownBlocks DeskHeadings EventMarker EventSync.

Abbreviation spaces w := (Forall (λ c, is_whitespace c = true) w).

(** ** White space *)

Lemma trim_start_head s : starts_as is_whitespace (trim_start s) = false.
Proof. apply trim_start_matches_no_head. Qed.

Lemma trim_start_id s : starts_as is_whitespace s = false → trim_start s = s.
Proof. intros Hs. apply trim_start_matches_id. by destruct s. Qed.

Lemma trim_split s :
  ∃ lead tail, s = lead ++ trim s ++ tail ∧ spaces lead ∧ spaces tail ∧ length lead = length s - length (trim_start s).
Proof.
  destruct (trim_start_matches_app is_whitespace s) as (lead & Hl & Hw). fold (trim_start s) in Hl.
  destruct (trim_end_matches_app is_whitespace (trim_start s)) as (tail & Ht & Hw').
  exists lead, tail. split_and!; [|done|done|].
  - rewrite Hl at 1. f_equal. exact Ht.
  - rewrite Hl at 1. rewrite length_app. lia.
Qed.

Lemma trim_end_spaces s w : spaces w → trim_end (s ++ w) = trim_end s.
Proof. apply trim_end_matches_app_all. Qed.

Lemma trim_end_last_char s c : is_whitespace c = false → trim_end (s ++ [c]) = s ++ [c].
Proof. intros Hc. apply (trim_end_last _ c); [|done]. by rewrite last_snoc. Qed.

Lemma starts_as_app f a b : a ≠ [] → starts_as f (a ++ b) = starts_as f a.
Proof. by destruct a. Qed.

(** ** The checkbox *)

Record box_shape (line : str) (off : nat) : Prop := {
  box_parts : ∃ a b sp mark sp', line = a ++ b :: sp ++ LBRACKET :: mark :: RBRACKET :: sp' ++ drop off line ∧
    spaces a ∧ is_bullet_char b = true ∧ spaces sp ∧ sp ≠ [] ∧
    (is_char SPACE mark || is_char 120%N mark || is_char 88%N mark) = true ∧ spaces sp' ∧
    off = length (a ++ b :: sp ++ LBRACKET :: mark :: RBRACKET :: sp') ∧
    (drop off line = [] ∨ sp' ≠ []);
  box_text : starts_as is_whitespace (drop off line) = false
}.

Lemma is_bullet_no_space b : is_bullet_char b = true → is_whitespace b = false.
Proof.
  unfold is_bullet_char, is_char.
  intros [[<-%N.eqb_eq | <-%N.eqb_eq]%orb_true_iff | <-%N.eqb_eq]%orb_true_iff; reflexivity.
Qed.

Lemma checkbox_shape line off : checkbox_text_offset line = Some off → box_shape line off.
Proof.
  unfold checkbox_text_offset. destruct (trim_start_matches_app is_whitespace line) as (a & Hl & Ha).
  fold (trim_start line) in Hl. destruct (trim_start line) as [|b s] eqn:Es; [done|].
  destruct (is_bullet_char b) eqn:Eb; [|done]. cbn [negb].
  destruct (trim_start_matches_app is_whitespace s) as (sp & Hs & Hsp). fold (trim_start s) in Hs.
  destruct (Nat.eqb_spec (length (trim_start s)) (length s)) as [?|Hne]; [done|].
  destruct (trim_start s) as [|o [|mark [|c after]]] eqn:Et; [done..|].
  destruct (is_char LBRACKET o) eqn:Eo; [|done]. apply N.eqb_eq in Eo as <-.
  destruct (_ || _) eqn:Em; [|done]. cbn [negb].
  destruct (is_char RBRACKET c) eqn:Ec; [|done]. apply N.eqb_eq in Ec as <-. cbn [negb].
  destruct (trim_start_matches_app is_whitespace after) as (sp' & Haf & Hsp'). fold (trim_start after) in Haf.
  destruct (_ && _) eqn:Ex; [done|]. intros [= <-].
  set (front := a ++ b :: sp ++ LBRACKET :: mark :: RBRACKET :: sp').
  assert (line = front ++ trim_start after) as Hline.
  { rewrite Hl, Hs. subst front. rewrite Haf at 1. rewrite <- !app_assoc. cbn [app]. by rewrite <- !app_assoc. }
  assert (length line - length (trim_start after) = length front) as Hoff by (rewrite Hline, length_app; lia).
  assert (drop (length line - length (trim_start after)) line = trim_start after) as Hd.
  { rewrite Hoff, Hline at 1. apply drop_app_length. }
  split; rewrite Hd; [|apply trim_start_head].
  exists a, b, sp, mark, sp'. split_and!; try done.
  - rewrite Hline at 1. subst front. rewrite <- !app_assoc. cbn [app]. by rewrite <- !app_assoc.
  - intros ->. by rewrite Hs in Hne.
  - apply andb_false_iff in Ex as [Ex|Ex].
    + right. intros ->. cbn [app] in Haf. by rewrite <- Haf, Nat.eqb_refl in Ex.
    + left. by apply negb_false_iff, bool_decide_eq_true in Ex.
Qed.

Lemma shape_checkbox a b sp mark sp' text :
  spaces a → is_bullet_char b = true → spaces sp → sp ≠ [] →
  (is_char SPACE mark || is_char 120%N mark || is_char 88%N mark) = true → spaces sp' →
  (text = [] ∨ sp' ≠ []) → starts_as is_whitespace text = false →
  checkbox_text_offset (a ++ b :: sp ++ LBRACKET :: mark :: RBRACKET :: sp' ++ text)
  = Some (length (a ++ b :: sp ++ LBRACKET :: mark :: RBRACKET :: sp')).
Proof.
  intros Ha Hb Hsp Hne Hm Hsp' Htext Hnw. unfold checkbox_text_offset, trim_start.
  rewrite (trim_start_matches_app_head _ a); [|done|cbn; by apply is_bullet_no_space]. rewrite Hb. cbn [negb].
  rewrite (trim_start_matches_app_head _ sp) by done. rewrite (proj2 (Nat.eqb_neq _ _)).
  2: { rewrite length_app. destruct sp; [done|]. cbn. lia. }
  change (is_char LBRACKET LBRACKET) with true. change (is_char RBRACKET RBRACKET) with true. rewrite Hm. cbn [negb].
  rewrite (trim_start_matches_app_head _ sp') by done.
  assert ((length text =? length (sp' ++ text))%nat && negb (text == []) = false) as ->.
  { destruct Htext as [-> |Hsn]; [apply andb_false_r|]. rewrite (proj2 (Nat.eqb_neq _ _)); [done|].
    rewrite length_app. destruct sp'; [done|]. cbn. lia. }
  f_equal. repeat (rewrite !length_app; cbn [length]). lia.
Qed.

(** What stands before the text does not depend on it. *)
Lemma checkbox_other_text line off rest :
  checkbox_text_offset line = Some off → drop off line ≠ [] → starts_as is_whitespace rest = false →
  checkbox_text_offset (take off line ++ rest) = Some off.
Proof.
  intros H Hne Hrest. apply checkbox_shape in H as [(a & b & sp & mark & sp' & Hline & Ha & Hb & Hsp & Hspn & Hm & Hsp' & Hoff & Hor) _].
  destruct Hor as [?|Hor]; [done|].
  assert (take off line = a ++ b :: sp ++ LBRACKET :: mark :: RBRACKET :: sp') as ->.
  { rewrite Hline, Hoff. set (front := a ++ b :: sp ++ LBRACKET :: mark :: RBRACKET :: sp').
    replace (a ++ b :: sp ++ LBRACKET :: mark :: RBRACKET :: sp' ++ drop (length front) line)
      with (front ++ drop (length front) line); [apply take_app_length|].
    subst front. rewrite <- !app_assoc. cbn [app]. by rewrite <- !app_assoc. }
  rewrite Hoff. rewrite <- !app_assoc. cbn [app]. rewrite <- !app_assoc. cbn [app].
  apply shape_checkbox; try done. by right.
Qed.

Lemma space_not_lt c : is_whitespace c = true → c ≠ ch "<".
Proof. intros H ->. by vm_compute in H. Qed.

Lemma spaces_no_lt w : spaces w → ch "<" ∉ w.
Proof. rewrite Forall_forall. intros Hw Hin. by apply (space_not_lt _ (Hw _ Hin)). Qed.

(** No comment opens before a task's text. *)
Lemma checkbox_no_lt line off : checkbox_text_offset line = Some off → off ≤ length line ∧ ch "<" ∉ take off line.
Proof.
  intros H. apply checkbox_shape in H as [(a & b & sp & mark & sp' & Hline & Ha & Hb & Hsp & _ & Hm & Hsp' & Hoff & _) _].
  set (front := a ++ b :: sp ++ LBRACKET :: mark :: RBRACKET :: sp') in *.
  assert (line = front ++ drop off line) as Hl.
  { rewrite Hline at 1. subst front. rewrite <- !app_assoc. cbn [app]. by rewrite <- !app_assoc. }
  split; [rewrite Hl, length_app; lia|]. rewrite Hl, Hoff, take_app_length. subst front.
  apply spaces_no_lt in Ha, Hsp, Hsp'. rewrite !not_elem_of_app, !not_elem_of_cons, not_elem_of_app, !not_elem_of_cons.
  split_and!; try done.
  - intros <-. by vm_compute in Hb.
  - intros <-. by vm_compute in Hm.
Qed.

(** ** The marker *)

Lemma rfind_mark c p a b : c ∉ p → c ∉ b → rfind_sub (c :: p) (a ++ (c :: p) ++ b) = Some (length a).
Proof.
  intros Hp Hb. pose proof (rsplit_once_mark c [] p a b Hp Hb) as H. cbn [app] in H. unfold rsplit_once in H.
  destruct (rfind_sub (c :: p) (a ++ c :: p ++ b)) as [i|] eqn:E; [|done].
  change (c :: p ++ b) with ((c :: p) ++ b) in E. rewrite E. apply rfind_sub_Some in E as (_ & Hl & _).
  cbn [mbind option_bind] in H. injection H as Ha _. f_equal. rewrite <- Ha at 1. rewrite length_take. cbn in *. lia.
Qed.

Definition marker_of (payload : str) : str := MARKER_PREFIX ++ payload ++ MARKER_SUFFIX.

Lemma payload_no_lt payload id suffix : parse_marker_payload payload = Some (id, suffix) → ch "<" ∉ payload.
Proof.
  unfold parse_marker_payload. destruct (split_once (u ":") payload) as [[i sfx]|] eqn:Es.
  - destruct ((i == []) || _) eqn:Ei; [done|]. cbn [is_some_and]. destruct ((sfx == []) || _) eqn:Ex; [done|].
    intros [= <- <-] Hin.
    apply orb_false_iff in Ei as [_ Ei]. apply negb_false_iff, forallb_Forall in Ei.
    apply orb_false_iff in Ex as [_ Ex]. apply negb_false_iff, forallb_Forall in Ex.
    apply split_once_Some in Es as (Hp & _). rewrite Hp in Hin. rewrite Forall_forall in Ei. rewrite Forall_forall in Ex.
    rewrite !elem_of_app in Hin. destruct Hin as [Hin|[Hin|Hin]].
    + by specialize (Ei _ Hin).
    + by vm_compute in Hin; apply list_elem_of_singleton in Hin.
    + by specialize (Ex _ Hin).
  - destruct (_ || _) eqn:Ei; [done|]. cbn [is_some_and]. intros [= <- <-] Hin.
    apply orb_false_iff in Ei as [_ Ei]. apply negb_false_iff, forallb_Forall in Ei. rewrite Forall_forall in Ei.
    by specialize (Ei _ Hin).
Qed.

Lemma trim_end_marker a payload w : spaces w → trim_end (a ++ marker_of payload ++ w) = a ++ marker_of payload.
Proof.
  intros Hw. rewrite app_assoc, trim_end_spaces by done. unfold marker_of.
  change MARKER_SUFFIX with (u "--" ++ [ch ">"]). rewrite !app_assoc. by apply trim_end_last_char.
Qed.

(** ** Parsing, piece by piece *)

Definition token_length (before : str) : nat :=
  match leading_time_token before with Some (_, len) => len | None => 0 end.

(** The synced line of a checkbox's front, what stands before the marker, the
    marker and the white space after it. *)
Definition synced (row : nat) (pre before marker w id : str) (suffix : option str) : SyncedLine :=
  let len := token_length before in
  let after := drop len before in
  let text_start := length pre + len + (length after - length (trim_start after)) in
  mkSynced row (pre ++ before ++ marker ++ w) id (fst <$> leading_time_token before)
    (if (0 <? len)%nat then Some (mkRange (length pre) (length pre + len)) else None)
    (mkRange text_start (text_start + length (trim after)))
    (mkRange (length pre + length before) (length pre + length before + length marker)) suffix.

Lemma slice_middle pre before rest k :
  k ≤ length before →
  slice (pre ++ before ++ rest) (mkRange (length pre + k) (length pre + length before)) = drop k before.
Proof.
  intros Hk. unfold slice. cbn [r_start r_end]. rewrite drop_app_add, drop_app_le by done.
  rewrite take_app_length'; [done|]. rewrite length_drop. lia.
Qed.

Lemma parse_time_prefix_shorter text m after :
  parse_time_prefix text = Some (m, after) → length after < length text.
Proof.
  unfold parse_time_prefix. set (h := Nat.min 2 _). destruct (h =? 0)%nat; [done|].
  destruct (negb _); [done|]. destruct (Nat.ltb_spec (length text) (h + 3)); [done|]. destruct (negb _); [done|].
  intros (? & _ & (? & _ & Hq)%bind_Some)%bind_Some. revert Hq. destruct (_ || _); [done|]. intros [= _ <-].
  rewrite length_drop. lia.
Qed.

Lemma leading_time_token_len text start len :
  leading_time_token text = Some (start, len) → 0 < len ≤ length text.
Proof.
  unfold leading_time_token. destruct (parse_time_prefix text) as [[m after]|] eqn:Et; [|done].
  pose proof (parse_time_prefix_shorter _ _ _ Et) as Ha.
  destruct (parse_range_end after) as [[e after_end]|] eqn:Er.
  - assert (length after_end < length text) as Hae.
    { revert Er. unfold parse_range_end. destruct (strip_any _ _) as [rest|] eqn:Es; [|done]. cbn [mbind option_bind].
      assert (length rest ≤ length after) as Hr.
      { unfold strip_any in Es. apply find_map_Some in Es as (p & _ & Hs). apply strip_prefix_Some in Hs.
        destruct (trim_start_matches_app is_whitespace after) as (x & Hx & _). fold (trim_start after) in Hx.
        rewrite Hx, Hs. rewrite !length_app. lia. }
      destruct (trim_start_matches_app is_whitespace rest) as (x & Hx & _). fold (trim_start rest) in Hx.
      apply (f_equal length) in Hx. rewrite length_app in Hx.
      destruct (strip_prefix (u "24:00") _) as [r|] eqn:Ex.
      - intros [= _ <-]. apply strip_prefix_Some in Ex. apply (f_equal length) in Ex. rewrite length_app in Ex. lia.
      - intros H. destruct (parse_time_prefix (trim_start rest)) as [[m' a']|] eqn:Ep; [|done]. injection H as _ <-.
        apply parse_time_prefix_shorter in Ep. lia. }
    destruct (ends_token after_end); [intros [= _ <-]; lia|]. destruct (ends_token after); [intros [= _ <-]; lia|done].
  - destruct (ends_token after); [intros [= _ <-]; lia|done].
Qed.

Lemma token_length_le before : token_length before ≤ length before.
Proof.
  unfold token_length. destruct (leading_time_token before) as [[s l]|] eqn:E; [|lia].
  by apply leading_time_token_len in E as [_ ?].
Qed.

Lemma parse_synced row pre before payload w id suffix :
  checkbox_text_offset (pre ++ before ++ marker_of payload ++ w) = Some (length pre) → spaces w →
  parse_marker_payload payload = Some (id, suffix) →
  SyncedLine_parse row (pre ++ before ++ marker_of payload ++ w)
  = Some (synced row pre before (marker_of payload) w id suffix).
Proof.
  intros Hbox Hw Hp. set (line := pre ++ before ++ marker_of payload ++ w) in *. unfold SyncedLine_parse.
  assert (trim_end line = (pre ++ before) ++ marker_of payload) as ->.
  { subst line. rewrite app_assoc. by apply trim_end_marker. }
  assert (rfind_sub MARKER_PREFIX ((pre ++ before) ++ marker_of payload) = Some (length (pre ++ before))) as ->.
  { apply rfind_mark; [intros Hin; by vm_compute in Hin; set_solver|].
    rewrite not_elem_of_app. split; [by eapply payload_no_lt|]. intros Hin. by vm_compute in Hin; set_solver. }
  cbn [mbind option_bind].
  assert (strip_suffix MARKER_SUFFIX
    (drop (length (pre ++ before) + length MARKER_PREFIX) ((pre ++ before) ++ marker_of payload)) = Some payload) as ->.
  { rewrite drop_app_add. unfold marker_of. by rewrite drop_app_length, strip_suffix_app. }
  cbn [mbind option_bind]. rewrite Hp. cbn [mbind option_bind]. rewrite Hbox. cbn [mbind option_bind fst snd].
  assert (slice line (mkRange (length pre) (length (pre ++ before))) = before) as ->.
  { subst line. rewrite length_app. rewrite <- (Nat.add_0_r (length pre)) at 1. by rewrite slice_middle by lia. }
  unfold synced, token_length. fold line. pose proof (token_length_le before) as Hle. unfold token_length in Hle.
  rewrite !length_app.
  destruct (leading_time_token before) as [[start len]|]; subst line; rewrite slice_middle by lia; done.
Qed.

(** A line with a marker at its end is a synced line put together. *)
Lemma synced_shape row line s :
  SyncedLine_parse row line = Some s →
  ∃ pre before payload w, line = pre ++ before ++ marker_of payload ++ w ∧
    checkbox_text_offset line = Some (length pre) ∧ spaces w ∧
    parse_marker_payload payload = Some (sl_id s, sl_suffix s) ∧ starts_as is_whitespace before = false ∧
    s = synced row pre before (marker_of payload) w (sl_id s) (sl_suffix s).
Proof.
  intros Hparse. pose proof Hparse as H. unfold SyncedLine_parse in H.
  destruct (trim_end_matches_app is_whitespace line) as (w & Hline & Hw). fold (trim_end line) in Hline.
  destruct (rfind_sub MARKER_PREFIX (trim_end line)) as [m|] eqn:Em; [|done]. cbn [mbind option_bind] in H.
  destruct (strip_suffix _ _) as [payload|] eqn:Ep; [|done]. cbn [mbind option_bind] in H.
  destruct (parse_marker_payload payload) as [[id suffix]|] eqn:Epay; [|done]. cbn [mbind option_bind] in H.
  destruct (checkbox_text_offset line) as [off|] eqn:Ebox; [|done]. cbn [mbind option_bind] in H. clear H.
  apply strip_suffix_Some in Ep. apply rfind_sub_Some in Em as (_ & Hlen & Htrim & _).
  assert (trim_end line = take m (trim_end line) ++ marker_of payload) as Hmark.
  { rewrite Htrim at 1. unfold marker_of. by rewrite Ep. }
  destruct (checkbox_no_lt _ _ Ebox) as [Hoff Hlt].
  assert (off ≤ m) as Hom.
  { destruct (decide (off ≤ m)); [done|]. exfalso. apply Hlt. apply (list_elem_of_lookup_2 _ m).
    rewrite lookup_take_lt by lia. rewrite Hline, Hmark, <- app_assoc, lookup_app_r; rewrite length_take_le by lia; [|lia].
    by rewrite Nat.sub_diag. }
  set (pre := take off line). set (before := drop off (take m (trim_end line))).
  assert (line = pre ++ before ++ marker_of payload ++ w) as Hl.
  { subst pre before. rewrite <- (take_drop off line) at 1. f_equal. rewrite Hline at 1. rewrite Hmark at 1.
    rewrite <- app_assoc, drop_app_le by (rewrite length_take_le; lia). done. }
  assert (length pre = off) as Hpre by (subst pre; rewrite length_take_le; lia).
  assert (checkbox_text_offset line = Some (length pre)) as Hbox by by rewrite Hpre.
  pose proof Hbox as Hbox'. rewrite Hl in Hbox'. pose proof (parse_synced row _ _ _ _ _ _ Hbox' Hw Epay) as Hs.
  rewrite <- Hl, Hparse in Hs. injection Hs as Hs.
  assert (sl_id s = id ∧ sl_suffix s = suffix) as [-> ->] by by rewrite Hs.
  exists pre, before, payload, w. split_and!; [exact Hl|by rewrite Hpre|exact Hw|exact Epay| |exact Hs].
  apply checkbox_shape in Ebox as [_ Htext]. assert (drop off line = before ++ marker_of payload ++ w) as Hd.
  { rewrite Hl at 1. by rewrite <- Hpre, drop_app_length. }
  rewrite Hd in Htext. destruct before; [done|exact Htext].
Qed.

(** ** Pieces of a synced line *)

Lemma slice_inner pre before rest a b :
  a ≤ b → b ≤ length before →
  slice (pre ++ before ++ rest) (mkRange (length pre + a) (length pre + b)) = take (b - a) (drop a before).
Proof.
  intros Ha Hb. unfold slice. cbn [r_start r_end]. rewrite drop_app_add, drop_app_le by lia.
  rewrite take_app_le by (rewrite length_drop; lia). f_equal. lia.
Qed.

(** The text before the marker, from the token on. *)
Lemma before_parts before :
  let len := token_length before in
  ∃ lead mid, before = take len before ++ lead ++ trim (drop len before) ++ mid ∧ spaces lead ∧ spaces mid ∧
    length lead = length (drop len before) - length (trim_start (drop len before)) ∧
    (len = 0 → starts_as is_whitespace before = false → lead = []).
Proof.
  intros len. destruct (trim_split (drop len before)) as (lead & mid & Hd & Hl & Hm & Hlen).
  exists lead, mid. split_and!; [|done|done|done|].
  - rewrite <- (take_drop len before) at 1. by f_equal.
  - intros Hz Hs. rewrite Hz, drop_0 in Hlen. rewrite trim_start_id, Nat.sub_diag in Hlen by done.
    by apply nil_length_inv in Hlen.
Qed.

Definition content (token : option str) (text : str) : str :=
  match token with
  | Some token => token ++ (if text == [] then [] else u " ")
  | None => []
  end ++ text.

Section pieces.
Context (row : nat) (pre before marker w id : str) (suffix : option str).
Context (Hbefore : starts_as is_whitespace before = false).
Let s := synced row pre before marker w id suffix.
Let len := token_length before.

Lemma token_synced : token_of s = if (0 <? len)%nat then Some (take len before) else None.
Proof.
  subst s len. unfold token_of, synced. cbn [sl_line sl_token]. pose proof (token_length_le before).
  destruct (0 <? _)%nat; [|done]. cbn [fmap option_fmap option_map]. f_equal.
  rewrite <- (Nat.add_0_r (length pre)) at 1. rewrite slice_inner by lia. by rewrite Nat.sub_0_r, drop_0.
Qed.

Lemma text_synced : text_of s = trim (drop len before).
Proof.
  subst s. unfold text_of, synced. cbn [sl_line sl_text]. fold len.
  destruct (before_parts before) as (lead & mid & Hb & _ & _ & Hlen & _). fold len in Hb, Hlen. rewrite <- Hlen.
  assert (length before = len + length lead + length (trim (drop len before)) + length mid) as Htotal.
  { rewrite Hb at 1. rewrite !length_app, length_take. pose proof (token_length_le before). fold len in H. lia. }
  rewrite <- Nat.add_assoc, <- Nat.add_assoc, slice_inner by lia.
  rewrite <- drop_drop. rewrite Hb at 2. rewrite drop_app_length' by (rewrite length_take; pose proof (token_length_le before); fold len in H; lia).
  rewrite drop_app_length. rewrite take_app_length'; [done|lia].
Qed.

Lemma rebuilt_synced :
  ∃ mid, spaces mid ∧ ∀ token text marker',
    rebuilt s token text marker' = pre ++ content token text ++ mid ++ default marker marker' ++ w.
Proof.
  destruct (before_parts before) as (lead & mid & Hb & _ & Hm & Hlen & Hlead). fold len in Hb, Hlen, Hlead.
  pose proof (token_length_le before) as Hle. fold len in Hle.
  assert (length before = len + length lead + length (trim (drop len before)) + length mid) as Htotal.
  { rewrite Hb at 1. rewrite !length_app, length_take. lia. }
  exists mid. split; [done|]. intros token text marker'. unfold rebuilt. fold (content token text).
  assert (match sl_token s with Some span => r_start span | None => r_start (sl_text s) end = length pre) as ->.
  { subst s. unfold synced. cbn [sl_token sl_text]. fold len. destruct (Nat.ltb_spec 0 len); [done|]. cbn [r_start].
    rewrite <- Hlen. assert (len = 0) as Hz by lia. rewrite Hlead by done. cbn. lia. }
  assert (sl_line s = pre ++ before ++ marker ++ w) as Hline by done. rewrite Hline, take_app_length. f_equal. f_equal.
  assert (slice (pre ++ before ++ marker ++ w) (mkRange (r_end (sl_text s)) (r_start (sl_marker s))) = mid) as ->.
  { subst s. unfold synced. cbn [sl_text sl_marker r_start r_end]. fold len. rewrite <- Hlen.
    rewrite <- !Nat.add_assoc, slice_inner by lia.
    assert (drop (len + (length lead + length (trim (drop len before)))) before = mid) as ->.
    { rewrite Hb at 2. rewrite <- drop_drop, drop_app_length' by (rewrite length_take; lia).
      rewrite app_assoc, drop_app_length'; [done|]. by rewrite length_app. }
    apply take_ge. lia. }
  f_equal. assert (slice (pre ++ before ++ marker ++ w) (sl_marker s) = marker) as ->.
  { subst s. unfold synced, slice. cbn [sl_marker r_start r_end]. rewrite drop_app_add, drop_app_length.
    rewrite take_app_length'; [done|lia]. }
  f_equal. subst s. unfold synced. cbn [sl_marker r_end].
  rewrite <- Nat.add_assoc, drop_app_add, drop_app_add. by rewrite drop_app_length.
Qed.
End pieces.

(** ** A rebuilt line is read back *)

(** The time token of a content is read as the token it starts with. *)
Definition reads (token : option str) (text : str) : Prop :=
  ∀ mid, spaces mid →
  match token with
  | Some t => ∃ start, leading_time_token (content token text ++ mid) = Some (start, length t)
  | None => leading_time_token (content token text ++ mid) = None
  end.

Lemma payload_marker_id payload id suffix : parse_marker_payload payload = Some (id, suffix) → marker_id id.
Proof.
  unfold parse_marker_payload. destruct (match split_once (u ":") payload with Some _ => _ | None => _ end) as [i sfx].
  destruct ((i == []) || _) eqn:Ei; [done|]. destruct (is_some_and _ _); [done|]. intros [= <- <-].
  apply orb_false_iff in Ei as [E1 E2]. apply bool_decide_eq_false in E1. apply negb_false_iff, forallb_Forall in E2. done.
Qed.

Lemma trim_spaces a s b : spaces a → spaces b → trim (a ++ s ++ b) = trim s.
Proof.
  intros Ha Hb. unfold trim, trim_matches. rewrite trim_start_matches_app_all by done.
  destruct (trim_start_matches is_whitespace s) as [|c r] eqn:E.
  - apply trim_start_matches_nil in E. rewrite (proj2 (trim_start_matches_nil _ _)); [done|]. by apply Forall_app.
  - assert (trim_start_matches is_whitespace (s ++ b) = (c :: r) ++ b) as ->.
    { rewrite trim_start_matches_app_ne by by rewrite E. by rewrite E. }
    by apply trim_end_matches_app_all.
Qed.

(** What marker a rebuilt line ends with. *)
Definition next_suffix (s : SyncedLine) (kind : option EventKind) : option str :=
  match kind with Some k => marker_suffix k | None => sl_suffix s end.
Definition next_marker (s : SyncedLine) (kind : option EventKind) : option str := render_marker (sl_id s) <$> kind.

Lemma rebuilt_parse row line s token text kind :
  SyncedLine_parse row line = Some s →
  content token text ≠ [] → starts_as is_whitespace (content token text) = false → trim text = text →
  (∀ t, token = Some t → t ≠ []) → reads token text →
  ∃ s', SyncedLine_parse row (rebuilt s token text (next_marker s kind)) = Some s' ∧
    sl_line s' = rebuilt s token text (next_marker s kind) ∧ sl_id s' = sl_id s ∧
    sl_suffix s' = next_suffix s kind ∧ token_of s' = token ∧ text_of s' = text.
Proof.
  intros Hparse Hne Hws Htext Htok Hreads.
  destruct (synced_shape _ _ _ Hparse) as (pre & before & payload & w & Hline & Hbox & Hw & Hpay & Hbefore & Hs).
  pose proof (payload_marker_id _ _ _ Hpay) as Hid.
  destruct (rebuilt_synced row pre before (marker_of payload) w (sl_id s) (sl_suffix s) Hbefore) as (mid & Hmid & Hre).
  rewrite <- Hs in Hre.
  assert (∃ payload', default (marker_of payload) (next_marker s kind) = marker_of payload' ∧
    parse_marker_payload payload' = Some (sl_id s, next_suffix s kind)) as (payload' & Hm & Hpay').
  { destruct kind as [k|]; cbn [next_marker fmap option_fmap option_map default]; [|by exists payload].
    exists (sl_id s ++ match marker_suffix k with Some suffix => u ":" ++ suffix | None => [] end).
    split; [|by apply parse_rendered_payload]. unfold id, render_marker, marker_of. by rewrite <- app_assoc. }
  rewrite Hre, Hm.
  assert (checkbox_text_offset (pre ++ (content token text ++ mid) ++ marker_of payload' ++ w) = Some (length pre)) as Hbox'.
  { assert (take (length pre) line = pre) as Hpre by (rewrite Hline; apply take_app_length). rewrite <- Hpre at 1.
    apply checkbox_other_text; [done| |].
    - rewrite Hline, drop_app_length. intros E. apply (f_equal length) in E. unfold marker_of in E.
      rewrite !length_app in E. change (length MARKER_PREFIX) with 9 in E. cbn in E. lia.
    - rewrite <- app_assoc. by rewrite starts_as_app. }
  pose proof (parse_synced row _ _ _ _ _ _ Hbox' Hw Hpay') as Hp. rewrite <- app_assoc in Hp.
  eexists. split; [exact Hp|]. cbn [sl_line sl_id sl_suffix synced]. split; [by rewrite <- app_assoc|].
  split; [done|]. split; [done|].
  assert (token_length (content token text ++ mid) = match token with Some t => length t | None => 0 end) as Hlen.
  { specialize (Hreads mid Hmid). unfold token_length. destruct token as [t|]; [destruct Hreads as [? ->]|rewrite Hreads]; done. }
  rewrite token_synced, text_synced, Hlen.
  destruct token as [t|]; cbn [content app] in *.
  - assert (length t ≠ 0) by (intros E; apply nil_length_inv in E; by apply (Htok t)).
    rewrite (proj2 (Nat.ltb_lt 0 (length t))) by lia. unfold content. rewrite <- !app_assoc.
    rewrite take_app_length, drop_app_length. split; [done|]. rewrite trim_spaces; [done| |done].
    by destruct (text == []); repeat constructor.
  - split; [done|]. rewrite drop_0. change (text ++ mid) with ([] ++ text ++ mid). by rewrite trim_spaces.
Qed.

(** ** Tokens *)

(** A time of the day, as an event has it. *)
Definition day_time (time : option (N * N)) : Prop :=
  match time with Some (s, e) => (s < MINUTES_PER_DAY ∧ e <= MINUTES_PER_DAY)%N | None => True end.

Definition time_token (time : option (N * N)) : option str := (λ '(s, e), format_time_token s e) <$> time.

Lemma ends_token_spaces w : spaces w → ends_token w = true.
Proof.
  intros Hw. unfold ends_token. destruct w as [|c w]; [done|]. apply Forall_cons in Hw as [Hc _].
  apply orb_true_iff. right. exact Hc.
Qed.

Lemma reads_time s e text : day_time (Some (s, e)) → reads (time_token (Some (s, e))) text.
Proof.
  intros [Hs He] mid Hmid. exists s. cbn [time_token fmap option_fmap option_map]. unfold content.
  set (rest := (if text == [] then [] else u " ") ++ text ++ mid).
  assert (((format_time_token s e ++ (if text == [] then [] else u " ")) ++ text) ++ mid
    = show_clock s ++ u " - " ++ show_clock e ++ rest) as ->.
  { unfold rest, format_time_token. by rewrite <- !app_assoc. }
  assert (ends_token rest = true) as Hrest.
  { subst rest. destruct (decide (text = [])) as [-> |Hne]; [by apply ends_token_spaces|].
    by rewrite bool_decide_eq_false_2 by done. }
  unfold leading_time_token. rewrite parse_time_prefix_show by done. rewrite parse_range_end_show by done.
  rewrite Hrest. f_equal. f_equal. unfold format_time_token. rewrite !length_app. lia.
Qed.

Lemma no_digit_no_time text : starts_as is_ascii_digit text = false → parse_time_prefix text = None.
Proof.
  intros Hd. unfold parse_time_prefix. assert (count_while is_ascii_digit text = 0) as ->; [|done].
  destruct text as [|c text]; [done|]. cbn in *. by rewrite Hd.
Qed.

Lemma no_digit_no_token text : starts_as is_ascii_digit text = false → leading_time_token text = None.
Proof. intros Hd. unfold leading_time_token. by rewrite no_digit_no_time. Qed.

Lemma reads_none text : text ≠ [] → starts_as is_ascii_digit text = false → reads None text.
Proof. intros Hne Hd mid _. apply no_digit_no_token. cbn [content app]. by rewrite starts_as_app. Qed.

(** ** Titles *)

(** A title the calendar can write so that it reads it back: trimmed, not struck
    through, and with no digit where a time would stand. *)
Record plain_event (e : CalendarEvent) : Prop := {
  title_some : event_title e ≠ [];
  title_trim : trim (event_title e) = event_title e;
  title_plain : starts_as (is_char TILDE) (event_title e) = false;
  title_time : event_time e = None → starts_as is_ascii_digit (event_title e) = false;
  time_of_day : day_time (event_time e)
}.

Lemma trim_head s : trim s = s → starts_as is_whitespace s = false.
Proof.
  intros Hs. destruct (trim_split s) as (lead & tail & Hsplit & Hl & _ & Hlen).
  pose proof (trim_start_head s) as Hh. destruct (trim_start_matches_app is_whitespace s) as (p & Hp & Hw).
  fold (trim_start s) in Hp. rewrite Hs in Hsplit. apply (f_equal length) in Hsplit. rewrite !length_app in Hsplit.
  assert (lead = []) as -> by (apply nil_length_inv; lia).
  assert (trim_start s = s) as <-; [|done]. assert (length p = 0) as Hz.
  { apply (f_equal length) in Hp. rewrite length_app in Hp. cbn in Hlen. lia. }
  apply nil_length_inv in Hz as ->. done.
Qed.

Lemma trim_ends s : starts_as is_whitespace s = false → trim_end s = s → trim s = s.
Proof. intros Hh He. unfold trim, trim_matches. fold (trim_start s). by rewrite trim_start_id. Qed.

Lemma trimmed_end s : trim s = s → trim_end s = s.
Proof. intros Hs. pose proof (trim_head _ Hs). unfold trim, trim_matches in Hs. fold (trim_start s) in Hs. by rewrite trim_start_id in Hs. Qed.

(** A title with what the user wrote behind it. *)
Lemma title_with_trailing title trailing :
  title ≠ [] → trim title = title →
  ∃ rest, trim_end (title ++ trailing) = title ++ rest ∧ trim (title ++ rest) = title ++ rest ∧
    (ends_token trailing = true → ends_token rest = true).
Proof.
  intros Hne Ht. pose proof (trim_head _ Ht) as Hh. pose proof (trimmed_end _ Ht) as He.
  assert (∃ rest, trim_end (title ++ trailing) = title ++ rest ∧ (ends_token trailing = true → ends_token rest = true))
    as (rest & Hr & Htok).
  { destruct (trim_end_matches_app is_whitespace trailing) as (p & Hp & Hw). fold (trim_end trailing) in Hp.
    destruct (decide (trim_end trailing = [])) as [Hz|Hnz].
    - exists []. split; [|done]. rewrite Hp, Hz. cbn [app]. rewrite app_nil_r. by rewrite trim_end_spaces.
    - exists (trim_end trailing). split; [by apply trim_end_matches_app_keep|]. intros Het.
      rewrite Hp in Het. destruct (trim_end trailing) as [|c r]; [done|]. exact Het. }
  exists rest. split; [done|]. split; [|done]. apply trim_ends; [by rewrite starts_as_app|].
  rewrite <- Hr. apply trim_end_matches_idemp.
Qed.

Lemma strip_tildes title rest : title ≠ [] → starts_as (is_char TILDE) title = false → strip_prefix (u "~~") (title ++ rest) = None.
Proof.
  intros Hne Ht. apply strip_prefix_None, not_true_iff_false. intros [r Hr]%starts_with_app.
  destruct title as [|c title]; [done|]. injection Hr as -> _. by vm_compute in Ht.
Qed.

(** ** The marker of an update *)

Definition marker_kind (s : SyncedLine) (k : EventKind) : option EventKind :=
  if is_some (marker_update_for s k) then Some k else None.

Lemma marker_update_next s k : marker_update_for s k = next_marker s (marker_kind s k).
Proof.
  unfold marker_kind, marker_update_for, next_marker. destruct (bool_decide _); [done|].
  by destruct (is_some_and _ _).
Qed.

Lemma marker_settled s s' k :
  sl_suffix s' = next_suffix s (marker_kind s k) → marker_update_for s' k = None.
Proof.
  unfold marker_kind, marker_update_for, next_suffix. destruct (bool_decide (sl_suffix s = _)) eqn:E; cbn.
  - intros ->. by rewrite E.
  - destruct (is_some_and _ (sl_suffix s)) eqn:Es; cbn; intros ->; [by rewrite E, Es|by rewrite bool_decide_eq_true_2].
Qed.

(** ** Updates *)

Lemma content_some token text :
  (∀ t, token = Some t → t ≠ [] ∧ starts_as is_whitespace t = false) → (token = None → text ≠ [] ∧ starts_as is_whitespace text = false) →
  content token text ≠ [] ∧ starts_as is_whitespace (content token text) = false.
Proof.
  intros Ht Hn. unfold content. destruct token as [t|]; [|by apply Hn].
  destruct (Ht t eq_refl) as [Hne Hw]. rewrite <- app_assoc. split; [by destruct t|]. by rewrite starts_as_app.
Qed.

Lemma time_token_some time t :
  day_time time → time_token time = Some t → t ≠ [] ∧ starts_as is_whitespace t = false.
Proof.
  destruct time as [[s e]|]; [|done]. cbn [time_token fmap option_fmap option_map day_time].
  intros [Hs He] [= <-]. unfold format_time_token.
  destruct (show_clock_parts s) as (-> & Hlen & Hd & _); [unfold MINUTES_PER_DAY in Hs; lia|].
  destruct (show_padded 2 (s / 60)) as [|c h]; [done|]. cbn [app starts_as head is_some_and]. split; [done|].
  cbn [forallb] in Hd. apply andb_true_iff in Hd as [Hc _]. apply not_true_iff_false. intros Hw.
  unfold is_whitespace, is_ascii_digit in *. bool_to_prop.
  repeat (apply orb_true_iff in Hw as [Hw|Hw]); repeat (apply andb_true_iff in Hw as [Hw ?]);
    rewrite ?N.eqb_eq, ?N.leb_le in *; lia.
Qed.

Lemma title_trailing_app title rest : title ≠ [] → title_trailing (title ++ rest) title = if ends_token rest then Some rest else None.
Proof.
  intros Hne. unfold title_trailing. rewrite bool_decide_eq_false_2 by done. by rewrite strip_prefix_app.
Qed.

(** A rebuilt line is settled: a second update changes nothing. *)
Lemma rebuilt_settles row line s event rest :
  SyncedLine_parse row line = Some s → plain_event event →
  trim (event_title event ++ rest) = event_title event ++ rest →
  let line' := rebuilt s (time_token (event_time event)) (event_title event ++ rest) (marker_update_for s (event_kind event)) in
  ∃ s', SyncedLine_parse row line' = Some s' ∧ sl_id s' = sl_id s ∧
    updated_for s' event = if ends_token rest then Some line' else None.
Proof.
  intros Hp [Hne Ht Htilde Htime Hday] Htrim line'. subst line'. rewrite marker_update_next.
  set (text := event_title event ++ rest) in *. assert (text ≠ []) as Htext by (subst text; by destruct (event_title event)).
  pose proof (trim_head _ Htrim) as Hhead.
  destruct (content_some (time_token (event_time event)) text) as [Hc1 Hc2].
  { intros t. by apply time_token_some. }
  { done. }
  destruct (rebuilt_parse row line s (time_token (event_time event)) text (marker_kind s (event_kind event)) Hp Hc1 Hc2 Htrim)
    as (s' & Hs' & Hline' & Hid' & Hsfx' & Htok' & Htxt').
  { intros t E. by apply (time_token_some _ _ Hday). }
  { destruct (event_time event) as [[a b]|] eqn:Et; [by apply reads_time|]. apply reads_none; [done|].
    subst text. rewrite starts_as_app by done. by apply Htime. }
  exists s'. split; [done|]. split; [done|]. unfold updated_for.
  assert (cancelled_parts s' = None) as ->.
  { unfold cancelled_parts. rewrite Htxt'. subst text. by rewrite strip_tildes. }
  rewrite Htxt'. subst text. rewrite title_trailing_app by done. destruct (ends_token rest); [|done]. cbn [mbind option_bind].
  rewrite bool_decide_eq_true_2 by done. rewrite (marker_settled s) by done. by rewrite Hline'.
Qed.

Lemma title_trailing_spec text title trailing :
  title ≠ [] → title_trailing text title = Some trailing → text = title ++ trailing ∧ ends_token trailing = true.
Proof.
  intros Hne. unfold title_trailing. rewrite bool_decide_eq_false_2 by done.
  destruct (strip_prefix _ _) as [rest|] eqn:E; [|done]. cbn [mbind option_bind].
  destruct (ends_token rest) eqn:Er; [|done]. intros [= <-]. split; [by apply strip_prefix_Some|done].
Qed.

Lemma text_of_trimmed row line s : SyncedLine_parse row line = Some s → trim (text_of s) = text_of s.
Proof.
  intros H. destruct (synced_shape _ _ _ H) as (pre & before & payload & w & _ & _ & _ & _ & Hb & ->).
  rewrite text_synced by done. apply trim_idemp.
Qed.

(** One update settles a line. Whatever synced line stands in the note, with
    whatever the user wrote behind the title, once it is brought in line with its
    event it is read back as the line of the same event, and a second update
    writes the very same line. The one exception is a cancelled line that was
    written on without a space; it is then the user's. *)
Theorem update_settles row line s event line' :
  SyncedLine_parse row line = Some s → plain_event event → updated_for s event = Some line' →
  ∃ s', SyncedLine_parse row line' = Some s' ∧ sl_id s' = sl_id s ∧
    (updated_for s' event = Some line' ∨
     updated_for s' event = None ∧ ∃ inner trailing, cancelled_parts s = Some (inner, trailing) ∧ ends_token trailing = false).
Proof.
  intros Hp Hplain Hup. pose proof Hup as Hsame. unfold updated_for in Hup. pose proof Hplain as [Hne Ht _ _ _].
  fold (time_token (event_time event)) in Hup. destruct (cancelled_parts s) as [[inner trailing]|].
  { injection Hup as <-. destruct (title_with_trailing _ trailing Hne Ht) as (rest & -> & Htrim & Hend).
    destruct (rebuilt_settles _ _ _ _ _ Hp Hplain Htrim) as (s' & Hs' & Hid & Hu). exists s'. split_and!; [done..|].
    rewrite Hu. destruct (ends_token rest); [by left|]. right. split; [done|]. exists inner, trailing. split; [done|].
    destruct (ends_token trailing); [|done]. by specialize (Hend eq_refl). }
  destruct (title_trailing _ _) as [trailing|] eqn:Et; [|done]. cbn [mbind option_bind] in Hup.
  apply title_trailing_spec in Et as [Et Hend]; [|done]. destruct (bool_decide _) eqn:Etok.
  - apply bool_decide_eq_true in Etok.
    destruct (marker_update_for s (event_kind event)) as [m|] eqn:Em; injection Hup as <-.
    + rewrite <- Em, Etok, Et. destruct (rebuilt_settles row line s event trailing Hp Hplain) as (s' & Hs' & Hid & Hu).
      { rewrite <- Et. by eapply text_of_trimmed. }
      rewrite Hend in Hu. exists s'. split_and!; [done..|by left].
    + exists s. assert (sl_line s = line) as Hl.
      { destruct (synced_shape _ _ _ Hp) as (pre & before & payload & w & -> & _ & _ & _ & _ & ->). done. }
      split_and!; [by rewrite Hl|done|]. by left.
  - injection Hup as <-. destruct (title_with_trailing _ trailing Hne Ht) as (rest & -> & Htrim & Hrest).
    destruct (rebuilt_settles _ _ _ _ _ Hp Hplain Htrim) as (s' & Hs' & Hid & Hu). exists s'. split_and!; [done..|].
    rewrite Hu, (Hrest Hend). by left.
Qed.

(** ** New lines *)

(** A line's token and text are read back from what stands before the marker. *)
Lemma written_content row pre marker w id suffix token text :
  text ≠ [] → trim text = text → starts_as is_whitespace (content token text ++ u " ") = false →
  (∀ t, token = Some t → t ≠ [] ∧ starts_as is_whitespace t = false) → reads token text →
  let s := synced row pre (content token text ++ u " ") marker w id suffix in
  token_of s = token ∧ text_of s = text.
Proof.
  intros Hne Ht Hb Htoken Hreads s. set (before := content token text ++ u " ") in *.
  assert (token_length before = match token with Some t => length t | None => 0 end) as Hlen.
  { specialize (Hreads (u " ") ltac:(by repeat constructor)). fold before in Hreads. unfold token_length.
    destruct token as [t|]; [destruct Hreads as [? ->]|rewrite Hreads]; done. }
  subst s. rewrite token_synced, text_synced, Hlen by done. destruct token as [t|] eqn:Et.
  - destruct (Htoken t eq_refl) as [Htn _]. assert (length t ≠ 0) by (intros E; by apply nil_length_inv in E).
    rewrite (proj2 (Nat.ltb_lt 0 (length t))) by lia. subst before. unfold content.
    rewrite <- !app_assoc, take_app_length, drop_app_length. split; [done|]. rewrite trim_spaces; [done| |by repeat constructor].
    by destruct (text == []); repeat constructor.
  - split; [done|]. rewrite drop_0. subst before. unfold content. cbn [app].
    change (text ++ u " ") with ([] ++ text ++ u " "). rewrite trim_spaces; [done|constructor|by repeat constructor].
Qed.

(** A new line is settled too. The line written for an event is read back as
    a synced line of that event, its time and its title, and the event asks
    nothing more of it. *)
Theorem new_line_settles row event :
  plain_event event → marker_id (event_id event) →
  ∃ s, SyncedLine_parse row (render_synced_line event) = Some s ∧ sl_id s = event_id event ∧
    sl_suffix s = marker_suffix (event_kind event) ∧ token_of s = time_token (event_time event) ∧
    text_of s = event_title event ∧ is_cancelled s = false ∧
    updated_for s event = Some (render_synced_line event).
Proof.
  intros Hplain Hid. pose proof Hplain as [Hne Ht Htilde Htime Hday]. pose proof (trim_head _ Ht) as Hhead.
  set (payload := event_id event ++ match marker_suffix (event_kind event) with Some suffix => u ":" ++ suffix | None => [] end).
  set (before := content (time_token (event_time event)) (event_title event) ++ u " ").
  destruct (content_some (time_token (event_time event)) (event_title event)) as [Hc1 Hc2].
  { intros t. by apply time_token_some. }
  { done. }
  assert (render_synced_line event = u "- [ ] " ++ before ++ marker_of payload ++ []) as Hline.
  { unfold render_synced_line, before, payload, content. rewrite app_nil_r. rewrite !bool_decide_eq_false_2 by done.
    unfold render_marker, marker_of. destruct (event_time event) as [[s e]|]; cbn [time_token fmap option_fmap option_map];
      by rewrite <- ?app_assoc. }
  assert (starts_as is_whitespace before = false) as Hb by (subst before; by rewrite starts_as_app).
  assert (checkbox_text_offset (u "- [ ] " ++ before ++ marker_of payload ++ []) = Some 6) as Hbox.
  { change (u "- [ ] " ++ ?x) with ([] ++ ch "-" :: u " " ++ LBRACKET :: SPACE :: RBRACKET :: u " " ++ x).
    apply shape_checkbox; try done; [by repeat constructor|by repeat constructor|by right|].
    rewrite starts_as_app; [done|]. subst before. by destruct (content _ _). }
  pose proof (parse_synced row (u "- [ ] ") before payload [] (event_id event) (marker_suffix (event_kind event))
    Hbox ltac:(constructor) (parse_rendered_payload _ _ Hid)) as Hp.
  rewrite <- Hline in Hp. set (s := synced _ _ _ _ _ _ _) in Hp. exists s.
  assert (token_of s = time_token (event_time event) ∧ text_of s = event_title event) as [Htok Htxt].
  { apply written_content; [done..| |]; [intros t; by apply time_token_some|].
    destruct (event_time event) as [[a b]|] eqn:Et; [by apply reads_time|]. apply reads_none; [done|by apply Htime]. }
  assert (cancelled_parts s = None) as Hcancel.
  { unfold cancelled_parts. rewrite Htxt. rewrite <- (app_nil_r (event_title event)). by rewrite strip_tildes. }
  split; [exact Hp|]. split; [done|]. split; [done|]. split; [exact Htok|]. split; [exact Htxt|].
  split; [unfold is_cancelled; by rewrite Hcancel|].
  unfold updated_for. fold (time_token (event_time event)). rewrite Hcancel, Htxt.
  rewrite <- (app_nil_r (event_title event)) at 1. rewrite title_trailing_app by done. change (ends_token []) with true.
  cbn [mbind option_bind]. rewrite bool_decide_eq_true_2 by done. unfold marker_update_for.
  rewrite bool_decide_eq_true_2 by done. by rewrite Hline.
Qed.

(** ** Cancelled lines *)

Lemma parse_time_prefix_app text m rest :
  parse_time_prefix text = Some (m, rest) →
  ∃ p, text = p ++ rest ∧ ∀ r, parse_time_prefix (p ++ r) = Some (m, r).
Proof.
  unfold parse_time_prefix. set (h := Nat.min 2 (count_while is_ascii_digit text)).
  destruct (Nat.eqb_spec h 0) as [|Hh]; [done|].
  destruct (bool_decide (text !! h = _)) eqn:Ec; [|done]. apply bool_decide_eq_true in Ec. cbn [negb].
  destruct (Nat.ltb_spec (length text) (h + 3)) as [|Hl]; [done|]. destruct (forallb _ _) eqn:Ed; [|done]. cbn [negb].
  intros (hours & Eh & (minutes & Em & Hr)%bind_Some)%bind_Some.
  destruct (_ || _) eqn:Eb; [done|]. injection Hr as <- <-.
  exists (take (h + 3) text). split; [by rewrite take_drop|]. intros r.
  set (p := take (h + 3) text). assert (length p = h + 3) as Hp by (subst p; rewrite length_take_le; lia).
  assert (∀ i, i < h + 3 → (p ++ r) !! i = text !! i) as Hlook.
  { intros i Hi. rewrite lookup_app_l by lia. subst p. by rewrite lookup_take_lt by lia. }
  assert (take h (p ++ r) = take h text) as Htake.
  { rewrite take_app_le by lia. subst p. rewrite take_take. f_equal. lia. }
  assert (Nat.min 2 (count_while is_ascii_digit (p ++ r)) = h) as ->.
  { assert (count_while is_ascii_digit text = h ∨ h = 2 ∧ 2 ≤ count_while is_ascii_digit text) as Hcase by (subst h; lia).
    assert (is_ascii_digit (ch ":") = false) as Hcolon by done.
    assert (p ++ r = take h text ++ ch ":" :: drop (S h) (p ++ r)) as Hsplit.
    { rewrite <- Htake. rewrite <- (take_drop h (p ++ r)) at 1. f_equal. apply drop_S. rewrite Hlook by lia. done. }
    assert (forallb is_ascii_digit (take h text) = true) as Hdig.
    { apply forallb_Forall. clear -h. subst h. generalize (Nat.le_min_r 2 (count_while is_ascii_digit text)).
      generalize (Nat.min 2 (count_while is_ascii_digit text)). induction text as [|c text IH]; intros n; cbn.
      - by rewrite take_nil.
      - destruct (is_ascii_digit c) eqn:E; [|intros Hn; by replace n with 0 by lia].
        destruct n as [|n]; [constructor|]. intros Hn. cbn. constructor; [done|]. apply IH. lia. }
    rewrite Hsplit, count_while_app_stop by done. rewrite length_take_le by lia. lia. }
  rewrite (proj2 (Nat.eqb_neq h 0)) by done. rewrite bool_decide_eq_true_2 by (rewrite Hlook by lia; done). cbn [negb].
  rewrite (proj2 (Nat.ltb_ge _ _)) by (rewrite length_app; lia).
  assert (take 2 (drop (h + 1) (p ++ r)) = take 2 (drop (h + 1) text)) as ->.
  { rewrite drop_app_le by lia. rewrite take_app_le by (rewrite length_drop; lia). subst p.
    apply list_eq. intros i. destruct (decide (i < 2)).
    - rewrite !lookup_take_lt by lia. rewrite !lookup_drop, lookup_take_lt by lia. done.
    - rewrite !lookup_take_ge by lia. done. }
  rewrite Ed, Htake, Eh. cbn [negb mbind option_bind]. rewrite Em. cbn [mbind option_bind]. rewrite Eb.
  f_equal. f_equal. by rewrite drop_app_length'.
Qed.

Lemma trim_start_app_ne s r : trim_start s ≠ [] → trim_start (s ++ r) = trim_start s ++ r.
Proof. apply trim_start_matches_app_ne. Qed.

(** A range end is read whatever follows it. *)
Lemma parse_range_end_app text e rest :
  parse_range_end text = Some (e, rest) →
  ∃ q, text = q ++ rest ∧ ∀ r, parse_range_end (q ++ r) = Some (e, r).
Proof.
  unfold parse_range_end. destruct (strip_any _ _) as [after|] eqn:Es; [|done]. cbn [mbind option_bind].
  unfold strip_any in Es. apply find_map_Some in Es as (sep & Hsep & Hstrip). pose proof Hstrip as Hsep'.
  apply strip_prefix_Some in Hsep'.
  destruct (trim_start_matches_app is_whitespace text) as (w & Htext & Hw). fold (trim_start text) in Htext.
  destruct (trim_start_matches_app is_whitespace after) as (w' & Hafter & Hw'). fold (trim_start after) in Hafter.
  assert (∀ time, (∀ r, trim_start (time ++ r) = time ++ r) →
    ∀ r, strip_any RANGE_SEPARATORS (trim_start (w ++ sep ++ w' ++ time ++ r)) = Some (w' ++ time ++ r) ∧
      trim_start (w' ++ time ++ r) = time ++ r) as Hany.
  { intros time Htime r. split; [|unfold trim_start in *; rewrite trim_start_matches_app_all by done; apply Htime].
    unfold trim_start. rewrite trim_start_matches_app_all by done.
    unfold RANGE_SEPARATORS in Hsep. rewrite !elem_of_cons in Hsep.
    destruct Hsep as [-> |[-> |[-> |[-> |Hsep%not_elem_of_nil]]]]; [..|done]; reflexivity. }
  destruct (strip_prefix (u "24:00") (trim_start after)) as [r0|] eqn:E24.
  - intros [= <- <-]. apply strip_prefix_Some in E24. exists (w ++ sep ++ w' ++ u "24:00"). split.
    { rewrite Htext, Hsep', Hafter, E24 at 1. by rewrite <- !app_assoc. }
    intros r. rewrite <- !app_assoc. destruct (Hany (u "24:00") ltac:(done) r) as [-> Ht]. cbn [mbind option_bind].
    rewrite Ht. by rewrite strip_prefix_app.
  - destruct (parse_time_prefix (trim_start after)) as [[m tail]|] eqn:Ep; [|done]. intros [= <- <-].
    destruct (parse_time_prefix_app _ _ _ Ep) as (p & Hp & Hpr). exists (w ++ sep ++ w' ++ p). split.
    { rewrite Htext, Hsep', Hafter, Hp at 1. by rewrite <- !app_assoc. }
    assert (∀ r, trim_start (p ++ r) = p ++ r) as Hpt.
    { intros r. apply trim_start_id. pose proof (trim_start_head after) as Hh. rewrite Hp in Hh.
      assert (p ≠ []) by (intros ->; specialize (Hpr []); by vm_compute in Hpr). by rewrite starts_as_app in Hh |- *. }
    intros r. rewrite <- !app_assoc. destruct (Hany p Hpt r) as [-> Ht]. cbn [mbind option_bind]. rewrite Ht.
    destruct (strip_prefix (u "24:00") (p ++ r)) as [r1|] eqn:E1; [|apply Hpr].
    apply strip_prefix_Some in E1. specialize (Hpr r). rewrite E1 in Hpr. by cbn in Hpr.
Qed.

(** The token a text starts with is still its token before [~~]. *)
Lemma token_before_strike before start len x :
  leading_time_token before = Some (start, len) →
  leading_time_token (take len before ++ u " " ++ u "~~" ++ x) = Some (start, len).
Proof.
  intros H. pose proof (leading_time_token_len _ _ _ H) as [_ Hlen]. revert H. unfold leading_time_token.
  destruct (parse_time_prefix before) as [[m after]|] eqn:Et; [|done].
  destruct (parse_time_prefix_app _ _ _ Et) as (p & Hbefore & Hp).
  set (tail := u " " ++ u "~~" ++ x).
  assert (ends_token tail = true) as Htail by done. assert (parse_range_end tail = None) as Hnone by done.
  assert (leading_time_token before = Some (m, length before - length after) → ends_token after = true →
    match parse_time_prefix (take (length p) before ++ tail) with
    | Some (start, after_start) =>
        match (match parse_range_end after_start with
               | Some (_, after_end) => if ends_token after_end then Some (start, length (take (length p) before ++ tail) - length after_end) else None
               | None => None
               end) with
        | Some token => Some token
        | None => if ends_token after_start then Some (start, length (take (length p) before ++ tail) - length after_start) else None
        end
    | None => None
    end = Some (m, length p)) as Hstart.
  { intros _ _. rewrite Hbefore, take_app_length, Hp, Hnone, Htail, length_app. f_equal. f_equal. lia. }
  assert (length before - length after = length p) as Hl by (rewrite Hbefore, length_app; lia).
  destruct (parse_range_end after) as [[e after_end]|] eqn:Er.
  - destruct (ends_token after_end) eqn:Ee.
    + intros [= <- <-]. destruct (parse_range_end_app _ _ _ Er) as (q & Hafter & Hq).
      assert (length before - length after_end = length (p ++ q)) as ->
        by (rewrite Hbefore, Hafter, !length_app; lia).
      assert (before = (p ++ q) ++ after_end) as -> by by rewrite Hbefore, Hafter, app_assoc.
      rewrite take_app_length, <- app_assoc, Hp, Hq, Htail. f_equal. f_equal. rewrite !length_app. lia.
    + destruct (ends_token after) eqn:Ea; [|done]. rewrite Hl. intros [= <- <-]. apply Hstart; [|done].
      unfold leading_time_token. by rewrite Et, Er, Ee, Ea.
  - destruct (ends_token after) eqn:Ea; [|done]. rewrite Hl. intros [= <- <-]. apply Hstart; [|done].
    unfold leading_time_token. by rewrite Et, Er, Ea.
Qed.

(** A cancellation is marked once. The line of an event that is gone is read
    back as the same event's line, marked as cancelled, with the whole of its old
    text still on it; so the next pass leaves it alone. *)
Theorem cancel_settles row line s :
  SyncedLine_parse row line = Some s →
  ∃ s', SyncedLine_parse row (cancelled_form s) = Some s' ∧ sl_id s' = sl_id s ∧ sl_suffix s' = sl_suffix s ∧
    token_of s' = token_of s ∧ text_of s' = u "~~" ++ text_of s ++ CANCELLED_SUFFIX ∧ is_cancelled s' = true.
Proof.
  intros Hparse. unfold cancelled_form. set (text := u "~~" ++ text_of s ++ CANCELLED_SUFFIX).
  change None with (next_marker s None) at 1.
  assert (trim text = text) as Htrim.
  { apply trim_ends; [done|]. subst text. change CANCELLED_SUFFIX with (u "~~ (cancelled" ++ [ch ")"]).
    rewrite !app_assoc. by apply trim_end_last_char. }
  destruct (synced_shape _ _ _ Hparse) as (pre & before & payload & w & _ & _ & _ & _ & Hb & Hs).
  assert (token_of s = if (0 <? token_length before)%nat then Some (take (token_length before) before) else None) as Htok
    by (rewrite Hs; by apply token_synced).
  assert (∀ t, token_of s = Some t → t ≠ [] ∧ starts_as is_whitespace t = false) as Htoken.
  { intros t. rewrite Htok. destruct (Nat.ltb_spec 0 (token_length before)) as [Hl|]; [|done]. intros [= <-].
    pose proof (token_length_le before). split.
    - intros E. apply (f_equal length) in E. rewrite length_take_le in E by lia. cbn in E. lia.
    - destruct before as [|c before]; [cbn in *; lia|]. destruct (token_length (c :: before)); [lia|]. exact Hb. }
  destruct (content_some (token_of s) text Htoken) as [Hc1 Hc2]; [done|].
  destruct (rebuilt_parse row line s (token_of s) text None Hparse Hc1 Hc2 Htrim) as (s' & Hp' & _ & Hid & Hsfx & Ht' & Htx').
  { intros t Ht. by apply Htoken. }
  { intros mid Hmid. rewrite Htok. unfold token_length.
    destruct (leading_time_token before) as [[start len]|] eqn:El; [|by apply no_digit_no_token].
    pose proof (leading_time_token_len _ _ _ El) as [Hpos Hle]. rewrite (proj2 (Nat.ltb_lt 0 len)) by done.
    exists start. rewrite length_take_le by done. unfold content. rewrite bool_decide_eq_false_2 by done.
    rewrite <- !app_assoc. subst text. rewrite <- !app_assoc. by apply token_before_strike. }
  exists s'. split_and!; [exact Hp'|done|done|done|exact Htx'|].
  unfold is_cancelled, cancelled_parts. rewrite Htx'. subst text. rewrite strip_prefix_app. cbn [mbind option_bind].
  destruct (find_sub CANCELLED_SUFFIX _) eqn:E; [done|]. exfalso. rewrite find_sub_None in E.
  specialize (E (length (text_of s))). by rewrite drop_app_length, <- (app_nil_r CANCELLED_SUFFIX), starts_with_refl_app in E.
Qed.

(** ** The note *)

(** A line the calendar did not write. *)
Definition users_line (line : str) : bool := is_none (SyncedLine_parse 0 line).

Lemma parse_other_row row row' line :
  is_none (SyncedLine_parse row line) = is_none (SyncedLine_parse row' line).
Proof.
  unfold SyncedLine_parse. destruct (rfind_sub _ _); [|done]. cbn [mbind option_bind].
  destruct (strip_suffix _ _); [|done]. cbn [mbind option_bind]. destruct (parse_marker_payload _); [|done].
  cbn [mbind option_bind]. destruct (checkbox_text_offset line); [|done]. cbn [mbind option_bind].
  by destruct (match leading_time_token _ with Some _ => _ | None => _ end).
Qed.

Section notes.
Context `{tables : UnicodeTables}.

Lemma rows_of_lookup lines r row line : (row, line) ∈ rows_of lines r → lines !! row = Some line.
Proof.
  unfold rows_of, rows. rewrite list_elem_of_filter. intros [_ (i & x & [= -> ->] & Hx)%elem_of_lookup_imap]. done.
Qed.

(** Why a line is rewritten. *)
Definition rewrites (lines : list str) (events : list CalendarEvent) (row : nat) (text : str) : Prop :=
  ∃ line s, lines !! row = Some line ∧ SyncedLine_parse row line = Some s ∧
    ((sl_id s ∉ map event_id events ∧ text = cancelled_form s) ∨
     ∃ event, event ∈ events ∧ event_id event = sl_id s ∧ updated_for s event = Some text).

Definition edit_ok (lines : list str) (events : list CalendarEvent) (e : LineEdit) : Prop :=
  match edit_kind e with Insert _ => True | Replace text => rewrites lines events (edit_row e) text end.

Lemma synced_line_of lines r s :
  s ∈ synced_lines lines r → ∃ line, lines !! sl_row s = Some line ∧ SyncedLine_parse (sl_row s) line = Some s.
Proof.
  intros ([row line] & Hin & Hp)%list_elem_of_omap. cbn [fst snd] in Hp. apply rows_of_lookup in Hin.
  exists line. assert (sl_row s = row) as ->; [|done].
  destruct (synced_shape _ _ _ Hp) as (? & ? & ? & ? & _ & _ & _ & _ & _ & ->). done.
Qed.

Lemma event_fold_ok lines r events todo acc :
  (∀ e, e ∈ todo → e ∈ events) → Forall (edit_ok lines events) acc.1.1 →
  Forall (edit_ok lines events) (fold_left (event_step (synced_lines lines r)) todo acc).1.1.
Proof.
  revert acc. induction todo as [|event todo IH]; intros [[edits diverged] inserts] Hin Hacc; cbn [fold_left]; [done|].
  apply IH; [intros; apply Hin; set_solver|]. cbn [event_step fst] in *.
  destruct (line_by_id _ _) as [s|] eqn:El; [|done]. destruct (updated_for s event) as [text|] eqn:Eu; [|done]. cbn [fst].
  destruct (bool_decide _); [done|]. apply Forall_app. split; [done|]. apply Forall_singleton. unfold edit_ok. cbn.
  unfold line_by_id in El. destruct (list_find _ _) as [[i s']|] eqn:Ef; [|done]. injection El as ->.
  apply list_find_Some in Ef as (Hs & Hid & _). apply list_elem_of_lookup_2 in Hs.
  destruct (synced_line_of _ _ _ Hs) as (line & Hl & Hp). exists line, s. split_and!; [done|done|]. right.
  exists event. split; [apply Hin; set_solver|done].
Qed.

Lemma section_edits_ok lines r events : Forall (edit_ok lines events) (section_edits lines r events).1.
Proof.
  unfold section_edits.
  pose proof (event_fold_ok lines r events events ([], [], []) ltac:(done) ltac:(constructor)) as Hf.
  destruct (fold_left _ _ _) as [[edits diverged] inserts]. cbn [fst] in *. rewrite sort_by_Permutation.
  apply Forall_app. split; [done|]. apply Forall_app. split.
  - apply Forall_forall. intros e (s & Hs & He)%list_elem_of_omap.
    destruct (bool_decide (sl_id s ∈ _)) eqn:Eid; [done|]. cbn [negb andb] in He. destruct (negb (is_cancelled s)); [|done].
    injection He as <-. apply bool_decide_eq_false in Eid. unfold edit_ok. cbn.
    destruct (synced_line_of _ _ _ Hs) as (line & Hl & Hp). exists line, s. split_and!; [done|done|by left].
  - apply Forall_forall. intros e (event & -> & _)%list_elem_of_fmap. done.
Qed.

Lemma reconcile_edits_ok note events config edits diverged :
  reconcile note events config = Edits edits diverged →
  Forall (edit_ok (str_lines note) (dedup_events events)) edits.
Proof.
  unfold reconcile. destruct (planner_section _ _) as [[range level]|]; [|done].
  destruct (find_child_section _ _ _ _) as [section|].
  - pose proof (section_edits_ok (str_lines note) section (dedup_events events)) as H.
    destruct (section_edits _ _ _) as [e d]. by intros [= <- <-].
  - destruct (bool_decide _); [intros [= <- _]; constructor|]. destruct (6 <=? level)%nat; [done|].
    intros [= <- _]. apply Forall_forall. intros e (text & -> & _)%list_elem_of_fmap. done.
Qed.

Lemma replacement_edit edits row text :
  replacement_at edits row = Some text → mkEdit row (Replace text) ∈ edits.
Proof.
  unfold replacement_at. intros H. apply last_Some in H as [l Hl].
  assert (text ∈ l ++ [text]) as Hin by set_solver. rewrite <- Hl in Hin.
  apply list_elem_of_omap in Hin as ([r k] & He & Hk). cbn in Hk. destruct k as [|t]; [done|].
  destruct (Nat.eqb_spec r row) as [<-|]; [|done]. by injection Hk as <-.
Qed.

Lemma kept_lines (keep : str → bool) edits lines k :
  (∀ i line text, lines !! i = Some line → replacement_at edits (k + i) = Some text → keep line = false) →
  filter (λ line, keep line = true) lines `sublist_of` concat (imap (λ i, edited_row edits (k + i)) lines).
Proof.
  revert k. induction lines as [|line lines IH]; intros k Hk; [done|]. rewrite imap_cons. cbn [concat].
  assert (filter (λ line, keep line = true) lines `sublist_of` concat (imap ((λ i, edited_row edits (k + i)) ∘ S) lines)) as Hrest.
  { assert (imap ((λ i, edited_row edits (k + i)) ∘ S) lines = imap (λ i, edited_row edits (S k + i)) lines) as ->.
    { apply imap_ext. intros i x _. cbn. f_equal. lia. }
    apply IH. intros i x text Hi Hr. apply (Hk (S i) x text Hi). by replace (k + S i) with (S k + i) by lia. }
  rewrite filter_cons. unfold edited_row at 1. rewrite Nat.add_0_r. rewrite <- app_assoc.
  apply sublist_inserts_l. destruct (decide _) as [Hkeep|]; [|by apply sublist_cons].
  destruct (replacement_at edits k) as [text|] eqn:Er; [|by apply sublist_skip].
  rewrite (Hk 0 line text) in Hkeep; [done|done|by rewrite Nat.add_0_r].
Qed.

(** C14: a sync never costs the user a line. Whatever the note and the events,
    every line the calendar did not write is in the new note, unchanged and in
    its order; and a line that is rewritten is a synced line, brought in line
    with its own event or, the event gone, marked as cancelled. *)
Theorem sync_keeps_the_note note events config edits diverged :
  reconcile note events config = Edits edits diverged →
  filter (λ line, users_line line = true) (str_lines note) `sublist_of` edited_lines (str_lines note) edits ∧
  ∀ row text, replacement_at edits row = Some text → rewrites (str_lines note) (dedup_events events) row text.
Proof.
  intros H. apply reconcile_edits_ok in H. rewrite Forall_forall in H.
  assert (∀ row text, replacement_at edits row = Some text → rewrites (str_lines note) (dedup_events events) row text) as Hr.
  { intros row text He%replacement_edit. exact (H _ He). }
  split; [|done]. unfold edited_lines. apply sublist_inserts_r. apply (kept_lines users_line edits _ 0).
  intros i line text Hi He. destruct (Hr _ _ He) as (line' & s & Hl & Hp & _). cbn [Nat.add] in Hl, Hp. rewrite Hi in Hl.
  injection Hl as <-. unfold users_line. by rewrite (parse_other_row 0 i), Hp.
Qed.
End notes.
