(* ===== verification/ReminderIndex.v ===== *)
(** * The reminders index ([thock/src/reminder_index.rs])

    [reminders.md] and the notes it links to read into reminders, the changes of
    lines a batch writes, and the batch that keeps the index in step with the
    notes. A [BTreeMap] is the list of its entries in key order. *)

From stdpp Require Import gmap.
From S2P Require Import Prelude Strings External Ordering Write Lines HeadingKey LineHash Sections Dates.
From S2P Require Import Reminder Mirror.

(** [NaiveDateTime] (crate [chrono]): its date, and its nanoseconds since a fixed
    instant, by which instants are compared and subtracted. *)
Class DateTimes `{Chrono} := {
  NaiveDateTime : Type;
  dt_date : NaiveDateTime → NaiveDate;
  dt_nanos : NaiveDateTime → Z;
  dt_add_nanos : NaiveDateTime → Z → NaiveDateTime;
}.

Class DateTimesLaws `{DateTimes} : Prop := {
  dt_add_nanos_spec t n : dt_nanos (dt_add_nanos t n) = (dt_nanos t + n)%Z;
}.

(** Ten seconds. *)
Definition REMOVAL_GRACE : Z := 10 * 1000 * 1000 * 1000.

Definition INDEX_COMMENT : str :=
  u "<!-- Thock keeps this index. A task here is a reminder; a link points at one that lives in another note. -->".

(** ** Settings ([reminders.rs]) *)

Record ReminderSettings `{Clock} := mkSettings {
  rs_index : str;
  open_headings : list str;
  done_headings : list str;
  rs_day_headings : list str;
  date_only_at : NaiveTime;
  snooze_minutes : N;
  tomorrow_at : NaiveTime;
  ring_on_desk : bool
}.

(** ** Entries *)

Inductive IndexSection := Section_Open | Section_Done.

#[export] Instance IndexSection_eq_dec : EqDecision IndexSection.
Proof. solve_decision. Defined.

Inductive StampKind := Stamp_Done | Stamp_Dropped | Stamp_Removed.

#[export] Instance StampKind_eq_dec : EqDecision StampKind.
Proof. solve_decision. Defined.

(** [✅] *)
Definition STAMP_DONE : char := 0x2705%N.

Inductive EntryKind := Link (home : str) | Loose.

Definition is_link (k : EntryKind) : bool := match k with Link _ => true | Loose => false end.

Definition link_path (target : str) : str :=
  let target := trim_start_matches (N.eqb (ch "/")) (trim target) in
  if ends_with (u ".md") (map ascii_lower target) then target else target ++ u ".md".

(** A top-level item's text. *)
Definition list_item_body (line : str) : option str :=
  find_map (λ marker, strip_prefix marker line) [u "- "; u "* "; u "+ "].

(** [line.split('\n').nth(row)] and the like, without its carriage returns. *)
Definition trim_cr (line : str) : str := trim_end_matches (N.eqb 13) line.

(** The text cut before its last [n] bytes; nowhere when that is inside a
    character. *)
Fixpoint cut_last_bytes (fuel : nat) (n : nat) (front back : str) : option (str * str) :=
  match n, fuel with
  | 0, _ => Some (front, back)
  | _, 0 => None
  | _, S fuel =>
      match last front with
      | None => None
      | Some c =>
          let len := utf8_len [c] in
          if (len <=? n)%nat then cut_last_bytes fuel (n - len) (removelast front) (c :: back) else None
      end
  end.

Section index.
Context `{Clock} `{!DateTimes} `{!ChronoParse} `{UnicodeTables}.

Record Stamp := mkStamp { stamp_kind : StampKind; stamp_date : NaiveDate }.

Definition Stamp_text (s : Stamp) : str :=
  match stamp_kind s with
  | Stamp_Done => [STAMP_DONE]
  | Stamp_Dropped => u "dropped"
  | Stamp_Removed => u "removed"
  end ++ u " " ++ format_ymd (stamp_date s).

Record IndexEntry := mkEntry {
  en_id : str;
  en_row : nat;
  en_section : IndexSection;
  en_kind : EntryKind;
  en_stamp : option Stamp
}.

Definition section_of (settings : ReminderSettings) (heading : str) : option IndexSection :=
  if existsb (heading_matches heading) (open_headings settings) then Some Section_Open
  else if existsb (heading_matches heading) (done_headings settings) then Some Section_Done
  else None.

Definition section_ranges (text : str) (settings : ReminderSettings) : list (IndexSection * range) :=
  let headings := note_headings text in
  let line_count := length (split_char 10 text) in
  omap (λ heading,
    section ← section_of settings (nh_text heading);
    let end_ := from_option nh_row line_count
      (find (λ other, (nh_row heading <? nh_row other)%nat && (nh_level other <=? nh_level heading)%nat) headings) in
    Some (section, mkRange (nh_row heading + 1) end_)) headings.

Definition parse_stamp (line : str) : option Stamp :=
  let head := trim_end (take (trailing_comments_start line) line) in
  '(before, date_text) ← cut_last_bytes 10 10 head [];
  date ← parse_ymd date_text;
  let before := trim_end before in
  kind ← (if ends_with [STAMP_DONE] before then Some Stamp_Done
          else if ends_with (u " dropped") before then Some Stamp_Dropped
          else if ends_with (u " removed") before then Some Stamp_Removed
          else None);
  Some (mkStamp kind date).

Definition entry_kind (body : str) : EntryKind :=
  match strip_prefix (u "[[") body ≫= split_once (u "]]") with
  | Some (target, _) => Link (link_path (default target (fst <$> split_once (u "|") target)))
  | None => Loose
  end.

Definition entry_of (ranges : list (IndexSection * range)) (lines : list str) (a : Appearance) : option IndexEntry :=
  id ← lr_id (ap_reminder a);
  '(section, _) ← find (λ r, range_contains r.2 (ap_line a)) (rev ranges);
  line ← trim_cr <$> lines !! ap_line a;
  body ← list_item_body line;
  Some (mkEntry id (ap_line a) section (entry_kind body) (parse_stamp line)).

Definition parse_index (text index_path : str) (settings : ReminderSettings) (config : ReminderConfig)
  : list IndexEntry :=
  omap (entry_of (section_ranges text settings) (split_char 10 text)) (parse_note text index_path config).

Definition find_home (text path id : str) (config : ReminderConfig) : option Appearance :=
  let candidates := filter (λ a, ap_mirror a = false ∧ lr_id (ap_reminder a) = Some id)
    (parse_note text path config) in
  let with_token := fst <$> list_find (λ a, is_some (lr_token (ap_reminder a)) = true) candidates in
  candidates !! default 0 with_token.

(** ** Reading *)

Inductive IndexedState := Indexed_Open | Indexed_Closed | Indexed_Dropped | Indexed_Removed | Indexed_Missing.

#[export] Instance IndexedState_eq_dec : EqDecision IndexedState.
Proof. solve_decision. Defined.

Record IndexedReminder := mkIndexed {
  ir_id : str;
  ir_section : IndexSection;
  ir_kind : EntryKind;
  ir_stamp : option Stamp;
  ir_home : str;
  ir_line : option nat;
  ir_line_text : option str;
  ir_text : option str;
  ir_due : option Due;
  ir_task : option Task;
  ir_state : IndexedState
}.

Definition IndexedReminder_group (r : IndexedReminder) (today : NaiveDate) : option Group :=
  match ir_state r with
  | Indexed_Open => group State_Open (ir_due r) today
  | Indexed_Closed => group State_Closed (ir_due r) today
  | Indexed_Dropped => group State_Dropped (ir_due r) today
  | Indexed_Removed => Some Reminder.Done
  | Indexed_Missing => None
  end.

Definition rings_at (r : IndexedReminder) (at_ : NaiveTime) : option (NaiveDate * NaiveTime) :=
  due ← ir_due r; Some (due_at due at_).

Definition ir_is_open (r : IndexedReminder) : bool := bool_decide (ir_state r = Indexed_Open).

Definition indexed_state (s : ReminderState) : IndexedState :=
  match s with State_Open => Indexed_Open | State_Closed => Indexed_Closed | State_Dropped => Indexed_Dropped end.

Definition read_entry (index_path index_text : str) (files : gmap str str) (config : ReminderConfig)
    (entry : IndexEntry) : IndexedReminder :=
  let home := match en_kind entry with Link home => home | Loose => index_path end in
  let text := if home == index_path then Some index_text else files !! home in
  let found :=
    text ← text;
    appearance ← find_home text home (en_id entry) config;
    line ← split_char 10 text !! ap_line appearance;
    Some (appearance, trim_cr line) in
  match found with
  | Some (appearance, line) =>
      let reminder := ap_reminder appearance in
      mkIndexed (en_id entry) (en_section entry) (en_kind entry) (en_stamp entry) home
        (Some (ap_line appearance)) (Some line) (Some (reminder_text line)) (lr_due reminder) (lr_task reminder)
        (indexed_state (reminder_state reminder))
  | None =>
      mkIndexed (en_id entry) (en_section entry) (en_kind entry) (en_stamp entry) home None None None None None
        (if is_some_and (λ stamp, bool_decide (stamp_kind stamp = Stamp_Removed)) (en_stamp entry)
         then Indexed_Removed else Indexed_Missing)
  end.

Definition read_index (index_path index_text : str) (files : gmap str str) (settings : ReminderSettings)
    (config : ReminderConfig) : list IndexedReminder :=
  map (read_entry index_path index_text files config) (parse_index index_text index_path settings config).

(** ** The scan *)

Record ScanLine := mkScan {
  sc_row : nat;
  sc_id : option str;
  sc_token : bool;
  sc_has_day : bool;
  sc_closed : bool;
  sc_mirror : bool
}.

Definition scan_state (l : ScanLine) : ReminderState :=
  if sc_token l then (if sc_closed l then State_Closed else State_Open) else State_Dropped.

Definition scan_line_of (a : Appearance) : ScanLine :=
  let reminder := ap_reminder a in
  mkScan (ap_line a) (lr_id reminder) (is_some (lr_token reminder)) (is_some (lr_due reminder))
    ((lr_task reminder == Some Task_Done) || is_some_and token_struck (lr_token reminder)) (ap_mirror a).

Definition scan_note (text path : str) (config : ReminderConfig) : list ScanLine :=
  map scan_line_of (parse_note text path config).

(** ** Changes *)

Inductive HomeEdit := Edit_Close | Edit_Reopen | Edit_Rewrite (due : Due) | Edit_Drop.

Inductive Change :=
| AddId (row : nat) (expected id : str)
| HomeChange (id : str) (edit : HomeEdit)
| AppendEntry (section : IndexSection) (line : str)
| ReplaceEntry (id line : str)
| MoveEntry (id : str) (to_ : IndexSection) (line : str)
| RemoveDuplicateLinks (id : str).

Record FileChanges := mkFileChanges { fc_path : str; fc_changes : list Change }.

Definition index_skeleton (settings : ReminderSettings) : str :=
  let open := default (u "Open") (head (open_headings settings)) in
  let done := default (u "Done") (head (done_headings settings)) in
  u "# Reminders" ++ [10; 10]%N ++ INDEX_COMMENT ++ [10; 10]%N ++ u "## " ++ open ++ [10; 10]%N
  ++ u "## " ++ done ++ [10]%N.

(** ** The lines of a file being changed *)

(** [Lines]: the lines with their endings, and the ending new lines take. *)
Record FileLines := mkLines { fl_lines : list str; fl_endings : list str; fl_ending : str }.

Definition CRLF_BREAK : str := [13; 10]%N.
Definition LF_BREAK : str := [10%N].

Definition cut_ending (piece : str) : str * str :=
  match strip_suffix CRLF_BREAK piece with
  | Some line => (line, CRLF_BREAK)
  | None =>
      match strip_suffix LF_BREAK piece with
      | Some line => (line, LF_BREAK)
      | None => (piece, [])
      end
  end.

Definition Lines_split (text : str) : FileLines :=
  let pieces := map cut_ending (split_inclusive text) in
  let crlf := length (filter (λ p, p.2 = CRLF_BREAK) pieces) in
  let lf := length (filter (λ p, p.2 = LF_BREAK) pieces) in
  mkLines (map fst pieces) (map snd pieces) (if (lf <? crlf)%nat then CRLF_BREAK else LF_BREAK).

Definition Lines_join (l : FileLines) : str := concat (zip_with app (fl_lines l) (fl_endings l)).

(** [Vec::insert] and [Vec::remove]; the index is in the list. *)
Definition vec_insert {A} (at_ : nat) (x : A) (l : list A) : list A := take at_ l ++ x :: drop at_ l.
Definition vec_remove {A} (at_ : nat) (l : list A) : list A := take at_ l ++ drop (S at_) l.

(** [*last = x] on the last element, if there is one. *)
Definition set_last {A} (x : A) (l : list A) : list A :=
  match last l with Some _ => removelast l ++ [x] | None => l end.

Definition Lines_insert (at_ : nat) (line : str) (l : FileLines) : FileLines :=
  let at_ := Nat.min at_ (length (fl_lines l)) in
  if (at_ =? length (fl_lines l))%nat && is_some_and is_empty (last (fl_endings l))
  then mkLines (fl_lines l ++ [line]) (set_last (fl_ending l) (fl_endings l) ++ [[]]) (fl_ending l)
  else mkLines (vec_insert at_ line (fl_lines l)) (vec_insert at_ (fl_ending l) (fl_endings l)) (fl_ending l).

Definition Lines_remove (at_ : nat) (l : FileLines) : FileLines :=
  if (at_ <? length (fl_lines l))%nat then
    let lines := vec_remove at_ (fl_lines l) in
    let ending := default [] (fl_endings l !! at_) in
    let endings := vec_remove at_ (fl_endings l) in
    mkLines lines (if (at_ =? length lines)%nat && is_empty ending then set_last [] endings else endings)
      (fl_ending l)
  else l.

Definition set_line (row : nat) (line : str) (l : FileLines) : FileLines :=
  mkLines (<[row := line]> (fl_lines l)) (fl_endings l) (fl_ending l).

(** ** Sections of the index while it changes *)

Definition section_end (l : FileLines) (section : IndexSection) (settings : ReminderSettings) : option nat :=
  '(_, range) ← find (λ r, bool_decide (r.1 = section)) (section_ranges (Lines_join l) settings);
  Some (fold_left (λ end_ row,
      if is_some_and (λ line, negb (is_empty (trim line))) (fl_lines l !! row) then row + 1 else end_)
    (seq (r_start range) (r_end range - r_start range)) (r_start range)).

Definition add_heading (l : FileLines) (section : IndexSection) (settings : ReminderSettings) : FileLines :=
  let name := match section with
    | Section_Open => default (u "Open") (head (open_headings settings))
    | Section_Done => default (u "Done") (head (done_headings settings))
    end in
  let heading := u "## " ++ name in
  let done_heading := match section with
    | Section_Open =>
        '(_, range) ← find (λ r, bool_decide (r.1 = Section_Done)) (section_ranges (Lines_join l) settings);
        Some (r_start range - 1)
    | Section_Done => None
    end in
  match done_heading with
  | Some row => Lines_insert (row + 1) [] (Lines_insert row heading l)
  | None =>
      let l := if is_some_and (λ line, negb (is_empty (trim line))) (last (fl_lines l))
        then Lines_insert (length (fl_lines l)) [] l else l in
      Lines_insert (length (fl_lines l)) heading l
  end.

(** The lines once the section is there, and the row at its end. *)
Definition end_of_section (l : FileLines) (section : IndexSection) (settings : ReminderSettings) : FileLines * nat :=
  match section_end l section settings with
  | Some row => (l, row)
  | None =>
      let l := add_heading l section settings in
      (l, default (length (fl_lines l)) (section_end l section settings))
  end.

Definition append_entry (l : FileLines) (section : IndexSection) (line : str) (settings : ReminderSettings)
  : FileLines * nat :=
  let '(l, row) := end_of_section l section settings in (Lines_insert row line l, row).

Definition insert_loose_line (text : option str) (settings : ReminderSettings) : str * nat :=
  let initial := default (index_skeleton settings) text in
  let '(l, row) := append_entry (Lines_split initial) Section_Open (u "- [ ] ") settings in
  (Lines_join l, row).

Definition entry_row (l : FileLines) (path id : str) (settings : ReminderSettings) (config : ReminderConfig)
  : option nat :=
  en_row <$> find (λ entry, en_id entry == id) (parse_index (Lines_join l) path settings config).

(** ** Applying changes: [None] is a panic *)

Definition indent_of (line : str) : nat := utf8_len line - utf8_len (trim_start line).

(** The end of the children of an entry, from row [end_] on. *)
Fixpoint move_end (fuel : nat) (lines : list str) (base end_ : nat) : nat :=
  match fuel with
  | 0 => end_
  | S fuel =>
      if is_some_and (λ child, negb (is_empty (trim child)) && (base <? indent_of child)%nat) (lines !! end_)
      then move_end fuel lines base (S end_) else end_
  end.

Definition target_row (lines : list str) (row : nat) (expected : str) : option nat :=
  if bool_decide (lines !! row = Some expected) then Some row
  else match filter (λ i, lines !! i = Some expected) (seq 0 (length lines)) with
    | [only] => Some only
    | _ => None
    end.

Definition edit_home (edit : HomeEdit) (line : str) (day : option NaiveDate) : option str :=
  match edit with
  | Edit_Close => close line
  | Edit_Reopen => reopen line
  | Edit_Rewrite due => rewrite line due day
  | Edit_Drop => drop_token line
  end.

Definition duplicate_rows (entries : list IndexEntry) (id : str) : list nat :=
  map en_row (filter (λ entry, is_link (en_kind entry) = true) (drop 1 (filter (λ entry, en_id entry = id) entries))).

(** The entry at [row] and its children, as one entry at the end of [to_]. *)
Definition move_rows (l : FileLines) (row base : nat) (to_ : IndexSection) (line : str) (settings : ReminderSettings)
  : FileLines :=
  let end_ := move_end (S (length (fl_lines l))) (fl_lines l) base (S row) in
  let children := drop (S row) (take end_ (fl_lines l)) in
  let l := Nat.iter (end_ - row) (Lines_remove row) l in
  let '(l, at_) := append_entry l to_ line settings in
  fold_left (λ l '(offset, child), Lines_insert (at_ + 1 + offset) child l) (imap pair children) l.

Definition apply_change (path : str) (settings : ReminderSettings) (config : ReminderConfig) (l : FileLines)
    (change : Change) : option FileLines :=
  match change with
  | AddId row expected id =>
      match target_row (fl_lines l) row expected with
      | None => Some l
      | Some row =>
          line ← fl_lines l !! row;
          Some (from_option (λ edited, set_line row edited l) l (add_id line id))
      end
  | HomeChange id edit =>
      match find_home (Lines_join l) path id config with
      | None => Some l
      | Some home =>
          line ← fl_lines l !! ap_line home;
          Some (from_option (λ edited, set_line (ap_line home) edited l) l
                  (edit_home edit line (day_of (config_daily config) path)))
      end
  | AppendEntry section line => Some (append_entry l section line settings).1
  | RemoveDuplicateLinks id =>
      Some (fold_left (λ l row, Lines_remove row l)
              (rev (duplicate_rows (parse_index (Lines_join l) path settings config) id)) l)
  | ReplaceEntry id line =>
      match entry_row l path id settings config with
      | None => Some l
      | Some row => _ ← fl_lines l !! row; Some (set_line row line l)
      end
  | MoveEntry id to_ line =>
      match entry_row l path id settings config with
      | None => Some l
      | Some row => entry ← fl_lines l !! row; Some (move_rows l row (indent_of entry) to_ line settings)
      end
  end.

Definition needs_index (change : Change) : bool :=
  match change with AppendEntry _ _ | MoveEntry _ _ _ => true | _ => false end.

Fixpoint apply_loop (path : str) (settings : ReminderSettings) (config : ReminderConfig) (changes : list Change)
    (l : FileLines) : option FileLines :=
  match changes with
  | [] => Some l
  | change :: changes => l ← apply_change path settings config l change; apply_loop path settings config changes l
  end.

Definition apply_changes (text : option str) (path : str) (changes : list Change) (settings : ReminderSettings)
    (config : ReminderConfig) : option str :=
  let initial := match text with
    | Some text => text
    | None => if existsb needs_index changes then index_skeleton settings else []
    end in
  Lines_join <$> apply_loop path settings config changes (Lines_split initial).

(** ** The batch *)

Abbreviation Scan := (list (str * list ScanLine)) (only parsing).
Abbreviation FileEdits := (list (str * list Change)) (only parsing).

Record BatchInput := mkBatch {
  bi_index_path : str;
  bi_index_text : option str;
  bi_scan : Scan;
  bi_previous : Scan;
  bi_changed : list (str * str);
  bi_skip_rows : gmap str (gset nat);
  bi_now : NaiveDateTime
}.

Record BatchPlan := mkPlan { bp_changes : list FileChanges; recheck_at : option NaiveDateTime }.

Definition link_line (home id : str) (stamp : option Stamp) : str :=
  u "- [[" ++ note_link home ++ u "]] "
  ++ match stamp with Some stamp => Stamp_text stamp ++ u " " | None => [] end ++ id_marker id.

Definition restamp (line : str) (stamp : option Stamp) : str :=
  let split := trailing_comments_start line in
  let head := trim_end (take split line) in
  let head := match parse_stamp line, cut_last_bytes 10 10 head [] with
    | Some _, Some (before, _) =>
        let trimmed := trim_end before in
        let trimmed := match strip_suffix [STAMP_DONE] trimmed with
          | Some rest => rest
          | None =>
              match strip_suffix (u "dropped") trimmed with
              | Some rest => rest
              | None => default trimmed (strip_suffix (u "removed") trimmed)
              end
          end in
        trim_end trimmed
    | _, _ => head
    end in
  let head := match stamp with Some stamp => head ++ u " " ++ Stamp_text stamp | None => head end in
  let comments := trim (drop split line) in
  if is_empty comments then head else head ++ u " " ++ comments.

(** One entry per id, and the removals of the later links. *)
Definition dedup_entry (acc : list IndexEntry * list Change) (entry : IndexEntry) : list IndexEntry * list Change :=
  let '(entries, changes) := acc in
  if negb (existsb (λ e, en_id e == en_id entry) entries) then (entries ++ [entry], changes)
  else if is_link (en_kind entry)
       && negb (existsb (λ c, match c with RemoveDuplicateLinks id => id == en_id entry | _ => false end) changes)
  then (entries, changes ++ [RemoveDuplicateLinks (en_id entry)])
  else (entries, changes).

(** [changes.entry(path).or_default().extend(new)] *)
Definition extend_changes (path : str) (new : list Change) (changes : FileEdits) : FileEdits :=
  btree_insert path (default [] (btree_get path changes) ++ new) changes.

(** The next valid id not known yet, and the draws made. *)
Fixpoint draw_id (new_id : nat → str) (fuel drawn : nat) (known : gset str) : option (str * nat) :=
  match fuel with
  | 0 => None
  | S fuel =>
      let candidate := new_id drawn in
      if is_id candidate && negb (bool_decide (candidate ∈ known)) then Some (candidate, S drawn)
      else draw_id new_id fuel (S drawn) known
  end.

(** What step 2 carries: ids known, changes planned, draws made. *)
Record Naming := mkNaming { known : gset str; named : FileEdits; drawn : nat }.

Definition set_id (id : str) (l : ScanLine) : ScanLine :=
  mkScan (sc_row l) (Some id) (sc_token l) (sc_has_day l) (sc_closed l) (sc_mirror l).

(** The line takes an id: it names a day, has none, and no cursor sits on it. *)
Definition unnamed (skip : option (gset nat)) (line : ScanLine) : bool :=
  sc_has_day line && is_none (sc_id line) && negb (is_some_and (λ skip, bool_decide (sc_row line ∈ skip)) skip).

Definition name_line (new_id : nat → str) (fuel : nat) (path : str) (rows : list str) (skip : option (gset nat))
    (acc : list ScanLine * Naming) (line : ScanLine) : option (list ScanLine * Naming) :=
  let '(done, n) := acc in
  match (if unnamed skip line then rows !! sc_row line else None) with
  | None => Some (done ++ [line], n)
  | Some expected =>
      '(id, drawn) ← draw_id new_id fuel (drawn n) (known n);
      Some (done ++ [set_id id line],
            mkNaming ({[id]} ∪ known n) (extend_changes path [AddId (sc_row line) (trim_cr expected) id] (named n)) drawn)
  end.

Fixpoint fold_option {A B} (f : A → B → option A) (l : list B) (a : A) : option A :=
  match l with
  | [] => Some a
  | x :: l => a ← f a x; fold_option f l a
  end.

Definition name_file (new_id : nat → str) (fuel : nat) (input : BatchInput) (acc : Scan * Naming)
    (file : str * str) : option (Scan * Naming) :=
  let '(scan, n) := acc in
  match btree_get file.1 scan with
  | None => Some (scan, n)
  | Some lines =>
      '(lines, n) ← fold_option (name_line new_id fuel file.1 (split_char 10 file.2) (bi_skip_rows input !! file.1))
        lines ([], n);
      Some (btree_insert file.1 lines scan, n)
  end.

(** The lines an id may live on, in path order. *)
Definition homes_of (scan : Scan) (id : str) : list (str * ScanLine) :=
  flat_map (λ file, map (pair file.1)
    (filter (λ l, sc_mirror l = false ∧ sc_id l = Some id) file.2)) scan.

Definition home_in (scan : Scan) (id path : str) : option ScanLine :=
  let candidates := map snd (filter (λ h, h.1 = path) (homes_of scan id)) in
  match find sc_token candidates with
  | Some line => Some line
  | None => head candidates
  end.

Definition moved_to (scan : Scan) (index_path id from : str) : option str :=
  fst <$> find (λ h, sc_has_day h.2 && (h.1 != from) && (h.1 != index_path)) (homes_of scan id).

Definition home_path (index_path : str) (entry : IndexEntry) : str :=
  match en_kind entry with Link home => home | Loose => index_path end.

(** Step 6: a tick on a copy goes to the home line. *)
Definition copy_tick (scan : Scan) (entries : list IndexEntry) (index_path : str) (previous : option (list ScanLine))
    (path : str) (acc : FileEdits * gmap str bool) (line : ScanLine) : FileEdits * gmap str bool :=
  let '(home_changes, copy_state) := acc in
  default acc
    (id ← sc_id line;
     entry ← find (λ e, en_id e == id) entries;
     let home_path := home_path index_path entry in
     home ← home_in scan id home_path;
     if (home_path == path) && (sc_row home =? sc_row line)%nat then None
     else
       previous ← previous;
       before ← find (λ old, bool_decide (sc_id old = Some id) && Bool.eqb (sc_mirror old) (sc_mirror line)) previous;
       if Bool.eqb (sc_closed before) (sc_closed line) || bool_decide (scan_state home = State_Dropped) then None
       else if Bool.eqb (sc_closed home) (sc_closed line) then None
       else Some (extend_changes home_path [HomeChange id (if sc_closed line then Edit_Close else Edit_Reopen)] home_changes,
                  <[id := sc_closed line]> copy_state)).

Definition copy_ticks (input : BatchInput) (scan : Scan) (entries : list IndexEntry) : FileEdits * gmap str bool :=
  fold_left (λ acc file,
      match btree_get file.1 scan with
      | None => acc
      | Some lines =>
          fold_left (copy_tick scan entries (bi_index_path input) (btree_get file.1 (bi_previous input)) file.1) lines acc
      end) (bi_changed input) ([], ∅).

(** What steps 4 and 5 carry: the ids missing and since when, the changes of the
    index, and when to look again. *)
Record Following := mkFollowing {
  missing_since : gmap str NaiveDateTime;
  index_changes : list Change;
  recheck : option NaiveDateTime
}.

Definition add_change (change : Change) (f : Following) : Following :=
  mkFollowing (missing_since f) (index_changes f ++ [change]) (recheck f).

(** The entry's home, where it is now, and its path. *)
Definition find_target (scan : Scan) (index_path : str) (entry : IndexEntry) : str * option ScanLine :=
  let from := home_path index_path entry in
  match home_in scan (en_id entry) from with
  | Some home => (from, Some home)
  | None =>
      if is_link (en_kind entry) then
        match moved_to scan index_path (en_id entry) from with
        | Some new_home => (new_home, home_in scan (en_id entry) new_home)
        | None => (from, None)
        end
      else (from, None)
  end.

Definition earlier (current at_ : NaiveDateTime) : NaiveDateTime :=
  if (dt_nanos current <=? dt_nanos at_)%Z then current else at_.

Definition follow_missing (input : BatchInput) (entry : IndexEntry) (f : Following) : Following :=
  let id := en_id entry in
  if is_some_and (λ stamp, bool_decide (stamp_kind stamp = Stamp_Removed)) (en_stamp entry)
  then mkFollowing (delete id (missing_since f)) (index_changes f) (recheck f)
  else
    let since := default (bi_now input) (missing_since f !! id) in
    if (REMOVAL_GRACE <=? dt_nanos (bi_now input) - dt_nanos since)%Z
    then add_change
      (MoveEntry id Section_Done (link_line (home_path (bi_index_path input) entry) id
         (Some (mkStamp Stamp_Removed (dt_date (bi_now input))))))
      (mkFollowing (delete id (missing_since f)) (index_changes f) (recheck f))
    else
      let at_ := dt_add_nanos since REMOVAL_GRACE in
      mkFollowing (<[id := since]> (missing_since f)) (index_changes f)
        (Some (from_option (λ current, earlier current at_) at_ (recheck f))).

Definition wanted_entry (state : ReminderState) (today : NaiveDate) : IndexSection * option Stamp :=
  match state with
  | State_Open => (Section_Open, None)
  | State_Closed => (Section_Done, Some (mkStamp Stamp_Done today))
  | State_Dropped => (Section_Done, Some (mkStamp Stamp_Dropped today))
  end.

Definition entry_line (input : BatchInput) (entry : IndexEntry) (target : str) (stamp : option Stamp) : str :=
  match en_kind entry with
  | Loose =>
      restamp (trim_cr (default [] (text ← bi_index_text input; split_char 10 text !! en_row entry))) stamp
  | Link _ => link_line target (en_id entry) stamp
  end.

Definition copied_state (copy_state : gmap str bool) (id : str) (home : ScanLine) : ReminderState :=
  match copy_state !! id with
  | Some true => State_Closed
  | Some false => State_Open
  | None => scan_state home
  end.

Definition follow_home (input : BatchInput) (copy_state : gmap str bool) (entry : IndexEntry) (target : str)
    (home : ScanLine) (f : Following) : Following :=
  let f := mkFollowing (delete (en_id entry) (missing_since f)) (index_changes f) (recheck f) in
  let wanted := wanted_entry (copied_state copy_state (en_id entry) home) (dt_date (bi_now input)) in
  if bool_decide (wanted.1 ≠ en_section entry)
  then add_change (MoveEntry (en_id entry) wanted.1 (entry_line input entry target wanted.2)) f
  else if target != home_path (bi_index_path input) entry
  then add_change (ReplaceEntry (en_id entry) (entry_line input entry target (en_stamp entry))) f
  else f.

Definition follow_entry (input : BatchInput) (scan : Scan) (copy_state : gmap str bool) (f : Following)
    (entry : IndexEntry) : Following :=
  match find_target scan (bi_index_path input) entry with
  | (_, None) => follow_missing input entry f
  | (target, Some home) => follow_home input copy_state entry target home f
  end.

(** The ids of the scan's home lines, in order. *)
Definition home_ids (scan : Scan) : list str :=
  map fst (foldr (λ id m, btree_insert id tt m) []
    (flat_map (λ file, omap (λ l, if sc_mirror l then None else sc_id l) file.2) scan)).

(** Steps 3 and 7: the link of a reminder the index does not list. *)
Definition missing_link (input : BatchInput) (scan : Scan) (entries : list IndexEntry) (id : str) : option Change :=
  if existsb (λ e, en_id e == id) entries then None
  else
    '(path, line) ← find (λ h, sc_has_day h.2 && (h.1 != bi_index_path input)) (homes_of scan id);
    let '(section, stamp) := match scan_state line with
      | State_Closed => (Section_Done, Some (mkStamp Stamp_Done (dt_date (bi_now input))))
      | _ => (Section_Open, None)
      end in
    Some (AppendEntry section (link_line path id stamp)).

Definition plan_batch (input : BatchInput) (state : gmap str NaiveDateTime) (settings : ReminderSettings)
    (config : ReminderConfig) (new_id : nat → str) (fuel : nat) : option (BatchPlan * gmap str NaiveDateTime) :=
  let all_entries := match bi_index_text input with
    | Some text => parse_index text (bi_index_path input) settings config
    | None => []
    end in
  let '(entries, duplicates) := fold_left dedup_entry all_entries ([], []) in
  let known : gset str := list_to_set (flat_map (λ file, omap sc_id file.2) (bi_scan input) ++ map en_id entries) in
  '(scan, n) ← fold_option (name_file new_id fuel input) (bi_changed input) (bi_scan input, mkNaming known [] 0);
  let '(home_changes, copy_state) := copy_ticks input scan entries in
  let f := fold_left (follow_entry input scan copy_state) entries (mkFollowing state duplicates None) in
  let index_changes := index_changes f ++ omap (missing_link input scan entries) (home_ids scan) in
  let changes := fold_left (λ changes file, extend_changes file.1 file.2 changes) home_changes (named n) in
  let changes := if bool_decide (length index_changes = 0) then changes
    else extend_changes (bi_index_path input) index_changes changes in
  Some (mkPlan (map (λ file, mkFileChanges file.1 file.2) changes) (recheck f), missing_since f).
End index.
