(* ===== verification/ReminderIndexTheory.v ===== *)
(** * What a batch of the reminders index does ([thock/src/reminder_index.rs])

    The ids it gives are new, every reminder of the notes is linked once, an
    entry is removed only after its line was gone for the grace period, and the
    changes keep every line they do not address. *)

From stdpp Require Import gmap.
From S2P Require Import Prelude Strings External Ordering Write Lines HeadingKey LineHash Sections Dates.
From S2P Require Import Reminder Mirror ReminderIndex.

(** ** Changes by file *)

Section by_file.
Context `{Clock}.

Definition changes_at (m : list (str * list Change)) (path : str) : list Change := default [] (btree_get path m).

Lemma extend_ok path new (m : list (str * list Change)) : btree_ok m → btree_ok (extend_changes path new m).
Proof. apply btree_insert_ok. Qed.

Lemma changes_extend path path' new (m : list (str * list Change)) :
  btree_ok m → changes_at (extend_changes path new m) path'
  = if bool_decide (path = path') then changes_at m path' ++ new else changes_at m path'.
Proof.
  intros Hm. unfold changes_at, extend_changes. rewrite !btree_get_map, btree_insert_map by auto using btree_insert_ok.
  case_bool_decide as E; [subst; by rewrite lookup_insert_eq|by rewrite lookup_insert_ne].
Qed.

(** Folding the changes of one map into another. *)
Lemma changes_fold (m m' : list (str * list Change)) path :
  btree_ok m → btree_ok m' →
  let r := fold_left (λ changes file, extend_changes file.1 file.2 changes) m' m in
  btree_ok r ∧ changes_at r path = changes_at m path ++ changes_at m' path.
Proof.
  intros Hm Hm'. cbn zeta. revert m Hm. induction m' as [|[k v] m' IH]; intros m Hm; cbn [fold_left].
  { split; [done|]. unfold changes_at at 3. cbn. by rewrite app_nil_r. }
  apply btree_ok_cons in Hm' as [Hm' Hk]. destruct (IH Hm' (extend_changes k v m) (extend_ok _ _ _ Hm)) as [Ho Hc].
  cbn [fst snd]. split; [exact Ho|]. rewrite Hc, changes_extend by done.
  assert (changes_at ((k, v) :: m') path = if bool_decide (k = path) then v else changes_at m' path) as ->.
  { unfold changes_at at 1. rewrite (btree_get_map path ((k, v) :: m')) by (by apply btree_ok_cons).
    cbn [btree_map list_to_map foldr fst snd]. case_bool_decide as E; [subst; by rewrite lookup_insert_eq|].
    rewrite lookup_insert_ne by done. unfold changes_at. by rewrite btree_get_map. }
  case_bool_decide as E; [|done]. subst.
  assert (changes_at m' path = []) as ->; [|by rewrite app_nil_r].
  unfold changes_at. rewrite btree_get_map by done. by rewrite not_key_lookup.
Qed.
End by_file.

(** ** Ids *)

Section naming.
Context `{Clock}.

Definition add_id_of (c : Change) : option str := match c with AddId _ _ id => Some id | _ => None end.

(** The ids a list of changes, and the changes of all files, give. *)
Definition given_ids (cs : list Change) : list str := omap add_id_of cs.
Definition all_given (m : list (str * list Change)) : list str := flat_map (λ f, given_ids f.2) m.

Lemma all_given_extend path new (m : list (str * list Change)) :
  all_given (extend_changes path new m) ≡ₚ all_given m ++ given_ids new.
Proof.
  unfold extend_changes, all_given. induction m as [|[k v] m IH]; cbn [btree_insert btree_get]; [cbn; by rewrite app_nil_r|].
  destruct (str_cmp path k) eqn:E; cbn [flat_map fst snd default from_option].
  - unfold given_ids at 1. rewrite omap_app. fold (given_ids v) (given_ids new). rewrite <- !app_assoc. apply Permutation_app_head.
    apply Permutation_app_comm.
  - cbn. apply Permutation_app_comm.
  - rewrite IH. by rewrite app_assoc.
Qed.

Lemma draw_id_spec new_id fuel drawn known id drawn' :
  draw_id new_id fuel drawn known = Some (id, drawn') → is_id id = true ∧ id ∉ known.
Proof.
  revert drawn. induction fuel as [|fuel IH]; intros drawn; cbn [draw_id]; [done|].
  destruct (is_id (new_id drawn)) eqn:Ei; [|by intros Hd%IH]. case_bool_decide; cbn; [by intros Hd%IH|].
  by intros [= <- <-].
Qed.

(** A line of the scan and the same line, perhaps with an id that was not known. *)
Definition same_or_named (known : gset str) (l l' : ScanLine) : Prop :=
  l' = l ∨ sc_id l = None ∧ sc_has_day l = true ∧ ∃ id, id ∉ known ∧ l' = set_id id l.

Lemma same_or_named_trans known l l' l'' :
  same_or_named known l l' → same_or_named known l' l'' → same_or_named known l l''.
Proof.
  intros [->|(Hn & Hd & id & Hid & ->)]; [done|]. intros [->|(Hn' & _)]; [|done]. right. eauto.
Qed.

Lemma same_or_named_keeps known l l' id : same_or_named known l l' → sc_id l = Some id → l' = l.
Proof. intros [->|(Hn & _)]; congruence. Qed.

Lemma same_or_named_mono known known' l l' : known ⊆ known' → same_or_named known' l l' → same_or_named known l l'.
Proof. intros Hk [->|(? & ? & id & Hid & ->)]; [by left|]. right. split_and!; [done..|]. exists id. split; [set_solver|done]. Qed.

(** An id given to a line of the path that names a day. *)
Definition placed (lines : list ScanLine) (id : str) : Prop :=
  ∃ l, l ∈ lines ∧ sc_id l = Some id ∧ sc_has_day l = true.

Definition gives (known known' : gset str) (lines : list ScanLine) (c : Change) : Prop :=
  ∃ row expected id, c = AddId row expected id ∧ is_id id = true ∧ id ∉ known ∧ id ∈ known' ∧ placed lines id.

Lemma placed_mono lines lines' id : lines ⊆ lines' → placed lines id → placed lines' id.
Proof. intros Hl (l & Hin & ? & ?). exists l. auto. Qed.

Lemma gives_ids known known' lines cs :
  Forall (gives known known' lines) cs → ∀ id, id ∈ given_ids cs → id ∉ known ∧ id ∈ known'.
Proof.
  intros Hc id Hin. unfold given_ids in Hin. apply list_elem_of_omap in Hin as (c & Hin & Hid).
  rewrite Forall_forall in Hc. destruct (Hc _ Hin) as (row & expected & id' & -> & _ & ? & ? & _).
  injection Hid as <-. done.
Qed.

Lemma fold_option_cons {A B} (f : A → B → option A) x l a :
  fold_option f (x :: l) a = a' ← f a x; fold_option f l a'.
Proof. done. Qed.

Lemma name_lines_spec new_id fuel path rows skip lines done n lines' n' :
  btree_ok (named n) →
  fold_option (name_line new_id fuel path rows skip) lines (done, n) = Some (lines', n') →
  ∃ rest adds, lines' = done ++ rest ∧ Forall2 (same_or_named (known n)) lines rest ∧ btree_ok (named n') ∧
    (∀ p, changes_at (named n') p = changes_at (named n) p ++ if bool_decide (path = p) then adds else []) ∧
    all_given (named n') ≡ₚ all_given (named n) ++ given_ids adds ∧
    Forall (gives (known n) (known n') rest) adds ∧ NoDup (given_ids adds) ∧ known n ⊆ known n'.
Proof.
  revert done n. induction lines as [|line lines IH]; intros done n Hok.
  { intros [= <- <-]. exists [], []. rewrite !app_nil_r. split_and!; try done; [|apply NoDup_nil_2].
    intros p. case_bool_decide; by rewrite app_nil_r. }
  rewrite fold_option_cons. destruct (name_line new_id fuel path rows skip (done, n) line) as [[done1 n1]|] eqn:Eline; [|done].
  cbn [mbind option_bind]. intros Hf. unfold name_line in Eline.
  destruct (if unnamed skip line then rows !! sc_row line else None) as [expected|] eqn:Eu.
  2: { injection Eline as <- <-. destruct (IH _ _ Hok Hf) as (rest & adds & -> & Hl & ? & ? & ? & Hg & ? & ?).
       exists (line :: rest), adds. rewrite <- app_assoc. split_and!; try done.
       - constructor; [by left|done].
       - eapply Forall_impl; [exact Hg|]. intros c (row & e & id & ? & ? & ? & ? & Hp). exists row, e, id. split_and!; try done.
         eapply placed_mono; [|exact Hp]. intros x Hx. by right. }
  destruct (draw_id new_id fuel (drawn n) (known n)) as [[id drawn']|] eqn:Ed; [|done]. cbn [mbind option_bind] in Eline.
  injection Eline as <- <-. apply draw_id_spec in Ed as [Hid Hfresh].
  apply IH in Hf as (rest & adds & -> & Hl & Hok' & Hch & Hall & Hg & Hnd & Hk); [|by apply extend_ok].
  cbn [known named] in *. destruct (unnamed skip line) eqn:Eun; [|done]. unfold unnamed in Eun.
  apply andb_true_iff in Eun as [[Hday Hnone]%andb_true_iff _]. exists (set_id id line :: rest), (AddId (sc_row line) (trim_cr expected) id :: adds).
  rewrite <- app_assoc. split_and!; try done.
  - constructor; [right; split_and!; [by destruct (sc_id line)|done|by exists id]|].
    eapply Forall2_impl; [exact Hl|]. intros ??. apply same_or_named_mono. set_solver.
  - intros p. rewrite Hch, changes_extend by done. case_bool_decide; [|done]. by rewrite <- app_assoc.
  - rewrite Hall, all_given_extend. rewrite <- app_assoc. done.
  - constructor.
    + exists (sc_row line), (trim_cr expected), id. split_and!; [done|done|done|set_solver|].
      exists (set_id id line). split_and!; [by left|done|done].
    + eapply Forall_impl; [exact Hg|]. intros c (row & e & id' & ? & ? & ? & ? & Hp). exists row, e, id'.
      split_and!; try done; [set_solver|]. eapply placed_mono; [|exact Hp]. intros x Hx. by right.
  - apply NoDup_cons. split; [|done]. intros Hin. apply (gives_ids _ _ _ _ Hg) in Hin as [Hin _]. set_solver.
  - set_solver.
Qed.
End naming.

Section files.
Context `{Clock} `{!DateTimes}.

Context (known0 : gset str).

(** A scan and the same scan with ids given. *)
Definition scan_named (scan scan' : list (str * list ScanLine)) : Prop :=
  Forall2 (λ f f', f'.1 = f.1 ∧ Forall2 (same_or_named known0) f.2 f'.2) scan scan'.

Lemma lines_named_refl lines : Forall2 (same_or_named known0) lines lines.
Proof. apply Forall2_same_length_lookup. split; [done|]. intros i x y Hx Hy. left. congruence. Qed.

Lemma lines_named_trans a b c : Forall2 (same_or_named known0) a b → Forall2 (same_or_named known0) b c → Forall2 (same_or_named known0) a c.
Proof.
  intros Hab. revert c. induction Hab as [|x y a b Hxy _ IH]; intros c Hbc; inversion_clear Hbc; constructor; [|by apply IH].
  by eapply same_or_named_trans.
Qed.

Lemma scan_named_refl scan : scan_named scan scan.
Proof.
  induction scan; constructor; [|done]. split; [done|apply lines_named_refl].
Qed.

Lemma scan_named_trans a b c : scan_named a b → scan_named b c → scan_named a c.
Proof.
  unfold scan_named. intros Hab. revert c. induction Hab as [|x y a b [Hk Hl] _ IH]; intros c Hbc; inversion_clear Hbc as [|? z ? c' [Hk' Hl']];
    constructor; [|by apply IH]. split; [congruence|by eapply lines_named_trans].
Qed.

Lemma scan_named_keys a b : scan_named a b → b.*1 = a.*1.
Proof. induction 1 as [|x y a b [Hk _] _ IH]; [done|]. cbn. by rewrite Hk, IH. Qed.

(** Replacing the lines of a file of the scan. *)
Lemma scan_update path lines lines' (scan : list (str * list ScanLine)) :
  btree_ok scan → btree_get path scan = Some lines → Forall2 (same_or_named known0) lines lines' →
  scan_named scan (btree_insert path lines' scan).
Proof.
  intros Hok Hget Hl. induction scan as [|[k v] scan IH]; cbn in *; [done|].
  apply btree_ok_cons in Hok as [Hok Hk]. destruct (str_cmp path k) eqn:E; [|done|].
  - apply str_cmp_eq in E as ->. injection Hget as ->. constructor; [done|]. apply scan_named_refl.
  - constructor; [|by apply IH]. split; [done|apply lines_named_refl].
Qed.

Lemma btree_ok_keys {V V'} (m : list (str * V)) (m' : list (str * V')) : m'.*1 = m.*1 → btree_ok m → btree_ok m'.
Proof. unfold btree_ok. by intros ->. Qed.

Lemma in_named_line lines lines' l :
  Forall2 (same_or_named known0) lines lines' → l ∈ lines → is_some (sc_id l) = true → l ∈ lines'.
Proof.
  intros Hf Hin Hid. apply list_elem_of_lookup in Hin as [i Hi]. destruct (Forall2_lookup_l _ _ _ _ _ Hf Hi) as (l' & Hi' & Hs).
  destruct (sc_id l) as [id|] eqn:E; [|done]. apply (same_or_named_keeps _ _ _ id) in Hs as ->; [|done].
  by eapply list_elem_of_lookup_2.
Qed.

Lemma placed_named lines lines' id : Forall2 (same_or_named known0) lines lines' → placed lines id → placed lines' id.
Proof.
  intros Hf (l & Hin & Hid & Hd). exists l. split_and!; [|done|done]. eapply in_named_line; [done|done|by rewrite Hid].
Qed.

Lemma in_named_file scan scan' path lines :
  scan_named scan scan' → (path, lines) ∈ scan → ∃ lines', (path, lines') ∈ scan' ∧ Forall2 (same_or_named known0) lines lines'.
Proof.
  intros Hf Hin. apply list_elem_of_lookup in Hin as [i Hi]. destruct (Forall2_lookup_l _ _ _ _ _ Hf Hi) as ([k l'] & Hi' & [Hk Hl]).
  cbn in *. subst k. exists l'. split; [by eapply list_elem_of_lookup_2|done].
Qed.

(** What step 2 leaves: the same scan with new ids, each given once. *)
Record naming_ok (scan0 : list (str * list ScanLine)) (scan : list (str * list ScanLine)) (n : Naming)
  : Prop := {
  nm_tree : btree_ok (named n);
  nm_scan_tree : btree_ok scan;
  nm_scan : scan_named scan0 scan;
  nm_gives p c : c ∈ changes_at (named n) p → ∃ lines, (p, lines) ∈ scan ∧ gives known0 (known n) lines c;
  nm_nodup : NoDup (all_given (named n));
  nm_given id : id ∈ all_given (named n) → id ∈ known n;
  nm_known : known0 ⊆ known n
}.

Lemma name_file_ok new_id fuel input scan0 scan n file scan' n' :
  naming_ok scan0 scan n → name_file new_id fuel input (scan, n) file = Some (scan', n') →
  naming_ok scan0 scan' n'.
Proof.
  intros [Ht Hst Hs Hg Hnd Hgiven Hk]. unfold name_file. destruct (btree_get file.1 scan) as [lines|] eqn:Eg; [|by intros [= <- <-]].
  destruct (fold_option _ lines _) as [[lines' n1]|] eqn:Ef; [|done]. cbn [mbind option_bind]. intros [= <- <-].
  apply name_lines_spec in Ef as (rest & adds & Hrest & Hl & Ht' & Hch & Hall & Hadds & Hnda & Hkn); [|done].
  cbn [app] in Hrest. subst lines'.
  assert (Hl' : Forall2 (same_or_named known0) lines rest)
    by (eapply Forall2_impl; [exact Hl|]; intros ??; by apply same_or_named_mono).
  clear Hl. rename Hl' into Hl. pose proof (scan_update _ _ _ _ Hst Eg Hl) as Hup.
  assert (Hin : (file.1, rest) ∈ btree_insert file.1 rest scan).
  { apply elem_of_btree; [by apply btree_insert_ok|]. rewrite btree_insert_map by done. by rewrite lookup_insert_eq. }
  split; [done|by apply btree_insert_ok|by eapply scan_named_trans| | | |set_solver].
  - intros p c Hc. rewrite Hch in Hc. apply elem_of_app in Hc as [Hc|Hc].
    + destruct (Hg _ _ Hc) as (ls & Hin' & row & e & id & -> & Hid & Hf & Hkn' & Hp).
      destruct (in_named_file _ _ _ _ Hup Hin') as (ls' & Hin'' & Hls). exists ls'. split; [done|].
      exists row, e, id. split_and!; [done|done|done|set_solver|]. by eapply placed_named.
    + case_bool_decide as E; [|by apply not_elem_of_nil in Hc]. subst p. exists rest. split; [done|].
      rewrite Forall_forall in Hadds. destruct (Hadds _ Hc) as (row & e & id & ? & ? & ? & ? & ?).
      exists row, e, id. split_and!; try done. set_solver.
  - rewrite Hall. apply NoDup_app. split_and!; [done| |done]. intros id Hi Hi'.
    apply (gives_ids _ _ _ _ Hadds) in Hi' as [Hi' _]. by apply Hi', Hgiven.
  - intros id Hi. rewrite Hall in Hi. apply elem_of_app in Hi as [Hi|Hi]; [by apply Hkn, Hgiven|].
    by apply (gives_ids _ _ _ _ Hadds) in Hi as [_ Hi].
Qed.

Lemma name_files_ok new_id fuel input scan0 files scan n scan' n' :
  naming_ok scan0 scan n → fold_option (name_file new_id fuel input) files (scan, n) = Some (scan', n') →
  naming_ok scan0 scan' n'.
Proof.
  revert scan n. induction files as [|file files IH]; intros scan n Hok; [by intros [= <- <-]|].
  rewrite fold_option_cons. destruct (name_file _ _ _ _ file) as [[scan1 n1]|] eqn:E; [|done]. cbn [mbind option_bind].
  apply IH. by eapply name_file_ok.
Qed.
End files.

(** ** The plan, piece by piece *)

Section plan.
Context `{Clock} `{!DateTimes} `{!ChronoParse} `{UnicodeTables}.

(** The changes a plan has for a file, and the ids it gives in all. *)
Definition changes_of (plan : BatchPlan) (path : str) : list Change :=
  flat_map fc_changes (filter (λ f, fc_path f = path) (bp_changes plan)).
Definition plan_ids (plan : BatchPlan) : list str := flat_map (λ f, given_ids (fc_changes f)) (bp_changes plan).

Definition index_entries (input : BatchInput) (settings : ReminderSettings) (config : ReminderConfig) : list IndexEntry :=
  match bi_index_text input with
  | Some text => parse_index text (bi_index_path input) settings config
  | None => []
  end.

(** The index lists the id. *)
Definition listed (input : BatchInput) (settings : ReminderSettings) (config : ReminderConfig) (id : str) : Prop :=
  id ∈ map en_id (index_entries input settings config).

(** A reminder's id stands on a line of the notes. *)
Definition written (scan : list (str * list ScanLine)) (id : str) : Prop :=
  ∃ path lines l, (path, lines) ∈ scan ∧ l ∈ lines ∧ sc_id l = Some id.

Definition is_append (c : Change) : bool := match c with AppendEntry _ _ => true | _ => false end.

(** A change of the index that neither names nor links. *)
Definition moves_only (c : Change) : Prop :=
  match c with AddId _ _ _ | AppendEntry _ _ => False | _ => True end.

Definition dup_only (c : Change) : Prop := match c with RemoveDuplicateLinks _ => True | _ => False end.

(** The first entry of an id. *)
Definition first_entry (entries : list IndexEntry) (id : str) : option IndexEntry := find (λ e, en_id e == id) entries.

Lemma dedup_spec all entries changes entries' changes' :
  fold_left dedup_entry all (entries, changes) = (entries', changes') →
  Forall dup_only changes → NoDup (map en_id entries) →
  Forall dup_only changes' ∧ NoDup (map en_id entries') ∧
  (∀ e, e ∈ entries' → e ∈ entries ∨ en_id e ∉ map en_id entries ∧ first_entry all (en_id e) = Some e) ∧
  (∀ id, id ∈ map en_id entries' ↔ id ∈ map en_id entries ∨ id ∈ map en_id all).
Proof.
  revert entries changes. induction all as [|e all IH]; intros entries changes.
  { intros [= <- <-] Hm Hn. split_and!; [done|done|by left|]. intros id. split; [by left|]. intros [?|[]%not_elem_of_nil]; done. }
  cbn [fold_left]. intros Hf Hm Hn. unfold dedup_entry at 2 in Hf.
  destruct (existsb (λ e', en_id e' == en_id e) entries) eqn:Ex; cbn [negb] in Hf.
  - assert (en_id e ∈ map en_id entries) as Hin.
    { apply existsb_Exists, Exists_exists in Ex as (e' & Hin & He). apply bool_decide_eq_true in He. rewrite <- He.
      by apply list_elem_of_fmap_2. }
    assert (∃ changes1, fold_left dedup_entry all (entries, changes1) = (entries', changes') ∧ Forall dup_only changes1)
      as (changes1 & Hf' & Hm').
    { destruct (_ && _); [|by exists changes]. eexists. split; [exact Hf|]. apply Forall_app. split; [done|]. by repeat constructor. }
    destruct (IH _ _ Hf' Hm' Hn) as (Q1 & Q2 & Q3 & Q4). split_and!; [done|done| |].
    + intros x Hx. destruct (Q3 _ Hx) as [?|[Hnin Hfirst]]; [by left|right]. split; [done|]. unfold first_entry in *. cbn [find].
      rewrite bool_decide_eq_false_2; [done|]. intros E. rewrite <- E in Hnin. done.
    + intros id. rewrite Q4. cbn [map]. rewrite elem_of_cons. split; [by intros [?|?]; auto|]. intros [?|[->|?]]; auto.
  - assert (en_id e ∉ map en_id entries) as Hnin.
    { intros (e' & He & Hin)%list_elem_of_fmap. apply existsb_false in Ex. rewrite Forall_forall in Ex.
      specialize (Ex _ Hin). apply bool_decide_eq_false in Ex. congruence. }
    destruct (IH _ _ Hf Hm) as (Q1 & Q2 & Q3 & Q4).
    { rewrite map_app. apply NoDup_app. split_and!; [done| |by apply NoDup_singleton].
      intros x Hx Hx'. apply list_elem_of_singleton in Hx'. by subst. }
    split_and!; [done|done| |].
    + intros x Hx. unfold first_entry in *. cbn [find]. destruct (Q3 _ Hx) as [[?|Hx']%elem_of_app|[Hnin' Hfirst]]; [by left| |].
      * apply list_elem_of_singleton in Hx' as ->. right. split; [done|]. by rewrite bool_decide_eq_true_2.
      * right. rewrite map_app, not_elem_of_app in Hnin'. destruct Hnin' as [? Hne]. split; [done|].
        rewrite bool_decide_eq_false_2; [done|]. intros E. apply Hne. cbn. rewrite E. by left.
    + intros id. rewrite Q4, map_app, elem_of_app. cbn [map]. rewrite list_elem_of_singleton, elem_of_cons. tauto.
Qed.

Lemma follow_changes input scan copy_state entries f :
  Forall moves_only (index_changes f) →
  Forall moves_only (index_changes (fold_left (follow_entry input scan copy_state) entries f)).
Proof.
  revert f. induction entries as [|e entries IH]; intros f Hf; [done|]. cbn [fold_left]. apply IH.
  assert (∀ c g, Forall moves_only (index_changes g) → moves_only c → Forall moves_only (index_changes (add_change c g))) as Hadd.
  { intros c g Hg Hc. cbn. apply Forall_app. split; [done|by apply Forall_singleton]. }
  unfold follow_entry. destruct (find_target _ _ e) as [target [home|]].
  - unfold follow_home. destruct (bool_decide _); [by apply Hadd|]. destruct (_ != _); [by apply Hadd|done].
  - unfold follow_missing. destruct (is_some_and _ _); [done|]. destruct (_ <=? _)%Z; [by apply Hadd|done].
Qed.

Definition home_only (c : Change) : Prop := match c with HomeChange _ _ => True | _ => False end.

Lemma copy_ticks_ok input scan entries :
  let m := (copy_ticks input scan entries).1 in btree_ok m ∧ ∀ path, Forall home_only (changes_at m path).
Proof.
  cbn zeta. unfold copy_ticks. assert (∀ acc : list (str * list Change) * gmap str bool,
    btree_ok acc.1 ∧ (∀ path, Forall home_only (changes_at acc.1 path)) →
    ∀ files : list (str * str), let r := fold_left (λ (acc : list (str * list Change) * gmap str bool) (file : str * str),
      match btree_get file.1 scan with
      | None => acc
      | Some lines =>
          fold_left (copy_tick scan entries (bi_index_path input) (btree_get file.1 (bi_previous input)) file.1) lines acc
      end) files acc in btree_ok r.1 ∧ ∀ path, Forall home_only (changes_at r.1 path)) as Hgo.
  { intros acc Hacc files. revert acc Hacc. induction files as [|file files IH]; intros acc Hacc; [done|]. cbn [fold_left].
    apply IH. clear IH. destruct (btree_get file.1 scan) as [lines|]; [|done]. revert acc Hacc.
    induction lines as [|line lines IHl]; intros acc Hacc; [done|]. cbn [fold_left]. apply IHl. clear IHl.
    unfold copy_tick. destruct acc as [hc cs]. cbn [fst] in Hacc.
    set (r := mbind _ _). destruct r as [acc'|] eqn:Er; [|done]. subst r. cbn [default from_option].
    repeat (match type of Er with context [mbind _ ?o] => destruct o; [|done]; cbn [mbind option_bind] in Er end).
    destruct ((home_path _ _ == file.1) && _); [done|].
    repeat (match type of Er with context [mbind _ ?o] => destruct o; [|done]; cbn [mbind option_bind] in Er end).
    destruct (eqb _ _ || _); [done|]. destruct (eqb _ _); [done|].
    injection Er as <-. unfold id. cbn [fst]. destruct Hacc as [Hok Hh]. split; [by apply extend_ok|intros p].
      rewrite changes_extend by done. case_bool_decide; [apply Forall_app; split; [done|by apply Forall_singleton]|done]. }
  apply (Hgo ([], ∅)). split; [by apply SSorted_nil|]. intros path. constructor.
Qed.

Lemma changes_list (m : list (str * list Change)) path :
  btree_ok m →
  flat_map fc_changes (filter (λ f, fc_path f = path) (map (λ f, mkFileChanges f.1 f.2) m)) = changes_at m path.
Proof.
  intros Hm. unfold changes_at. rewrite btree_get_map by done. induction m as [|[k v] m IH]; [done|].
  apply btree_ok_cons in Hm as [Hm Hk]. cbn [map fst snd]. rewrite filter_cons. cbn [fc_path btree_map list_to_map foldr fst snd].
  specialize (IH Hm). destruct (decide (k = path)) as [->|Hne].
  - cbn [flat_map fc_changes]. rewrite IH, not_key_lookup by done. rewrite lookup_insert_eq. cbn. by rewrite app_nil_r.
  - by rewrite lookup_insert_ne.
Qed.

Lemma given_fold (m m' : list (str * list Change)) :
  all_given (fold_left (λ changes file, extend_changes file.1 file.2 changes) m' m) ≡ₚ all_given m ++ all_given m'.
Proof.
  revert m. induction m' as [|[k v] m' IH]; intros m; cbn [fold_left]; [cbn; by rewrite app_nil_r|].
  rewrite IH, all_given_extend. cbn [fst snd]. by rewrite <- app_assoc.
Qed.

Lemma given_none cs : Forall (λ c, add_id_of c = None) cs → given_ids cs = [].
Proof. induction 1 as [|c cs Hc _ IH]; [done|]. cbn. by rewrite Hc. Qed.

Lemma missing_link_append input scan entries id c :
  missing_link input scan entries id = Some c → is_append c = true ∧ add_id_of c = None.
Proof.
  unfold missing_link. destruct (existsb _ _); [done|]. destruct (find _ _) as [[path l]|]; [|done]. cbn [mbind option_bind].
  destruct (scan_state l); by intros [= <-].
Qed.

(** What a plan is made of. *)
Record plan_of (input : BatchInput) (state : gmap str NaiveDateTime) (settings : ReminderSettings) (config : ReminderConfig)
    (plan : BatchPlan) (state' : gmap str NaiveDateTime) (entries : list IndexEntry)
    (scan : list (str * list ScanLine)) (n : Naming) (copies : gmap str bool) (duplicates : list Change) : Prop := {
  po_nodup : NoDup (map en_id entries);
  po_first e : e ∈ entries → first_entry (index_entries input settings config) (en_id e) = Some e;
  po_listed id : id ∈ map en_id entries ↔ listed input settings config id;
  po_naming : ∃ known, naming_ok known (bi_scan input) scan n ∧
    ∀ id, id ∈ known ↔ written (bi_scan input) id ∨ listed input settings config id;
  po_following : let f := fold_left (follow_entry input scan copies) entries (mkFollowing state duplicates None) in
    missing_since f = state' ∧ Forall moves_only (index_changes f) ∧ recheck_at plan = recheck f ∧
    ∃ home_changes, (∀ path, Forall home_only (home_changes path)) ∧
      ∀ path, changes_of plan path = changes_at (named n) path ++ home_changes path
        ++ if bool_decide (bi_index_path input = path)
           then index_changes f ++ omap (missing_link input scan entries) (home_ids scan) else [];
  po_duplicates : Forall dup_only duplicates;
  po_ids : plan_ids plan ≡ₚ all_given (named n)
}.

Lemma written_ids scan id : id ∈ flat_map (λ file : str * list ScanLine, omap sc_id file.2) scan ↔ written scan id.
Proof.
  rewrite list_elem_of_In, in_flat_map. unfold written. split.
  - intros ([path lines] & Hin & Hid). apply list_elem_of_In, list_elem_of_omap in Hid as (l & Hl & Hid).
    apply list_elem_of_In in Hin. by exists path, lines, l.
  - intros (path & lines & l & Hin & Hl & Hid). exists (path, lines). split; [by apply list_elem_of_In|].
    apply list_elem_of_In, list_elem_of_omap. by exists l.
Qed.

Lemma plan_pieces input state settings config new_id fuel plan state' :
  btree_ok (bi_scan input) → plan_batch input state settings config new_id fuel = Some (plan, state') →
  ∃ entries scan n copies duplicates, plan_of input state settings config plan state' entries scan n copies duplicates.
Proof.
  intros Hscan. unfold plan_batch. fold (index_entries input settings config).
  destruct (fold_left dedup_entry _ _) as [entries duplicates] eqn:Ed.
  destruct (dedup_spec _ _ _ _ _ Ed) as (Hdup & Hnd & Hen & Hids); [constructor|constructor|].
  set (known0 := list_to_set _ : gset str).
  destruct (fold_option _ _ _) as [[scan n]|] eqn:En; [|done]. cbn [mbind option_bind].
  destruct (copy_ticks input scan entries) as [hc copies] eqn:Ec. pose proof (copy_ticks_ok input scan entries) as Hcopy.
  rewrite Ec in Hcopy. cbn [fst] in Hcopy. destruct Hcopy as [Hhc Hho]. intros [= <- <-].
  assert (Hlisted : ∀ id, id ∈ map en_id entries ↔ listed input settings config id).
  { intros id. rewrite Hids. unfold listed. split; [by intros [[]%not_elem_of_nil|?]|by right]. }
  assert (Hnok : naming_ok known0 (bi_scan input) scan n).
  { eapply name_files_ok; [|exact En]. split; try done; try (by apply SSorted_nil); try apply NoDup_nil_2; try apply scan_named_refl.
    - intros p c Hc. unfold changes_at in Hc. cbn in Hc. by apply not_elem_of_nil in Hc.
    - intros id Hid. cbn in Hid. by apply not_elem_of_nil in Hid. }
  exists entries, scan, n, copies, duplicates. set (f := fold_left _ entries _).
  assert (Hf : Forall moves_only (index_changes f))
    by (apply follow_changes; eapply Forall_impl; [exact Hdup|]; by intros []).
  destruct (changes_fold (named n) hc (bi_index_path input) (nm_tree _ _ _ _ Hnok) Hhc) as [Hfo _].
  set (folded := fold_left _ hc (named n)) in *. set (links := omap _ (home_ids scan)).
  assert (Hat : ∀ path, changes_at folded path = changes_at (named n) path ++ changes_at hc path)
    by (intros path; by apply changes_fold; [apply Hnok|]).
  split; try done.
  - intros e He. by destruct (Hen e He) as [[]%not_elem_of_nil|[_ ?]].
  - exists known0. split; [done|]. intros id. subst known0. rewrite elem_of_list_to_set, elem_of_app, written_ids. by rewrite Hlisted.
  - cbn zeta. fold f. split_and!; [done|done|done|]. exists (changes_at hc). split; [done|]. intros path. unfold changes_of. cbn [bp_changes].
    fold links. case_bool_decide as E; cbn [negb].
    + destruct (index_changes f ++ links) eqn:El; [|done]. rewrite changes_list by done. rewrite Hat.
      case_bool_decide; by rewrite app_nil_r.
    + rewrite changes_list by (by apply extend_ok). rewrite changes_extend by done. rewrite Hat.
      case_bool_decide; [by rewrite <- app_assoc|by rewrite app_nil_r].
  - unfold plan_ids. cbn [bp_changes].
    assert (∀ m, flat_map (λ f, given_ids (fc_changes f)) (map (λ f : str * list Change, mkFileChanges f.1 f.2) m) = all_given m) as Hmap.
    { intros m. unfold all_given. induction m as [|x m IH]; [done|]. cbn. by rewrite IH. }
    rewrite Hmap. assert (all_given folded ≡ₚ all_given (named n)) as Hfold.
    { unfold folded. rewrite given_fold. assert (all_given hc = []) as ->; [|by rewrite app_nil_r].
      clear -Hhc Hho. unfold all_given. induction hc as [|[k v] hc IH]; [done|]. apply btree_ok_cons in Hhc as [Hok Hk]. cbn [flat_map snd].
      assert (given_ids v = []) as ->.
      { apply given_none. specialize (Hho k). unfold changes_at in Hho. rewrite btree_get_map in Hho by (by apply btree_ok_cons).
        cbn in Hho. rewrite lookup_insert_eq in Hho. cbn in Hho. eapply Forall_impl; [exact Hho|]. by intros []. }
      apply IH; [done|]. intros path. specialize (Hho path). unfold changes_at in *.
      rewrite btree_get_map in Hho by (by apply btree_ok_cons). rewrite btree_get_map by done. cbn in Hho.
      destruct (decide (k = path)) as [->|Hne]; [by rewrite not_key_lookup|by rewrite lookup_insert_ne in Hho]. }
    case_bool_decide; [done|]. rewrite all_given_extend, Hfold. rewrite given_none; [by rewrite app_nil_r|].
    apply Forall_app. split; [eapply Forall_impl; [exact Hf|]; by intros []|]. apply Forall_forall. intros c Hc.
    apply list_elem_of_omap in Hc as (id & _ & Hc). by apply missing_link_append in Hc as [_ ?].
Qed.
End plan.

(** ** Links *)

Section links.
Context `{Clock} `{!DateTimes} `{!ChronoParse} `{UnicodeTables}.

(** A scan: its files in order, and no mirror names a day. *)
Definition scan_ok (scan : list (str * list ScanLine)) : Prop :=
  btree_ok scan ∧ ∀ path lines l, (path, lines) ∈ scan → l ∈ lines → sc_mirror l = true → sc_has_day l = false.

Lemma elem_of_homes scan id path l :
  (path, l) ∈ homes_of scan id ↔ ∃ lines, (path, lines) ∈ scan ∧ l ∈ lines ∧ sc_mirror l = false ∧ sc_id l = Some id.
Proof.
  unfold homes_of. rewrite list_elem_of_In, in_flat_map. split.
  - intros ([k lines] & Hin & Hl). apply list_elem_of_In, list_elem_of_fmap in Hl as (l' & [= -> ->] & Hl).
    apply list_elem_of_filter in Hl as [[Hm Hid] Hl]. apply list_elem_of_In in Hin. by exists lines.
  - intros (lines & Hin & Hl & Hm & Hid). exists (path, lines). split; [by apply list_elem_of_In|].
    apply list_elem_of_In, list_elem_of_fmap. exists l. split; [done|]. by apply list_elem_of_filter.
Qed.

Lemma sorted_NoDup (l : list str) : StronglySorted str_lt l → NoDup l.
Proof.
  induction 1 as [|x l _ IH Hx]; constructor; [|done]. intros Hin. rewrite Forall_forall in Hx. by apply (str_lt_irrefl x), Hx.
Qed.

Lemma unit_tree ids :
  let m := foldr (λ id m, btree_insert id tt m) [] ids in btree_ok m ∧ ∀ id, id ∈ map fst m ↔ id ∈ ids.
Proof.
  cbn zeta. induction ids as [|x ids [Hok Hin]]; cbn [foldr]; [split; [by apply SSorted_nil|done]|].
  split; [by apply btree_insert_ok|]. intros id. rewrite elem_of_cons, <- Hin.
  assert (∀ m : list (str * ()), btree_ok m → id ∈ map fst m ↔ is_Some (btree_map m !! id)) as Hkeys.
  { intros m Hm. split.
    - intros ([k []] & -> & Hx)%list_elem_of_fmap. exists tt. by apply elem_of_btree.
    - intros [[] Hx]. apply elem_of_btree in Hx; [|done]. apply list_elem_of_fmap. by exists (id, ()). }
  rewrite !Hkeys by auto using btree_insert_ok. rewrite btree_insert_map by done. rewrite lookup_insert_is_Some'. split; intros [->|?]; auto.
Qed.

Lemma home_ids_spec scan :
  NoDup (home_ids scan) ∧ ∀ id, id ∈ home_ids scan ↔ homes_of scan id ≠ [].
Proof.
  unfold home_ids. destruct (unit_tree (flat_map (λ file : str * list ScanLine, omap (λ l, if sc_mirror l then None else sc_id l) file.2) scan))
    as [Hok Hin]. split; [by apply sorted_NoDup|]. intros id. rewrite Hin, list_elem_of_In, in_flat_map. split.
  - intros ([path lines] & Hf & Hl). apply list_elem_of_In, list_elem_of_omap in Hl as (l & Hl & Hid).
    destruct (sc_mirror l) eqn:Em; [done|]. apply list_elem_of_In in Hf. intros Hnil.
    apply (not_elem_of_nil (path, l)). rewrite <- Hnil. apply elem_of_homes. by exists lines.
  - destruct (homes_of scan id) as [|[path l] rest] eqn:E; [done|]. intros _.
    assert ((path, l) ∈ homes_of scan id) as Hx by (rewrite E; by left). apply elem_of_homes in Hx as (lines & Hf & Hl & Hm & Hid).
    exists (path, lines). split; [by apply list_elem_of_In|]. apply list_elem_of_In, list_elem_of_omap. exists l. by rewrite Hm.
Qed.

Lemma missing_link_spec input scan entries id :
  id ∉ map en_id entries →
  match missing_link input scan entries id with
  | Some c => ∃ section home stamp, c = AppendEntry section (link_line home id stamp) ∧
      home ≠ bi_index_path input ∧ home ∈ scan.*1
  | None => ∀ path l, (path, l) ∈ homes_of scan id → sc_has_day l = true → path = bi_index_path input
  end.
Proof.
  intros Hid. unfold missing_link. assert (existsb (λ e, en_id e == id) entries = false) as ->.
  { apply existsb_false, Forall_forall. intros e He. apply bool_decide_eq_false. intros <-. by apply Hid, list_elem_of_fmap_2. }
  destruct (find _ _) as [[path l]|] eqn:E; cbn [mbind option_bind].
  - apply find_some in E as [Hin Hp]. cbn [fst snd] in Hp. apply list_elem_of_In, elem_of_homes in Hin as (lines & Hf & _).
    apply andb_true_iff in Hp as [_ Hp]. apply negb_true_iff, bool_decide_eq_false in Hp.
    assert (path ∈ scan.*1) by (apply list_elem_of_fmap; by exists (path, lines)).
    destruct (scan_state l); eauto 10.
  - intros path l Hin Hd. apply list_elem_of_In in Hin. pose proof (find_none _ _ E _ Hin) as Hn. cbn [fst snd] in Hn.
    rewrite Hd in Hn. cbn in Hn. apply negb_false_iff, bool_decide_eq_true in Hn. done.
Qed.

(** The ids a batch gives are new. Whatever the source of ids draws, each id the plan gives to a line is a valid
    one that no note and no entry of the index had, and no two lines get the same. *)
Theorem ids_are_fresh input state settings config new_id fuel plan state' :
  scan_ok (bi_scan input) → plan_batch input state settings config new_id fuel = Some (plan, state') →
  NoDup (plan_ids plan) ∧
  ∀ path row expected id, AddId row expected id ∈ changes_of plan path →
    is_id id = true ∧ ¬ written (bi_scan input) id ∧ ¬ listed input settings config id.
Proof.
  intros [Hscan _] Hp. destruct (plan_pieces _ _ _ _ _ _ _ _ Hscan Hp) as (entries & scan & n & copies & dups & [_ _ _ Hn Hf _ Hids]).
  destruct Hn as (known & Hok & Hknown). split; [rewrite Hids; apply Hok|]. intros path row expected id Hin.
  destruct Hf as (_ & Hmoves & _ & hc & Hhome & Hch). rewrite Hch in Hin.
  assert (AddId row expected id ∈ changes_at (named n) path) as Hadd.
  { apply elem_of_app in Hin as [?|[Hin|Hin]%elem_of_app]; [done| |].
    - specialize (Hhome path). rewrite Forall_forall in Hhome. by specialize (Hhome _ Hin).
    - case_bool_decide; [|by apply not_elem_of_nil in Hin]. apply elem_of_app in Hin as [Hin|Hin].
      + rewrite Forall_forall in Hmoves. by specialize (Hmoves _ Hin).
      + apply list_elem_of_omap in Hin as (? & _ & Hin). by apply missing_link_append in Hin as [Hin _]. }
  destruct (nm_gives _ _ _ _ Hok _ _ Hadd) as (lines & _ & row' & e' & id' & [= <- <- <-] & Hid & Hfresh & _).
  split; [done|]. rewrite Hknown in Hfresh. tauto.
Qed.

(** The links of a batch, with their ids. *)
Definition links_of (input : BatchInput) (scan : list (str * list ScanLine)) (entries : list IndexEntry) (ids : list str)
  : list (str * Change) := omap (λ id, pair id <$> missing_link input scan entries id) ids.

Lemma links_snd input scan entries ids : (links_of input scan entries ids).*2 = omap (missing_link input scan entries) ids.
Proof. unfold links_of. induction ids as [|id ids IH]; [done|]. cbn. destruct (missing_link _ _ _ id); cbn; by rewrite IH. Qed.

Lemma elem_of_links input scan entries ids id c :
  (id, c) ∈ links_of input scan entries ids ↔ id ∈ ids ∧ missing_link input scan entries id = Some c.
Proof.
  unfold links_of. rewrite list_elem_of_omap. split.
  - intros (id' & Hi & He). destruct (missing_link input scan entries id') eqn:E; [|done]. by injection He as <- <-.
  - intros [Hi He]. exists id. by rewrite He.
Qed.

Lemma links_NoDup input scan entries ids : NoDup ids → NoDup (links_of input scan entries ids).*1.
Proof.
  induction 1 as [|id ids Hid _ IH]; [constructor|]. unfold links_of. cbn. destruct (missing_link _ _ _ id); [|done]. cbn.
  constructor; [|done]. intros ([id' c'] & Heq & Hin)%list_elem_of_fmap. cbn in Heq. subst id'. by apply elem_of_links in Hin as [? _].
Qed.

Lemma link_not_listed input scan entries id c : missing_link input scan entries id = Some c → id ∉ map en_id entries.
Proof.
  intros Hm (e & -> & He)%list_elem_of_fmap. unfold missing_link in Hm.
  assert (existsb (λ e', en_id e' == en_id e) entries = true) as E; [|by rewrite E in Hm].
  apply existsb_Exists, Exists_exists. exists e. split; [done|]. by apply bool_decide_eq_true.
Qed.

Lemma link_covers input scan entries path l id :
  (path, l) ∈ homes_of scan id → sc_has_day l = true → path ≠ bi_index_path input → id ∉ map en_id entries →
  id ∈ (links_of input scan entries (home_ids scan)).*1.
Proof.
  intros Hin Hd Hne Hnl. pose proof (missing_link_spec input scan entries id Hnl) as Hm.
  destruct (missing_link input scan entries id) as [c|] eqn:E; [|by destruct Hne; eapply Hm].
  apply list_elem_of_fmap. exists (id, c). split; [done|]. apply elem_of_links. split; [|done]. apply home_ids_spec.
  intros E'. rewrite E' in Hin. by apply not_elem_of_nil in Hin.
Qed.

Lemma named_not_mirror scan0 known scan n path lines l :
  scan_ok scan0 → naming_ok known scan0 scan n → (path, lines) ∈ scan → l ∈ lines → sc_has_day l = true → sc_mirror l = false.
Proof.
  intros [_ Hmirror] Hok Hl Hll Hd. apply not_true_iff_false. intros Hm. apply list_elem_of_lookup in Hl as [i Hi], Hll as [j Hj].
  destruct (Forall2_lookup_r _ _ _ _ _ (nm_scan _ _ _ _ Hok) Hi) as ([k0 lines0] & Hi0 & [Hk0 Hls]). cbn [fst snd] in *. subst k0.
  destruct (Forall2_lookup_r _ _ _ _ _ Hls Hj) as (l0 & Hj0 & Hsn).
  apply list_elem_of_lookup_2 in Hi0, Hj0. specialize (Hmirror _ _ _ Hi0 Hj0).
  destruct Hsn as [->|(_ & _ & ? & _ & ->)]; cbn in *; by rewrite Hmirror in Hd.
Qed.

(** C31: after a batch every reminder of the notes is in the index, once. The links the plan appends are of ids the
    index does not list, no two of one id, and to notes of the scan; and an id that stands on a line that names a
    day, outside the index, is listed or gets its link in this batch, one given in this very batch included. *)
Theorem every_reminder_is_linked_once input state settings config new_id fuel plan state' :
  scan_ok (bi_scan input) → plan_batch input state settings config new_id fuel = Some (plan, state') →
  let index := bi_index_path input in
  ∃ links : list (str * Change),
    filter (λ c, is_append c = true) (changes_of plan index) = links.*2 ∧ NoDup links.*1 ∧
    (∀ id c, (id, c) ∈ links → ¬ listed input settings config id ∧
      ∃ section home stamp, c = AppendEntry section (link_line home id stamp) ∧ home ≠ index ∧ home ∈ (bi_scan input).*1) ∧
    (∀ path lines l id, (path, lines) ∈ bi_scan input → path ≠ index → l ∈ lines → sc_has_day l = true →
      sc_id l = Some id → listed input settings config id ∨ id ∈ links.*1) ∧
    (∀ path row expected id, path ≠ index → AddId row expected id ∈ changes_of plan path → id ∈ links.*1).
Proof.
  intros [Hscan Hmirror] Hp index. destruct (plan_pieces _ _ _ _ _ _ _ _ Hscan Hp) as (entries & scan & n & copies & dups & [_ _ Hlisted Hn Hf _ _]).
  destruct Hn as (known & Hok & Hknown). destruct Hf as (_ & Hmoves & _ & hc & Hhome & Hch). set (f := fold_left _ _ _) in *.
  pose proof (scan_named_keys _ _ _ (nm_scan _ _ _ _ Hok)) as Hkeys.
  exists (links_of input scan entries (home_ids scan)). split_and!.
  - rewrite Hch, bool_decide_eq_true_2 by done. rewrite links_snd, !filter_app.
    rewrite (filter_none _ (changes_at (named n) index)), (filter_none _ (hc index)), (filter_none _ (index_changes f)).
    + cbn [app]. apply filter_all. intros c (? & _ & Hc)%list_elem_of_omap. by apply missing_link_append in Hc as [? _].
    + intros c Hc. rewrite Forall_forall in Hmoves. specialize (Hmoves _ Hc). by destruct c.
    + intros c Hc. specialize (Hhome index). rewrite Forall_forall in Hhome. specialize (Hhome _ Hc). by destruct c.
    + intros c Hc. destruct (nm_gives _ _ _ _ Hok _ _ Hc) as (? & _ & ? & ? & ? & -> & _). done.
  - apply links_NoDup, home_ids_spec.
  - intros id c [Hi Hm]%elem_of_links. pose proof (link_not_listed _ _ _ _ _ Hm) as Hnl.
    split; [by rewrite <- Hlisted|]. pose proof (missing_link_spec input scan entries id Hnl) as Hs. by rewrite Hm, Hkeys in Hs.
  - intros path lines l id Hin Hne Hl Hd Hid. destruct (decide (id ∈ map en_id entries)) as [Hi|Hi]; [left; by apply Hlisted|right].
    destruct (in_named_file _ _ _ _ _ (nm_scan _ _ _ _ Hok) Hin) as (lines' & Hin' & Hls).
    apply (link_covers _ _ _ path l); [|done..]. apply elem_of_homes. exists lines'. split_and!; [done| | |done].
    + eapply in_named_line; [done|done|by rewrite Hid].
    + apply not_true_iff_false. intros Hm. by rewrite (Hmirror _ _ _ Hin Hl Hm) in Hd.
  - intros path row expected id Hne Hin. rewrite Hch, bool_decide_eq_false_2, app_nil_r in Hin by done.
    apply elem_of_app in Hin as [Hin|Hin].
    2: { specialize (Hhome path). rewrite Forall_forall in Hhome. by specialize (Hhome _ Hin). }
    destruct (nm_gives _ _ _ _ Hok _ _ Hin) as (lines & Hl & row' & e' & id' & [= <- <- <-] & _ & Hfresh & _ & l & Hll & Hid & Hd).
    apply (link_covers _ _ _ path l); [|done|done|rewrite Hlisted, Hknown in *; tauto].
    apply elem_of_homes. exists lines. split_and!; [done|done| |done]. by eapply (named_not_mirror (bi_scan input)).
Qed.
End links.

(** ** Removals *)

Section removals.
Context `{Clock} `{!DateTimes} `{!ChronoParse} `{UnicodeTables}.

(** The entry's line is on no note it can be on. *)
Definition lost (scan : list (str * list ScanLine)) (input : BatchInput) (e : IndexEntry) : Prop :=
  (find_target scan (bi_index_path input) e).2 = None.

Definition waited (input : BatchInput) (since : option NaiveDateTime) : Prop :=
  (REMOVAL_GRACE <= dt_nanos (bi_now input) - dt_nanos (default (bi_now input) since))%Z.

Definition moves_id (c : Change) : option str := match c with MoveEntry id _ _ => Some id | _ => None end.

Lemma follow_entry_other input scan copies f e id :
  en_id e ≠ id → missing_since (follow_entry input scan copies f e) !! id = missing_since f !! id.
Proof.
  intros Hne. unfold follow_entry. destruct (find_target _ _ e) as [target [home|]].
  - unfold follow_home. cbn zeta. destruct (bool_decide _); [|destruct (_ != _)]; cbn; by rewrite lookup_delete_ne.
  - unfold follow_missing. cbn zeta. destruct (is_some_and _ _); cbn; [by rewrite lookup_delete_ne|].
    destruct (_ <=? _)%Z; cbn; [by rewrite lookup_delete_ne|by rewrite lookup_insert_ne].
Qed.

Lemma follow_entry_own input scan copies f e :
  (∀ t, missing_since (follow_entry input scan copies f e) !! en_id e = Some t →
    lost scan input e ∧ t = default (bi_now input) (missing_since f !! en_id e)) ∧
  (∀ c, c ∈ index_changes (follow_entry input scan copies f e) → c ∈ index_changes f ∨
    ∀ id, moves_id c = Some id → id = en_id e ∧
      (lost scan input e → waited input (missing_since f !! en_id e))).
Proof.
  unfold follow_entry, lost. destruct (find_target _ _ e) as [target [home|]] eqn:Et.
  - unfold follow_home. cbn zeta. split.
    + intros t. destruct (bool_decide _); [|destruct (_ != _)]; cbn; by rewrite lookup_delete_eq.
    + intros c. destruct (bool_decide _); [|destruct (_ != _)]; cbn; [rewrite elem_of_app, list_elem_of_singleton..|by left].
      * intros [?| ->]; [by left|right]. by intros id [= <-].
      * intros [?| ->]; [by left|right]. by intros id [=].
  - unfold follow_missing. cbn zeta. destruct (is_some_and _ _).
    { cbn. split; [intros t; by rewrite lookup_delete_eq|by left]. }
    destruct (Z.leb_spec REMOVAL_GRACE (dt_nanos (bi_now input) - dt_nanos (default (bi_now input) (missing_since f !! en_id e)))); cbn.
    + split; [intros t; by rewrite lookup_delete_eq|]. intros c. rewrite elem_of_app, list_elem_of_singleton.
      intros [?| ->]; [by left|right]. by intros id [= <-].
    + split; [|by left]. intros t. rewrite lookup_insert_eq. by intros [= <-].
Qed.

Lemma follow_entries_spec input scan copies entries f :
  NoDup (map en_id entries) →
  let f' := fold_left (follow_entry input scan copies) entries f in
  (∀ id t, missing_since f' !! id = Some t →
    (id ∉ map en_id entries ∧ missing_since f !! id = Some t) ∨
    ∃ e, e ∈ entries ∧ en_id e = id ∧ lost scan input e ∧ t = default (bi_now input) (missing_since f !! id)) ∧
  (∀ c, c ∈ index_changes f' → c ∈ index_changes f ∨
    ∀ id, moves_id c = Some id → ∃ e, e ∈ entries ∧ en_id e = id ∧ (lost scan input e → waited input (missing_since f !! id))).
Proof.
  revert f. induction entries as [|e entries IH]; intros f Hnd; cbn [fold_left].
  { split; [|by left]. intros id t Ht. left. split; [apply not_elem_of_nil|done]. }
  apply NoDup_cons in Hnd as [Hnin Hnd]. destruct (IH (follow_entry input scan copies f e) Hnd) as [Hs Hc].
  destruct (follow_entry_own input scan copies f e) as [Hos Hoc]. split.
  - intros id t Ht. cbn [map]. destruct (Hs id t Ht) as [[Hni Ht']|(e' & Hin & Hid & Hl & Ht')].
    + destruct (decide (id = en_id e)) as [->|Hne].
      * right. destruct (Hos t Ht') as [Hl Hval]. exists e. split_and!; [by left|done|done|done].
      * left. rewrite follow_entry_other in Ht' by done. split; [|done]. by apply not_elem_of_cons.
    + right. exists e'. split_and!; [by right|done|done|]. rewrite follow_entry_other in Ht'; [done|].
      intros E. apply Hnin. rewrite E, <- Hid. by apply list_elem_of_fmap_2.
  - intros c Hin. destruct (Hc c Hin) as [Hin'|Hm].
    + destruct (Hoc c Hin') as [?|Hm]; [by left|right]. intros id Hid. destruct (Hm id Hid) as [-> Hw]. exists e.
      split_and!; [by left|done|done].
    + right. intros id Hid. destruct (Hm id Hid) as (e' & He & Hide & Hw). exists e'. split_and!; [by right|done|].
      rewrite follow_entry_other in Hw; [done|]. intros E. apply Hnin. rewrite E, <- Hide. by apply list_elem_of_fmap_2.
Qed.

(** What a batch finds of an id it knew does not depend on the ids it gives. *)
Lemma homes_named known scan0 scan id :
  scan_named known scan0 scan → id ∈ known → homes_of scan id = homes_of scan0 id.
Proof.
  intros Hs Hid. unfold homes_of. induction Hs as [|[k ls0] [k' ls] s0 s [Hk Hl] _ IH]; [done|]. cbn in Hk, Hl. subst k'.
  cbn [flat_map fst snd]. rewrite IH. do 2 f_equal. clear IH. induction Hl as [|l0 l a b Hsame _ IHl]; [done|]. rewrite !filter_cons.
  destruct Hsame as [->|(Hn & _ & id' & Hid' & ->)]; [by rewrite IHl|]. cbn.
  rewrite !decide_False; [done| |]; intros [_ E]; congruence.
Qed.

Lemma find_target_named known scan0 scan index_path e :
  scan_named known scan0 scan → en_id e ∈ known →
  (find_target scan index_path e).2 = None ↔ (find_target scan0 index_path e).2 = None.
Proof.
  intros Hs Hid. unfold find_target, home_in, moved_to. by rewrite !(homes_named _ _ _ _ Hs Hid).
Qed.

(** ** Runs of batches *)

Abbreviation Batch := (BatchInput * (nat → str))%type (only parsing).

Fixpoint run_batches (settings : ReminderSettings) (config : ReminderConfig) (fuel : nat) (batches : list Batch)
    (state : gmap str NaiveDateTime) : option (list BatchPlan * gmap str NaiveDateTime) :=
  match batches with
  | [] => Some ([], state)
  | (input, new_id) :: rest =>
      '(plan, state) ← plan_batch input state settings config new_id fuel;
      '(plans, state) ← run_batches settings config fuel rest state;
      Some (plan :: plans, state)
  end.

(** The index lists the id, and its line is on no note it can be on; or it does not list it. *)
Definition not_found (settings : ReminderSettings) (config : ReminderConfig) (id : str) (batch : Batch) : Prop :=
  ∀ e, first_entry (index_entries batch.1 settings config) id = Some e → lost (bi_scan batch.1) batch.1 e.

(** Since [t], an id was not found in any of the batches after [seen]. *)
Definition missing_from (settings : ReminderSettings) (config : ReminderConfig) (seen : list Batch) (id : str)
    (t : NaiveDateTime) : Prop :=
  ∃ before first after, seen = before ++ first :: after ∧ bi_now first.1 = t ∧
    Forall (not_found settings config id) (first :: after).

Lemma plan_step settings config fuel seen input new_id state plan state' :
  scan_ok (bi_scan input) → plan_batch input state settings config new_id fuel = Some (plan, state') →
  (∀ id t, state !! id = Some t → missing_from settings config seen id t) →
  (∀ id t, state' !! id = Some t → missing_from settings config (seen ++ [(input, new_id)]) id t) ∧
  (∀ id to_ line, MoveEntry id to_ line ∈ changes_of plan (bi_index_path input) →
    ∃ e, first_entry (index_entries input settings config) id = Some e ∧
      (lost (bi_scan input) input e → waited input (state !! id))).
Proof.
  intros [Hscan _] Hp Hstate. destruct (plan_pieces _ _ _ _ _ _ _ _ Hscan Hp)
    as (entries & scan & n & copies & dups & [Hnd Hfirst Hlisted Hn Hf Hdup _]).
  destruct Hn as (known & Hok & Hknown). destruct Hf as (Hst & _ & _ & hc & Hhome & Hch).
  destruct (follow_entries_spec input scan copies entries (mkFollowing state dups None) Hnd) as [Hmiss Hmove].
  rewrite Hst in Hmiss. cbn [missing_since index_changes] in *.
  assert (∀ e, e ∈ entries → lost scan input e ↔ lost (bi_scan input) input e) as Hlost.
  { intros e He. apply (find_target_named known); [apply Hok|]. apply Hknown. right. apply Hlisted. by apply list_elem_of_fmap_2. }
  split.
  - intros id t Ht. destruct (Hmiss id t Ht) as [[Hni Hold]|(e & He & <- & Hl & ->)].
    + destruct (Hstate id t Hold) as (before & first & after & -> & Hnow & Hall). exists before, first, (after ++ [(input, new_id)]).
      rewrite <- app_assoc. split_and!; [done|done|]. rewrite app_comm_cons. apply Forall_app. split; [done|]. apply Forall_singleton.
      intros e He. exfalso. apply Hni, Hlisted. unfold listed. apply find_some in He as [Hin He].
      apply bool_decide_eq_true in He as <-. apply list_elem_of_In in Hin. by apply list_elem_of_fmap_2.
    + assert (not_found settings config (en_id e) (input, new_id)) as Hnf.
      { intros e' He'. cbn [fst] in He'. rewrite (Hfirst e He) in He'. injection He' as <-. by apply Hlost. }
      destruct (state !! en_id e) as [t|] eqn:Es; cbn [default from_option id].
      * destruct (Hstate _ _ Es) as (before & first & after & -> & Hnow & Hall). exists before, first, (after ++ [(input, new_id)]).
        rewrite <- app_assoc. split_and!; [done|done|]. rewrite app_comm_cons. apply Forall_app. by split; [|apply Forall_singleton].
      * exists seen, (input, new_id), []. split_and!; [done|done|by apply Forall_singleton].
  - intros id to_ line Hin. rewrite Hch, bool_decide_eq_true_2 in Hin by done.
    assert (MoveEntry id to_ line ∈ index_changes (fold_left (follow_entry input scan copies) entries (mkFollowing state dups None))) as Hi.
    { apply elem_of_app in Hin as [Hin|[Hin|[Hin|Hin]%elem_of_app]%elem_of_app]; [| |done|].
      - destruct (nm_gives _ _ _ _ Hok _ _ Hin) as (? & _ & ? & ? & ? & [=] & _).
      - specialize (Hhome (bi_index_path input)). rewrite Forall_forall in Hhome. by specialize (Hhome _ Hin).
      - apply list_elem_of_omap in Hin as (? & _ & Hin). by apply missing_link_append in Hin as [? _]. }
    destruct (Hmove _ Hi) as [Hd|Hm]; [rewrite Forall_forall in Hdup; by specialize (Hdup _ Hd)|].
    destruct (Hm id eq_refl) as (e & He & <- & Hw). exists e. split; [by apply Hfirst|]. intros Hl. apply Hw. by apply Hlost.
Qed.

Lemma run_missing settings config fuel batches seen state plans state' :
  Forall (λ b : Batch, scan_ok (bi_scan b.1)) batches →
  (∀ id t, state !! id = Some t → missing_from settings config seen id t) →
  run_batches settings config fuel batches state = Some (plans, state') →
  ∀ n input new_id plan id to_ line, batches !! n = Some (input, new_id) → plans !! n = Some plan →
    MoveEntry id to_ line ∈ changes_of plan (bi_index_path input) →
    ∃ e since, first_entry (index_entries input settings config) id = Some e ∧
      (lost (bi_scan input) input e → waited input since) ∧
      ∀ t, since = Some t → missing_from settings config (seen ++ take n batches) id t.
Proof.
  revert seen state plans. induction batches as [|[input0 new_id0] batches IH]; intros seen state plans Hok Hstate; [done|].
  apply Forall_cons in Hok as [Hok0 Hok]. cbn [run_batches]. destruct (plan_batch _ _ _ _ _ _) as [[plan0 state1]|] eqn:Ep; [|done].
  cbn [mbind option_bind]. destruct (run_batches _ _ _ batches state1) as [[plans1 state2]|] eqn:Er; [|done]. cbn [mbind option_bind].
  intros [= <- <-]. destruct (plan_step _ _ _ seen _ _ _ _ _ Hok0 Ep Hstate) as [Hnext Hmove].
  intros [|n] input new_id plan id to_ line Hb Hpl Hin; cbn in Hb, Hpl.
  - simplify_eq. destruct (Hmove _ _ _ Hin) as (e & He & Hw). exists e, (state !! id). split_and!; [done|done|].
    intros t Ht. cbn [take]. rewrite app_nil_r. by apply Hstate.
  - destruct (IH _ _ _ Hok Hnext Er n input new_id plan id to_ line Hb Hpl Hin) as (e & since & He & Hw & Hm).
    exists e, since. split_and!; [done|done|]. intros t Ht. cbn [take]. specialize (Hm t Ht). by rewrite <- app_assoc in Hm.
Qed.

(** C30: an entry is never removed before its line was gone for the grace period. In any run of batches, when one
    moves an entry whose line is on no note it can be on, there was an earlier batch at least ten seconds before,
    and in none from that one on was the line found where the index looked for it. *)
Theorem removed_only_after_grace settings config fuel batches plans state n input new_id plan id to_ line :
  Forall (λ b : Batch, scan_ok (bi_scan b.1)) batches →
  run_batches settings config fuel batches ∅ = Some (plans, state) →
  batches !! n = Some (input, new_id) → plans !! n = Some plan →
  MoveEntry id to_ line ∈ changes_of plan (bi_index_path input) →
  ∃ e, first_entry (index_entries input settings config) id = Some e ∧
    (lost (bi_scan input) input e →
     ∃ m first, m < n ∧ batches !! m = Some first ∧
       (REMOVAL_GRACE <= dt_nanos (bi_now input) - dt_nanos (bi_now first.1))%Z ∧
       ∀ k b, m ≤ k ≤ n → batches !! k = Some b → not_found settings config id b).
Proof.
  intros Hok Hrun Hb Hpl Hin. destruct (run_missing settings config fuel batches [] ∅ plans state Hok) with (n := n)
    (input := input) (new_id := new_id) (plan := plan) (id := id) (to_ := to_) (line := line) as (e & since & He & Hw & Hm); [|done..|].
  { intros id' t Ht. by rewrite lookup_empty in Ht. }
  exists e. split; [done|]. intros Hl. specialize (Hw Hl). destruct since as [t|].
  2: { unfold waited, REMOVAL_GRACE in Hw. cbn [default from_option] in Hw. unfold Datatypes.id in Hw. lia. }
  destruct (Hm t eq_refl) as (before & first & after & Hsplit & Hnow & Hall). cbn [app] in Hsplit.
  assert (length (take n batches) = n) as Hlen by (rewrite length_take; apply lookup_lt_Some in Hb; lia).
  rewrite Hsplit, length_app in Hlen. cbn [length] in Hlen. exists (length before), first.
  assert (batches = before ++ (first :: after) ++ drop n batches) as Hall'.
  { rewrite <- (take_drop n batches) at 1. rewrite Hsplit. by rewrite <- app_assoc. }
  split_and!; [lia| |by subst t|].
  - rewrite Hall', lookup_app_r, Nat.sub_diag by done. done.
  - intros k b Hk Hbk. destruct (decide (k = n)) as [->|Hne].
    + assert (b = (input, new_id)) as -> by congruence. intros e' He'. cbn [fst] in He' |- *. congruence.
    + rewrite Hall', lookup_app_r in Hbk by lia. rewrite lookup_app_l in Hbk by (cbn [length]; lia).
      by eapply Forall_lookup_1 in Hall.
Qed.
End removals.

(** ** A batch ends *)

Section ends.
Context `{Clock} `{!DateTimes} `{!ChronoParse} `{UnicodeTables}.

(** [f] answers [b] once it may draw often enough. *)
Definition eventually {B} (f : nat → option B) (b : B) : Prop := ∃ enough, ∀ fuel, enough ≤ fuel → f fuel = Some b.

Lemma eventually_ret {B} (b : B) : eventually (λ _, Some b) b.
Proof. by exists 0. Qed.

Lemma eventually_bind {A B} (f : nat → option A) (g : A → nat → option B) a b :
  eventually f a → eventually (g a) b → eventually (λ fuel, f fuel ≫= λ a, g a fuel) b.
Proof.
  intros [n Hn] [m Hm]. exists (Nat.max n m). intros fuel Hf. rewrite Hn by lia. cbn [mbind option_bind]. apply Hm. lia.
Qed.

(** Each step comes to an end where [I] holds of the steps to come and what is carried. *)
Lemma eventually_fold {A B} (f : nat → A → B → option A) (I : list B → A → Prop) l a :
  (∀ x l a, I (x :: l) a → ∃ a', eventually (λ fuel, f fuel a x) a' ∧ I l a') → I l a →
  ∃ a', eventually (λ fuel, fold_option (f fuel) l a) a' ∧ I [] a'.
Proof.
  intros Hf. revert a. induction l as [|x l IH]; intros a Ha; [exists a; split; [apply eventually_ret|done]|].
  destruct (Hf x l a Ha) as (a1 & Q1 & Ha1). destruct (IH a1 Ha1) as (a2 & Q2 & Ha2). exists a2. split; [|done].
  exact (eventually_bind _ (λ a fuel, fold_option (f fuel) l a) _ _ Q1 Q2).
Qed.

(** *** There is always a new id *)

Fixpoint hex_text (width : nat) (n : N) : str :=
  match width with 0 => [] | S width => hex_text width (n / 16) ++ [hex_lower (n mod 16)] end.

Lemma hex_lower_inj a b : (a < 16)%N → (b < 16)%N → hex_lower a = hex_lower b → a = b.
Proof. unfold hex_lower. intros Ha Hb. destruct (N.ltb_spec a 10), (N.ltb_spec b 10); lia. Qed.

Lemma hex_text_inj width a b : (a < 16 ^ N.of_nat width)%N → (b < 16 ^ N.of_nat width)%N → hex_text width a = hex_text width b → a = b.
Proof.
  revert a b. induction width as [|width IH]; intros a b Ha Hb; cbn [hex_text].
  { change (16 ^ N.of_nat 0)%N with 1%N in *. lia. }
  rewrite Nat2N.inj_succ, N.pow_succ_r' in Ha, Hb. intros [E D]%app_inj_tail.
  apply hex_lower_inj in D; [|by apply N.mod_lt..]. apply IH in E; [|by apply N.Div0.div_lt_upper_bound..].
  rewrite (N.div_mod' a 16), (N.div_mod' b 16). congruence.
Qed.

Lemma hex_text_id n : is_id (hex_text ID_LENGTH n) = true.
Proof.
  assert (∀ width n, length (hex_text width n) = width ∧
    forallb (λ b, is_ascii_digit b || ((97 <=? b) && (b <=? 102))%N) (hex_text width n) = true) as Hall.
  { clear. induction width as [|width IH]; intros n; cbn [hex_text]; [done|]. destruct (IH (n / 16)%N) as [Hl Hd].
    rewrite length_app, forallb_app, Hl, Hd. cbn [length forallb andb]. split; [lia|]. rewrite andb_true_r.
    pose proof (N.mod_lt n 16 ltac:(done)) as Hm. set (d := (n mod 16)%N) in *. clearbody d. unfold hex_lower, is_ascii_digit.
    destruct (N.ltb_spec d 10); apply orb_true_iff; [left|right]; apply andb_true_iff; split; apply N.leb_le; lia. }
  unfold is_id. destruct (Hall ID_LENGTH n) as [-> ->]. done.
Qed.

Lemma fresh_id (known : gset str) : (N.of_nat (size known) < 16 ^ 12)%N → ∃ id, is_id id = true ∧ id ∉ known.
Proof.
  intros Hsize. set (ids := map (λ n, hex_text ID_LENGTH (N.of_nat n)) (seq 0 (S (size known)))).
  assert (NoDup ids) as Hnd.
  { apply NoDup_fmap_2_strong; [|apply NoDup_seq]. intros a b Ha Hb E. apply elem_of_seq in Ha, Hb.
    apply hex_text_inj in E; [lia|..]; change (16 ^ N.of_nat ID_LENGTH)%N with (16 ^ 12)%N; lia. }
  destruct (decide (Forall (λ id, id ∈ known) ids)) as [Hall|Hex].
  - exfalso. assert (list_to_set ids ⊆ known) as Hsub.
    { intros id Hid%elem_of_list_to_set. rewrite Forall_forall in Hall. by apply Hall. }
    apply subseteq_size in Hsub. rewrite size_list_to_set in Hsub by done. unfold ids in Hsub. rewrite length_map, length_seq in Hsub. lia.
  - apply not_Forall_Exists in Hex; [|apply _]. apply Exists_exists in Hex as (id & Hid & Hn). exists id. split; [|done].
    apply list_elem_of_fmap in Hid as (n & -> & _). apply hex_text_id.
Qed.

(** A source of ids in which every id comes up again and again, as in random draws. *)
Definition recurrent (new_id : nat → str) : Prop :=
  ∀ id drawn, is_id id = true → ∃ later, drawn ≤ later ∧ new_id later = id.

(** Counting through the ids is such a source. *)
Definition counting (n : nat) : str := hex_text ID_LENGTH (N.of_nat n).

Lemma hex_text_step width a d : (d < 16)%N → hex_text (S width) (16 * a + d) = hex_text width a ++ [hex_lower d].
Proof.
  intros Hd. cbn [hex_text]. rewrite (N.mul_comm 16 a).
  rewrite N.div_add_l, N.div_small, N.add_0_r by done. by rewrite N.add_comm, N.Div0.mod_add, N.mod_small.
Qed.

Lemma hex_text_all text : forallb (λ b, is_ascii_digit b || ((97 <=? b) && (b <=? 102))%N) text = true →
  ∀ turns, ∃ n, (turns <= n)%N ∧ hex_text (length text) n = text.
Proof.
  induction text as [|c text IH] using rev_ind; intros Hall turns; [by exists turns|].
  rewrite forallb_app in Hall. apply andb_true_iff in Hall as [Hall Hc]. cbn [forallb] in Hc. rewrite andb_true_r in Hc.
  assert (∃ d, (d < 16)%N ∧ hex_lower d = c) as (d & Hd & <-).
  { unfold is_ascii_digit, hex_lower in *. apply orb_true_iff in Hc as [Hc|Hc]; apply andb_true_iff in Hc as [?%N.leb_le ?%N.leb_le].
    - exists (c - 48)%N. destruct (N.ltb_spec (c - 48) 10); lia.
    - exists (c - 87)%N. destruct (N.ltb_spec (c - 87) 10); lia. }
  destruct (IH Hall turns) as (n & Hn & Ht). exists (16 * n + d)%N. split; [lia|].
  rewrite length_app, Nat.add_1_r, hex_text_step by done. by rewrite Ht.
Qed.

Lemma counting_recurs : recurrent counting.
Proof.
  intros id drawn [Hl%Nat.eqb_eq Hid]%andb_true_iff. destruct (hex_text_all id Hid (N.of_nat drawn)) as (n & Hn & E).
  exists (N.to_nat n). split; [lia|]. unfold counting. by rewrite N2Nat.id, <- Hl.
Qed.

Lemma draw_id_ends new_id known drawn :
  recurrent new_id → (N.of_nat (size known) < 16 ^ 12)%N → ∃ r, eventually (λ fuel, draw_id new_id fuel drawn known) r.
Proof.
  intros Hrec Hsize. destruct (fresh_id known Hsize) as (id & Hid & Hnew). destruct (Hrec id drawn Hid) as (later & Hle & <-).
  remember (later - drawn) as d eqn:Ed. revert drawn Hle Ed. induction d as [|d IH]; intros drawn Hle Ed.
  - assert (later = drawn) as -> by lia. exists (new_id drawn, S drawn), 1. intros [|fuel] Hf; [lia|]. cbn [draw_id].
    by rewrite Hid, bool_decide_eq_false_2.
  - destruct (is_id (new_id drawn) && negb (bool_decide (new_id drawn ∈ known))) eqn:E.
    + exists (new_id drawn, S drawn), 1. intros [|fuel] Hf; [lia|]. cbn [draw_id]. by rewrite E.
    + destruct (IH (S drawn)) as (r & n & Hn); [lia|lia|]. exists r, (S n). intros [|fuel] Hf; [lia|]. cbn [draw_id].
      rewrite E. apply Hn. lia.
Qed.

(** The ids known, and one for each line to come, are fewer than there are. *)
Definition room (n : Naming) (lines : nat) : Prop := (N.of_nat (size (ReminderIndex.known n) + lines) < 16 ^ 12)%N.

Lemma size_union_singleton (id : str) (known : gset str) : size ({[id]} ∪ known) ≤ 1 + size known.
Proof.
  destruct (decide (id ∈ known)) as [Hin|Hni].
  - rewrite subseteq_union_1_L by set_solver. lia.
  - rewrite size_union by set_solver. by rewrite size_singleton.
Qed.

Lemma name_lines_end new_id path rows skip extra lines n :
  recurrent new_id → room n (length lines + extra) →
  ∃ lines' n', eventually (λ fuel, fold_option (name_line new_id fuel path rows skip) lines ([], n)) (lines', n') ∧
    room n' extra ∧ length lines' = length lines.
Proof.
  intros Hrec Hroom.
  destruct (eventually_fold (λ fuel, name_line new_id fuel path rows skip)
    (λ rest acc, room acc.2 (length rest + extra) ∧ length acc.1 + length rest = length lines) lines ([], n))
    as ([lines' n'] & He & Hr & Hl); [|by split|].
  2: { exists lines', n'. cbn [fst snd length] in *. split_and!; [done|done|lia]. }
  intros line rest [before m] [Hr Hl]. cbn [fst snd length] in *. unfold name_line.
  destruct (if unnamed skip line then _ else None) as [expected|].
  2: { eexists. split; [apply eventually_ret|]. cbn [fst snd]. unfold room in *. rewrite length_app. cbn [length]. split; lia. }
  destruct (draw_id_ends new_id (ReminderIndex.known m) (drawn m) Hrec) as [[id drawn'] [enough Hd]]; [unfold room in Hr; lia|].
  eexists. split; [exists enough; intros fuel Hf; cbv beta; rewrite (Hd fuel Hf); reflexivity|].
  cbn [fst snd]. unfold room in *. rewrite length_app. cbn [length ReminderIndex.known]. split; [|lia].
  pose proof (size_union_singleton id (ReminderIndex.known m)). lia.
Qed.

Lemma dedup_length all entries changes entries' changes' :
  fold_left dedup_entry all (entries, changes) = (entries', changes') → length entries' ≤ length entries + length all.
Proof.
  revert entries changes. induction all as [|e all IH]; intros entries changes; cbn [fold_left].
  { intros [= <- <-]. cbn. lia. }
  unfold dedup_entry at 2. destruct (negb _); [|destruct (_ && _)]; intros Hf; apply IH in Hf; cbn [length] in *; rewrite ?length_app in Hf; cbn [length] in Hf; lia.
Qed.

Lemma scan_ids_length (scan : list (str * list ScanLine)) T :
  (∀ path lines, (path, lines) ∈ scan → length lines ≤ T) →
  length (flat_map (λ file : str * list ScanLine, omap sc_id file.2) scan) ≤ length scan * T.
Proof.
  induction scan as [|[path lines] scan IH]; intros HT; [done|]. cbn [flat_map]. rewrite length_app. cbn [length snd].
  assert (length (omap sc_id lines) ≤ T).
  { etrans; [|apply (HT path lines); by left]. clear. induction lines as [|l lines IH]; [done|]. cbn. destruct (sc_id l); cbn; lia. }
  assert (length (flat_map (λ file : str * list ScanLine, omap sc_id file.2) scan) ≤ length scan * T); [|lia].
  apply IH. intros p ls Hin. apply (HT p). by right.
Qed.

Lemma btree_get_elem {V} (m : list (str * V)) k v : btree_get k m = Some v → (k, v) ∈ m.
Proof.
  induction m as [|[k' v'] m IH]; [done|]. cbn [btree_get]. destruct (str_cmp k k') eqn:E; [|done|].
  - apply str_cmp_eq in E as ->. intros [= ->]. by left.
  - intros Hg. right. by apply IH.
Qed.

Lemma list_to_set_size (l : list str) : size (list_to_set l : gset str) ≤ length l.
Proof.
  induction l as [|x l IH]; [cbn; by rewrite size_empty|]. cbn [list_to_set foldr length]. etrans; [apply size_union_singleton|]. cbn in *. lia.
Qed.

(** C37: a batch comes to an end. While the lines of the notes and of the index are fewer than the ids there are, and
    in a source of ids in which every id comes up again and again, the plan is made after finitely many draws. *)
Theorem batch_ends input state settings config new_id T :
  recurrent new_id → btree_ok (bi_scan input) → (∀ path lines, (path, lines) ∈ bi_scan input → length lines ≤ T) →
  (N.of_nat (length (index_entries input settings config) + (length (bi_scan input) + length (bi_changed input)) * T) < 16 ^ 12)%N →
  ∃ result, eventually (plan_batch input state settings config new_id) result.
Proof.
  intros Hrec Hscan HT Hroom. unfold plan_batch. fold (index_entries input settings config).
  destruct (fold_left dedup_entry _ _) as [entries duplicates] eqn:Ed. apply dedup_length in Ed. cbn [length] in Ed.
  set (known := list_to_set _ : gset str).
  assert (size known ≤ length (bi_scan input) * T + length (index_entries input settings config)) as Hknown.
  { pose proof (scan_ids_length _ _ HT) as Hids. unfold known. etrans; [apply list_to_set_size|]. rewrite length_app, length_map. lia. }
  assert (∃ a, eventually (λ fuel, fold_option (name_file new_id fuel input) (bi_changed input) (bi_scan input, mkNaming known [] 0)) a)
    as [[scan n] [enough Hn]].
  2: { destruct (copy_ticks input scan entries) eqn:Ec. eexists. exists enough. intros fuel Hf. cbv beta.
       rewrite (Hn fuel Hf). cbn [mbind option_bind]. rewrite Ec. reflexivity. }
  destruct (eventually_fold (λ fuel, name_file new_id fuel input)
    (λ rest acc, room acc.2 (length rest * T) ∧ btree_ok acc.1 ∧ ∀ path lines, btree_get path acc.1 = Some lines → length lines ≤ T)
    (bi_changed input) (bi_scan input, mkNaming known [] 0)) as (a & Ha & _); [| |by exists a].
  2: { cbn [fst snd]. unfold room. cbn [ReminderIndex.known]. split_and!; [lia|done|]. intros path lines Hg. apply (HT path). by apply btree_get_elem. }
  intros [path text] rest [scan n] (Hr & Hok & Hlen). cbn [fst snd] in *. unfold name_file. cbn [fst snd].
  destruct (btree_get path scan) as [lines|] eqn:Eg.
  2: { eexists. split; [apply eventually_ret|]. cbn [fst snd]. split_and!; [|done|done]. unfold room in *. cbn [length] in Hr. lia. }
  destruct (name_lines_end new_id path (split_char 10 text) (bi_skip_rows input !! path) (length rest * T) lines n Hrec)
    as (lines' & n' & [enough He] & Hr' & Hl').
  { specialize (Hlen _ _ Eg). unfold room in *. cbn [length] in Hr. lia. }
  exists (btree_insert path lines' scan, n'). split; [exists enough; intros fuel Hf; cbv beta; rewrite (He fuel Hf); reflexivity|].
  cbn [fst snd]. split_and!; [done|by apply btree_insert_ok|]. intros p ls. rewrite btree_get_map, btree_insert_map by auto using btree_insert_ok.
  destruct (decide (path = p)) as [->|Hne]; [rewrite lookup_insert_eq; intros [= <-]; rewrite Hl'; by eapply Hlen|].
  rewrite lookup_insert_ne by done. rewrite <- btree_get_map by done. apply Hlen.
Qed.
End ends.
