(* ===== verification/ReminderApply.v ===== *)
(** * What the changes of a batch do to a file ([thock/src/reminder_index.rs], [apply_changes])

    [apply_changes] never indexes a line that is not there, and takes no line
    from a file but those it is told to change, which it finds by what they
    read or by the id they carry. *)

From stdpp Require Import gmap.
From S2P Require Import Prelude Strings External Ordering Write Lines HeadingKey LineHash Sections Dates.
From S2P Require Import Reminder Mirror ReminderIndex.

(** ** Files as lines *)

Definition is_break (e : str) : Prop := e = LF_BREAK ∨ e = CRLF_BREAK.

(** Every line but the last has its break. *)
Definition endings_ok (endings : list str) : Prop :=
  ∃ front tail, endings = front ++ tail ∧ Forall is_break front ∧ (tail = [] ∨ tail = [[]]).

Record file_ok (l : FileLines) : Prop := {
  fk_lines : Forall (λ line, 10%N ∉ line) (fl_lines l);
  fk_length : length (fl_endings l) = length (fl_lines l);
  fk_endings : endings_ok (fl_endings l);
  fk_ending : is_break (fl_ending l);
}.

(** The lines of a text, without their breaks. *)
Definition rows (text : str) : list str := map trim_cr (split_char 10 text).

Definition blank_rows (l : list str) : Prop := Forall (λ row, row = []) l.

Lemma trim_cr_app_cr line : trim_cr (line ++ [13%N]) = trim_cr line.
Proof. by apply trim_end_matches_app_all; repeat constructor. Qed.

Lemma rows_line line e rest : 10%N ∉ line → is_break e → rows ((line ++ e) ++ rest) = trim_cr line :: rows rest.
Proof.
  intros Hl [->| ->]; unfold rows, LF_BREAK, CRLF_BREAK; rewrite <- app_assoc; cbn [app].
  - by rewrite split_char_line.
  - replace (line ++ 13%N :: 10%N :: rest) with ((line ++ [13%N]) ++ 10%N :: rest) by (by rewrite <- app_assoc).
    rewrite split_char_line; [|rewrite not_elem_of_app; split; [done|decide_closed]]. cbn [map]. by rewrite trim_cr_app_cr.
Qed.

Lemma rows_last line : 10%N ∉ line → rows line = [trim_cr line].
Proof.
  intros Hl. unfold rows. assert (split_char 10 line = [line]) as ->; [|done].
  induction line as [|c line IH]; [done|]. apply not_elem_of_cons in Hl as [Hc Hl]. cbn [split_char].
  rewrite IH by done. by destruct (N.eqb_spec c 10).
Qed.

Lemma rows_concat lines endings :
  Forall (λ line, 10%N ∉ line) lines → length endings = length lines → endings_ok endings →
  ∃ tail, rows (concat (zip_with app lines endings)) = map trim_cr lines ++ tail ∧ blank_rows tail.
Proof.
  intros Hl Hlen (front & tail & -> & Hf & Ht). revert lines Hl Hlen.
  induction Hf as [|e front He Hf IH]; intros lines Hl Hlen.
  - destruct Ht as [->| ->]; cbn [app] in *.
    + destruct lines; [|done]. exists [[]]. split; [done|by repeat constructor].
    + destruct lines as [|line [|? ?]]; [done| |done]. rewrite Forall_singleton in Hl. exists []. cbn [zip_with concat map].
      rewrite !app_nil_r, rows_last by done. split; [done|constructor].
  - destruct lines as [|line lines]; [done|]. apply Forall_cons in Hl as [Hl Hls]. injection Hlen as Hlen.
    destruct (IH lines Hls Hlen) as (blank & Hrows & Hb). exists blank. split; [|done].
    cbn [app zip_with concat map]. rewrite rows_line by done. by rewrite Hrows.
Qed.

Lemma rows_join l : file_ok l → ∃ tail, rows (Lines_join l) = map trim_cr (fl_lines l) ++ tail ∧ blank_rows tail.
Proof. intros [Hl Hlen He _]. by apply rows_concat. Qed.

(** ** Splitting and joining *)

Lemma cut_ending_app piece : (cut_ending piece).1 ++ (cut_ending piece).2 = piece.
Proof.
  unfold cut_ending. destruct (strip_suffix CRLF_BREAK piece) as [line|] eqn:E; [by apply strip_suffix_Some in E as ->|].
  destruct (strip_suffix LF_BREAK piece) as [line|] eqn:E'; [by apply strip_suffix_Some in E' as ->|]. apply app_nil_r.
Qed.

Lemma cut_ending_break piece :
  line_seg piece → is_break (cut_ending piece).2 ∧ 10%N ∉ (cut_ending piece).1.
Proof.
  intros (body & -> & Hb). unfold cut_ending. destruct (strip_suffix CRLF_BREAK _) as [line|] eqn:E.
  - apply strip_suffix_Some in E. replace (line ++ CRLF_BREAK) with ((line ++ [13%N]) ++ [10%N]) in E by (by rewrite <- app_assoc).
    apply app_inj_tail in E as [-> _]. split; [by right|]. intros Hin. apply Hb, elem_of_app. by left.
  - rewrite (strip_suffix_app LF_BREAK body : strip_suffix LF_BREAK (body ++ [10%N]) = Some body). split; [by left|exact Hb].
Qed.

Lemma cut_ending_last piece : 10%N ∉ piece → cut_ending piece = (piece, []).
Proof.
  intros Hp. unfold cut_ending. destruct (strip_suffix CRLF_BREAK piece) as [line|] eqn:E.
  { apply strip_suffix_Some in E. subst. rewrite not_elem_of_app in Hp. destruct Hp as [_ []]. decide_closed. }
  destruct (strip_suffix LF_BREAK piece) as [line|] eqn:E'; [|done].
  apply strip_suffix_Some in E'. subst. rewrite not_elem_of_app in Hp. destruct Hp as [_ []]. decide_closed.
Qed.

Lemma cut_pieces l : segments l →
  Forall (λ line, 10%N ∉ line) (map fst (map cut_ending l)) ∧ endings_ok (map snd (map cut_ending l)).
Proof.
  induction l as [|piece l IH]; [split; [constructor|by exists [], []; auto]|]. intros Hs.
  pose proof (segments_cons _ _ Hs) as (_ & Hl & Hp). destruct (IH Hl) as [Hlines (front & tail & He & Hf & Ht)].
  assert (line_seg piece → Forall (λ line, 10%N ∉ line) (map fst (map cut_ending (piece :: l))) ∧
    endings_ok (map snd (map cut_ending (piece :: l)))) as Hcons.
  { intros [Hb Hn]%cut_ending_break. split; [by constructor|]. exists ((cut_ending piece).2 :: front), tail.
    cbn [map]. rewrite He. split_and!; [done|by constructor|done]. }
  destruct l as [|next l]; [|by apply Hcons, Hp]. destruct Hs as [_ [Hseg|Hn]]; [by apply Hcons|].
  cbn [map]. rewrite cut_ending_last by done. split; [by repeat constructor|]. exists [], [[]]. by auto.
Qed.

Lemma file_split_ok text : file_ok (Lines_split text).
Proof.
  destruct (cut_pieces _ (split_inclusive_segments text)) as [Hl He]. constructor; cbn [Lines_split fl_lines fl_endings fl_ending]; [done| |done|].
  - by rewrite !length_map.
  - destruct (_ <? _)%nat; [by right|by left].
Qed.

Lemma file_split_join text : Lines_join (Lines_split text) = text.
Proof.
  unfold Lines_join, Lines_split. cbn [fl_lines fl_endings]. rewrite <- (concat_split_inclusive text) at 3. f_equal.
  induction (split_inclusive text) as [|piece l IH]; [done|]. cbn [map zip_with]. by rewrite IH, cut_ending_app.
Qed.

(** A note's lines are its rows. *)
Lemma rows_doc text :
  ∃ tail, rows text = map (λ line, trim_cr (Line_text line)) (doc_lines (Document_split text)) ++ tail ∧ blank_rows tail.
Proof.
  destruct (Document_split_spec text) as (Hj & [Hok _] & _). set (ls := doc_lines (Document_split text)) in *.
  destruct (rows_concat (map Line_text ls) (map (λ l, Ending_as_str (Line_ending l)) ls)) as (tail & Hr & Hb).
  - clear Hj. induction ls as [|l ls IH]; [constructor|]. destruct Hok as [[Hl _] Hok]. constructor; [done|by apply IH].
  - by rewrite !length_map.
  - clear Hj. induction ls as [|l ls IH]; [exists [], []; by auto|]. destruct Hok as [[_ Hl] Hok].
    destruct (IH Hok) as (front & tail & He & Hf & Ht). cbn [map]. destruct (Line_ending l).
    + exists (LF_BREAK :: front), tail. rewrite He. split_and!; [done|constructor; [by left|done]|done].
    + exists (CRLF_BREAK :: front), tail. rewrite He. split_and!; [done|constructor; [by right|done]|done].
    + destruct Hl as [Hlast _]. destruct ls; [|done]. exists [], [[]]. by auto.
  - exists tail. rewrite map_map in Hr. split; [|done]. rewrite <- Hr. f_equal. rewrite <- Hj at 1. clear.
    induction ls as [|l ls IH]; [done|]. rewrite join_lines_cons, IH. done.
Qed.

(** ** Inserting and removing lines *)

Lemma Lines_insert_lines at_ line l :
  fl_lines (Lines_insert at_ line l) = take at_ (fl_lines l) ++ line :: drop at_ (fl_lines l).
Proof.
  unfold Lines_insert. set (n := length (fl_lines l)). destruct (Nat.le_ge_cases at_ n) as [Hle|Hge].
  - rewrite Nat.min_l by done. destruct (Nat.eqb_spec at_ n) as [->|_]; [|done].
    destruct (is_some_and _ _); cbn [andb fl_lines]; [|done]. unfold n. by rewrite take_ge, drop_ge.
  - rewrite Nat.min_r, Nat.eqb_refl by done. rewrite (take_ge _ at_), (drop_ge _ at_) by done.
    destruct (is_some_and _ _); cbn [andb fl_lines]; [done|]. unfold vec_insert, n. by rewrite take_ge, drop_ge.
Qed.

Lemma Lines_remove_lines at_ l :
  fl_lines (Lines_remove at_ l) = take at_ (fl_lines l) ++ drop (S at_) (fl_lines l).
Proof.
  unfold Lines_remove. destruct (Nat.ltb_spec at_ (length (fl_lines l))); [done|].
  rewrite take_ge, drop_ge by lia. by rewrite app_nil_r.
Qed.

Lemma set_last_snoc {A} (x y : A) l : set_last x (l ++ [y]) = l ++ [x].
Proof. unfold set_last. by rewrite last_snoc, removelast_last. Qed.

Lemma break_not_empty e : is_break e → is_empty e = false.
Proof. by intros [->| ->]. Qed.

Lemma front_not_empty front : Forall is_break front → is_some_and is_empty (last front) = false.
Proof.
  intros Hf. destruct (last front) as [e|] eqn:E; [|done]. apply last_Some in E as [front' ->].
  apply Forall_app in Hf as [_ Hf]. rewrite Forall_singleton in Hf. by apply break_not_empty.
Qed.

Lemma file_insert_ok at_ line l : file_ok l → 10%N ∉ line → file_ok (Lines_insert at_ line l).
Proof.
  intros [Hl Hlen (front & tail & He & Hf & Ht) Hb] Hline. constructor.
  - rewrite Lines_insert_lines. apply Forall_app. split; [by apply Forall_take|]. constructor; [done|by apply Forall_drop].
  - rewrite Lines_insert_lines. rewrite length_app. cbn [length].
    unfold Lines_insert. rewrite length_take, length_drop. destruct (_ && _); cbn [fl_endings].
    + unfold set_last. destruct (last (fl_endings l)) as [e|] eqn:E.
      * apply last_Some in E as [pre E]. rewrite E, removelast_last, !length_app in *. cbn [length] in *. lia.
      * apply last_None in E. rewrite E in Hlen. rewrite E. cbn [app length] in *. lia.
    + unfold vec_insert. rewrite length_app, length_take. cbn [length]. rewrite length_drop, Hlen. lia.
  - unfold Lines_insert. rewrite He. destruct Ht as [->| ->].
    + rewrite app_nil_r in *. rewrite front_not_empty by done. rewrite andb_false_r. cbn [fl_endings].
      eexists (vec_insert _ _ _), []. rewrite app_nil_r. split_and!; [done| |by left].
      apply Forall_app. split; [by apply Forall_take|]. constructor; [done|by apply Forall_drop].
    + rewrite last_snoc. cbn [is_some_and is_empty]. rewrite andb_true_r.
      rewrite He, length_app in Hlen. cbn [length] in Hlen.
      destruct (Nat.eqb_spec (Nat.min at_ (length (fl_lines l))) (length (fl_lines l))) as [_|Hn]; cbn [fl_endings].
      * rewrite set_last_snoc. exists (front ++ [fl_ending l]), [[]]. split_and!; [done| |by right].
        apply Forall_app. split; [done|by constructor].
      * exists (vec_insert (Nat.min at_ (length (fl_lines l))) (fl_ending l) front), [[]]. split_and!; [| |by right].
        -- unfold vec_insert. rewrite take_app_le, drop_app_le by lia. by rewrite <- app_assoc.
        -- apply Forall_app. split; [by apply Forall_take|]. constructor; [done|by apply Forall_drop].
  - unfold Lines_insert. by destruct (_ && _).
Qed.

Lemma file_remove_ok at_ l : file_ok l → file_ok (Lines_remove at_ l).
Proof.
  intros [Hl Hlen (front & tail & He & Hf & Ht) Hb]. destruct (Nat.ltb_spec at_ (length (fl_lines l))) as [Hlt|Hge].
  2: { unfold Lines_remove. destruct (Nat.ltb_spec at_ (length (fl_lines l))); [lia|]. constructor; [done|done| |done]. by exists front, tail. }
  assert (length (vec_remove at_ (fl_lines l)) = length (fl_lines l) - 1) as Hn.
  { unfold vec_remove. rewrite length_app, length_take, length_drop. lia. }
  constructor.
  - rewrite Lines_remove_lines. apply Forall_app. split; [by apply Forall_take|by apply Forall_drop].
  - unfold Lines_remove. destruct (Nat.ltb_spec at_ (length (fl_lines l))); [|lia]. cbn [fl_endings fl_lines]. rewrite Hn.
    assert (length (vec_remove at_ (fl_endings l)) = length (fl_lines l) - 1) as Hm.
    { unfold vec_remove. rewrite length_app, length_take, length_drop. lia. }
    destruct (_ && _); [|done]. unfold set_last. destruct (last _) as [e|] eqn:E; [|done].
    apply last_Some in E as [pre E]. rewrite E, removelast_last, !length_app in *. cbn [length] in *. lia.
  - unfold Lines_remove. destruct (Nat.ltb_spec at_ (length (fl_lines l))); [|lia]. cbn [fl_endings]. rewrite Hn.
    rewrite He in *. destruct Ht as [->| ->].
    + rewrite app_nil_r in *. destruct (lookup_lt_is_Some_2 front at_ ltac:(lia)) as [e Ee]. rewrite Ee. cbn [default from_option]. unfold id.
      rewrite break_not_empty by (by eapply Forall_lookup_1 in Hf). rewrite andb_false_r.
      exists (vec_remove at_ front), []. rewrite app_nil_r. split_and!; [done| |by left]. apply Forall_app. split; [by apply Forall_take|by apply Forall_drop].
    + rewrite length_app in Hlen. cbn [length] in Hlen. destruct (decide (at_ = length front)) as [->|Hne].
      * rewrite lookup_app_r, Nat.sub_diag by done. cbn [lookup list_lookup default from_option is_empty]. unfold id. cbn [is_empty].
        replace (length front =? length (fl_lines l) - 1) with true by (symmetry; apply Nat.eqb_eq; lia). cbn [andb].
        unfold vec_remove. rewrite take_app_le, drop_ge, take_ge, app_nil_r by (rewrite ?length_app; cbn; lia).
        unfold set_last. destruct (last front) as [e|] eqn:E; [|exists front, []; rewrite app_nil_r; by auto].
        apply last_Some in E as [pre ->]. rewrite removelast_last. apply Forall_app in Hf as [Hf _]. exists pre, [[]]. by auto.
      * replace (at_ =? length (fl_lines l) - 1) with false by (symmetry; apply Nat.eqb_neq; lia). cbn [andb].
        exists (vec_remove at_ front), [[]]. split_and!; [| |by right].
        -- unfold vec_remove. rewrite take_app_le, drop_app_le by lia. by rewrite <- app_assoc.
        -- apply Forall_app. split; [by apply Forall_take|by apply Forall_drop].
  - unfold Lines_remove. by destruct (_ <? _).
Qed.

Lemma set_line_ok row line l : file_ok l → 10%N ∉ line → file_ok (set_line row line l).
Proof.
  intros [Hl Hlen He Hb] Hline. constructor; cbn [set_line fl_lines fl_endings fl_ending]; [|by rewrite length_insert|done|done].
  by apply Forall_insert.
Qed.

(** ** Lines that carry an id *)

(** The id's comment is in the line. *)
Definition carries (id row : str) : Prop := ∃ before after, row = before ++ id_marker id ++ after.

Lemma id_in_comment_spec comment id : id_in_comment comment = Some id → comment = id_marker id.
Proof.
  unfold id_in_comment. destruct (strip_prefix ID_OPEN comment) as [after|] eqn:E; [|done]. cbn [mbind option_bind].
  destruct (strip_suffix COMMENT_CLOSE after) as [id'|] eqn:E'; [|done]. cbn [mbind option_bind]. destruct (is_id id'); [|done].
  intros [= ->]. apply strip_prefix_Some in E. apply strip_suffix_Some in E'. by subst.
Qed.

Lemma scan_carries fuel line cursor ex id0 id :
  (∀ i, id0 = Some i → carries i line) → scan_id (scan_inline_loop fuel line cursor ex id0) = Some id → carries id line.
Proof.
  revert cursor ex id0. induction fuel as [|fuel IH]; intros cursor ex id0 Hid; cbn [scan_inline_loop]; [apply Hid|].
  destruct (cursor <? length line)%nat; [|apply Hid].
  destruct (strip_prefix COMMENT_OPEN (drop cursor line)) as [inside|] eqn:E.
  - match goal with |- context [match ?m with Some len => _ | None => _ end] => destruct m as [len|]; [|apply Hid] end.
    apply IH. intros i Hi. destruct (id_in_comment (take len (drop cursor line))) as [found|] eqn:Ec; [|by apply Hid].
    injection Hi as <-. apply id_in_comment_spec in Ec. exists (take cursor line), (drop len (drop cursor line)).
    by rewrite <- Ec, take_drop, take_drop.
  - destruct (is_some_and _ _); [|by apply IH]. destruct (closing_backticks _ _ _); by apply IH.
Qed.

Lemma carries_trim_cr id line : carries id line → carries id (trim_cr line).
Proof.
  intros (before & after & ->). exists before, (trim_cr after). unfold trim_cr. rewrite !app_assoc.
  destruct (trim_end_matches (N.eqb 13) after) as [|c t] eqn:E.
  - rewrite app_nil_r, trim_end_matches_app_all by (by apply trim_end_matches_nil).
    unfold id_marker. rewrite !app_assoc. by eapply trim_end_matches_app_last.
  - rewrite <- E. apply trim_end_matches_app_keep. by rewrite E.
Qed.

Lemma carries_not_nil id : ¬ carries id [].
Proof. intros (before & after & E). by destruct before. Qed.

Section appearances.
Context `{Clock} `{!UnicodeTables}.

Lemma read_line_carries line day in_comment reminder id :
  rl_reminder (read_line line day in_comment) = Some reminder → lr_id reminder = Some id → carries id line.
Proof.
  unfold read_line. destruct (contains CALENDAR_MARKER line); [done|]. cbn [rl_reminder].
  destruct (_ || _); [|done]. intros [= <-]. cbn [lr_id]. unfold scan_inline. destruct in_comment.
  - destruct (find_sub COMMENT_CLOSE line); [|done]. by apply scan_carries.
  - by apply scan_carries.
Qed.

(** The rows of a loop's appearances go up, and an id is in the line of its row. *)
Lemma parse_note_loop_rows lines prot sections day index in_comment :
  StronglySorted lt (map ap_line (parse_note_loop lines prot sections day index in_comment)) ∧
  ∀ a, a ∈ parse_note_loop lines prot sections day index in_comment →
    ∃ i line, ap_line a = index + i ∧ lines !! i = Some line ∧
      ∀ id, lr_id (ap_reminder a) = Some id → carries id (Line_text line).
Proof.
  revert index in_comment. induction lines as [|line lines IH]; intros index in_comment; cbn [parse_note_loop].
  { split; [constructor|]. intros a Ha. by apply not_elem_of_nil in Ha. }
  assert (∀ in_comment a, a ∈ parse_note_loop lines prot sections day (S index) in_comment →
    ∃ i line', ap_line a = index + i ∧ i ≠ 0 ∧ (line :: lines) !! i = Some line' ∧
      ∀ id, lr_id (ap_reminder a) = Some id → carries id (Line_text line')) as Hrest.
  { intros c a Ha. destruct (proj2 (IH (S index) c) a Ha) as (i & line' & Hi & Hl & Hc). exists (S i), line'. split_and!; [lia|done|done|done]. }
  destruct (default false (prot !! index)).
  { split; [apply IH|]. intros a Ha. destruct (Hrest _ _ Ha) as (i & l & ? & _ & ? & ?). by exists i, l. }
  destruct (rl_reminder (read_line (Line_text line) day in_comment)) as [reminder|] eqn:Er.
  2: { split; [apply IH|]. intros a Ha. destruct (Hrest _ _ Ha) as (i & l & ? & _ & ? & ?). by exists i, l. }
  set (c := rl_comment_open _). split.
  - cbn [map ap_line]. constructor; [apply IH|]. apply Forall_forall. intros r (a & -> & Ha)%list_elem_of_fmap.
    destruct (Hrest _ _ Ha) as (i & l & ? & ? & _). lia.
  - intros a [->|Ha]%elem_of_cons.
    + exists 0, line. cbn [ap_line ap_reminder]. split_and!; [lia|done|]. intros id. by apply read_line_carries with (1 := Er).
    + destruct (Hrest _ _ Ha) as (i & l & ? & _ & ? & ?). by exists i, l.
Qed.

Lemma parse_note_rows text path config :
  StronglySorted lt (map ap_line (parse_note text path config)) ∧
  ∀ a id, a ∈ parse_note text path config → lr_id (ap_reminder a) = Some id →
    ∃ row, rows text !! ap_line a = Some row ∧ carries id row.
Proof.
  unfold parse_note. set (sections := match day_of _ _ with Some _ => _ | None => _ end).
  destruct (parse_note_loop_rows (doc_lines (Document_split text)) (protected (Document_split text)) sections
    (day_of (config_daily config) path) 0 false) as [Hs Ha]. split; [done|]. intros a id Hin Hid.
  destruct (Ha a Hin) as (i & line & -> & Hl & Hc). exists (trim_cr (Line_text line)). split; [|by apply carries_trim_cr, Hc].
  destruct (rows_doc text) as (tail & -> & _). cbn [Nat.add]. apply lookup_app_l_Some. by rewrite list_lookup_fmap, Hl.
Qed.

(** An appearance of an id in the text of some lines is on one of them. *)
Lemma appearance_line l path config a id :
  file_ok l → a ∈ parse_note (Lines_join l) path config → lr_id (ap_reminder a) = Some id →
  ∃ line, fl_lines l !! ap_line a = Some line ∧ carries id (trim_cr line).
Proof.
  intros Hl Ha Hid. destruct (proj2 (parse_note_rows _ path config) a id Ha Hid) as (row & Hr & Hc).
  destruct (rows_join l Hl) as (tail & Hrows & Hb). rewrite Hrows in Hr. apply lookup_app_Some in Hr as [Hr|[_ Hr]].
  - rewrite list_lookup_fmap in Hr. apply fmap_Some in Hr as (line & Hline & ->). by exists line.
  - apply (Forall_lookup_1 _ _ _ _ Hb) in Hr as ->. by apply carries_not_nil in Hc.
Qed.
End appearances.

(** ** Edits write one line *)

(** No line feed is in the text. *)
Definition one_line (s : str) : Prop := 10%N ∉ s.

Create HintDb oneline.

Lemma one_line_app a b : one_line a → one_line b → one_line (a ++ b).
Proof. unfold one_line. rewrite not_elem_of_app. tauto. Qed.

Lemma one_line_take n s : one_line s → one_line (take n s).
Proof. intros Hs Hin. apply Hs. rewrite <- (take_drop n s). apply elem_of_app. by left. Qed.

Lemma one_line_drop n s : one_line s → one_line (drop n s).
Proof. intros Hs Hin. apply Hs. rewrite <- (take_drop n s). apply elem_of_app. by right. Qed.

Lemma one_line_trim_end s : one_line s → one_line (trim_end s).
Proof.
  intros Hs Hin. apply Hs. destruct (trim_end_matches_app is_whitespace s) as (p & Hp & _). rewrite Hp. apply elem_of_app. by left.
Qed.

Lemma one_line_trim_start s : one_line s → one_line (trim_start s).
Proof.
  intros Hs Hin. apply Hs. destruct (trim_start_matches_app is_whitespace s) as (p & Hp & _). rewrite Hp. apply elem_of_app. by right.
Qed.

Lemma one_line_trim s : one_line s → one_line (trim s).
Proof. intros Hs. by apply one_line_trim_end, one_line_trim_start. Qed.

Lemma one_line_if (b : bool) s t : one_line s → one_line t → one_line (if b then s else t).
Proof. by destruct b. Qed.

Lemma one_line_nil : one_line [].
Proof. apply not_elem_of_nil. Qed.

#[local] Hint Resolve one_line_app one_line_take one_line_drop one_line_trim one_line_trim_end one_line_trim_start
  one_line_if one_line_nil : oneline.
#[local] Hint Extern 1 (one_line (u _)) => unfold one_line; decide_closed : oneline.
#[local] Hint Extern 1 (one_line STRIKE) => unfold one_line; decide_closed : oneline.
#[local] Hint Extern 1 (one_line ID_OPEN) => unfold one_line; decide_closed : oneline.
#[local] Hint Extern 1 (one_line COMMENT_CLOSE) => unfold one_line; decide_closed : oneline.
#[local] Hint Extern 1 (one_line TOKEN_OPEN) => unfold one_line; decide_closed : oneline.
#[local] Hint Extern 1 (one_line [32%N]) => unfold one_line; decide_closed : oneline.

Lemma one_line_replace_range line r with_ : one_line line → one_line with_ → one_line (replace_range line r with_).
Proof. unfold replace_range. auto with oneline. Qed.

Lemma one_line_remove_range line r : one_line line → one_line (remove_range line r).
Proof. intros Hl. unfold remove_range. auto 10 with oneline. Qed.

Lemma one_line_insert_token line token : one_line line → one_line token → one_line (insert_before_trailing_comments line token).
Proof. intros Hl Ht. unfold insert_before_trailing_comments. auto 10 with oneline. Qed.

#[local] Hint Resolve one_line_replace_range one_line_remove_range one_line_insert_token : oneline.

Section edits.
Context `{Clock} `{!ChronoLaws} `{!ClockLaws}.

Lemma one_line_add_id line id line' : one_line line → one_line id → add_id line id = Some line' → one_line line'.
Proof.
  intros Hl Hid. unfold add_id. destruct (_ || _); [done|]. destruct (is_some_and _ _); [done|]. intros E.
  apply (inj Some) in E as <-. unfold id_marker. auto 12 with oneline.
Qed.

Lemma one_line_token due day : four_digit (due_date due) → one_line (token_text due day).
Proof.
  intros Hd. assert (one_line (show_due due)) as Hdue.
  { unfold show_due. apply one_line_app; [by apply format_ymd_plain|]. destruct (due_time due); [|apply one_line_nil].
    apply one_line_app; [unfold one_line; decide_closed|by apply format_HM_plain]. }
  assert (∀ t, one_line (format_HM t)) by (intros t; by apply format_HM_plain).
  unfold token_text. destruct (due_time due); auto with oneline.
Qed.

(** The days an edit writes have four digits, as those a line is read to have. *)
Definition edit_fits (edit : HomeEdit) : Prop :=
  match edit with Edit_Rewrite due => four_digit (due_date due) | _ => True end.

Lemma one_line_edit edit line day line' :
  edit_fits edit → one_line line → edit_home edit line day = Some line' → one_line line'.
Proof.
  intros Hfits Hl. destruct edit as [| |due|]; cbn [edit_home].
  - unfold close. destruct (parse_line line None) as [reminder|]; [|done]. cbn [mbind option_bind]. destruct (negb _); [done|].
    assert (∀ t, one_line (replace_range line (token_range t) (STRIKE ++ take (r_end (token_range t) - r_start (token_range t))
      (drop (r_start (token_range t)) line) ++ STRIKE))) by auto 8 with oneline.
    assert (∀ m, one_line (replace_range line (mkRange m (m + 1)) (u "x"))) by auto with oneline.
    destruct (task_of line) as [[[] mark]|]; [by intros E; apply (inj Some) in E as <-|..]; destruct (lr_token reminder); [|done| |done]; by intros E; apply (inj Some) in E as <-.
  - unfold reopen. destruct (parse_line line None) as [reminder|]; [|done]. cbn [mbind option_bind]. destruct (negb _); [done|].
    destruct (lr_token reminder) as [token|]; [|done]. cbn [mbind option_bind].
    set (edited := if token_struck token then _ else line). assert (one_line edited) by (unfold edited; auto 8 with oneline).
    intros E. apply (inj Some) in E as <-. destruct (task_of edited) as [[[] mark]|]; auto with oneline.
  - unfold rewrite. destruct (parse_line line day) as [reminder|]; [|done]. cbn [mbind option_bind].
    pose proof (one_line_token due day Hfits) as Ht. intros E. apply (inj Some) in E as <-. destruct (lr_token reminder) as [token|]; [|by auto with oneline].
    destruct (token_struck token); auto 8 with oneline.
  - unfold drop_token. destruct (parse_line line None) as [reminder|]; [|done]. cbn [mbind option_bind].
    destruct (lr_token reminder); [|done]. intros E. apply (inj Some) in E as <-. auto with oneline.
Qed.
End edits.

(** ** What is kept of the lines *)

Lemma omap_fmap_sublist {A B C} (f : A → option B) (g : B → C) (h : A → C) l :
  (∀ a b, f a = Some b → g b = h a) → sublist (map g (omap f l)) (map h l).
Proof.
  intros Hf. induction l as [|a l IH]; [done|]. cbn. destruct (f a) as [b|] eqn:E; cbn; [rewrite (Hf _ _ E)|]; by constructor.
Qed.

Section kept.
Context `{Clock} `{!DateTimes} `{!ChronoParse} `{!UnicodeTables}.

(** Some of the lines. *)
Context (Q : str → Prop) `{!∀ line, Decision (Q line)}.

Definition chosen (l : FileLines) : list str := filter Q (fl_lines l).

(** The lines chosen are still there, in their order; or in some order. *)
Definition kept (l l' : FileLines) : Prop := sublist (chosen l) (chosen l').
Definition not_lost (l l' : FileLines) : Prop := chosen l ⊆+ chosen l'.

Lemma kept_refl l : kept l l.
Proof. unfold kept. reflexivity. Qed.

Lemma kept_trans a b c : kept a b → kept b c → kept a c.
Proof. unfold kept. by etrans. Qed.

Lemma chosen_insert at_ line l :
  chosen (Lines_insert at_ line l) = filter Q (take at_ (fl_lines l)) ++ filter Q [line] ++ filter Q (drop at_ (fl_lines l)).
Proof. unfold chosen. rewrite Lines_insert_lines, filter_app. f_equal. apply (filter_app Q [line]). Qed.

Lemma chosen_split at_ l : chosen l = filter Q (take at_ (fl_lines l)) ++ filter Q (drop at_ (fl_lines l)).
Proof. unfold chosen. by rewrite <- filter_app, take_drop. Qed.

Lemma kept_insert at_ line l : kept l (Lines_insert at_ line l).
Proof.
  unfold kept. rewrite chosen_insert, (chosen_split at_ l). apply sublist_app; [done|]. by apply sublist_inserts_l.
Qed.

Lemma chosen_insert_perm at_ line l : chosen (Lines_insert at_ line l) ≡ₚ filter Q [line] ++ chosen l.
Proof. rewrite chosen_insert, (chosen_split at_ l). apply Permutation_app_swap_app. Qed.

Lemma not_chosen line : ¬ Q line → filter Q [line] = [].
Proof. intros Hq. by rewrite filter_cons_False. Qed.

Lemma kept_remove row line l : fl_lines l !! row = Some line → ¬ Q line → kept l (Lines_remove row l).
Proof.
  intros Hl Hq. unfold kept, chosen. rewrite Lines_remove_lines. rewrite <- (take_drop_middle _ _ _ Hl) at 1.
  by rewrite !filter_app, filter_cons_False.
Qed.

Lemma kept_set_line row old new l : fl_lines l !! row = Some old → ¬ Q old → kept l (set_line row new l).
Proof.
  intros Hl Hq. unfold kept, chosen. cbn [set_line fl_lines]. rewrite <- (take_drop_middle _ _ _ Hl) at 1.
  rewrite insert_take_drop by (by eapply lookup_lt_Some). rewrite !filter_app, filter_cons_False by done.
  apply sublist_app; [done|].
  change (new :: drop (S row) (fl_lines l)) with ([new] ++ drop (S row) (fl_lines l)). rewrite filter_app. by apply sublist_inserts_l.
Qed.

(** Rows taken out from the last to the first. *)
Lemma remove_rows rows l :
  file_ok l → StronglySorted lt rows → (∀ row, row ∈ rows → ∃ line, fl_lines l !! row = Some line ∧ ¬ Q line) →
  let l' := fold_left (λ l row, Lines_remove row l) (rev rows) l in
  file_ok l' ∧ kept l l' ∧ ∀ i, Forall (λ row, i < row) rows → fl_lines l' !! i = fl_lines l !! i.
Proof.
  intros Hl. induction rows as [|row rows IH]; intros Hs Hrows; [split_and!; [done|unfold kept; cbn; reflexivity|done]|].
  apply StronglySorted_inv in Hs as [Hs Hlt]. cbn [rev]. rewrite fold_left_app. cbn [fold_left].
  destruct (IH Hs) as (Hok & Hk & Hi); [intros r Hr; apply Hrows; by right|]. set (l1 := fold_left _ (rev rows) l) in *.
  destruct (Hrows row ltac:(by left)) as (line & Hline & Hq). rewrite <- Hi in Hline by done. split_and!.
  - by apply file_remove_ok.
  - eapply kept_trans; [exact Hk|]. by eapply kept_remove.
  - intros i [Hir Hirs]%Forall_cons. rewrite Lines_remove_lines, lookup_app_l, lookup_take_lt by (rewrite ?length_take; apply lookup_lt_Some in Hline; lia).
    by apply Hi.
Qed.

Lemma remove_run n row l :
  file_ok l → file_ok (Nat.iter n (Lines_remove row) l) ∧
    fl_lines (Nat.iter n (Lines_remove row) l) = take row (fl_lines l) ++ drop (row + n) (fl_lines l).
Proof.
  intros Hl. induction n as [|n [IHok IH]]; [split; [done|]; cbn; by rewrite Nat.add_0_r, take_drop|]. rewrite Nat.iter_succ.
  split; [by apply file_remove_ok|]. rewrite Lines_remove_lines, IH. clear IH IHok. revert row. induction (fl_lines l) as [|x k IH]; intros row.
  - rewrite !drop_nil, !take_nil. cbn [app]. by rewrite take_nil.
  - destruct row as [|row].
    + rewrite !take_0. cbn [app Nat.add]. by rewrite drop_drop, Nat.add_1_r.
    + specialize (IH row). rewrite !Nat.add_succ_l. rewrite !firstn_cons, !skipn_cons. cbn [app]. rewrite firstn_cons, skipn_cons. cbn [app]. by rewrite IH.
Qed.

(** Lines put back below an entry. *)
Lemma insert_lines_back (at_ : nat) pairs l :
  file_ok l → Forall (λ p : nat * str, one_line p.2) pairs →
  let l' := fold_left (λ l '(offset, child), Lines_insert (at_ + 1 + offset) child l) pairs l in
  file_ok l' ∧ chosen l' ≡ₚ filter Q (map snd pairs) ++ chosen l.
Proof.
  intros Hl Hp. revert l Hl. induction Hp as [|[offset child] pairs Hc Hp IH]; intros l Hl; [by split|]. cbn [fold_left].
  destruct (IH (Lines_insert (at_ + 1 + offset) child l)) as [Hok Hch]; [by apply file_insert_ok|]. split; [done|].
  rewrite Hch, chosen_insert_perm. cbn [map snd].
  change (child :: map snd pairs) with ([child] ++ map snd pairs). rewrite filter_app, !app_assoc. f_equiv.
  apply Permutation_app_comm.
Qed.
End kept.

(** ** One change *)

Section changes.
Context `{Clock} `{!DateTimes} `{!ChronoParse} `{!UnicodeTables} `{!ChronoLaws} `{!ClockLaws}.

(** The headings and the lines to write are lines. *)
Definition settings_fit (settings : ReminderSettings) : Prop :=
  Forall one_line (open_headings settings) ∧ Forall one_line (done_headings settings).

Definition change_fits (c : Change) : Prop :=
  match c with
  | AddId _ _ id => one_line id
  | HomeChange _ edit => edit_fits edit
  | AppendEntry _ line | ReplaceEntry _ line | MoveEntry _ _ line => one_line line
  | RemoveDuplicateLinks _ => True
  end.

(** The row is one the change may replace or remove. *)
Definition addressed (c : Change) (row : str) : Prop :=
  match c with
  | AddId _ expected _ => row = trim_cr expected
  | HomeChange id _ | ReplaceEntry id _ | MoveEntry id _ _ | RemoveDuplicateLinks id => carries id row
  | AppendEntry _ _ => False
  end.

Definition moves (c : Change) : bool := match c with MoveEntry _ _ _ => true | _ => false end.

Context (path : str) (settings : ReminderSettings) (config : ReminderConfig).
Context (Hsettings : settings_fit settings).
Context (Q : str → Prop) `{!∀ line, Decision (Q line)}.

Lemma heading_line names fallback : Forall one_line names → one_line fallback → one_line (u "## " ++ default fallback (head names)).
Proof.
  intros Hn Hf. apply one_line_app; [unfold one_line; decide_closed|]. destruct Hn; [done|]. done.
Qed.

Lemma add_heading_kept l section : file_ok l → file_ok (add_heading l section settings) ∧ kept Q l (add_heading l section settings).
Proof.
  intros Hl. unfold add_heading. destruct Hsettings as [Ho Hd].
  set (name := match section with Section_Open => default (u "Open") _ | Section_Done => default (u "Done") _ end).
  assert (one_line (u "## " ++ name)) as Hname.
  { destruct section; apply heading_line; (done || (unfold one_line; decide_closed)). }
  destruct (match section with Section_Open => _ | Section_Done => None end) as [row|].
  - split; [by apply file_insert_ok, one_line_nil; apply file_insert_ok|]. eapply kept_trans; apply kept_insert.
  - destruct (is_some_and _ _).
    + split; [apply file_insert_ok; [by apply file_insert_ok, one_line_nil|done]|]. eapply kept_trans; apply kept_insert.
    + split; [by apply file_insert_ok|apply kept_insert].
Qed.

Lemma append_entry_kept l section line :
  file_ok l → one_line line →
  file_ok (append_entry l section line settings).1 ∧ kept Q l (append_entry l section line settings).1.
Proof.
  intros Hl Hline. unfold append_entry, end_of_section. destruct (section_end l section settings) as [row|]; cbn [fst].
  - split; [by apply file_insert_ok|apply kept_insert].
  - destruct (add_heading_kept l section Hl) as [Hok Hk]. split; [by apply file_insert_ok|].
    eapply kept_trans; [exact Hk|apply kept_insert].
Qed.

(** Entries are on lines that carry their ids, one below the other. *)
Lemma parse_index_rows l :
  file_ok l → StronglySorted lt (map en_row (parse_index (Lines_join l) path settings config)) ∧
  ∀ e, e ∈ parse_index (Lines_join l) path settings config →
    ∃ line, fl_lines l !! en_row e = Some line ∧ carries (en_id e) (trim_cr line).
Proof.
  intros Hl. unfold parse_index. set (f := entry_of _ _).
  assert (∀ a e, f a = Some e → lr_id (ap_reminder a) = Some (en_id e) ∧ en_row e = ap_line a) as Hf.
  { intros a e. unfold f, entry_of. destruct (lr_id (ap_reminder a)) as [id|]; [|done]. cbn [mbind option_bind].
    destruct (find _ _) as [[section r]|]; [|done]. cbn [mbind option_bind].
    destruct (trim_cr <$> _) as [line|]; [|done]. cbn [mbind option_bind].
    destruct (list_item_body line); [|done]. cbn [mbind option_bind]. by intros [= <-]. }
  split.
  - eapply StronglySorted_sublist; [|apply (proj1 (parse_note_rows (Lines_join l) path config))].
    apply omap_fmap_sublist. intros a e He. by apply Hf.
  - intros e (a & Ha & He)%list_elem_of_omap. apply Hf in He as [Hid ->]. by eapply appearance_line.
Qed.

Lemma entry_row_line l id row :
  file_ok l → entry_row l path id settings config = Some row →
  ∃ line, fl_lines l !! row = Some line ∧ carries id (trim_cr line).
Proof.
  intros Hl. unfold entry_row. destruct (find _ _) as [e|] eqn:E; [|done]. intros [= <-]. apply find_some in E as [Hin Hid].
  apply bool_decide_eq_true in Hid as <-. apply (parse_index_rows l Hl). by apply list_elem_of_In.
Qed.

Lemma find_home_line l id a :
  file_ok l → find_home (Lines_join l) path id config = Some a →
  ∃ line, fl_lines l !! ap_line a = Some line ∧ carries id (trim_cr line).
Proof.
  intros Hl Ha. apply list_elem_of_lookup_2 in Ha. apply list_elem_of_filter in Ha as [[_ Hid] Ha]. by eapply appearance_line.
Qed.

Lemma target_row_line lines row expected row' : target_row lines row expected = Some row' → lines !! row' = Some expected.
Proof.
  unfold target_row. case_bool_decide as Hr; [by intros [= <-]|]. destruct (filter _ _) as [|only [|? ?]] eqn:E; [done| |done].
  intros [= <-]. assert (only ∈ [only]) as Hin by (by left). rewrite <- E in Hin. by apply list_elem_of_filter in Hin as [Hin _].
Qed.

Lemma file_line l row line : file_ok l → fl_lines l !! row = Some line → one_line line.
Proof. intros [Hl _ _ _] Hr. by eapply Forall_lookup_1 in Hl. Qed.

(** The rows [move_rows] takes are below the entry. *)
Lemma move_end_ge fuel lines base end_ : end_ ≤ move_end fuel lines base end_.
Proof. revert end_. induction fuel as [|fuel IH]; intros end_; cbn; [done|]. destruct (is_some_and _ _); [|done]. specialize (IH (S end_)). lia. Qed.

Lemma move_rows_kept l row entry base to_ line :
  file_ok l → fl_lines l !! row = Some entry → ¬ Q entry → one_line line →
  file_ok (move_rows l row base to_ line settings) ∧ not_lost Q l (move_rows l row base to_ line settings).
Proof.
  intros Hl Hrow Hq Hline. unfold move_rows. set (end_ := move_end _ _ _ _). assert (S row ≤ end_) as Hend by apply move_end_ge.
  set (children := drop (S row) (take end_ (fl_lines l))).
  destruct (remove_run (end_ - row) row l Hl) as [Hok Hlines]. set (l1 := Nat.iter _ _ l) in *.
  replace (row + (end_ - row)) with end_ in Hlines by lia.
  destruct (append_entry_kept l1 to_ line Hok Hline) as [Hok2 Hk]. destruct (append_entry l1 to_ line settings) as [l2 at_]. cbn [fst] in *.
  assert (Forall one_line children) as Hch by (by apply Forall_drop, Forall_take, Hl).
  destruct (insert_lines_back Q at_ (imap pair children) l2 Hok2) as [Hok3 Hch3].
  { apply Forall_forall. intros [i child] (i' & c & Hi & Hin)%elem_of_lookup_imap. injection Hi as -> ->. cbn [snd]. by eapply Forall_lookup_1 in Hch. }
  split; [done|]. unfold not_lost. rewrite Hch3.
  assert (map snd (imap pair children) = children) as ->.
  { clear. change (map snd ?l) with (snd <$> l). rewrite fmap_imap. apply list_eq. intros i. rewrite list_lookup_imap. by destruct (children !! i). }
  assert (chosen Q l ≡ₚ filter Q children ++ chosen Q l1) as ->.
  { unfold chosen at 2. rewrite Hlines, filter_app. unfold chosen.
    assert (fl_lines l = take row (fl_lines l) ++ [entry] ++ children ++ drop end_ (fl_lines l)) as E.
    { cbn [app]. rewrite <- (take_drop_middle _ _ _ Hrow) at 1. do 2 f_equal. unfold children. rewrite <- (take_drop end_ (fl_lines l)) at 1.
      destruct (decide (end_ ≤ length (fl_lines l))).
      - by rewrite drop_app_le by (rewrite length_take; lia).
      - rewrite (drop_ge _ end_), app_nil_r by lia. by rewrite app_nil_r. }
    rewrite E at 1. rewrite !filter_app, not_chosen by done. cbn [app]. apply Permutation_app_swap_app. }
  by apply submseteq_app, sublist_submseteq.
Qed.

(** The change leaves the chosen lines alone. *)
Definition spares (c : Change) : Prop := ∀ line, Q line → ¬ addressed c (trim_cr line).

Lemma spared c line : spares c → addressed c (trim_cr line) → ¬ Q line.
Proof. intros Hs Ha Hq. by apply (Hs line). Qed.

Lemma duplicates_kept l id :
  file_ok l → spares (RemoveDuplicateLinks id) →
  let l' := fold_left (λ l row, Lines_remove row l) (rev (duplicate_rows (parse_index (Lines_join l) path settings config) id)) l in
  file_ok l' ∧ kept Q l l'.
Proof.
  intros Hl Hs. destruct (parse_index_rows l Hl) as [Hsorted Hrows]. unfold duplicate_rows. set (es := parse_index _ _ _ _) in *.
  set (later := filter (λ e, is_link (en_kind e) = true) _).
  assert (sublist later (filter (λ e, en_id e = id) es)) as Hlater by (etrans; [apply sublist_filter|apply sublist_drop]).
  destruct (remove_rows Q (map en_row later) l Hl) as (Hok & Hk & _); [| |by split].
  - eapply StronglySorted_sublist; [|exact Hsorted]. apply fmap_sublist. etrans; [exact Hlater|apply sublist_filter].
  - intros row (e & -> & He)%list_elem_of_fmap. eapply elem_of_submseteq in He; [|by apply sublist_submseteq].
    apply list_elem_of_filter in He as [<- He]. destruct (Hrows e He) as (line & Hline & Hc). exists line. split; [done|].
    by apply (spared (RemoveDuplicateLinks (en_id e))).
Qed.

Lemma change_step l c :
  file_ok l → change_fits c → spares c →
  ∃ l', apply_change path settings config l c = Some l' ∧ file_ok l' ∧ not_lost Q l l' ∧ (moves c = false → kept Q l l').
Proof.
  intros Hl Hfits Hs.
  assert (∀ l', file_ok l' → kept Q l l' → ∃ l'', Some l' = Some l'' ∧ file_ok l'' ∧ not_lost Q l l'' ∧ (moves c = false → kept Q l l'')) as Hdone.
  { intros l' Hok Hk. exists l'. split_and!; [done|done|by apply sublist_submseteq|done]. }
  assert (∀ row old new, fl_lines l !! row = Some old → addressed c (trim_cr old) → one_line new →
    ∃ l'', Some (set_line row new l) = Some l'' ∧ file_ok l'' ∧ not_lost Q l l'' ∧ (moves c = false → kept Q l l'')) as Hset.
  { intros row old new Hr Ha Hn. apply Hdone; [by apply set_line_ok|]. eapply kept_set_line; [done|]. by eapply spared. }
  pose proof (Hdone l Hl (kept_refl Q l)) as Hnone.
  destruct c as [row expected id|id edit|section line|id line|id to_ line|id]; cbn [apply_change].
  - destruct (target_row _ _ _) as [row'|] eqn:Er; [|done]. apply target_row_line in Er. rewrite Er. cbn [mbind option_bind].
    destruct (add_id expected id) as [edited|] eqn:Ee; cbn [from_option]; [|done]. apply (Hset _ expected); [done|done|].
    eapply one_line_add_id; [|exact Hfits|exact Ee]. by eapply file_line.
  - destruct (find_home _ _ _ _) as [home|] eqn:Eh; [|done]. destruct (find_home_line l id home Hl Eh) as (old & Hr & Hc).
    rewrite Hr. cbn [mbind option_bind]. destruct (edit_home _ _ _) as [edited|] eqn:Ee; cbn [from_option]; [|done].
    apply (Hset _ old); [done|done|]. eapply one_line_edit; [exact Hfits| |exact Ee]. by eapply file_line.
  - destruct (append_entry_kept l section line Hl Hfits) as [Hok Hk]. by apply Hdone.
  - destruct (entry_row _ _ _ _ _) as [row|] eqn:Er; [|done]. destruct (entry_row_line l id row Hl Er) as (old & Hr & Hc).
    rewrite Hr. cbn [mbind option_bind]. by apply (Hset _ old).
  - destruct (entry_row _ _ _ _ _) as [row|] eqn:Er; [|done]. destruct (entry_row_line l id row Hl Er) as (old & Hr & Hc).
    rewrite Hr. cbn [mbind option_bind]. eexists. split; [reflexivity|].
    destruct (move_rows_kept l row old (indent_of old) to_ line Hl Hr) as [Hok Hk]; [by eapply spared|done|]. by split_and!.
  - destruct (duplicates_kept l id Hl Hs) as [Hok Hk]. by apply Hdone.
Qed.

Lemma changes_run changes l :
  file_ok l → Forall change_fits changes → Forall spares changes →
  ∃ l', apply_loop path settings config changes l = Some l' ∧ file_ok l' ∧ not_lost Q l l' ∧
    (Forall (λ c, moves c = false) changes → kept Q l l').
Proof.
  intros Hl Hf. revert l Hl. induction Hf as [|c changes Hc Hf IH]; intros l Hl Hs.
  - exists l. split_and!; [done|done|by unfold not_lost|intros _; apply kept_refl].
  - apply Forall_cons in Hs as [Hsc Hs]. destruct (change_step l c Hl Hc Hsc) as (l1 & E1 & Hok1 & Hn1 & Hk1).
    destruct (IH l1 Hok1 Hs) as (l2 & E2 & Hok2 & Hn2 & Hk2). exists l2. cbn [apply_loop]. rewrite E1. cbn [mbind option_bind].
    split_and!; [done|done|unfold not_lost in *; by etrans|]. intros [Hm Hms]%Forall_cons. eapply kept_trans; eauto.
Qed.
End changes.

(** C12: the changes of a batch lose no line and never go wrong. Applied to any text they give a text (no index is out
    of range), in which every line that is neither blank nor one a change addresses is still there as often as it was;
    and if no entry moves, these lines are in their order. A change addresses the lines that read what it expects, or
    that carry its id. *)
Theorem changes_lose_no_line `{Clock} `{!DateTimes} `{!ChronoParse} `{!UnicodeTables} `{!ChronoLaws} `{!ClockLaws}
    text path changes settings config (P : str → Prop) `{!∀ row, Decision (P row)} :
  settings_fit settings → Forall change_fits changes →
  (∀ row, P row → row ≠ [] ∧ Forall (λ c, ¬ addressed c row) changes) →
  ∃ text', apply_changes (Some text) path changes settings config = Some text' ∧
    filter P (rows text) ⊆+ filter P (rows text') ∧
    (Forall (λ c, moves c = false) changes → sublist (filter P (rows text)) (filter P (rows text'))).
Proof.
  intros Hset Hfit HP. destruct (changes_run path settings config Hset (λ line, P (trim_cr line)) changes (Lines_split text))
    as (l' & El & Hok & Hn & Hk); [apply file_split_ok|done| |].
  { apply Forall_forall. intros c Hc line Hq. destruct (HP _ Hq) as [_ Ha]. rewrite Forall_forall in Ha. by apply Ha. }
  exists (Lines_join l'). split; [unfold apply_changes; by rewrite El|].
  assert (∀ l, file_ok l → filter P (rows (Lines_join l)) = trim_cr <$> chosen (λ line, P (trim_cr line)) l) as Hrows.
  { intros l Hl. destruct (rows_join l Hl) as (tail & -> & Hb). rewrite filter_app, (filter_none P tail), app_nil_r.
    - unfold chosen. clear. induction (fl_lines l) as [|line lines IH]; [done|]. cbn [map]. rewrite !filter_cons.
      repeat case_decide; cbn; by rewrite ?IH.
    - intros row Hin Hp. unfold blank_rows in Hb; rewrite Forall_forall in Hb. destruct (HP _ Hp) as [Hne _]. by apply Hne, Hb. }
  rewrite <- (file_split_join text) at 1 2. rewrite !Hrows by (done || apply file_split_ok).
  split; [by apply fmap_submseteq|]. intros Hm. by apply fmap_sublist, Hk.
Qed.
