(* ===== verification/ReminderDay.v ===== *)
(** * The day's reminders ([thock/src/reminder_day.rs])

    The reconciler that keeps the reminders subsection of a daily note in step
    with the reminders due that day, and what its service remembers between two
    runs. The edits are those of [EventSync], applied by [apply_line_edits]. *)

From stdpp Require Import gmap.
From S2P Require Import Prelude Strings External Ordering Write Lines HeadingKey LineHash Sections Dates.
From S2P Require Import MarkdownSyntax DeskHeadings DayPlan EventSync Reminder Mirror ReminderIndex.

(** Where a reminder stands. *)
Inductive DayStatus := Day_Open | Day_Closed | Day_Dropped | Day_Removed.

#[export] Instance DayStatus_eq_dec : EqDecision DayStatus.
Proof. solve_decision. Defined.

(** [DayConfig] *)
Record DayConfig := mkDayConfig { planner_headings : list str; dc_day_headings : list str }.

(** A mirror the person edited, with the words its home line has now. *)
Record Frozen := mkFrozen { fr_id : str; fr_line : str; fr_text : str }.

Inductive DayReconciled :=
| Day_NoPlannerSection
| Day_NoSectionRoom
| Day_Edits (edits : list LineEdit) (frozen : list Frozen).

Section day.
Context `{Clock} `{!UnicodeTables}.

Record DayReminder := mkDayReminder {
  dr_id : str;
  dr_home : str;
  dr_text : str;
  dr_due : option Due;
  dr_status : DayStatus;
  previous_text : option str;
  reopened : bool
}.

Definition from_home_line (id home line : str) (home_day : option NaiveDate) : option DayReminder :=
  reminder ← parse_line line home_day;
  let status := match reminder_state reminder with
    | State_Open => Day_Open
    | State_Closed => Day_Closed
    | State_Dropped => Day_Dropped
    end in
  Some (mkDayReminder id home (reminder_text line) (lr_due reminder) status None false).

Definition removed_reminder (id home : str) : DayReminder := mkDayReminder id home [] None Day_Removed None false.

Definition DayConfig_new (planner : DayPlannerConfig) (settings : ReminderSettings) : DayConfig :=
  mkDayConfig (heading planner :: heading_aliases planner) (rs_day_headings settings).

(** ** Where a reminder is listed *)

Definition date_ltb (a b : NaiveDate) : bool := match date_cmp a b with Lt => true | _ => false end.

Inductive Placement := At_Day (time : option NaiveTime) | Carried (due : Due) | Moved_To (date : NaiveDate).

Definition placement (due : Due) (day today : NaiveDate) : Placement :=
  if due_date due == day then At_Day (due_time due)
  else if (day == today) && date_ltb (due_date due) today then Carried due
  else Moved_To (due_date due).

(** [NaiveTime]'s order: the second of the day, then the nanosecond. *)
Definition seconds_of (t : NaiveTime) : N := (hour t * 3600 + minute t * 60 + second t)%N.
Definition time_cmp (a b : NaiveTime) : comparison :=
  then_with (seconds_of a ?= seconds_of b)%N (nanosecond a ?= nanosecond b)%N.

(** The derived order of an [Option]. *)
Definition opt_cmp {A} (cmp : A → A → comparison) (a b : option A) : comparison :=
  match a, b with
  | None, None => Eq
  | None, Some _ => Lt
  | Some _, None => Gt
  | Some a, Some b => cmp a b
  end.

Definition due_cmp (a b : Due) : comparison :=
  then_with (date_cmp (due_date a) (due_date b)) (opt_cmp time_cmp (due_time a) (due_time b)).

(** [SortKey]: timed mirrors, then untimed ones, then carried ones. *)
Abbreviation SortKey := (nat * option NaiveTime * option Due)%type (only parsing).

Definition sort_key (mirror : MirrorLine) : SortKey :=
  match ml_time mirror, ml_carried mirror with
  | Some time, _ => (0, Some time, None)
  | None, None => (1, None, None)
  | None, Some due => (2, None, Some due)
  end.

Definition key_cmp (a b : SortKey) : comparison :=
  then_with (a.1.1 ?= b.1.1)%nat (then_with (opt_cmp time_cmp a.1.2 b.1.2) (opt_cmp due_cmp a.2 b.2)).

Definition mirror_cmp (a b : MirrorLine) : comparison :=
  then_with (key_cmp (sort_key a) (sort_key b))
    (then_with (str_cmp (ml_text a) (ml_text b)) (str_cmp (ml_id a) (ml_id b))).

(** ** A mirror brought in step *)

(** What [text] has after [words], when it begins with them as whole words. *)
Definition words_trailing (text words : str) : option str :=
  rest ← strip_prefix words text;
  if is_empty rest || is_some_and is_whitespace (head rest) then Some rest else None.

Definition followed_text (current : str) (reminder : DayReminder) : option str :=
  if is_empty (dr_text reminder) then Some current
  else
    let expected := mirror_text (dr_text reminder) in
    match words_trailing current expected with
    | Some _ => Some current
    | None =>
        previous ← previous_text reminder;
        trailing ← words_trailing current (mirror_text previous);
        Some (expected ++ trailing)
    end.

Definition updated_mirror (mirror : MirrorLine) (reminder : DayReminder) (day today : NaiveDate) : option MirrorLine :=
  text ← followed_text (ml_text mirror) reminder;
  let note := match dr_status reminder with
    | Day_Removed => ml_note mirror
    | _ => note_link (dr_home reminder)
    end in
  let base checked time mark carried := mkMirrorLine checked time text mark carried note (ml_id mirror) in
  let placed checked :=
    match dr_due reminder with
    | None => mirror
    | Some due =>
        match placement due day today with
        | At_Day time => base checked time None None
        | Carried due => base checked None None (Some due)
        | Moved_To date => base checked None (Some (Moved date)) None
        end
    end in
  Some (match dr_status reminder with
    | Day_Dropped => base (ml_checked mirror) None (Some Dropped) None
    | Day_Removed => base (ml_checked mirror) None (Some Removed) None
    | Day_Closed => placed true
    | Day_Open => placed (ml_checked mirror && negb (reopened reminder))
    end).

(** ** The section *)

Definition find_day_section (lines : list str) (planner_range : range) (planner_level : nat) (config : DayConfig)
  : option range :=
  let child_level := planner_level + 1 in
  '(start, _) ← best_heading (rows_of lines planner_range) (HeadingNames_new (dc_day_headings config)) (Some child_level);
  let end_ := match list_find (λ e, heading_at_most child_level e.2 = true)
      (rows_of lines (mkRange (start + 1) (r_end planner_range))) with
    | Some (_, (row, _)) => row
    | None => r_end planner_range
    end in
  Some (mkRange (start + 1) end_).

Definition day_creation_edits (lines : list str) (planner_range : range) (planner_level : nat) (config : DayConfig)
    (wanted : list MirrorLine) : list LineEdit :=
  let row := r_end planner_range in
  let name := default DEFAULT_DAY_HEADING (head (dc_day_headings config)) in
  let blank_before := if (0 <? row)%nat && is_some_and (λ line, negb (is_blank_line line)) (lines !! (row - 1))
    then [[]] else [] in
  let block := blank_before ++ [replicate (planner_level + 1) HASH ++ u " " ++ name] ++ map show_mirror wanted
    ++ (if is_some_and (λ next, negb (is_blank_line next)) (lines !! row) then [[]] else []) in
  map (λ text, mkEdit row (Insert text)) block.

(** ** Reconciling *)

(** The first reminder of each id. *)
Definition dedup_reminder (reminders : list DayReminder) (reminder : DayReminder) : list DayReminder :=
  if bool_decide (dr_id reminder ∈ map dr_id reminders) then reminders else reminders ++ [reminder].

Definition dedup_reminders (reminders : list DayReminder) : list DayReminder := fold_left dedup_reminder reminders [].

Definition line_id (day : NaiveDate) (line : str) : option str := parse_line line (Some day) ≫= lr_id.

Definition ids_in_note (lines : list str) (day : NaiveDate) : list str := omap (line_id day) lines.

(** The mirror to insert for a reminder. *)
Definition wanted_mirror (note_path : str) (ids : list str) (day today : NaiveDate) (reminder : DayReminder)
  : option MirrorLine :=
  if bool_decide (dr_status reminder = Day_Open) && (dr_home reminder != note_path)
     && negb (bool_decide (dr_id reminder ∈ ids)) then
    due ← dr_due reminder;
    let mirror time carried :=
      mkMirrorLine false time (mirror_text (dr_text reminder)) None carried (note_link (dr_home reminder)) (dr_id reminder) in
    match placement due day today with
    | At_Day time => Some (mirror time None)
    | Carried due => Some (mirror None (Some due))
    | Moved_To _ => None
    end
  else None.

(** What the loop over the section's rows carries. *)
Record SectionPass := mkPass {
  sp_edits : list LineEdit;
  sp_frozen : list Frozen;
  sp_updated : list str;
  sp_placed : list (nat * SortKey)
}.

Definition reminder_by_id (reminders : list DayReminder) (id : str) : option DayReminder :=
  find (λ r, dr_id r == id) reminders.

Definition section_row (reminders : list DayReminder) (day today : NaiveDate) (pass : SectionPass) (entry : nat * str)
  : SectionPass :=
  let '(row, line) := entry in
  match (parsed ← parse_line line (Some day); if is_none (lr_token parsed) then lr_id parsed else None) with
  | None => pass
  | Some id =>
      let mirror := MirrorLine_parse line in
      let found := reminder_by_id reminders id in
      let known := if bool_decide (id ∈ sp_updated pass) then None else found in
      let updated := if is_some known then id :: sp_updated pass else sp_updated pass in
      match known, mirror with
      | Some reminder, Some mirror =>
          match updated_mirror mirror reminder day today with
          | Some next =>
              let rendered := show_mirror next in
              mkPass (if rendered == trim_end line then sp_edits pass else sp_edits pass ++ [mkEdit row (Replace rendered)])
                (sp_frozen pass) updated (sp_placed pass ++ [(row, sort_key next)])
          | None =>
              mkPass (sp_edits pass) (sp_frozen pass ++ [mkFrozen id line (dr_text reminder)]) updated
                (sp_placed pass ++ [(row, sort_key mirror)])
          end
      | _, _ =>
          mkPass (sp_edits pass)
            (match known with Some reminder => sp_frozen pass ++ [mkFrozen id line (dr_text reminder)] | None => sp_frozen pass end)
            updated
            (match mirror with Some mirror => sp_placed pass ++ [(row, sort_key mirror)] | None => sp_placed pass end)
      end
  end.

Definition day_insert_edit (placed : list (nat * SortKey)) (fallback_row : nat) (mirror : MirrorLine) : LineEdit :=
  let row := match list_find (λ p, key_cmp p.2 (sort_key mirror) = Gt) placed with
    | Some (_, (row, _)) => row
    | None => fallback_row
    end in
  mkEdit row (Insert (show_mirror mirror)).

Definition day_section_edits (lines : list str) (section : range) (reminders : list DayReminder)
    (wanted : list MirrorLine) (day today : NaiveDate) : list LineEdit * list Frozen :=
  let pass := fold_left (section_row reminders day today) (rows_of lines section) (mkPass [] [] [] []) in
  let inserts := map (day_insert_edit (sp_placed pass) (after_last_content_row lines section)) wanted in
  (sort_by row_cmp (sp_edits pass ++ inserts), sp_frozen pass).

Definition wanted_mirrors (lines : list str) (note_path : str) (day today : NaiveDate) (reminders : list DayReminder)
  : list MirrorLine :=
  sort_by mirror_cmp (omap (wanted_mirror note_path (ids_in_note lines day) day today) reminders).

Definition reconcile_day (note note_path : str) (day today : NaiveDate) (reminders : list DayReminder) (config : DayConfig)
  : DayReconciled :=
  if date_ltb day today then Day_Edits [] []
  else
    let lines := str_lines note in
    let reminders := dedup_reminders reminders in
    let wanted := wanted_mirrors lines note_path day today reminders in
    match planner_section lines (HeadingNames_new (planner_headings config)) with
    | None => match wanted with [] => Day_Edits [] [] | _ => Day_NoPlannerSection end
    | Some (planner_range, planner_level) =>
        match find_day_section lines planner_range planner_level config with
        | None =>
            match wanted with
            | [] => Day_Edits [] []
            | _ =>
                if (6 <=? planner_level)%nat then Day_NoSectionRoom
                else Day_Edits (day_creation_edits lines planner_range planner_level config wanted) []
            end
        | Some section =>
            let '(edits, frozen) := day_section_edits lines section reminders wanted day today in
            Day_Edits edits frozen
        end
    end.

(** ** The service's memory *)

Record Remembered := mkRemembered {
  rm_text : str;
  rm_previous : option str;
  rm_closed : bool;
  rm_days : list NaiveDate
}.

#[export] Instance Remembered_eq_dec : EqDecision Remembered.
Proof. solve_decision. Defined.

(** [reminders] in key order; [frozen_logged] as a set. *)
Record Memory := mkMemory {
  mem_reminders : list (str * Remembered);
  frozen_logged : list (NaiveDate * str * str)
}.

Definition Remembered_default : Remembered := mkRemembered [] None false [].
Definition Memory_default : Memory := mkMemory [] [].

Inductive DayHold := NoPlannerHeading (heading : str) | PlannerHeadingTooDeep (heading : str).

(** [BTreeSet] of dates: in order, each once. *)
Fixpoint date_insert (d : NaiveDate) (l : list NaiveDate) : list NaiveDate :=
  match l with
  | [] => [d]
  | d' :: rest =>
      match date_cmp d d' with
      | Lt => d :: l
      | Eq => l
      | Gt => d' :: date_insert d rest
      end
  end.

Record DaySync := mkDaySync {
  memory : Memory;
  memory_loaded : bool;
  pending : PathSet;
  index_dirty : bool;
  running : bool;
  hold : option DayHold;
  failure : option str;
  retry_notes : PathSet
}.

Definition DaySync_new : DaySync := mkDaySync Memory_default false [] false false None None [].

Inductive ReminderEvent :=
| IndexChanged | DayChanged | SettingsChanged
| NoteCreated (path : str) | NoteChanged (path : str)
| ShowReminders.

(** [schedule]: whether a run starts. *)
Definition schedule (s : DaySync) : DaySync * bool :=
  if negb (memory_loaded s) || running s then (s, false)
  else match pending s with
    | [] => if index_dirty s then (mkDaySync (memory s) true [] true true (hold s) (failure s) (retry_notes s), true) else (s, false)
    | _ => (mkDaySync (memory s) true (pending s) (index_dirty s) true (hold s) (failure s) (retry_notes s), true)
    end.

(** The subscription's closure, and whether a run starts. *)
Definition on_event (event : ReminderEvent) (s : DaySync) : DaySync * bool :=
  let dirty := mkDaySync (memory s) (memory_loaded s) (pending s) true (running s) (hold s) (failure s) (retry_notes s) in
  let touched path := mkDaySync (memory s) (memory_loaded s) (path_insert path (pending s)) (index_dirty s) (running s)
    (hold s) (failure s) (retry_notes s) in
  match event with
  | IndexChanged | DayChanged | SettingsChanged => schedule dirty
  | NoteCreated path | NoteChanged path => schedule (touched path)
  | ShowReminders => (s, false)
  end.

(** [retry] *)
Definition retry (s : DaySync) : DaySync * bool :=
  schedule (mkDaySync (memory s) (memory_loaded s) (path_append (pending s) (retry_notes s)) (index_dirty s) (running s)
    (hold s) (failure s) []).

(** The end of [load_memory]; [None] where the file is missing or cannot be read. *)
Definition load_memory (loaded : option Memory) (s : DaySync) : DaySync * bool :=
  schedule (mkDaySync (default (memory s) loaded) true (pending s) (index_dirty s) (running s) (hold s) (failure s) (retry_notes s)).

(** What the memory keeps of a reminder, and whether it was reopened. *)
Definition remember (today : NaiveDate) (reminder : IndexedReminder) (entry : Remembered) : Remembered * bool :=
  let text := default [] (ir_text reminder) in
  let closed := bool_decide (ir_state reminder = Indexed_Closed) in
  let changed := negb (bool_decide (rm_text entry = text)) && negb (is_empty text) in
  let previous := if changed && negb (is_empty (rm_text entry)) then Some (rm_text entry) else rm_previous entry in
  let kept := if changed then text else rm_text entry in
  let reopened := rm_closed entry && bool_decide (ir_state reminder = Indexed_Open) in
  let days := filter (λ day, date_ltb day today = false) (rm_days entry) in
  let days := match ir_due reminder with
    | Some due => if negb (date_ltb (due_date due) today) then date_insert (due_date due) days else days
    | None => days
    end in
  (mkRemembered kept previous closed days, reopened).

(** One step of the loop over the index: the entries, the ids reopened, whether anything changed. *)
Definition remember_step (today : NaiveDate) (acc : list (str * Remembered) * list str * bool) (reminder : IndexedReminder)
  : list (str * Remembered) * list str * bool :=
  let '(entries, reopened, changed) := acc in
  if bool_decide (ir_state reminder = Indexed_Missing) then acc
  else
    let before := default Remembered_default (btree_get (ir_id reminder) entries) in
    let '(entry, again) := remember today reminder before in
    (btree_insert (ir_id reminder) entry entries,
     if again then ir_id reminder :: reopened else reopened,
     changed || negb (bool_decide (entry = before))).

Definition remember_all (today : NaiveDate) (indexed : list IndexedReminder) (entries : list (str * Remembered))
  : list (str * Remembered) * list str * bool :=
  let kept := filter (λ e, e.1 ∈ map ir_id indexed) entries in
  fold_left (remember_step today) indexed (kept, [], negb (length kept =? length entries)%nat).

(** Today and every day the memory names. *)
Definition days_to_visit (today : NaiveDate) (entries : list (str * Remembered)) : list NaiveDate :=
  fold_left (λ days day, date_insert day days) (flat_map (λ e, rm_days e.2) entries) [today].

Definition day_status (state : IndexedState) : option DayStatus :=
  match state with
  | Indexed_Open => Some Day_Open
  | Indexed_Closed => Some Day_Closed
  | Indexed_Dropped => Some Day_Dropped
  | Indexed_Removed => Some Day_Removed
  | Indexed_Missing => None
  end.

Definition day_reminder (entries : list (str * Remembered)) (reopened : list str) (reminder : IndexedReminder)
  : option DayReminder :=
  status ← day_status (ir_state reminder);
  Some (mkDayReminder (ir_id reminder) (ir_home reminder) (default [] (ir_text reminder)) (ir_due reminder) status
    (btree_get (ir_id reminder) entries ≫= rm_previous) (bool_decide (ir_id reminder ∈ reopened))).

(** What a run works on. *)
Record DayJob := mkDayJob {
  job_notes : list (str * NaiveDate);
  job_today : NaiveDate;
  job_today_path : str;
  job_reminders : list DayReminder;
  job_planner_heading : str;
  job_saves_memory : bool
}.

(** What the service knows when a run takes its job: [daily_path] is the vault's note of a day, relative to its root;
    [is_loaded] also says that it still has its vault and file system. *)
Record ServiceState := mkServiceState {
  sv_today : NaiveDate;
  is_loaded : bool;
  indexed : list IndexedReminder;
  sv_config : ReminderConfig;
  sv_planner : str;
  daily_path : NaiveDate → str
}.

Definition take_job (service : ServiceState) (s : DaySync) : DaySync * option DayJob :=
  let idle := match pending s with [] => negb (index_dirty s) | _ => false end in
  if idle || negb (is_loaded service) then (s, None)
  else
    let today := sv_today service in
    let '(entries, reopened, changed) :=
      if index_dirty s then remember_all today (indexed service) (mem_reminders (memory s))
      else (mem_reminders (memory s), [], false) in
    let visited := if index_dirty s
      then fold_left (λ paths day, path_insert (daily_path service day) paths) (days_to_visit today entries) (pending s)
      else pending s in
    let paths := path_append visited (retry_notes s) in
    let notes := omap (λ p, day ← day_of (config_daily (sv_config service)) p.1;
      if date_ltb day today then None else Some (p.1, day)) paths in
    let s := mkDaySync (mkMemory entries (frozen_logged (memory s))) (memory_loaded s) [] false (running s) (hold s)
      (failure s) [] in
    match notes, changed with
    | [], false => (s, None)
    | _, _ => (s, Some (mkDayJob notes today (daily_path service today)
        (omap (day_reminder entries reopened) (indexed service)) (trim (sv_planner service)) changed))
    end.

(** What a run did to a note: [None] where it is missing; the error of a failed write. *)
Record NoteOutcome := mkOutcome {
  no_path : str;
  no_day : NaiveDate;
  no_reconciled : option DayReconciled;
  no_error : option str
}.

(** The hold an outcome of today's note leaves. *)
Definition hold_of (job : DayJob) (outcome : option DayReconciled) : option DayHold :=
  match outcome with
  | Some Day_NoPlannerSection => Some (NoPlannerHeading (job_planner_heading job))
  | Some Day_NoSectionRoom => Some (PlannerHeadingTooDeep (job_planner_heading job))
  | _ => None
  end.

(** A frozen mirror not logged before is a line of the log: note, id, line, the home's words. *)
Definition log_frozen (path : str) (day : NaiveDate) (acc : list (NaiveDate * str * str) * list (str * Frozen)) (frozen : Frozen)
  : list (NaiveDate * str * str) * list (str * Frozen) :=
  let key := (day, fr_id frozen, fr_line frozen) in
  if bool_decide (key ∈ acc.1) then acc else (acc.1 ++ [key], acc.2 ++ [(path, frozen)]).

Definition finish_note (job : DayJob) (acc : DaySync * list (str * Frozen)) (outcome : NoteOutcome)
  : DaySync * list (str * Frozen) :=
  let '(s, log) := acc in
  let retry_notes' := match no_error outcome with
    | Some _ => path_insert (no_path outcome) (retry_notes s)
    | None => btree_remove (no_path outcome) (retry_notes s)
    end in
  let failure' := match no_error outcome with Some error => Some error | None => failure s end in
  let hold' := if no_path outcome == job_today_path job then hold_of job (no_reconciled outcome) else hold s in
  let '(logged, log) := match no_reconciled outcome with
    | Some (Day_Edits _ frozen) => fold_left (log_frozen (no_path outcome) (no_day outcome)) frozen (frozen_logged (memory s), log)
    | _ => (frozen_logged (memory s), log)
    end in
  (mkDaySync (mkMemory (mem_reminders (memory s)) logged) (memory_loaded s) (pending s) (index_dirty s) (running s) hold' failure'
    retry_notes', log).

(** The state, the lines logged, and whether the memory is saved. *)
Definition finish_job (job : DayJob) (outcomes : list NoteOutcome) (s : DaySync)
  : DaySync * list (str * Frozen) * bool :=
  let '(s, log) := fold_left (finish_note job) outcomes (s, []) in
  let failure' := match retry_notes s with [] => None | _ => failure s end in
  let logged := filter (λ key, date_ltb key.1.1 (job_today job) = false) (frozen_logged (memory s)) in
  let pruned := negb (length logged =? length (frozen_logged (memory s)))%nat in
  let saves := match log, pruned with [], false => job_saves_memory job | _, _ => true end in
  (mkDaySync (mkMemory (mem_reminders (memory s)) logged) (memory_loaded s) (pending s) (index_dirty s) (running s) (hold s) failure'
    (retry_notes s), log, saves).

(** The run ends: no job was taken. *)
Definition end_run (s : DaySync) : DaySync :=
  mkDaySync (memory s) (memory_loaded s) (pending s) (index_dirty s) false (hold s) (failure s) (retry_notes s).

(** The loop of a run no event interrupts: [work] is what [run_job] makes of a job. *)
Fixpoint day_run (fuel : nat) (service : ServiceState) (work : DayJob → list NoteOutcome) (s : DaySync) : option DaySync :=
  match fuel with
  | 0 => None
  | S fuel =>
      match take_job service s with
      | (s, None) => Some (end_run s)
      | (s, Some job) => day_run fuel service work (finish_job job (work job) s).1.1
      end
  end.

(** The steps of the entity: its state, the job of the run that is going on, and whether the last run ended because the
    service was not loaded, with nothing since to start another. *)
Definition DayState : Type := DaySync * option DayJob * bool.

Inductive day_step : DayState → DayState → Prop :=
| step_event event s job held :
    day_step (s, job, held) ((on_event event s).1, job, held && negb (on_event event s).2)
| step_retry s job held :
    day_step (s, job, held) ((retry s).1, job, held && negb (retry s).2)
| step_load loaded s job held :
    memory_loaded s = false → (∀ m, loaded = Some m → btree_ok (mem_reminders m)) →
    day_step (s, job, held) ((load_memory loaded s).1, job, held)
| step_take service s s' job held :
    running s = true → take_job service s = (s', Some job) → day_step (s, None, held) (s', Some job, held)
| step_end service s s' held :
    running s = true → take_job service s = (s', None) → day_step (s, None, held) (end_run s', None, negb (is_loaded service))
| step_finish job outcomes s held :
    day_step (s, Some job, held) ((finish_job job outcomes s).1.1, None, held).

Definition LOG_LINES : nat := 500.

Definition appended_log (existing new : str) : str :=
  let lines := str_lines existing ++ str_lines new in
  join [10%N] (drop (length lines - LOG_LINES) lines) ++ [10%N].
End day.
