(* ===== verification/ReminderDayTheory.v ===== *)
(** * What the day's reconciler does ([thock/src/reminder_day.rs])

    It writes over mirrors only, lists every reminder of the day once, and comes
    to rest after one pass; and the service's memory between two runs. *)

From stdpp Require Import gmap sorting.
From S2P Require Import Prelude Strings External Ordering Write Lines HeadingKey LineHash Sections Dates.
From S2P Require Import MarkdownSyntax DeskHeadings DayPlan EventSync EventSyncTheory Reminder Mirror ReminderIndex ReminderIndexTheory ReminderDay.

Section mirrors.
Context `{Clock} `{!UnicodeTables}.

(** ** A mirror comes to rest *)

Lemma words_trailing_app words rest :
  is_empty rest || is_some_and is_whitespace (head rest) = true → words_trailing (words ++ rest) words = Some rest.
Proof. intros Hr. unfold words_trailing. rewrite strip_prefix_app. cbn [mbind option_bind]. by rewrite Hr. Qed.

Lemma words_trailing_spec text words rest :
  words_trailing text words = Some rest → text = words ++ rest ∧ is_empty rest || is_some_and is_whitespace (head rest) = true.
Proof.
  unfold words_trailing. destruct (strip_prefix words text) as [r|] eqn:E; [|done]. cbn [mbind option_bind].
  apply strip_prefix_Some in E as ->. destruct (_ || _) eqn:Er; [|done]. by intros [= ->].
Qed.

Lemma followed_again current reminder text :
  followed_text current reminder = Some text → followed_text text reminder = Some text.
Proof.
  unfold followed_text. destruct (is_empty (dr_text reminder)); [done|].
  destruct (words_trailing current _) as [rest|] eqn:E; [intros [= <-]; by rewrite E|].
  destruct (previous_text reminder) as [previous|]; [|done]. cbn [mbind option_bind].
  destruct (words_trailing current (mirror_text previous)) as [trailing|] eqn:Et; [|done]. cbn [mbind option_bind].
  intros [= <-]. apply words_trailing_spec in Et as [_ Ht]. by rewrite words_trailing_app.
Qed.

(** A mirror comes to rest after one pass. Brought in step with its reminder it is, once more, as it should be,
    whatever the reminder's state, its day and what the person wrote after its words; and the line it is written as
    reads back as the same mirror when the line can say it. *)
Theorem day_mirror_settles `{!ChronoLaws} `{!ClockLaws} mirror reminder day today next :
  updated_mirror mirror reminder day today = Some next →
  updated_mirror next reminder day today = Some next ∧ (mirror_ok next → MirrorLine_parse (show_mirror next) = Some next).
Proof.
  intros Hu. split; [|apply mirror_roundtrip]. unfold updated_mirror in *.
  destruct (followed_text (ml_text mirror) reminder) as [text|] eqn:Ef; [|done]. cbn [mbind option_bind] in Hu.
  injection Hu as <-. apply followed_again in Ef as Ef2.
  destruct (dr_status reminder) eqn:Es; [destruct (dr_due reminder) as [due|] eqn:Ed; [destruct (placement due day today) eqn:Ep|]..| |];
    cbn [ml_text ml_checked ml_note ml_id]; rewrite ?Ef, ?Ef2; cbn [mbind option_bind];
    rewrite <- ?andb_assoc, ?andb_diag; done.
Qed.
End mirrors.

(** ** The note *)

Section notes.
Context `{Clock} `{!UnicodeTables}.

(** Why a line is rewritten: it is the mirror of a reminder, brought in step. *)
Definition day_rewrites (lines : list str) (reminders : list DayReminder) (day today : NaiveDate) (row : nat) (text : str) : Prop :=
  ∃ line mirror reminder next, lines !! row = Some line ∧ MirrorLine_parse line = Some mirror ∧
    reminder ∈ reminders ∧ line_id day line = Some (dr_id reminder) ∧
    updated_mirror mirror reminder day today = Some next ∧ text = show_mirror next.

Definition day_edit_ok (lines : list str) (reminders : list DayReminder) (day today : NaiveDate) (e : LineEdit) : Prop :=
  match edit_kind e with Insert _ => True | Replace text => day_rewrites lines reminders day today (edit_row e) text end.

Lemma reminder_by_id_spec reminders id reminder :
  reminder_by_id reminders id = Some reminder → reminder ∈ reminders ∧ dr_id reminder = id.
Proof. intros [Hin Hid]%find_some. apply list_elem_of_In in Hin. by apply bool_decide_eq_true in Hid. Qed.

Lemma section_row_ok lines reminders day today pass row line :
  lines !! row = Some line → Forall (day_edit_ok lines reminders day today) (sp_edits pass) →
  Forall (day_edit_ok lines reminders day today) (sp_edits (section_row reminders day today pass (row, line))).
Proof.
  intros Hl Hp. unfold section_row. destruct (parse_line line (Some day)) as [parsed|] eqn:Epl; [|done]. cbn [mbind option_bind].
  destruct (is_none (lr_token parsed)); [|done]. destruct (lr_id parsed) as [id|] eqn:Eid; [|done].
  destruct (bool_decide (id ∈ sp_updated pass)); [by destruct (MirrorLine_parse line)|].
  destruct (reminder_by_id reminders id) as [reminder|] eqn:Er; [|by destruct (MirrorLine_parse line)].
  destruct (MirrorLine_parse line) as [mirror|] eqn:Em; [|done]. destruct (updated_mirror mirror reminder day today) as [next|] eqn:Eu; [|done].
  cbn [sp_edits]. case_bool_decide; [done|]. apply Forall_app. split; [done|]. apply Forall_singleton. unfold day_edit_ok. cbn.
  apply reminder_by_id_spec in Er as [Hin <-]. exists line, mirror, reminder, next. split_and!; [done|done|done| |done|done].
  unfold line_id. by rewrite Epl.
Qed.

Lemma section_fold_ok lines r reminders day today pass :
  Forall (day_edit_ok lines reminders day today) (sp_edits pass) →
  Forall (day_edit_ok lines reminders day today) (sp_edits (fold_left (section_row reminders day today) (rows_of lines r) pass)).
Proof.
  assert (∀ e, e ∈ rows_of lines r → lines !! e.1 = Some e.2) as Hrows by (intros [i l]; apply rows_of_lookup).
  revert pass. induction (rows_of lines r) as [|[row line] rest IH]; intros pass Hp; [done|]. cbn [fold_left].
  apply IH; [intros e He; apply Hrows; by right|]. apply section_row_ok; [|done]. apply (Hrows (row, line)). by left.
Qed.

(** The section is there, or it is made, or there is nothing to do. *)
Lemma reconcile_day_cases note note_path day today reminders config edits frozen :
  reconcile_day note note_path day today reminders config = Day_Edits edits frozen →
  let lines := str_lines note in
  let known := dedup_reminders reminders in
  let wanted := wanted_mirrors lines note_path day today known in
  edits = [] ∧ (date_ltb day today = false → wanted = []) ∨
  date_ltb day today = false ∧
    ((∃ planner_range level, edits = day_creation_edits lines planner_range level config wanted) ∨
     ∃ section, edits = (day_section_edits lines section known wanted day today).1).
Proof.
  unfold reconcile_day. destruct (date_ltb day today); [intros [= <- _]; by left|]. cbn zeta.
  set (wanted := wanted_mirrors _ _ _ _ _).
  destruct (planner_section _ _) as [[range level]|]; [|destruct wanted; [intros [= <- _]; by left|done]].
  destruct (find_day_section _ _ _ _) as [section|].
  - destruct (day_section_edits _ _ _ _ _ _) as [e f] eqn:E. intros [= <- _]. right. split; [done|]. right. exists section. by rewrite E.
  - destruct wanted; [intros [= <- _]; by left|]. destruct (6 <=? level)%nat; [done|]. intros [= <- _].
    right. split; [done|]. left. by exists range, level.
Qed.

Lemma reconcile_day_ok note note_path day today reminders config edits frozen :
  reconcile_day note note_path day today reminders config = Day_Edits edits frozen →
  Forall (day_edit_ok (str_lines note) (dedup_reminders reminders) day today) edits.
Proof.
  intros [[-> _]|[_ [(range & level & ->)|(section & ->)]]]%reconcile_day_cases.
  - constructor.
  - apply Forall_forall. intros e (text & -> & _)%list_elem_of_fmap. done.
  - unfold day_section_edits. cbn [fst]. rewrite sort_by_Permutation. apply Forall_app. split; [by apply section_fold_ok; constructor|].
    apply Forall_forall. intros e (mirror & -> & _)%list_elem_of_fmap. done.
Qed.

(** C15: the day's section is Thock's, the note is the person's. Whatever the note and the reminders, every line that is
    no mirror line is in the new note, unchanged and in its order; a line that is rewritten is the mirror of a
    reminder, brought in step with it; and a past day's note is left as it was. *)
Theorem day_keeps_the_note note note_path day today reminders config edits frozen :
  reconcile_day note note_path day today reminders config = Day_Edits edits frozen →
  sublist (filter (λ line, is_none (MirrorLine_parse line) = true) (str_lines note)) (edited_lines (str_lines note) edits) ∧
  (∀ row text, replacement_at edits row = Some text →
    day_rewrites (str_lines note) (dedup_reminders reminders) day today row text) ∧
  (date_ltb day today = true → edits = []).
Proof.
  intros Hr. pose proof (reconcile_day_ok _ _ _ _ _ _ _ _ Hr) as Hok. rewrite Forall_forall in Hok.
  assert (∀ row text, replacement_at edits row = Some text →
    day_rewrites (str_lines note) (dedup_reminders reminders) day today row text) as Hrew.
  { intros row text He%replacement_edit. exact (Hok _ He). }
  split_and!; [|done|].
  - unfold edited_lines. apply sublist_inserts_r. apply (kept_lines (λ line, is_none (MirrorLine_parse line)) edits _ 0).
    intros i line text Hi He. destruct (Hrew _ _ He) as (line' & mirror & _ & _ & Hl & Hm & _). cbn [Nat.add] in Hl. rewrite Hi in Hl.
    injection Hl as <-. by rewrite Hm.
  - intros Hpast. apply reconcile_day_cases in Hr as [[-> _]|[Hd _]]; [done|]. by rewrite Hpast in Hd.
Qed.

(** ** Every reminder of the day is listed *)

Lemma dedup_spec_day reminders :
  NoDup (map dr_id (dedup_reminders reminders)) ∧ ∀ r, r ∈ dedup_reminders reminders → r ∈ reminders.
Proof.
  unfold dedup_reminders. assert (∀ todo acc, NoDup (map dr_id acc) → let l := fold_left dedup_reminder todo acc in
    NoDup (map dr_id l) ∧ ∀ r, r ∈ l → r ∈ acc ∨ r ∈ todo) as Hall.
  { induction todo as [|r todo IH]; intros acc Hnd; [split; [done|by left]|]. cbn [fold_left].
    destruct (IH (dedup_reminder acc r)) as [Hn Hin].
    { unfold dedup_reminder. case_bool_decide as Hd; [done|]. rewrite map_app. apply NoDup_app. split_and!; [done| |apply NoDup_singleton].
      intros id Hid ->%list_elem_of_singleton. done. }
    split; [done|]. intros r' [Hr'|Hr']%Hin; [|right; by right]. unfold dedup_reminder in Hr'. case_bool_decide; [by left|].
    apply elem_of_app in Hr' as [?| ->%list_elem_of_singleton]; [by left|right; by left]. }
  destruct (Hall reminders []) as [Hn Hin]; [constructor|]. split; [done|]. intros r [Hr|Hr]%Hin; [by apply not_elem_of_nil in Hr|done].
Qed.

Lemma wanted_mirror_spec note_path ids day today reminder mirror :
  wanted_mirror note_path ids day today reminder = Some mirror →
  ml_id mirror = dr_id reminder ∧ ml_text mirror = mirror_text (dr_text reminder) ∧ ml_note mirror = note_link (dr_home reminder) ∧
  dr_id reminder ∉ ids.
Proof.
  unfold wanted_mirror. destruct (_ && _) eqn:Ec; [|done]. apply andb_true_iff in Ec as [_ Ec]. apply negb_true_iff, bool_decide_eq_false in Ec.
  destruct (dr_due reminder) as [due|]; [|done]. cbn [mbind option_bind]. destruct (placement due day today); by intros [= <-].
Qed.

Lemma wanted_NoDup note_path ids day today reminders :
  NoDup (map dr_id reminders) → NoDup (map ml_id (omap (wanted_mirror note_path ids day today) reminders)).
Proof.
  induction reminders as [|r reminders IH]; intros Hnd; [constructor|]. cbn [map] in Hnd. apply NoDup_cons in Hnd as [Hr Hnd]. cbn.
  destruct (wanted_mirror note_path ids day today r) as [m|] eqn:E; [|by apply IH]. cbn. constructor; [|by apply IH].
  intros (m' & Hid & (r' & Hin & Hm')%list_elem_of_omap)%list_elem_of_fmap. apply Hr. apply list_elem_of_fmap. exists r'. split; [|done].
  apply wanted_mirror_spec in E as (E & _). apply wanted_mirror_spec in Hm' as (E' & _). congruence.
Qed.

(** What is inserted is in the new note. *)
Lemma inserted_line lines edits row text : mkEdit row (Insert text) ∈ edits → text ∈ edited_lines lines edits.
Proof.
  intros Hin. assert (text ∈ inserts_at edits row) as Hat.
  { apply list_elem_of_omap. exists (mkEdit row (Insert text)). split; [done|]. cbn. by rewrite Nat.eqb_refl. }
  unfold edited_lines. apply elem_of_app.
  destruct (decide (row < length lines)) as [Hlt|Hge].
  - left. destruct (lookup_lt_is_Some_2 lines row Hlt) as [line Hl].
    apply list_elem_of_In, in_concat. exists (edited_row edits row line). split; apply list_elem_of_In.
    + apply elem_of_lookup_imap. by exists row, line.
    + apply elem_of_app. by left.
  - right. apply list_elem_of_In, in_flat_map. exists row. split; apply list_elem_of_In; [|done].
    unfold trailing_rows. rewrite sort_by_Permutation. apply elem_of_remove_dups. apply list_elem_of_omap.
    exists (mkEdit row (Insert text)). split; [done|]. cbn. by rewrite (proj2 (Nat.leb_le _ _)) by lia.
Qed.

(** The rows of the section are replaced, never inserted at. *)
Lemma section_only_replaces lines r reminders day today pass :
  Forall (λ e, match edit_kind e with Insert _ => False | Replace _ => True end) (sp_edits pass) →
  Forall (λ e, match edit_kind e with Insert _ => False | Replace _ => True end)
    (sp_edits (fold_left (section_row reminders day today) (rows_of lines r) pass)).
Proof.
  revert pass. induction (rows_of lines r) as [|[row line] rest IH]; intros pass Hp; [done|]. cbn [fold_left]. apply IH.
  unfold section_row. repeat (case_match; try done). cbn [sp_edits]. case_bool_decide; [done|]. by apply Forall_app; split; [|apply Forall_singleton].
Qed.

(** A reminder the note of [day] lists: open, of another note, due that day or, in today's note, before it. *)
Definition due_here (note_path : str) (day today : NaiveDate) (reminder : DayReminder) : Prop :=
  dr_status reminder = Day_Open ∧ dr_home reminder ≠ note_path ∧
  ∃ due, dr_due reminder = Some due ∧
    (due_date due = day ∨ day = today ∧ date_ltb (due_date due) today = true).

(** What the edits put between the lines. *)
Definition inserted_texts (edits : list LineEdit) : list str :=
  omap (λ e, match edit_kind e with Insert text => Some text | Replace _ => None end) edits.

Lemma inserted_texts_app a b : inserted_texts (a ++ b) = inserted_texts a ++ inserted_texts b.
Proof. apply omap_app. Qed.

Lemma inserted_texts_map {A} (f : A → LineEdit) (g : A → str) (l : list A) :
  (∀ x, edit_kind (f x) = Insert (g x)) → inserted_texts (map f l) = map g l.
Proof. intros Hf. induction l as [|x l IH]; [done|]. cbn. rewrite Hf. cbn. by f_equal. Qed.

Lemma replaces_insert_nothing edits :
  Forall (λ e, match edit_kind e with Insert _ => False | Replace _ => True end) edits → inserted_texts edits = [].
Proof. induction 1 as [|e edits He _ IH]; [done|]. cbn. by destruct (edit_kind e). Qed.

(** Besides the mirrors: nothing, or the section's heading with blank lines around it. *)
Definition section_made (config : DayConfig) (extra : list str) : Prop :=
  extra = [] ∨ ∃ above level below,
    extra = above ++ [replicate level HASH ++ u " " ++ default DEFAULT_DAY_HEADING (head (dc_day_headings config))] ++ below ∧
    Forall (λ t, t = []) (above ++ below).

Lemma creation_inserts lines range level config wanted :
  ∃ extra, section_made config extra ∧
    inserted_texts (day_creation_edits lines range level config wanted) ≡ₚ extra ++ map show_mirror wanted.
Proof.
  unfold day_creation_edits. set (above := if _ && _ then _ else _). set (below := if is_some_and _ (lines !! r_end range) then _ else _).
  set (heading := replicate _ _ ++ _). exists (above ++ [heading] ++ below). split.
  - right. exists above, (level + 1), below. split; [done|]. apply Forall_app. subst above below.
    split; [destruct (_ && _)|destruct (is_some_and _ _)]; by repeat constructor.
  - rewrite (inserted_texts_map _ (λ t, t)), map_id by done. rewrite <- !app_assoc. apply Permutation_app_head.
    rewrite (Permutation_app_comm _ below). done.
Qed.

Lemma section_inserts lines section reminders wanted day today :
  inserted_texts (day_section_edits lines section reminders wanted day today).1 ≡ₚ map show_mirror wanted.
Proof.
  unfold day_section_edits. cbn [fst].
  set (pass := fold_left _ _ _). set (inserts := map _ wanted).
  assert (inserted_texts (sort_by row_cmp (sp_edits pass ++ inserts)) ≡ₚ inserted_texts (sp_edits pass ++ inserts)) as ->.
  { unfold inserted_texts. by rewrite sort_by_Permutation. }
  rewrite inserted_texts_app, replaces_insert_nothing by (apply section_only_replaces; constructor).
  unfold inserts. by rewrite (inserted_texts_map _ show_mirror).
Qed.

Lemma wanted_mirror_due note_path ids day today r m :
  wanted_mirror note_path ids day today r = Some m → due_here note_path day today r.
Proof.
  unfold wanted_mirror, due_here. destruct (_ && _) eqn:Ec; [|done].
  apply andb_true_iff in Ec as [[Ho%bool_decide_eq_true Hh%negb_true_iff%bool_decide_eq_false]%andb_true_iff _].
  destruct (dr_due r) as [due|]; [|done]. cbn [mbind option_bind]. intros Hp. split_and!; [done|done|]. exists due. split; [done|].
  unfold placement in Hp. destruct (bool_decide_reflect (due_date due = day)) as [|Hne]; [by left|right].
  destruct (_ && _) eqn:E in Hp; [|done]. apply andb_true_iff in E as [E%bool_decide_eq_true ?]. done.
Qed.

End notes.

(** ** Between two runs *)

Section memory.
Context `{Clock} `{!UnicodeTables}.

Definition note_of (service : ServiceState) (path : str) (day : NaiveDate) : Prop :=
  day_of (config_daily (sv_config service)) path = Some day ∧ date_ltb day (sv_today service) = false.

(** A note a run has to look at is one of its job. *)
Lemma job_has_note service s path day :
  is_loaded service = true → note_of service path day →
  path ∈ (pending s).*1 ∨ path ∈ (retry_notes s).*1 ∧ (pending s ≠ [] ∨ index_dirty s = true) →
  ∃ s' job, take_job service s = (s', Some job) ∧ (path, day) ∈ job_notes job.
Proof.
  intros Hloaded [Hday Hfut] Hin. unfold take_job.
  assert ((match pending s with [] => negb (index_dirty s) | _ => false end || negb (is_loaded service)) = false) as ->.
  { rewrite Hloaded, orb_false_r. destruct (pending s) eqn:E; [|done]. destruct Hin as [Hin|[_ [?|Hd]]]; [by apply not_elem_of_nil in Hin|done|by rewrite Hd]. }
  destruct (if index_dirty s then remember_all _ _ _ else _) as [[entries reopened] changed].
  set (visited := if index_dirty s then fold_left _ _ _ else pending s).
  assert (path ∈ (path_append visited (retry_notes s)).*1) as Hp.
  { apply path_in_append. destruct Hin as [Hin|[Hin _]]; [left|by right]. unfold visited. destruct (index_dirty s); [|done].
    apply path_in_fold. by left. }
  set (notes := omap _ _). assert ((path, day) ∈ notes) as Hn.
  { apply list_elem_of_fmap in Hp as ([p []] & Heq & Hp). cbn in Heq. subst p. apply list_elem_of_omap. exists (path, tt).
    split; [done|]. cbn [fst]. rewrite Hday. cbn [mbind option_bind]. by rewrite Hfut. }
  destruct notes as [|n notes']; [by apply not_elem_of_nil in Hn|]. eexists _, _. split; [reflexivity|done].
Qed.

Lemma finish_note_retry job acc o path :
  path ∈ (retry_notes (finish_note job acc o).1).*1 ↔
    path ∈ (match no_error o with Some _ => path_insert (no_path o) (retry_notes acc.1)
            | None => path_remove (no_path o) (retry_notes acc.1) end).*1.
Proof. unfold finish_note. destruct acc as [s log]. by destruct (match no_reconciled o with Some _ => _ | None => _ end). Qed.

Lemma finish_notes_keep job outcomes acc path :
  path ∈ (retry_notes acc.1).*1 → path ∉ map no_path outcomes → path ∈ (retry_notes (fold_left (finish_note job) outcomes acc).1).*1.
Proof.
  revert acc. induction outcomes as [|o outcomes IH]; intros acc Hin Hni; [done|]. cbn [map] in Hni. apply not_elem_of_cons in Hni as [Hne Hni].
  cbn [fold_left]. apply IH; [|done]. apply finish_note_retry. destruct (no_error o); [apply path_in_insert; by right|by apply path_in_remove].
Qed.

Lemma finish_notes_failed job outcomes acc o :
  NoDup (map no_path outcomes) → o ∈ outcomes → no_error o ≠ None →
  no_path o ∈ (retry_notes (fold_left (finish_note job) outcomes acc).1).*1.
Proof.
  intros Hnd Hin Herr. revert acc. induction outcomes as [|o' outcomes IH]; intros acc; [by apply not_elem_of_nil in Hin|].
  cbn [map] in Hnd. apply NoDup_cons in Hnd as [Hni Hnd]. cbn [fold_left]. apply elem_of_cons in Hin as [<-|Hin]; [|by apply IH].
  apply finish_notes_keep; [|done]. apply finish_note_retry. destruct (no_error o); [|done]. apply path_in_insert. by left.
Qed.

Lemma finish_notes_failure job outcomes acc o :
  o ∈ outcomes ∧ no_error o ≠ None ∨ failure acc.1 ≠ None → failure (fold_left (finish_note job) outcomes acc).1 ≠ None.
Proof.
  revert acc. induction outcomes as [|o' outcomes IH]; intros acc Ho; cbn [fold_left]; [by destruct Ho as [[?%not_elem_of_nil _]|?]|].
  assert (failure (finish_note job acc o').1 = match no_error o' with Some error => Some error | None => failure acc.1 end) as Hf.
  { unfold finish_note. destruct acc as [s log]. by destruct (match no_reconciled o' with Some _ => _ | None => _ end). }
  apply IH. rewrite Hf. destruct Ho as [[[->|Hin]%elem_of_cons Herr]|Hs]; [right; by destruct (no_error o')|by left|right; by destruct (no_error o')].
Qed.

Lemma schedule_pending s : pending (schedule s).1 = pending s.
Proof. unfold schedule. destruct (_ || _); [done|]. destruct (pending s) eqn:E; [by destruct (index_dirty s)|done]. Qed.

(** A day section that could not be written is written again. A note of today or later whose write failed is one
    of the next run's, whatever came in between, when the person asks to retry or anything else starts a run. *)
Theorem failed_note_is_retried service job outcomes o s day :
  NoDup (map no_path outcomes) → o ∈ outcomes → no_error o ≠ None →
  is_loaded service = true → note_of service (no_path o) day →
  let s1 := (finish_job job outcomes s).1.1 in
  failure s1 ≠ None ∧
  (∃ s2 job', take_job service (retry s1).1 = (s2, Some job') ∧ (no_path o, day) ∈ job_notes job') ∧
  (pending s1 ≠ [] ∨ index_dirty s1 = true →
    ∃ s2 job', take_job service s1 = (s2, Some job') ∧ (no_path o, day) ∈ job_notes job').
Proof.
  intros Hnd Hin Herr Hloaded Hnote s1.
  assert (no_path o ∈ (retry_notes s1).*1) as Hretry.
  { unfold s1, finish_job. pose proof (finish_notes_failed job outcomes (s, []) o Hnd Hin Herr) as Hf.
    by destruct (fold_left (finish_note job) outcomes (s, [])) as [s' log]. }
  split_and!.
  - unfold s1, finish_job in *. pose proof (finish_notes_failure job outcomes (s, []) o (or_introl (conj Hin Herr))) as Hfail.
    destruct (fold_left (finish_note job) outcomes (s, [])) as [s' log]. cbn [fst retry_notes failure] in *.
    destruct (retry_notes s'); [by apply not_elem_of_nil in Hretry|done].
  - apply job_has_note; [done|done|]. left. unfold retry. rewrite schedule_pending. cbn [pending]. apply path_in_append. by right.
  - intros Hsome. apply job_has_note; [done|done|]. by right.
Qed.

(** ** Days to visit *)

Lemma date_insert_keeps d d' l : d ∈ l → d ∈ date_insert d' l.
Proof.
  induction l as [|x l IH]; [by intros ?%not_elem_of_nil|]. cbn [date_insert]. intros Hd.
  destruct (date_cmp d' x); [done|by right|]. apply elem_of_cons in Hd as [->|Hd]; [by left|right; by apply IH].
Qed.

Lemma date_insert_in `{!ChronoOrd} d l : d ∈ date_insert d l.
Proof.
  induction l as [|x l IH]; cbn [date_insert]; [by left|]. destruct (date_cmp d x) eqn:E; [apply date_cmp_Eq in E as ->; by left|by left|by right].
Qed.

Lemma days_to_visit_keeps days d l : d ∈ l → d ∈ fold_left (λ days day, date_insert day days) days l.
Proof. revert l. induction days as [|x days IH]; intros l Hd; [done|]. cbn [fold_left]. by apply IH, date_insert_keeps. Qed.

Lemma days_to_visit_in `{!ChronoOrd} today entries day :
  day = today ∨ (∃ id entry, (id, entry) ∈ entries ∧ day ∈ rm_days entry) → day ∈ days_to_visit today entries.
Proof.
  unfold days_to_visit. intros [->|(id & entry & Hin & Hd)]; [apply days_to_visit_keeps; by left|].
  assert (day ∈ flat_map (λ e : str * Remembered, rm_days e.2) entries) as Hday.
  { apply list_elem_of_In, in_flat_map. exists (id, entry). split; by apply list_elem_of_In. }
  revert Hday. generalize [today]. induction (flat_map _ entries) as [|x days IH]; intros l; [by intros ?%not_elem_of_nil|].
  cbn [fold_left]. intros [->|Hd']%elem_of_cons; [|by apply IH]. apply days_to_visit_keeps, date_insert_in.
Qed.

Lemma remember_keeps_day today reminder entry day :
  day ∈ rm_days entry → date_ltb day today = false → day ∈ rm_days (remember today reminder entry).1.
Proof.
  intros Hd Hfut. unfold remember. cbn [fst rm_days].
  assert (day ∈ filter (λ day, date_ltb day today = false) (rm_days entry)) as Hf by (by apply list_elem_of_filter).
  destruct (ir_due reminder) as [due|]; [|done]. destruct (negb _); [by apply date_insert_keeps|done].
Qed.

Lemma remember_adds_day `{!ChronoOrd} today reminder entry due :
  ir_due reminder = Some due → date_ltb (due_date due) today = false → due_date due ∈ rm_days (remember today reminder entry).1.
Proof. intros Hd Hfut. unfold remember. cbn [fst rm_days]. rewrite Hd, Hfut. apply date_insert_in. Qed.

(** The memory of one reminder after the loop. *)
Definition remembers (entries : list (str * Remembered)) (id : str) (day : NaiveDate) : Prop :=
  ∃ entry, btree_get id entries = Some entry ∧ day ∈ rm_days entry.

Lemma remember_step_ok today acc reminder : btree_ok acc.1.1 → btree_ok (remember_step today acc reminder).1.1.
Proof.
  unfold remember_step. destruct acc as [[entries reopened] changed]. case_bool_decide; [done|].
  destruct (remember _ _ _) as [entry again]. cbn [fst]. apply btree_insert_ok.
Qed.

Lemma remember_step_keeps today acc reminder id day :
  btree_ok acc.1.1 → date_ltb day today = false → remembers acc.1.1 id day → remembers (remember_step today acc reminder).1.1 id day.
Proof.
  intros Hok Hfut (entry & Hget & Hday). unfold remember_step. destruct acc as [[entries reopened] changed]. cbn [fst] in *.
  case_bool_decide; [by exists entry|]. destruct (remember today reminder _) as [entry' again] eqn:Er. cbn [fst].
  unfold remembers. rewrite btree_get_map, btree_insert_map by auto using btree_insert_ok.
  destruct (decide (ir_id reminder = id)) as [<-|Hne].
  - rewrite lookup_insert_eq. exists entry'. split; [done|]. rewrite Hget in Er. cbn [default from_option] in Er. unfold Datatypes.id in Er.
    pose proof (remember_keeps_day today reminder entry day Hday Hfut) as Hk. by rewrite Er in Hk.
  - rewrite lookup_insert_ne by done. rewrite <- btree_get_map by done. by exists entry.
Qed.

Lemma remember_step_adds `{!ChronoOrd} today acc reminder due :
  btree_ok acc.1.1 → ir_state reminder ≠ Indexed_Missing → ir_due reminder = Some due → date_ltb (due_date due) today = false →
  remembers (remember_step today acc reminder).1.1 (ir_id reminder) (due_date due).
Proof.
  intros Hok Hst Hdue Hfut. unfold remember_step. destruct acc as [[entries reopened] changed]. cbn [fst] in *.
  rewrite bool_decide_eq_false_2 by done. destruct (remember today reminder _) as [entry' again] eqn:Er. cbn [fst].
  exists entry'. rewrite btree_get_map, btree_insert_map, lookup_insert_eq by auto using btree_insert_ok. split; [done|].
  pose proof (remember_adds_day today reminder (default Remembered_default (btree_get (ir_id reminder) entries)) due Hdue Hfut) as Hk.
  by rewrite Er in Hk.
Qed.

Lemma remember_fold_keeps today indexed acc id day :
  btree_ok acc.1.1 → date_ltb day today = false → remembers acc.1.1 id day → remembers (fold_left (remember_step today) indexed acc).1.1 id day.
Proof.
  revert acc. induction indexed as [|r indexed IH]; intros acc Hok Hfut Hr; [done|]. cbn [fold_left].
  apply IH; [by apply remember_step_ok|done|by apply remember_step_keeps].
Qed.

Lemma remember_fold_adds `{!ChronoOrd} today indexed acc r due :
  btree_ok acc.1.1 → r ∈ indexed → ir_state r ≠ Indexed_Missing → ir_due r = Some due → date_ltb (due_date due) today = false →
  remembers (fold_left (remember_step today) indexed acc).1.1 (ir_id r) (due_date due).
Proof.
  revert acc. induction indexed as [|r' indexed IH]; intros acc Hok Hin Hst Hdue Hfut; [by apply not_elem_of_nil in Hin|]. cbn [fold_left].
  apply elem_of_cons in Hin as [<-|Hin]; [|by apply IH; [apply remember_step_ok|..]].
  apply remember_fold_keeps; [by apply remember_step_ok|done|by apply remember_step_adds].
Qed.

Lemma kept_entries_ok (P : str * Remembered → Prop) `{!∀ e, Decision (P e)} (entries : list (str * Remembered)) :
  btree_ok entries → btree_ok (filter P entries).
Proof. intros Hok. eapply StronglySorted_sublist; [|exact Hok]. apply (fmap_sublist fst), sublist_filter. Qed.

Lemma remembers_kept (entries : list (str * Remembered)) (ids : list str) id day :
  btree_ok entries → id ∈ ids → remembers entries id day → remembers (filter (λ e, e.1 ∈ ids) entries) id day.
Proof.
  intros Hok Hid (entry & Hget & Hday). exists entry. split; [|done]. rewrite btree_get_map in Hget |- * by (done || by apply kept_entries_ok).
  apply elem_of_btree in Hget; [|done]. apply elem_of_btree; [by apply kept_entries_ok|]. by apply list_elem_of_filter.
Qed.

(** No day a reminder was due is forgotten. When the index changed, the run looks at today's note, at the notes of
    the days the reminders are due, and at those of the days, from today on, they were due before and were moved away
    from, so that their mirrors there are brought in step. *)
Theorem every_day_is_visited `{!ChronoOrd} service s day :
  index_dirty s = true → is_loaded service = true → btree_ok (mem_reminders (memory s)) → note_of service (daily_path service day) day →
  day = sv_today service ∨
  (∃ r due, r ∈ indexed service ∧ ir_state r ≠ Indexed_Missing ∧ ir_due r = Some due ∧ due_date due = day) ∨
  (∃ id, id ∈ map ir_id (indexed service) ∧ remembers (mem_reminders (memory s)) id day) →
  ∃ s' job, take_job service s = (s', Some job) ∧ (daily_path service day, day) ∈ job_notes job.
Proof.
  intros Hdirty Hloaded Hok [Hday Hfut] Hwhy. unfold take_job. rewrite Hdirty, Hloaded. cbn [negb].
  replace (match pending s with [] => false | _ => false end || false) with false by (by destruct (pending s)).
  unfold remember_all. set (kept := filter _ (mem_reminders (memory s))). assert (btree_ok kept) as Hkept by (by apply kept_entries_ok).
  set (start := (kept, [], _)). pose proof (eq_refl : start.1.1 = kept) as Hstart. clearbody start.
  destruct (fold_left (remember_step (sv_today service)) (indexed service) start) as [[entries reopened] changed] eqn:Ef.
  assert (day ∈ days_to_visit (sv_today service) entries) as Hvisit.
  { apply days_to_visit_in. destruct Hwhy as [?|[(r & due & Hin & Hst & Hdue & <-)|(id & Hid & Hrem)]]; [by left|right..].
    - pose proof (remember_fold_adds (sv_today service) (indexed service) start r due ltac:(by rewrite Hstart) Hin Hst Hdue Hfut) as (e & He & Hd).
      rewrite Ef in He. apply btree_get_elem in He. by exists (ir_id r), e.
    - pose proof (remember_fold_keeps (sv_today service) (indexed service) start id day ltac:(by rewrite Hstart) Hfut) as (e & He & Hd).
      { rewrite Hstart. by apply remembers_kept. }
      rewrite Ef in He. apply btree_get_elem in He. by exists id, e. }
  set (visited := fold_left _ _ (pending s)). set (notes := omap _ _).
  assert ((daily_path service day, day) ∈ notes) as Hn.
  { assert (daily_path service day ∈ (path_append visited (retry_notes s)).*1) as Hp.
    { apply path_in_append. left. unfold visited. apply path_in_fold. right. by apply list_elem_of_fmap_2. }
    apply list_elem_of_fmap in Hp as ([p []] & Heq & Hp). cbn in Heq. subst p. apply list_elem_of_omap. eexists (_, tt).
    split; [exact Hp|]. cbn [fst]. rewrite Hday. cbn [mbind option_bind]. by rewrite Hfut. }
  destruct notes as [|n notes']; [by apply not_elem_of_nil in Hn|]. eexists _, _. split; [reflexivity|done].
Qed.

(** ** Words that change *)

Lemma remember_step_other today acc reminder id :
  btree_ok acc.1.1 → ir_id reminder ≠ id → btree_get id (remember_step today acc reminder).1.1 = btree_get id acc.1.1.
Proof.
  intros Hok Hne. unfold remember_step. destruct acc as [[entries reopened] changed]. cbn [fst] in *. case_bool_decide; [done|].
  destruct (remember today reminder _) as [entry' again]. cbn [fst].
  rewrite !btree_get_map, btree_insert_map by auto using btree_insert_ok. by rewrite lookup_insert_ne.
Qed.

Lemma remember_fold_other today indexed acc id :
  btree_ok acc.1.1 → id ∉ map ir_id indexed → btree_get id (fold_left (remember_step today) indexed acc).1.1 = btree_get id acc.1.1.
Proof.
  revert acc. induction indexed as [|r indexed IH]; intros acc Hok Hni; [done|]. cbn [map] in Hni. apply not_elem_of_cons in Hni as [Hne Hni].
  cbn [fold_left]. rewrite IH; [|by apply remember_step_ok|done]. by apply remember_step_other.
Qed.

Lemma remember_fold_own today indexed acc r :
  btree_ok acc.1.1 → NoDup (map ir_id indexed) → r ∈ indexed → ir_state r ≠ Indexed_Missing →
  btree_get (ir_id r) (fold_left (remember_step today) indexed acc).1.1
  = Some (remember today r (default Remembered_default (btree_get (ir_id r) acc.1.1))).1.
Proof.
  revert acc. induction indexed as [|r' indexed IH]; intros acc Hok Hnd Hin Hst; [by apply not_elem_of_nil in Hin|].
  cbn [map] in Hnd. apply NoDup_cons in Hnd as [Hni Hnd]. cbn [fold_left]. apply elem_of_cons in Hin as [<-|Hin].
  - rewrite remember_fold_other; [|by apply remember_step_ok|done]. unfold remember_step. destruct acc as [[entries reopened] changed].
    rewrite bool_decide_eq_false_2 by done. cbn [fst] in *. destruct (remember today r _) as [entry' again]. cbn [fst].
    by rewrite btree_get_map, btree_insert_map, lookup_insert_eq by auto using btree_insert_ok.
  - rewrite IH; [|by apply remember_step_ok|done..]. f_equal. f_equal. rewrite remember_step_other; [done|done|].
    intros E. apply Hni. rewrite E. by apply list_elem_of_fmap_2.
Qed.

(** A home line's new words reach its mirrors, also when it was edited while Thock was closed. The memory has the
    words the line had; the next run over the index hands on the new words and those before them, and a mirror that
    still shows the old ones, whatever the person wrote after them, gets the new ones with what follows. *)
Theorem edit_carries_mirrors service s s' job r text entry mirror trailing day :
  index_dirty s = true → btree_ok (mem_reminders (memory s)) → NoDup (map ir_id (indexed service)) →
  take_job service s = (s', Some job) →
  r ∈ indexed service → ir_state r ≠ Indexed_Missing → ir_text r = Some text → text ≠ [] →
  btree_get (ir_id r) (mem_reminders (memory s)) = Some entry → rm_text entry ≠ [] → rm_text entry ≠ text →
  ml_text mirror = mirror_text (rm_text entry) ++ trailing →
  is_empty trailing || is_some_and is_whitespace (head trailing) = true →
  words_trailing (ml_text mirror) (mirror_text text) = None →
  ∃ reminder next, reminder ∈ job_reminders job ∧ dr_id reminder = ir_id r ∧ dr_text reminder = text ∧
    updated_mirror mirror reminder day (sv_today service) = Some next ∧
    (ir_state r = Indexed_Open ∨ ir_state r = Indexed_Closed → ir_due r ≠ None → ml_text next = mirror_text text ++ trailing).
Proof.
  intros Hdirty Hok Hnd Hjob Hin Hst Htext Hne Hget Hold Hnew Hml Htrail Hwords. unfold take_job in Hjob. rewrite Hdirty in Hjob.
  destruct (_ || _) in Hjob; [done|]. unfold remember_all in Hjob. set (kept := filter _ _) in Hjob. assert (btree_ok kept) as Hkept by (by apply kept_entries_ok).
  set (start := (kept, [], _)) in Hjob. pose proof (eq_refl : start.1.1 = kept) as Hstart. clearbody start.
  pose proof (remember_fold_own (sv_today service) (indexed service) start r ltac:(by rewrite Hstart) Hnd Hin Hst) as Hown.
  destruct (fold_left (remember_step (sv_today service)) (indexed service) start) as [[entries reopened] changed].
  assert (btree_get (ir_id r) kept = Some entry) as Hkget.
  { rewrite btree_get_map in Hget |- * by done. apply elem_of_btree in Hget; [|done]. apply elem_of_btree; [done|]. apply list_elem_of_filter.
    split; [|done]. cbn [fst]. by apply (list_elem_of_fmap_2 ir_id). }
  rewrite Hstart, Hkget in Hown. cbn [fst default from_option] in Hown. unfold Datatypes.id in Hown.
  set (notes := omap _ _) in Hjob.
  assert (∃ saves, job = mkDayJob notes (sv_today service) (daily_path service (sv_today service))
    (omap (day_reminder entries reopened) (indexed service)) (trim (sv_planner service)) saves) as [saves ->].
  { destruct notes; [destruct changed; [|done]|]; injection Hjob as _ <-; by eexists. }
  destruct (day_status (ir_state r)) as [status|] eqn:Es; [|by destruct (ir_state r)].
  set (reminder := mkDayReminder (ir_id r) (ir_home r) text (ir_due r) status (Some (rm_text entry)) (bool_decide (ir_id r ∈ reopened))).
  assert (day_reminder entries reopened r = Some reminder) as Hrem.
  { unfold day_reminder. rewrite Es, Htext, Hown. cbn [mbind option_bind default from_option]. unfold reminder. do 2 f_equal.
    unfold remember. cbn [fst rm_previous]. rewrite Htext. cbn [default from_option]. unfold Datatypes.id.
    rewrite bool_decide_eq_false_2 by done. destruct text; [done|]. by destruct (rm_text entry). }
  assert (followed_text (ml_text mirror) reminder = Some (mirror_text text ++ trailing)) as Hf.
  { unfold followed_text. cbn [dr_text previous_text reminder]. assert (is_empty text = false) as -> by (by destruct text).
    rewrite Hwords. cbn [mbind option_bind]. rewrite Hml, words_trailing_app by done. reflexivity. }
  unfold updated_mirror. cbn [job_reminders].
  eexists reminder, _. split_and!; [apply list_elem_of_omap; by exists r|done|done|rewrite Hf; reflexivity|].
  intros Hstate Hdue. cbn [dr_status dr_due reminder]. destruct (ir_due r) as [due|]; [|done].
  destruct Hstate as [E|E]; rewrite E in Es; injection Es as <-; by destruct (placement due day (sv_today service)).
Qed.

(** ** The life of the entity *)

Lemma remember_all_ok today indexed entries : btree_ok entries → btree_ok (remember_all today indexed entries).1.1.
Proof.
  intros Hok. unfold remember_all. set (start := (_, [], _)).
  assert (btree_ok start.1.1) as Hs by (by apply kept_entries_ok). revert Hs. generalize start.
  induction indexed as [|r indexed IH]; intros acc Hs; [done|]. by apply IH, remember_step_ok.
Qed.

(** What a job's taking leaves. *)
Lemma take_job_state service s s' job :
  take_job service s = (s', job) →
  memory_loaded s' = memory_loaded s ∧ running s' = running s ∧ failure s' = failure s ∧
  (is_loaded service = true → pending s' = [] ∧ index_dirty s' = false) ∧
  (retry_notes s' = [] ∨ retry_notes s' = retry_notes s) ∧
  (btree_ok (mem_reminders (memory s)) → btree_ok (mem_reminders (memory s'))) ∧
  (btree_ok (pending s) → btree_ok (pending s')).
Proof.
  unfold take_job. destruct (_ || _) eqn:Eidle.
  { intros [= <- <-]. split_and!; [done..| |by right|done|done]. intros Hl. rewrite Hl, orb_false_r in Eidle.
    destruct (pending s); [|done]. by apply negb_true_iff in Eidle. }
  destruct (if index_dirty s then remember_all _ _ _ else _) as [[entries reopened] changed] eqn:E.
  assert (btree_ok (mem_reminders (memory s)) → btree_ok entries) as Hent.
  { intros Hok. destruct (index_dirty s); [|by injection E as <- _ _]. apply (remember_all_ok (sv_today service) (indexed service)) in Hok. by rewrite E in Hok. }
  set (notes := omap _ _). destruct notes; [destruct changed|]; intros [= <- _]; split_and!; by auto; by repeat constructor.
Qed.

Lemma finish_fold_state job outcomes acc :
  let s' := (fold_left (finish_note job) outcomes acc).1 in
  memory_loaded s' = memory_loaded acc.1 ∧ running s' = running acc.1 ∧ pending s' = pending acc.1 ∧
  index_dirty s' = index_dirty acc.1 ∧ mem_reminders (memory s') = mem_reminders (memory acc.1) ∧
  ((retry_notes acc.1 ≠ [] → failure acc.1 ≠ None) → retry_notes s' ≠ [] → failure s' ≠ None) ∧
  (btree_ok (retry_notes acc.1) → btree_ok (retry_notes s')).
Proof.
  revert acc. induction outcomes as [|o outcomes IH]; intros acc; [done|]. cbn [fold_left]. cbn zeta in *.
  destruct (IH (finish_note job acc o)) as (-> & -> & -> & -> & -> & Hf & Hr). unfold finish_note in *. destruct acc as [s log].
  destruct (match no_reconciled o with Some _ => _ | None => _ end) as [logged log']. cbn [fst] in *. split_and!; [done..| |].
  - intros Hs. apply Hf. destruct (no_error o); [done|]. cbn. intros Hne. apply Hs. intros E. by rewrite E in Hne.
  - intros Hs. apply Hr. destruct (no_error o); [by apply path_insert_ok|by apply btree_remove_ok].
Qed.

Lemma finish_job_state job outcomes s :
  let s' := (finish_job job outcomes s).1.1 in
  memory_loaded s' = memory_loaded s ∧ running s' = running s ∧ pending s' = pending s ∧ index_dirty s' = index_dirty s ∧
  mem_reminders (memory s') = mem_reminders (memory s) ∧
  ((retry_notes s ≠ [] → failure s ≠ None) → retry_notes s' ≠ [] → failure s' ≠ None) ∧
  (btree_ok (retry_notes s) → btree_ok (retry_notes s')).
Proof.
  cbn zeta. unfold finish_job. destruct (finish_fold_state job outcomes (s, [])) as (? & ? & ? & ? & ? & Hfail & ?).
  destruct (fold_left (finish_note job) outcomes (s, [])) as [s' log]. cbn [fst] in *. split_and!; [done..| |done].
  cbn. intros Hs. by destruct (retry_notes s'); [|apply Hfail].
Qed.

(** What holds between any two steps. *)
Record day_state_ok (st : DayState) : Prop := {
  so_running : st.1.2 ≠ None → running st.1.1 = true;
  so_loaded : running st.1.1 = true → memory_loaded st.1.1 = true;
  so_rest : memory_loaded st.1.1 = true → running st.1.1 = false → st.2 = false → pending st.1.1 = [] ∧ index_dirty st.1.1 = false;
  so_failure : retry_notes st.1.1 ≠ [] → failure st.1.1 ≠ None;
  so_memory : btree_ok (mem_reminders (memory st.1.1));
  so_pending : btree_ok (pending st.1.1);
  so_retry : btree_ok (retry_notes st.1.1)
}.

(** A schedule changes nothing but whether a run goes on, and starts one when there is work. *)
Lemma schedule_spec s :
  (∃ r, (schedule s).1 = mkDaySync (memory s) (memory_loaded s) (pending s) (index_dirty s) r (hold s) (failure s) (retry_notes s)
     ∧ (r = running s ∨ memory_loaded s = true ∧ r = true)
     ∧ ((schedule s).2 = false → r = running s)
     ∧ (memory_loaded s = true → r = false → pending s = [] ∧ index_dirty s = false)).
Proof.
  unfold schedule. destruct s as [m [] p d [] h f r]; cbn; [exists true| |exists true|exists false]; try (split_and!; by auto).
  destruct p as [|x p]; [destruct d|]; cbn; [exists true|exists false|exists true]; split_and!; by auto.
Qed.

Lemma schedule_ok s (job : option DayJob) (held : bool) :
  (job ≠ None → running s = true) → (running s = true → memory_loaded s = true) →
  (retry_notes s ≠ [] → failure s ≠ None) →
  btree_ok (mem_reminders (memory s)) → btree_ok (pending s) → btree_ok (retry_notes s) →
  day_state_ok ((schedule s).1, job, held).
Proof.
  intros. destruct (schedule_spec s) as (r & -> & Hr & _ & Hrest). split; cbn; try done.
  - intros Hj. destruct Hr as [->|[_ ->]]; [by auto|done].
  - intros ->. destruct Hr as [Hr|[? _]]; [by auto|done].
  - intros Hl -> _. by apply Hrest.
Qed.

Lemma day_step_ok st st' : day_step st st' → day_state_ok st → day_state_ok st'.
Proof.
  intros Hstep. destruct Hstep as [event s job held|s job held|loaded s job held Hun Hloaded|service s s' job held Hrun Ht|service s s' held Hrun Ht
    |job outcomes s held]; intros [Kjob Kload Krest Kfail Kmem Kpend Kretry]; cbn [fst snd] in *.
  - destruct event; cbn [on_event fst]; try (apply schedule_ok; cbn; by auto using path_insert_ok).
    split; cbn; try done. by rewrite andb_true_r.
  - apply schedule_ok; cbn; try done; [by apply path_append_ok|constructor].
  - unfold load_memory. apply schedule_ok; cbn; try done. destruct loaded as [m|]; [by apply Hloaded|done].
  - apply take_job_state in Ht as (Hl & Hr & Hf & _ & Hre & Hm & Hp). split; cbn; rewrite ?Hl, ?Hr, ?Hf; auto; try congruence.
    + destruct Hre as [-> | ->]; [done|by auto].
    + destruct Hre as [-> | ->]; [constructor|done].
  - apply take_job_state in Ht as (Hl & Hr & Hf & Hdone & Hre & Hm & Hp). split; cbn; rewrite ?Hl, ?Hf; auto; try congruence.
    + intros _ _ Hheld. apply Hdone. by destruct (is_loaded service).
    + destruct Hre as [-> | ->]; [done|by auto].
    + destruct Hre as [-> | ->]; [constructor|done].
  - destruct (finish_job_state job outcomes s) as (Hl & Hr & Hp & Hd & Hm & Hf & Hre). split; cbn; rewrite ?Hl, ?Hr, ?Hp, ?Hd, ?Hm; auto; congruence.
Qed.

(** C17: no note is left waiting. Whatever events come, whenever the memory is read, whatever the runs make of their
    notes: while no run goes on there is nothing to do, unless the last run found the service not loaded and nothing
    has happened since; a note whose write failed is shown as a failure until it is written; and the memory and the
    notes stay in the order of their maps. *)
Theorem no_note_is_left_waiting s job held :
  rtc day_step (DaySync_new, None, false) (s, job, held) →
  (memory_loaded s = true → running s = false → held = false → pending s = [] ∧ index_dirty s = false) ∧
  (retry_notes s ≠ [] → failure s ≠ None) ∧
  (job ≠ None → running s = true) ∧
  btree_ok (mem_reminders (memory s)) ∧ btree_ok (pending s) ∧ btree_ok (retry_notes s).
Proof.
  intros Hsteps. enough (day_state_ok (s, job, held)) as Hok by (by destruct Hok).
  assert (∀ st st', rtc day_step st st' → day_state_ok st → day_state_ok st') as Hinv by (induction 1; eauto using day_step_ok).
  apply (Hinv _ _ Hsteps). split; cbn; try done; constructor.
Qed.

(** A run comes to an end. Unless something happens meanwhile it takes one job, whatever it makes of its notes,
    and stops; with the service loaded nothing is left to do, and without it nothing has changed. *)
Theorem run_ends service work s fuel :
  2 ≤ fuel →
  ∃ s', day_run fuel service work s = Some s' ∧ running s' = false ∧
    (is_loaded service = true → pending s' = [] ∧ index_dirty s' = false) ∧
    (is_loaded service = false → s' = end_run s).
Proof.
  intros Hfuel. destruct fuel as [|[|fuel]]; [lia..|]. cbn [day_run]. destruct (take_job service s) as [s1 [job|]] eqn:Et; cycle 1.
  { exists (end_run s1). split_and!; [done..| |]; [by apply take_job_state in Et as (_ & _ & _ & ? & _)|].
    intros Hl. unfold take_job in Et. rewrite Hl, orb_true_r in Et. by injection Et as <-. }
  assert (is_loaded service = true) as Hl.
  { destruct (is_loaded service) eqn:El; [done|]. unfold take_job in Et. rewrite El, orb_true_r in Et. done. }
  apply take_job_state in Et as (_ & _ & _ & Hdone & _). destruct (Hdone Hl) as [Hp Hd].
  destruct (finish_job_state job (work job) s1) as (_ & _ & Hp' & Hd' & _). rewrite Hp in Hp'. rewrite Hd in Hd'.
  unfold take_job. rewrite Hp', Hd'. cbn [negb orb]. eexists. split_and!; [done..| |]; [done|by rewrite Hl].
Qed.
End memory.
