(* ===== verification/Backlog.v ===== *)
(** * The backlog ([thock/src/backlog.rs])

    [backlog.md] as three sections of tasks with their places in the text, and the
    edits of the panel: rename, append, move, complete. Positions count
    characters. *)

From S2P Require Import Prelude Strings External HeadingKey Reminder Ordering.
From S2P Require Import MarkdownSyntax DeskHeadings DayPlan.

(** ** Sections *)

Inductive SectionKind := Soon | Someday | Completed.

#[export] Instance SectionKind_eq_dec : EqDecision SectionKind.
Proof. solve_decision. Defined.

Definition ALL : list SectionKind := [Soon; Someday; Completed].

Record BacklogHeadings := mkHeadings { soon_heading : str; someday_heading : str; completed_heading : str }.

Definition section_id (k : SectionKind) : str :=
  match k with Soon => u "soon" | Someday => u "someday" | Completed => u "completed" end.

Definition default_heading (k : SectionKind) : str :=
  match k with Soon => u "Soon" | Someday => u "Someday" | Completed => u "Completed" end.

Definition BacklogHeadings_default : BacklogHeadings :=
  mkHeadings (default_heading Soon) (default_heading Someday) (default_heading Completed).

Definition section_heading (k : SectionKind) (h : BacklogHeadings) : str :=
  match k with Soon => soon_heading h | Someday => someday_heading h | Completed => completed_heading h end.

Definition from_id (id : str) : option SectionKind :=
  find (λ k, eq_ignore_ascii_case (section_id k) id) ALL.

Definition section_index (k : SectionKind) : nat :=
  match k with Soon => 0 | Someday => 1 | Completed => 2 end.

(** ** Tasks *)

Record BacklogTask := mkTask {
  task_line : N;
  task_span : range;
  task_text_span : range;
  task_text : str;
  task_checked : bool;
  task_category : option str
}.

Record Category := mkCategory { category_name : str; category_line : N }.

Record SectionTasks := mkSection { tasks : list BacklogTask; section_categories : list Category }.

(** The sections of a [Backlog], in the order of [ALL]. *)
Record Backlog := mkBacklog { soon : SectionTasks; someday : SectionTasks; completed : SectionTasks }.

Definition of_kind (b : Backlog) (k : SectionKind) : SectionTasks :=
  match k with Soon => soon b | Someday => someday b | Completed => completed b end.
Definition section (b : Backlog) (k : SectionKind) : list BacklogTask := tasks (of_kind b k).
Definition categories (b : Backlog) (k : SectionKind) : list Category := section_categories (of_kind b k).

Definition backlog_is_empty (b : Backlog) : bool :=
  forallb task_checked (section b Soon) && forallb task_checked (section b Someday).

Definition locate_task (b : Backlog) (k : SectionKind) (line : N) (text : str) : option BacklogTask :=
  match find (λ t, (task_line t =? line)%N && (task_text t == text)) (section b k) with
  | Some t => Some t
  | None =>
      match filter (λ t, task_text t = text) (section b k) with
      | [only] => Some only
      | _ => None
      end
  end.

(** ** Edits *)

Record Edit := mkBacklogEdit { edit_range : range; new_text : str }.

Definition replace_range (text : str) (r : range) (by_ : str) : str :=
  take (r_start r) text ++ by_ ++ drop (r_end r) text.

(** From the last start to the first; an edit out of the text is skipped. *)
Definition apply_edit (text : str) (result : str) (e : Edit) : str :=
  if is_some (get_range text (r_start (edit_range e)) (r_end (edit_range e)))
  then replace_range result (edit_range e) (new_text e) else result.

Definition edit_cmp (a b : Edit) : comparison := (r_start (edit_range b) ?= r_start (edit_range a)).

Definition apply_edits (text : str) (edits : list Edit) : str :=
  fold_left (apply_edit text) (sort_by edit_cmp edits) text.

(** ** Lines *)

Record TableLine := mkTableLine { content : str; line_start : nat; line_end : nat }.

Fixpoint table_loop (start : nat) (segments : list str) : list TableLine :=
  match segments with
  | [] => []
  | segment :: rest =>
      mkTableLine (default segment (strip_suffix [10%N] segment)) start (start + length segment)
      :: table_loop (start + length segment) rest
  end.

Definition line_table (text : str) : list TableLine := table_loop 0 (split_inclusive text).

(** ** Shapes of a line *)

(** Checked, and the column of the text. *)
Definition parse_top_level_task (line : str) : option (bool * nat) :=
  if starts_as is_blank_char line then None
  else match line with
    | bullet :: after_bullet =>
        if negb (is_bullet_char bullet) then None
        else
          let after_space := trim_start_matches is_blank_char after_bullet in
          if (length after_space =? length after_bullet)%nat then None
          else match after_space with
            | open :: mark :: close :: after_checkbox =>
                if negb (is_char LBRACKET open) then None
                else
                  checked ← (if is_char SPACE mark then Some false
                             else if is_char 120%N mark || is_char 88%N mark then Some true else None);
                  if negb (is_char RBRACKET close) then None
                  else
                    let text := trim_start after_checkbox in
                    if (length text =? length after_checkbox)%nat && negb (text == []) then None
                    else Some (checked, length line - length text)
            | _ => None
            end
    | [] => None
    end.

Definition is_blank (line : str) : bool := trim line == [].

Definition is_child_line (line : str) : bool := starts_as is_blank_char line && negb (is_blank line).

Section parse.
Context `{UnicodeTables}.

(** ** Sections of the text *)

(** The rows of the section and its heading's level. *)
Definition section_line_range (lines : list TableLine) (names : HeadingNames) : option (range * nat) :=
  planner_section (map content lines) names.

Definition resolve_section (lines : list TableLine) (k : SectionKind) (h : BacklogHeadings)
  : option (range * nat) :=
  section_line_range lines (HeadingNames_new [section_heading k h; default_heading k]).

Definition heading_at (lines : list TableLine) (row : nat) : option (nat * str) :=
  line ← lines !! row; heading_level_and_text (content line).

(** The first row of a range that [f] takes. *)
Definition find_row (from to_ : nat) (f : nat → bool) : option nat := find f (seq from (to_ - from)).

Definition category_line_range (lines : list TableLine) (section : range) (level : nat) (category : option str)
  : option range :=
  match category with
  | None =>
      let end_ := default (r_end section) (find_row (r_start section) (r_end section)
        (λ row, is_some_and (λ '(other, _), (level <? other)%nat) (heading_at lines row))) in
      Some (mkRange (r_start section) end_)
  | Some name =>
      start ← find_row (r_start section) (r_end section)
        (λ row, is_some_and (λ '(other, text), (level <? other)%nat && (text == name)) (heading_at lines row));
      let end_ := default (r_end section) (find_row (start + 1) (r_end section)
        (λ row, is_some (heading_at lines row))) in
      Some (mkRange (start + 1) end_)
  end.

(** ** Parsing *)

(** The last row of the task's children: [probe] is next. *)
Fixpoint children_end (fuel : nat) (lines : list TableLine) (last_row probe to_ : nat) : nat :=
  match fuel with
  | 0 => last_row
  | S fuel =>
      if (probe <? to_)%nat then
        match lines !! probe with
        | None => last_row
        | Some next =>
            if is_child_line (content next) then children_end fuel lines probe (probe + 1) to_
            else if negb (is_blank (content next)) then last_row
            else children_end fuel lines last_row (probe + 1) to_
        end
      else last_row
  end.

Fixpoint tasks_loop (fuel : nat) (lines : list TableLine) (to_ level row : nat) (category : option str)
    (acc : SectionTasks) : SectionTasks :=
  match fuel with
  | 0 => acc
  | S fuel =>
      if (row <? to_)%nat then
        match lines !! row with
        | None => acc
        | Some line =>
            match heading_level_and_text (content line) with
            | Some (heading_level, name) =>
                if (level <? heading_level)%nat then
                  let category := if name == [] then None else Some name in
                  let categories := match category with
                    | Some name =>
                        if existsb (λ other, category_name other == name) (section_categories acc)
                        then section_categories acc
                        else section_categories acc ++ [mkCategory name (as_u32 row)]
                    | None => section_categories acc
                    end in
                  tasks_loop fuel lines to_ level (row + 1) category (mkSection (tasks acc) categories)
                else tasks_loop fuel lines to_ level (row + 1) category acc
            | None =>
                match parse_top_level_task (content line) with
                | None => tasks_loop fuel lines to_ level (row + 1) category acc
                | Some (checked, text_column) =>
                    let last_row := children_end (S (length lines)) lines row (row + 1) to_ in
                    let span_end := match lines !! last_row with Some l => line_end l | None => line_end line end in
                    let task := mkTask (as_u32 row) (mkRange (line_start line) span_end)
                      (mkRange (line_start line + text_column) (line_start line + length (content line)))
                      (drop text_column (content line)) checked category in
                    tasks_loop fuel lines to_ level (last_row + 1) category
                      (mkSection (tasks acc ++ [task]) (section_categories acc))
                end
            end
        end
      else acc
  end.

Definition parse_section (lines : list TableLine) (k : SectionKind) (h : BacklogHeadings) : SectionTasks :=
  match resolve_section lines k h with
  | None => mkSection [] []
  | Some (range, level) =>
      tasks_loop (S (length lines)) lines (r_end range) level (r_start range) None (mkSection [] [])
  end.

Definition parse_backlog (text : str) (h : BacklogHeadings) : Backlog :=
  let lines := line_table text in
  mkBacklog (parse_section lines Soon h) (parse_section lines Someday h) (parse_section lines Completed h).

(** ** The edits of the panel *)

Definition rename_task_edit (task : BacklogTask) (text : str) : Edit := mkBacklogEdit (task_text_span task) text.

Definition task_block (text : str) (task : BacklogTask) : str :=
  let raw := default [] (get_range text (r_start (task_span task)) (r_end (task_span task))) in
  if ends_with [10%N] raw then raw else raw ++ [10%N].

Definition new_task_block (text : str) : str := u "- [ ] " ++ trim text ++ [10%N].

(** A new line after a row, with the line break the row may miss. *)
Definition insert_after_line (lines : list TableLine) (row : nat) (text : str) : Edit :=
  match lines !! row with
  | Some line =>
      let has_newline := (line_start line + length (content line) <? line_end line)%nat in
      mkBacklogEdit (mkRange (line_end line) (line_end line)) (if has_newline then text else [10%N] ++ text)
  | None => mkBacklogEdit (mkRange 0 0) text (* a row of the table is always given *)
  end.

(** The last row of a range that is not blank. *)
Definition last_non_blank (lines : list TableLine) (r : range) : option nat :=
  last (filter (λ row, is_some_and (λ l, negb (is_blank (content l))) (lines !! row) = true)
    (seq (r_start r) (r_end r - r_start r))).

Definition append_to_section_edit (text : str) (k : SectionKind) (category : option str) (block : str)
    (h : BacklogHeadings) : Edit :=
  let lines := line_table text in
  match resolve_section lines k h with
  | None =>
      let prefix := if text == [] then [] else if ends_with [10%N] text then [10%N] else [10; 10]%N in
      let body := match category with
        | Some name => u "### " ++ name ++ [10; 10]%N ++ block
        | None => block
        end in
      mkBacklogEdit (mkRange (length text) (length text))
        (prefix ++ u "## " ++ section_heading k h ++ [10; 10]%N ++ body)
  | Some (section, level) =>
      match category_line_range lines section level category with
      | Some rows =>
          match last_non_blank lines rows with
          | Some row => insert_after_line lines row block
          | None => insert_after_line lines (r_start rows - 1) ([10%N] ++ block)
          end
      | None =>
          let name := default [] category in
          let anchor := default (r_start section - 1) (last_non_blank lines section) in
          insert_after_line lines anchor ([10%N] ++ u "### " ++ name ++ [10; 10]%N ++ block)
      end
  end.

Definition move_task_edits (text : str) (task : BacklogTask) (to_ : SectionKind) (h : BacklogHeadings)
  : list Edit :=
  [mkBacklogEdit (task_span task) [];
   append_to_section_edit text to_ (task_category task) (task_block text task) h].

Definition append_block_to_note_edit (note_text : str) (heading : HeadingNames) (block : str) : Edit :=
  let lines := line_table note_text in
  match section_line_range lines heading with
  | Some (range, _) =>
      let body_end := default (r_end range) (find_row (r_start range) (r_end range)
        (λ row, is_some (heading_at lines row))) in
      let range := mkRange (r_start range) body_end in
      let anchor := default (r_start range - 1) (last_non_blank lines range) in
      insert_after_line lines anchor block
  | None =>
      let prefix := if (note_text == []) || ends_with [10%N] note_text then [] else [10%N] in
      mkBacklogEdit (mkRange (length note_text) (length note_text)) (prefix ++ block)
  end.

Definition append_done_to_note_edit (note_text : str) (heading : HeadingNames) (text : str) : Edit :=
  append_block_to_note_edit note_text heading (u "- [x] " ++ text ++ [10%N]).
End parse.

(** ** Completion *)

(** [s.replacen(p, by, 1)] *)
Definition replace_first (p by_ s : str) : str :=
  match find_sub p s with
  | Some i => take i s ++ by_ ++ drop (i + length p) s
  | None => s
  end.

(** [✅] *)
Definition CHECK_MARK : char := 0x2705%N.

Section dates.
Context `{UnicodeTables} `{Clock}.

Definition completed_block (text : str) (task : BacklogTask) (date : NaiveDate) : str :=
  let block := task_block text task in
  let '(first_line, children) := default (block, []) (split_once [10%N] block) in
  let first_line := if task_checked task then trim_end first_line
    else replace_first (u "[ ]") (u "[x]") (trim_end first_line) in
  let split := trailing_comments_start first_line in
  trim_end (take split first_line) ++ [32; CHECK_MARK; 32]%N ++ format_ymd date ++ drop split first_line ++ [10%N]
  ++ children ++ (if negb (children == []) && negb (ends_with [10%N] children) then [10%N] else []).

Definition complete_task_edits (text : str) (task : BacklogTask) (date : NaiveDate) (h : BacklogHeadings)
  : list Edit :=
  [mkBacklogEdit (task_span task) [];
   append_to_section_edit text Completed None (completed_block text task date) h].

Definition is_date_char (c : char) : bool := is_ascii_digit c || is_char 45%N c.

Definition split_completion (text : str) : str * option str :=
  let stamped := take (trailing_comments_start text) text in
  match rfind_sub [CHECK_MARK] stamped with
  | None => (text, None)
  | Some index =>
      let after := trim (drop (index + 1) stamped) in
      if negb (after == []) && forallb is_date_char after
      then (trim_end (take index text), Some after) else (text, None)
  end.

Definition completion_date `{!ChronoParse} (text : str) : option NaiveDate :=
  date ← snd (split_completion text); parse_ymd date.

Fixpoint remove_ids_loop (fuel : nat) (kept rest : str) : str :=
  match fuel with
  | 0 => kept ++ rest
  | S fuel =>
      match find_sub (u "<!--rem:") rest with
      | None => kept ++ rest
      | Some start =>
          let after := drop (start + 8) rest in
          match (match find_sub (u "-->") after with
                 | Some end_ => if is_id (take end_ after) then Some end_ else None
                 | None => None
                 end) with
          | Some end_ => remove_ids_loop fuel (kept ++ take start rest ++ u " ") (drop (end_ + 3) after)
          | None => remove_ids_loop fuel (kept ++ take (start + 8) rest) after
          end
      end
  end.

Definition remove_reminder_ids (text : str) : str := remove_ids_loop (S (length text)) [] text.

Definition normalize_task_text (text : str) : str :=
  let without_ids := remove_reminder_ids text in
  let without_token := match parse_line without_ids None ≫= lr_token with
    | Some token => take (r_start (token_range token)) without_ids ++ u " "
        ++ drop (r_end (token_range token)) without_ids
    | None => without_ids
    end in
  join (u " ") (split_whitespace (split_completion (trim_end without_token)).1).

Definition contains_task (b : Backlog) (text : str) : bool :=
  let wanted := normalize_task_text text in
  existsb (λ k, existsb (λ t, normalize_task_text (task_text t) == wanted) (section b k)) ALL.
End dates.

(** [gmail.rs]'s marker around an email's digest. *)
Definition MAIL_MARKER_PREFIX : str := u "<!--gmail:".
Definition MAIL_MARKER_SUFFIX : str := u "-->".

Definition email_capture_line (title stem digest : str) : str :=
  u "- [ ] " ++ title ++ u " [[" ++ stem ++ u "]] " ++ MAIL_MARKER_PREFIX ++ digest ++ MAIL_MARKER_SUFFIX.
