(* ===== verification/BacklogTheory.v ===== *)
(** * The backlog's edits keep the text ([thock/src/backlog.rs])

    The line table cuts the text at its line breaks; a section's tasks are whole
    lines, apart; a new block is inserted between two lines and takes no
    character away; a task moved or completed leaves every other line as it
    was. *)

From S2P Require Import Prelude Strings External HeadingKey Reminder Ordering.
From S2P Require Import MarkdownSyntax MarkdownBlocks DeskHeadings DayPlan Backlog.

(** ** The table *)

Definition row_start (text : str) (row : nat) : nat := length (concat (take row (split_inclusive text))).

Definition seg_content (segment : str) : str := default segment (strip_suffix [10%N] segment).

Lemma table_loop_lookup segs start i :
  table_loop start segs !! i
  = (λ seg, mkTableLine (seg_content seg) (start + length (concat (take i segs)))
       (start + length (concat (take (S i) segs)))) <$> segs !! i.
Proof.
  revert start i. induction segs as [|s segs IH]; intros start [|i]; [done..| |]; cbn [table_loop lookup list_lookup].
  - cbn. rewrite take_0. cbn. by rewrite app_nil_r, Nat.add_0_r.
  - rewrite IH. cbn [take concat]. destruct (segs !! i); [|done]. cbn [fmap option_fmap option_map]. rewrite !length_app.
    f_equal. f_equal; lia.
Qed.

Lemma line_table_lookup text i :
  line_table text !! i
  = (λ seg, mkTableLine (seg_content seg) (row_start text i) (row_start text (S i))) <$> split_inclusive text !! i.
Proof. apply (table_loop_lookup _ 0). Qed.

Lemma line_table_length text : length (line_table text) = length (split_inclusive text).
Proof.
  unfold line_table. generalize 0. induction (split_inclusive text) as [|s l IH]; intros n; [done|]. cbn. by rewrite IH.
Qed.

Lemma row_start_split text row :
  take (row_start text row) text = concat (take row (split_inclusive text)) ∧
  drop (row_start text row) text = concat (drop row (split_inclusive text)).
Proof.
  unfold row_start. pose proof (concat_split_inclusive text) as E. generalize dependent (split_inclusive text).
  intros segs <-. assert (concat segs = concat (take row segs) ++ concat (drop row segs)) as ->
    by (rewrite <- concat_app; by rewrite take_drop).
  by rewrite take_app_length, drop_app_length.
Qed.

Lemma row_start_le text row : row_start text row ≤ length text.
Proof.
  pose proof (f_equal length (proj1 (row_start_split text row))) as H. rewrite length_take in H. unfold row_start in *. lia.
Qed.

Lemma row_start_mono text i j : i ≤ j → row_start text i ≤ row_start text j.
Proof.
  intros H. unfold row_start. replace (take i (split_inclusive text)) with (take i (take j (split_inclusive text))).
  - generalize (take j (split_inclusive text)). intros l. rewrite <- (take_drop i l) at 2. rewrite concat_app, length_app. lia.
  - rewrite take_take. f_equal. lia.
Qed.

Lemma row_start_step text row seg :
  split_inclusive text !! row = Some seg →
  row_start text (S row) = row_start text row + length seg ∧ get_range text (row_start text row) (row_start text (S row)) = Some seg.
Proof.
  intros H. assert (row_start text (S row) = row_start text row + length seg) as E.
  { unfold row_start. erewrite take_S_r by done. rewrite concat_app, length_app. cbn. by rewrite app_nil_r. }
  split; [done|]. unfold get_range. rewrite (proj2 (Nat.leb_le _ _) (row_start_mono text row (S row) ltac:(lia))).
  rewrite (proj2 (Nat.leb_le _ _) (row_start_le text (S row))). cbn. destruct (row_start_split text row) as [_ ->].
  rewrite (drop_S _ seg) by done. cbn [concat]. rewrite E. rewrite Nat.add_comm, Nat.add_sub. by rewrite take_app_length.
Qed.

(** The line at a row. *)
Record line_at (text : str) (row : nat) (l : TableLine) : Prop := {
  at_seg : ∃ seg, split_inclusive text !! row = Some seg ∧ content l = seg_content seg;
  at_start : line_start l = row_start text row;
  at_end : line_end l = row_start text (S row)
}.

Lemma line_table_at text row l : line_table text !! row = Some l → line_at text row l.
Proof.
  rewrite line_table_lookup. destruct (split_inclusive text !! row) as [seg|] eqn:E; [|done]. intros [= <-].
  split; [by exists seg|done|done].
Qed.

(** ** Where a block goes *)

Lemma insert_after_row text row :
  row < length (line_table text) →
  ∃ lead, (∀ block, insert_after_line (line_table text) row block
      = mkBacklogEdit (mkRange (row_start text (S row)) (row_start text (S row))) (lead ++ block)) ∧
    ends_with [10%N] (take (row_start text (S row)) text ++ lead) = true.
Proof.
  intros [l Hl]%lookup_lt_is_Some. unfold insert_after_line. rewrite Hl. apply line_table_at in Hl as [(seg & Hs & Hc) H1 H2].
  destruct (row_start_step _ _ _ Hs) as [Hn _]. rewrite H1, H2, Hc, Hn.
  assert (take (row_start text row + length seg) text = concat (take row (split_inclusive text)) ++ seg) as Htake.
  { rewrite <- Hn, (proj1 (row_start_split _ _)). erewrite take_S_r by done. rewrite concat_app. cbn. by rewrite app_nil_r. }
  rewrite Htake. unfold seg_content. destruct (strip_suffix [10%N] seg) as [body|] eqn:E; cbn [default from_option id].
  - apply strip_suffix_Some in E as ->. rewrite length_app. cbn [length].
    rewrite (proj2 (Nat.ltb_lt _ _)) by lia. exists []. split; [done|]. apply ends_with_app.
    exists (concat (take row (split_inclusive text)) ++ body). by rewrite app_nil_r, !app_assoc.
  - rewrite (proj2 (Nat.ltb_ge _ _)) by lia. exists [10%N]. split; [done|]. apply ends_with_app. by eexists.
Qed.

Section sections.
Context `{UnicodeTables}.

Lemma find_row_bounds from to_ f row : find_row from to_ f = Some row → from ≤ row < to_.
Proof. unfold find_row. intros [Hin _]%find_some. apply in_seq in Hin. lia. Qed.

Lemma last_non_blank_bounds lines r row : last_non_blank lines r = Some row → r_start r ≤ row < r_end r.
Proof.
  unfold last_non_blank. intros Hl%last_Some_elem_of. apply list_elem_of_filter in Hl as [_ Hl].
  apply elem_of_seq in Hl. lia.
Qed.

Lemma best_loop_row names level best lines row lvl :
  best_loop names level best lines = Some (row, lvl) →
  (∃ r, best = Some (r, row, lvl)) ∨ row ∈ lines.*1.
Proof.
  revert best. induction lines as [|[i line] lines IH]; intros best; cbn [best_loop].
  { destruct best as [[[r row'] l]|]; cbn; [|done]. intros [= -> ->]. left. by exists r. }
  assert (∀ best', best_loop names level best' lines = Some (row, lvl) →
    (∀ r, best' = Some (r, row, lvl) → (∃ r, best = Some (r, row, lvl)) ∨ row = i) →
    (∃ r, best = Some (r, row, lvl)) ∨ row ∈ ((i, line) :: lines).*1) as Hgo.
  { intros best' Hb Hbest. cbn. rewrite elem_of_cons. apply IH in Hb as [(r & Hr)|]; [|by auto].
    apply Hbest in Hr as [?|?]; auto. }
  destruct (heading_level_and_text line) as [[hl text]|]; [|by intros Hb; apply (Hgo best); eauto].
  destruct (is_some_and _ level); [by intros Hb; apply (Hgo best); eauto|].
  destruct (rank names text) as [r|]; [|by intros Hb; apply (Hgo best); eauto].
  destruct (r =? 0)%nat. { intros [= -> ->]. right. cbn. by left. }
  intros Hb. apply (Hgo _ Hb). intros r'. destruct (match best with None => _ | _ => _ end).
  - intros [= -> ->]. by right.
  - eauto.
Qed.

(** A section is under its heading, and ends in the text. *)
Lemma planner_section_bounds lines names r level :
  planner_section lines names = Some (r, level) → 1 ≤ r_start r ≤ r_end r ∧ r_end r ≤ length lines.
Proof.
  unfold planner_section. destruct (best_heading (rows lines) names None) as [[start l]|] eqn:E; [|done]. cbn.
  intros [= <- <-]. cbn [r_start r_end]. unfold best_heading in E. destruct (names_is_empty names); [done|].
  apply best_loop_row in E as [(? & ?)|Hin]; [done|].
  apply list_elem_of_fmap in Hin as ([i line] & -> & Hin). unfold rows in Hin. apply elem_of_lookup_imap in Hin as (j & y & [= -> ->] & Hl).
  apply lookup_lt_Some in Hl. cbn [fst]. destruct (list_find _ _) as [[off line']|] eqn:Ef; [|lia].
  apply list_find_Some in Ef as (Hd & _). apply lookup_lt_Some in Hd. rewrite length_drop in Hd. lia.
Qed.

Lemma resolve_section_bounds text k h r level :
  resolve_section (line_table text) k h = Some (r, level) →
  1 ≤ r_start r ≤ r_end r ∧ r_end r ≤ length (line_table text).
Proof. unfold resolve_section, section_line_range. intros Hp%planner_section_bounds. by rewrite length_map in Hp. Qed.

Lemma category_rows lines section level category rows :
  1 ≤ r_start section ≤ r_end section → category_line_range lines section level category = Some rows →
  r_start section ≤ r_start rows ≤ r_end section ∧ r_end rows ≤ r_end section.
Proof.
  intros Hs. unfold category_line_range. destruct category as [name|].
  - destruct (find_row _ _ _) as [start|] eqn:E; [|done]. apply find_row_bounds in E. cbn.
    intros [= <-]. cbn [r_start r_end]. destruct (find_row (start + 1) _ _) as [e|] eqn:Ee; cbn; [|lia].
    apply find_row_bounds in Ee. lia.
  - intros [= <-]. cbn [r_start r_end]. destruct (find_row _ _ _) as [e|] eqn:Ee; cbn; [|lia].
    apply find_row_bounds in Ee. lia.
Qed.

(** The row an append inserts before, when the section is there. *)
Definition append_row_ok (text : str) (k : SectionKind) (h : BacklogHeadings) (n : nat) : Prop :=
  match resolve_section (line_table text) k h with
  | None => n = length text
  | Some (r, _) => ∃ row, r_start r ≤ row ≤ r_end r ∧ n = row_start text row
  end.

Lemma append_missing (text heading : str) (category : option str) :
  ∃ lead, (∀ block, mkBacklogEdit (mkRange (length text) (length text))
      ((if text == [] then [] else if ends_with [10%N] text then [10%N] else [10; 10]%N) ++ u "## " ++ heading ++ [10; 10]%N
       ++ match category with Some name => u "### " ++ name ++ [10; 10]%N ++ block | None => block end)
      = mkBacklogEdit (mkRange (length text) (length text)) (lead ++ block)) ∧
    ends_with [10%N] (take (length text) text ++ lead) = true.
Proof.
  set (prefix := if text == [] then _ else _).
  exists (prefix ++ u "## " ++ heading ++ [10; 10]%N ++ match category with Some name => u "### " ++ name ++ [10; 10]%N | None => [] end).
  split.
  - intros block. f_equal. destruct category; by rewrite <- !app_assoc.
  - apply ends_with_app. rewrite firstn_all. destruct category as [name|].
    + exists (text ++ prefix ++ u "## " ++ heading ++ [10; 10]%N ++ u "### " ++ name ++ [10%N]). by rewrite <- !app_assoc.
    + exists (text ++ prefix ++ u "## " ++ heading ++ [10%N]). by rewrite app_nil_r, <- !app_assoc.
Qed.

Lemma append_to_section_spec text k category h :
  ∃ n lead, append_row_ok text k h n ∧ n ≤ length text ∧
    (∀ block, append_to_section_edit text k category block h = mkBacklogEdit (mkRange n n) (lead ++ block)) ∧
    ends_with [10%N] (take n text ++ lead) = true.
Proof.
  unfold append_row_ok, append_to_section_edit.
  destruct (resolve_section (line_table text) k h) as [[r level]|] eqn:E.
  2: { destruct (append_missing text (section_heading k h) category) as (lead & H1 & H2). by exists (length text), lead. }
  apply resolve_section_bounds in E.
  assert (∀ row front, r_start r - 1 ≤ row < r_end r ∨ row = r_start r - 1 → (front = [] ∨ ends_with [10%N] front = true) →
    ∃ n lead, (∃ m, r_start r ≤ m ≤ r_end r ∧ n = row_start text m) ∧ n ≤ length text ∧
      (∀ block, insert_after_line (line_table text) row (front ++ block) = mkBacklogEdit (mkRange n n) (lead ++ block)) ∧
      ends_with [10%N] (take n text ++ lead) = true) as Hgo.
  { intros row front Hrow Hf. destruct (insert_after_row text row) as (lead & Hi & He); [lia|].
    exists (row_start text (S row)), (lead ++ front). split_and!; [exists (S row); split; [lia|done]|apply row_start_le| |].
    - intros block. by rewrite Hi, app_assoc.
    - destruct Hf as [->|(f & ->)%ends_with_app]; [by rewrite app_nil_r|]. apply ends_with_app.
      exists ((take (row_start text (S row)) text ++ lead) ++ f). by rewrite !app_assoc. }
  destruct (category_line_range _ _ _ _) as [rows|] eqn:Ec.
  - apply category_rows in Ec; [|lia]. destruct (last_non_blank _ rows) as [row|] eqn:El.
    + apply last_non_blank_bounds in El. apply (Hgo row []); [lia|by left].
    + apply (Hgo (r_start rows - 1) [10%N]); [lia|by right].
  - set (anchor := default _ _).
    assert (r_start r - 1 ≤ anchor < r_end r ∨ anchor = r_start r - 1) as Ha.
    { subst anchor. destruct (last_non_blank _ r) as [row|] eqn:El; cbn; [|by right]. apply last_non_blank_bounds in El. lia. }
    edestruct (Hgo anchor ([10%N] ++ u "### " ++ default [] category ++ [10; 10]%N)) as (n & lead & H1 & H2 & H3 & H4); [done| |].
    + right. apply ends_with_app. exists ([10%N] ++ u "### " ++ default [] category ++ [10]%N). by rewrite <- !app_assoc.
    + exists n, lead. split_and!; [done|done| |done]. intros block. rewrite <- H3. f_equal. by rewrite <- !app_assoc.
Qed.
End sections.

(** ** Spans of the tasks *)

Record task_at (text : str) (t : BacklogTask) (row last : nat) : Prop := {
  ta_rows : row ≤ last < length (line_table text);
  ta_line : task_line t = as_u32 row;
  ta_span : task_span t = mkRange (row_start text row) (row_start text (S last));
  ta_text : ∃ l col, line_table text !! row = Some l ∧ parse_top_level_task (content l) = Some (task_checked t, col) ∧
    task_text_span t = mkRange (line_start l + col) (line_start l + length (content l)) ∧
    task_text t = drop col (content l)
}.

Lemma children_end_bounds fuel lines last_row probe to_ :
  last_row < probe → last_row < to_ → last_row < length lines →
  last_row ≤ children_end fuel lines last_row probe to_ < to_ ∧ children_end fuel lines last_row probe to_ < length lines.
Proof.
  revert last_row probe. induction fuel as [|fuel IH]; intros last_row probe H1 H2 H3; cbn [children_end]; [done|].
  destruct (Nat.ltb_spec probe to_); [|done]. destruct (lines !! probe) as [next|] eqn:E; [|done].
  apply lookup_lt_Some in E. destruct (is_child_line _).
  - destruct (IH probe (probe + 1)) as [??]; lia.
  - destruct (negb (is_blank _)); [done|]. apply IH; lia.
Qed.

(** The tasks found before a row: in order, each on rows of its own. *)
Record tasks_ok (text : str) (from row : nat) (ts : list BacklogTask) : Prop := {
  ok_at : Forall (λ t, ∃ r last, from ≤ r ∧ last < row ∧ task_at text t r last) ts;
  ok_apart : ∀ i j a b, i < j → ts !! i = Some a → ts !! j = Some b → r_end (task_span a) ≤ r_start (task_span b)
}.

Lemma tasks_ok_later text from row row' ts : row ≤ row' → tasks_ok text from row ts → tasks_ok text from row' ts.
Proof.
  intros Hr [Ha Hs]. split; [|done]. eapply Forall_impl; [done|]. intros t (r & last & ? & ? & ?). exists r, last. split_and!; [done|lia|done].
Qed.

Lemma tasks_ok_snoc text from row last ts t :
  tasks_ok text from row ts → from ≤ row → task_at text t row last → tasks_ok text from (S last) (ts ++ [t]).
Proof.
  intros [Ha Hs] Hr Ht. pose proof (ta_rows _ _ _ _ Ht). split.
  - apply Forall_app. split; [|apply Forall_singleton; exists row, last; split_and!; [done|lia|done]].
    eapply Forall_impl; [done|]. intros t' (r' & l' & ? & ? & ?). exists r', l'. split_and!; [done|lia|done].
  - intros i j a b Hij Hi Hj. pose proof (lookup_lt_Some _ _ _ Hj) as Hlen. rewrite length_app in Hlen. cbn in Hlen.
    rewrite lookup_app_l in Hi by lia. destruct (decide (j < length ts)) as [Hl|Hl].
    + rewrite lookup_app_l in Hj by done. by apply (Hs i j).
    + rewrite lookup_app_r in Hj by lia. replace (j - length ts) with 0 in Hj by lia. injection Hj as <-.
      pose proof (Forall_lookup_1 _ _ _ _ Ha Hi) as (r' & l' & _ & Hl' & Ht').
      rewrite (ta_span _ _ _ _ Ht), (ta_span _ _ _ _ Ht'). cbn [r_start r_end]. apply row_start_mono. lia.
Qed.

Lemma tasks_loop_ok text from fuel to_ level row category acc :
  from ≤ row → to_ ≤ length (line_table text) → tasks_ok text from row (tasks acc) →
  ∃ row', tasks_ok text from row' (tasks (tasks_loop fuel (line_table text) to_ level row category acc)) ∧ row' ≤ Nat.max row to_.
Proof.
  revert row category acc. induction fuel as [|fuel IH]; intros row category acc Hrow Hto Hok; cbn [tasks_loop].
  { exists row. split; [done|lia]. }
  destruct (Nat.ltb_spec row to_) as [Hlt|]; [|exists row; split; [done|lia]].
  destruct (line_table text !! row) as [l|] eqn:El; [|exists row; split; [done|lia]].
  assert (∀ row' category' acc', row < row' ≤ to_ → tasks_ok text from row' (tasks acc') →
    ∃ row'', tasks_ok text from row'' (tasks (tasks_loop fuel (line_table text) to_ level row' category' acc')) ∧ row'' ≤ Nat.max row to_) as Hgo.
  { intros row' category' acc' Hr Ha. destruct (IH row' category' acc') as (row'' & ? & ?); [lia|done|done|].
    exists row''. split; [done|lia]. }
  destruct (heading_level_and_text (content l)) as [[hl name]|].
  { destruct (level <? hl)%nat; apply Hgo; [lia| |lia|]; eapply tasks_ok_later; [|done| |done]; lia. }
  destruct (parse_top_level_task (content l)) as [[checked col]|] eqn:Ep.
  2: { apply Hgo; [lia|]. eapply tasks_ok_later; [|done]. lia. }
  destruct (children_end_bounds (S (length (line_table text))) (line_table text) row (row + 1) to_) as [Hc1 Hc2]; [lia|lia| |].
  { by eapply lookup_lt_Some. }
  set (last := children_end _ _ _ _ _) in *. apply Hgo; [lia|]. rewrite Nat.add_1_r. cbn [tasks].
  apply tasks_ok_snoc with row; [done|done|]. destruct (lookup_lt_is_Some_2 (line_table text) last) as [ll Hll]; [lia|].
  split; [lia|done| |by exists l, col]. cbn [task_span]. rewrite Hll. apply line_table_at in El as [_ -> _].
  by apply line_table_at in Hll as [_ _ ->].
Qed.

Section backlog.
Context `{UnicodeTables}.

Lemma parse_section_ok text k h :
  match resolve_section (line_table text) k h with
  | Some (r, _) => ∃ row, tasks_ok text (r_start r) row (section (parse_backlog text h) k) ∧ row ≤ r_end r
  | None => section (parse_backlog text h) k = []
  end.
Proof.
  assert (section (parse_backlog text h) k = tasks (parse_section (line_table text) k h)) as -> by by destruct k.
  unfold parse_section. destruct (resolve_section (line_table text) k h) as [[r level]|] eqn:E; [|done].
  apply resolve_section_bounds in E.
  destruct (tasks_loop_ok text (r_start r) (S (length (line_table text))) (r_end r) level (r_start r) None (mkSection [] []))
    as (row & Hok & Hrow); [done|lia| |exists row; split; [exact Hok|lia]].
  split; [constructor|]. intros i j a b _ Hi _. cbn [tasks] in Hi. by rewrite lookup_nil in Hi.
Qed.

(** Spans of a section's tasks: whole lines, in order, apart, and the text is on the first of them. *)
Definition span_of_task (text : str) (t : BacklogTask) : Prop :=
  let '(a, b) := (r_start (task_span t), r_end (task_span t)) in
  (∃ row last, row ≤ last ∧ a = row_start text row ∧ b = row_start text (S last)) ∧
  a ≤ r_start (task_text_span t) ∧ r_start (task_text_span t) ≤ r_end (task_text_span t) ≤ b ∧ b ≤ length text ∧
  get_range text (r_start (task_text_span t)) (r_end (task_text_span t)) = Some (task_text t).

Lemma parse_top_level_task_shape line checked col :
  parse_top_level_task line = Some (checked, col) →
  5 ≤ col ≤ length line ∧ (∃ c rest, line = c :: rest ∧ is_bullet_char c = true).
Proof.
  unfold parse_top_level_task. destruct (starts_as _ _); [done|]. destruct line as [|c rest]; [done|].
  destruct (is_bullet_char c) eqn:Ec; [|done]. cbn [negb]. set (after := trim_start_matches _ rest).
  pose proof (trim_drop is_blank_char rest) as Hd. fold after in Hd. clearbody after.
  destruct (Nat.eqb_spec (length after) (length rest)) as [|Hne]; [done|].
  assert (length after ≤ length rest) as Hle by (rewrite Hd, length_drop; lia).
  destruct after as [|o [|m [|cl after]]]; try done. destruct (negb _); [done|]. set (ck := if is_char SPACE m then _ else _).
  destruct ck as [ck|]; [|done]. cbn [mbind option_bind]. destruct (negb _); [done|].
  pose proof (trim_drop is_whitespace after) as Ht. fold (trim_start after) in Ht.
  assert (length (trim_start after) ≤ length after) as Hl by (rewrite Ht, length_drop; lia).
  destruct (_ && _); [done|]. intros [= <- <-]. cbn [length] in *. split; [lia|]. by exists c, rest.
Qed.

Lemma seg_content_app seg : seg_content seg = seg ∨ seg = seg_content seg ++ [10%N].
Proof. unfold seg_content. destruct (strip_suffix [10%N] seg) eqn:E; [|by left]. apply strip_suffix_Some in E as ->. by right. Qed.

Lemma task_at_span text t row last : task_at text t row last → span_of_task text t.
Proof.
  intros [Hr _ Hs (l & col & Hl & Hp & Ht & Htext)]. unfold span_of_task. rewrite Hs, Ht. cbn [r_start r_end].
  apply line_table_at in Hl as [(seg & Hseg & Hc) Hstart _]. rewrite Htext, Hstart. clear Hstart Hs Ht Htext.
  apply parse_top_level_task_shape in Hp as [Hcol _]. destruct (row_start_step _ _ _ Hseg) as [Hn Hg].
  assert (length (content l) ≤ length seg) as Hlen.
  { rewrite Hc. destruct (seg_content_app seg) as [E|E]; apply (f_equal length) in E; [lia|].
    rewrite length_app in E. lia. }
  pose proof (row_start_mono text (S row) (S last) ltac:(lia)). pose proof (row_start_le text (S last)).
  split_and!; [exists row, last; split_and!; [lia|done..]|lia..|]. unfold get_range in *.
  rewrite (proj2 (Nat.leb_le _ _)) by lia. rewrite (proj2 (Nat.leb_le _ _)) by lia. cbn [andb].
  destruct (_ && _); [|done]. injection Hg as Hg. f_equal. rewrite Hn, Nat.add_comm, Nat.add_sub in Hg.
  rewrite <- drop_drop. set (rest := drop (row_start text row) text) in *.
  assert (content l = take (length (content l)) rest) as ->.
  { rewrite Hc. destruct (seg_content_app seg) as [E|E]; [by rewrite E, Hg|].
    rewrite <- (Nat.min_l (length (seg_content seg)) (length seg)) by (rewrite <- Hc; lia).
    rewrite <- take_take, Hg. rewrite E at 3. by rewrite take_app_length. }
  apply (f_equal length) in Hg. rewrite length_take in Hg.
  rewrite length_take, take_drop_commute, (Nat.min_l _ (length rest)) by lia. f_equal. f_equal. lia.
Qed.
End backlog.

(** ** What an edit changes *)

(** [block] is put at [n] on a line of its own: [lead] is what goes before it. *)
Definition inserted (text : str) (n : nat) (lead block result : str) : Prop :=
  n ≤ length text ∧ result = take n text ++ lead ++ block ++ drop n text ∧
  (take n text ++ lead = [] ∨ ends_with [10%N] (take n text ++ lead) = true).

Definition without (text : str) (r : range) : str := replace_range text r [].

Lemma get_range_some (text : str) a b : a ≤ b ≤ length text → is_some (get_range text a b) = true.
Proof. intros H. unfold get_range. by rewrite !(proj2 (Nat.leb_le _ _)) by lia. Qed.

(** Cutting a range and inserting outside of it, whichever comes first. *)
Lemma cut_and_insert text a b n ins :
  a ≤ b ≤ length text → n ≤ length text → n ≤ a ∨ b ≤ n →
  let rest := without text (mkRange a b) in
  let m := if (n <=? a)%nat then n else n - (b - a) in
  apply_edits text [mkBacklogEdit (mkRange a b) []; mkBacklogEdit (mkRange n n) ins] = take m rest ++ ins ++ drop m rest ∧
  m ≤ length rest.
Proof.
  intros Hab Hn Ho rest m. unfold apply_edits.
  set (cut := mkBacklogEdit (mkRange a b) []). set (put := mkBacklogEdit (mkRange n n) ins).
  assert (sort_by edit_cmp [cut; put] = if (n <=? a)%nat then [cut; put] else [put; cut]) as ->.
  { unfold sort_by, merge_sort. cbn. unfold cmp_le, edit_cmp, cut, put. cbn [edit_range r_start].
    destruct (decide _) as [Hd|Hd]; destruct (Nat.leb_spec n a); try done; exfalso.
    - apply Hd. by apply Nat.compare_gt_iff.
    - apply Hd. intros Hc. apply Nat.compare_gt_iff in Hc. lia. }
  assert (length rest = a + (length text - b)) as Hlen.
  { unfold rest, without, replace_range. cbn [r_start r_end]. rewrite !length_app, length_take, length_drop. cbn. lia. }
  destruct (Nat.leb_spec n a); cbn [fold_left]; unfold apply_edit; cbn [edit_range new_text r_start r_end cut put];
    rewrite !get_range_some by lia; unfold replace_range; cbn [r_start r_end]; subst m rest; unfold without, replace_range in *;
    cbn [r_start r_end app] in *; (split; [|lia]); [done|].
  assert (a < n) by lia. assert (length (take a text) = a) as Hta by (rewrite length_take; lia).
  rewrite (take_app_le _ _ a), take_take, Nat.min_l by (rewrite ?length_take; lia).
  rewrite (drop_app_le _ _ b) by (rewrite ?length_take; lia).
  rewrite take_app_ge, drop_app_ge by lia. rewrite Hta, drop_drop, <- app_assoc. f_equal.
  rewrite take_drop_commute. replace (b + (n - (b - a) - a)) with n by lia. done.
Qed.

(** The rows of two sections, headings included, do not meet. *)
Definition sections_apart (text : str) (h : BacklogHeadings) `{UnicodeTables} (k k' : SectionKind) : Prop :=
  match resolve_section (line_table text) k h, resolve_section (line_table text) k' h with
  | Some (r, _), Some (r', _) => r_end r < r_start r' ∨ r_end r' < r_start r
  | _, _ => True
  end.

Lemma ends_with_break s : ends_with [10%N] s = true ↔ last s = Some 10%N.
Proof. rewrite ends_with_app, last_Some. done. Qed.

Lemma last_app_ne {A} (a b : list A) : b ≠ [] → last (a ++ b) = last b.
Proof. rewrite last_app. intros Hb. destruct (last b) eqn:E; [done|]. by apply last_None in E. Qed.

Lemma line_break_before text row :
  row < length (split_inclusive text) → take (row_start text row) text = [] ∨ last (take (row_start text row) text) = Some 10%N.
Proof.
  intros Hl. rewrite (proj1 (row_start_split text row)). destruct row as [|row]; [by left|]. right.
  destruct (lookup_lt_is_Some_2 (split_inclusive text) row) as [s Hs]; [lia|].
  destruct (segments_lookup _ _ _ (split_inclusive_segments text) Hs Hl) as (body & -> & _).
  erewrite take_S_r by done. rewrite concat_app. cbn [concat]. rewrite app_nil_r, app_assoc. apply last_snoc.
Qed.

Section edits.
Context `{UnicodeTables}.

(** A section's tasks, as [parse_backlog] places them, are whole lines of the text, one after the other
    without meeting, and each task's text is where its span says. *)
Theorem tasks_are_whole_lines text h k i j a b :
  section (parse_backlog text h) k !! i = Some a → section (parse_backlog text h) k !! j = Some b →
  span_of_task text a ∧ (i < j → r_end (task_span a) ≤ r_start (task_span b)).
Proof.
  intros Ha Hb. pose proof (parse_section_ok text k h) as Hs.
  destruct (resolve_section (line_table text) k h) as [[r level]|]; [|by rewrite Hs, lookup_nil in Ha].
  destruct Hs as (row & [Hat Hap] & _). pose proof (Forall_lookup_1 _ _ _ _ Hat Ha) as (r' & last & _ & _ & Ht).
  split; [by eapply task_at_span|]. intros Hij. by apply (Hap i j).
Qed.

(** An append to a section takes nothing away: the text is cut at one place, between two of its lines,
    and what goes there is the block on lines of its own, after a lead (a line break, headings) that does not
    depend on the block. *)
Theorem append_only_inserts text k category h :
  ∃ n lead, ∀ block,
    inserted text n lead block (apply_edits text [append_to_section_edit text k category block h]) ∧
    (n = length text ∨ ∃ row, n = row_start text row).
Proof.
  destruct (append_to_section_spec text k category h) as (n & lead & Hn & Hle & Hspec & He). exists n, lead. intros block.
  rewrite Hspec. split; [split_and!; [done| |by right]|].
  - unfold apply_edits, sort_by. cbn. unfold apply_edit. cbn [edit_range r_start r_end new_text].
    rewrite get_range_some by lia. unfold replace_range. cbn [r_start r_end]. by rewrite <- app_assoc.
  - unfold append_row_ok in Hn. destruct (resolve_section _ _ _) as [[r ?]|]; [|by left].
    destruct Hn as (row & _ & ->). right. by exists row.
Qed.

Lemma task_of_section text h k t :
  t ∈ section (parse_backlog text h) k → ∃ row last_, task_at text t row last_.
Proof.
  intros Hin. pose proof (parse_section_ok text k h) as Hs.
  destruct (resolve_section (line_table text) k h) as [[r level]|]; [|rewrite Hs in Hin; by apply not_elem_of_nil in Hin].
  destruct Hs as (row & [Hat _] & _). rewrite Forall_forall in Hat. destruct (Hat _ Hin) as (r0 & last_ & _ & _ & Ht). by exists r0, last_.
Qed.

(** Cut the task's lines out, and put a block where the other section takes it. *)
Lemma relocate_spec text h k t to_ category block :
  t ∈ section (parse_backlog text h) k → sections_apart text h k to_ →
  ∃ m lead, inserted (without text (task_span t)) m lead block
    (apply_edits text [mkBacklogEdit (task_span t) []; append_to_section_edit text to_ category block h]).
Proof.
  intros Hin Ha. pose proof (parse_section_ok text k h) as Hs. unfold sections_apart in Ha.
  destruct (resolve_section (line_table text) k h) as [[r level]|] eqn:Er; [|rewrite Hs in Hin; by apply not_elem_of_nil in Hin].
  destruct Hs as (row & [Hat _] & Hrow). rewrite Forall_forall in Hat. destruct (Hat _ Hin) as (r0 & last & Hr0 & Hlast & Ht).
  destruct (append_to_section_spec text to_ category h) as (n & lead & Hn & Hle & Hspec & He). rewrite Hspec.
  pose proof (ta_rows _ _ _ _ Ht) as Hrows. rewrite (ta_span _ _ _ _ Ht).
  set (a := row_start text r0). set (b := row_start text (S last)).
  assert (a ≤ b) as Hab by (apply row_start_mono; lia). pose proof (row_start_le text (S last)) as Hb. fold b in Hb.
  assert (n ≤ a ∨ b ≤ n) as Ho.
  { unfold append_row_ok in Hn. destruct (resolve_section (line_table text) to_ h) as [[r' ?]|] eqn:Er'; [|lia].
    destruct Hn as (m & Hm & ->). destruct Ha; [right|left]; apply row_start_mono; lia. }
  destruct (cut_and_insert text a b n (lead ++ block)) as [Hc Hm]; [lia|lia|done|].
  eexists _, lead. split_and!; [exact Hm| |].
  { rewrite Hc. by rewrite <- app_assoc. }
  rewrite !ends_with_break in *. unfold without, replace_range. cbn [r_start r_end app].
  destruct (decide (lead = [])) as [->|Hlead].
  2: { right. by rewrite last_app_ne in He |- * by done. }
  rewrite !app_nil_r in *. assert (length (take a text) = a) as Hta by (rewrite length_take; lia).
  destruct (Nat.leb_spec n a).
  - right. rewrite take_app_le, take_take, Nat.min_l by (rewrite ?length_take; lia). done.
  - rewrite take_app_ge by lia. rewrite Hta. destruct (decide (n = b)) as [->|Hnb].
    + replace (b - (b - a) - a) with 0 by lia. rewrite take_0, app_nil_r. destruct (line_break_before text r0) as [E|E]; [|by left|by right].
      rewrite line_table_length in Hrows. lia.
    + right. rewrite take_drop_commute. replace (b + (n - (b - a) - a)) with n by lia.
      assert (drop b (take n text) ≠ []) as Hne
        by (intros E; apply (f_equal length) in E; rewrite length_drop, length_take in E; cbn in E; lia).
      rewrite last_app_ne by done. rewrite <- (take_drop b (take n text)) in He. by rewrite last_app_ne in He.
Qed.

(** ** The lines of a task *)

Definition OPEN_BOX : str := u "[ ]".
Definition CHECKED_BOX : str := u "[x]".

(** The text around a task: [raw] are its lines, [first] the one with its box and its text, [children] those below;
    [nl] is the line break the last of them may miss. *)
Record task_lines (text : str) (t : BacklogTask) (before raw after nl first children : str) : Prop := {
  lines_there : text = before ++ raw ++ after;
  lines_whole : before = [] ∨ last before = Some 10%N;
  lines_split : raw ++ nl = first ++ [10%N] ++ children ∧ 10%N ∉ first;
  lines_break : nl = [] ∨ nl = [10%N];
  lines_task : ∃ col, parse_top_level_task first = Some (task_checked t, col) ∧ task_text t = drop col first
}.

(** The line of a task that is completed: trimmed at its end, its box ticked when it was not, and the check mark with
    the date before the comments at its end. *)
Definition completed_line `{Clock} (checked : bool) (date : NaiveDate) (first line : str) : Prop :=
  ∃ ticked, let n := trailing_comments_start ticked in
    line = trim_end (take n ticked) ++ [32; CHECK_MARK; 32]%N ++ format_ymd date ++ drop n ticked ∧
    if checked then ticked = trim_end first
    else ∃ bullet rest, trim_end first = bullet ++ OPEN_BOX ++ rest ∧ LBRACKET ∉ bullet ∧
           ticked = bullet ++ CHECKED_BOX ++ rest.

Lemma ends_with_app_break (a : str) : ends_with [10%N] (a ++ [10%N]) = true.
Proof. apply ends_with_app. by exists a. Qed.

Lemma task_block_lines text t row last_ :
  task_at text t row last_ →
  ∃ before raw after nl first children,
    task_lines text t before raw after nl first children ∧
    without text (task_span t) = before ++ after ∧ task_block text t = raw ++ nl ∧
    (children = [] ∨ ends_with [10%N] children = true).
Proof.
  intros [Hr _ Hspan (l & col & Hl & Hp & _ & Htext)]. rewrite line_table_length in Hr.
  apply line_table_at in Hl as [(seg & Hseg & Hc) _ _]. destruct (row_start_step _ _ _ Hseg) as [Hn _].
  set (a := row_start text row). set (b := row_start text (S last_)).
  assert (row_start text (S row) ≤ b ≤ length text) as Hb by (split; [apply row_start_mono; lia|apply row_start_le]).
  set (below := take (b - row_start text (S row)) (drop (row_start text (S row)) text)).
  assert (take (b - a) (drop a text) = seg ++ below) as Hraw.
  { pose proof (proj2 (row_start_split text row)) as Ha. fold a in Ha.
    unfold below. rewrite (proj2 (row_start_split text (S row))), Ha.
    rewrite (drop_S _ seg) by done. cbn [concat]. fold a in Hn. rewrite take_app_ge by lia. f_equal. f_equal. lia. }
  set (raw := seg ++ below) in *. set (nl := if ends_with [10%N] raw then [] else [10%N] : str).
  assert (task_block text t = raw ++ nl) as Hblock.
  { unfold task_block, get_range. rewrite Hspan. cbn [r_start r_end]. fold a b.
    rewrite !(proj2 (Nat.leb_le _ _)) by lia. cbn [andb default from_option id]. rewrite Hraw.
    unfold nl. destruct (ends_with [10%N] raw); [by rewrite app_nil_r|done]. }
  assert (ends_with [10%N] (raw ++ nl) = true) as Hend.
  { unfold nl. destruct (ends_with [10%N] raw) eqn:E; [by rewrite app_nil_r|apply ends_with_app_break]. }
  assert (∃ children, raw ++ nl = content l ++ [10%N] ++ children ∧ 10%N ∉ content l ∧
    (children = [] ∨ ends_with [10%N] children = true)) as (children & Hsplit & Hno & Hch).
  { destruct (segments_at _ _ _ (split_inclusive_segments text) Hseg) as [_ [(body & Es & Hbody)|Hopen]].
    - assert (content l = body) as -> by (rewrite Hc, Es; unfold seg_content; by rewrite strip_suffix_app).
      exists (below ++ nl). assert (raw ++ nl = body ++ [10%N] ++ below ++ nl) as E by (unfold raw; rewrite Es, <- !app_assoc; done).
      split_and!; [done..|]. rewrite E in Hend. destruct (below ++ nl) as [|c children]; [by left|right].
      rewrite ends_with_break in *. by rewrite app_assoc, last_app_ne in Hend.
    - assert (below = []) as Hnb.
      { destruct (decide (S row < length (split_inclusive text))) as [Hlt|Hge].
        - destruct (segments_lookup _ _ _ (split_inclusive_segments text) Hseg Hlt) as (body & -> & _). exfalso.
          apply Hopen, elem_of_app. right. by left.
        - unfold below. rewrite (proj2 (row_start_split text (S row))), drop_ge by lia. apply take_nil. }
      assert (content l = seg) as ->.
      { rewrite Hc. destruct (seg_content_app seg) as [E|E]; [done|]. exfalso. apply Hopen. rewrite E. apply elem_of_app. right. by left. }
      assert (raw = seg) as Er by (unfold raw; by rewrite Hnb, app_nil_r). exists []. split_and!; [|done|by left].
      unfold nl. rewrite Er. destruct (ends_with [10%N] seg) eqn:E; [|done]. exfalso. apply ends_with_app in E as [q ->].
      apply Hopen, elem_of_app. right. by left. }
  exists (take a text), raw, (drop b text), nl, (content l), children. split_and!; [|by rewrite Hspan|done|done].
  split; [|apply line_break_before; lia|done|unfold nl; destruct (ends_with _ raw); auto|by exists col].
  rewrite <- Hraw, <- (take_drop a text) at 1. f_equal. rewrite <- (take_drop (b - a) (drop a text)) at 1. f_equal.
  rewrite drop_drop. f_equal. fold a in Hn. lia.
Qed.

Lemma replace_first_once p by_ s :
  replace_first p by_ s = match split_once p s with Some (a, b) => a ++ by_ ++ b | None => s end.
Proof. unfold replace_first, split_once. by destruct (find_sub p s). Qed.

Lemma open_box line col :
  parse_top_level_task line = Some (false, col) → ∃ bullet rest, line = bullet ++ OPEN_BOX ++ rest ∧ LBRACKET ∉ bullet.
Proof.
  unfold parse_top_level_task. destruct (starts_as _ _); [done|]. destruct line as [|c after]; [done|].
  destruct (is_bullet_char c) eqn:Ec; [|done]. cbn [negb].
  destruct (trim_start_matches_app is_blank_char after) as (blanks & Hb & Hall).
  destruct (_ =? _)%nat; [done|]. destruct (trim_start_matches is_blank_char after) as [|o [|m [|cl rest]]]; try done.
  destruct (is_char LBRACKET o) eqn:Eo; [|done]. destruct (is_char SPACE m) eqn:Em.
  2: { destruct (_ || _); [|done]. cbn [mbind option_bind]. destruct (negb (is_char RBRACKET cl)); [done|]. destruct (_ && _); intros E; discriminate E. }
  cbn [negb mbind option_bind]. destruct (is_char RBRACKET cl) eqn:Ecl; [|done]. intros _.
  unfold is_char in Eo, Em, Ecl. apply N.eqb_eq in Eo as <-, Em as <-, Ecl as <-.
  exists (c :: blanks), rest. split; [by rewrite Hb|]. intros [<-|Hin]%elem_of_cons; [discriminate Ec|].
  rewrite Forall_forall in Hall. specialize (Hall _ Hin). discriminate Hall.
Qed.

Lemma trim_end_box bullet rest :
  trim_end (bullet ++ OPEN_BOX ++ rest) = bullet ++ OPEN_BOX ++ trim_end rest.
Proof.
  rewrite !app_assoc. unfold trim_end. destruct (decide (trim_end_matches is_whitespace rest = [])) as [E|E].
  - rewrite E. apply trim_end_matches_nil in E. rewrite trim_end_matches_app_all, app_nil_r by done.
    by apply (trim_end_matches_app_last _ _ _ (ch "]")).
  - by apply trim_end_matches_app_keep.
Qed.

Lemma ticked_line first col checked :
  parse_top_level_task first = Some (checked, col) →
  let ticked := if checked then trim_end first else replace_first OPEN_BOX CHECKED_BOX (trim_end first) in
  if checked then ticked = trim_end first
  else ∃ bullet rest, trim_end first = bullet ++ OPEN_BOX ++ rest ∧ LBRACKET ∉ bullet ∧ ticked = bullet ++ CHECKED_BOX ++ rest.
Proof.
  intros Hp. destruct checked; [done|]. apply open_box in Hp as (bullet & rest & -> & Hb). cbn zeta.
  rewrite trim_end_box. exists bullet, (trim_end rest). split_and!; [done|done|].
  rewrite replace_first_once.
  assert (split_once OPEN_BOX (bullet ++ OPEN_BOX ++ trim_end rest) = Some (bullet, trim_end rest)) as ->; [|done].
  apply (split_once_mark LBRACKET [] (u " ]")); [apply not_elem_of_nil|done].
Qed.

Lemma completed_block_lines `{Clock} text t date before raw after nl first children :
  task_lines text t before raw after nl first children → task_block text t = raw ++ nl →
  (children = [] ∨ ends_with [10%N] children = true) →
  ∃ line, completed_line (task_checked t) date first line ∧ completed_block text t date = line ++ [10%N] ++ children.
Proof.
  intros [_ _ [Hs Hno] _ (col & Hp & _)] Hblock Hch. unfold completed_block. rewrite Hblock, Hs.
  assert (split_once [10%N] (first ++ [10%N] ++ children) = Some (first, children)) as ->
    by (apply (split_once_mark 10%N [] []); [apply not_elem_of_nil|done]).
  cbn [default from_option id]. apply ticked_line in Hp. cbn zeta in Hp.
  set (ticked := if task_checked t then trim_end first else replace_first OPEN_BOX CHECKED_BOX (trim_end first)) in *.
  fold OPEN_BOX CHECKED_BOX. fold ticked. eexists. split; [exists ticked; split; [reflexivity|exact Hp]|].
  assert ((if negb (children == []) && negb (ends_with [10%N] children) then [10%N] else [] : str) = []) as ->.
  { destruct Hch as [-> | ->]; [done|]. by rewrite andb_false_r. }
  by rewrite app_nil_r, <- !app_assoc.
Qed.

End edits.
