(* ===== verification/BacklogRename.v ===== *)
(** * Renaming a task renames that task ([thock/src/backlog.rs])

    The text after a rename, read again: the same sections, the same tasks on the
    same lines, and the new text on the one that was renamed. *)

From S2P Require Import Prelude Strings External HeadingKey Reminder Ordering.
From S2P Require Import MarkdownSyntax MarkdownBlocks DeskHeadings DayPlan Backlog BacklogTheory.

(** ** The shape of a task's line *)

Record task_line_shape (line : str) (checked : bool) (col : nat) (text : str) : Prop := {
  tl_text : text = drop col line;
  tl_shape : ∃ bullet spaces mark gap, line = bullet :: spaces ++ LBRACKET :: mark :: RBRACKET :: gap ++ text ∧
    col = 4 + length spaces + length gap ∧ is_bullet_char bullet = true ∧
    spaces ≠ [] ∧ Forall (λ c, is_blank_char c = true) spaces ∧
    (if is_char SPACE mark then Some false
     else if is_char 120%N mark || is_char 88%N mark then Some true else None) = Some checked ∧
    Forall (λ c, is_whitespace c = true) gap ∧ (text ≠ [] → gap ≠ []);
  tl_head : starts_as is_whitespace text = false
}.

Lemma trimmed_split f s :
  ∃ a, s = a ++ trim_start_matches f s ∧ Forall (λ c, f c = true) a.
Proof. destruct (count_while_split f s) as (a & r & -> & Ha & Hr & _ & Ht). exists a. by rewrite Ht. Qed.

Lemma is_char_eq c d : is_char c d = true → d = c.
Proof. unfold is_char. by intros ->%N.eqb_eq. Qed.

Lemma parse_top_level_task_line line checked col :
  parse_top_level_task line = Some (checked, col) → task_line_shape line checked col (drop col line).
Proof.
  unfold parse_top_level_task. destruct (starts_as _ _); [done|]. destruct line as [|bullet rest]; [done|].
  destruct (is_bullet_char bullet) eqn:Eb; [|done]. cbn [negb].
  destruct (trimmed_split is_blank_char rest) as (spaces & Hrest & Hsp). pose proof (trim_start_matches_no_head is_blank_char rest) as _.
  set (after := trim_start_matches is_blank_char rest) in *. clearbody after. subst rest. rewrite length_app.
  destruct (Nat.eqb_spec (length after) (length spaces + length after)) as [|Hne]; [done|].
  destruct after as [|o [|m [|cl after]]]; try done. destruct (is_char LBRACKET o) eqn:Eo; [|done]. cbn [negb].
  destruct (if is_char SPACE m then Some false else _) as [ck|] eqn:Eck; [|done]. cbn [mbind option_bind].
  destruct (is_char RBRACKET cl) eqn:Ecl; [|done]. cbn [negb]. apply is_char_eq in Eo as ->, Ecl as ->.
  destruct (trimmed_split is_whitespace after) as (gap & Hafter & Hgap).
  pose proof (trim_start_matches_no_head is_whitespace after) as Hhead. fold (trim_start after) in *.
  set (text := trim_start after) in *. clearbody text. subst after. rewrite length_app.
  destruct (_ && _) eqn:Eg; [done|]. intros [= -> Hcol].
  set (front := bullet :: spaces ++ LBRACKET :: m :: RBRACKET :: gap).
  assert (bullet :: spaces ++ LBRACKET :: m :: RBRACKET :: gap ++ text = front ++ text) as Hl by (cbn; by rewrite <- app_assoc).
  assert (col = length front) as Hc by (subst front; repeat (rewrite length_app in * || cbn [length] in * ); lia).
  assert (drop col (bullet :: spaces ++ LBRACKET :: m :: RBRACKET :: gap ++ text) = text) as Hd
    by (rewrite Hl, Hc; apply drop_app_length).
  rewrite Hd. split; [done| |done]. exists bullet, spaces, m, gap. split_and!; try done.
  - rewrite Hc. subst front. repeat (rewrite length_app || cbn [length]). lia.
  - intros ->. cbn in Hne. lia.
  - intros Ht ->. cbn in Eg. rewrite Nat.eqb_refl in Eg. destruct text; done.
Qed.

Lemma task_line_shape_parse line checked col text :
  task_line_shape line checked col text → parse_top_level_task line = Some (checked, col).
Proof.
  intros [_ (bullet & spaces & mark & gap & -> & -> & Hb & Hne & Hsp & Hm & Hg & Htg) Hh].
  unfold parse_top_level_task. cbn [starts_as head is_some_and]. unfold starts_as. cbn [head is_some_and].
  rewrite (is_bullet_not_blank _ Hb), Hb. cbn [negb].
  rewrite (trim_start_matches_app_head is_blank_char spaces) by done. rewrite length_app.
  assert (0 < length spaces) by (destruct spaces; [done|cbn; lia]).
  rewrite (proj2 (Nat.eqb_neq _ _)) by lia. change (is_char LBRACKET LBRACKET) with true. cbn [negb].
  rewrite Hm. cbn [mbind option_bind]. change (is_char RBRACKET RBRACKET) with true. cbn [negb]. unfold trim_start.
  rewrite (trim_start_matches_app_head is_whitespace gap) by done. rewrite length_app.
  assert ((length text =? length gap + length text)%nat && negb (text == []) = false) as ->.
  { destruct (decide (text = [])) as [->|Ht]; [by rewrite andb_false_r|].
    assert (0 < length gap) by (specialize (Htg Ht); destruct gap; [done|cbn; lia]). rewrite (proj2 (Nat.eqb_neq _ _)) by lia. done. }
  do 2 f_equal. repeat (rewrite length_app || cbn [length]). lia.
Qed.

(** With another text, the line is the same task. *)
Lemma renamed_line line checked col new :
  parse_top_level_task line = Some (checked, col) → drop col line ≠ [] → starts_as is_whitespace new = false →
  parse_top_level_task (take col line ++ new) = Some (checked, col) ∧ drop col (take col line ++ new) = new.
Proof.
  intros Hp Ht Hn. pose proof (parse_top_level_task_shape _ _ _ Hp) as [Hcol _].
  assert (drop col (take col line ++ new) = new) as Hd.
  { rewrite drop_app_ge by (rewrite length_take; lia). rewrite length_take, Nat.min_l by lia. by rewrite Nat.sub_diag. }
  split; [|done]. apply task_line_shape_parse with new.
  apply parse_top_level_task_line in Hp as [_ (bullet & spaces & mark & gap & Hl & Hc & ? & ? & ? & ? & ? & Hgap) _].
  split; [done| |done]. exists bullet, spaces, mark, gap. split_and!; try done; [|by intros _; apply Hgap].
  set (text := drop col line) in *. clearbody text. subst line.
  replace (bullet :: spaces ++ LBRACKET :: mark :: RBRACKET :: gap ++ text)
    with ((bullet :: spaces ++ LBRACKET :: mark :: RBRACKET :: gap) ++ text) by (cbn; by rewrite <- app_assoc).
  replace col with (length (bullet :: spaces ++ LBRACKET :: mark :: RBRACKET :: gap))
    by (repeat (rewrite length_app || cbn [length]); lia).
  rewrite take_app_length. cbn. by rewrite <- app_assoc.
Qed.

(** ** What the headings decide *)

Section headings.
Context `{UnicodeTables}.

Definition same_heading (line line' : str) : Prop := heading_level_and_text line = heading_level_and_text line'.

Lemma best_loop_same names level best l l' :
  Forall2 (λ a b : nat * str, a.1 = b.1 ∧ same_heading a.2 b.2) l l' →
  best_loop names level best l = best_loop names level best l'.
Proof.
  intros Hl. revert best. induction Hl as [|[i a] [j b] l l' [Hi Hs] _ IH]; intros best; [done|].
  cbn in Hi, Hs. subst j. cbn [best_loop]. unfold same_heading in Hs. rewrite Hs. repeat case_match; auto.
Qed.

Lemma rows_same l l' : Forall2 same_heading l l' → Forall2 (λ a b : nat * str, a.1 = b.1 ∧ same_heading a.2 b.2) (rows l) (rows l').
Proof.
  unfold rows. intros Hl. apply Forall2_same_length_lookup. split; [rewrite !length_imap; by eapply Forall2_length|].
  intros i x y. rewrite !list_lookup_imap. destruct (l !! i) eqn:E; [|done]. destruct (l' !! i) eqn:E'; [|done].
  cbn. intros [= <-] [= <-]. split; [done|]. by eapply Forall2_lookup_lr.
Qed.

Lemma list_find_same level l l' :
  Forall2 same_heading l l' →
  fst <$> list_find (λ line, heading_at_most level line = true) l = fst <$> list_find (λ line, heading_at_most level line = true) l'.
Proof.
  induction 1 as [|a b l l' Hs _ IH]; [done|]. cbn.
  assert (heading_at_most level a = heading_at_most level b) as E by (unfold heading_at_most; by rewrite Hs).
  destruct (decide (heading_at_most level a = true)), (decide (heading_at_most level b = true)); try congruence; [done|].
  destruct (list_find _ l) as [[i x]|], (list_find _ l') as [[i' x']|]; cbn in *; congruence.
Qed.

Lemma planner_section_same names l l' : Forall2 same_heading l l' → planner_section l names = planner_section l' names.
Proof.
  intros Hl. unfold planner_section, best_heading. rewrite (best_loop_same names None None _ _ (rows_same _ _ Hl)).
  destruct (names_is_empty names); [done|]. destruct (best_loop names None None (rows l')) as [[start level]|]; [|done]. cbn.
  pose proof (list_find_same level _ _ (Forall2_drop _ _ _ (start + 1) Hl)) as Hf. rewrite (Forall2_length _ _ _ Hl).
  destruct (list_find _ (drop _ l)) as [[i x]|], (list_find _ (drop _ l')) as [[i' x']|]; cbn in *; congruence.
Qed.
End headings.

(** ** Two tables that differ in one task *)

Section renamed.
Context (r col : nat) (line new : str) (checked : bool).
Context (Hparse : parse_top_level_task line = Some (checked, col)).
Context (Htext : drop col line ≠ []) (Hnew : starts_as is_whitespace new = false).

Let line' : str := take col line ++ new.

Definition same_row (i : nat) (l l' : TableLine) : Prop :=
  if decide (i = r) then content l = line ∧ content l' = line' else content l = content l'.

Definition same_table (lines lines' : list TableLine) : Prop :=
  length lines = length lines' ∧ ∀ i l l', lines !! i = Some l → lines' !! i = Some l' → same_row i l l'.

Lemma bullet_line l c k : parse_top_level_task l = Some (c, k) →
  heading_level_and_text l = None ∧ is_child_line l = false ∧ is_blank l = false.
Proof.
  intros (_ & b & rest & -> & Hb)%parse_top_level_task_shape.
  assert (is_whitespace b = false ∧ is_char HASH b = false ∧ is_blank_char b = false) as (Hw & Hh & Hbl).
  { unfold is_bullet_char in Hb. apply orb_true_iff in Hb as [[Hb|Hb]%orb_true_iff|Hb]; apply is_char_eq in Hb as ->; by vm_compute. }
  split_and!.
  - unfold heading_level_and_text. assert (trim_start (b :: rest) = b :: rest) as -> by (unfold trim_start; cbn; by rewrite Hw).
    cbn [trim_start_matches]. rewrite Hh. by rewrite Nat.sub_diag.
  - unfold is_child_line, starts_as. cbn [head is_some_and]. by rewrite Hbl.
  - unfold is_blank. apply bool_decide_eq_false. intros Ht%trim_nil_iff. apply Forall_cons in Ht as [Ht _]. congruence.
Qed.

Lemma new_line_parse : parse_top_level_task line' = Some (checked, col) ∧ drop col line' = new.
Proof. by apply renamed_line. Qed.

Lemma same_row_facts i l l' :
  same_row i l l' →
  same_heading (content l) (content l') ∧ is_child_line (content l) = is_child_line (content l') ∧
  is_blank (content l) = is_blank (content l') ∧
  parse_top_level_task (content l) = parse_top_level_task (content l') ∧
  ∀ c k, parse_top_level_task (content l) = Some (c, k) →
    drop k (content l') = if decide (i = r) then new else drop k (content l).
Proof.
  unfold same_row. destruct (decide (i = r)) as [->|]; [|intros ->; done]. intros [-> ->].
  destruct new_line_parse as [Hp Hd]. destruct (bullet_line _ _ _ Hparse) as (? & ? & ?), (bullet_line _ _ _ Hp) as (? & ? & ?).
  unfold same_heading. split_and!; [congruence..|]. intros c k. rewrite Hparse. by intros [= <- <-].
Qed.

Lemma same_rows lines lines' i :
  same_table lines lines' →
  match lines !! i, lines' !! i with
  | Some l, Some l' => same_row i l l'
  | None, None => True
  | _, _ => False
  end.
Proof.
  intros [Hl Hs]. destruct (lines !! i) eqn:E, (lines' !! i) eqn:E'; [by eapply Hs| | |done].
  - apply lookup_lt_Some in E. apply lookup_ge_None in E'. lia.
  - apply lookup_lt_Some in E'. apply lookup_ge_None in E. lia.
Qed.

Lemma same_table_headings lines lines' : same_table lines lines' → Forall2 same_heading (map content lines) (map content lines').
Proof.
  intros [Hl Hs]. apply Forall2_same_length_lookup. split; [by rewrite !length_map|]. intros i x y.
  rewrite !list_lookup_fmap. destruct (lines !! i) eqn:E; [|done]. destruct (lines' !! i) eqn:E'; [|done].
  cbn. intros [= <-] [= <-]. by eapply same_row_facts, Hs.
Qed.

Lemma children_end_same fuel lines lines' last_row probe to_ :
  same_table lines lines' → children_end fuel lines last_row probe to_ = children_end fuel lines' last_row probe to_.
Proof.
  intros Hs. revert last_row probe. induction fuel as [|fuel IH]; intros last_row probe; [done|]. cbn [children_end].
  destruct (probe <? to_)%nat; [|done]. pose proof (same_rows _ _ probe Hs) as Hp.
  destruct (lines !! probe) as [l|], (lines' !! probe) as [l'|]; try done.
  apply same_row_facts in Hp as (_ & -> & -> & _ & _). by rewrite !IH.
Qed.

(** A task and what it is read as after the rename; [i] is its row. *)
Definition same_task (i : nat) (t t' : BacklogTask) : Prop :=
  task_line t' = task_line t ∧ task_checked t' = task_checked t ∧ task_category t' = task_category t ∧
  task_text t' = if decide (i = r) then new else task_text t.

Lemma tasks_loop_same text lines' fuel to_ level row category acc acc' :
  same_table (line_table text) lines' →
  Forall2 (λ t t', ∃ i last, task_at text t i last ∧ same_task i t t') (tasks acc) (tasks acc') →
  section_categories acc = section_categories acc' →
  let res := tasks_loop fuel (line_table text) to_ level row category acc in
  let res' := tasks_loop fuel lines' to_ level row category acc' in
  Forall2 (λ t t', ∃ i last, task_at text t i last ∧ same_task i t t') (tasks res) (tasks res') ∧
  section_categories res = section_categories res'.
Proof.
  intros Hs. revert row category acc acc'. induction fuel as [|fuel IH]; intros row category acc acc' Ht Hc; [done|].
  cbn [tasks_loop]. destruct (Nat.ltb_spec row to_) as [Hlt|]; [|done]. pose proof (same_rows _ _ row Hs) as Hp.
  destruct (line_table text !! row) as [l|] eqn:El, (lines' !! row) as [l'|] eqn:El'; try done.
  apply same_row_facts in Hp as (Hh & _ & _ & Hpt & Htx). unfold same_heading in Hh. rewrite <- Hh, <- Hpt, <- Hc.
  destruct (heading_level_and_text (content l)) as [[hl name]|].
  { destruct (level <? hl)%nat; apply IH; try done. }
  destruct (parse_top_level_task (content l)) as [[ck k]|] eqn:Ep; [|by apply IH].
  specialize (Htx _ _ eq_refl). rewrite <- (children_end_same _ _ _ _ _ _ Hs), <- (proj1 Hs).
  destruct (children_end_bounds (S (length (line_table text))) (line_table text) row (row + 1) to_) as [Hc1 Hc2]; [lia|lia| |].
  { by eapply lookup_lt_Some. }
  set (last := children_end _ _ _ _ _) in *. apply IH; [|done]. apply Forall2_app; [done|]. apply Forall2_cons; split; [|done].
  exists row, last. split.
  - destruct (lookup_lt_is_Some_2 (line_table text) last) as [ll Hll]; [lia|].
    split; [lia|done| |by exists l, k]. cbn [task_span]. rewrite Hll. pose proof (line_table_at _ _ _ El) as [_ -> _].
    by apply line_table_at in Hll as [_ _ ->].
  - by split_and!.
Qed.
End renamed.

(** ** The text with one line changed *)

Lemma insert_segment segs r seg seg' :
  segments segs → segs !! r = Some seg → seg' ≠ [] → (line_seg seg → line_seg seg') → (10%N ∉ seg → 10%N ∉ seg') →
  segments (<[r := seg']> segs).
Proof.
  intros Hs Hr Hne Hl Hb. revert r Hr. induction segs as [|s segs IH]; intros [|r] Hr; [done..| |]; cbn in Hr |- *.
  - injection Hr as ->. pose proof (segments_cons _ _ Hs) as (_ & Hsegs & Hline). destruct segs as [|s' segs].
    + split; [done|]. destruct Hs as [_ [Hx|Hx]]; auto.
    + apply (cons_segments seg' (s' :: segs)); [|done]. auto.
  - apply segments_cons in Hs as (_ & Hsegs & Hline). apply (cons_segments s (<[r := seg']> segs)); [|auto]. apply Hline. by intros ->.
Qed.

Lemma seg_content_open seg : 10%N ∉ seg → seg_content seg = seg.
Proof.
  unfold seg_content. destruct (strip_suffix [10%N] seg) eqn:E; [|done]. apply strip_suffix_Some in E as ->.
  intros Hb. exfalso. apply Hb. apply elem_of_app. right. by left.
Qed.

Lemma seg_content_body seg : seg ≠ [] → line_seg seg ∨ 10%N ∉ seg →
  10%N ∉ seg_content seg ∧ ((line_seg seg ∧ seg = seg_content seg ++ [10%N]) ∨ (10%N ∉ seg ∧ seg_content seg = seg)).
Proof.
  intros _ [(body & -> & Hb)|Hb].
  - unfold seg_content. rewrite strip_suffix_app. cbn. split; [done|]. left. split; [by exists body|done].
  - rewrite seg_content_open; auto.
Qed.

Lemma concat_insert segs r (seg seg' : str) :
  segs !! r = Some seg → concat (<[r := seg']> segs) = concat (take r segs) ++ seg' ++ concat (drop (S r) segs).
Proof.
  intros Hr. rewrite insert_take_drop by (by eapply lookup_lt_Some). by rewrite concat_app.
Qed.

Lemma retyped_table text r l col new :
  line_table text !! r = Some l → 0 < col ≤ length (content l) → 10%N ∉ new →
  let text' := take (line_start l + col) text ++ new ++ drop (line_start l + length (content l)) text in
  same_table r col (content l) new (line_table text) (line_table text').
Proof.
  intros Hl Hcol Hnew text'. apply line_table_at in Hl as [(seg & Hseg & Hc) Hstart _].
  destruct (segments_at _ _ _ (split_inclusive_segments text) Hseg) as [Hne Hkind].
  destruct (seg_content_body seg Hne Hkind) as [Hbody Hcase]. rewrite <- Hc in *.
  set (line' := take col (content l) ++ new). assert (10%N ∉ line') as Hline'.
  { unfold line'. intros [Hin|?]%elem_of_app; [|done]. apply Hbody. rewrite <- (take_drop col (content l)). apply elem_of_app. by left. }
  assert (line' ≠ []) as Hnn.
  { unfold line'. intros E%(f_equal length). rewrite length_app, length_take in E. cbn in E. lia. }
  set (tail := drop (length (content l)) seg). set (segs := split_inclusive text).
  assert (seg = content l ++ tail) as Hsplit.
  { unfold tail. destruct Hcase as [[_ ->]|[_ ->]]; [by rewrite drop_app_length|by rewrite drop_all, app_nil_r]. }
  assert (segments (<[r := line' ++ tail]> segs)) as Hsegs.
  { apply (insert_segment _ r seg); [apply split_inclusive_segments|done| | |].
    - intros E%(f_equal length). rewrite length_app in E. destruct line'; [done|]. cbn in E. lia.
    - intros Hs. destruct Hcase as [[_ E]|[Hb _]].
      + exists line'. split; [|done]. f_equal. rewrite Hsplit in E. by apply app_inv_head in E.
      + destruct Hs as (body & -> & _). exfalso. apply Hb. apply elem_of_app. right. by left.
    - intros Hb [?|Ht]%elem_of_app; [done|]. apply Hb. rewrite Hsplit. apply elem_of_app. by right. }
  assert (concat (<[r := line' ++ tail]> segs) = text') as Htext'.
  { rewrite (concat_insert segs r seg _ Hseg). unfold text', line'. rewrite Hstart.
    assert (text = concat (take r segs) ++ content l ++ tail ++ concat (drop (S r) segs)) as Htext.
    { rewrite (app_assoc (content l)), <- Hsplit. rewrite <- (concat_split_inclusive text) at 1. fold segs.
      rewrite <- (take_drop_middle segs r seg Hseg) at 1. by rewrite concat_app. }
    change (row_start text r) with (length (concat (take r segs))). set (front := concat (take r segs)) in *.
    set (rest := concat (drop (S r) segs)) in *. clearbody front rest. clear -Htext Hcol. subst text.
    rewrite take_app_add, drop_app_add, take_app_le, drop_app_length by lia. by rewrite <- !app_assoc. }
  assert (split_inclusive text' = <[r := line' ++ tail]> segs) as Hsplit' by (rewrite <- Htext'; by apply split_inclusive_concat).
  split.
  { rewrite !line_table_length, Hsplit'. by rewrite length_insert. }
  intros i a b Ha%line_table_at Hb%line_table_at. unfold same_row. destruct Ha as [(s & Hs & ->) _ _], Hb as [(s' & Hs' & ->) _ _].
  rewrite Hsplit' in Hs'. destruct (decide (i = r)) as [->|Hir].
  - rewrite list_lookup_insert_eq in Hs' by (by eapply lookup_lt_Some). rewrite Hseg in Hs. injection Hs as <-. injection Hs' as <-.
    split; [done|]. fold line'. destruct Hcase as [[_ E]|[Hb Hsame]].
    + assert (tail = [10%N]) as -> by (rewrite Hsplit in E; by apply app_inv_head in E).
      unfold seg_content. by rewrite strip_suffix_app.
    + assert (tail = []) as -> by (unfold tail; rewrite Hsame; apply drop_all). rewrite app_nil_r.
      by apply seg_content_open.
  - rewrite list_lookup_insert_ne in Hs' by done. fold segs in Hs. congruence.
Qed.

Section sections.
Context `{UnicodeTables}.

Lemma parse_section_same text text' h r col line new checked :
  parse_top_level_task line = Some (checked, col) → drop col line ≠ [] → starts_as is_whitespace new = false →
  same_table r col line new (line_table text) (line_table text') →
  ∀ k, Forall2 (λ t t', ∃ i last, task_at text t i last ∧ same_task r new i t t')
      (section (parse_backlog text h) k) (section (parse_backlog text' h) k) ∧
    categories (parse_backlog text h) k = categories (parse_backlog text' h) k.
Proof.
  intros Hp Ht Hn Hs k.
  assert (∀ x, of_kind (parse_backlog x h) k = parse_section (line_table x) k h) as Hk by (intros; by destruct k).
  unfold section, categories. rewrite !Hk. unfold parse_section, resolve_section, section_line_range.
  rewrite <- (planner_section_same _ _ _ (same_table_headings _ _ _ _ _ Hp Ht Hn _ _ Hs)), <- (proj1 Hs).
  destruct (planner_section _ _) as [[rg level]|]; [|done]. by eapply tasks_loop_same.
Qed.
End sections.

(** What a task is after [t] is renamed. *)
Definition renamed (t : BacklogTask) (new : str) (old cur : BacklogTask) : Prop :=
  task_line cur = task_line old ∧ task_checked cur = task_checked old ∧ task_category cur = task_category old ∧
  task_text cur = if bool_decide (task_text_span old = task_text_span t) then new else task_text old.

Lemma same_row_span text t i last t' i' last' :
  task_at text t i last → task_at text t' i' last' → (task_text_span t = task_text_span t' ↔ i = i').
Proof.
  intros [H1 _ _ (l & col & Hl & Hp & -> & _)] [H2 _ _ (l' & col' & Hl' & Hp' & -> & _)].
  apply parse_top_level_task_shape in Hp as Hc. apply parse_top_level_task_shape in Hp' as Hc'.
  destruct Hc as [Hc _], Hc' as [Hc' _]. apply line_table_at in Hl as Ha. apply line_table_at in Hl' as Ha'.
  destruct Ha as [_ Hs _], Ha' as [_ Hs' _]. split.
  2: { intros ->. by simplify_eq. }
  intros E. injection E as E _. rewrite Hs, Hs' in E. clear -E Hc Hc' Hl Hl'.
  assert (∀ i l, line_table text !! i = Some l → row_start text i + length (content l) ≤ row_start text (S i)) as Hlen.
  { clear. intros i l [(seg & Hseg & ->) _ _]%line_table_at. destruct (row_start_step _ _ _ Hseg) as [-> _].
    destruct (seg_content_app seg) as [E|E]; apply (f_equal length) in E; [lia|]. rewrite length_app in E. lia. }
  pose proof (Hlen _ _ Hl). pose proof (Hlen _ _ Hl').
  destruct (lt_eq_lt_dec i i') as [[Hi|Hi]|Hi]; [|done|].
  - pose proof (row_start_mono text (S i) i' ltac:(lia)). lia.
  - pose proof (row_start_mono text (S i') i ltac:(lia)). lia.
Qed.

Section rename.
Context `{UnicodeTables}.

(** Renaming a task replaces its text in place, and when the text is read again every section has the same
    tasks on the same lines, with the same boxes, categories and texts, save that the one renamed has its new text. *)
Theorem rename_renames_that_task text h k t new :
  t ∈ section (parse_backlog text h) k → task_text t ≠ [] → 10%N ∉ new → starts_as is_whitespace new = false →
  let text' := apply_edits text [rename_task_edit t new] in
  text' = Backlog.replace_range text (task_text_span t) new ∧
  ∀ k', Forall2 (renamed t new) (section (parse_backlog text h) k') (section (parse_backlog text' h) k') ∧
    categories (parse_backlog text h) k' = categories (parse_backlog text' h) k'.
Proof.
  intros Hin Htext Hnl Hnew text'. pose proof (parse_section_ok text k h) as Hs.
  destruct (resolve_section (line_table text) k h) as [[rg lv]|]; [|rewrite Hs in Hin; by apply not_elem_of_nil in Hin].
  destruct Hs as (? & [Hat _] & _). rewrite Forall_forall in Hat. destruct (Hat _ Hin) as (r & last & _ & _ & Ht). clear Hat.
  destruct (task_at_span _ _ _ _ Ht) as (_ & _ & Hle & Hb & _). pose proof Ht as [_ _ _ (l & col & Hl & Hp & Hspan & Htx)].
  assert (text' = Backlog.replace_range text (task_text_span t) new) as Etext.
  { unfold text', apply_edits, sort_by. cbn. unfold apply_edit, rename_task_edit. cbn [edit_range new_text].
    by rewrite get_range_some by lia. }
  split; [done|]. rewrite Etext. clear text' Etext. unfold Backlog.replace_range. rewrite Hspan. cbn [r_start r_end].
  rewrite Htx in Htext. pose proof (parse_top_level_task_shape _ _ _ Hp) as [Hcol _].
  pose proof (retyped_table text r l col new Hl ltac:(lia) Hnl) as Hsame. cbn zeta in Hsame.
  set (text' := take _ text ++ _) in *. intros k'.
  pose proof (parse_section_same text text' h r col (content l) new _ Hp Htext Hnew Hsame k') as [Hf Hc]. split; [|done].
  eapply Forall2_impl; [exact Hf|]. intros old cur (i & last' & Ha & ? & ? & ? & Hx). split_and!; [done..|]. rewrite Hx.
  pose proof (same_row_span _ _ _ _ _ _ _ Ha Ht) as Hsp.
  destruct (decide (i = r)) as [Hi|Hi], (bool_decide_reflect (task_text_span old = task_text_span t)); tauto.
Qed.
End rename.
