(* ===== verification/VaultSync.v ===== *)
(** * The phone's copy of the vault ([thock/src/vault_sync.rs])

    The desk keeps an encrypted copy of the vault at a server for the phone,
    and applies the writes the phone left there. One pass of the worker is
    [run_job]: catch up with the files, apply the phone's writes, upload what
    changed, tombstone what vanished, then acknowledge the writes. Around it is
    the service: what is pending, the session, retries and polling.

    Files are bytes at vault-relative paths. The server is a state and the
    answers of its operations (class [SyncServer]); random blob ids and nonces
    are drawn from an argument. The texts of errors are not modelled. *)

From stdpp Require Import gmap.
From S2P Require Import Prelude Strings External Ordering Utf8 Write Lines LineHash Apply Dates.
From S2P Require Import Paths Envelope VaultFs Notes.

Definition MAX_FILE_BYTES : N := 2 * 1024 * 1024.
Definition STATE_FILE : str := u ".thock/sync/state.json".
Definition STATE_DIR : str := u ".thock/sync".

(** In seconds. *)
Definition RETRY_FLOOR : N := 5.
Definition RETRY_CEILING : N := 10 * 60.

Definition SKIPPED_DIRS : list str := [u ".git"; u ".thock/history"; u ".thock/cache"; u ".thock/sync"].
Definition PHONE_MOVE_DESTINATIONS : list str := [u "archives/inbox/"].

(** ** What the code calls *)

(** Crate [base64], the standard alphabet. *)
Class Base64 := { base64_decode : str → option (list N) }.

(** [Fs::rename] fails, beside what [FsFaults] says. *)
Class RenameFaults := { rename_fault : str → str → option FsError }.

(** ** Files as bytes *)

Abbreviation Files := (gmap str (list N)).

Section files.
Context `{FsFaults} `{RenameFaults}.

Definition is_file (path : str) (files : Files) : bool :=
  match metadata_fault path with Some _ => false | None => bool_decide (is_Some (files !! path)) end.

Definition load_bytes (path : str) (files : Files) : result (list N) FsError :=
  failing (load_fault path) match files !! path with Some bytes => Ok bytes | None => Err (missing_file path) end.

Definition atomic_write_bytes (path : str) (bytes : list N) (files : Files) : Files * result unit FsError :=
  match atomic_write_fault path with Some e => (files, Err e) | None => (<[path := bytes]> files, Ok tt) end.

(** A failed write has written the first bytes. *)
Definition write_bytes (path : str) (bytes : list N) (files : Files) : Files * result unit FsError :=
  match write_fault path with
  | Some (e, written) => (<[path := take written bytes]> files, Err e)
  | None => (<[path := bytes]> files, Ok tt)
  end.

(** Without [overwrite] and [ignore_if_exists]. *)
Definition rename_file (from to : str) (files : Files) : Files * result unit FsError :=
  match rename_fault from to with
  | Some e => (files, Err e)
  | None =>
      match files !! from, files !! to with
      | None, _ => (files, Err (missing_file from))
      | Some _, Some _ => (files, Err (already_exists to))
      | Some bytes, None => (<[to := bytes]> (delete from files), Ok tt)
      end
  end.
End files.

(** ** The records *)

Record FileRecord := mkFileRecord { version : N; fr_blob_id : str; plaintext_hash_of : str }.

Record LocalState := mkLocalState {
  cursor : N;
  acked_through_seq : N;
  state_files : gmap str FileRecord
}.

#[export] Instance FileRecord_eq_dec : EqDecision FileRecord.
Proof. solve_decision. Defined.
#[export] Instance LocalState_eq_dec : EqDecision LocalState.
Proof. solve_decision. Defined.

Definition LocalState_default : LocalState := mkLocalState 0 0 ∅.

(** Of the server's answers the fields the service reads. *)
Record DeviceInfo := mkDevice { device_id : str; role : str }.

Record VaultInfo := mkVaultInfo {
  vi_status : str;
  quota_bytes : N;
  used_bytes : N;
  devices : list DeviceInfo;
  lapsed_at : option str
}.

Definition VaultInfo_phone (info : VaultInfo) : option DeviceInfo := find (λ device, role device == u "phone") (devices info).
Definition is_lapsed (info : VaultInfo) : bool := (vi_status info == u "lapsed") || is_some (lapsed_at info).

Record WriteRow := mkRow { row_seq : N; row_client_id : str; row_path : str; payload : str }.

Record SyncError := mkSyncError { code : str; current_version : option N }.

(** An error of a call to the server: a refusal, or anything else. *)
Inductive ApiError := Api_Refused (e : SyncError) | Api_Failed (e : FsError).

Definition sync_error (e : ApiError) : option SyncError := match e with Api_Refused e => Some e | Api_Failed _ => None end.

Inductive JobError :=
| Job_Api (e : ApiError)
| Job_Fs (e : FsError)
| Job_KeptRefusing (path : str).

Definition has_code (c : str) (e : ApiError) : bool := is_some_and (λ e, code e == c) (sync_error e).

(** The server: its state, and what each call makes of it and answers. *)
Class SyncServer (Srv : Type) := {
  begin_upload : str → N → str → nat → str → Srv → Srv * result str ApiError;
  put_blob : str → list N → Srv → Srv * result unit ApiError;
  commit : str → N → str → Srv → Srv * result N ApiError;
  tombstone : str → N → Srv → Srv * result N ApiError;
  writes_after : N → Srv → Srv * result (list WriteRow * bool) ApiError;
  ack : N → Srv → Srv * result (N * N) ApiError;
  vault_summary : Srv → Srv * result VaultInfo ApiError
}.

(** Why the desk does not send a file. *)
Inductive SkipReason := TooLarge | NotText.

#[export] Instance SkipReason_eq_dec : EqDecision SkipReason.
Proof. solve_decision. Defined.

Record SkippedFile := mkSkipped { sk_path : str; sk_reason : SkipReason }.

(** Why a write of the phone is skipped for good. *)
Inductive RefusedBy :=
| PayloadNotBase64 | NotDecrypted (e : SealError) | NotUtf8 | NotReadable (e : WriteError)
| OtherThanRow | PathDoesNotSync | TargetNotText
| NotInImages | PictureNotBase64 | PictureTooLarge | PictureHashDiffers
| DestinationNotAllowed.

Inductive ApplyFailure :=
| Refused (reason : RefusedBy)
| Vault_ (e : FsError)
| Unsupported (e : WriteError).

Record AppliedWrite := mkAppliedWrite { aw_changed : option str; aw_removed : option str }.
Definition AppliedWrite_default : AppliedWrite := mkAppliedWrite None None.

Inductive MoveOutcome := Move_Moved | SourceGone | DestinationExists.

(** ** One write of the phone *)

Section applying.
Context `{Clock} `{!ChronoDays} `{UnicodeTables} `{Digest} `{Normalization} `{JsonReader} `{Aead} `{Base64}.
Context `{FsFaults} `{RenameFaults}.

Definition plaintext_hash (bytes : list N) : str := hex_encode (sha256 bytes).

Definition open_write (key : list N) (row : WriteRow) (images_dir : str) : result Write ApplyFailure :=
  match base64_decode (trim (payload row)) with
  | None => Err (Refused PayloadNotBase64)
  | Some envelope =>
      match open key (Context_Write (row_client_id row)) envelope with
      | Err e => Err (Refused (NotDecrypted e))
      | Ok plaintext =>
          match from_utf8 plaintext with
          | None => Err (Refused NotUtf8)
          | Some json =>
              match parse_write json with
              | Err e => Err (if needs_newer_reader e then Unsupported e else Refused (NotReadable e))
              | Ok write =>
                  if (Write_path write != row_path row) || (Write_client_id write != row_client_id row)
                  then Err (Refused OtherThanRow)
                  else if negb (is_syncable_path (Write_path write)) && negb (is_syncable_image_path (Write_path write) images_dir)
                  then Err (Refused PathDoesNotSync)
                  else Ok write
              end
          end
      end
  end.

Definition create_from_template (write : Write) : bool :=
  match Write_operation write with Append _ _ _ _ create _ => create | _ => false end.

Definition note_kind_and_date (vault : Vault) (path : str) : option (NoteKind * NaiveDate) :=
  match note_date vault Daily path with
  | Some date => Some (Daily, date)
  | None => date ← note_date vault Weekly path; Some (Weekly, date)
  end.

Definition template_seed (vault : Vault) (now : NaiveTime) (path : str) (files : Files) : option str :=
  '(kind, date) ← note_kind_and_date vault path;
  bytes ← match load_bytes (template_path vault kind) files with Ok bytes => Some bytes | Err _ => None end;
  template ← from_utf8 bytes;
  Some (expand_template template date now (file_stem path)).

Definition apply_opened_write (vault : Vault) (now : NaiveTime) (write : Write) (existing : option str) (files : Files)
  : Files * result (option str) FsError :=
  let path := Write_path write in
  let seed := if is_none existing && create_from_template write then template_seed vault now path files else None in
  let applied := apply existing write seed in
  if (applied_outcome applied == Noop) || bool_decide (existing = Some (applied_text applied)) then (files, Ok None)
  else match fs_create_dir (parent path) with
  | Err e => (files, Err e)
  | Ok _ =>
      match atomic_write_bytes path (as_bytes (applied_text applied)) files with
      | (files, Err e) => (files, Err e)
      | (files, Ok _) => (files, Ok (Some path))
      end
  end.

Definition apply_put_file (images_dir : str) (write : Write) (content_base64 content_hash : str) (files : Files)
  : Files * result AppliedWrite ApplyFailure :=
  let path := Write_path write in
  if negb (is_syncable_image_path path images_dir) then (files, Err (Refused NotInImages))
  else match base64_decode (trim content_base64) with
  | None => (files, Err (Refused PictureNotBase64))
  | Some bytes =>
      if (MAX_FILE_BYTES <? N.of_nat (length bytes))%N then (files, Err (Refused PictureTooLarge))
      else if plaintext_hash bytes != content_hash then (files, Err (Refused PictureHashDiffers))
      else if is_file path files then
        match load_bytes path files with
        | Err e => (files, Err (Vault_ e))
        | Ok _ => (files, Ok AppliedWrite_default)
        end
      else match fs_create_dir (parent path) with
      | Err e => (files, Err (Vault_ e))
      | Ok _ =>
          match write_bytes path bytes files with
          | (files, Err e) => (files, Err (Vault_ e))
          | (files, Ok _) => (files, Ok (mkAppliedWrite (Some path) None))
          end
      end
  end.

(** [inbox_service::move_note] *)
Definition move_note (from to : str) (files : Files) : Files * result MoveOutcome FsError :=
  if negb (is_file from files) then (files, Ok SourceGone)
  else if is_file to files then (files, Ok DestinationExists)
  else match rename_file from to files with
  | (files, Err e) => (files, Err e)
  | (files, Ok _) => (files, Ok Move_Moved)
  end.

Definition apply_move_file (write : Write) (to : str) (files : Files) : Files * result AppliedWrite ApplyFailure :=
  if negb (is_syncable_path to) || negb (existsb (λ folder, starts_with folder to) PHONE_MOVE_DESTINATIONS)
  then (files, Err (Refused DestinationNotAllowed))
  else match move_note (Write_path write) to files with
  | (files, Err e) => (files, Err (Vault_ e))
  | (files, Ok Move_Moved) => (files, Ok (mkAppliedWrite (Some to) (Some (Write_path write))))
  | (files, Ok _) => (files, Ok AppliedWrite_default)
  end.

(** The bytes of a note, read for a write. *)
Definition existing_text (path : str) (files : Files) : result (option str) ApplyFailure :=
  if is_file path files then
    match load_bytes path files with
    | Err e => Err (Vault_ e)
    | Ok bytes => match from_utf8 bytes with Some text => Ok (Some text) | None => Err (Refused TargetNotText) end
    end
  else Ok None.

Definition apply_write (key : list N) (images_dir : str) (vault : Vault) (now : NaiveTime) (row : WriteRow) (files : Files)
  : Files * result AppliedWrite ApplyFailure :=
  match open_write key row images_dir with
  | Err e => (files, Err e)
  | Ok write =>
      match Write_operation write with
      | PutFile content_base64 content_hash => apply_put_file images_dir write content_base64 content_hash files
      | MoveFile to => apply_move_file write to files
      | _ =>
          match existing_text (Write_path write) files with
          | Err e => (files, Err e)
          | Ok existing =>
              match apply_opened_write vault now write existing files with
              | (files, Err e) => (files, Err (Vault_ e))
              | (files, Ok changed) => (files, Ok (mkAppliedWrite changed None))
              end
          end
      end
  end.

(** ** A batch of writes *)

Record Drained := mkDrained {
  dr_changed : PathSet;
  dr_vacated : PathSet;
  dr_applied : nat;
  dr_last : option N;
  dr_refused : list str;
  dr_blocked : option ApplyFailure
}.

Definition nothing_drained : Drained := mkDrained [] [] 0 None [] None.

Definition insert_path (path : option str) (paths : PathSet) : PathSet :=
  match path with Some path => path_insert path paths | None => paths end.

Definition handled (row : WriteRow) (last : option N) : option N :=
  Some (from_option (λ seq, N.max seq (row_seq row)) (row_seq row) last).

Fixpoint apply_rows (key : list N) (images_dir : str) (vault : Vault) (now : NaiveTime) (rows : list WriteRow) (files : Files)
    (d : Drained) : Files * Drained :=
  match rows with
  | [] => (files, d)
  | row :: rows =>
      match apply_write key images_dir vault now row files with
      | (files, Ok done) =>
          apply_rows key images_dir vault now rows files
            (mkDrained (insert_path (aw_changed done) (dr_changed d)) (insert_path (aw_removed done) (dr_vacated d))
               (dr_applied d + if is_some (aw_changed done) then 1 else 0) (handled row (dr_last d)) (dr_refused d) None)
      | (files, Err (Refused _)) =>
          apply_rows key images_dir vault now rows files
            (mkDrained (dr_changed d) (dr_vacated d) (dr_applied d) (handled row (dr_last d)) (dr_refused d ++ [row_path row]) None)
      | (files, Err failure) =>
          (files, mkDrained (dr_changed d) (dr_vacated d) (dr_applied d) (dr_last d) (dr_refused d) (Some failure))
      end
  end.
End applying.

(** ** Catching up with the files *)

(** What [read_dir] and [metadata] see below a folder: an entry that cannot be
    read is not there; a folder may be one that cannot be listed. *)
Inductive Tree :=
| TreeFile (is_symlink : bool) (len : N)
| TreeDir (listed : bool) (entries : list (str * Tree)).

Fixpoint tree_dirs (tree : Tree) : nat :=
  match tree with
  | TreeFile _ _ => 0
  | TreeDir _ entries => S (fold_right (λ e n, tree_dirs e.2 + n) 0 entries)
  end.

(** A folder that waits to be listed: its path, and what is in it. *)
Abbreviation Folder := (str * (bool * list (str * Tree)))%type (only parsing).

Record Scan := mkScan {
  sc_folders : list Folder;
  sc_changed : PathSet;
  sc_skipped : list SkippedFile;
  sc_seen : PathSet
}.

Record ScanResult := mkScanResult { scan_changed : PathSet; scan_removed : PathSet; scan_skipped : list SkippedFile }.

Definition child_path (folder name : str) : str := if folder == [] then name else folder ++ SLASH :: name.

Section scanning.
Context `{Digest} `{Normalization} `{FsFaults}.

Definition unsendable_reason (bytes : list N) (is_image : bool) : option SkipReason :=
  if (MAX_FILE_BYTES <? N.of_nat (length bytes))%N then Some TooLarge
  else if negb is_image && is_none (from_utf8 bytes) then Some NotText
  else None.

Definition scan_entry (known : gmap str FileRecord) (images_dir : str) (files : Files) (folder : str) (s : Scan)
    (entry : str * Tree) : Scan :=
  let rel := child_path folder entry.1 in
  match entry.2 with
  | TreeDir listed entries =>
      if bool_decide (rel ∈ SKIPPED_DIRS) then s
      else mkScan ((rel, (listed, entries)) :: sc_folders s) (sc_changed s) (sc_skipped s) (sc_seen s)
  | TreeFile is_symlink len =>
      let is_image := is_syncable_image_path rel images_dir in
      if is_symlink || (negb is_image && negb (is_syncable_path rel)) then s
      else
        let seen := path_insert rel (sc_seen s) in
        let skip reason := mkScan (sc_folders s) (sc_changed s) (sc_skipped s ++ [mkSkipped rel reason]) seen in
        if (MAX_FILE_BYTES <? len)%N then skip TooLarge
        else match load_bytes rel files with
        | Err _ => mkScan (sc_folders s) (sc_changed s) (sc_skipped s) seen
        | Ok bytes =>
            match unsendable_reason bytes is_image with
            | Some reason => skip reason
            | None =>
                let hash := plaintext_hash bytes in
                let unchanged := match known !! rel with Some record => plaintext_hash_of record == hash | None => false end in
                mkScan (sc_folders s) (if unchanged then sc_changed s else path_insert rel (sc_changed s)) (sc_skipped s) seen
            end
        end
  end.

(** What a folder that cannot be listed covers. *)
Definition unlisted_prefix (folder : str) : str := if folder == [] then [] else folder ++ [SLASH].

(** The loop over the folders; [unlisted] are the prefixes of those that cannot be listed. *)
Fixpoint scan_loop (fuel : nat) (known : gmap str FileRecord) (images_dir : str) (files : Files) (unlisted : list str) (s : Scan)
  : option (list str * Scan) :=
  match sc_folders s with
  | [] => Some (unlisted, s)
  | (folder, (listed, entries)) :: folders =>
      match fuel with
      | 0 => None
      | S fuel =>
          let s := mkScan folders (sc_changed s) (sc_skipped s) (sc_seen s) in
          if listed then scan_loop fuel known images_dir files unlisted
                           (fold_left (scan_entry known images_dir files folder) entries s)
          else scan_loop fuel known images_dir files (unlisted ++ [unlisted_prefix folder]) s
      end
  end.

Definition gone (known : gmap str FileRecord) (unlisted : list str) (seen : PathSet) : PathSet :=
  fold_left (λ paths path, path_insert path paths)
    (filter (λ path, path ∉ seen.*1 ∧ existsb (λ prefix, starts_with prefix path) unlisted = false) (map_to_list known).*1) [].

(** [root]: whether the vault's folder can be listed, and what is in it. *)
Definition scan_vault (listed : bool) (entries : list (str * Tree)) (known : gmap str FileRecord) (images_dir : str) (files : Files)
  : option ScanResult :=
  '(unlisted, s) ← scan_loop (tree_dirs (TreeDir listed entries)) known images_dir files []
    (mkScan [([], (listed, entries))] [] [] []);
  Some (mkScanResult (sc_changed s) (gone known unlisted (sc_seen s)) (sc_skipped s)).
End scanning.

(** ** Sending *)

Section sending.
Context {Srv : Type} `{!SyncServer Srv}.
Context `{Digest} `{Normalization} `{Aead} `{FsFaults}.
(** The blob id and the nonce of each upload. *)
Context (draw : nat → str * list N).

(** The server, and how much was drawn. *)
Abbreviation Wire := (Srv * nat)%type (only parsing).

Definition call {A} (f : Srv → Srv * result A ApiError) (w : Wire) : Wire * result A ApiError :=
  let '(srv, answer) := f w.1 in ((srv, w.2), answer).

(** [e.current_version.unwrap_or(expected)], when the version was stale. *)
Definition stale_version (expected : N) (e : ApiError) : option N :=
  match sync_error e with
  | Some e => if code e == u "stale_version" then Some (default expected (current_version e)) else None
  | None => None
  end.

(** [attempts] attempts are left, of two. *)
Fixpoint upload_attempts (attempts : nat) (key : list N) (path : str) (expected : N) (bytes : list N) (hash : str) (w : Wire)
  : Wire * result FileRecord JobError :=
  match attempts with
  | 0 => (w, Err (Job_KeptRefusing path))
  | S attempts =>
      let '(blob_id, nonce) := draw w.2 in
      let w := (w.1, S w.2) in
      let envelope := seal nonce key (Context_File path blob_id) bytes in
      let again e := if (attempts =? 1)%nat then stale_version expected e else None in
      match call (begin_upload path expected blob_id (length envelope) (content_hash envelope)) w with
      | (w, Err e) =>
          match again e with
          | Some expected => upload_attempts attempts key path expected bytes hash w
          | None => (w, Err (Job_Api e))
          end
      | (w, Ok ticket) =>
          match call (put_blob ticket envelope) w with
          | (w, Err e) => (w, Err (Job_Api e))
          | (w, Ok _) =>
              match call (commit path expected blob_id) w with
              | (w, Ok version) => (w, Ok (mkFileRecord version blob_id hash))
              | (w, Err e) =>
                  match again e with
                  | Some expected => upload_attempts attempts key path expected bytes hash w
                  | None => (w, Err (Job_Api e))
                  end
              end
          end
      end
  end.

Definition upload_file (key : list N) (path : str) (expected : N) (bytes : list N) (hash : str) (w : Wire)
  : Wire * result FileRecord JobError := upload_attempts 2 key path expected bytes hash w.

Record Sending := mkSending {
  sd_state : LocalState;
  sd_uploaded : nat;
  sd_skipped : list SkippedFile;
  sd_held_back : list str;
  sd_used : N
}.

Definition set_record (path : str) (record : FileRecord) (s : LocalState) : LocalState :=
  mkLocalState (N.max (cursor s) (version record)) (acked_through_seq s) (<[path := record]> (state_files s)).

Definition send_path (key : list N) (images_dir : str) (quota : N) (files : Files) (path : str) (s : Sending) (w : Wire)
  : Wire * result Sending JobError :=
  match load_bytes path files with
  | Err _ => (w, Ok s)
  | Ok bytes =>
      match unsendable_reason bytes (is_syncable_image_path path images_dir) with
      | Some reason =>
          (w, Ok (mkSending (sd_state s) (sd_uploaded s) (sd_skipped s ++ [mkSkipped path reason]) (sd_held_back s) (sd_used s)))
      | None =>
          let hash := plaintext_hash bytes in
          let record := state_files (sd_state s) !! path in
          if is_some_and (λ r, plaintext_hash_of r == hash) record then (w, Ok s)
          else if is_none record && (0 <? quota)%N && starts_with (u "reference/") path
                  && (quota <? sd_used s + (N.of_nat (length bytes) + 32))%N
          then (w, Ok (mkSending (sd_state s) (sd_uploaded s) (sd_skipped s) (sd_held_back s ++ [path]) (sd_used s)))
          else match upload_file key path (from_option version 0%N record) bytes hash w with
          | (w, Err e) => (w, Err e)
          | (w, Ok record) =>
              (w, Ok (mkSending (set_record path record (sd_state s)) (S (sd_uploaded s)) (sd_skipped s) (sd_held_back s)
                 (sd_used s + (N.of_nat (length bytes) + 32))%N))
          end
      end
  end.

Fixpoint send_paths (key : list N) (images_dir : str) (quota : N) (files : Files) (paths : list str) (s : Sending) (w : Wire)
  : Wire * result Sending JobError :=
  match paths with
  | [] => (w, Ok s)
  | path :: paths =>
      match send_path key images_dir quota files path s w with
      | (w, Ok s) => send_paths key images_dir quota files paths s w
      | (w, Err e) => (w, Err e)
      end
  end.

Definition drop_record (path : str) (version : N) (s : LocalState) : LocalState :=
  mkLocalState (N.max (cursor s) version) (acked_through_seq s) (delete path (state_files s)).

Definition tombstone_path (path : str) (s : LocalState) (w : Wire) : Wire * result LocalState JobError :=
  match state_files s !! path with
  | None => (w, Ok s)
  | Some record =>
      let '(w, attempt) := call (tombstone path (version record)) w in
      let '(w, attempt) := match attempt with
        | Err e =>
            match stale_version (version record) e with
            | Some current => call (tombstone path current) w
            | None => (w, attempt)
            end
        | Ok _ => (w, attempt)
        end in
      match attempt with
      | Ok version => (w, Ok (drop_record path version s))
      | Err e => if has_code (u "not_found") e then (w, Ok (drop_record path (version record) s)) else (w, Err (Job_Api e))
      end
  end.

Fixpoint tombstone_paths (paths : list str) (s : LocalState) (w : Wire) : Wire * result LocalState JobError :=
  match paths with
  | [] => (w, Ok s)
  | path :: paths =>
      match tombstone_path path s w with
      | (w, Ok s) => tombstone_paths paths s w
      | (w, Err e) => (w, Err e)
      end
  end.

(** ** Fetching the phone's queue *)

(** The loop over the pages, [fuel] of them. *)
Fixpoint fetch_pages (fuel : nat) (after : N) (writes : list WriteRow) (srv : Srv) : option (Srv * result (list WriteRow) ApiError) :=
  match fuel with
  | 0 => None
  | S fuel =>
      match writes_after after srv with
      | (srv, Err e) => Some (srv, Err e)
      | (srv, Ok (page, has_more)) =>
          match last page with
          | None => Some (srv, Ok writes)
          | Some row =>
              if has_more then fetch_pages fuel (row_seq row) (writes ++ page) srv
              else Some (srv, Ok (writes ++ page))
          end
      end
  end.

Definition seq_cmp (a b : WriteRow) : comparison := (row_seq a ?= row_seq b)%N.

Definition fetch_writes (fuel : nat) (after : N) (srv : Srv) : option (Srv * result (list WriteRow) ApiError) :=
  '(srv, fetched) ← fetch_pages fuel after [] srv;
  Some (srv, match fetched with Ok writes => Ok (sort_by seq_cmp writes) | Err e => Err e end).
End sending.

(** ** One pass of the worker *)

Record Job := mkJob { catch_up : bool; drain : bool; dirty : PathSet; removed : PathSet }.

Definition Job_default : Job := mkJob false false [] [].

Definition no_paths (paths : PathSet) : bool := match paths with [] => true | _ => false end.

Definition Job_is_empty (job : Job) : bool := negb (catch_up job) && negb (drain job) && no_paths (dirty job) && no_paths (removed job).
Definition is_poll (job : Job) : bool := drain job && negb (catch_up job) && no_paths (dirty job) && no_paths (removed job).

Record JobOutcome := mkJobOutcome {
  jo_state : LocalState;
  jo_info : option VaultInfo;
  jo_applied : nat;
  jo_uploaded : nat;
  jo_skipped : list SkippedFile;
  jo_held_back : list str;
  jo_refused : list str;
  jo_blocked : option ApplyFailure
}.

(** What a pass works on, fixed while it runs: the session's key, the vault and its clock, the vault's folders, and
    what other programs and the person make of the files before each of its parts. *)
Record JobEnv `{Clock} := mkJobEnv {
  je_key : list N;
  je_vault : Vault;
  je_images_dir : str;
  je_now : NaiveTime;
  root_listed : bool;
  root_entries : list (str * Tree);
  others : nat → Files → Files;
  page_fuel : nat
}.

(** The files, the server, what was drawn, the state file, and how many restore points were asked for. *)
Record World (Srv : Type) := mkWorld {
  w_files : Files;
  w_srv : Srv;
  w_draws : nat;
  w_saved : option LocalState;
  w_checkpoints : nat
}.
Arguments mkWorld {Srv} _ _ _ _ _.
Arguments w_files {Srv} _.
Arguments w_srv {Srv} _.
Arguments w_draws {Srv} _.
Arguments w_saved {Srv} _.
Arguments w_checkpoints {Srv} _.

Section job.
Context {Srv : Type} `{!SyncServer Srv}.
Context `{Clock} `{!ChronoDays} `{UnicodeTables} `{Digest} `{Normalization} `{JsonReader} `{Aead} `{Base64}.
Context `{FsFaults} `{RenameFaults}.
Context (draw : nat → str * list N).

Definition set_files (files : Files) (w : World Srv) : World Srv := mkWorld files (w_srv w) (w_draws w) (w_saved w) (w_checkpoints w).
Definition set_srv (srv : Srv) (w : World Srv) : World Srv := mkWorld (w_files w) srv (w_draws w) (w_saved w) (w_checkpoints w).
Definition set_wire (wire : Srv * nat) (w : World Srv) : World Srv := mkWorld (w_files w) wire.1 wire.2 (w_saved w) (w_checkpoints w).

(** What the first part adds to the job; [None] when the fuel of the scan runs out. *)
Definition catch_up_part (env : JobEnv) (job : Job) (state : LocalState) (w : World Srv)
  : option (World Srv * (PathSet * PathSet * list SkippedFile)) :=
  let w := set_files (others env 0 (w_files w)) w in
  if catch_up job then
    scan ← scan_vault (root_listed env) (root_entries env) (state_files state) (je_images_dir env) (w_files w);
    Some (w, (path_append (dirty job) (scan_changed scan), path_append (removed job) (scan_removed scan), scan_skipped scan))
  else Some (w, (dirty job, removed job, [])).

(** The phone's queue, applied; [None] when the fuel of the pages runs out. *)
Definition drain_part (env : JobEnv) (job : Job) (state : LocalState) (w : World Srv)
  : option (World Srv * result Drained ApiError) :=
  let w := set_files (others env 1 (w_files w)) w in
  if drain job then
    '(srv, fetched) ← fetch_writes (page_fuel env) (acked_through_seq state) (w_srv w);
    let w := set_srv srv w in
    Some match fetched with
    | Err e => (w, Err e)
    | Ok [] => (w, Ok nothing_drained)
    | Ok rows =>
        let '(files, d) := apply_rows (je_key env) (je_images_dir env) (je_vault env) (je_now env) rows (w_files w) nothing_drained in
        (mkWorld files (w_srv w) (w_draws w) (w_saved w) (S (w_checkpoints w)), Ok d)
    end
  else Some (w, Ok nothing_drained).

Definition upload_part (env : JobEnv) (dirty removed : PathSet) (skipped : list SkippedFile) (info : option VaultInfo)
    (state : LocalState) (w : World Srv) : World Srv * result Sending JobError :=
  let w := set_files (others env 2 (w_files w)) w in
  let '(quota, used) := from_option (λ info, (quota_bytes info, used_bytes info)) (0%N, 0%N) info in
  match send_paths draw (je_key env) (je_images_dir env) quota (w_files w) dirty.*1 (mkSending state 0 skipped [] used)
          (w_srv w, w_draws w) with
  | (wire, Err e) => (set_wire wire w, Err e)
  | (wire, Ok s) =>
      match tombstone_paths removed.*1 (sd_state s) wire with
      | (wire, Err e) => (set_wire wire w, Err e)
      | (wire, Ok state) => (set_wire wire w, Ok (mkSending state (sd_uploaded s) (sd_skipped s) (sd_held_back s) (sd_used s)))
      end
  end.

Definition acked (through_seq at_version : N) (s : LocalState) : LocalState :=
  mkLocalState (N.max (cursor s) at_version) through_seq (state_files s).

Definition finish_part (last_seq : option N) (state : LocalState) (w : World Srv) : World Srv * result (LocalState * VaultInfo) ApiError :=
  let ack_writes (w : World Srv) := match last_seq with
    | None => (w, Ok state)
    | Some seq =>
        match ack seq (w_srv w) with
        | (srv, Ok (through_seq, at_version)) => (set_srv srv w, Ok (acked through_seq at_version state))
        | (srv, Err e) => (set_srv srv w, Err e)
        end
    end in
  match ack_writes w with
  | (w, Err e) => (w, Err e)
  | (w, Ok state) =>
      match vault_summary (w_srv w) with
      | (srv, Ok info) => (set_srv srv w, Ok (state, info))
      | (srv, Err e) => (set_srv srv w, Err e)
      end
  end.

Definition save_state (state : LocalState) (w : World Srv) : World Srv * result unit FsError :=
  match fs_create_dir STATE_DIR with
  | Err e => (w, Err e)
  | Ok _ =>
      match atomic_write_fault STATE_FILE with
      | Some e => (w, Err e)
      | None => (mkWorld (w_files w) (w_srv w) (w_draws w) (Some state) (w_checkpoints w), Ok tt)
      end
  end.

Definition run_job (env : JobEnv) (job : Job) (state : LocalState) (info : option VaultInfo) (w : World Srv)
  : option (World Srv * result JobOutcome (Job * JobError)) :=
  '(w, (to_send, to_remove, skipped)) ← catch_up_part env job state w;
  '(w, drained) ← drain_part env job state w;
  Some match drained with
  | Err e => (w, Err (job, Job_Api e))
  | Ok d =>
      match upload_part env (path_append to_send (dr_changed d)) (path_append to_remove (dr_vacated d)) skipped info state w with
      | (w, Err e) => (w, Err (job, e))
      | (w, Ok sent) =>
          match finish_part (dr_last d) (sd_state sent) w with
          | (w, Err e) => (w, Err (job, Job_Api e))
          | (w, Ok (state', info')) =>
              let '(w, saved) := if bool_decide (state' = state) then (w, Ok tt) else save_state state' w in
              (w, match saved with
                  | Err e => Err (job, Job_Fs e)
                  | Ok _ => Ok (mkJobOutcome state' (Some info') (dr_applied d) (sd_uploaded sent) (sd_skipped sent) (sd_held_back sent)
                              (dr_refused d) (dr_blocked d))
                  end)
          end
      end
  end.
End job.

(** ** The service *)

Inductive PhoneSyncState := Hidden | Off | Starting | PhoneNotConnected | Working | UpToDate | Paused | Failing.

#[export] Instance PhoneSyncState_eq_dec : EqDecision PhoneSyncState.
Proof. solve_decision. Defined.

(** The server is reached under a credential. *)
Record Session := mkSession { ss_credential : str; ss_key : list N }.

(** [ManualSyncFinished]: what it says. *)
Inductive Toast :=
| WritesSkipped (paths : list str)
| SyncStopped
| SyncFailed
| Synced (applied uploaded : nat)
| NoPhone
| Disconnected (ok : bool)
| TurnedOff (ok : bool).

(** [vault] as its root; [start_task] and [debounce_task] while they have not ended; a session's polling goes on as long
    as [poll_task] is there. *)
Record VaultSync := mkVaultSync {
  vs_vault : option str;
  session : option Session;
  vs_state : LocalState;
  status : PhoneSyncState;
  vs_info : option VaultInfo;
  vs_skipped : list SkippedFile;
  held_back : list str;
  vs_pending : Job;
  worker_running : bool;
  retry_delay : N;
  announce_next : bool;
  start_task : option str;
  debounce_task : bool;
  poll_task : bool
}.

Definition VaultSync_new : VaultSync :=
  mkVaultSync None None LocalState_default Hidden None [] [] Job_default false RETRY_FLOOR false None false false.

Definition set_pending (job : Job) (s : VaultSync) : VaultSync :=
  mkVaultSync (vs_vault s) (session s) (vs_state s) (status s) (vs_info s) (vs_skipped s) (held_back s) job (worker_running s)
    (retry_delay s) (announce_next s) (start_task s) (debounce_task s) (poll_task s).

Definition set_status (status : PhoneSyncState) (s : VaultSync) : VaultSync :=
  mkVaultSync (vs_vault s) (session s) (vs_state s) status (vs_info s) (vs_skipped s) (held_back s) (vs_pending s) (worker_running s)
    (retry_delay s) (announce_next s) (start_task s) (debounce_task s) (poll_task s).

Definition set_worker (running announce : bool) (s : VaultSync) : VaultSync :=
  mkVaultSync (vs_vault s) (session s) (vs_state s) (status s) (vs_info s) (vs_skipped s) (held_back s) (vs_pending s) running
    (retry_delay s) announce (start_task s) (debounce_task s) (poll_task s).

Definition set_delay (delay : N) (s : VaultSync) : VaultSync :=
  mkVaultSync (vs_vault s) (session s) (vs_state s) (status s) (vs_info s) (vs_skipped s) (held_back s) (vs_pending s) (worker_running s)
    delay (announce_next s) (start_task s) (debounce_task s) (poll_task s).

Definition set_tasks (start : option str) (debouncing polling : bool) (s : VaultSync) : VaultSync :=
  mkVaultSync (vs_vault s) (session s) (vs_state s) (status s) (vs_info s) (vs_skipped s) (held_back s) (vs_pending s) (worker_running s)
    (retry_delay s) (announce_next s) start debouncing polling.

Definition set_state (state : LocalState) (info : option VaultInfo) (s : VaultSync) : VaultSync :=
  mkVaultSync (vs_vault s) (session s) state (status s) info (vs_skipped s) (held_back s) (vs_pending s) (worker_running s)
    (retry_delay s) (announce_next s) (start_task s) (debounce_task s) (poll_task s).

Definition set_report (skipped : list SkippedFile) (held : list str) (s : VaultSync) : VaultSync :=
  mkVaultSync (vs_vault s) (session s) (vs_state s) (status s) (vs_info s) skipped held (vs_pending s) (worker_running s)
    (retry_delay s) (announce_next s) (start_task s) (debounce_task s) (poll_task s).

Definition set_session (vault : option str) (session : option Session) (s : VaultSync) : VaultSync :=
  mkVaultSync vault session (vs_state s) (status s) (vs_info s) (vs_skipped s) (held_back s) (vs_pending s) (worker_running s)
    (retry_delay s) (announce_next s) (start_task s) (debounce_task s) (poll_task s).

(** [self.pending.catch_up = true] and [self.pending.drain = true]. *)
Definition ask (catch : bool) (drains : bool) (s : VaultSync) : VaultSync :=
  let p := vs_pending s in set_pending (mkJob (catch || catch_up p) (drains || drain p) (dirty p) (removed p)) s.

Definition stop_session (status : PhoneSyncState) (s : VaultSync) : VaultSync :=
  set_status status (set_pending Job_default (set_tasks None false false (set_session (vs_vault s) None s))).

(** The part of [start] before its task; without a vault nothing happens. *)
Definition start (s : VaultSync) : VaultSync :=
  match vs_vault s with
  | None => s
  | Some root => set_tasks (Some root) (debounce_task s) (poll_task s) (set_status Starting s)
  end.

(** [detected]: the root of the vault the project has, if it has one. *)
Definition reload (detected : option str) (s : VaultSync) : VaultSync :=
  match detected with
  | None => stop_session Hidden (set_session None (session s) s)
  | Some root =>
      let changed_root := vs_vault s != Some root in
      let s := set_session (Some root) (session s) s in
      if changed_root || is_none (session s) then start (stop_session Starting s) else s
  end.

(** Whether a worker is started. *)
Definition schedule_work (s : VaultSync) : VaultSync * bool :=
  if worker_running s || is_none (session s) then (s, false) else (set_worker true (announce_next s) s, true).

Definition start_session (new : Session) (s : VaultSync) : VaultSync * bool :=
  let s := set_delay RETRY_FLOOR (set_status Working (set_session (vs_vault s) (Some new) s)) in
  let '(s, spawned) := schedule_work (ask true true s) in
  (set_tasks (start_task s) (debounce_task s) true s, spawned).

(** What the task of [start] ends with: the credential, the key in the keychain and the state read from the vault. *)
Definition start_finished (credential : option str) (key : result (option (list N)) FsError) (loaded : LocalState) (s : VaultSync)
  : VaultSync * bool :=
  let s := set_tasks None (debounce_task s) (poll_task s) (set_state loaded (vs_info s) s) in
  match credential, key with
  | None, _ => (set_status Hidden s, false)
  | Some credential, Ok (Some key) => start_session (mkSession credential key) s
  | Some _, Ok None => (set_status Off s, false)
  | Some _, Err _ => (set_status Failing s, false)
  end.

Definition sync_now (s : VaultSync) : VaultSync * bool :=
  match session s with
  | None => (start s, false)
  | Some _ => schedule_work (ask true true (set_worker (worker_running s) true s))
  end.

(** [WorktreeUpdatedEntries]: the paths and whether each was removed, after [reload] where the vault's settings are
    among them. *)
Definition note_change `{Normalization} (acc : Job * bool) (change : str * bool) : Job * bool :=
  let '(p, touched) := acc in
  let '(path, gone) := change in
  if negb (is_syncable_path path) then acc
  else (if gone then mkJob (catch_up p) (drain p) (path_remove path (dirty p)) (path_insert path (removed p))
        else mkJob (catch_up p) (drain p) (path_insert path (dirty p)) (path_remove path (removed p)), true).

Definition entries_changed `{Normalization} (changes : list (str * bool)) (s : VaultSync) : VaultSync :=
  if is_none (session s) then s
  else
    let '(pending, touched) := fold_left note_change changes (vs_pending s, false) in
    let s := set_pending pending s in
    if touched then set_tasks (start_task s) true (poll_task s) s else s.

(** [VAULT_MARKER_DIR/VAULT_CONFIG_FILE] *)
Definition VAULT_CONFIG_PATH : str := u ".thock/config.toml".

Definition updated_entries `{Normalization} (detected : option str) (changes : list (str * bool)) (s : VaultSync) : VaultSync :=
  entries_changed changes (if existsb (λ change, change.1 == VAULT_CONFIG_PATH) changes then reload detected s else s).

(** The timers' ends. *)
Definition debounced (s : VaultSync) : VaultSync * bool := schedule_work (set_tasks (start_task s) false (poll_task s) s).
Definition poll (s : VaultSync) : VaultSync * bool :=
  match session s with
  | None => (set_tasks (start_task s) (debounce_task s) false s, false)
  | Some _ => schedule_work (ask false true s)
  end.

(** What the worker's loop takes: the job, whether to announce it, and what it runs with. *)
Record Taken := mkTaken {
  tk_job : Job;
  tk_announce : bool;
  tk_session : Session;
  tk_root : str;
  tk_state : LocalState;
  tk_info : option VaultInfo
}.

Definition take_work (s : VaultSync) : VaultSync * option Taken :=
  match session s with
  | None => (set_worker false (announce_next s) s, None)
  | Some live =>
      if Job_is_empty (vs_pending s) then (set_worker false (announce_next s) s, None)
      else
        let job := vs_pending s in
        let s := set_pending Job_default s in
        let announce := negb (is_poll job) && announce_next s in
        let s := if is_poll job then s else set_status Working (set_worker (worker_running s) false s) in
        match vs_vault s with
        | None => (s, None)
        | Some root => (s, Some (mkTaken job announce live root (vs_state s) (vs_info s)))
        end
  end.

Definition doubled (delay : N) : N := N.min (delay * 2) RETRY_CEILING.

Definition status_of (info : option VaultInfo) : PhoneSyncState :=
  match info with
  | Some info => if is_lapsed info then Paused else if is_none (VaultInfo_phone info) then PhoneNotConnected else UpToDate
  | None => UpToDate
  end.

Definition job_code (e : JobError) : option str := match e with Job_Api e => code <$> sync_error e | _ => None end.

(** What is announced, and how long the worker waits. *)
Definition finish_sync (outcome : result JobOutcome (Job * JobError)) (announce : bool) (s : VaultSync)
  : VaultSync * list Toast * option N :=
  match outcome with
  | Ok done =>
      let info := match jo_info done with Some info => Some info | None => vs_info s end in
      let s := set_report (jo_skipped done) (jo_held_back done) (set_state (jo_state done) info s) in
      let s := set_status (status_of info) (if is_none (jo_blocked done) then set_delay RETRY_FLOOR s else s) in
      let skipped := match jo_refused done with [] => [] | paths => [WritesSkipped paths] end in
      match jo_blocked done with
      | Some _ =>
          (set_delay (doubled (retry_delay s)) (set_status Failing (ask false true s)),
           skipped ++ (if announce then [SyncStopped] else []), Some (retry_delay s))
      | None => (s, skipped ++ (if announce then [Synced (jo_applied done) (jo_uploaded done)] else []), None)
      end
  | Err (job, e) =>
      let p := vs_pending s in
      let back := mkJob (catch_up p || catch_up job) (drain p || drain job) (path_append (dirty p) (dirty job))
        (path_append (removed p) (removed job)) in
      let delay := retry_delay s in
      let s := set_delay (doubled delay) (set_pending back s) in
      let coded c := bool_decide (job_code e = Some c) in
      if coded (u "plus_lapsed") then (set_pending Job_default (set_status Paused s), [], None)
      else if coded (u "unauthorized") || coded (u "revoked") then (stop_session Failing s, [], None)
      else if coded (u "vault_missing") then (stop_session Off s, [], None)
      else (set_status Failing s, if announce then [SyncFailed] else [], Some delay)
  end.

(** The end of [refresh_info]. *)
Definition info_fetched (info : VaultInfo) (s : VaultSync) : VaultSync * bool :=
  let was_unpaired := is_none (vs_info s ≫= VaultInfo_phone) in
  let s := set_state (vs_state s) (Some info) s in
  let paired := is_some (VaultInfo_phone info) in
  if is_lapsed info then (set_status Paused s, false)
  else if was_unpaired && paired then schedule_work (ask true true (set_status Working s))
  else if (status s == PhoneNotConnected) && paired then (set_status UpToDate s, false)
  else (s, false).

(** The end of [begin_pairing], once the server has a vault for the key. *)
Definition paired_with (new : Session) (s : VaultSync) : VaultSync * bool :=
  match session s with
  | None => start_session new s
  | Some _ => schedule_work (ask true false s)
  end.

(** [disconnect_phone] before its call: what it says at once, or the device it revokes. *)
Definition disconnect_phone (s : VaultSync) : list Toast * option str :=
  match session s, vs_info s ≫= VaultInfo_phone with
  | None, _ => ([], None)
  | Some _, None => ([NoPhone], None)
  | Some _, Some phone => ([], Some (device_id phone))
  end.

(** The end of [disconnect_phone]. *)
Definition phone_revoked (ok : bool) (s : VaultSync) : VaultSync * list Toast :=
  if ok then
    (set_status PhoneNotConnected
       (set_state (vs_state s)
          ((λ info, mkVaultInfo (vi_status info) (quota_bytes info) (used_bytes info) (filter (λ d, role d ≠ u "phone") (devices info))
             (lapsed_at info)) <$> vs_info s) s), [Disconnected true])
  else (s, [Disconnected false]).

(** [turn_off] up to its calls; the state file is removed after them. *)
Definition turn_off (s : VaultSync) : VaultSync :=
  match session s, vs_vault s with
  | Some _, Some _ => set_state LocalState_default None (stop_session Off s)
  | _, _ => s
  end.

(** ** The service and its worker

    A pairing awaits the server, and may end when the vault is gone: [begin_pairing] starts its session all the same. *)

Inductive Worker := NoWorker | Taking | Running (taken : Taken) | Waiting (delay : N).

Definition woken (spawned : bool) (w : Worker) : Worker := if spawned then Taking else w.

Inductive sync_step `{Normalization} : VaultSync * Worker → VaultSync * Worker → Prop :=
| sync_reload detected s w : sync_step (s, w) (reload detected s, w)
| sync_started credential key loaded s w :
    start_task s ≠ None →
    sync_step (s, w) ((start_finished credential key loaded s).1, woken (start_finished credential key loaded s).2 w)
| sync_asked s w : sync_step (s, w) ((sync_now s).1, woken (sync_now s).2 w)
| sync_entries detected changes s w : sync_step (s, w) (updated_entries detected changes s, w)
| sync_debounced s w : debounce_task s = true → sync_step (s, w) ((debounced s).1, woken (debounced s).2 w)
| sync_polled s w : poll_task s = true → sync_step (s, w) ((poll s).1, woken (poll s).2 w)
| sync_info info s w : sync_step (s, w) ((info_fetched info s).1, woken (info_fetched info s).2 w)
| sync_paired new s w : sync_step (s, w) ((paired_with new s).1, woken (paired_with new s).2 w)
| sync_revoked ok s w : sync_step (s, w) ((phone_revoked ok s).1, w)
| sync_off s w : sync_step (s, w) (turn_off s, w)
| sync_take s s' taken : take_work s = (s', Some taken) → sync_step (s, Taking) (s', Running taken)
| sync_stop s s' : take_work s = (s', None) → sync_step (s, Taking) (s', NoWorker)
| sync_finish taken outcome s :
    match outcome with Err (job, _) => job = tk_job taken | Ok _ => True end →
    sync_step (s, Running taken)
      ((finish_sync outcome (tk_announce taken) s).1.1, from_option Waiting Taking (finish_sync outcome (tk_announce taken) s).2)
| sync_waited delay s : sync_step (s, Waiting delay) (s, Taking).
