(* ===== verification/VaultSyncTheory.v ===== *)
(** * What the sync of the vault guarantees ([thock/src/vault_sync.rs])

    A write of the phone touches its own file only and takes nothing from a
    note or a picture; the phone's queue is handled in order and acknowledged
    only as far as it was; a scan tombstones only what is gone; what is sent
    can be read by the phone. *)

From stdpp Require Import gmap sorting.
From S2P Require Import Prelude Strings External Ordering Utf8 Write Lines LineHash Sections Apply Insertion Changes Append Dates.
From S2P Require Import Paths Envelope VaultFs Notes VaultSync.

Section writes.
Context `{Clock} `{!ChronoDays} `{UnicodeTables} `{Digest} `{Normalization} `{JsonReader} `{Aead} `{Base64}.
Context `{FsFaults} `{RenameFaults}.
Implicit Types (files : Files) (path : str).

(** ** Files *)

Lemma is_file_lookup path files : is_file path files = true → is_Some (files !! path).
Proof. unfold is_file. destruct (metadata_fault path); [done|]. apply bool_decide_eq_true. Qed.

Lemma load_bytes_Ok path files bytes : load_bytes path files = Ok bytes → files !! path = Some bytes.
Proof. unfold load_bytes, failing. destruct (load_fault path); [done|]. destruct (files !! path); congruence. Qed.

Lemma existing_text_Some path files text :
  existing_text path files = Ok (Some text) → files !! path = Some (as_bytes text).
Proof.
  unfold existing_text. destruct (is_file path files); [|done].
  destruct (load_bytes path files) as [bytes|] eqn:E; [|done]. destruct (from_utf8 bytes) as [t|] eqn:Eu; [|done].
  intros [= ->]. apply load_bytes_Ok in E. by rewrite E, (from_utf8_exact _ _ Eu).
Qed.

Lemma existing_text_None path files : existing_text path files = Ok None → is_file path files = false.
Proof.
  unfold existing_text. destruct (is_file path files); [|done].
  destruct (load_bytes path files) as [bytes|]; [|done]. by destruct (from_utf8 bytes).
Qed.

(** ** What one write does *)

Lemma open_write_Ok key row images_dir write :
  open_write key row images_dir = Ok write →
  Write_path write = row_path row ∧ Write_client_id write = row_client_id row ∧
  (is_syncable_path (row_path row) = true ∨ is_syncable_image_path (row_path row) images_dir = true).
Proof.
  unfold open_write. destruct (base64_decode _) as [envelope|]; [|done]. destruct (open _ _ _) as [plaintext|]; [|done].
  destruct (from_utf8 plaintext) as [json|]; [|done]. destruct (parse_write json) as [w|e]; [|by destruct (needs_newer_reader e)].
  destruct (_ || _) eqn:Er; [done|]. destruct (negb _ && _) eqn:Es; [done|]. intros [= ->].
  apply orb_false_iff in Er as [Hp Hc]. apply negb_false_iff, bool_decide_eq_true in Hp, Hc. rewrite <- Hp. split_and!; [done..|].
  destruct (is_syncable_path (Write_path write)); [by left|]. right. cbn in Es. by apply negb_false_iff in Es.
Qed.

(** What a write of a note leaves in its file, and what it reports. *)
Lemma apply_opened_write_spec vault now write existing files files' r :
  apply_opened_write vault now write existing files = (files', r) →
  files' = files ∧ (∀ p, r ≠ Ok (Some p)) ∨
  ∃ seed, let applied := apply existing write seed in
    files' = <[Write_path write := as_bytes (applied_text applied)]> files ∧ r = Ok (Some (Write_path write)) ∧
    applied_outcome applied ≠ Noop.
Proof.
  unfold apply_opened_write. set (seed := if is_none existing && _ then template_seed _ _ _ _ else None). destruct (_ || _) eqn:En; [intros [= <- <-]; by left|].
  apply orb_false_iff in En as [En _]. apply bool_decide_eq_false in En.
  destruct (fs_create_dir _); [|intros [= <- <-]; by left]. unfold atomic_write_bytes.
  destruct (atomic_write_fault _); intros [= <- <-]; [by left|]. right. by exists seed.
Qed.

(** Where a write lands: its own path, or for a move one of the archive. *)
Definition lands (write : Write) (path : str) : Prop :=
  path = Write_path write ∨
  ∃ to, Write_operation write = MoveFile to ∧ path = to ∧
    is_syncable_path to = true ∧ ∃ folder, folder ∈ PHONE_MOVE_DESTINATIONS ∧ starts_with folder to = true.

Lemma apply_move_file_spec write to files files' r :
  Write_operation write = MoveFile to →
  apply_move_file write to files = (files', r) →
  files' = files ∧ (∀ done, r = Ok done → done = AppliedWrite_default) ∨
  ∃ bytes, lands write to ∧ files !! Write_path write = Some bytes ∧ files !! to = None ∧
    files' = <[to := bytes]> (delete (Write_path write) files) ∧ r = Ok (mkAppliedWrite (Some to) (Some (Write_path write))).
Proof.
  intros Hop. unfold apply_move_file. destruct (_ || _) eqn:Ed; [intros [= <- <-]; by left|].
  apply orb_false_iff in Ed as [Es Ef]. apply negb_false_iff in Es, Ef. apply existsb_exists in Ef as (folder & Hin & Hf).
  unfold move_note, rename_file. destruct (is_file (Write_path write) files); [|intros [= <- <-]; left; split; [done|by intros ? [= <-]]].
  cbn [negb]. destruct (is_file to files); [intros [= <- <-]; left; split; [done|by intros ? [= <-]]|].
  destruct (rename_fault _ _); [intros [= <- <-]; by left|].
  destruct (files !! Write_path write) as [bytes|] eqn:Ew; [|intros [= <- <-]; by left].
  destruct (files !! to) eqn:Et; [intros [= <- <-]; by left|]. intros [= <- <-]. right. exists bytes.
  split_and!; try done. right. exists to. split_and!; try done. exists folder. split; [by apply list_elem_of_In|done].
Qed.

Lemma apply_put_file_spec images_dir write content hash files files' r :
  apply_put_file images_dir write content hash files = (files', r) →
  files' = files ∧ (∀ done, r = Ok done → done = AppliedWrite_default) ∨
  ∃ bytes, is_file (Write_path write) files = false ∧ is_syncable_image_path (Write_path write) images_dir = true ∧
    base64_decode (trim content) = Some bytes ∧ plaintext_hash bytes = hash ∧ (N.of_nat (length bytes) <= MAX_FILE_BYTES)%N ∧
    (files' = <[Write_path write := bytes]> files ∧ r = Ok (mkAppliedWrite (Some (Write_path write)) None) ∨
     ∃ e n, files' = <[Write_path write := take n bytes]> files ∧ r = Err (Vault_ e)).
Proof.
  unfold apply_put_file. destruct (is_syncable_image_path _ _) eqn:Ei; [|intros [= <- <-]; by left]. cbn [negb].
  destruct (base64_decode _) as [bytes|] eqn:Eb; [|intros [= <- <-]; by left].
  destruct (N.ltb_spec MAX_FILE_BYTES (N.of_nat (length bytes))) as [?|Hlen]; [intros [= <- <-]; by left|].
  case_bool_decide as Hh; cbn [negb]; [|intros [= <- <-]; by left].
  destruct (is_file _ files) eqn:Ef.
  { destruct (load_bytes _ files); intros [= <- <-]; left; split; try done. by intros ? [= <-]. }
  destruct (fs_create_dir _); [|intros [= <- <-]; by left]. unfold write_bytes.
  destruct (write_fault _) as [[e n]|]; intros [= <- <-]; right; exists bytes; split_and!; try done; [right; by exists e, n|by left].
Qed.

(** A path whose file can be reached: its bytes are what the desk sees. *)
Definition reachable_file (path : str) : Prop := metadata_fault path = None.

(** What a write of a note keeps of the bytes that were there. *)
Definition note_kept (write : Write) (bytes bytes' : list N) : Prop :=
  bytes' = bytes ∨ ∃ text seed, let applied := apply (Some text) write seed in
    bytes = as_bytes text ∧ bytes' = as_bytes (applied_text applied) ∧
    (adds (Write_operation write) ∨ applied_outcome applied = KeptBoth → text `sublist_of` applied_text applied).

Definition note_write (vault : Vault) (now : NaiveTime) (write : Write) files : Files * result AppliedWrite ApplyFailure :=
  match existing_text (Write_path write) files with
  | Err e => (files, Err e)
  | Ok existing =>
      match apply_opened_write vault now write existing files with
      | (files, Err e) => (files, Err (Vault_ e))
      | (files, Ok changed) => (files, Ok (mkAppliedWrite changed None))
      end
  end.

Lemma note_write_cases vault now write files files' r :
  note_write vault now write files = (files', r) →
  (∀ path, files' !! path ≠ files !! path → path = Write_path write) ∧
  (∀ bytes, files !! Write_path write = Some bytes → reachable_file (Write_path write) →
    ∃ bytes', files' = <[Write_path write := bytes']> files ∧ note_kept write bytes bytes') ∧
  (match r with Err (Refused _) | Err (Unsupported _) => files' = files | _ => True end).
Proof.
  unfold note_write. destruct (existing_text _ files) as [existing|e] eqn:Et.
  2:{ intros [= <- <-]. split_and!; [done| |by destruct e]. intros bytes Hb _. exists bytes. rewrite insert_id by done. split; [done|by left]. }
  destruct (apply_opened_write vault now write existing files) as [files1 r1] eqn:Ea. intros Hr.
  assert (files1 = files') as -> by (by destruct r1; injection Hr as -> _).
  assert (match r with Err (Refused _) | Err (Unsupported _) => files' = files | _ => True end) as Hlast
    by (destruct r1; injection Hr as <-; done).
  apply apply_opened_write_spec in Ea as [[-> _]|(seed & -> & _ & _)].
  { split_and!; [done| |done]. intros bytes Hb _. exists bytes. rewrite insert_id by done. split; [done|by left]. }
  split_and!; [|intros bytes Hb Hreach|done].
  - intros path Hne. destruct (decide (path = Write_path write)); [done|]. by rewrite lookup_insert_ne in Hne by done.
  - eexists. split; [done|]. destruct existing as [text|].
    + right. exists text, seed. cbn zeta. apply existing_text_Some in Et. split_and!; [congruence|done|].
      intros Hk. apply nothing_lost_lemma. tauto.
    + apply existing_text_None in Et. unfold is_file in Et. rewrite Hreach, Hb in Et. by rewrite bool_decide_eq_true_2 in Et by eauto.
Qed.

(** A write that is refused, or held for a newer desk, changes nothing. *)
Lemma refused_changes_nothing key images_dir vault now row files files' failure :
  apply_write key images_dir vault now row files = (files', Err failure) →
  match failure with Vault_ _ => True | _ => files' = files end.
Proof.
  unfold apply_write. destruct (open_write key row images_dir) as [write|e]; [|intros [= <- <-]; by destruct e].
  assert ((∃ content hash, Write_operation write = PutFile content hash) ∨ (∃ to, Write_operation write = MoveFile to) ∨
    (match Write_operation write with PutFile _ _ | MoveFile _ => False | _ => True end)) as [(content & hash & Hop)|[(to & Hop)|Hop]]
    by (destruct (Write_operation write); eauto); intros Happ.
  - rewrite Hop in Happ. apply apply_put_file_spec in Happ as [[-> _]|(bytes & _ & _ & _ & _ & _ & [[_ ?]|(e & n & _ & [= ->])])]; [by destruct failure|done|done].
  - rewrite Hop in Happ. apply (apply_move_file_spec _ _ _ _ _ Hop) in Happ as [[-> _]|(bytes & _ & _ & _ & _ & ?)]; [by destruct failure|done].
  - assert (note_write vault now write files = (files', Err failure)) as Hn by (unfold note_write; by destruct (Write_operation write)).
    apply note_write_cases in Hn as (_ & _ & Hc3). by destruct failure.
Qed.

(** C7: a write of the phone does only what it says. Whatever the envelope holds, it changes at most the file at its
    own path, or moves that file to a free path of the archive, which keeps every byte of it. Of a file that is there
    and whose metadata can be read: a picture leaves it as it is, a move keeps its bytes, and a write of a note keeps
    every character of it under a create or an append, or when both versions are kept. (When its metadata cannot be read
    the desk takes the file for missing, and a picture or a note from the phone replaces it.) A write that is refused,
    or held for a newer desk, changes nothing. *)
Theorem phone_writes_do_what_they_say key images_dir vault now row files files' r :
  apply_write key images_dir vault now row files = (files', r) →
  (∀ write, open_write key row images_dir = Ok write → ∀ path, files' !! path ≠ files !! path → lands write path) ∧
  (∀ write, open_write key row images_dir = Ok write → ∀ bytes, files !! row_path row = Some bytes → reachable_file (row_path row) →
    match Write_operation write with
    | PutFile _ _ => files' = files
    | MoveFile to => files' = files ∨ files !! to = None ∧ files' = <[to := bytes]> (delete (row_path row) files)
    | _ => ∃ bytes', files' = <[row_path row := bytes']> files ∧ note_kept write bytes bytes'
    end) ∧
  (match r with Err (Refused _) | Err (Unsupported _) => files' = files | _ => True end).
Proof.
  unfold apply_write. destruct (open_write key row images_dir) as [write|e] eqn:Eo; [|intros [= <- <-]; split_and!; [done..|by destruct e]].
  destruct (open_write_Ok _ _ _ _ Eo) as (Hpath & _ & _). intros Happ.
  assert ((∃ content hash, Write_operation write = PutFile content hash) ∨ (∃ to, Write_operation write = MoveFile to) ∨
    (match Write_operation write with PutFile _ _ | MoveFile _ => False | _ => True end)) as [(content & hash & Hop)|[(to & Hop)|Hop]]
    by (destruct (Write_operation write); eauto).
  - rewrite Hop in Happ. apply apply_put_file_spec in Happ as [[-> _]|(bytes & Hf & _ & _ & _ & _ & Hw)].
    { split_and!; [done| |by destruct r as [|[]]]. intros w [= <-] bytes Hb _. by rewrite Hop. }
    split_and!.
    + intros w [= <-] path Hne. left. destruct Hw as [[-> _]|(e & n & -> & _)]; destruct (decide (path = Write_path write)); try done;
        by rewrite lookup_insert_ne in Hne by done.
    + intros w [= <-] b Hb Hr. exfalso. rewrite <- Hpath in Hb, Hr. unfold is_file in Hf. rewrite Hr, Hb in Hf. by rewrite bool_decide_eq_true_2 in Hf by eauto.
    + destruct Hw as [[_ ->]|(e & n & _ & ->)]; done.
  - rewrite Hop in Happ. apply apply_move_file_spec in Happ as [[-> _]|(bytes & Hl & Hw & Hto & -> & ->)]; [| |done].
    { split_and!; [done| |by destruct r as [|[]]]. intros w [= <-] bytes Hb _. rewrite Hop. by left. }
    split_and!; [| |done].
    + intros w [= <-] path Hne. destruct (decide (path = to)) as [->|Hn]; [done|]. rewrite lookup_insert_ne in Hne by done.
      left. destruct (decide (path = Write_path write)); [done|]. by rewrite lookup_delete_ne in Hne.
    + intros w [= <-] b Hb _. rewrite Hop. right. rewrite <- Hpath in *. split; [done|]. congruence.
  - assert (note_write vault now write files = (files', r)) as Hn by (unfold note_write; by destruct (Write_operation write)).
    apply note_write_cases in Hn as (Hc1 & Hc2 & Hc3). split_and!; [| |done].
    + intros w [= <-] path Hne. left. by apply Hc1.
    + intros w [= <-] bytes Hb Hr. rewrite <- Hpath in *. destruct (Hc2 _ Hb Hr) as (bytes' & -> & Hk).
      destruct (Write_operation write); by eauto.
Qed.

(** ** A write that comes again *)

(** The writes a second delivery cannot do again: pictures, moves, and appends of text that is settled. *)
Definition settled_write (write : Write) (existing : option str) : Prop :=
  match Write_operation write with
  | PutFile _ _ | MoveFile _ => True
  | Append heading lines _ _ _ None =>
      (∀ seed, fences_closed (base_document existing (Write_operation write) seed) ∧
         no_stray_cr (base_document existing (Write_operation write) seed) ∧ Forall usv (applied_text (apply existing write seed))) ∧
      settled lines ∧ (∀ h, heading = Some h → clean_heading h)
  | _ => False
  end.

Lemma append_creates write seed heading lines placement blank template after :
  Write_operation write = Append heading lines placement blank template after →
  applied_outcome (apply None write seed) = Apply.Created.
Proof.
  intros Hop. unfold apply. rewrite Hop. cbn [is_file_level].
  destruct (apply_operation _ (Some Apply.Created) _) as [a|d o a] eqn:E.
  - cbn [apply_operation] in E. unfold apply_append in E. by destruct (locate _ _ _) as [[? ?] ?].
  - by apply apply_operation_outcome in E as [-> | [? _]].
Qed.

Lemma opened_write_again vault now now' write existing files files' r :
  existing_text (Write_path write) files = Ok existing →
  apply_opened_write vault now write existing files = (files', Ok r) →
  metadata_fault (Write_path write) = None → load_fault (Write_path write) = None →
  match Write_operation write with Append _ _ _ _ _ _ => True | _ => False end →
  settled_write write existing →
  note_write vault now' write files' = (files', Ok AppliedWrite_default).
Proof.
  intros Het Ha Hm Hl Hkind Hs. unfold settled_write in Hs.
  destruct (Write_operation write) as [|heading lines placement blank template [after|]| | | | | | |] eqn:Hop; try done.
  destruct Hs as (Hbase & Hset & Hh). apply apply_opened_write_spec in Ha as Hcases. destruct Hcases as [[-> Hr]|(seed & -> & _ & _)].
  - destruct existing as [text|].
    + unfold note_write. rewrite Het. by unfold apply_opened_write in *; cbn [is_none andb] in *;
        destruct (_ || _); [|destruct (fs_create_dir _); [|done]; unfold atomic_write_bytes in Ha; destruct (atomic_write_fault _); [done|];
          injection Ha as _ <-; by destruct (Hr (Write_path write))].
    + exfalso. revert Ha. unfold apply_opened_write. rewrite (append_creates _ _ _ _ _ _ _ _ Hop).
      rewrite !bool_decide_eq_false_2 by done. cbn [orb]. destruct (fs_create_dir _); [|done]. unfold atomic_write_bytes.
      destruct (atomic_write_fault _); [done|]. intros [= _ <-]. by destruct (Hr (Write_path write)).
  - destruct (Hbase seed) as (Hf & Hcr & Husv). rewrite <- Hop in Hf, Hcr.
    destruct (append_twice existing write seed heading lines placement blank template Hop Hf Hcr Hset Hh) as [_ Htwice].
    set (once := applied_text (apply existing write seed)) in *. unfold note_write, existing_text, is_file, load_bytes, failing.
    rewrite Hm, Hl, lookup_insert_eq, bool_decide_eq_true_2 by eauto. rewrite from_utf8_as_bytes by done. unfold apply_opened_write.
    assert (∀ other, apply (Some once) write other = mkApplied once Noop) as Hsame by (intros other; exact Htwice).
    by rewrite Hsame.
Qed.

(** A write that comes again changes nothing. When a pass fails after the phone's writes were applied they are all
    fetched again; a picture, a move, and an append of settled text, once applied, leave the files as they are, whenever
    they come again. *)
Theorem redelivered_write_changes_nothing key images_dir vault now now' row write files files' done :
  open_write key row images_dir = Ok write →
  metadata_fault (Write_path write) = None → load_fault (Write_path write) = None →
  (∀ existing, existing_text (Write_path write) files = Ok existing → settled_write write existing) →
  apply_write key images_dir vault now row files = (files', Ok done) →
  apply_write key images_dir vault now' row files' = (files', Ok AppliedWrite_default).
Proof.
  intros Ho Hm Hl Hs. unfold apply_write. rewrite Ho. clear Ho.
  destruct (Write_operation write) as [|heading lines placement blank template after| | | | | |content hash|to] eqn:Hop; intros Ha.
  8:{ apply apply_put_file_spec in Ha as Hc. destruct Hc as [[-> Hd]|(bytes & _ & Hi & Hb & Hh & Hlen & [[-> _]|(e & n & _ & ?)])]; [|clear Ha|done].
      { by rewrite Ha, (Hd done). }
      unfold apply_put_file, is_file, load_bytes, failing. rewrite Hi, Hb, Hm, Hl, lookup_insert_eq. cbn [negb].
      by rewrite (proj2 (N.ltb_ge _ _) Hlen), bool_decide_eq_true_2, bool_decide_eq_true_2 by (done || by eexists). }
  8:{ apply (apply_move_file_spec _ _ _ _ _ Hop) in Ha as Hc. destruct Hc as [[-> Hd]|(bytes & Hlands & Hf & Ht & -> & _)].
      { by rewrite Ha, (Hd done). }
      assert (Write_path write ≠ to) as Hne by (intros E; rewrite E in Hf; congruence).
      unfold apply_move_file in *. destruct (_ || _); [done|]. unfold move_note, is_file. rewrite Hm.
      rewrite lookup_insert_ne, lookup_delete_eq by done. by rewrite bool_decide_eq_false_2 by (by intros [? ?]). }
  all: destruct (existing_text (Write_path write) files) as [existing|e] eqn:Et; [|done]; specialize (Hs _ eq_refl); unfold settled_write in Hs; rewrite Hop in Hs; try done.
  destruct (apply_opened_write vault now write existing files) as [files1 [r|e]] eqn:Eo; [|done]. injection Ha as -> _.
  assert (note_write vault now' write files' = (files', Ok AppliedWrite_default)) as Hn; [|exact Hn].
  eapply opened_write_again; [exact Et|exact Eo|done|done|by rewrite Hop|]. unfold settled_write. by rewrite Hop.
Qed.

(** ** The queue *)

(** Rows that were all handled, one after the other: applied, or refused for good. *)
Inductive handled_all (key : list N) (images_dir : str) (vault : Vault) (now : NaiveTime)
  : list WriteRow → Files → Files → list str → Prop :=
| handled_none files : handled_all key images_dir vault now [] files files []
| handled_applied row rows files files1 files2 done refused :
    apply_write key images_dir vault now row files = (files1, Ok done) →
    handled_all key images_dir vault now rows files1 files2 refused →
    handled_all key images_dir vault now (row :: rows) files files2 refused
| handled_refused row rows files files1 reason refused :
    apply_write key images_dir vault now row files = (files, Err (Refused reason)) →
    handled_all key images_dir vault now rows files files1 refused →
    handled_all key images_dir vault now (row :: rows) files files1 (row_path row :: refused).

(** A failure that stops the batch. *)
Definition blocks (failure : ApplyFailure) : Prop := match failure with Refused _ => False | _ => True end.

Lemma apply_rows_spec key images_dir vault now rows files d files' d' :
  apply_rows key images_dir vault now rows files d = (files', d') → dr_blocked d = None →
  ∃ done rest files1 refused, rows = done ++ rest ∧ handled_all key images_dir vault now done files files1 refused ∧
    dr_refused d' = dr_refused d ++ refused ∧
    dr_last d' = fold_left (λ last row, handled row last) done (dr_last d) ∧
    (rest = [] ∧ dr_blocked d' = None ∧ files' = files1 ∨
     ∃ row rest' failure, rest = row :: rest' ∧ dr_blocked d' = Some failure ∧ blocks failure ∧
       apply_write key images_dir vault now row files1 = (files', Err failure)).
Proof.
  revert files d. induction rows as [|row rows IH]; intros files d; cbn [apply_rows].
  { intros [= <- <-] Hb. exists [], [], files, []. rewrite !app_nil_r. split_and!; [done|apply handled_none|done|done|by left]. }
  destruct (apply_write key images_dir vault now row files) as [files0 [done|failure]] eqn:Ea.
  - intros Hr _. apply IH in Hr as (done' & rest & files1 & refused & -> & Hh & Href & Hlast & Hend); [|done].
    exists (row :: done'), rest, files1, refused. split_and!; [done|by eapply handled_applied|done|done|done].
  - assert (blocks failure ∨ ∃ reason, failure = Refused reason) as [Hbl|[reason ->]] by (destruct failure; [right; by eexists|by left|by left]).
    + assert (apply_rows key images_dir vault now (row :: rows) files d =
        (files0, mkDrained (dr_changed d) (dr_vacated d) (dr_applied d) (dr_last d) (dr_refused d) (Some failure))) as Heq
        by (cbn [apply_rows]; rewrite Ea; by destruct failure).
      cbn [apply_rows] in Heq. rewrite Ea in Heq. rewrite Heq. intros [= <- <-] _. exists [], (row :: rows), files, [].
      cbn [dr_refused dr_last dr_blocked fold_left app]. rewrite ?app_nil_r. split_and!; [done|apply handled_none|done|done|]. right. by exists row, rows, failure.
    + pose proof (refused_changes_nothing _ _ _ _ _ _ _ _ Ea) as ->.
      intros Hr _. apply IH in Hr as (done' & rest & files1 & refused & -> & Hh & Href & Hlast & Hend); [|done].
      exists (row :: done'), rest, files1, (row_path row :: refused). cbn [dr_refused] in Href. rewrite <- app_assoc in Href.
      split_and!; [done|by eapply handled_refused|done|done|done].
Qed.
End writes.

(** ** A pass *)

Definition by_seq (a b : WriteRow) : Prop := (row_seq a <= row_seq b)%N.

Lemma sort_by_seq rows : StronglySorted by_seq (sort_by seq_cmp rows).
Proof.
  pose proof (on_total N.compare row_seq N_compare_total) as Htot.
  assert (StronglySorted (cmp_le seq_cmp) (sort_by seq_cmp rows)) as Hs
    by (apply (sort_by_sorted seq_cmp seq_cmp); [intros x y; apply N.compare_antisym|done]).
  induction Hs as [|row l _ IH Hrow]; constructor; [done|]. eapply Forall_impl; [exact Hrow|].
  intros row' Hle. unfold by_seq, cmp_le, seq_cmp in *. apply N.compare_ngt_iff in Hle; lia.
Qed.

Section passes.
Context {Srv : Type} `{!SyncServer Srv}.
Context `{Clock} `{!ChronoDays} `{UnicodeTables} `{Digest} `{Normalization} `{JsonReader} `{Aead} `{Base64}.
Context `{FsFaults} `{RenameFaults}.
Context (draw : nat → str * list N).
Implicit Types (files : Files) (w : World Srv).

Lemma fetched_in_order fuel after (srv srv' : Srv) rows :
  fetch_writes fuel after srv = Some (srv', Ok rows) → StronglySorted by_seq rows.
Proof.
  unfold fetch_writes. destruct (fetch_pages fuel after [] srv) as [[srv1 [writes|e]]|]; [|done..]. cbn [mbind option_bind].
  intros [= _ <-]. apply sort_by_seq.
Qed.

Lemma last_handled done last m :
  fold_left (λ last row, handled row last) done last = Some m →
  Forall (λ row, (row_seq row <= m)%N) done ∧ (last = Some m ∨ ∃ row, row ∈ done ∧ row_seq row = m) ∧ (∀ l, last = Some l → (l <= m)%N).
Proof.
  revert last. induction done as [|row done IH]; intros last; cbn [fold_left].
  { intros ->. split_and!; [constructor|by left|by intros l [= ->]]. }
  intros Hm. apply IH in Hm as (Hall & Hin & Hle). unfold handled in *.
  specialize (Hle _ eq_refl). split_and!.
  - constructor; [|done]. destruct last; cbn in Hle; lia.
  - destruct Hin as [[= Hin]|(row' & ? & ?)]; [|right; exists row'; split; [by right|done]]. destruct last as [l|]; cbn in Hin.
    + destruct (N.max_spec l (row_seq row)) as [[_ E]|[_ E]]; rewrite E in Hin; [right; exists row; split; [by left|done]|by left; f_equal].
    + right. exists row. split; [by left|done].
  - intros l ->. cbn in Hle. lia.
Qed.

Lemma none_handled done last : fold_left (λ last row, handled row last) done last = None → done = [].
Proof.
  destruct done as [|row done]; [done|]. cbn [fold_left]. intros Hn. exfalso. revert Hn. unfold handled at 2. generalize (from_option (λ seq, N.max seq (row_seq row)) (row_seq row) last).
  induction done as [|row' done IH]; intros n; cbn [fold_left]; [done|]. apply IH.
Qed.

Lemma drain_part_cases env job state w w' d :
  drain_part env job state w = Some (w', Ok d) →
  drain job = false ∧ d = nothing_drained ∨
  drain job = true ∧ ∃ srv rows files' , fetch_writes (page_fuel env) (acked_through_seq state) (w_srv w) = Some (srv, Ok rows) ∧
    apply_rows (je_key env) (je_images_dir env) (je_vault env) (je_now env) rows (others env 1 (w_files w)) nothing_drained = (files', d).
Proof.
  unfold drain_part. cbn [w_srv w_files set_files]. destruct (drain job); [|intros [= _ <-]; by left].
  destruct (fetch_writes _ _ (w_srv w)) as [[srv [rows|e]]|] eqn:Ef; [|done..]. cbn [mbind option_bind].
  destruct rows as [|row rows].
  { intros [= _ <-]. right. split; [done|]. by eexists srv, [], _. }
  cbn [set_srv w_files]. destruct (apply_rows _ _ _ _ (row :: rows) _ _) as [files' d'] eqn:Ea. intros [= _ <-].
  right. split; [done|]. by exists srv, (row :: rows), files'.
Qed.

Lemma finish_part_acks last_seq state w w' state' info :
  finish_part last_seq state w = (w', Ok (state', info)) →
  match last_seq with
  | None => state' = state
  | Some seq => ∃ srv1 srv2 through at_version, ack seq srv1 = (srv2, Ok (through, at_version)) ∧ state' = acked through at_version state
  end.
Proof.
  unfold finish_part. destruct last_seq as [seq|]; [|destruct (vault_summary _) as [? [?|?]]; by intros [= _ <- _]].
  destruct (ack seq (w_srv w)) as [srv2 [[through at_version]|e]] eqn:Ea; [|done].
  destruct (vault_summary _) as [? [?|?]]; [|done]. intros [= _ <- _]. by exists (w_srv w), srv2, through, at_version.
Qed.

(** Sending leaves the acknowledged number alone. *)
Lemma send_paths_acked key images_dir quota files paths s wire wire' s' :
  send_paths draw key images_dir quota files paths s wire = (wire', Ok s') →
  acked_through_seq (sd_state s') = acked_through_seq (sd_state s).
Proof.
  revert s wire. induction paths as [|path paths IH]; intros s wire; cbn [send_paths]; [by intros [= _ ->]|].
  destruct (send_path _ _ _ _ _ path s wire) as [wire1 [s1|e]] eqn:E; [|done]. intros Hs. rewrite (IH _ _ Hs). clear IH Hs. revert E.
  unfold send_path. destruct (load_bytes path files) as [bytes|]; [|by intros [= _ <-]]. destruct (unsendable_reason _ _); [by intros [= _ <-]|].
  destruct (is_some_and _ _); [by intros [= _ <-]|]. destruct (_ && _); [by intros [= _ <-]|].
  destruct (upload_file _ _ _ _ _ _ _) as [? [record|?]]; [|done]. by intros [= _ <-].
Qed.

Lemma tombstone_paths_acked paths s (wire wire' : Srv * nat) s' :
  tombstone_paths paths s wire = (wire', Ok s') → acked_through_seq s' = acked_through_seq s.
Proof.
  revert s wire. induction paths as [|path paths IH]; intros s wire; cbn [tombstone_paths]; [by intros [= _ ->]|].
  destruct (tombstone_path path s wire) as [wire1 [s1|e]] eqn:E; [|done]. intros Hs. rewrite (IH _ _ Hs). clear IH Hs. revert E.
  unfold tombstone_path. destruct (state_files s !! path) as [record|]; [|by intros [= _ <-]].
  destruct (call _ wire) as [w1 attempt]. destruct (match attempt with Err e => _ | Ok _ => _ end) as [w2 [v|e]]; [by intros [= _ <-]|].
  destruct (has_code _ _); [by intros [= _ <-]|done].
Qed.

Lemma upload_part_acked env dirty removed skipped info state w w' sent :
  upload_part draw env dirty removed skipped info state w = (w', Ok sent) → acked_through_seq (sd_state sent) = acked_through_seq state.
Proof.
  unfold upload_part. destruct (from_option _ _ info) as [quota used].
  destruct (send_paths _ _ _ _ _ _ _ _) as [wire [s|e]] eqn:Es; [|done].
  destruct (tombstone_paths _ _ _) as [wire' [state'|e]] eqn:Et; [|done]. intros [= _ <-]. cbn [sd_state].
  rewrite (tombstone_paths_acked _ _ _ _ _ Et). by rewrite (send_paths_acked _ _ _ _ _ _ _ _ _ Es).
Qed.

(** C8: the phone may forget only what the desk has dealt with. A pass that goes through handled its rows in the order
    of their numbers: those it acknowledges, up to the last it handled, were applied or refused for good, and what was
    refused is reported; when a row could not be applied it and every later row stay in the queue, unacknowledged, and
    the pass says it was blocked; without a row handled nothing is acknowledged. A pass that fails gives its job back. *)
Theorem acknowledged_writes_were_handled env job state info w w' result_ :
  run_job draw env job state info w = Some (w', result_) → drain job = true →
  match result_ with
  | Err (job', _) => job' = job
  | Ok out =>
      ∃ srv first rest files files',
        fetch_writes (page_fuel env) (acked_through_seq state) (w_srv w) = Some (srv, Ok (first ++ rest)) ∧
        StronglySorted by_seq (first ++ rest) ∧
        handled_all (je_key env) (je_images_dir env) (je_vault env) (je_now env) first files files' (jo_refused out) ∧
        (rest = [] ↔ jo_blocked out = None) ∧
        match first with
        | [] => acked_through_seq (jo_state out) = acked_through_seq state
        | _ => ∃ seq srv1 srv2 through at_version, ack seq srv1 = (srv2, Ok (through, at_version)) ∧
            acked_through_seq (jo_state out) = through ∧ (∃ row, row ∈ first ∧ row_seq row = seq) ∧
            Forall (λ row, (row_seq row <= seq)%N) first ∧ Forall (λ row, (seq <= row_seq row)%N) rest
        end
  end.
Proof.
  unfold run_job. destruct (catch_up_part env job state w) as [[w1 [[to_send to_remove] skipped]]|] eqn:Ec; [|done]. cbn [mbind option_bind].
  destruct (drain_part env job state w1) as [[w2 [d|e]]|] eqn:Ed; [| |done]; cbn [mbind option_bind]; [|by intros [= _ <-]].
  destruct (upload_part _ _ _ _ _ _ _ _) as [w3 [sent|e]] eqn:Eu; [|by intros [= _ <-]].
  destruct (finish_part _ _ _) as [w4 [[state' info']|e]] eqn:Ef; [|by intros [= _ <-]].
  destruct (if bool_decide _ then _ else _) as [w5 [[]|e]]; [|by intros [= _ <-]]. intros [= _ <-] Hdrain.
  apply drain_part_cases in Ed as [[Hd _]|[_ (srv & rows & files' & Hfetch & Happly)]]; [by rewrite Hd in Hdrain|].
  apply apply_rows_spec in Happly as (first & rest & files1 & refused & -> & Hall & Href & Hlast & Hend); [|done].
  apply fetched_in_order in Hfetch as Hsorted. cbn in Href, Hlast.
  assert (w_srv w1 = w_srv w) as Hsrv.
  { unfold catch_up_part in Ec. destruct (catch_up job); [|by injection Ec as <-].
    destruct (scan_vault _ _ _ _ _); [|done]. by injection Ec as <-. }
  rewrite Hsrv in Hfetch. apply finish_part_acks in Ef. apply upload_part_acked in Eu.
  exists srv, first, rest, (others env 1 (w_files w1)), files1. cbn [jo_refused jo_blocked jo_state]. rewrite Href.
  split_and!; [done|done|done|by destruct Hend as [(-> & -> & _)|(row & rest' & failure & -> & -> & _)]|].
  destruct (dr_last d) as [seq|] eqn:El; symmetry in Hlast.
  - apply last_handled in Hlast as (Hle & [?|Hin] & _); [done|]. destruct Hin as (row & Hin & Hseq).
    destruct first as [|row0 first]; [by apply not_elem_of_nil in Hin|]. destruct Ef as (srv1 & srv2 & through & at_version & Hack & ->).
    exists seq, srv1, srv2, through, at_version. split_and!; [done|done|by exists row|done|].
    apply Forall_forall. intros y Hy. rewrite <- Hseq. by eapply (StronglySorted_app_1_elem_of by_seq).
  - apply none_handled in Hlast as ->. by rewrite Ef.
Qed.
End passes.

(** ** The queue is fetched to its end *)

(** What the server promises of the phone's queue: rows in the order of their numbers, no number twice, and pages that
    get on. *)
Class QueueServer (Srv : Type) `{!SyncServer Srv} := {
  queue : Srv → list WriteRow;
  queue_sorted srv : StronglySorted (λ a b, (row_seq a < row_seq b)%N) (queue srv);
  queue_page after srv srv' page has_more :
    writes_after after srv = (srv', Ok (page, has_more)) →
    queue srv' = queue srv ∧ ∃ rest, filter (λ row, (after < row_seq row)%N) (queue srv) = page ++ rest ∧
      (page = [] → rest = []) ∧ (has_more = true ↔ rest ≠ []);
}.

Section fetching.
Context {Srv : Type} `{!SyncServer Srv} `{!QueueServer Srv}.

Definition later (after : N) (rows : list WriteRow) : list WriteRow := filter (λ row, (after < row_seq row)%N) rows.

Lemma filter_sorted (P : WriteRow → Prop) `{!∀ x, Decision (P x)} (R : relation WriteRow) rows :
  StronglySorted R rows → StronglySorted R (filter P rows).
Proof. apply StronglySorted_sublist, sublist_filter. Qed.

(** After a page come the rows after its last. *)
Lemma later_page after rows page row rest :
  StronglySorted (λ a b, (row_seq a < row_seq b)%N) rows → later after rows = page ++ rest → last page = Some row →
  later (row_seq row) rows = rest.
Proof.
  intros Hs Hl Hlast. apply last_Some in Hlast as [page' ->].
  assert (later (row_seq row) rows = later (row_seq row) (later after rows)) as ->.
  { unfold later. rewrite list_filter_filter. apply list_filter_iff. intros x. split; [|tauto]. intros Hx. split; [done|].
    assert (row ∈ later after rows) as [Hrow _]%list_elem_of_filter by (rewrite Hl; set_solver). lia. }
  assert (StronglySorted (λ a b, (row_seq a < row_seq b)%N) (later after rows)) as Hsl by (by apply filter_sorted). rewrite Hl in Hsl |- *.
  unfold later. rewrite filter_app.
  rewrite (filter_all _ rest), (filter_none _ (page' ++ [row])); [done| |].
  - intros x [Hx| ->%list_elem_of_singleton]%elem_of_app; [|lia]. apply StronglySorted_app_1_l in Hsl.
    pose proof (StronglySorted_app_1_elem_of _ _ _ x row Hsl Hx ltac:(by left)). cbn in *. lia.
  - intros x Hx. apply (StronglySorted_app_1_elem_of _ _ _ row x Hsl); [set_solver|done].
Qed.

Lemma sorted_seq_inj rows x y :
  StronglySorted (λ a b, (row_seq a < row_seq b)%N) rows → x ∈ rows → y ∈ rows → row_seq x = row_seq y → x = y.
Proof.
  intros Hs Hx Hy Heq. induction Hs as [|row rows _ IH Hrow]; [by apply not_elem_of_nil in Hx|]. rewrite Forall_forall in Hrow.
  apply elem_of_cons in Hx as [->|Hx], Hy as [->|Hy]; [done|apply Hrow in Hy; cbn in Hy; lia|apply Hrow in Hx; cbn in Hx; lia|by apply IH].
Qed.

Lemma fetch_pages_ends fuel after writes (srv : Srv) :
  length (later after (queue srv)) < fuel →
  ∃ srv' fetched, fetch_pages fuel after writes srv = Some (srv', fetched) ∧
    ∀ rows, fetched = Ok rows → rows = writes ++ later after (queue srv) ∧ queue srv' = queue srv.
Proof.
  revert after writes srv. induction fuel as [|fuel IH]; intros after writes srv Hlen; [lia|]. cbn [fetch_pages].
  destruct (writes_after after srv) as [srv1 [[page has_more]|e]] eqn:Ew; [|eexists _, _; split; [done|by intros ? ?]].
  apply queue_page in Ew as (Hq & rest & Hrest & Hnil & Hmore). fold (later after (queue srv)) in Hrest.
  destruct (last page) as [row|] eqn:El.
  - destruct has_more; cycle 1.
    { eexists _, _. split; [done|]. intros rows [= <-]. split; [|done]. rewrite Hrest.
      assert (rest = []) as -> by (destruct rest as [|r rest]; [done|]; by assert (false = true) by (by apply Hmore)). by rewrite app_nil_r. }
    pose proof (later_page _ _ _ _ _ (queue_sorted srv) Hrest El) as Hl.
    destruct (IH (row_seq row) (writes ++ page) srv1) as (srv' & fetched & Hf & Hok).
    { rewrite Hq, Hl. rewrite Hrest, length_app in Hlen. destruct page; [done|]. cbn in Hlen. lia. }
    exists srv', fetched. split; [done|]. intros rows Hr. apply Hok in Hr as [-> Hq']. rewrite Hq, Hl in *. by rewrite Hrest, app_assoc.
  - apply last_None in El as ->. eexists _, _. split; [done|]. intros rows [= <-]. by rewrite Hrest, (Hnil eq_refl), app_nil_r.
Qed.

(** The desk fetches the whole queue and stops. With as many pages as there are rows, and one, the loop comes to an
    end, whatever pages the server cuts; and what it gives, unless the server fails, is exactly the rows after the
    acknowledged one, in their order. *)
Theorem queue_is_fetched_to_its_end fuel after (srv : Srv) :
  length (later after (queue srv)) < fuel →
  ∃ srv' fetched, fetch_writes fuel after srv = Some (srv', fetched) ∧
    ∀ rows, fetched = Ok rows → rows = later after (queue srv).
Proof.
  intros Hlen. unfold fetch_writes. destruct (fetch_pages_ends fuel after [] srv Hlen) as (srv' & fetched & Hf & Hok).
  rewrite Hf. cbn [mbind option_bind]. eexists _, _. split; [done|]. intros rows Hr.
  destruct fetched as [writes|e] eqn:Ew; [|done]. destruct (Hok _ eq_refl) as [Hw _]. cbn [app] in Hw. rewrite Hw in *. injection Hr as <-.
  symmetry. apply (StronglySorted_unique_strong by_seq); [|clear|apply sort_by_seq|by rewrite sort_by_Permutation].
  - intros x y Hx Hy Hxy Hyx. rewrite sort_by_Permutation in Hy. apply (sorted_seq_inj (queue srv)); [apply queue_sorted|..].
    + by apply list_elem_of_filter in Hx as [_ ?].
    + by apply list_elem_of_filter in Hy as [_ ?].
    + unfold by_seq in *. lia.
  - pose proof (filter_sorted (λ row, (after < row_seq row)%N) _ _ (queue_sorted srv)) as Hs. fold (later after (queue srv)) in Hs.
    induction Hs as [|row rows _ IH Hrow]; constructor; [done|]. eapply Forall_impl; [exact Hrow|]. intros row' Hle. unfold by_seq. cbn in Hle. lia.
Qed.
End fetching.

(** ** The scan *)

Section scans.
Context `{Digest} `{Normalization} `{FsFaults}.
Context (known : gmap str FileRecord) (images_dir : str) (files : Files).

Definition syncs (path : str) : Prop := is_syncable_path path = true ∨ is_syncable_image_path path images_dir = true.

(** A file that syncs is somewhere below a folder, by folders that are not skipped and can be listed. *)
Inductive present : str → bool → list (str * Tree) → str → N → Prop :=
| present_here folder entries name len :
    (name, TreeFile false len) ∈ entries → syncs (child_path folder name) → present folder true entries (child_path folder name) len
| present_below folder entries name listed sub path len :
    (name, TreeDir listed sub) ∈ entries → child_path folder name ∉ SKIPPED_DIRS →
    present (child_path folder name) listed sub path len → present folder true entries path len.

(** What the folders that cannot be listed cover. *)
Inductive unlistable : str → bool → list (str * Tree) → str → Prop :=
| unlistable_here folder entries : unlistable folder false entries (unlisted_prefix folder)
| unlistable_below folder entries name listed sub prefix :
    (name, TreeDir listed sub) ∈ entries → child_path folder name ∉ SKIPPED_DIRS →
    unlistable (child_path folder name) listed sub prefix → unlistable folder true entries prefix.

(** The desk has other text for the server than the server has. *)
Definition differs (path : str) (len : N) : Prop :=
  (len <= MAX_FILE_BYTES)%N ∧ ∃ bytes, load_bytes path files = Ok bytes ∧
    unsendable_reason bytes (is_syncable_image_path path images_dir) = None ∧
    ∀ record, known !! path = Some record → plaintext_hash_of record ≠ plaintext_hash bytes.

(** What the entries of one folder add. *)
Definition file_entry (folder : str) (entries : list (str * Tree)) (path : str) (len : N) : Prop :=
  ∃ name, path = child_path folder name ∧ (name, TreeFile false len) ∈ entries ∧ syncs path.
Definition folder_entry (folder : str) (entries : list (str * Tree)) (f : str * (bool * list (str * Tree))) : Prop :=
  ∃ name listed sub, f = (child_path folder name, (listed, sub)) ∧ (name, TreeDir listed sub) ∈ entries ∧
    child_path folder name ∉ SKIPPED_DIRS.

Lemma scan_entry_spec folder s entry :
  let s' := scan_entry known images_dir files folder s entry in
  (∀ f, f ∈ sc_folders s' ↔ folder_entry folder [entry] f ∨ f ∈ sc_folders s) ∧
  (∀ path, path ∈ (sc_seen s').*1 ↔ path ∈ (sc_seen s).*1 ∨ ∃ len, file_entry folder [entry] path len) ∧
  (∀ path, path ∈ (sc_changed s').*1 ↔ path ∈ (sc_changed s).*1 ∨ ∃ len, file_entry folder [entry] path len ∧ differs path len).
Proof.
  destruct entry as [name node]. unfold scan_entry. cbn [fst snd]. set (rel := child_path folder name).
  assert (∀ f, folder_entry folder [(name, node)] f ↔ ∃ listed sub, node = TreeDir listed sub ∧ f = (rel, (listed, sub)) ∧ rel ∉ SKIPPED_DIRS) as Hfol.
  { intros f. unfold folder_entry. split.
    - intros (n & listed & sub & -> & Hin%list_elem_of_singleton & Hs). injection Hin as -> <-. by exists listed, sub.
    - intros (listed & sub & -> & -> & Hs). exists name, listed, sub. split_and!; [done|by left|done]. }
  assert (∀ path len, file_entry folder [(name, node)] path len ↔ node = TreeFile false len ∧ path = rel ∧ syncs rel) as Hfile.
  { intros path len. unfold file_entry. split.
    - intros (n & -> & Hin%list_elem_of_singleton & Hs). by injection Hin as -> <-.
    - intros (-> & -> & Hs). exists name. split_and!; [done|by left|done]. }
  setoid_rewrite Hfol. setoid_rewrite Hfile. clear Hfol Hfile. destruct node as [is_symlink len|listed sub].
  2:{ case_bool_decide as Hs; cbn [sc_folders sc_seen sc_changed]; split_and!; intros x; [naive_solver..| |naive_solver|naive_solver].
      rewrite elem_of_cons. naive_solver. }
  assert (is_symlink = false ∧ syncs rel ∨ is_symlink || negb (is_syncable_image_path rel images_dir) && negb (is_syncable_path rel) = true)
    as [[-> Hsyncs]|Hno].
  { unfold syncs. destruct is_symlink, (is_syncable_path rel), (is_syncable_image_path rel images_dir); cbn; auto. }
  2:{ rewrite Hno. split_and!; intros x; [naive_solver|..].
      - split; [by left|]. intros [?|(l & [= -> _] & _ & Hsy)]; [done|]. exfalso. unfold syncs in Hsy. cbn in Hno. apply andb_true_iff in Hno as [Hi Ht].
        apply negb_true_iff in Hi, Ht. rewrite Hi, Ht in Hsy. by destruct Hsy.
      - split; [by left|]. intros [?|(l & ([= -> _] & _ & Hsy) & _)]; [done|]. exfalso. unfold syncs in Hsy. cbn in Hno. apply andb_true_iff in Hno as [Hi Ht].
        apply negb_true_iff in Hi, Ht. rewrite Hi, Ht in Hsy. by destruct Hsy. }
  assert ((negb (is_syncable_image_path rel images_dir) && negb (is_syncable_path rel)) = false) as ->.
  { unfold syncs in Hsyncs. destruct (is_syncable_path rel), (is_syncable_image_path rel images_dir); naive_solver. }
  cbn [orb]. assert (∀ s' : Scan, sc_folders s' = sc_folders s → sc_seen s' = path_insert rel (sc_seen s) →
    ((differs rel len ∧ sc_changed s' = path_insert rel (sc_changed s)) ∨ (¬ differs rel len ∧ sc_changed s' = sc_changed s)) →
    (∀ f, f ∈ sc_folders s' ↔ (∃ listed sub, TreeFile false len = TreeDir listed sub ∧ f = (rel, (listed, sub)) ∧ rel ∉ SKIPPED_DIRS) ∨ f ∈ sc_folders s) ∧
    (∀ path, path ∈ (sc_seen s').*1 ↔ path ∈ (sc_seen s).*1 ∨ ∃ l, TreeFile false len = TreeFile false l ∧ path = rel ∧ syncs rel) ∧
    (∀ path, path ∈ (sc_changed s').*1 ↔ path ∈ (sc_changed s).*1 ∨ ∃ l, (TreeFile false len = TreeFile false l ∧ path = rel ∧ syncs rel) ∧ differs path l))
    as Hgen.
  { intros s' Hf Hse Hch. rewrite Hf, Hse. split_and!; intros x; [naive_solver|rewrite path_in_insert; naive_solver|].
    destruct Hch as [[Hd ->]|[Hd ->]]; [rewrite path_in_insert|]; naive_solver. }
  destruct (N.ltb_spec MAX_FILE_BYTES len) as [Hlen|Hlen].
  { apply Hgen; [done..|]. right. split; [|done]. unfold differs. intros [? _]. lia. }
  destruct (load_bytes rel files) as [bytes|e] eqn:El.
  2:{ apply Hgen; [done..|]. right. split; [|done]. intros (_ & b & Hb & _). by rewrite El in Hb. }
  destruct (unsendable_reason bytes _) as [reason|] eqn:Er.
  { apply Hgen; [done..|]. right. split; [|done]. intros (_ & b & Hb & Hr & _). rewrite El in Hb. injection Hb as <-. by rewrite Er in Hr. }
  apply Hgen; [done..|]. cbn [sc_changed]. destruct (known !! rel) as [record|] eqn:Ek.
  - case_bool_decide as Hh.
    + right. split; [|done]. intros (_ & b & Hb & _ & Hne). rewrite El in Hb. injection Hb as <-. by apply (Hne record).
    + left. split; [|done]. split; [done|]. exists bytes. split_and!; [done|done|]. intros r. rewrite Ek. by intros [= <-].
  - left. split; [|done]. split; [done|]. exists bytes. split_and!; [done|done|]. intros r. by rewrite Ek.
Qed.

Lemma folder_entry_cons folder e entries f :
  folder_entry folder (e :: entries) f ↔ folder_entry folder [e] f ∨ folder_entry folder entries f.
Proof.
  unfold folder_entry. split.
  - intros (name & listed & sub & -> & [<-|Hin]%elem_of_cons & Hs); [left|right]; exists name, listed, sub; split_and!; try done. by left.
  - intros [(name & listed & sub & -> & <-%list_elem_of_singleton & Hs)|(name & listed & sub & -> & Hin & Hs)]; exists name, listed, sub;
      split_and!; try done; [by left|by right].
Qed.

Lemma file_entry_cons folder e entries path len :
  file_entry folder (e :: entries) path len ↔ file_entry folder [e] path len ∨ file_entry folder entries path len.
Proof.
  unfold file_entry. split.
  - intros (name & -> & [<-|Hin]%elem_of_cons & Hs); [left|right]; exists name; split_and!; try done. by left.
  - intros [(name & -> & <-%list_elem_of_singleton & Hs)|(name & -> & Hin & Hs)]; exists name; split_and!; try done; [by left|by right].
Qed.

Lemma scan_entries_spec folder entries s :
  let s' := fold_left (scan_entry known images_dir files folder) entries s in
  (∀ f, f ∈ sc_folders s' ↔ folder_entry folder entries f ∨ f ∈ sc_folders s) ∧
  (∀ path, path ∈ (sc_seen s').*1 ↔ path ∈ (sc_seen s).*1 ∨ ∃ len, file_entry folder entries path len) ∧
  (∀ path, path ∈ (sc_changed s').*1 ↔ path ∈ (sc_changed s).*1 ∨ ∃ len, file_entry folder entries path len ∧ differs path len).
Proof.
  revert s. induction entries as [|e entries IH]; intros s; cbn [fold_left].
  - assert (∀ f, ¬ folder_entry folder [] f) by (intros f (? & ? & ? & _ & ?%not_elem_of_nil & _); done).
    assert (∀ path len, ¬ file_entry folder [] path len) by (intros path len (? & _ & ?%not_elem_of_nil & _); done). split_and!; naive_solver.
  - destruct (IH (scan_entry known images_dir files folder s e)) as (Hf & Hse & Hch).
    destruct (scan_entry_spec folder s e) as (Hf1 & Hse1 & Hch1). setoid_rewrite folder_entry_cons. setoid_rewrite file_entry_cons.
    split_and!; intros x; [rewrite Hf, Hf1; tauto|rewrite Hse, Hse1; naive_solver|rewrite Hch, Hch1; naive_solver].
Qed.

Lemma present_spec folder listed entries path len :
  present folder listed entries path len ↔
  listed = true ∧ (file_entry folder entries path len ∨
    ∃ f, folder_entry folder entries f ∧ present f.1 f.2.1 f.2.2 path len).
Proof.
  split.
  - intros [? ? name l Hin Hs|? ? name listed' sub p l Hin Hs Hp]; (split; [done|]); [left; by exists name|right].
    exists (child_path folder0 name, (listed', sub)). split; [by exists name, listed', sub|done].
  - intros (-> & [(name & -> & Hin & Hs)|(f & (name & listed' & sub & -> & Hin & Hs) & Hp)]); [by apply present_here|by eapply present_below].
Qed.

Lemma unlistable_spec folder listed entries prefix :
  unlistable folder listed entries prefix ↔
  listed = false ∧ prefix = unlisted_prefix folder ∨
  listed = true ∧ ∃ f, folder_entry folder entries f ∧ unlistable f.1 f.2.1 f.2.2 prefix.
Proof.
  split.
  - intros [?|? ? name listed' sub p Hin Hs Hp]; [by left|right]. split; [done|].
    exists (child_path folder0 name, (listed', sub)). split; [by exists name, listed', sub|done].
  - intros [[-> ->]|(-> & f & (name & listed' & sub & -> & Hin & Hs) & Hp)]; [apply unlistable_here|by eapply unlistable_below].
Qed.

Lemma scan_loop_spec fuel unlisted s unlisted' s' :
  scan_loop fuel known images_dir files unlisted s = Some (unlisted', s') →
  (∀ prefix, prefix ∈ unlisted' ↔ prefix ∈ unlisted ∨ ∃ f, f ∈ sc_folders s ∧ unlistable f.1 f.2.1 f.2.2 prefix) ∧
  (∀ path, path ∈ (sc_seen s').*1 ↔ path ∈ (sc_seen s).*1 ∨ ∃ f len, f ∈ sc_folders s ∧ present f.1 f.2.1 f.2.2 path len) ∧
  (∀ path, path ∈ (sc_changed s').*1 ↔
     path ∈ (sc_changed s).*1 ∨ ∃ f len, f ∈ sc_folders s ∧ present f.1 f.2.1 f.2.2 path len ∧ differs path len).
Proof.
  revert unlisted s. induction fuel as [|fuel IH]; intros unlisted s; cbn [scan_loop];
    (destruct (sc_folders s) as [|[folder [listed entries]] folders] eqn:Ef;
      [intros [= <- <-]; split_and!; intros x; (split; [by left|]); set_solver|]); [done|].
  set (s1 := mkScan folders (sc_changed s) (sc_skipped s) (sc_seen s)). destruct listed; intros Hloop; apply IH in Hloop as (Hu & Hse & Hch).
  - destruct (scan_entries_spec folder entries s1) as (Hf1 & Hse1 & Hch1). cbn [sc_folders sc_seen sc_changed s1] in *.
    split_and!; intros x; [rewrite Hu|rewrite Hse, Hse1|rewrite Hch, Hch1]; setoid_rewrite Hf1; setoid_rewrite elem_of_cons; split.
    + intros [?|(f & [Hf|Hf] & Hx)]; [by left|right..]; [|exists f; tauto]. exists (folder, (true, entries)). split; [by left|]. apply unlistable_spec. right. eauto.
    + intros [?|(f & [->|Hf] & Hx)]; [by left| |right; exists f; tauto]. apply unlistable_spec in Hx as [[? _]|(_ & g & Hg & Hx)]; [done|]. right. exists g. tauto.
    + intros [[?|(len & Hl)]|(f & len & [Hf|Hf] & Hx)]; [by left|right..]; [| |exists f, len; tauto];
        exists (folder, (true, entries)), len; (split; [by left|]); apply present_spec; cbn; eauto.
    + intros [?|(f & len & [->|Hf] & Hx)]; [by left; left| |right; exists f, len; tauto]. apply present_spec in Hx as (_ & [Hl|(g & Hg & Hx)]); cbn in *;
        [left; right; by exists len|right; exists g, len; tauto].
    + intros [[?|(len & Hl & Hd)]|(f & len & [Hf|Hf] & Hx & Hd)]; [by left|right..]; [| |exists f, len; tauto];
        exists (folder, (true, entries)), len; (split; [by left|]); (split; [|done]); apply present_spec; cbn; eauto.
    + intros [?|(f & len & [->|Hf] & Hx & Hd)]; [by left; left| |right; exists f, len; tauto]. apply present_spec in Hx as (_ & [Hl|(g & Hg & Hx)]); cbn in *;
        [left; right; by exists len|right; exists g, len; tauto].
  - cbn [sc_folders sc_seen sc_changed s1] in *. split_and!; intros x; [rewrite Hu, elem_of_app, list_elem_of_singleton|rewrite Hse|rewrite Hch]; setoid_rewrite elem_of_cons; split.
    + intros [[?| ->]|(f & Hf & Hx)]; [by left|right..]; [|exists f; tauto]. exists (folder, (false, entries)). split; [by left|]. apply unlistable_here.
    + intros [?|(f & [->|Hf] & Hx)]; [by left; left| |right; exists f; tauto]. apply unlistable_spec in Hx as [[_ ->]|[? _]]; [by left; right|done].
    + intros [?|(f & len & Hf & Hx)]; [by left|right; exists f, len; tauto].
    + intros [?|(f & len & [->|Hf] & Hx)]; [by left| |right; exists f, len; tauto]. by apply present_spec in Hx as [? _].
    + intros [?|(f & len & Hf & Hx)]; [by left|right; exists f, len; tauto].
    + intros [?|(f & len & [->|Hf] & Hx & Hd)]; [by left| |right; exists f, len; tauto]. by apply present_spec in Hx as [? _].
Qed.

(** The folders that wait. *)
Definition waiting (s : Scan) : nat :=
  fold_right (λ (f : str * (bool * list (str * Tree))) n, tree_dirs (TreeDir f.2.1 f.2.2) + n) 0 (sc_folders s).

Lemma scan_entries_waiting folder entries s :
  waiting (fold_left (scan_entry known images_dir files folder) entries s) ≤ fold_right (λ e n, tree_dirs e.2 + n) 0 entries + waiting s.
Proof.
  revert s. induction entries as [|[name node] entries IH]; intros s; cbn [fold_left fold_right snd]; [lia|].
  etrans; [apply IH|]. enough (waiting (scan_entry known images_dir files folder s (name, node)) ≤ tree_dirs node + waiting s) by lia.
  unfold scan_entry. cbn [fst snd]. destruct node as [is_symlink len|listed sub].
  - destruct (_ || _); [lia|]. destruct (_ <? _)%N; [unfold waiting; cbn [sc_folders]; lia|]. destruct (load_bytes _ _); [|unfold waiting; cbn [sc_folders]; lia].
    destruct (unsendable_reason _ _); unfold waiting; cbn [sc_folders]; lia.
  - case_bool_decide; [lia|]. unfold waiting. cbn [sc_folders fold_right fst snd]. lia.
Qed.

Lemma tree_dirs_dir listed entries : tree_dirs (TreeDir listed entries) = S (fold_right (λ e n, tree_dirs e.2 + n) 0 entries).
Proof. done. Qed.

Lemma scan_loop_ends fuel unlisted s : waiting s ≤ fuel → is_Some (scan_loop fuel known images_dir files unlisted s).
Proof.
  revert unlisted s. induction fuel as [|fuel IH]; intros unlisted s Hw; cbn [scan_loop];
    (destruct (sc_folders s) as [|[folder [listed entries]] folders] eqn:Ef; [by eexists|]);
    unfold waiting in Hw; rewrite Ef in Hw; cbn [fold_right fst snd] in Hw; rewrite tree_dirs_dir in Hw; [lia|].
  destruct listed; apply IH; [etrans; [apply scan_entries_waiting|]|]; unfold waiting; cbn [sc_folders]; lia.
Qed.

(** Catching up sends what changed and takes away only what is gone. The walk over the vault's folders ends,
    whatever is in them. What it finds changed are the files that sync, are not too large, can be read and sent, and
    differ from what the server was sent; what it finds gone are the files the server was sent that are nowhere below
    the vault's folder and in no folder that could not be listed. *)
Theorem scan_finds_what_changed listed entries :
  ∃ result_, scan_vault listed entries known images_dir files = Some result_ ∧
    (∀ path, path ∈ (scan_changed result_).*1 ↔ ∃ len, present [] listed entries path len ∧ differs path len) ∧
    (∀ path, path ∈ (scan_removed result_).*1 ↔
       is_Some (known !! path) ∧ (∀ len, ¬ present [] listed entries path len) ∧
       ∀ prefix, unlistable [] listed entries prefix → starts_with prefix path = false).
Proof.
  unfold scan_vault. set (start := mkScan [([], (listed, entries))] [] [] []).
  destruct (scan_loop_ends (tree_dirs (TreeDir listed entries)) [] start) as [[unlisted s] Hloop]; [unfold waiting, start; cbn [sc_folders fold_right fst snd]; lia|].
  rewrite Hloop. cbn [mbind option_bind]. apply scan_loop_spec in Hloop as (Hu & Hse & Hch). cbn [sc_folders sc_seen sc_changed start] in *.
  eexists. split; [done|]. cbn [scan_changed scan_removed]. split; intros path.
  - rewrite Hch. setoid_rewrite list_elem_of_singleton. cbn. split; [|intros (len & Hp & Hd); right; by exists ([], (listed, entries)), len].
    intros [?%not_elem_of_nil|(f & len & -> & Hp & Hd)]; [done|by exists len].
  - unfold gone. rewrite path_in_fold, map_id. cbn. rewrite elem_of_nil, list_elem_of_filter, Hse.
    assert (∀ path, path ∈ (map_to_list known).*1 ↔ is_Some (known !! path)) as Hkeys.
    { intros q. rewrite list_elem_of_fmap. split; [intros ([? record] & -> & Hin%elem_of_map_to_list); by exists record|].
      intros [record Hk]. exists (q, record). split; [done|]. by apply elem_of_map_to_list. }
    rewrite Hkeys. setoid_rewrite list_elem_of_singleton in Hu. setoid_rewrite list_elem_of_singleton. split.
    + intros [?|[[Hns Hnu] Hk]]; [done|]. split_and!; [done| |].
      * intros len Hp. apply Hns. right. by exists ([], (listed, entries)), len.
      * intros prefix Hpre. rewrite existsb_false, Forall_forall in Hnu. apply Hnu, Hu. right. by exists ([], (listed, entries)).
    + intros (Hk & Hnp & Hnu). right. split; [split|done].
      * intros [?%not_elem_of_nil|(f & len & -> & Hp)]; [done|]. by apply (Hnp len).
      * apply existsb_false, Forall_forall. intros prefix Hin. apply Hu in Hin as [?%not_elem_of_nil|(f & -> & Hpre)]; [done|]. by apply Hnu.
Qed.
End scans.

(** ** Sending *)

(** What the server's API promises of the files ([specs/v34-vault-sync-api.md], section 6.3): a path has a version and a
    blob, or a version and a tombstone. Beginning and uploading change no path; a blob is stored by its ticket, and one
    that was committed to the path is not begun again. A commit of the version the server has makes the blob the file's,
    under a later version, and a second one of the same blob says so again; a version that is stale changes nothing.
    Any other failure may be an answer that was lost, of a commit that went through. *)
Class FileServer (Srv : Type) `{!SyncServer Srv} := {
  current : Srv → str → option (N * option str);
  blob : Srv → str → option (list N);
  ticket_blob : Srv → str → option str;
  begin_law path expected blob_id size hash srv srv' r :
    begin_upload path expected blob_id size hash srv = (srv', r) →
    (∀ p, current srv' p = current srv p) ∧
    ∀ ticket, r = Ok ticket → ticket_blob srv' ticket = Some blob_id ∧ ∀ v, current srv path ≠ Some (v, Some blob_id);
  put_law ticket bytes srv srv' r :
    put_blob ticket bytes srv = (srv', r) →
    (∀ p, current srv' p = current srv p) ∧ ∀ b, r = Ok tt → ticket_blob srv ticket = Some b → blob srv' b = Some bytes;
  commit_law path expected blob_id srv srv' r :
    commit path expected blob_id srv = (srv', r) →
    let committed v := (from_option fst 0 (current srv path) = expected)%N ∧ (expected < v)%N ∧
      current srv' path = Some (v, Some blob_id) ∧ blob srv' blob_id = blob srv blob_id ∧
      ∀ p, p ≠ path → current srv' p = current srv p in
    let untouched := ∀ p, current srv' p = current srv p in
    match r with
    | Ok v => committed v ∨ current srv path = Some (v, Some blob_id)
    | Err e => if is_some (stale_version expected e) then untouched else untouched ∨ ∃ v, committed v
    end;
}.

Section uploads.
Context {Srv : Type} `{!SyncServer Srv} `{!FileServer Srv}.
Context `{Digest} `{Normalization} `{AeadLaws} `{FsFaults}.
Context (draw : nat → str * list N).

(** The nonces are nonces, and the cipher takes messages of a file's size. *)
Definition draws_nonces : Prop := ∀ n, length (draw n).2 = NONCE_LEN.
Definition cipher_takes (bytes : list N) : Prop := ∀ key nonce aad, is_Some (aead_encrypt key nonce aad bytes).

(** What a path's upload leaves at the server. *)
Definition published (key : list N) (path : str) (bytes : list N) (hash : str) (srv srv' : Srv) (record : FileRecord) : Prop :=
  plaintext_hash_of record = hash ∧
  current srv' path = Some (version record, Some (fr_blob_id record)) ∧
  (from_option fst 0 (current srv path) < version record)%N ∧
  (∃ envelope, blob srv' (fr_blob_id record) = Some envelope ∧ open key (Context_File path (fr_blob_id record)) envelope = Ok bytes) ∧
  (∀ p, p ≠ path → current srv' p = current srv p).

(** What an upload may leave: the path as it was, or the bytes published; every other path as it was. *)
Definition sent_or_not (key : list N) (path : str) (bytes : list N) (hash : str) (srv srv' : Srv) (r : result FileRecord JobError) : Prop :=
  match r with
  | Ok record => published key path bytes hash srv srv' record
  | Err _ => (∀ p, current srv' p = current srv p) ∨ ∃ record, published key path bytes hash srv srv' record
  end.

Lemma published_from key path bytes hash srv srv1 srv' record :
  (∀ p, current srv1 p = current srv p) → published key path bytes hash srv1 srv' record → published key path bytes hash srv srv' record.
Proof.
  intros Hs (Hh & Hc & Hv & Hb & Ho). rewrite Hs in Hv. split_and!; [done..|]. intros p Hp. by rewrite Ho.
Qed.

Lemma sent_or_not_from key path bytes hash srv srv1 srv' r :
  (∀ p, current srv1 p = current srv p) → sent_or_not key path bytes hash srv1 srv' r → sent_or_not key path bytes hash srv srv' r.
Proof.
  intros Hs. destruct r as [record|e]; cbn [sent_or_not]; [by apply published_from|].
  intros [Hn|[record Hp]]; [left; intros p; by rewrite Hn|right; exists record; by apply (published_from _ _ _ _ _ srv1)].
Qed.

Lemma upload_attempts_spec attempts key path expected bytes hash (w w' : Srv * nat) r :
  draws_nonces → cipher_takes bytes →
  upload_attempts draw attempts key path expected bytes hash w = (w', r) → sent_or_not key path bytes hash w.1 w'.1 r.
Proof.
  intros Hn Hc. revert expected w. induction attempts as [|attempts IH]; intros expected w; cbn [upload_attempts]; [intros [= <- <-]; by left|].
  destruct (draw w.2) as [blob_id nonce] eqn:Ed. unfold call. cbn [fst snd].
  set (envelope := seal nonce key (Context_File path blob_id) bytes).
  assert (∀ (w1 : Srv * nat) e, (∀ p, current w1.1 p = current w.1 p) →
    match (if (attempts =? 1)%nat then stale_version expected e else None) with
    | Some expected => upload_attempts draw attempts key path expected bytes hash w1
    | None => (w1, Err (Job_Api e)) end = (w', r) → sent_or_not key path bytes hash w.1 w'.1 r) as Hagain.
  { intros w1 e Hw1. destruct (if (attempts =? 1)%nat then stale_version expected e else None) as [expected'|]; [|intros [= <- <-]; by left].
    intros Hr. apply IH in Hr. by apply (sent_or_not_from _ _ _ _ _ w1.1). }
  destruct (begin_upload _ _ _ _ _ _) as [srv1 [ticket|e]] eqn:Eb; apply begin_law in Eb as [Hb1 Hb2]; [|by apply Hagain].
  destruct (Hb2 ticket eq_refl) as [Ht Hfresh]. cbn [fst snd].
  destruct (put_blob _ _ srv1) as [srv2 [[]|e]] eqn:Ep; apply put_law in Ep as [Hp1 Hp2].
  2:{ intros [= <- <-]. left. intros p. cbn. by rewrite Hp1, Hb1. }
  cbn [fst snd]. destruct (commit _ _ _ srv2) as [srv3 r3] eqn:Ec. apply commit_law in Ec. cbv zeta in Ec.
  assert (∀ p, current srv2 p = current w.1 p) as Hsame by (intros p; by rewrite Hp1, Hb1).
  assert (blob srv2 blob_id = Some envelope) as Hblob by by apply (Hp2 blob_id).
  assert (open key (Context_File path blob_id) envelope = Ok bytes) as Hopen.
  { unfold envelope, seal. apply open_seal; [|apply Hc]. specialize (Hn w.2). by rewrite Ed in Hn. }
  assert (∀ v, (from_option fst 0 (current srv2 path) = expected)%N → (expected < v)%N → current srv3 path = Some (v, Some blob_id) →
    blob srv3 blob_id = blob srv2 blob_id → (∀ p, p ≠ path → current srv3 p = current srv2 p) →
    published key path bytes hash w.1 srv3 (mkFileRecord v blob_id hash)) as Hpub.
  { intros v He Hlt Hcur Hbl Ho. rewrite Hsame in He. split_and!; [done|done|by rewrite He| |intros p Hp; by rewrite Ho].
    exists envelope. cbn [fr_blob_id]. by rewrite Hbl. }
  destruct r3 as [v|e].
  - intros [= <- <-]. destruct Ec as [(He & Hlt & Hcur & Hbl & Ho)|Ec]; [by apply Hpub|]. rewrite Hsame in Ec. by destruct (Hfresh v).
  - destruct (stale_version expected e) as [expected'|] eqn:Es; cbn [is_some is_some_and] in Ec.
    + rewrite <- Es. apply Hagain. intros p. cbn. by rewrite Ec, Hsame.
    + assert ((if (attempts =? 1)%nat then (None : option N) else None) = None) as -> by by destruct (_ =? _)%nat.
      intros [= <- <-]. cbn [fst]. destruct Ec as [Ec|(v & He & Hlt & Hcur & Hbl & Ho)]; [left; intros p; by rewrite Ec|].
      right. eexists. by apply Hpub.
Qed.

(** C10: what is sent can be read. When an upload goes through, the server holds the file under a later version than
    before, as a blob that opens, with the vault's key and the file's own path, to the very bytes of the desk, and
    nothing else has changed there. One that fails, after one retry or at once, has changed nothing, or the answer to
    its commit was lost and the file is there as if it had gone through: never a file that cannot be opened. *)
Theorem sent_file_can_be_read key path expected bytes hash (w w' : Srv * nat) r :
  draws_nonces → cipher_takes bytes →
  upload_file draw key path expected bytes hash w = (w', r) →
  match r with
  | Ok record => published key path bytes hash w.1 w'.1 record
  | Err _ => (∀ p, current w'.1 p = current w.1 p) ∨ ∃ record, published key path bytes hash w.1 w'.1 record
  end.
Proof. apply upload_attempts_spec. Qed.
End uploads.

Section records.
Context {Srv : Type} `{!SyncServer Srv}.
Context `{Digest} `{Normalization} `{Aead} `{FsFaults}.
Context (draw : nat → str * list N) (key : list N) (images_dir : str) (quota : N) (files : Files).

Lemma upload_attempts_hash attempts path expected bytes hash (w w' : Srv * nat) record :
  upload_attempts draw attempts key path expected bytes hash w = (w', Ok record) → plaintext_hash_of record = hash.
Proof.
  revert expected w. induction attempts as [|attempts IH]; intros expected w; cbn [upload_attempts]; [done|].
  destruct (draw w.2) as [blob_id nonce]. destruct (call (begin_upload _ _ _ _ _) _) as [w1 [ticket|e]]; [|destruct (if (attempts =? 1)%nat then stale_version expected e else None); [apply IH|done]].
  destruct (call (put_blob _ _) w1) as [w2 [[]|e]]; [|done].
  destruct (call (commit _ _ _) w2) as [w3 [v|e]]; [by intros [= _ <-]|]. destruct (if (attempts =? 1)%nat then stale_version expected e else None); [apply IH|done].
Qed.

(** What the desk should send for a path. *)
Definition sendable (path : str) (bytes : list N) : Prop :=
  load_bytes path files = Ok bytes ∧ unsendable_reason bytes (is_syncable_image_path path images_dir) = None.

(** The server was sent the bytes of a path. *)
Definition level (s : Sending) (path : str) (bytes : list N) : Prop :=
  ∃ record, state_files (sd_state s) !! path = Some record ∧ plaintext_hash_of record = plaintext_hash bytes.

Lemma send_path_spec path s s' (w w' : Srv * nat) :
  send_path draw key images_dir quota files path s w = (w', Ok s') →
  (∀ p, p ≠ path → state_files (sd_state s') !! p = state_files (sd_state s) !! p) ∧
  sd_held_back s `prefix_of` sd_held_back s' ∧
  ∀ bytes, sendable path bytes → path ∉ sd_held_back s' → level s' path bytes.
Proof.
  unfold send_path, sendable, level. destruct (load_bytes path files) as [bytes|e] eqn:El; [|intros [= _ <-]; split_and!; [done..|]; by intros ? [? _]].
  destruct (unsendable_reason _ _) as [reason|] eqn:Er.
  { intros [= _ <-]. split_and!; [done|done|]. intros b [[= <-] Hr]. by rewrite Er in Hr. }
  destruct (state_files (sd_state s) !! path) as [old|] eqn:Eo; cbn [is_some_and from_option is_none andb].
  - case_bool_decide as Hh.
    { intros [= _ <-]. split_and!; [done|done|]. intros b [[= <-] _] _. by exists old. }
    destruct (upload_file _ _ _ _ _ _ _) as [w1 [record|e]] eqn:Eu; [|done]. intros [= _ <-]. cbn [sd_state sd_held_back].
    split_and!; [intros p Hp; by apply lookup_insert_ne|done|]. intros b [[= <-] _] _. exists record.
    split; [apply lookup_insert_eq|by eapply upload_attempts_hash].
  - destruct (_ && _).
    { intros [= _ <-]. cbn [sd_state sd_held_back]. split_and!; [done|by apply prefix_app_r|]. intros b _ Hnin. exfalso. apply Hnin, elem_of_app. right. by left. }
    destruct (upload_file _ _ _ _ _ _ _) as [w1 [record|e]] eqn:Eu; [|done]. intros [= _ <-]. cbn [sd_state sd_held_back].
    split_and!; [intros p Hp; by apply lookup_insert_ne|done|]. intros b [[= <-] _] _. exists record.
    split; [apply lookup_insert_eq|by eapply upload_attempts_hash].
Qed.

Lemma held_back_before s s' path : sd_held_back s `prefix_of` sd_held_back s' → path ∉ sd_held_back s' → path ∉ sd_held_back s.
Proof. intros [k ->] Hn Hin. apply Hn, elem_of_app. by left. Qed.

Lemma send_paths_spec paths s s' (w w' : Srv * nat) :
  send_paths draw key images_dir quota files paths s w = (w', Ok s') →
  (∀ p, p ∉ paths → state_files (sd_state s') !! p = state_files (sd_state s) !! p) ∧
  sd_held_back s `prefix_of` sd_held_back s' ∧
  ∀ path bytes, sendable path bytes → path ∉ sd_held_back s' → path ∈ paths ∨ level s path bytes → level s' path bytes.
Proof.
  revert s w. induction paths as [|path paths IH]; intros s w; cbn [send_paths].
  { intros [= _ <-]. split_and!; [done..|]. by intros ? ? _ _ [?%not_elem_of_nil|?]. }
  destruct (send_path draw key images_dir quota files path s w) as [w1 [s1|e]] eqn:E; [|done]. intros Hs.
  apply send_path_spec in E as (Ho1 & Hpre1 & Hr1). apply IH in Hs as (Ho & Hpre & Hr). split_and!.
  - intros p [Hp Hps]%not_elem_of_cons. by rewrite Ho, Ho1.
  - by etrans.
  - intros p bytes Hb Hheld Hor. apply Hr; [done..|]. pose proof (held_back_before _ _ _ Hpre Hheld) as Hheld1.
    destruct (decide (p = path)) as [->|Hne]; [right; by apply Hr1|].
    destruct Hor as [[->|Hin]%elem_of_cons|(record & Hrec & Hh)]; [done|by left|]. right. exists record. by rewrite Ho1.
Qed.

Lemma tombstone_path_spec path s s' (w w' : Srv * nat) :
  tombstone_path path s w = (w', Ok s') → state_files s' = delete path (state_files s).
Proof.
  unfold tombstone_path. destruct (state_files s !! path) as [record|] eqn:E; [|intros [= _ <-]; by rewrite delete_id].
  destruct (call _ w) as [w1 attempt]. destruct (match attempt with Err e => _ | Ok _ => _ end) as [w2 [v|e]]; [by intros [= _ <-]|].
  destruct (has_code _ _); [by intros [= _ <-]|done].
Qed.

Lemma tombstone_paths_spec paths s s' (w w' : Srv * nat) :
  tombstone_paths paths s w = (w', Ok s') →
  ∀ p, state_files s' !! p = if decide (p ∈ paths) then None else state_files s !! p.
Proof.
  revert s w. induction paths as [|path paths IH]; intros s w; cbn [tombstone_paths].
  { intros [= _ <-] p. by rewrite decide_False by apply not_elem_of_nil. }
  destruct (tombstone_path path s w) as [w1 [s1|e]] eqn:E; [|done]. apply tombstone_path_spec in E. intros Hs p.
  rewrite (IH _ _ Hs), E. destruct (decide (p ∈ paths)) as [Hp|Hp]; [by rewrite decide_True by (by right)|].
  destruct (decide (p = path)) as [->|Hne]; [rewrite lookup_delete_eq, decide_True by (by left); done|].
  rewrite lookup_delete_ne, decide_False by (done || by rewrite not_elem_of_cons). done.
Qed.
End records.

(** ** A pass that goes through *)

Section passes.
Context {Srv : Type} `{!SyncServer Srv}.
Context `{Clock} `{!ChronoDays} `{UnicodeTables} `{Digest} `{Normalization} `{JsonReader} `{Aead} `{Base64}.
Context `{FsFaults} `{RenameFaults}.
Context (draw : nat → str * list N).

Lemma upload_part_spec env dirty removed skipped info state (w w' : World Srv) sent :
  upload_part draw env dirty removed skipped info state w = (w', Ok sent) →
  let files := others env 2 (w_files w) in
  w_files w' = files ∧
  ∀ path, path ∉ removed.*1 →
    (path ∉ dirty.*1 → state_files (sd_state sent) !! path = state_files state !! path) ∧
    ∀ bytes, sendable (je_images_dir env) files path bytes → path ∉ sd_held_back sent →
      path ∈ dirty.*1 ∨ (∃ record, state_files state !! path = Some record ∧ plaintext_hash_of record = plaintext_hash bytes) →
      level sent path bytes.
Proof.
  unfold upload_part. destruct (from_option _ _ info) as [quota used]. cbn zeta.
  destruct (send_paths _ _ _ _ _ _ _ _) as [wire [s|e]] eqn:Es; [|done]. apply send_paths_spec in Es as (Ho & _ & Hr).
  destruct (tombstone_paths _ _ wire) as [wire' [state'|e]] eqn:Et; [|done]. pose proof (tombstone_paths_spec _ _ _ _ _ Et) as Hgone.
  intros [= <- <-]. unfold level. cbn [sd_state sd_held_back]. split; [done|]. intros path Hp.
  rewrite Hgone, decide_False by done. split; [intros Hd; by rewrite Ho|].
  intros bytes Hs Hheld Hor. by apply Hr.
Qed.

Lemma upload_part_removes env dirty removed skipped info state (w w' : World Srv) sent path :
  upload_part draw env dirty removed skipped info state w = (w', Ok sent) →
  path ∈ removed.*1 → state_files (sd_state sent) !! path = None.
Proof.
  unfold upload_part. destruct (from_option _ _ info) as [quota used]. cbn zeta.
  destruct (send_paths _ _ _ _ _ _ _ _) as [wire [s|e]]; [|done].
  destruct (tombstone_paths _ _ wire) as [wire' [state'|e]] eqn:Et; [|done]. pose proof (tombstone_paths_spec _ _ _ _ _ Et) as Hgone.
  intros [= <- <-] Hp. cbn [sd_state]. by rewrite Hgone, decide_True.
Qed.

Lemma finish_part_files last state (w w' : World Srv) state' info :
  finish_part last state w = (w', Ok (state', info)) → w_files w' = w_files w ∧ state_files state' = state_files state.
Proof.
  unfold finish_part. destruct last as [seq|].
  - destruct (ack seq (w_srv w)) as [srv [[through at_version]|e]]; [|done]. destruct (vault_summary _) as [srv' [i|e]]; [|done].
    by intros [= <- <- <-].
  - destruct (vault_summary _) as [srv' [i|e]]; [|done]. by intros [= <- <- <-].
Qed.

Lemma save_state_files state (w : World Srv) : w_files (save_state state w).1 = w_files w.
Proof. unfold save_state. destruct (fs_create_dir _); [|done]. by destruct (atomic_write_fault _). Qed.

Lemma path_append_nil (a : PathSet) : path_append a [] = a.
Proof. done. Qed.

(** The phone left nothing for the desk. *)
Definition queue_empty (state : LocalState) (srv : Srv) : Prop :=
  ∃ srv' more, writes_after (acked_through_seq state) srv = (srv', Ok ([], more)).

Lemma quiet_drain env job state (w : World Srv) w' r :
  (drain job = true → queue_empty state (w_srv w)) →
  drain_part env job state w = Some (w', r) → r = Ok nothing_drained ∧ w_files w' = others env 1 (w_files w).
Proof.
  unfold drain_part. destruct (drain job); [|by intros _ [= <- <-]]. intros (srv' & more & Hq); [done|].
  unfold fetch_writes. destruct (page_fuel env) as [|fuel]; [done|]. cbn [fetch_pages set_files w_srv]. rewrite Hq. cbn.
  by intros [= <- <-].
Qed.

(** C9: a pass that goes through leaves the server level with the desk. Let the pass catch up, nothing else touch the
    vault meanwhile, and the phone have no write waiting where the pass asks for them. Then the files stay as they are;
    every file of the vault that syncs, that is not too large, can be read and can be sent, that is not held back for
    lack of room and that the job does not name as removed, has the hash of its bytes in the records; and no file has a
    record that is nowhere below the vault's folder, in no folder that could not be listed and not named by the job as
    changed. *)
Theorem pass_levels_the_server env job state info (w w' : World Srv) outcome :
  (∀ n files, others env n files = files) → catch_up job = true → (drain job = true → queue_empty state (w_srv w)) →
  run_job draw env job state info w = Some (w', Ok outcome) →
  w_files w' = w_files w ∧
  (∀ path len bytes, present (je_images_dir env) [] (root_listed env) (root_entries env) path len → (len <= MAX_FILE_BYTES)%N →
     sendable (je_images_dir env) (w_files w) path bytes → path ∉ jo_held_back outcome → path ∉ (removed job).*1 →
     ∃ record, state_files (jo_state outcome) !! path = Some record ∧ plaintext_hash_of record = plaintext_hash bytes) ∧
  ∀ path, (∀ len, ¬ present (je_images_dir env) [] (root_listed env) (root_entries env) path len) →
    (∀ prefix, unlistable [] (root_listed env) (root_entries env) prefix → starts_with prefix path = false) →
    path ∉ (dirty job).*1 → state_files (jo_state outcome) !! path = None.
Proof.
  intros Hstill Hcatch Hquiet. unfold run_job, catch_up_part. rewrite Hcatch. cbn [set_files w_files]. rewrite Hstill.
  destruct (scan_finds_what_changed (state_files state) (je_images_dir env) (w_files w) (root_listed env) (root_entries env))
    as (scan & -> & Hchanged & Hgone). cbn [mbind option_bind].
  destruct (drain_part env job state _) as [[w1 drained]|] eqn:Ed; [|done]. apply quiet_drain in Ed as [-> Hf1]; [|done].
  cbn [mbind option_bind nothing_drained dr_changed dr_vacated dr_last]. rewrite Hstill in Hf1. cbn [w_files set_files] in Hf1.
  destruct (upload_part _ _ _ _ _ _ _ _) as [w2 [sent|e]] eqn:Eu; [|done]. rewrite !path_append_nil in Eu.
  pose proof (upload_part_spec _ _ _ _ _ _ _ _ _ Eu) as [Hf2 Hup]. pose proof (λ p, upload_part_removes _ _ _ _ _ _ _ _ _ p Eu) as Hdown.
  rewrite Hstill, Hf1 in Hf2, Hup.
  destruct (finish_part _ _ w2) as [w3 [[state' info']|e]] eqn:Efin; [|done]. apply finish_part_files in Efin as [Hf3 Hs3].
  destruct (if bool_decide (state' = state) then _ else _) as [w4 saved] eqn:Esave.
  assert (w_files w4 = w_files w3) as Hf4 by (case_bool_decide; [by injection Esave as <- _|by rewrite <- (save_state_files state' w3), Esave]).
  destruct saved; [|done]. intros [= <- <-]. cbn [jo_state jo_held_back]. rewrite Hs3. split; [by rewrite Hf4, Hf3|]. split.
  - intros path len bytes Hp Hlen Hs Hheld Hrem.
    assert (path ∉ (scan_removed scan).*1) as Hng by (rewrite Hgone; intros (_ & Hn & _); by apply (Hn len)).
    destruct (Hup path) as [Hsame Hlevel]; [rewrite path_in_append; tauto|]. apply Hlevel; [done..|].
    destruct (state_files state !! path) as [record|] eqn:Er.
    + destruct (decide (plaintext_hash_of record = plaintext_hash bytes)) as [|Hne]; [right; by exists record|].
      left. apply path_in_append. right. apply Hchanged. exists len. split; [done|]. split; [done|]. exists bytes. destruct Hs as [Hl Hu].
      split_and!; [done..|]. rewrite Er. by intros ? [= <-].
    + left. apply path_in_append. right. apply Hchanged. exists len. split; [done|]. split; [done|]. exists bytes. destruct Hs as [Hl Hu].
      split_and!; [done..|]. by rewrite Er.
  - intros path Hnp Hnu Hd. destruct (decide (path ∈ (path_append (removed job) (scan_removed scan)).*1)) as [Hin|Hnin]; [by apply Hdown|].
    destruct (Hup path Hnin) as [Hsame _]. rewrite Hsame.
    + destruct (state_files state !! path) eqn:Er; [|done]. exfalso. apply Hnin, path_in_append. right. apply Hgone. split_and!; [by rewrite Er|done..].
    + rewrite path_in_append, Hchanged. intros [?|(len & Hp & _)]; [done|]. by apply (Hnp len).
Qed.
End passes.

(** ** The service *)

Section service.
Context `{Normalization}.
Implicit Types (s : VaultSync) (w : Worker).

(** A worker runs exactly when the service thinks so; retries keep their bounds; a session has a vault; and what waits
    has a worker or a timer to come for it. *)
Definition service_ok (sw : VaultSync * Worker) : Prop :=
  let '(s, w) := sw in
  (worker_running s = true ↔ w ≠ NoWorker) ∧
  (RETRY_FLOOR <= retry_delay s <= RETRY_CEILING)%N ∧
  (session s ≠ None ∨ start_task s ≠ None → vs_vault s ≠ None) ∧
  (session s ≠ None → worker_running s = false → Job_is_empty (vs_pending s) = true ∨ debounce_task s = true).

Lemma schedule_work_ok s w s' spawned :
  schedule_work s = (s', spawned) →
  (worker_running s = true ↔ w ≠ NoWorker) →
  (RETRY_FLOOR <= retry_delay s <= RETRY_CEILING)%N →
  (session s ≠ None ∨ start_task s ≠ None → vs_vault s ≠ None) →
  service_ok (s', woken spawned w).
Proof.
  unfold schedule_work. intros Hs Hw Hd Hv. destruct (worker_running s) eqn:Er; cbn [orb] in Hs.
  - injection Hs as <- <-. cbn. rewrite Er. naive_solver.
  - destruct (session s) eqn:Es; cbn [is_none] in Hs; injection Hs as <- <-; cbn; rewrite ?Er, ?Es; naive_solver.
Qed.

Lemma start_session_ok new s w s' spawned :
  start_session new s = (s', spawned) →
  (worker_running s = true ↔ w ≠ NoWorker) → vs_vault s ≠ None → service_ok (s', woken spawned w).
Proof.
  unfold start_session. intros Hs Hw Hv. destruct (schedule_work _) as [s1 b] eqn:E. injection Hs as <- <-.
  apply (schedule_work_ok _ w) in E; [|done|cbn; unfold RETRY_FLOOR, RETRY_CEILING; lia|done]. exact E.
Qed.

Lemma start_ok s w : service_ok (s, w) → service_ok (start s, w).
Proof.
  unfold start. destruct (vs_vault s) as [root|] eqn:E; [|done]. intros (Hw & Hd & Hv & Hj). unfold service_ok. cbn. rewrite E. naive_solver.
Qed.

(** After [stop_session] nothing waits and no task is left. *)
Lemma stop_session_ok status s w :
  (worker_running s = true ↔ w ≠ NoWorker) → (RETRY_FLOOR <= retry_delay s <= RETRY_CEILING)%N → service_ok (stop_session status s, w).
Proof. intros Hw Hd. unfold service_ok. cbn. naive_solver. Qed.

Lemma doubled_ok delay : (RETRY_FLOOR <= delay <= RETRY_CEILING)%N → (RETRY_FLOOR <= doubled delay <= RETRY_CEILING)%N.
Proof. unfold doubled, RETRY_FLOOR, RETRY_CEILING. lia. Qed.

(** Nothing of it has changed, or only the task of [start] has ended. *)
Lemma service_ok_same s s' w :
  service_ok (s, w) → worker_running s' = worker_running s → retry_delay s' = retry_delay s → session s' = session s →
  vs_vault s' = vs_vault s → vs_pending s' = vs_pending s → debounce_task s' = debounce_task s →
  start_task s' = start_task s ∨ start_task s' = None → service_ok (s', w).
Proof.
  intros (Hw & Hd & Hv & Hj) Er Ed Es Ev Ep Eb Et. unfold service_ok. rewrite Er, Ed, Es, Ev, Ep, Eb.
  split_and!; [apply Hw..|apply Hd|apply Hd| |done]. intros [Hn|Hn]; apply Hv; [by left|]. right. by destruct Et as [<-|Et].
Qed.

Lemma start_finished_ok credential key loaded s w :
  service_ok (s, w) → start_task s ≠ None →
  service_ok ((start_finished credential key loaded s).1, woken (start_finished credential key loaded s).2 w).
Proof.
  intros Hok Ht. pose proof Hok as (Hw & Hd & Hv & Hj). unfold start_finished.
  destruct credential as [credential|], key as [[key|]|e]; try (apply (service_ok_same _ _ _ Hok); cbn; auto; fail).
  destruct (start_session _ _) as [s' spawned] eqn:E. apply (start_session_ok _ _ w) in E; [done|done|]. cbn. auto.
Qed.

Lemma untouched changes acc :
  (fold_left note_change changes acc).2 = false → acc.2 = false ∧ (fold_left note_change changes acc).1 = acc.1.
Proof.
  revert acc. induction changes as [|[path gone] changes IH]; intros [p b]; [done|]. cbn [fold_left]. intros Hf.
  destruct (IH _ Hf) as [Hb Hp]. rewrite Hp. unfold note_change in *. destruct (is_syncable_path path); done.
Qed.

Lemma entries_changed_ok changes s w : service_ok (s, w) → service_ok (entries_changed changes s, w).
Proof.
  unfold entries_changed. intros Hok. destruct (session s) as [live|] eqn:Es; cbn [is_none]; [|done].
  destruct (fold_left note_change changes _) as [pending touched] eqn:E. destruct touched.
  - destruct Hok as (Hw & Hd & Hv & Hj). unfold service_ok. cbn. split_and!; [apply Hw..|apply Hd|apply Hd|done|]. intros _ _. by right.
  - pose proof (untouched changes (vs_pending s, false)) as Hun. rewrite E in Hun. destruct (Hun eq_refl) as [_ Hp]. cbn in Hp. rewrite Hp.
    apply (service_ok_same _ _ _ Hok); cbn; auto.
Qed.

Lemma finish_sync_ok outcome announce taken s :
  service_ok (s, Running taken) →
  service_ok ((finish_sync outcome announce s).1.1, from_option Waiting Taking (finish_sync outcome announce s).2).
Proof.
  intros (Hw & Hd & Hv & Hj). assert (worker_running s = true) as Hrun by (by apply Hw).
  assert (∀ s' w', worker_running s' = true → w' ≠ NoWorker → (RETRY_FLOOR <= retry_delay s' <= RETRY_CEILING)%N →
    (session s' = session s ∧ vs_vault s' = vs_vault s ∧ start_task s' = start_task s ∨ session s' = None ∧ start_task s' = None) → service_ok (s', w')) as Hgen.
  { intros s' w' Hr Hn Hd' Hs. unfold service_ok. rewrite Hr. split; [by split|]. split; [done|]. split; [|done].
    intros Hor. destruct Hs as [(Hs & -> & Ht)|[Hs Ht]]; rewrite Hs, Ht in Hor; [by apply Hv|by destruct Hor]. }
  pose proof (doubled_ok _ Hd) as Hdd. unfold finish_sync. destruct outcome as [done_|[job e]].
  - destruct (jo_blocked done_); apply Hgen; cbn; try done; by left.
  - destruct (bool_decide _); [apply Hgen; cbn; try done; by left|].
    destruct (_ || _); [apply Hgen; cbn; try done; by right|].
    destruct (bool_decide _); apply Hgen; cbn; try done; [by right|by left].
Qed.

Lemma take_work_ok s s' taken :
  take_work s = (s', taken) → service_ok (s, Taking) → service_ok (s', from_option Running NoWorker taken).
Proof.
  unfold take_work. intros Ht Hok. pose proof Hok as (Hw & Hd & Hv & Hj). assert (worker_running s = true) as Hrun by (by apply Hw).
  destruct (session s) as [live|] eqn:Es.
  2:{ injection Ht as <- <-. unfold service_ok. cbn. rewrite Es. split; [done|]. split; [done|]. split; [|done]. intros [?|?]; [done|]. apply Hv. by right. }
  destruct (Job_is_empty (vs_pending s)) eqn:Ee.
  { injection Ht as <- <-. unfold service_ok. cbn. rewrite Es, Ee. split; [done|]. split; [done|]. split; [done|]. intros _ _. by left. }
  destruct (vs_vault s) as [root|] eqn:Ev; [|exfalso; apply Hv; [left|]; congruence].
  destruct (is_poll (vs_pending s)); cbn in Ht; rewrite Ev in Ht; injection Ht as <- <-; unfold service_ok; cbn; rewrite Hrun, Ev, Es; (split; [done|]); (split; [done|]); by split.
Qed.

Lemma reload_service_ok detected s w : service_ok (s, w) → service_ok (reload detected s, w).
Proof.
  intros Hok. pose proof Hok as (Hw & Hd & Hv & Hj). unfold reload. destruct detected as [root|]; [|by apply stop_session_ok].
  destruct (_ || _); [apply start_ok, stop_session_ok; done|]. unfold service_ok. cbn. done.
Qed.

(** A reload keeps what is pending, or ends the session. *)
Lemma reload_pending detected s : vs_pending (reload detected s) = vs_pending s ∨ session (reload detected s) = None.
Proof. unfold reload. destruct detected as [root|]; [|by right]. destruct (_ || _); [right; by unfold start; destruct (vs_vault _)|by left]. Qed.

(** A session has a vault: not so after a pairing that ended when the vault was gone. *)
Definition housed s : Prop := session s ≠ None → vs_vault s ≠ None.

Lemma start_session_session new s :
  session (start_session new s).1 ≠ None ∧ vs_vault (start_session new s).1 = vs_vault s.
Proof. unfold start_session, schedule_work. by destruct (_ || _). Qed.

Lemma sync_step_ok a b : sync_step a b → housed b.1 → service_ok a → service_ok b.
Proof.
  intros Hstep Hb Hok. destruct Hstep as [detected s w|credential key loaded s w Ht|s w|detected changes s w|s w Hdeb|s w Hp|info s w|new s w
    |ok s w|s w|s s' taken Ht|s s' Ht|taken outcome s _|delay s]; pose proof Hok as (Hw & Hd & Hv & Hj).
  - by apply reload_service_ok.
  - by apply start_finished_ok.
  - unfold sync_now. destruct (session s) eqn:Es; [|by apply start_ok].
    destruct (schedule_work _) as [s' spawned] eqn:E. apply (schedule_work_ok _ w) in E; try done. cbn. rewrite Es. exact Hv.
  - unfold updated_entries. apply entries_changed_ok. destruct (existsb _ _); [by apply reload_service_ok|done].
  - unfold debounced. destruct (schedule_work _) as [s' spawned] eqn:E. by apply (schedule_work_ok _ w) in E.
  - unfold poll. destruct (session s) eqn:Es; [|apply (service_ok_same _ _ _ Hok); cbn; auto].
    { destruct (schedule_work _) as [s' spawned] eqn:E. apply (schedule_work_ok _ w) in E; try done. cbn. rewrite Es. exact Hv. }
  - unfold info_fetched. destruct (is_lapsed info); [by apply (service_ok_same _ _ _ Hok); cbn; auto|]. destruct (_ && _).
    + destruct (schedule_work _) as [s' spawned] eqn:E. by apply (schedule_work_ok _ w) in E.
    + destruct (_ && _); apply (service_ok_same _ _ _ Hok); cbn; auto.
  - unfold paired_with. destruct (session s) eqn:Es.
    + destruct (schedule_work _) as [s' spawned] eqn:E. apply (schedule_work_ok _ w) in E; try done. cbn. rewrite Es. exact Hv.
    + assert (vs_vault s ≠ None) as Hvault.
      { unfold housed, paired_with in Hb. rewrite Es in Hb. cbn [fst] in Hb.
        destruct (start_session_session new s) as [Hs Hsv]. rewrite <- Hsv. by apply Hb. }
      destruct (start_session _ _) as [s' spawned] eqn:E. by apply (start_session_ok _ _ w) in E.
  - unfold phone_revoked. destruct ok; apply (service_ok_same _ _ _ Hok); cbn; auto.
  - unfold turn_off. destruct (session s); [|done]. destruct (vs_vault s); [|done]. apply (service_ok_same (stop_session Off s)); cbn; auto. by apply (stop_session_ok Off).
  - by apply (take_work_ok s s' (Some taken)).
  - by apply (take_work_ok s s' None).
  - by eapply finish_sync_ok.
  - unfold service_ok. split; [|done]. rewrite Hw. done.
Qed.

(** What holds in every run: a worker that runs is one the service knows of, so that it starts no other; and the retries
    keep their bounds. *)
Definition worker_ok (sw : VaultSync * Worker) : Prop :=
  (sw.2 ≠ NoWorker → worker_running sw.1 = true) ∧ (RETRY_FLOOR <= retry_delay sw.1 <= RETRY_CEILING)%N.

Lemma worker_ok_same s s' w :
  worker_ok (s, w) → worker_running s' = worker_running s → retry_delay s' = retry_delay s → worker_ok (s', w).
Proof. intros [Hw Hd] Er Ed. unfold worker_ok. cbn in *. by rewrite Er, Ed. Qed.

Lemma schedule_work_worker s w :
  worker_ok (s, w) → worker_ok ((schedule_work s).1, woken (schedule_work s).2 w).
Proof. intros [Hw Hd]. unfold schedule_work. destruct (_ || _); cbn; by split. Qed.

Lemma start_session_worker new s w :
  worker_ok (s, w) → worker_ok ((start_session new s).1, woken (start_session new s).2 w).
Proof.
  intros [Hw Hd]. unfold start_session.
  match goal with |- context [schedule_work ?t] => pose proof (schedule_work_worker t w) as Hs; destruct (schedule_work t) as [s1 b] end.
  cbn [fst snd] in *. apply (worker_ok_same s1); [|done..]. apply Hs. split; [done|]. cbn. unfold RETRY_FLOOR, RETRY_CEILING. lia.
Qed.

Lemma start_worker s w : worker_ok (s, w) → worker_ok (start s, w).
Proof. unfold start. destruct (vs_vault s); [|done]. by intros; eapply worker_ok_same. Qed.

Lemma reload_worker detected s w : worker_ok (s, w) → worker_ok (reload detected s, w).
Proof.
  intros Hok. unfold reload. destruct detected as [root|]; [|by eapply worker_ok_same].
  destruct (_ || _); [apply start_worker|]; by eapply worker_ok_same.
Qed.

Lemma entries_changed_worker changes s w : worker_ok (s, w) → worker_ok (entries_changed changes s, w).
Proof.
  intros Hok. unfold entries_changed. destruct (is_none _); [done|]. destruct (fold_left _ _ _) as [p t].
  destruct t; by eapply worker_ok_same.
Qed.

Lemma finish_sync_worker outcome announce taken s w :
  w ≠ NoWorker → worker_ok (s, Running taken) → worker_ok ((finish_sync outcome announce s).1.1, w).
Proof.
  intros Hn [Hw Hd]. cbn in Hw, Hd. pose proof (doubled_ok _ Hd) as Hdd. specialize (Hw ltac:(done)). unfold finish_sync.
  assert (RETRY_FLOOR <= RETRY_FLOOR <= RETRY_CEILING)%N as Hf by (unfold RETRY_FLOOR, RETRY_CEILING; lia).
  destruct outcome as [done_|[job e]].
  - destruct (jo_blocked done_); by split.
  - destruct (bool_decide _); [by split|]. destruct (_ || _); [by split|]. destruct (bool_decide _); by split.
Qed.

Lemma take_work_worker s s' taken :
  take_work s = (s', taken) → worker_ok (s, Taking) → worker_ok (s', from_option Running NoWorker taken).
Proof.
  intros Ht [Hw Hd]. unfold take_work in Ht. cbn in Hw, Hd. specialize (Hw ltac:(done)).
  destruct (session s); [|by injection Ht as <- <-]. destruct (Job_is_empty _); [by injection Ht as <- <-|].
  destruct (is_poll _); cbn in Ht; destruct (vs_vault s); injection Ht as <- <-; by split.
Qed.

Lemma sync_step_worker a b : sync_step a b → worker_ok a → worker_ok b.
Proof.
  intros Hstep Hok. destruct Hstep as [detected s w|credential key loaded s w Ht|s w|detected changes s w|s w Hdeb|s w Hp|info s w|new s w
    |ok s w|s w|s s' taken Ht|s s' Ht|taken outcome s _|delay s].
  - by apply reload_worker.
  - unfold start_finished. destruct credential, key as [[key|]|e]; try by eapply worker_ok_same.
    apply start_session_worker. by eapply worker_ok_same.
  - unfold sync_now. destruct (session s); [|by apply start_worker]. apply schedule_work_worker. by eapply worker_ok_same.
  - unfold updated_entries. apply entries_changed_worker. destruct (existsb _ _); [by apply reload_worker|done].
  - apply schedule_work_worker. by eapply worker_ok_same.
  - unfold poll. destruct (session s); [apply schedule_work_worker|]; by eapply worker_ok_same.
  - unfold info_fetched. destruct (is_lapsed info); [by eapply worker_ok_same|]. destruct (_ && _).
    + apply schedule_work_worker. by eapply worker_ok_same.
    + destruct (_ && _); by eapply worker_ok_same.
  - unfold paired_with. destruct (session s); [apply schedule_work_worker; by eapply worker_ok_same|by apply start_session_worker].
  - unfold phone_revoked. destruct ok; by eapply worker_ok_same.
  - unfold turn_off. destruct (session s); [|done]. destruct (vs_vault s); [|done]. by eapply worker_ok_same.
  - by apply (take_work_worker s s' (Some taken)).
  - by apply (take_work_worker s s' None).
  - apply (finish_sync_worker _ _ taken); [|done]. by destruct (finish_sync outcome (tk_announce taken) s).2.
  - destruct Hok as [Hw Hd]. split; [|done]. intros _. by apply Hw.
Qed.

(** C18: the service never forgets its work. However reloads, edits of the vault, requests, polls, pairings, passes and
    retries follow each other, a worker that runs is one the service knows of, so that no two run at once, and between
    failures it waits at least five seconds and at most ten minutes. In the runs in which no session is left without
    its vault the service takes no worker for running that is not, and as long as there is a session, whatever is
    pending has a worker that will take it or a timer that will start one. A pairing that ends when the vault is gone
    leaves a session without one, whose worker ends and is still taken for running. *)
Theorem work_is_never_forgotten sw :
  rtc sync_step (VaultSync_new, NoWorker) sw →
  (sw.2 ≠ NoWorker → worker_running sw.1 = true) ∧ (RETRY_FLOOR <= retry_delay sw.1 <= RETRY_CEILING)%N ∧
  (rtc (λ a b, sync_step a b ∧ housed b.1) (VaultSync_new, NoWorker) sw →
     (worker_running sw.1 = true → sw.2 ≠ NoWorker) ∧
     (session sw.1 ≠ None → worker_running sw.1 = false → Job_is_empty (vs_pending sw.1) = true ∨ debounce_task sw.1 = true)).
Proof.
  assert (RETRY_FLOOR <= RETRY_FLOOR <= RETRY_CEILING)%N as Hf by (unfold RETRY_FLOOR, RETRY_CEILING; lia).
  intros Hr. assert (worker_ok sw) as [Hw Hd].
  { remember (VaultSync_new, NoWorker) as start_ eqn:E. assert (worker_ok start_) as Hok by (subst; by split).
    clear E. induction Hr as [|a b c Hab _ IH]; [done|]. apply IH. by eapply sync_step_worker. }
  split_and!; [done|apply Hd|apply Hd|]. clear Hr Hw Hd. intros Hr.
  assert (service_ok sw) as Hok; [|destruct sw as [s w]; destruct Hok as (Hw & _ & _ & Hj); split; [apply Hw|exact Hj]].
  remember (VaultSync_new, NoWorker) as start_ eqn:E. assert (service_ok start_) as Hok.
  { subst. unfold service_ok. cbn. split; [done|]. split; [done|]. split; [|done]. by intros [?|?]. }
  clear E. induction Hr as [|a b c [Hab Hb] _ IH]; [done|]. apply IH. by eapply sync_step_ok.
Qed.

(** A path whose change the service has yet to send, or that the pass that runs works on. *)
Definition in_job (path : str) (job : Job) : Prop := path ∈ (dirty job).*1 ∨ path ∈ (removed job).*1.
Definition waits (path : str) (sw : VaultSync * Worker) : Prop :=
  in_job path (vs_pending sw.1) ∨ ∃ taken, sw.2 = Running taken ∧ in_job path (tk_job taken).

Lemma note_change_keeps path change acc : in_job path acc.1 → in_job path (note_change acc change).1.
Proof.
  destruct acc as [p touched], change as [path' gone]. unfold note_change, in_job. destruct (is_syncable_path path'); [|done].
  destruct (decide (path = path')) as [->|Hne].
  - intros _. destruct gone; cbn; rewrite path_in_insert; tauto.
  - intros [Hin|Hin]; destruct gone; cbn; rewrite path_in_insert; auto using path_in_remove.
Qed.

Lemma note_changes_keep path changes acc : in_job path acc.1 → in_job path (fold_left note_change changes acc).1.
Proof. revert acc. induction changes as [|change changes IH]; intros acc Hin; [done|]. by apply IH, note_change_keeps. Qed.

Lemma note_changes_note path gone changes acc :
  (path, gone) ∈ changes → is_syncable_path path = true → in_job path (fold_left note_change changes acc).1.
Proof.
  intros Hin Hs. revert acc. induction changes as [|change changes IH]; intros acc; [by apply elem_of_nil in Hin|]. cbn [fold_left].
  apply elem_of_cons in Hin as [<-|Hin]; [|by apply IH].
  apply note_changes_keep. destruct acc as [p touched]. unfold note_change, in_job. rewrite Hs. destruct gone; cbn; rewrite path_in_insert; tauto.
Qed.

Lemma entries_changed_keep path changes s : in_job path (vs_pending s) → in_job path (vs_pending (entries_changed changes s)).
Proof.
  intros Hin. unfold entries_changed. destruct (session s); [|done]. cbn [is_none].
  pose proof (note_changes_keep path changes (vs_pending s, false) Hin) as Hk.
  destruct (fold_left note_change changes _) as [p t]. cbn [fst] in *. by destruct t.
Qed.

Lemma schedule_work_pending s : vs_pending (schedule_work s).1 = vs_pending s.
Proof. unfold schedule_work. by destruct (_ || _). Qed.

(** How a change leaves the service's hands. *)
Definition sent_off (path : str) (a b : VaultSync * Worker) : Prop :=
  session b.1 = None ∨
  ∃ taken outcome, a.2 = Running taken ∧ b.1 = (finish_sync outcome (tk_announce taken) a.1).1.1 ∧
    match outcome with Ok _ => in_job path (tk_job taken) | Err (_, e) => job_code e = Some (u "plus_lapsed") end.

Lemma finish_keeps path taken outcome s :
  match outcome with Err (job, _) => job = tk_job taken | Ok _ => True end →
  waits path (s, Running taken) →
  waits path ((finish_sync outcome (tk_announce taken) s).1.1, from_option Waiting Taking (finish_sync outcome (tk_announce taken) s).2) ∨
  sent_off path (s, Running taken) ((finish_sync outcome (tk_announce taken) s).1.1, from_option Waiting Taking (finish_sync outcome (tk_announce taken) s).2).
Proof.
  intros Hjob Hw. destruct outcome as [done_|[job e]].
  - destruct Hw as [Hp|(? & [= <-] & Hp)]; [left; left|right; right; by exists taken, (Ok done_)].
    unfold finish_sync. destruct (jo_blocked done_); [destruct Hp; [by left|by right]|exact Hp].
  - subst job. assert (in_job path (vs_pending s) ∨ in_job path (tk_job taken)) as Hin by (destruct Hw as [?|(? & [= <-] & ?)]; auto).
    assert (∀ s' d, vs_pending s' = mkJob (catch_up (vs_pending s) || catch_up (tk_job taken)) (drain (vs_pending s) || drain (tk_job taken))
      (path_append (dirty (vs_pending s)) (dirty (tk_job taken))) (path_append (removed (vs_pending s)) (removed (tk_job taken))) → waits path (s', d)) as Hback.
    { intros s' d Hs. left. unfold in_job. cbn [fst]. rewrite Hs. cbn [dirty removed]. rewrite !path_in_append. unfold in_job in Hin. tauto. }
    destruct (decide (job_code e = Some (u "plus_lapsed"))) as [Hl|Hl]; [right; right; by exists taken, (Err (tk_job taken, e))|].
    unfold sent_off, finish_sync. rewrite (bool_decide_eq_false_2 _ Hl). destruct (bool_decide _ || bool_decide _); [right; by left|].
    destruct (bool_decide _); [right; by left|]. left. by apply Hback.
Qed.

(** A running pass goes on until it ends. *)
Lemma running_goes_on a b taken :
  sync_step a b → service_ok a → a.2 = Running taken →
  b.2 = Running taken ∨
  ∃ outcome, match outcome with Err (job, _) => job = tk_job taken | Ok _ => True end ∧
    b = ((finish_sync outcome (tk_announce taken) a.1).1.1, from_option Waiting Taking (finish_sync outcome (tk_announce taken) a.1).2).
Proof.
  intros Hstep Hok Ha. assert (∀ s, worker_running s = true → (schedule_work s).2 = false) as Hbusy by (intros s Hs; unfold schedule_work; by rewrite Hs).
  assert (∀ new s, worker_running s = true → (start_session new s).2 = false) as Hbusy'.
  { intros new s Hs. unfold start_session. destruct (schedule_work _) as [s' b'] eqn:E. cbn. change b' with (s', b').2. rewrite <- E. by apply Hbusy. }
  destruct Hstep; cbn [snd] in Ha; subst; try done; try (by left); destruct Hok as [[_ Hw] _]; specialize (Hw ltac:(done)); cbn [fst snd].
  - left. unfold start_finished. destruct credential, key as [[]|]; try done. by rewrite Hbusy'.
  - left. unfold sync_now. destruct (session s); [|done]. by rewrite Hbusy.
  - left. unfold debounced. by rewrite Hbusy.
  - left. unfold poll. destruct (session s); [|done]. by rewrite Hbusy.
  - left. unfold info_fetched. destruct (is_lapsed info); [done|]. destruct (_ && _); [by rewrite Hbusy|]. by destruct (_ && _).
  - left. unfold paired_with. destruct (session s); [by rewrite Hbusy|by rewrite Hbusy'].
  - right. injection Ha as ->. by exists outcome.
Qed.

Lemma start_session_pending new s : dirty (vs_pending (start_session new s).1) = dirty (vs_pending s) ∧ removed (vs_pending (start_session new s).1) = removed (vs_pending s).
Proof.
  unfold start_session. match goal with |- context [schedule_work ?t] => pose proof (schedule_work_pending t) as Hp; destruct (schedule_work t) end.
  cbn in *. by rewrite Hp.
Qed.

(** What is pending stays pending, or a pass takes it, or the session is over. *)
Lemma pending_stays path a b :
  sync_step a b → service_ok a → (∀ taken, a.2 ≠ Running taken) ∨ b.2 = a.2 → in_job path (vs_pending a.1) →
  waits path b ∨ session b.1 = None.
Proof.
  intros Hstep Hok Hnr Hin. assert (∀ s s' w', dirty (vs_pending s') = dirty (vs_pending s) → removed (vs_pending s') = removed (vs_pending s) →
    in_job path (vs_pending s) → waits path (s', w')) as Hsame.
  { intros s s' w' Ed Er Hi. left. unfold in_job. cbn [fst]. by rewrite Ed, Er. }
  destruct Hstep as [detected s w|credential key loaded s w Ht|s w|detected changes s w|s w Hb|s w Hp|info s w|new s w
    |ok s w|s w|s s' taken Ht|s s' Ht|taken outcome s _|delay s]; cbn [fst snd] in *.
  - destruct (reload_pending detected s) as [Hp|Hn]; [left; left; unfold in_job; cbn [fst]; by rewrite Hp|by right].
  - left. unfold start_finished. destruct credential, key as [[]|]; try by apply (Hsame s). apply (Hsame s); [..|done];
      match goal with |- context [start_session ?n ?t] => destruct (start_session_pending n t) as [Ed Er] end; [by rewrite Ed|by rewrite Er].
  - left. unfold sync_now. destruct (session s); [|unfold start; destruct (vs_vault s); by apply (Hsame s)].
    apply (Hsame s); [by rewrite schedule_work_pending..|done].
  - unfold updated_entries. destruct (existsb _ _); [|left; left; by apply entries_changed_keep].
    destruct (reload_pending detected s) as [Hp|Hn]; [left; left; apply entries_changed_keep; unfold in_job; by rewrite Hp|].
    right. unfold entries_changed. by rewrite Hn.
  - left. unfold debounced. apply (Hsame s); [by rewrite schedule_work_pending..|done].
  - left. unfold poll. destruct (session s); [|by apply (Hsame s)]. apply (Hsame s); [by rewrite schedule_work_pending..|done].
  - left. unfold info_fetched. destruct (is_lapsed info); [by apply (Hsame s)|]. destruct (_ && _); [apply (Hsame s); [by rewrite schedule_work_pending..|done]|].
    destruct (_ && _); by apply (Hsame s).
  - left. unfold paired_with. destruct (session s); [apply (Hsame s); [by rewrite schedule_work_pending..|done]|].
    destruct (start_session_pending new s) as [Ed Er]. by apply (Hsame s).
  - left. unfold phone_revoked. destruct ok; by apply (Hsame s).
  - unfold turn_off. destruct (session s); [|left; by apply (Hsame s)]. destruct (vs_vault s); [by right|left; by apply (Hsame s)].
  - left. right. exists taken. split; [done|]. unfold take_work in Ht. destruct (session s); [|done]. destruct (Job_is_empty _); [done|].
    destruct (is_poll _); cbn in Ht; destruct (vs_vault s); try done; by injection Ht as _ <-.
  - unfold take_work in Ht. destruct (session s) eqn:Es; [|right; injection Ht as <-; done]. exfalso.
    assert (Job_is_empty (vs_pending s) = false) as He.
    { unfold Job_is_empty. destruct Hin as [Hin|Hin]; [destruct (dirty (vs_pending s))|destruct (removed (vs_pending s))]; try (by apply elem_of_nil in Hin); cbn; by rewrite ?andb_false_r. }
    destruct Hok as (_ & _ & Hv & _). rewrite He in Ht. destruct (vs_vault s) eqn:Ev; [|apply Hv; [left|]; congruence].
    destruct (is_poll _); cbn in Ht; by rewrite Ev in Ht.
  - exfalso. destruct Hnr as [Hnr|Hs]; [by destruct (Hnr taken)|]. by destruct (finish_sync outcome (tk_announce taken) s).2.
  - left. by apply (Hsame s).
Qed.

(** C19: a change waits until it is sent. Every note the project says was written or removed, while there is a session,
    is pending, whatever else was said of it before; and from there, whatever happens, it stays pending, or in the pass
    that works on it, until a pass that works on it goes through, the session is over, or the subscription lapses.
    A pass that fails gives back every path it took. *)
Theorem changes_wait_until_sent :
  (∀ changes s w path gone, session s ≠ None → (path, gone) ∈ changes → is_syncable_path path = true →
     waits path (entries_changed changes s, w)) ∧
  ∀ a b path, service_ok a → sync_step a b → waits path a → waits path b ∨ sent_off path a b.
Proof.
  split.
  - intros changes s w path gone Hs Hin Hsync. left. unfold entries_changed. destruct (session s); [|done]. cbn [is_none].
    pose proof (note_changes_note path gone changes (vs_pending s, false) Hin Hsync) as Hk.
    destruct (fold_left note_change changes _) as [p t]. cbn [fst] in *. by destruct t.
  - intros [s w] b path Hok Hstep Hw. assert ((∀ taken, w ≠ Running taken) ∨ ∃ taken, w = Running taken) as [Hn|[taken Hr]]
      by (destruct w; eauto).
    + destruct Hw as [Hin|(taken & Ha & _)]; [|by destruct (Hn taken)].
      destruct (pending_stays path _ _ Hstep Hok (or_introl Hn) Hin) as [|Hs]; [by left|right; by left].
    + destruct (running_goes_on _ _ taken Hstep Hok Hr) as [Hb|(outcome & Ho & ->)].
      * destruct Hw as [Hin|(taken' & Ha & Hin)]; [|left; right; exists taken; split; [done|]; cbn in Ha, Hr; congruence].
        destruct (pending_stays path _ _ Hstep Hok) as [|Hs]; [right; by rewrite Hb, Hr|done|by left|right; by left].
      * cbn in Hr. subst w. by apply finish_keeps.
Qed.
End service.
