(* ===== verification/Outbox.v ===== *)
(** * The outbox of the bridge's client ([thock-bridge/offline.rs])

    Calls queued while the desk is away: a file of one line per call, drained
    in order when the desk is back. Several clients on a machine share the
    file; on unix a lock covers each read and each rewrite, never a send. Every
    operation takes what the file system did to it. *)

From stdpp Require Import relations.
From S2P Require Import Prelude Strings External.

(** ** What the file holds *)

Record OutboxEntry `{JsonValue} := mkOutboxEntry {
  entry_id : str;
  entry_at : str;
  entry_tool : str;
  entry_args : json;
  entry_harness : str;
}.

#[export] Instance OutboxEntry_eq_dec `{JsonValue} : EqDecision OutboxEntry.
Proof. solve_decision. Defined.

(** [serde_json::to_string] and [from_str] at the derived instances. *)
Class EntryJson `{JsonValue} := {
  to_json : OutboxEntry → result str str;
  from_json : str → option OutboxEntry;
}.

(** Compact JSON is one line and reads back. *)
Class EntryJsonLaws `{EntryJson} : Prop := {
  from_to_json e line : to_json e = Ok line → from_json line = Some e;
  to_json_one_line e line : to_json e = Ok line → 10%N ∉ line ∧ 13%N ∉ line;
  to_json_not_blank e line : to_json e = Ok line → trim line ≠ [];
}.

Inductive DrainFailure :=
  | Transport (reason : str)
  | Refused (reason : str).

Section outbox.
Context `{EntryJson}.

Record DrainStop := mkDrainStop { stop_entry : OutboxEntry; stop_reason : str }.

Record DrainReport := mkDrainReport {
  sent : nat;
  refused : list (OutboxEntry * str);
  stopped : option DrainStop;
}.

Definition DrainReport_default : DrainReport := mkDrainReport 0 [] None.

(** What the file system did to one operation: the lock it refused to take, a
    read it refused, a file it did not open or remove, and a write it broke off
    after some characters. *)
Record Io := mkIo {
  io_lock : option str;
  io_unreadable : bool;
  io_open : option str;
  io_torn : option (nat * str);
}.

Definition calm : Io := mkIo None false None None.

(** The file at the outbox's path; [None] when there is none. *)
Definition outbox_file : Type := option str.

Definition read_to_string (io : Io) (file : outbox_file) : option str :=
  if io_unreadable io then None else file.

(** [Outbox::entries], of what reading gave: nothing is told apart when there is
    no file and when it cannot be read. *)
Definition entries (raw : option str) : list OutboxEntry :=
  match raw with
  | None => []
  | Some raw => omap from_json (filter (λ line, trim line ≠ []) (str_lines raw))
  end.

(** A write that follows [kept] in the file. *)
Definition write_all (io : Io) (kept text : str) : outbox_file * result unit str :=
  match io_torn io with
  | Some (n, error) => (Some (kept ++ take n text), Err error)
  | None => (Some (kept ++ text), Ok tt)
  end.

(** [Outbox::push]: the file is opened, and made, before the line is. *)
Definition push (io : Io) (file : outbox_file) (entry : OutboxEntry)
  : outbox_file * result unit str :=
  match io_lock io, io_open io with
  | Some error, _ | None, Some error => (file, Err error)
  | None, None =>
      match to_json entry with
      | Ok line => write_all io (default [] file) (line ++ [10%N])
      | Err message => (Some (default [] file), Err message)
      end
  end.

(** The text [rewrite] writes. *)
Fixpoint render (queue : list OutboxEntry) : result str str :=
  match queue with
  | [] => Ok []
  | entry :: queue =>
      line ←! to_json entry;
      text ←! render queue;
      Ok (line ++ [10%N] ++ text)
  end.

(** [Outbox::rewrite]: [remove_file], or [fs::write], which empties the file it
    opened before it writes. *)
Definition rewrite_file (io : Io) (file : outbox_file) (queue : list OutboxEntry)
  : outbox_file * result unit str :=
  match queue with
  | [] => match file, io_open io with Some _, Some error => (file, Err error) | _, _ => (None, Ok tt) end
  | _ =>
      match render queue with
      | Err message => (file, Err message)
      | Ok text =>
          match io_open io with Some error => (file, Err error) | None => write_all io [] text end
      end
  end.

(** [Outbox::remove] *)
Definition remove (io : Io) (file : outbox_file) (id : str) : outbox_file * result unit str :=
  match io_lock io with
  | Some error => (file, Err error)
  | None =>
      rewrite_file io file (filter (λ entry, entry_id entry ≠ id) (entries (read_to_string io file)))
  end.

(** ** Draining *)

(** Where the loop of [Outbox::drain] stands: about to take the next entry,
    waiting for the answer to one, about to remove one, or returned. *)
Inductive phase :=
  | Picking
  | Sending (entry : OutboxEntry)
  | Removing (entry : OutboxEntry)
  | Returned.

Record drainer := mkDrainer {
  report : DrainReport;
  done_ids : list str;
  at_phase : phase;
}.

Definition drainer_start : drainer := mkDrainer DrainReport_default [] Picking.

Definition stop (r : DrainReport) (entry : OutboxEntry) (reason : str) : DrainReport :=
  mkDrainReport (sent r) (refused r) (Some (mkDrainStop entry reason)).

(** The first entry not done yet, read under the lock; or the lock refused. *)
Definition pick (io : Io) (file : outbox_file) (d : drainer) : drainer :=
  let queue := entries (read_to_string io file) in
  let r := report d in
  match io_lock io with
  | Some error =>
      mkDrainer
        (mkDrainReport (sent r) (refused r)
           ((λ entry, mkDrainStop entry (u "couldn't lock the outbox: " ++ error)) <$> head queue))
        (done_ids d) Returned
  | None =>
      match find (λ entry, negb (existsb (λ id, id == entry_id entry) (done_ids d))) queue with
      | None => mkDrainer r (done_ids d) Returned
      | Some entry => mkDrainer r (done_ids d) (Sending entry)
      end
  end.

(** The answer to [send(&entry)]. *)
Definition answered (d : drainer) (entry : OutboxEntry) (answer : result unit DrainFailure)
  : drainer :=
  let r := report d in
  match answer with
  | Ok _ =>
      mkDrainer (mkDrainReport (sent r + 1) (refused r) (stopped r))
        (done_ids d ++ [entry_id entry]) (Removing entry)
  | Err (Refused reason) =>
      mkDrainer (mkDrainReport (sent r) (refused r ++ [(entry, reason)]) (stopped r))
        (done_ids d ++ [entry_id entry]) (Removing entry)
  | Err (Transport reason) => mkDrainer (stop r entry reason) (done_ids d) Returned
  end.

(** [self.remove(&entry.id)] and what follows its error. *)
Definition remove_failed (d : drainer) (entry : OutboxEntry) (error : str) : drainer :=
  mkDrainer (stop (report d) entry (u "couldn't update the outbox: " ++ error)) (done_ids d) Returned.

Definition removed (io : Io) (file : outbox_file) (d : drainer) (entry : OutboxEntry)
  : outbox_file * drainer :=
  match remove io file (entry_id entry) with
  | (file, Ok _) => (file, mkDrainer (report d) (done_ids d) Picking)
  | (file, Err error) => (file, remove_failed d entry error)
  end.

(** The loop on a machine where nothing else runs and the file system works. *)
Fixpoint drain_loop (fuel : nat) (send : OutboxEntry → result unit DrainFailure)
    (file : outbox_file) (d : drainer) : option (outbox_file * DrainReport) :=
  match fuel with
  | 0 => None
  | S fuel =>
      let d := pick calm file d in
      match at_phase d with
      | Sending entry =>
          let d := answered d entry (send entry) in
          match at_phase d with
          | Removing entry =>
              let '(file, d) := removed calm file d entry in
              match at_phase d with
              | Picking => drain_loop fuel send file d
              | _ => Some (file, report d)
              end
          | _ => Some (file, report d)
          end
      | _ => Some (file, report d)
      end
  end.

(** Every turn but the last takes one entry out. *)
Definition drain (send : OutboxEntry → result unit DrainFailure) (file : outbox_file)
  : option (outbox_file * DrainReport) :=
  drain_loop (S (length (entries file))) send file drainer_start.

(** ** Several clients *)

(** The file, the drains running on it, and what happened: the calls queued
    and those the desk took or refused for good. *)
Record machine := mkMachine {
  file : outbox_file;
  drains : list drainer;
  queued : list OutboxEntry;
  handled : list OutboxEntry;
}.

Definition settled_by (answer : result unit DrainFailure) (entry : OutboxEntry) : list OutboxEntry :=
  match answer with Err (Transport _) => [] | _ => [entry] end.

(** What a client does in one step. *)
Inductive action := Pushing | Starting | Choosing | Hearing | Dropping.

(** One step of one client. Ids are fresh ([Uuid::new_v4]); the answer of the
    desk, the order of the steps and the failures of the file system are free. *)
Inductive machine_step (io : Io) : action → machine → machine → Prop :=
  | step_push m entry f r :
      entry_id entry ∉ map entry_id (queued m) → push io (file m) entry = (f, r) →
      machine_step io Pushing m
        (mkMachine f (drains m)
           (queued m ++ match r with Ok _ => [entry] | Err _ => [] end) (handled m))
  | step_start m :
      machine_step io Starting m
        (mkMachine (file m) (drains m ++ [drainer_start]) (queued m) (handled m))
  | step_pick m i d :
      drains m !! i = Some d → at_phase d = Picking →
      machine_step io Choosing m
        (mkMachine (file m) (<[i := pick io (file m) d]> (drains m)) (queued m) (handled m))
  | step_answer m i d entry answer :
      drains m !! i = Some d → at_phase d = Sending entry →
      machine_step io Hearing m
        (mkMachine (file m) (<[i := answered d entry answer]> (drains m)) (queued m)
           (handled m ++ settled_by answer entry))
  | step_remove m i d entry f d' :
      drains m !! i = Some d → at_phase d = Removing entry → removed io (file m) d entry = (f, d') →
      machine_step io Dropping m (mkMachine f (<[i := d']> (drains m)) (queued m) (handled m)).

(** The failures that spare the calls: no write is broken off once it began, and
    no read that a removal makes is refused. Any lock, open or other read may. *)
Definition sparing (io : Io) (a : action) : Prop :=
  io_torn io = None ∧ (a = Dropping → io_unreadable io = false).

Definition spared_step (m m' : machine) : Prop :=
  ∃ io a, sparing io a ∧ machine_step io a m m'.

Definition machine_start : machine := mkMachine None [] [] [].

Definition reachable (m : machine) : Prop := rtc spared_step machine_start m.
End outbox.
