(* ===== verification/OutboxTheory.v ===== *)
(** * The outbox loses nothing ([thock-bridge/offline.rs])

    What the file holds is what was written to it; a drain alone sends in
    order up to the first silence; and however several clients interleave, a
    queued call leaves the file only after the desk answered it. *)

From stdpp Require Import relations.
From S2P Require Import Prelude Strings External Outbox.

(** ** Lines of a text that ends with a line feed *)

Section outbox_theory.
Context `{EntryJson} `{!EntryJsonLaws}.

(** The lines of a queue; what [render] writes. *)
Definition json_lines (queue : list OutboxEntry) (lines : list str) : Prop :=
  Forall2 (λ entry line, to_json entry = Ok line) queue lines.

Lemma render_Ok queue text :
  render queue = Ok text ↔ ∃ lines, json_lines queue lines ∧ text = unlines lines.
Proof.
  revert text. induction queue as [|entry queue IH]; intros text; simpl.
  - split.
    + intros [= <-]. exists []. by split; [constructor|].
    + intros (lines & Hl & ->). by inversion Hl.
  - split.
    + destruct (to_json entry) as [line|] eqn:E; [|done]. simpl.
      destruct (render queue) as [rest|] eqn:Er; [|done]. simpl. intros [= <-].
      destruct (proj1 (IH rest) eq_refl) as (lines & Hl & ->).
      exists (line :: lines). split; [by constructor|]. simpl. by rewrite <- app_assoc.
    + intros (lines & Hl & ->). inversion Hl as [|? line ? lines' E Hl']; subst. rewrite E. simpl.
      rewrite (proj2 (IH (unlines lines'))) by eauto. simpl. by rewrite <- app_assoc.
Qed.

Lemma entries_lines queue lines :
  json_lines queue lines → entries (Some (unlines lines)) = queue.
Proof.
  intros Hl. unfold entries. rewrite str_lines_unlines.
  - rewrite filter_all.
    + induction Hl as [|entry line queue lines E _ IH]; [done|]. simpl.
      rewrite (from_to_json _ _ E). f_equal. exact IH.
    + induction Hl as [|entry line queue lines E _ IH]; [by intros ? ?%not_elem_of_nil|].
      intros l [->|?]%elem_of_cons; [by eapply to_json_not_blank|auto].
  - induction Hl as [|entry line queue lines E _ IH]; constructor; [by eapply to_json_one_line|done].
Qed.

(** The file is one a client wrote: it holds exactly [queue]. *)
Definition holds (f : outbox_file) (queue : list OutboxEntry) : Prop :=
  (f = None ∧ queue = []) ∨ ∃ text, f = Some text ∧ render queue = Ok text.

Lemma holds_entries f queue : holds f queue → entries f = queue.
Proof.
  intros [[-> ->]|(text & -> & (lines & Hl & ->)%render_Ok)]; [done|by apply entries_lines].
Qed.

Lemma render_json queue text : render queue = Ok text → ∀ e, e ∈ queue → ∃ line, to_json e = Ok line.
Proof.
  intros (lines & Hl & _)%render_Ok. induction Hl as [|entry line queue lines E _ IH].
  - by intros ? ?%not_elem_of_nil.
  - intros e [->|?]%elem_of_cons; [by exists line|auto].
Qed.

Lemma render_sublist queue queue' text :
  queue' `sublist_of` queue → render queue = Ok text → ∃ text', render queue' = Ok text'.
Proof.
  intros Hs. revert text. induction Hs as [|x l k Hs IH|x l k Hs IH]; intros text; simpl.
  - by exists [].
  - destruct (to_json x) as [line|]; [|done]. simpl. destruct (render k) as [rest|] eqn:E; [|done].
    destruct (IH rest eq_refl) as [t ->]. intros _. by eexists.
  - destruct (to_json x) as [line|]; [|done]. simpl. destruct (render k) as [rest|] eqn:E; [|done].
    intros _. by apply (IH rest).
Qed.

Lemma holds_push io f queue entry f' r :
  io_torn io = None → holds f queue → push io f entry = (f', r) →
  holds f' (queue ++ match r with Ok _ => [entry] | Err _ => [] end).
Proof.
  intros Ht Hh. unfold push, write_all. rewrite Ht.
  destruct (io_lock io) as [error|]; [intros [= <- <-]; by rewrite app_nil_r|].
  destruct (io_open io) as [error|]; [intros [= <- <-]; by rewrite app_nil_r|].
  assert (∃ lines, json_lines queue lines ∧ default [] f = unlines lines) as (lines & Hl & ->).
  { destruct Hh as [[-> ->]|(text & -> & Hr%render_Ok)]; [|done]. exists []. by split; [constructor|]. }
  destruct (to_json entry) as [line|] eqn:E; intros [= <- <-]; right; (eexists; split; [done|]);
    apply render_Ok; [|exists lines; by rewrite app_nil_r].
  exists (lines ++ [line]). split.
  - apply Forall2_app; [done|]. by repeat constructor.
  - unfold unlines. rewrite flat_map_app. simpl. by rewrite app_nil_r.
Qed.

Lemma holds_rewrite io f queue rest :
  io_torn io = None → holds f queue → rest `sublist_of` queue →
  ∃ f' r, rewrite_file io f rest = (f', r) ∧ holds f' (match r with Ok _ => rest | Err _ => queue end) ∧
    (io_open io = None → r = Ok tt).
Proof.
  intros Ht Hh Hs. unfold rewrite_file, write_all. rewrite Ht. destruct rest as [|e rest].
  - destruct f as [text|]; [|exists None, (Ok tt); split_and!; [done|by left|done]].
    destruct (io_open io) as [error|].
    + exists (Some text), (Err error). by split_and!.
    + exists None, (Ok tt). split_and!; [done|by left|done].
  - assert (∃ text, render (e :: rest) = Ok text) as [text Hr].
    { destruct Hh as [[_ ->]|(text & _ & Hr)]; [by apply sublist_nil_r in Hs|].
      by apply (render_sublist queue _ text). }
    rewrite Hr.
    destruct (io_open io) as [error|]; [by exists f, (Err error)|].
    exists (Some text), (Ok tt). split_and!; [done|right; by exists text|done].
Qed.

Lemma holds_remove_io io f queue id :
  io_torn io = None → io_unreadable io = false → holds f queue →
  ∃ f' r, remove io f id = (f', r) ∧
    holds f' (match r with Ok _ => filter (λ e, entry_id e ≠ id) queue | Err _ => queue end) ∧
    (io_lock io = None → io_open io = None → r = Ok tt).
Proof.
  intros Ht Hu Hh. unfold remove, read_to_string. rewrite Hu, (holds_entries f queue Hh).
  destruct (io_lock io) as [error|]; [by exists f, (Err error)|].
  destruct (holds_rewrite io f queue (filter (λ e, entry_id e ≠ id) queue) Ht Hh)
    as (f' & r & Hw & Hh' & Hok); [apply sublist_filter|]. exists f', r. by split_and!.
Qed.

Lemma holds_remove f queue id :
  holds f queue → ∃ f', remove calm f id = (f', Ok tt) ∧ holds f' (filter (λ e, entry_id e ≠ id) queue).
Proof.
  intros Hh. destruct (holds_remove_io calm f queue id) as (f' & r & Hr & Hh' & Hok); [done..|].
  rewrite Hok in Hr, Hh' by done. by exists f'.
Qed.

(** C33: the file of the outbox refines a queue, whatever the file system refuses, as
    long as it breaks off no write it began and refuses no read of a removal. A
    file that holds a queue reads as that queue; a push holds it with the call at
    its end when it succeeds and as it was when it fails; a removal holds the
    queue without the calls of that id, in their order, or as it was, and fails
    only when the file cannot be locked or opened. *)
Theorem outbox_refines_queue io f queue :
  holds f queue → io_torn io = None →
  entries f = queue ∧
  (∀ entry f' r, push io f entry = (f', r) →
     holds f' (queue ++ match r with Ok _ => [entry] | Err _ => [] end)) ∧
  (io_unreadable io = false → ∀ id, ∃ f' r, remove io f id = (f', r) ∧
     holds f' (match r with Ok _ => filter (λ e, entry_id e ≠ id) queue | Err _ => queue end) ∧
     (io_lock io = None → io_open io = None → r = Ok tt)).
Proof.
  intros Hh Ht. split_and!; [by apply holds_entries|intros; by eapply holds_push|].
  intros Hu id. by apply holds_remove_io.
Qed.

(** A read refused while a call is removed takes every other call with it. *)
Lemma unreadable_removal_empties f id :
  remove (mkIo None true None None) f id = (None, Ok tt).
Proof. unfold remove. cbn. by destruct f. Qed.

(** ** A drain alone *)

(** The calls of a queue the desk took, and those it refused with its reason. *)
Definition accepted (send : OutboxEntry → result unit DrainFailure) (queue : list OutboxEntry)
  : list OutboxEntry :=
  omap (λ entry, match send entry with Ok _ => Some entry | Err _ => None end) queue.
Definition refusals (send : OutboxEntry → result unit DrainFailure) (queue : list OutboxEntry)
  : list (OutboxEntry * str) :=
  omap (λ entry, match send entry with Err (Refused reason) => Some (entry, reason) | _ => None end)
    queue.

Definition silent (answer : result unit DrainFailure) : Prop :=
  ∃ reason, answer = Err (Transport reason).

Lemma filter_other_ids entry queue :
  NoDup (map entry_id (entry :: queue)) →
  filter (λ e, entry_id e ≠ entry_id entry) (entry :: queue) = queue.
Proof.
  intros [Hn _]%NoDup_cons. rewrite filter_cons_False by (intros H2; by apply H2).
  apply filter_all. intros e He E. apply Hn. rewrite <- E. by apply list_elem_of_fmap_2.
Qed.

Lemma pick_first f d entry queue :
  holds f (entry :: queue) → entry_id entry ∉ done_ids d →
  pick calm f d = mkDrainer (report d) (done_ids d) (Sending entry).
Proof.
  intros Hh Hn. unfold pick. cbn [calm io_lock io_unreadable read_to_string]. rewrite (holds_entries _ _ Hh). cbn [find].
  assert (existsb (λ id, id == entry_id entry) (done_ids d) = false) as ->; [|done].
  rewrite existsb_false, Forall_forall. intros id Hid. apply bool_decide_eq_false. by intros ->.
Qed.

Lemma drain_loop_spec send fuel f d queue :
  holds f queue → NoDup (map entry_id queue) → at_phase d = Picking →
  (∀ e, e ∈ queue → entry_id e ∉ done_ids d) → length queue < fuel →
  ∃ f' gone kept r, queue = gone ++ kept ∧ Forall (λ e, ¬ silent (send e)) gone ∧ holds f' kept ∧
    drain_loop fuel send f d = Some (f', r) ∧
    sent r = sent (report d) + length (accepted send gone) ∧
    refused r = refused (report d) ++ refusals send gone ∧
    match kept with
    | [] => stopped r = stopped (report d)
    | entry :: _ => ∃ reason, send entry = Err (Transport reason) ∧
        stopped r = Some (mkDrainStop entry reason)
    end.
Proof.
  revert f d queue. induction fuel as [|fuel IH]; intros f d queue Hh Hnd Hp Hdone Hf; [lia|].
  cbn [drain_loop]. destruct queue as [|entry queue].
  { exists f, [], [], (report d). unfold pick, read_to_string. cbn [io_lock io_unreadable calm]. rewrite (holds_entries _ _ Hh). simpl.
    by rewrite Nat.add_0_r, app_nil_r. }
  assert (entry_id entry ∉ done_ids d) as Hne by (apply Hdone; by left).
  rewrite (pick_first f d entry queue) by done. cbn [at_phase].
  destruct (holds_remove f (entry :: queue) (entry_id entry) Hh) as (f1 & Hrm & Hh1).
  rewrite filter_other_ids in Hh1 by done.
  assert (∀ d1, report d1 = report (answered d entry (send entry)) → at_phase d1 = Picking →
    done_ids d1 = done_ids d ++ [entry_id entry] → ∃ f' gone kept r, queue = gone ++ kept ∧
      Forall (λ e, ¬ silent (send e)) gone ∧ holds f' kept ∧ drain_loop fuel send f1 d1 = Some (f', r) ∧
      sent r = sent (report d1) + length (accepted send gone) ∧
      refused r = refused (report d1) ++ refusals send gone ∧
      match kept with
      | [] => stopped r = stopped (report d1)
      | entry :: _ => ∃ reason, send entry = Err (Transport reason) ∧
          stopped r = Some (mkDrainStop entry reason)
      end) as Hrest.
  { intros d1 _ Hp1 Hd1. apply IH; [done|by apply NoDup_cons in Hnd as [_ ?]|done| |simpl in Hf; lia].
    intros e He. rewrite Hd1, not_elem_of_app. split; [apply Hdone; by right|].
    intros E%list_elem_of_singleton. apply NoDup_cons in Hnd as [Hn _].
    apply Hn. rewrite <- E. by apply list_elem_of_fmap_2. }
  unfold answered at 1 2 3 4. cbn [report done_ids at_phase] in *.
  unfold removed. destruct (send entry) as [[]|[reason|reason]] eqn:Es; cbn [at_phase report done_ids].
  - rewrite Hrm. cbn [at_phase report done_ids].
    edestruct Hrest as (f' & gone & kept & r & -> & Hg & Hk & -> & Hc & Hr & Hst);
      [reflexivity|reflexivity|reflexivity|].
    assert (accepted send (entry :: gone) = entry :: accepted send gone ∧
      refusals send (entry :: gone) = refusals send gone) as [Ea Er]
      by (unfold accepted, refusals; cbn [omap list_omap]; by rewrite Es).
    exists f', (entry :: gone), kept, r. rewrite Ea, Er. cbn [report sent refused stopped length] in *.
    split_and!; try done; [|lia]. constructor; [|done]. rewrite Es. by intros [? ?].
  - exists f, [], (entry :: queue). eexists. split_and!; [done|constructor|done|reflexivity| | |];
      simpl; [lia|by rewrite app_nil_r|]. exists reason. by rewrite Es.
  - rewrite Hrm. cbn [at_phase report done_ids].
    edestruct Hrest as (f' & gone & kept & r & -> & Hg & Hk & -> & Hc & Hr & Hst);
      [reflexivity|reflexivity|reflexivity|].
    assert (accepted send (entry :: gone) = accepted send gone ∧
      refusals send (entry :: gone) = (entry, reason) :: refusals send gone) as [Ea Er]
      by (unfold accepted, refusals; cbn [omap list_omap]; by rewrite Es).
    exists f', (entry :: gone), kept, r. rewrite Ea, Er. cbn [report sent refused stopped] in *.
    split_and!; try done; [|by rewrite Hr, <- app_assoc].
    constructor; [|done]. rewrite Es. by intros [? ?].
Qed.

(** A drain with nobody else around sends the queue in order up to the
    first call the desk does not answer, and returns: what the desk took is
    counted, what it refused for good is reported, both are out of the file,
    and the file still holds the rest, in order, that call first. *)
Theorem drain_in_order send f queue :
  holds f queue → NoDup (map entry_id queue) →
  ∃ f' gone kept stop, queue = gone ++ kept ∧ Forall (λ e, ¬ silent (send e)) gone ∧
    drain send f
    = Some (f', mkDrainReport (length (accepted send gone)) (refusals send gone) stop) ∧
    holds f' kept ∧ entries f' = kept ∧
    match kept with
    | [] => stop = None
    | entry :: _ => ∃ reason, send entry = Err (Transport reason) ∧
        stop = Some (mkDrainStop entry reason)
    end.
Proof.
  intros Hh Hnd. unfold drain. rewrite (holds_entries _ _ Hh).
  edestruct (drain_loop_spec send (S (length queue)) f drainer_start queue)
    as (f' & gone & kept & r & Hq & Hg & Hk & Hd & Hc & Hr & Hst); try done.
  { intros e _ Hin. by apply elem_of_nil in Hin. }
  { lia. }
  exists f', gone, kept, (stopped r). split_and!; [done|done| |done|by apply holds_entries|].
  - rewrite Hd. destruct r as [rs rr rt]. simpl in *. by rewrite Hc, Hr.
  - destruct kept; [done|done].
Qed.

(** ** Several clients *)

(** What holds of one drain: it asked the desk about each call at most once. *)
Record drainer_ok (m : machine) (d : drainer) : Prop := {
  done_once : NoDup (done_ids d);
  done_counted : length (done_ids d) = sent (report d) + length (refused (report d));
  sending_known entry :
    at_phase d = Sending entry → entry ∈ queued m ∧ entry_id entry ∉ done_ids d;
  removing_handled entry : at_phase d = Removing entry → entry ∈ queued m ∧ entry ∈ handled m;
}.

(** What holds of the machine. *)
Record machine_ok (m : machine) : Prop := {
  ids_fresh : NoDup (map entry_id (queued m));
  file_held : ∃ queue, holds (file m) queue;
  file_ordered : entries (file m) `sublist_of` queued m;
  none_lost entry : entry ∈ queued m → entry ∈ entries (file m) ∨ entry ∈ handled m;
  drains_ok : Forall (drainer_ok m) (drains m);
}.

(** A drain keeps what holds of it when calls are queued or handled. *)
Lemma drainer_ok_mono m m' d :
  (∀ e, e ∈ queued m → e ∈ queued m') → (∀ e, e ∈ handled m → e ∈ handled m') →
  drainer_ok m d → drainer_ok m' d.
Proof. intros Hq Hh [Ho Hc Hs Hr]. split; [done|done|naive_solver|naive_solver]. Qed.

Lemma pick_ok io m d : machine_ok m → drainer_ok m d → drainer_ok m (pick io (file m) d).
Proof.
  intros Hm [Ho Hc Hs Hr]. unfold pick. destruct (io_lock io); [by split|].
  destruct (find _ _) as [entry|] eqn:E; split; try done.
  cbn [at_phase done_ids]. intros e [= <-]. apply find_some in E as [Hin%list_elem_of_In Hn].
  assert (entry ∈ entries (file m)) as Hf.
  { unfold read_to_string in Hin. destruct (io_unreadable io); [by apply elem_of_nil in Hin|done]. }
  split; [by apply (sublist_subseteq _ _ (file_ordered m Hm))|].
  apply negb_true_iff in Hn. rewrite existsb_false, Forall_forall in Hn. intros Hd.
  specialize (Hn _ Hd). by apply bool_decide_eq_false in Hn.
Qed.

Lemma answered_ok m d entry answer :
  drainer_ok m d → at_phase d = Sending entry →
  drainer_ok (mkMachine (file m) (drains m) (queued m) (handled m ++ settled_by answer entry))
    (answered d entry answer).
Proof.
  intros [Ho Hc Hs Hr] Hp. destruct (Hs entry Hp) as [Hq Hn].
  assert (NoDup (done_ids d ++ [entry_id entry])) as Hnd.
  { apply NoDup_app. split_and!; [done| |by apply NoDup_singleton].
    by intros x Hx ->%list_elem_of_singleton. }
  destruct answer as [[]|[reason|reason]]; split; cbn [answered at_phase done_ids report]; try done;
    simpl; try (rewrite ?length_app, Hc; simpl; lia).
  - intros e [= <-]. split; [done|]. apply elem_of_app. right. by left.
  - intros e [= <-]. split; [done|]. apply elem_of_app. right. by left.
Qed.

Lemma same_id m e e' :
  NoDup (map entry_id (queued m)) → e ∈ queued m → e' ∈ queued m → entry_id e = entry_id e' → e = e'.
Proof.
  intros Hn [i Hi]%list_elem_of_lookup [j Hj]%list_elem_of_lookup E.
  assert (i = j) as ->; [|congruence].
  eapply NoDup_lookup; [exact Hn| |]; rewrite list_lookup_fmap; [by rewrite Hi|rewrite Hj; simpl; by rewrite E].
Qed.

(** A drain moves on, and calls may be handled: the file stays. *)
Lemma move_ok m i d' handled' :
  machine_ok m → (∀ e, e ∈ handled m → e ∈ handled') →
  drainer_ok (mkMachine (file m) (drains m) (queued m) handled') d' →
  machine_ok (mkMachine (file m) (<[i := d']> (drains m)) (queued m) handled').
Proof.
  intros [Hid [queue Hh] Hord Hlost Hdr] Hmono Hd'.
  split; cbn [queued file drains handled]; try done; [by eexists| |].
  - intros e He. destruct (Hlost e He); auto.
  - apply Forall_insert; [|by eapply drainer_ok_mono; [| |exact Hd']].
    eapply Forall_impl; [exact Hdr|]. intros d. by apply drainer_ok_mono.
Qed.

(** The file changes, and calls may be queued: the drains stay. *)
Lemma write_ok m f queued' queue :
  machine_ok m → (∀ e, e ∈ queued m → e ∈ queued') → NoDup (map entry_id queued') →
  holds f queue → queue `sublist_of` queued' →
  (∀ e, e ∈ queued' → e ∈ queue ∨ e ∈ handled m) →
  machine_ok (mkMachine f (drains m) queued' (handled m)).
Proof.
  intros [_ _ _ _ Hdr] Hmono Hid Hh Hord Hlost.
  split; cbn [queued file drains handled]; rewrite ?(holds_entries _ _ Hh); try done; [by eexists|].
  eapply Forall_impl; [exact Hdr|]. intros d. by apply drainer_ok_mono.
Qed.

Lemma push_ok io m entry f r :
  io_torn io = None → machine_ok m → entry_id entry ∉ map entry_id (queued m) →
  push io (file m) entry = (f, r) →
  machine_ok (mkMachine f (drains m)
    (queued m ++ match r with Ok _ => [entry] | Err _ => [] end) (handled m)).
Proof.
  intros Ht Hm Hfresh Hpush. pose proof Hm as [Hid [queue Hh] Hord Hlost _].
  rewrite (holds_entries _ _ Hh) in Hord, Hlost.
  set (new := match r with Ok _ => [entry] | Err _ => [] end).
  assert (∀ e, e ∈ new → e = entry) as Hnew.
  { intros e. subst new. destruct r; [apply list_elem_of_singleton|by intros ?%elem_of_nil]. }
  apply (write_ok m f _ (queue ++ new)); [done| | |by eapply holds_push|by apply sublist_app|].
  - intros e He. apply elem_of_app. by left.
  - rewrite map_app. apply NoDup_app. split_and!; [done| |].
    + intros x Hx (e & -> & ->%Hnew)%list_elem_of_fmap. done.
    + subst new. destruct r; [apply NoDup_singleton|constructor].
  - intros e [He|He]%elem_of_app; rewrite elem_of_app; [|by left; right].
    destruct (Hlost e He); auto.
Qed.

Lemma removed_ok io m i d entry f d' :
  sparing io Dropping → machine_ok m → drainer_ok m d → at_phase d = Removing entry →
  removed io (file m) d entry = (f, d') →
  machine_ok (mkMachine f (<[i := d']> (drains m)) (queued m) (handled m)).
Proof.
  intros [Ht Hu] Hm Hd Hp Hrm. pose proof Hm as [Hid [queue Hh] Hord Hlost _].
  destruct (removing_handled m d Hd entry Hp) as [Hin Hdone].
  destruct (holds_remove_io io (file m) queue (entry_id entry) Ht (Hu eq_refl) Hh)
    as (f1 & r & Hr & Hh1 & _).
  assert (f = f1 ∧ drainer_ok m d') as [-> Hd'].
  { unfold removed in Hrm. rewrite Hr in Hrm. destruct Hd.
    destruct r; injection Hrm as <- <-; (split; [done|by split]). }
  clear Hrm. rewrite (holds_entries _ _ Hh) in Hord, Hlost.
  apply (move_ok (mkMachine f1 (drains m) (queued m) (handled m)) i _ (handled m));
    [|done|by apply (drainer_ok_mono m)].
  eapply (write_ok m f1); [done|done|done|exact Hh1| |].
  - destruct r; [|done]. etrans; [apply sublist_filter|done].
  - intros e He. destruct (Hlost e He) as [Hf|Hf]; [|by right]. destruct r; [|by left].
    destruct (decide (entry_id e = entry_id entry)) as [E|E].
    + right. by rewrite (same_id m e entry Hid He Hin E).
    + left. by apply list_elem_of_filter.
Qed.

Lemma spared_step_ok m m' : machine_ok m → spared_step m m' → machine_ok m'.
Proof.
  intros Hm (io & a & Hio & Hstep). assert (∀ i d, drains m !! i = Some d → drainer_ok m d) as Hd
    by (intros i d Hi; eapply Forall_lookup_1; [apply (drains_ok m Hm)|done]).
  destruct Hstep as [m entry f r Hfresh Hpush|m|m i d Hi Hp|m i d entry answer Hi Hp
    |m i d entry f d' Hi Hp Hrm].
  - eapply push_ok; [apply Hio|done..].
  - destruct Hm as [Hid [queue Hh] Hord Hlost Hdr].
    split; cbn [queued file drains handled]; try done; [by eexists|]. apply Forall_app. split.
    + eapply Forall_impl; [exact Hdr|]. intros d. by apply drainer_ok_mono.
    + apply Forall_singleton. split; [constructor|done|done|done].
  - apply move_ok; [done|done|]. by apply (drainer_ok_mono m), pick_ok, (Hd i).
  - apply move_ok; [done| |by apply answered_ok, Hp; eapply Hd].
    intros e He. apply elem_of_app. by left.
  - by eapply removed_ok; [| |eapply Hd| |].
Qed.

Lemma reachable_ok m : reachable m → machine_ok m.
Proof.
  intros Hr. unfold reachable in Hr.
  assert (machine_ok machine_start) as Hstart.
  { split; simpl; [constructor|exists []; by left|constructor|by intros ? ?%elem_of_nil|constructor]. }
  revert Hstart. induction Hr as [m|m1 m2 m3 Hs _ IH]; [done|]. intros Hm. apply IH.
  by eapply spared_step_ok.
Qed.

(** C6: however the clients of a machine interleave, a queued call is in the
    outbox until the desk took it or refused it for good; the outbox holds
    nothing else and keeps the order of the queue; and no drain asks the desk
    about a call twice. Any lock, open, read of a drain or removal of the file
    may fail, and any answer may be lost; but a write to the outbox that began
    ends, and no read that a removal makes of the file fails. Either would lose
    calls: the removal rewrites the file from nothing, and a line broken off
    swallows the next. *)
Theorem outbox_loses_nothing m :
  reachable m →
  (∀ entry, entry ∈ queued m → entry ∈ entries (file m) ∨ entry ∈ handled m) ∧
  entries (file m) `sublist_of` queued m ∧
  ∀ i d, drains m !! i = Some d →
    NoDup (done_ids d) ∧ length (done_ids d) = sent (report d) + length (refused (report d)) ∧
    ∀ entry, at_phase d = Sending entry → entry_id entry ∉ done_ids d.
Proof.
  intros [_ _ Hord Hlost Hdr]%reachable_ok. split_and!; [done|done|]. intros i d Hi.
  destruct (Forall_lookup_1 _ _ _ _ Hdr Hi) as [Ho Hc Hs _]. split_and!; [done|done|].
  intros entry Hp. by apply Hs.
Qed.
End outbox_theory.
