(* ===== verification/Client.v ===== *)
(** * The client an agent launches ([thock-bridge/main.rs], [Proxy], and the
    cache of [thock-bridge/offline.rs])

    A proxy between an agent's requests and the desk: it forwards what the desk
    must answer, keeps what was read for when the desk is away, and queues the
    writes that could not be sent. The requests of one agent are handled one
    after the other. *)

From stdpp Require Import gmap.
From S2P Require Import Prelude Strings Utf8 External Rules NoteIndex Rpc Http AgentMirror Server.
From S2P Require Import Outbox.

Definition PROTOCOL_HEADER : str := u "MCP-Protocol-Version".
Definition UNKNOWN_CLIENT : Z := -32001.
(** A minute, in the nanoseconds instants are counted in. *)
Definition MIRROR_INTERVAL : Z := 60 * SECOND.

Record ClientConfig := mkClientConfig {
  config_desk : str;
  config_token : str;
  config_vault : str;
  config_client_name : str;
}.

(** ** The cache: texts by their file below its folder *)

Record CachedText := mkCachedText { as_of : str; cached_text : str }.

Definition Cache : Type := gmap str CachedText.

Definition CONTEXT_FILE : str := u "context.json".
Definition INDEX_FILE : str := u "index.json".
Definition note_file `{Digest} (path : str) : str := u "notes/" ++ sha256_hex path ++ u ".json".
Definition search_file (key : str) : str := u "searches/" ++ key ++ u ".json".

(** Why a forwarded call did not come back as a reply. *)
Inductive ForwardFailure :=
  | NoAnswer (reason : str) (* [ForwardFailure::Transport] *)
  | PlainRefusal (status : N) (reason : str). (* [ForwardFailure::Refused] *)

(** [serde_json] and [chrono] at what the client reads and writes. *)
Class ClientFormats `{JsonValue} `{Chrono} := {
  request_to_vec : JsonRpcRequest → result (list N) str;
  response_from_str : str → result JsonRpcResponse str;
  json_to_string : json → str;
  local_day : str → option NaiveDate; (* of an RFC 3339 instant *)
  utc_minute : str → option str; (* ["%Y-%m-%d %H:%M"] of one *)
}.

Section client.
Context `{JsonOps} `{ChronoParse} `{!ChronoDays} `{UnicodeTables} `{Digest} `{!EntryJson}.
Context `{!ClientFormats}.

(** [offline_suffix] *)
Definition offline_suffix (as_of desk : str) : str :=
  [10; 10]%N ++ u "(from cache, as of " ++ default as_of (utc_minute as_of)
  ++ u "; the desk at " ++ desk ++ u " is unreachable)".

(** [OutboxEntry::date] *)
Definition entry_date (entry : OutboxEntry) : option NaiveDate := local_day (entry_at entry).

(** A tool's response in a reply ([JsonRpcResponse::tool_result]); a desk sends
    objects, and the positional form [serde] also reads is left out. *)
Definition tool_content (block : json) : option str :=
  kind ← str_arg (u "type") block;
  if kind == u "text" then str_arg (u "text") block else None.

Definition tool_response_from_value (value : json) : option CallToolResponse :=
  blocks ← json_get (u "content") value;
  blocks ← as_array blocks;
  texts ← mapM tool_content blocks;
  failed ← match json_get (u "isError") value with Some b => as_bool b | None => Some false end;
  Some (mkCallToolResponse texts failed (optional_value (json_get (u "_meta") value))).

Definition tool_result (response : JsonRpcResponse) : option CallToolResponse :=
  result ← response_result response; tool_response_from_value result.

(** The URI a [resources/read] asks for. *)
Definition request_uri (request : JsonRpcRequest) : str :=
  default [] (p ← params request; str_arg (u "uri") p).

(** [search_key] *)
Definition search_key (args : json) : option str :=
  raw ← str_arg (u "query") args;
  let query := trim raw in
  if query == [] then None
  else
    let limit := clamp 1 50 (default 10%N (x ← json_get (u "limit") args; as_u64 x)) in
    let since := s ← str_arg (u "since") args; parse_ymd (trim s) in
    let folder :=
      s ← str_arg (u "folder") args;
      let folder := trim_matches (N.eqb SLASH_CHAR) (trim s) in
      if folder == [] then None else Some folder in
    Some (cache_key (mkSearchQuery query (N.to_nat limit) since folder)).

(** [local_answer] *)
Definition local_answer (request : JsonRpcRequest) (version : str) : option JsonRpcResponse :=
  id ← request_id request;
  let name := method request in
  Some
    (if name == u "initialize" then result_response id (initialize_result version)
     else if name == u "ping" then result_response id (json_object [])
     else if name == u "tools/list" then
       result_response id (json_object [(u "tools", json_array (map tool_value tools))])
     else if name == u "resources/list" then
       result_response id (json_object [(u "resources", json_array (map resource_value resources))])
     else error_response id METHOD_NOT_FOUND (name ++ u " is not served here")).

(** [desk_request] *)
Definition desk_request (config : ClientConfig) (method path : str) (body : list N)
    (extra : header_list) : HttpRequest :=
  mkHttpRequest method (desk_url (config_desk config) path)
    ([(u "Authorization", u "Bearer " ++ config_token config);
      (u "Content-Type", u "application/json"); (PROTOCOL_HEADER, PROTOCOL_VERSION)] ++ extra)
    body.

(** ** The proxy *)

Record Proxy := mkProxy {
  proxy_config : option ClientConfig;
  proxy_cache : Cache;
  proxy_outbox : outbox_file;
  proxy_harness : str;
  online : option bool;
  last_mirror : option Z;
  refusals : list (str * str); (* what [Home::record_refusal] logged *)
}.

(** One request's view of the client's machine: the clock, the two fresh ids a
    request may need, and which cache files cannot be written. *)
Record ClientEnv := mkClientEnv {
  now_text : str;
  instant : Z;
  live_id : str;
  queue_id : str;
  cache_fault : str → option str;
}.

Definition set_cache (c : Cache) (p : Proxy) : Proxy :=
  mkProxy (proxy_config p) c (proxy_outbox p) (proxy_harness p) (online p) (last_mirror p) (refusals p).
Definition set_outbox (f : outbox_file) (p : Proxy) : Proxy :=
  mkProxy (proxy_config p) (proxy_cache p) f (proxy_harness p) (online p) (last_mirror p) (refusals p).
Definition set_harness (h : str) (p : Proxy) : Proxy :=
  mkProxy (proxy_config p) (proxy_cache p) (proxy_outbox p) h (online p) (last_mirror p) (refusals p).
Definition note_online (o : bool) (p : Proxy) : Proxy :=
  mkProxy (proxy_config p) (proxy_cache p) (proxy_outbox p) (proxy_harness p) (Some o) (last_mirror p)
    (refusals p).
Definition set_mirrored (at_ : Z) (p : Proxy) : Proxy :=
  mkProxy (proxy_config p) (proxy_cache p) (proxy_outbox p) (proxy_harness p) (online p) (Some at_)
    (refusals p).
Definition log_refusals (l : list (str * str)) (p : Proxy) : Proxy :=
  mkProxy (proxy_config p) (proxy_cache p) (proxy_outbox p) (proxy_harness p) (online p) (last_mirror p)
    (refusals p ++ l).

Definition desk_label (p : Proxy) : str :=
  default (u "(not paired)") (config_desk <$> proxy_config p).

(** [write_json]: a text kept under a name. *)
Definition store (env : ClientEnv) (file text : str) (p : Proxy) : Proxy :=
  match cache_fault env file with
  | Some _ => p
  | None => set_cache (<[file := mkCachedText (now_text env) text]> (proxy_cache p)) p
  end.

(** The text of the first of the [contents] of a resource that was read. *)
Definition contents_text_of (response : JsonRpcResponse) : option str :=
  result ← response_result response;
  contents ← json_get (u "contents") result;
  blocks ← as_array contents;
  first ← head blocks;
  str_arg (u "text") first.

(** The cache file of a resource. *)
Definition resource_file (uri : str) : option str :=
  if uri == INDEX_RESOURCE_URI then Some INDEX_FILE
  else note_file <$> strip_prefix NOTE_RESOURCE_PREFIX uri.

(** The cache file of a tool's answer. *)
Definition tool_file (tool : option str) (args : json) : option str :=
  match tool with
  | Some tool =>
      if tool == u "context" then Some CONTEXT_FILE
      else if tool == u "read" then note_file ∘ trim <$> str_arg (u "path") args
      else if tool == u "search" then search_file <$> search_key args
      else None
  | None => None
  end.

Definition remember_answer (env : ClientEnv) (request : JsonRpcRequest) (tool : option str)
    (args : json) (response : JsonRpcResponse) (p : Proxy) : Proxy :=
  if method request == u "resources/read" then
    match contents_text_of response, resource_file (request_uri request) with
    | Some text, Some file => store env file text p
    | _, _ => p
    end
  else match tool_result response with
    | None => p
    | Some result =>
        if is_error result then p
        else match tool_file tool args with
          | Some file => store env file (first_text result) p
          | None => p
          end
    end.

(** ** Away from the desk *)

Definition from_cache (p : Proxy) (desk reason : str) (file : option str) (what : str)
  : CallToolResponse :=
  match (file ← file; proxy_cache p !! file) with
  | Some cached => response_text (cached_text cached ++ offline_suffix (as_of cached) desk)
  | None =>
      response_failed (what ++ u " isn't in the cache and the desk at " ++ desk
                       ++ u " is unreachable (" ++ reason ++ u ")")
  end.

Definition is_write_tool (tool : option str) : bool :=
  (tool == Some (u "remember")) || (tool == Some (u "note_today")).

(** The queueing of a write. *)
Definition queue_write (env : ClientEnv) (id : json) (name : str) (args : json) (p : Proxy)
  : Proxy * JsonRpcResponse :=
  match validate_tool_arguments name args with
  | Err refusal => (p, result_response id (response_value (response_refused (message refusal))))
  | Ok _ =>
      let entry := mkOutboxEntry _ (queue_id env) (now_text env) name args (proxy_harness p) in
      let '(f, r) := push calm (proxy_outbox p) entry in
      (set_outbox f p,
       result_response id (response_value
         match r with
         | Ok _ => response_text QUEUED_SENTENCE
         | Err error =>
             response_failed (u "the desk at " ++ desk_label p
               ++ u " is unreachable and the line couldn't be queued: " ++ error)
         end))
  end.

(** The answer to a tool that does not write. *)
Definition offline_read (p : Proxy) (name : str) (args : json) (reason : str) : CallToolResponse :=
  let desk := desk_label p in
  if name == u "context" then
    from_cache p desk reason (tool_file (Some name) args) (u "the vault's context")
  else if name == u "read" then
    match str_arg (u "path") args with
    | Some path => from_cache p desk reason (tool_file (Some name) args) (trim path)
    | None =>
        response_failed (u "a note can only be found by title when the desk at " ++ desk
                         ++ u " is reachable")
    end
  else if name == u "search" then
    from_cache p desk reason (tool_file (Some name) args) (u "that search")
  else if name == u "recent" then
    response_failed (u "recent needs the desk, and the desk at " ++ desk ++ u " is unreachable ("
                     ++ reason ++ u ")")
  else response_failed (u "no tool named " ++ name).

Definition offline_answer (env : ClientEnv) (id : json) (request : JsonRpcRequest)
    (tool : option str) (args : json) (reason : str) (p : Proxy) : Proxy * JsonRpcResponse :=
  let desk := desk_label p in
  if method request == u "resources/read" then
    let uri := request_uri request in
    (p, match (file ← resource_file uri; proxy_cache p !! file) with
        | Some cached =>
            result_response id
              (json_object [(u "contents", json_array [json_object
                 [(u "uri", json_string uri); (u "mimeType", json_string (u "text/markdown"));
                  (u "text", json_string (cached_text cached ++ offline_suffix (as_of cached) desk))]])])
        | None =>
            error_response id INVALID_PARAMS
              (uri ++ u " isn't in the cache and the desk at " ++ desk ++ u " is unreachable")
        end)
  else match tool with
    | None => (p, error_response id INVALID_PARAMS (u "tools/call needs a tool name"))
    | Some name =>
        if is_write_tool tool then queue_write env id name args p
        else (p, result_response id (response_value (offline_read p name args reason)))
    end.

(** ** Over a connection *)

Section connected.
Context {World : Type}.
(** A round trip ([thock_bridge::request]), and what a mirror pass does to the
    desk and to the client's own files ([AgentMirror.mirror_pass]). *)
Context (http : HttpRequest → World → World * result HttpResponse str).
Context (mirror_world : ClientConfig → World → World).

Definition harness_header (p : Proxy) (harness : str) : header_list :=
  [(HARNESS_HEADER, if harness == [] then proxy_harness p else harness)].

(** The reply in an answer of the desk. *)
Definition reply_of (id : option json) (response : HttpResponse)
  : result JsonRpcResponse ForwardFailure :=
  let status := response_status response in
  if (500 <=? status)%N then Err (NoAnswer (u "the desk answered " ++ show_N status))
  else if (status =? 401)%N then
    Ok (error_response (default json_null id) UNKNOWN_CLIENT
          (u "the desk no longer knows this machine; pair again from the desk"))
  else if (status =? 202)%N then
    Err (NoAnswer (u "the desk accepted a notification without a reply"))
  else if (status =? 408)%N || (status =? 429)%N then
    Err (NoAnswer (u "the desk answered " ++ show_N status ++ u "; try again"))
  else
    let text := response_text_lossy response in
    match response_from_str text with
    | Ok parsed => Ok parsed
    | Err error =>
        if (400 <=? status)%N
        then Err (PlainRefusal status
               (default (trim text)
                  match json_from_str text with
                  | Ok value => str_arg (u "error") value
                  | Err _ => None
                  end))
        else Err (NoAnswer (u "the desk's answer wasn't readable: " ++ error))
    end.

Definition forward (p : Proxy) (request : JsonRpcRequest) (harness : str) (w : World)
  : World * result JsonRpcResponse ForwardFailure :=
  match proxy_config p with
  | None =>
      (w, Err (NoAnswer
             (u "not paired with a desk yet; run `thock-bridge pair <host:port> <code>`")))
  | Some config =>
      match request_to_vec request with
      | Err error => (w, Err (NoAnswer error))
      | Ok body =>
          match http (desk_request config (u "POST") (u "/mcp") body (harness_header p harness)) w with
          | (w, Err error) => (w, Err (NoAnswer error))
          | (w, Ok response) => (w, reply_of (request_id request) response)
          end
      end
  end.

(** *** The queue *)

(** The request a queued call is sent as. *)
Definition outbox_request (entry : OutboxEntry) : JsonRpcRequest :=
  with_meta
    (JsonRpcRequest_new (json_string (u "outbox-" ++ entry_id entry)) (u "tools/call")
       (json_object [(u "name", json_string (entry_tool entry)); (u "arguments", entry_args entry)]))
    (mkCallMeta (Some (entry_id entry)) (entry_date entry)).

(** What a reply means for the call: [-32602] and [-32601] are for good. *)
Definition drain_verdict (reply : result JsonRpcResponse ForwardFailure)
  : result unit DrainFailure :=
  match reply with
  | Err (NoAnswer reason) => Err (Transport reason)
  | Err (PlainRefusal status reason) => Err (Outbox.Refused (show_N status ++ u ": " ++ reason))
  | Ok response =>
      match response_error response with
      | Some error =>
          if ((code error =? INVALID_PARAMS) || (code error =? METHOD_NOT_FOUND))%Z
          then Err (Outbox.Refused (error_message error))
          else Err (Transport (error_message error))
      | None =>
          match tool_result response with
          | Some result =>
              if is_refusal result then Err (Outbox.Refused (first_text result))
              else if is_error result then Err (Transport (first_text result))
              else Ok tt
          | None => Ok tt
          end
      end
  end.

Definition send_entry (p : Proxy) (entry : OutboxEntry) (w : World)
  : World * result unit DrainFailure :=
  let '(w, reply) := forward p (outbox_request entry) (entry_harness entry) w in
  (w, drain_verdict reply).

(** [Outbox::drain] with a [send] that acts on the world. *)
Fixpoint drain_over (fuel : nat) (send : OutboxEntry → World → World * result unit DrainFailure)
    (file : outbox_file) (d : drainer) (w : World) : option (World * outbox_file * DrainReport) :=
  match fuel with
  | 0 => None
  | S fuel =>
      let d := pick calm file d in
      match at_phase d with
      | Sending entry =>
          let '(w, answer) := send entry w in
          let d := answered d entry answer in
          match at_phase d with
          | Removing entry =>
              let '(file, d) := removed calm file d entry in
              match at_phase d with
              | Picking => drain_over fuel send file d w
              | _ => Some (w, file, report d)
              end
          | _ => Some (w, file, report d)
          end
      | _ => Some (w, file, report d)
      end
  end.

(** What is logged of a call that was refused. *)
Definition refusal_line (r : OutboxEntry * str) : str * str :=
  (entry_tool r.1 ++ u " " ++ json_to_string (entry_args r.1), r.2).

(** Every turn but the last takes a call out, so the fuel is enough. *)
Definition drain_outbox (p : Proxy) (w : World) : Proxy * World :=
  let queue := entries (proxy_outbox p) in
  match queue with
  | [] => (p, w)
  | _ =>
      if is_none (proxy_config p) || (online p == Some false) then (p, w)
      else match drain_over (S (length queue)) (send_entry p) (proxy_outbox p) drainer_start w with
        | None => (p, w)
        | Some (w, file, report) =>
            let p := set_outbox file p in
            let p := if (0 <? sent report)%nat then note_online true p else p in
            (log_refusals (map refusal_line (refused report)) p, w)
        end
  end.

(** *** Requests *)

Definition mirror (env : ClientEnv) (p : Proxy) (w : World) : Proxy * World :=
  (set_mirrored (instant env) p,
   match proxy_config p with Some config => mirror_world config w | None => w end).

Definition mirror_if_due (env : ClientEnv) (p : Proxy) (w : World) : Proxy * World :=
  if match last_mirror p with
     | Some last => (MIRROR_INTERVAL <=? instant env - last)%Z
     | None => true
     end
  then mirror env p w else (p, w).

(** The name an agent gives itself when it starts. *)
Definition client_info_name (request : JsonRpcRequest) : option str :=
  p ← params request; info ← json_get (u "clientInfo") p; str_arg (u "name") info.

Definition learn_harness (request : JsonRpcRequest) (p : Proxy) : Proxy :=
  if (method request == u "initialize") && (proxy_harness p == u "agent")
  then match client_info_name request with
    | Some name => set_harness (sanitize_harness name) p
    | None => p
    end
  else p.

Definition LOCAL_METHODS : list str :=
  [u "initialize"; u "ping"; u "tools/list"; u "resources/list"].
Definition DESK_METHODS : list str := [u "tools/call"; u "resources/read"].

(** A request the desk must answer. *)
Definition ask_desk (env : ClientEnv) (id : json) (request : JsonRpcRequest) (p : Proxy) (w : World)
  : Proxy * World * JsonRpcResponse :=
  let '(p, w) := drain_outbox p w in
  let tool := request_tool_name request in
  let args := arguments request in
  let is_write := is_write_tool tool in
  let request :=
    if is_write then with_meta request (mkCallMeta (Some (live_id env)) None) else request in
  match forward p request (proxy_harness p) w with
  | (w, Ok response) =>
      let was_offline := online p == Some false in
      let p := note_online true p in
      let '(p, w) := if was_offline then drain_outbox p w else (p, w) in
      let p := remember_answer env request tool args response p in
      let '(p, w) := if is_write then mirror_if_due env p w else (p, w) in
      (p, w, response)
  | (w, Err (PlainRefusal status reason)) =>
      (note_online true p, w,
       result_response id (response_value
         (response_failed (u "the desk refused it (" ++ show_N status ++ u "): " ++ reason))))
  | (w, Err (NoAnswer reason)) =>
      let '(p, response) := offline_answer env id request tool args reason (note_online false p) in
      (p, w, response)
  end.

Definition handle (version : str) (env : ClientEnv) (request : JsonRpcRequest) (p : Proxy) (w : World)
  : Proxy * World * option JsonRpcResponse :=
  let p := learn_harness request p in
  match request_id request with
  | None => (p, w, None)
  | Some id =>
      if bool_decide (method request ∈ LOCAL_METHODS) then (p, w, local_answer request version)
      else if bool_decide (method request ∈ DESK_METHODS) then
        let '(p, w, response) := ask_desk env id request p w in (p, w, Some response)
      else (p, w, Some (error_response id METHOD_NOT_FOUND
                          (method request ++ u " is not served here")))
  end.

(** The loop of [serve] over the lines of its input; each line with what the
    machine offers while it is handled. *)
Context (from_value_error : json → str).

Definition serve_line (version : str) (env : ClientEnv) (line : str) (p : Proxy) (w : World)
  : Proxy * World * option JsonRpcResponse :=
  let trimmed := trim line in
  if trimmed == [] then (p, w, None)
  else match JsonRpcRequest_parse from_value_error trimmed with
    | Ok request => handle version env request p w
    | Err error => (p, w, Some error)
    end.

Fixpoint serve_lines (version : str) (lines : list (ClientEnv * str)) (p : Proxy) (w : World)
  : Proxy * World * list JsonRpcResponse :=
  match lines with
  | [] => (p, w, [])
  | (env, line) :: lines =>
      let '(p, w, reply) := serve_line version env line p w in
      let '(p, w, replies) := serve_lines version lines p w in
      (p, w, match reply with Some r => r :: replies | None => replies end)
  end.

(** [serve]: what queued goes first, then a mirror pass; another one when the
    agent closes its end. *)
Definition serve (version : str) (env_start env_end : ClientEnv) (lines : list (ClientEnv * str))
    (p : Proxy) (w : World) : Proxy * World * list JsonRpcResponse :=
  let '(p, w) := drain_outbox p w in
  let '(p, w) := mirror env_start p w in
  let '(p, w, replies) := serve_lines version lines p w in
  let '(p, w) := mirror env_end p w in
  (p, w, replies).
End connected.
End client.
