(* ===== verification/ClientTheory.v ===== *)
(** * What the client guarantees *)

From stdpp Require Import gmap.
From S2P Require Import Prelude Strings Utf8 External Rules NoteIndex Rpc RpcTheory Http AgentMirror Server.
From S2P Require Import Outbox OutboxTheory Client.

Section client_theory.
Context `{JsonOps} `{!JsonLaws} `{ChronoParse} `{!ChronoParseLaws} `{!ChronoDays} `{UnicodeTables}.
Context `{Digest} `{!EntryJson} `{!EntryJsonLaws} `{!ClientFormats}.
Implicit Types (p : Proxy) (entry : OutboxEntry) (request : JsonRpcRequest) (args : json).

(** ** What a tool's reply carries *)

Lemma str_arg_object key value (kvs : list (str * json)) :
  NoDup kvs.*1 → (key, json_string value) ∈ kvs → str_arg key (json_object kvs) = Some value.
Proof.
  intros Hnd Hin. unfold str_arg. rewrite (json_get_object _ _ _ Hnd Hin). cbn [mbind option_bind].
  apply as_str_string.
Qed.

Lemma tool_content_text (text : str) :
  tool_content (json_object [(u "type", json_string (u "text")); (u "text", json_string text)])
  = Some text.
Proof.
  unfold tool_content. rewrite (str_arg_object (u "type") (u "text")) by solve_fields.
  cbn [mbind option_bind]. rewrite bool_decide_eq_true_2 by done.
  by rewrite (str_arg_object (u "text") text) by solve_fields.
Qed.

Lemma tool_contents (texts : list str) :
  mapM tool_content
    (map (λ text, json_object [(u "type", json_string (u "text")); (u "text", json_string text)]) texts)
  = Some texts.
Proof.
  induction texts as [|text texts IH]; [done|]. cbn [map mapM]. by rewrite tool_content_text, IH.
Qed.

(** A tool's response reads back from the reply it went out in. *)
Lemma tool_result_value id (r : CallToolResponse) :
  response_meta r ≠ Some json_null → tool_result (result_response id (response_value r)) = Some r.
Proof.
  intros Hn. unfold tool_result, tool_response_from_value. cbn [result_response response_result mbind option_bind].
  unfold response_value. destruct r as [texts failed meta]. cbn [content is_error response_meta] in *.
  set (kvs := _ ++ _).
  assert (json_get (u "content") (json_object kvs) = Some (json_array (map (λ text,
    json_object [(u "type", json_string (u "text")); (u "text", json_string text)]) texts))) as ->
    by (subst kvs; destruct meta; apply json_get_object; cbn [app]; solve_fields).
  assert (json_get (u "isError") (json_object kvs) = Some (json_bool failed)) as ->
    by (subst kvs; destruct meta; apply json_get_object; cbn [app]; solve_fields).
  assert (json_get (u "_meta") (json_object kvs) = meta) as ->.
  { subst kvs. destruct meta; cbn [app]; [apply json_get_object|apply json_get_object_None]; solve_fields. }
  cbn [mbind option_bind]. rewrite as_array_array. cbn [mbind option_bind]. rewrite tool_contents.
  cbn [mbind option_bind]. rewrite as_bool_bool. cbn [mbind option_bind]. unfold optional_value.
  destruct meta as [meta|]; [|done]. by rewrite bool_decide_eq_false_2 by congruence.
Qed.

Lemma tool_response_result id (outcome : result str HostError) :
  tool_result (result_response id (response_value (tool_response outcome))) = Some (tool_response outcome).
Proof.
  apply tool_result_value. destruct outcome as [?|[?|?]]; cbn; try done.
  injection 1 as E. by eapply json_object_not_null.
Qed.
(** ** What the drain learns *)

Definition call_verdict (outcome : result str HostError) : result unit DrainFailure :=
  match outcome with
  | Ok _ => Ok tt
  | Err (Rpc.Refused reason) => Err (Outbox.Refused reason)
  | Err (Transient reason) => Err (Transport reason)
  end.

Definition entry_meta entry : CallMeta := mkCallMeta (Some (entry_id entry)) (entry_date entry).

Definition dated entry : Prop :=
  match entry_date entry with Some d => (0 <= year d < 10000)%Z | None => True end.

Lemma outbox_request_reads entry :
  dated entry →
  call_meta (outbox_request entry) = entry_meta entry ∧
  request_tool_name (outbox_request entry) = Some (entry_tool entry) ∧
  arguments (outbox_request entry) = entry_args entry ∧
  request_id (outbox_request entry) = Some (json_string (u "outbox-" ++ entry_id entry)) ∧
  method (outbox_request entry) = u "tools/call".
Proof.
  intros Hd. unfold outbox_request. change (mkCallMeta _ _) with (entry_meta entry).
  destruct (with_meta_reads (JsonRpcRequest_new (json_string (u "outbox-" ++ entry_id entry)) (u "tools/call")
    (json_object [(u "name", json_string (entry_tool entry)); (u "arguments", entry_args entry)]))
    (entry_meta entry)) as (Hm & Hn & Ha & Hi & Hme).
  - cbn [params JsonRpcRequest_new]. unfold is_object.
    destruct (json_insert_object (u "_") json_null
      [(u "name", json_string (entry_tool entry)); (u "arguments", entry_args entry)]) as [y ->]. done.
  - exact Hd.
  - rewrite Hm, Hn, Ha, Hi, Hme. split_and!; try done.
    + unfold request_tool_name. cbn [params JsonRpcRequest_new mbind option_bind].
      rewrite (json_get_object (u "name") (json_string (entry_tool entry))) by solve_fields.
      apply as_str_string.
    + unfold arguments. cbn [params JsonRpcRequest_new mbind option_bind].
      by rewrite (json_get_object (u "arguments") (entry_args entry)) by solve_fields.
Qed.

Lemma tool_response_verdict id (outcome : result str HostError) :
  drain_verdict (Ok (result_response id (response_value (tool_response outcome)))) = call_verdict outcome.
Proof.
  unfold drain_verdict. cbn [response_error result_response]. rewrite tool_response_result.
  destruct outcome as [text|[reason|reason]]; cbn [tool_response call_verdict].
  - done.
  - unfold is_refusal, response_refused. cbn [is_error response_meta andb mbind option_bind].
    rewrite (json_get_object (u "thock")
      (json_object [(u "refused", json_bool true)])) by solve_fields.
    cbn [mbind option_bind]. rewrite (json_get_object (u "refused") (json_bool true)) by solve_fields.
    cbn [mbind option_bind]. by rewrite as_bool_bool.
  - done.
Qed.

Lemma queued_call_reply {host} `{!ToolHost host} (h : host) entry version :
  dated entry →
  ∃ r, (dispatch h (outbox_request entry) version).2 = Some r ∧ response_result r ≠ Some json_null ∧
  match tool_outcome (entry_tool entry) (entry_args entry) (entry_meta entry) with
  | Err e =>
      (dispatch h (outbox_request entry) version).1 = h ∧
      drain_verdict (Ok r) = Err (Outbox.Refused (message e))
  | Ok call =>
      (dispatch h (outbox_request entry) version).1 = (call h).1 ∧
      drain_verdict (Ok r) = call_verdict (call h).2
  end.
Proof.
  intros Hd. destruct (outbox_request_reads entry Hd) as (Hm & Hn & Ha & Hi & Hme).
  unfold dispatch. rewrite Hi, Hme. repeat rewrite bool_decide_eq_false_2 by (by intros [=]).
  rewrite bool_decide_eq_true_2 by done. unfold call_tool. rewrite Hn. cbn [or_refused].
  rewrite Ha, Hm. destruct (tool_outcome _ _ _) as [call|e].
  - destruct (call h) as [h' outcome]. cbn [fst snd]. eexists. split_and!; [done| |done|].
    + cbn [response_result result_response]. intros [= E]. by apply json_object_not_null in E.
    + apply tool_response_verdict.
  - cbn [fst snd]. eexists. by split_and!.
Qed.

(** What a drain does with a queued call is what the desk did with it. Over
    any host, sending the call asks the host for exactly the queued tool, with
    its arguments and the id and day it was queued under; the call counts as
    delivered exactly when the host answered it, is dropped exactly when the
    host, or the check of the arguments, refused it for good, with that reason,
    and is kept when the host's failure may pass. *)
Theorem drain_learns_outcome {host} `{!ToolHost host} (h : host) entry version :
  dated entry →
  let '(h', reply) := dispatch h (outbox_request entry) version in
  ∃ r, reply = Some r ∧
  match tool_outcome (entry_tool entry) (entry_args entry) (entry_meta entry) with
  | Err e => h' = h ∧ drain_verdict (Ok r) = Err (Outbox.Refused (message e))
  | Ok call => h' = (call h).1 ∧ drain_verdict (Ok r) = call_verdict (call h).2
  end.
Proof.
  intros Hd. destruct (queued_call_reply h entry version Hd) as (r & Hr & _ & Ho).
  destruct (dispatch h (outbox_request entry) version) as [h' reply]. by exists r.
Qed.

(** ** No request loses a queued call *)

Section queue.
Context {World : Type} (http : HttpRequest → World → World * result HttpResponse str).
Context (mirror_world : ClientConfig → World → World).
Implicit Types (w : World) (send : OutboxEntry → World → World * result unit DrainFailure).

(** Calls sent one after the other, each with the verdict it was settled by. *)
Inductive settled_run send : World → list (OutboxEntry * result unit DrainFailure) → World → Prop :=
  | settled_nil w : settled_run send w [] w
  | settled_cons w entry verdict w1 gone w2 :
      send entry w = (w1, verdict) → ¬ silent verdict → settled_run send w1 gone w2 →
      settled_run send w ((entry, verdict) :: gone) w2.

Definition dropped (gone : list (OutboxEntry * result unit DrainFailure)) : list (OutboxEntry * str) :=
  omap (λ g, match g.2 with Err (Outbox.Refused reason) => Some (g.1, reason) | _ => None end) gone.

Lemma drain_over_spec send fuel f d queue w :
  holds f queue → NoDup (map entry_id queue) →
  (∀ e, e ∈ queue → entry_id e ∉ done_ids d) → length queue < fuel →
  ∃ f' gone kept r w1 w2, queue = map fst gone ++ kept ∧ settled_run send w gone w1 ∧ holds f' kept ∧
    drain_over fuel send f d w = Some (w2, f', r) ∧
    refused r = refused (report d) ++ dropped gone ∧
    match kept with
    | [] => w2 = w1
    | entry :: _ => ∃ reason, send entry w1 = (w2, Err (Transport reason))
    end.
Proof.
  revert f d queue w. induction fuel as [|fuel IH]; intros f d queue w Hh Hnd Hdone Hf; [lia|].
  cbn [drain_over]. destruct queue as [|entry queue].
  { exists f, [], [], (report d), w, w. unfold pick, read_to_string. cbn [io_lock io_unreadable calm]. rewrite (holds_entries _ _ Hh). cbn.
    split_and!; try done; [constructor|by rewrite app_nil_r]. }
  rewrite (pick_first f d entry queue); [|done|apply Hdone; by left]. cbn [at_phase].
  destruct (send entry w) as [w1 verdict] eqn:Es.
  destruct (holds_remove f (entry :: queue) (entry_id entry) Hh) as (f1 & Hrm & Hh1).
  rewrite filter_other_ids in Hh1 by done. apply NoDup_cons in Hnd as [Hn Hnd]. simpl in Hf.
  assert (∀ d1 v, refused (report d1) = refused (report d) ++ dropped [(entry, v)] →
    done_ids d1 = done_ids d ++ [entry_id entry] → send entry w = (w1, v) → ¬ silent v →
    ∃ f' gone kept r w1 w2, entry :: queue = map fst gone ++ kept ∧ settled_run send w gone w1 ∧
      holds f' kept ∧ drain_over fuel send f1 d1 (send entry w).1 = Some (w2, f', r) ∧
      refused r = refused (report d) ++ dropped gone ∧
      match kept with
      | [] => w2 = w1
      | entry :: _ => ∃ reason, send entry w1 = (w2, Err (Transport reason))
      end) as Hrest.
  { intros d1 v Hr Hd1 Hv Hns. rewrite Hv.
    destruct (IH f1 d1 queue w1) as (f' & gone & kept & r & w2 & w3 & -> & Hg & Hk & Hd & Hrr & Hst);
      [done|done| |lia|].
    - intros e He. rewrite Hd1, not_elem_of_app. split; [apply Hdone; by right|].
      intros E%list_elem_of_singleton. apply Hn. rewrite <- E. by apply list_elem_of_fmap_2.
    - exists f', ((entry, v) :: gone), kept, r, w2, w3. split_and!; try done.
      + by econstructor.
      + rewrite Hrr, Hr, <- app_assoc. f_equal. unfold dropped. cbn [omap list_omap fst snd].
        by destruct v as [[]|[|]]. }
  unfold answered, removed. cbn [report done_ids at_phase].
  destruct verdict as [[]|[reason|reason]]; cbn [at_phase report done_ids].
  - rewrite Hrm. cbn [at_phase report done_ids]. rewrite Es in Hrest. eapply Hrest; [|done|done|].
    + cbn. by rewrite app_nil_r.
    + by intros [? ?].
  - exists f, [], (entry :: queue). do 3 eexists. split_and!; [done|constructor|done|reflexivity| |eauto].
    cbn. by rewrite app_nil_r.
  - rewrite Hrm. cbn [at_phase report done_ids]. rewrite Es in Hrest. eapply Hrest; [|done|done|].
    + done.
    + by intros [? ?].
Qed.

(** What a drain did to the proxy's queue. *)
Definition drained p w p' : Prop :=
  ∃ gone kept w1, entries (proxy_outbox p) = map fst gone ++ kept ∧
    settled_run (send_entry http p) w gone w1 ∧ holds (proxy_outbox p') kept ∧
    refusals p' = refusals p ++ map refusal_line (dropped gone).

Lemma drain_outbox_spec p w queue p' w' :
  holds (proxy_outbox p) queue → NoDup (map entry_id queue) → drain_outbox http p w = (p', w') →
  drained p w p' ∧ proxy_config p' = proxy_config p ∧ proxy_harness p' = proxy_harness p ∧
  (online p = Some false → p' = p).
Proof.
  intros Hh Hnd. pose proof (holds_entries _ _ Hh) as He. unfold drain_outbox. rewrite He.
  assert (drained p w p) as Hsame.
  { exists [], queue, w. cbn. rewrite He, app_nil_r. split_and!; try done. constructor. }
  destruct queue as [|entry queue]; [by intros [= <- <-]|].
  destruct (is_none (proxy_config p) || (online p == Some false)) eqn:Eo; [by intros [= <- <-]|].
  destruct (drain_over_spec (send_entry http p) (S (length (entry :: queue))) (proxy_outbox p)
    drainer_start (entry :: queue) w) as (f' & gone & kept & r & w1 & w2 & Hq & Hg & Hk & -> & Hr & _);
    [done|done|by intros e _ ?%elem_of_nil|lia|].
  intros [= <- <-]. split; [|split_and!].
  - exists gone, kept, w1. rewrite He. split_and!; try done.
    + by destruct (0 <? sent r)%nat.
    + cbn in Hr. rewrite Hr. by destruct (0 <? sent r)%nat.
  - by destruct (0 <? sent r)%nat.
  - by destruct (0 <? sent r)%nat.
  - intros Ho. rewrite Ho in Eo. by destruct (is_none _).
Qed.

(** What the rest of a request leaves alone. *)
Definition same_queue p p' : Prop :=
  proxy_outbox p' = proxy_outbox p ∧ refusals p' = refusals p ∧ proxy_config p' = proxy_config p ∧
  proxy_harness p' = proxy_harness p.

Lemma store_same env file text p : same_queue p (store env file text p).
Proof. unfold store. by destruct (cache_fault env file). Qed.

Lemma remember_answer_same env request tool args response p :
  same_queue p (remember_answer env request tool args response p).
Proof.
  unfold remember_answer. destruct (_ == _).
  - destruct (contents_text_of response), (resource_file (request_uri request)); try done. apply store_same.
  - destruct (tool_result response) as [r|]; [|done]. destruct (is_error r); [done|].
    destruct (tool_file tool args); [apply store_same|done].
Qed.

Lemma mirror_if_due_same env p w : same_queue p (mirror_if_due mirror_world env p w).1.
Proof. unfold mirror_if_due. by destruct (match last_mirror p with Some _ => _ | None => _ end). Qed.

(** The call a write is queued as. *)
Definition queued_entry env request p : OutboxEntry :=
  mkOutboxEntry _ (queue_id env) (now_text env) (default [] (request_tool_name request))
    (arguments request) (proxy_harness p).

Definition queued_reply id : JsonRpcResponse :=
  result_response id (response_value (response_text QUEUED_SENTENCE)).

Lemma offline_answer_queue env id request tool args reason p queue p' response :
  holds (proxy_outbox p) queue → offline_answer env id request tool args reason p = (p', response) →
  refusals p' = refusals p ∧
  ((holds (proxy_outbox p') queue) ∨
   ∃ name, tool = Some name ∧ is_write_tool tool = true ∧ response = queued_reply id ∧
     holds (proxy_outbox p')
       (queue ++ [mkOutboxEntry _ (queue_id env) (now_text env) name args (proxy_harness p)])).
Proof.
  intros Hh. unfold offline_answer. destruct (_ == _); [intros [= <- _]; auto|].
  destruct tool as [name|]; [|intros [= <- _]; auto].
  destruct (is_write_tool (Some name)) eqn:Ew; [|intros [= <- _]; auto].
  unfold queue_write. destruct (validate_tool_arguments name args); [|intros [= <- _]; auto].
  destruct (push _ _) as [f [[]|error]] eqn:Ep; intros [= <- <-]; (split; [done|]).
  - right. exists name. split_and!; try done. by apply (holds_push calm _ _ _ _ _ eq_refl Hh) in Ep.
  - left. apply (holds_push calm _ _ _ _ _ eq_refl Hh) in Ep. by rewrite app_nil_r in Ep.
Qed.

(** Every call of the queue is kept in order, or was settled by the desk, its
    refusal on record; at most one call is added, the write just asked for. *)
Definition queue_kept env request p p' (reply : option JsonRpcResponse) : Prop :=
  ∃ gone kept added w0 w1,
    entries (proxy_outbox p) = map fst gone ++ kept ∧ settled_run (send_entry http p) w0 gone w1 ∧
    refusals p' = refusals p ++ map refusal_line (dropped gone) ∧
    holds (proxy_outbox p') (kept ++ added) ∧
    (added = [] ∨
     added = [queued_entry env request p] ∧ is_write_tool (request_tool_name request) = true ∧
     queued_reply <$> request_id request = reply).

Lemma queue_kept_drained env request p w p1 p' reply :
  drained p w p1 → same_queue p1 p' → queue_kept env request p p' reply.
Proof.
  intros (gone & kept & w1 & Hq & Hg & Hk & Hr) (Ho & Hrr & _).
  exists gone, kept, [], w, w1. rewrite app_nil_r, Ho. split_and!; try done; [congruence|by left].
Qed.

Lemma same_queue_trans p1 p2 p3 : same_queue p1 p2 → same_queue p2 p3 → same_queue p1 p3.
Proof. unfold same_queue. intuition congruence. Qed.

Lemma send_entry_same p p' entry w :
  proxy_config p' = proxy_config p → proxy_harness p' = proxy_harness p →
  send_entry http p' entry w = send_entry http p entry w.
Proof. intros Hc Hh. unfold send_entry, forward, harness_header. by rewrite Hc, Hh. Qed.

Lemma drained_from p p' w p1 :
  same_queue p p' → drained p' w p1 → drained p w p1.
Proof.
  intros (Ho & Hr & Hc & Hh) (gone & kept & w1 & Hq & Hg & Hk & Hrr).
  exists gone, kept, w1. rewrite <- Ho, <- Hr. split_and!; try done.
  clear -Hg Hc Hh. induction Hg as [|w0 entry v w1 gone w2 Hs Hn _ IH]; [constructor|].
  econstructor; [by rewrite <- (send_entry_same p p')|done|done].
Qed.

Lemma ask_desk_keeps env id request p w queue p' w' response :
  request_id request = Some id → holds (proxy_outbox p) queue → NoDup (map entry_id queue) →
  ask_desk http mirror_world env id request p w = (p', w', response) →
  queue_kept env request p p' (Some response).
Proof.
  intros Hid Hh Hnd. unfold ask_desk.
  destruct (drain_outbox http p w) as [p1 w1] eqn:Ed.
  destruct (drain_outbox_spec p w queue p1 w1 Hh Hnd Ed) as (Hdr & Hc & Hha & Hoff).
  destruct (forward _ _ _ _ _) as [w2 [reply|[reason|status reason]]].
  - set (p2 := note_online true p1). set (write := is_write_tool _).
    assert (same_queue p1 p2) as H12 by done.
    destruct (if online p1 == Some false then _ else _) as [p3 w3] eqn:Ed3.
    assert (∃ w0, drained p w0 p3) as [w0 Hdr3].
    { destruct (bool_decide_reflect (online p1 = Some false)) as [Eo|Eo].
      - assert (p1 = p) as ->.
        { apply Hoff. revert Eo Ed. unfold drain_outbox. clear.
          destruct (entries _); [by intros ? [= <- _]|]. destruct (_ || _); [by intros ? [= <- _]|].
          destruct (drain_over _ _ _ _ _) as [[[w2 f] r]|]; [|by intros ? [= <- _]].
          destruct (0 <? sent r)%nat; intros Eo [= <- _]; done. }
        destruct (drain_outbox_spec p2 w2 queue p3 w3) as (Hdr3 & _); [done..|].
        exists w2. by eapply drained_from.
      - injection Ed3 as <- <-. by exists w. }
    destruct (if write then _ else _) as [p5 w5] eqn:E5. intros [= <- _ _].
    eapply queue_kept_drained; [exact Hdr3|].
    destruct write; [|injection E5 as <- _; apply remember_answer_same].
    match type of E5 with
      mirror_if_due _ _ ?q _ = _ => pose proof (mirror_if_due_same env q w3) as Hm
    end.
    rewrite E5 in Hm. eapply same_queue_trans; [apply remember_answer_same|exact Hm].
  - destruct (offline_answer _ _ _ _ _ _ _) as [p3 r3] eqn:Eo. intros [= <- _ <-].
    destruct Hdr as (gone & kept & w3 & Hq & Hg & Hk & Hr).
    apply (offline_answer_queue env id _ _ _ _ _ kept) in Eo as (Hrr & Hq'); [|done].
    cbn [note_online refusals proxy_outbox proxy_harness] in Hrr, Hq'.
    destruct Hq' as [Hq'|(name & Hname & Hw & -> & Hq')].
    + exists gone, kept, [], w, w3. rewrite app_nil_r. split_and!; try done; [congruence|by left].
    + exists gone, kept, [queued_entry env request p], w, w3. split_and!; try done; [congruence| |].
      * unfold queued_entry. rewrite Hname. cbn [default]. by rewrite <- Hha.
      * right. split_and!; [done|done|]. by rewrite Hid.
  - intros [= <- _ _]. by eapply queue_kept_drained.
Qed.


(** ** Away from the desk *)

Lemma drain_outbox_cache p w : proxy_cache (drain_outbox http p w).1 = proxy_cache p.
Proof.
  unfold drain_outbox. destruct (entries _); [done|]. destruct (_ || _); [done|].
  destruct (drain_over _ _ _ _ _) as [[[w2 f] r]|]; [|done]. by destruct (0 <? sent r)%nat.
Qed.

Lemma drain_outbox_online p w o :
  online p = Some o → online (drain_outbox http p w).1 = Some o ∨ online (drain_outbox http p w).1 = Some true.
Proof.
  intros Ho. unfold drain_outbox. destruct (entries _); [by left|]. destruct (_ || _); [by left|].
  destruct (drain_over _ _ _ _ _) as [[[w2 f] r]|]; [|by left]. destruct (0 <? sent r)%nat; [by right|by left].
Qed.

Lemma offline_answer_online env id request tool args reason p :
  online (offline_answer env id request tool args reason p).1 = online p.
Proof.
  unfold offline_answer. destruct (_ == _); [done|]. destruct tool as [name|]; [|done].
  destruct (is_write_tool _); [|done]. unfold queue_write.
  destruct (validate_tool_arguments _ _); [|done]. by destruct (push _ _).
Qed.

Lemma handle_desk_method version env request p w id :
  request_id request = Some id → method request ∈ DESK_METHODS →
  handle http mirror_world version env request p w =
    let '(p, w, response) := ask_desk http mirror_world env id request p w in (p, w, Some response).
Proof.
  intros Hid Hm. unfold handle. assert (learn_harness request p = p) as ->.
  { unfold learn_harness. destruct (bool_decide_reflect (method request = u "initialize")) as [E|E]; [|done].
    exfalso. rewrite E in Hm. by repeat (apply elem_of_cons in Hm as [[=]|Hm]); apply elem_of_nil in Hm. }
  rewrite Hid. rewrite (bool_decide_eq_true_2 (method request ∈ DESK_METHODS)) by done.
  rewrite bool_decide_eq_false_2; [done|]. clear -Hm.
  intros Hl. repeat (apply elem_of_cons in Hm as [E|Hm]; [rewrite E in Hl;
    by repeat (apply elem_of_cons in Hl as [[=]|Hl]); apply elem_of_nil in Hl|]).
  by apply elem_of_nil in Hm.
Qed.

(** A request whose desk was away was answered without it. *)
Lemma ask_desk_away env id request p w p' w' response :
  ask_desk http mirror_world env id request p w = (p', w', response) → online p' = Some false →
  ∃ reason sent, method sent = method request ∧
    offline_answer env id sent (request_tool_name request) (arguments request) reason
              (note_online false (drain_outbox http p w).1) = (p', response).
Proof.
  unfold ask_desk. destruct (drain_outbox http p w) as [p1 w1]. cbn [fst].
  set (sent := if is_write_tool _ then with_meta _ _ else _).
  assert (method sent = method request) as Hsent by (subst sent; by destruct (is_write_tool _)).
  clearbody sent.
  destruct (forward _ _ _ _ _) as [w2 [reply|[reason|status reason]]].
  - intros E Ho. exfalso. revert E. set (p2 := note_online true p1).
    destruct (if online p1 == Some false then _ else _) as [p3 w3] eqn:Ed.
    assert (online p3 = Some true) as Hon3.
    { destruct (online p1 == Some false); [|by injection Ed as <- _].
      destruct (drain_outbox_online p2 w2 true eq_refl) as [E|E]; by rewrite Ed in E. }
    set (p4 := remember_answer _ _ _ _ _ _).
    assert (online p4 = Some true) as Hon4.
    { subst p4. unfold remember_answer, store.
      repeat match goal with |- context [match ?x with _ => _ end] => destruct x; try done end. }
    destruct (if is_write_tool _ then _ else _) as [p5 w5] eqn:E5.
    assert (online p5 = Some true) as Hon5.
    { destruct (is_write_tool _); [|by injection E5 as <- _]. revert E5. unfold mirror_if_due.
      destruct (match last_mirror p4 with Some _ => _ | None => _ end); by intros [= <- _]. }
    intros [= -> _ _]. congruence.
  - destruct (offline_answer _ _ _ _ _ _ _) as [p3 r3] eqn:Eo. intros [= <- _ <-] _. by exists reason, sent.
  - intros [= <- _ _]. done.
Qed.

End queue.

(** *** What was read before *)

Section offline_reads.
Context {World : Type} (http http' : HttpRequest → World → World * result HttpResponse str).
Context (mirror_world : ClientConfig → World → World).

(** What the desk answered is what is read while it is away. A context, a
    note by its path or a search that the desk answered, asked again while the
    desk does not answer, gets the same text, followed by the time it is from;
    whatever time passed, and however the round trips failed. *)
Theorem offline_read_is_last_answer version env env' request request' p w p1 w1 response result_ p2 w2
    reply file id :
  method request = u "tools/call" → method request' = u "tools/call" →
  request_id request' = Some id →
  request_tool_name request' = request_tool_name request → arguments request' = arguments request →
  is_write_tool (request_tool_name request) = false →
  tool_file (request_tool_name request) (arguments request) = Some file → cache_fault env file = None →
  handle http mirror_world version env request p w = (p1, w1, Some response) → online p1 = Some true →
  tool_result response = Some result_ → is_error result_ = false →
  handle http' mirror_world version env' request' p1 w1 = (p2, w2, reply) → online p2 = Some false →
  reply = Some (result_response id (response_value
    (response_text (first_text result_ ++ offline_suffix (now_text env) (desk_label p1))))).
Proof.
  intros Hm Hm' Hid' Hn Ha Hw Hf Hfault Hone Ho1 Hr He Htwo Ho2.
  assert (proxy_cache p1 !! file = Some (mkCachedText (now_text env) (first_text result_))) as Hcache.
  { destruct (request_id request) as [id0|] eqn:Hid.
    2:{ revert Hone. unfold handle. by rewrite Hid. }
    rewrite (handle_desk_method _ _ _ _ _ _ _ id0) in Hone by (done || rewrite Hm; by left).
    destruct (ask_desk _ _ _ _ _ _ _) as [[p3 w3] r3] eqn:Ea. injection Hone as -> _ ->.
    revert Ea. unfold ask_desk. rewrite Hw. destruct (drain_outbox http p w) as [p3 w4].
    destruct (forward _ _ _ _ _) as [w5 [answer|[reason|status reason]]].
    - destruct (if online p3 == Some false then _ else _) as [p4 w6]. intros [= <- _ ->].
      unfold remember_answer. rewrite Hm. rewrite bool_decide_eq_false_2 by done. rewrite Hr, He, Hf.
      unfold store. rewrite Hfault. apply lookup_insert_eq.
    - destruct (offline_answer _ _ _ _ _ _ _) as [p4 r4] eqn:Eo. intros [= <- _ _]. exfalso.
      pose proof (offline_answer_online env id0 request (request_tool_name request) (arguments request)
        reason (note_online false p3)) as Hoff. rewrite Eo in Hoff. cbn [fst note_online online] in Hoff. congruence.
    - intros [= <- _ <-]. exfalso. rewrite tool_result_value in Hr by done. by injection Hr as <-. }
  rewrite (handle_desk_method _ _ _ _ _ _ _ id) in Htwo by (done || rewrite Hm'; by left).
  destruct (ask_desk _ _ _ _ _ _ _) as [[p3 w3] r3] eqn:Ea. injection Htwo as -> _ <-.
  apply ask_desk_away in Ea as (reason & forwarded & Hsent & Ea); [|done].
  pose proof (drain_outbox_cache http' p1 w1) as Hc.
  assert (desk_label (drain_outbox http' p1 w1).1 = desk_label p1) as Hlabel.
  { unfold desk_label. f_equal. f_equal. unfold drain_outbox. destruct (entries _); [done|].
    destruct (_ || _); [done|]. destruct (drain_over _ _ _ _ _) as [[[w4 f4] r4]|]; [|done].
    by destruct (0 <? sent r4)%nat. }
  revert Ea. unfold offline_answer. rewrite Hsent, Hm'. rewrite bool_decide_eq_false_2 by done. rewrite Hn, Ha.
  destruct (request_tool_name request) as [name|] eqn:En; [|done]. rewrite Hw. intros [= _ <-].
  do 3 f_equal. unfold offline_read. change (desk_label (note_online _ ?x)) with (desk_label x).
  rewrite Hlabel.
  assert (∀ what, from_cache (note_online false (drain_outbox http' p1 w1).1) (desk_label p1) reason
    (tool_file (Some name) (arguments request)) what =
    response_text (first_text result_ ++ offline_suffix (now_text env) (desk_label p1))) as Hfrom.
  { intros what. unfold from_cache. rewrite Hf. cbn [mbind option_bind proxy_cache note_online].
    by rewrite Hc, Hcache. }
  rewrite !Hfrom. unfold tool_file in Hf. destruct (name == u "context"); [done|].
  destruct (name == u "read"); [by destruct (str_arg (u "path") (arguments request))|].
  by destruct (name == u "search").
Qed.
End offline_reads.
End client_theory.
