(* ===== verification/Delivery.v ===== *)
(** * From the client's queue to the desk, over a connection

    The two programs put together: what a queued call becomes on the wire
    ([thock-bridge/http.rs], [main.rs]), the desk's handling of one connection
    ([thock/bridge_service.rs], [handle_connection]), and the reply's way back,
    on a network that may lose either. *)

From stdpp Require Import gmap relations.
From S2P Require Import Prelude Strings Utf8 External Rules NoteIndex Rpc RpcTheory Http HttpTheory.
From S2P Require Import AgentMirror VaultFs Notes Memory Desk Server DeskTheory ServerTheory.
From S2P Require Import Outbox Client ClientTheory.

(** What becomes of a round trip: it may be lost before the desk or after it. *)
Inductive Fate :=
  | Arrives
  | RequestLost (reason : str)
  | ReplyLost (reason : str).

Section wire.
Context `{JsonOps} `{ChronoParse} `{!ChronoDays} `{!Clock} `{faults : FsFaults}.
Context `{UnicodeTables} `{Digest} `{SeenJson} `{!ServerFormats}.
Implicit Types (s : Server) (env : ServerEnv).

(** [handle_connection], once its slot is taken: the head, the answer or the
    foreground's, and the bytes written back. A head is always read to an end
    ([HttpTheory.read_request_head_total]), so [None] does not occur. *)
Definition handle_connection env (arrived : Stream) s : option (Server * list N) :=
  head ← read_request_head arrived;
  let '(s, outgoing) :=
    match head with
    | Ok (head, body) =>
        match Server.answer (clients s) head body with
        | inl reply => (s, reply)
        | inr incoming => handle_incoming env incoming s
        end
    | Err status => (s, out_error status (u "the desk couldn't read that request"))
    end in
  Some (s, write_response (out_status outgoing) (out_content_type outgoing) (out_body outgoing)).

(** A round trip of the client to this desk. *)
Definition round_trip (fate : Fate) env (r : HttpRequest) s : Server * result HttpResponse str :=
  let reached host port target :=
    handle_connection env (mkStream (request_bytes r host port target) None) s in
  let desk :=
    match parse_url (request_url r), fate with
    | Ok (host, port, target), (Arrives | ReplyLost _) => fst <$> reached host port target
    | _, _ => None
    end in
  let exchange _ _ bytes :=
    match fate with
    | Arrives => Ok (default [] (snd <$> handle_connection env (mkStream bytes None) s))
    | RequestLost reason | ReplyLost reason => Err reason
    end in
  (default s desk, default (Err []) (request exchange r)).
End wire.

(** ** What [serde_json] promises of the two programs' texts *)

Section values.
Context `{JsonOps} `{ChronoParse}.

(** [Serialize] of a request. *)
Definition request_value (r : JsonRpcRequest) : json :=
  json_object
    ([(u "jsonrpc", json_string (jsonrpc r))]
     ++ match request_id r with Some id => [(u "id", id)] | None => [] end
     ++ [(u "method", json_string (method r))]
     ++ match params r with Some p => [(u "params", p)] | None => [] end).
End values.

(** What is written is a text, and reads back as the value it was written from;
    an absent field and [null] are the same to [Option]. *)
Class WireLaws `{JsonOps} `{ChronoParse} `{!ServerFormats} `{!ClientFormats} : Prop := {
  request_text r body :
    request_to_vec r = Ok body → json_from_str (from_utf8_lossy body) = Ok (request_value r);
  reply_usv r : Forall usv (rpc_response_json r);
  reply_text r :
    response_result r ≠ Some json_null → response_from_str (rpc_response_json r) = Ok r;
}.

Section texts.
Context `{JsonOps} `{!JsonLaws} `{ChronoParse} `{!ServerFormats} `{!ClientFormats} `{!WireLaws}.

Lemma string_not_null (s : str) : json_string s ≠ json_null.
Proof. intros E. pose proof (as_str_string s) as Hs. by rewrite E, as_str_null in Hs. Qed.

Lemma inserted_not_null (k : str) (v x y : json) : json_insert k v x = Some y → y ≠ json_null.
Proof. intros Hi ->. apply json_get_insert in Hi. by rewrite json_get_null in Hi. Qed.

(** A request the client wrote is the request the desk reads. *)
Lemma request_parses r body :
  request_id r ≠ Some json_null → params r ≠ Some json_null → request_to_vec r = Ok body →
  JsonRpcRequest_parse from_value_error (from_utf8_lossy body) = Ok r.
Proof.
  intros Hid Hp Hb. unfold JsonRpcRequest_parse. rewrite (request_text _ _ Hb).
  assert (is_object (request_value r) = true) as ->.
  { unfold is_object, request_value. by destruct (json_insert_object (u "_") json_null
      ([(u "jsonrpc", json_string (jsonrpc r))]
       ++ match request_id r with Some id => [(u "id", id)] | None => [] end
       ++ [(u "method", json_string (method r))]
       ++ match params r with Some p => [(u "params", p)] | None => [] end)) as [y ->]. }
  cbn [negb]. unfold request_from_value, request_value.
  destruct r as [version id name p]. cbn [jsonrpc request_id method params] in *.
  set (kvs := _ ++ _).
  assert (json_get (u "jsonrpc") (json_object kvs) = Some (json_string version)) as ->
    by (subst kvs; destruct id, p; apply json_get_object; cbn [app]; solve_fields).
  assert (json_get (u "method") (json_object kvs) = Some (json_string name)) as ->
    by (subst kvs; destruct id, p; apply json_get_object; cbn [app]; solve_fields).
  assert (json_get (u "id") (json_object kvs) = id) as ->.
  { subst kvs. destruct id, p; cbn [app]; first [apply json_get_object; solve_fields
      | apply json_get_object_None; solve_fields]. }
  assert (json_get (u "params") (json_object kvs) = p) as ->.
  { subst kvs. destruct id, p; cbn [app]; first [apply json_get_object; solve_fields
      | apply json_get_object_None; solve_fields]. }
  rewrite as_str_string. cbn [mbind option_bind]. rewrite as_str_string. cbn [mbind option_bind].
  unfold optional_value. destruct id as [id|], p as [p|];
    rewrite ?bool_decide_eq_false_2 by congruence; done.
Qed.

Lemma queued_request_parses `{!EntryJson} entry body :
  request_to_vec (outbox_request entry) = Ok body →
  JsonRpcRequest_parse from_value_error (from_utf8_lossy body) = Ok (outbox_request entry).
Proof.
  apply request_parses; unfold outbox_request, with_meta; cbn [request_id params JsonRpcRequest_new default].
  - intros [=]. by eapply string_not_null.
  - destruct (json_insert _ _ _) as [y|] eqn:E; cbn [default]; intros [= E'].
    + by apply (inserted_not_null _ _ _ _ E).
    + by apply json_object_not_null in E'.
Qed.
End texts.

(** ** What reaches the desk *)

Section delivery.
Context `{JsonOps} `{!JsonLaws} `{ChronoParse} `{!ChronoParseLaws} `{!ChronoDays} `{!Clock}.
Context `{UnicodeTables} `{Digest} `{SeenJson} `{!ServerFormats} `{!EntryJson} `{!EntryJsonLaws}.
Context `{!ClientFormats} `{!WireLaws}.
Implicit Types (s : Server) (env : ServerEnv) (p : Proxy) (entry : OutboxEntry) (config : ClientConfig).

Definition queued_http config p entry body : HttpRequest :=
  desk_request config (u "POST") (u "/mcp") body (harness_header p (entry_harness entry)).

(** The client is paired and what it would send of [entry] is within the caps:
    the address is one, the headers are one line each, the body is the entry's. *)
Record sendable config p entry (host : str) (port : N) body : Prop := {
  is_paired : proxy_config p = Some config;
  body_written : request_to_vec (outbox_request entry) = Ok body;
  address_read : parse_url (desk_url (config_desk config) (u "/mcp")) = Ok (host, port, u "/mcp");
  token_one_word : config_token config ≠ [] ∧
    Forall (λ c, is_whitespace c = false) (config_token config);
  http_ok : request_ok (queued_http config p entry body) host (u "/mcp");
  head_fits : length (as_bytes (request_head_text (queued_http config p entry body) host port (u "/mcp")))
              ≤ MAX_HEAD_BYTES;
  body_taken : length body ≤ BODY_LIMIT;
}.

(** The desk has the vault open and a machine with this token. *)
Definition knows_token s config : Prop :=
  vault_open s = true ∧
  ∃ client, ∀ head, bearer_token (head_headers head) = Some (config_token config) →
    authenticate (clients s) head = Some client.

Lemma bearer_of_token (token : str) :
  token ≠ [] → Forall (λ c, is_whitespace c = false) token → bearer_of (u "Bearer " ++ token) = Some token.
Proof.
  intros Hne Hw. unfold bearer_of. pose proof (trim_no_space token Hw) as Htrim.
  change (u "Bearer " ++ token) with (ch "B" :: u "earer " ++ token).
  rewrite trim_app_keep by (done || by rewrite Htrim).
  assert (trim_end token = token) as ->.
  { destruct (last token) as [c|] eqn:El.
    - apply (trim_end_last _ c El). rewrite Forall_forall in Hw. apply Hw. by apply last_Some_elem_of.
    - apply last_None in El. done. }
  change (ch "B" :: u "earer " ++ token) with (u "Bearer" ++ [32%N] ++ token).
  change (u " ") with [32%N]. rewrite split_once_char by decide_closed. rewrite Htrim.
  assert (eq_ignore_ascii_case (u "Bearer") (u "bearer") = true) as -> by reflexivity.
  destruct token; [done|]. done.
Qed.

Lemma sent_token config method path body extra host port :
  config_token config ≠ [] → Forall (λ c, is_whitespace c = false) (config_token config) →
  bearer_token (request_header_list (desk_request config method path body extra) host port)
  = Some (config_token config).
Proof.
  intros Hne Hw. unfold bearer_token, request_header_list, desk_request. cbn [request_headers].
  unfold header_list. rewrite !filter_cons_False by done. rewrite <- app_comm_cons, filter_cons_True by done.
  rewrite <- app_comm_cons, filter_cons_True by done. cbn [find_map snd].
  by rewrite bearer_of_token.
Qed.

(** The desk's half of the round trip: the machine's request, whole, on the
    foreground. *)
Lemma request_arrives `{faults : FsFaults} env config p entry host port body s client :
  sendable config p entry host port body → vault_open s = true →
  (∀ head, bearer_token (head_headers head) = Some (config_token config) →
    authenticate (clients s) head = Some client) →
  ∃ incoming,
    incoming_route incoming = Mcp ∧ incoming_client incoming = Some client ∧
    incoming_body incoming = body ∧
    handle_connection env
      (mkStream (request_bytes (queued_http config p entry body) host port (u "/mcp")) None) s =
    let '(s', out) := handle_incoming env incoming s in
    Some (s', write_response (out_status out) (out_content_type out) (out_body out)).
Proof.
  intros [Hc Hw Ha [Hne Ht] Hok Hhead Hbody] Hopen Hknown.
  destruct (request_roundtrip _ host port (u "/mcp") None Hok Hhead) as [Hread Hb].
  unfold handle_connection. rewrite Hread. cbn [mbind option_bind].
  unfold Server.answer, parse_route. cbn [head_method head_url head_headers content_length].
  set (route := if _ && _ then Pair else _).
  assert (route = Mcp) as -> by reflexivity. unfold identify.
  rewrite Hknown by (cbn [head_headers]; by apply sent_token). unfold take_body.
  change (is_some (Some client)) with true. cbn [content_length].
  rewrite (proj2 (N.ltb_ge _ _)) by (unfold queued_http, desk_request; cbn [request_body]; lia).
  rewrite Hb. cbv beta iota zeta.
  match goal with |- context [handle_incoming env ?i s] => exists i end.
  split_and!; [done..|]. by destruct (handle_incoming _ _ _).
Qed.

(** What the desk does with a queued call on its foreground, and what the reply
    tells the client. *)
Definition call_served `{faults : FsFaults} (denv : DeskEnv) entry (d d' : Desk)
  (verdict : result unit DrainFailure) : Prop :=
  match @tool_outcome _ _ _ _ Desk (DeskHost denv) (entry_tool entry) (entry_args entry)
          (entry_meta entry) with
  | Err e => d' = d ∧ verdict = Err (Outbox.Refused (message e))
  | Ok call => d' = (call d).1 ∧ verdict = call_verdict (call d).2
  end.

Lemma incoming_call `{faults : FsFaults} env incoming s client entry :
  incoming_route incoming = Mcp → incoming_client incoming = Some client → vault_open s = true →
  request_to_vec (outbox_request entry) = Ok (incoming_body incoming) → dated entry →
  ∃ denv r,
    (handle_incoming env incoming s).2 = out_json 200 (rpc_response_json r) ∧
    response_result r ≠ Some json_null ∧
    call_served denv entry (server_desk s) (server_desk (handle_incoming env incoming s).1)
      (drain_verdict (Ok r)).
Proof.
  intros Hr Hc Ho Hb Hd. unfold handle_incoming, handle_route. rewrite Ho, Hr, Hc. cbn [negb].
  unfold handle_mcp. rewrite (queued_request_parses _ _ Hb), Hc.
  assert (is_notification (outbox_request entry) = false) as -> by done.
  set (identity := ClientIdentity_new _ _). exists (with_identity identity (desk_env env)).
  destruct (queued_call_reply (ToolHost0 := DeskHost (with_identity identity (desk_env env)))
    (server_desk s) entry (app_version env) Hd) as (r & Hreply & Hn & Hout). exists r.
  destruct (dispatch _ _ _) as [d response]. cbn [fst snd] in Hreply, Hout. subst response.
  destruct (touch_client _ _ _ _) as [s' persist] eqn:Et. apply touch_client_spec in Et as [_ Hs].
  cbn [fst snd]. split_and!; [done|done|].
  assert (server_desk (if persist then persist_clients_later s' else s') = d) as ->
    by (destruct persist; exact Hs).
  unfold call_served. by destruct (tool_outcome _ _ _).
Qed.

(** A call sent over a network that loses nothing. *)
Lemma call_arrives `{faults : FsFaults} env config p entry host port body s :
  sendable config p entry host port body → knows_token s config → dated entry →
  ∃ denv, let '(s', verdict) := send_entry (round_trip Arrives env) p entry s in
    call_served denv entry (server_desk s) (server_desk s') verdict.
Proof.
  intros Hsend (Hopen & client & Hknown) Hd.
  destruct (request_arrives env _ _ _ _ _ _ s client Hsend Hopen Hknown)
    as (incoming & Hr & Hc & Hb & Hconn).
  destruct Hsend as [Hp Hw Ha _ _ _ _]. rewrite <- Hb in Hw.
  destruct (incoming_call env incoming s client entry Hr Hc Hopen Hw Hd) as (denv & r & Hout & Hn & Hs).
  exists denv. unfold send_entry, forward. rewrite Hp, Hw, Hb.
  change (desk_request _ _ _ _ _) with (queued_http config p entry body).
  unfold round_trip, request. cbn [queued_http desk_request request_url]. rewrite Ha.
  change (mkHttpRequest _ _ _ _) with (queued_http config p entry body). rewrite Hconn.
  destruct (handle_incoming env incoming s) as [s' out]. cbn [fst snd] in Hout, Hs. subst out.
  cbn [fmap option_fmap option_map fst snd default id]. unfold out_json.
  cbn [out_status out_content_type out_body].
  rewrite response_roundtrip by (done || decide_closed). cbn [default id].
  unfold reply_of, response_text_lossy. cbn [response_status response_body].
  rewrite from_utf8_lossy_as_bytes by apply reply_usv. by rewrite reply_text by done.
Qed.

(** ** What a serving desk remembers *)

(** What may happen to a serving desk between two deliveries: its machines'
    requests and anything on its panel, and on the desk itself whatever happens
    there of its own ([DeskTheory.desk_step]). *)
Definition server_step s s' : Prop :=
  ∃ e, s' = run_event s e ∧
    match e with DeskChange d => rtc desk_step (server_desk s) d | _ => True end.

Lemma remembers_trans d1 d2 d3 : remembers d1 d2 → remembers d2 d3 → remembers d1 d3.
Proof.
  intros Hone Htwo Hl. apply Hone in Hl as [Hl He]. apply Htwo in Hl as [Hl He']. split; [done|].
  intros id e Hid. by apply He', He.
Qed.

Lemma handle_pair_remembers `{faults : FsFaults} env body host s :
  remembers (server_desk s) (server_desk (handle_pair env body host s).1).
Proof.
  unfold handle_pair. destruct (pair_request_from_slice body); [|done].
  destruct (negb _); [done|]. destruct (pending s); [|done]. destruct (is_expired _ _); [done|].
  destruct (negb _); [done|]. unfold persist_clients.
  by destruct (write_state_file _ _ _ _ _) as [files [?|?]].
Qed.

Lemma handle_agent_file_remembers `{faults : FsFaults} env client harness path body s :
  remembers (server_desk s) (server_desk (handle_agent_file env client harness path body s).1).
Proof.
  unfold handle_agent_file. destruct client; [|done]. destruct (_ <? _)%N; [done|].
  destruct (negb _); [done|]. destruct (match validate_vault_path _ with Ok _ => _ | Err _ => _ end); [done|].
  destruct (negb _); [done|]. destruct (from_utf8 body); [|done].
  destruct (find_unkeepable _ _); [done|]. by destruct (_ && _).
Qed.

Lemma handle_mcp_remembers `{faults : FsFaults} env incoming s :
  remembers (server_desk s) (server_desk (handle_mcp env incoming s).1).
Proof.
  unfold handle_mcp. destruct (JsonRpcRequest_parse _ _) as [request|]; [|done].
  destruct (is_notification _); [done|]. destruct (incoming_client _); [|done].
  set (denv := with_identity _ _).
  pose proof (dispatch_remembers denv request (app_version env) (server_desk s)) as Hr.
  by destruct (dispatch _ _ _).
Qed.

Lemma handle_incoming_remembers `{faults : FsFaults} env incoming s :
  remembers (server_desk s) (server_desk (handle_incoming env incoming s).1).
Proof.
  unfold handle_incoming. destruct (negb _); [done|].
  assert (remembers (server_desk s) (server_desk (handle_route env incoming s).1)) as Hr.
  { unfold handle_route. destruct (incoming_route incoming); try done;
      auto using handle_pair_remembers, handle_mcp_remembers, handle_agent_file_remembers. }
  destruct (handle_route env incoming s) as [s1 reply]. cbn [fst] in Hr.
  destruct (incoming_client incoming) as [name|]; [|done].
  destruct (touch_client _ _ _ _) as [s2 persist] eqn:Et. apply touch_client_spec in Et as [_ Hd].
  cbn [fst]. rewrite <- Hd in Hr. by destruct persist.
Qed.

Lemma server_step_remembers s s' : server_step s s' → remembers (server_desk s) (server_desk s').
Proof.
  intros (e & -> & He). destruct e as [faults env incoming|faults env|name|faults env words state|loaded|d|b];
    cbn [run_event]; try done.
  - apply handle_incoming_remembers.
  - unfold run_clients_write. destruct (clients_write_due s); [|done]. unfold persist_clients.
    by destruct (write_state_file _ _ _ _ _).
  - unfold begin_pairing. destruct (negb _); [done|]. destruct state; try done.
    by destruct (write_state_file _ _ _ _ _) as [files [?|?]].
  - by apply remembers_steps.
Qed.

Lemma server_steps_remember s s' :
  rtc server_step s s' → remembers (server_desk s) (server_desk s').
Proof.
  induction 1 as [s|s1 s2 s3 Hs _ IH]; [done|].
  eapply remembers_trans; [by apply server_step_remembers|done].
Qed.

(** ** A queued write *)

(** What the arguments of a write ask for, whatever the desk. *)
Lemma write_tool_call entry :
  is_write_tool (Some (entry_tool entry)) = true →
  ∃ parsed : result (WriteCall * (WriteOutcome → str)) HostError, ∀ (faults : FsFaults) denv,
    @tool_outcome _ _ _ _ Desk (DeskHost denv) (entry_tool entry) (entry_args entry) (entry_meta entry) =
    match parsed with
    | Ok (call, sentence) => Ok (λ d, Rpc.answer sentence (run_write denv call (entry_meta entry) d))
    | Err e => Err e
    end.
Proof.
  unfold is_write_tool. intros [E|E]%orb_true_iff; apply bool_decide_eq_true in E; injection E as E;
    unfold tool_outcome; rewrite E.
  - exists (fact ←! parse_fact (entry_args entry); Ok (CallRemember fact, remember_sentence)).
    intros faults denv. repeat rewrite bool_decide_eq_false_2 by (by intros [=]).
    rewrite bool_decide_eq_true_2 by done. by destruct (parse_fact _).
  - exists (lines ←! parse_lines (entry_args entry); Ok (CallNoteToday lines, note_today_sentence)).
    intros faults denv. repeat rewrite bool_decide_eq_false_2 by (by intros [=]).
    rewrite bool_decide_eq_true_2 by done. by destruct (parse_lines _).
Qed.

(** A write that was served well is on record under the entry's id, and a desk
    that has it on record answers it from there. *)
Lemma served_once (faults faults' : FsFaults) denv denv' entry d d1 d2 d3 verdict :
  is_write_tool (Some (entry_tool entry)) = true →
  call_served (faults := faults) denv entry d d1 (Ok tt) → remembers d1 d2 →
  call_served (faults := faults') denv' entry d2 d3 verdict →
  d3 = d2 ∧ verdict = Ok tt.
Proof.
  intros Hw. destruct (write_tool_call entry Hw) as [parsed Hp]. unfold call_served.
  rewrite !Hp. destruct parsed as [[call sentence]|e]; [|by intros [_ [=]]].
  intros [-> Hv] Hr [-> ->]. destruct (run_write denv call (entry_meta entry) d) as [d1 [o|e]] eqn:Er.
  2:{ destruct e; discriminate Hv. }
  cbn [Rpc.answer fst] in Hr.
  destruct (run_write_recorded _ _ _ _ _ _ (entry_id entry) Er eq_refl) as [Hl Ho].
  destruct (seen_entries d1 !! entry_id entry) as [e|] eqn:E; [|done].
  destruct (Hr Hl) as [Hl2 He2].
  rewrite (run_write_known denv' call (entry_meta entry) d2 _ e eq_refl Hl2 (He2 _ _ E)). done.
Qed.

End delivery.
