(* ===== verification/ServiceSamples.v ===== *)
(** * Concrete instances for the bridge's service

    JSON values, the file formats of the server, a file system where nothing
    fails, and a small vault: what the witnesses of the service's properties
    compute with. None is an instance that resolution finds by itself. *)

From stdpp Require Import gmap countable relations.
From S2P Require Import Prelude Strings External Samples Reminder Dates Calendar Rules NoteIndex Rpc.
From S2P Require Import HttpTheory VaultFs Notes Memory Desk Server ServerTheory DeskTheory.

(** ** JSON values: trees whose objects keep their members in order *)

Definition tree : Type := gen_tree (option (bool + Z + str)).
Definition tree_string (s : str) : tree := GenLeaf (Some (inr s)).
Definition tree_array (l : list tree) : tree := GenNode 0 l.
Definition tree_object (kvs : list (str * tree)) : tree :=
  GenNode 1 (map (λ kv, GenNode 2 [tree_string kv.1; kv.2]) kvs).

Definition tree_member (t : tree) : option (str * tree) :=
  match t with GenNode 2 [GenLeaf (Some (inr k)); v] => Some (k, v) | _ => None end.

Definition tree_json : JsonValue := {| json := tree |}.

Definition tree_ops : @JsonOps tree_json := @Build_JsonOps tree_json
  (GenLeaf None : tree)
  (λ b, GenLeaf (Some (inl (inl b))))
  (λ z, GenLeaf (Some (inl (inr z))))
  tree_string tree_array tree_object
  (λ k v x, match x : tree with
            | GenNode 1 members => Some (GenNode 1 (GenNode 2 [tree_string k; v] :: members))
            | _ => None
            end)
  (λ k x, match x : tree with
          | GenNode 1 members =>
              snd <$> find (λ kv, bool_decide (kv.1 = k)) (omap tree_member members)
          | _ => None
          end)
  (λ x, match x : tree with GenLeaf (Some (inr s)) => Some s | _ => None end)
  (λ x, match x : tree with GenLeaf (Some (inl (inl b))) => Some b | _ => None end)
  (λ x, match x : tree with
        | GenLeaf (Some (inl (inr z))) => if (0 <=? z)%Z then Some (Z.to_N z) else None
        | _ => None
        end)
  (λ x, match x : tree with GenNode 0 l => Some l | _ => None end)
  (λ text, Ok (tree_string text)).

Lemma tree_members kvs :
  omap tree_member (map (λ kv : str * tree, GenNode 2 [tree_string kv.1; kv.2]) kvs) = kvs.
Proof. induction kvs as [|[k v] kvs IH]; [done|]. cbn. by rewrite IH. Defined.

Lemma tree_laws : @JsonLaws tree_json tree_ops.
Proof.
  split; try done.
  - intros k v kvs Hnd Hin. cbn [json_get tree_ops json_object tree_object]. rewrite tree_members.
    induction kvs as [|[k' v'] kvs IH]; [by apply elem_of_nil in Hin|].
    apply NoDup_cons in Hnd as [Hk Hnd]. cbn [find fst]. destruct (decide (k' = k)) as [-> |Hne].
    + rewrite bool_decide_eq_true_2 by done. apply elem_of_cons in Hin as [[= ->]|Hin]; [done|].
      exfalso. apply Hk. by apply (list_elem_of_fmap_2 fst) in Hin.
    + rewrite bool_decide_eq_false_2 by done. apply IH; [done|].
      by apply elem_of_cons in Hin as [[= ? ?]|?].
  - intros k kvs Hk. cbn [json_get tree_ops json_object tree_object]. rewrite tree_members.
    induction kvs as [|[k' v'] kvs IH]; [done|]. cbn [find fst]. apply not_elem_of_cons in Hk as [Hne Hk].
    rewrite bool_decide_eq_false_2 by (intros ->; by apply Hne). by apply IH.
  - intros k v [?|[|[|?]] l] y; try done. intros [= <-]. cbn. by rewrite bool_decide_eq_true_2.
  - intros k k' v [?|[|[|?]] l] y Hne; try done. intros [= <-]. cbn. by rewrite bool_decide_eq_false_2.
  - intros k v k' v' [?|[|[|?]] l] [y Hy]; done.
Defined.

(** ** The record of calls: a row as the digits of a number *)

Definition outcome_code (o : WriteOutcome) : N :=
  match o with Created' => 0 | SectionAdded' => 1 | Applied' => 2 | Noop' => 3 | Queued => 4 end.
Definition outcome_of (n : N) : WriteOutcome :=
  match n with 0%N => Created' | 1%N => SectionAdded' | 2%N => Applied' | 3%N => Noop' | _ => Queued end.

Fixpoint bits (p : positive) : str :=
  match p with xH => [] | xO p => ch "0" :: bits p | xI p => ch "1" :: bits p end.
Fixpoint of_bits (s : str) : positive :=
  match s with [] => xH | c :: s => if (c =? ch "0")%N then xO (of_bits s) else xI (of_bits s) end.

Lemma of_bits_bits p : of_bits (bits p) = p.
Proof. induction p as [p IH|p IH|]; cbn; by rewrite ?IH. Defined.

Lemma bits_chars p c : c ∈ bits p → c = ch "0" ∨ c = ch "1".
Proof.
  induction p as [p IH|p IH|]; cbn [bits]; [| |by intros ?%elem_of_nil];
    (intros [-> |?]%elem_of_cons; auto).
Defined.

Definition bits_seen : SeenJson := {|
  seen_to_json e := bits (encode (e.1.1, e.1.2, outcome_code e.2));
  seen_from_json line :=
    match decode (of_bits line) : option (str * Z * N) with
    | Some (id, at_, o) => Some (id, at_, outcome_of o)
    | None => None
    end;
|}.

Lemma bits_seen_laws : @SeenJsonLaws bits_seen.
Proof.
  split.
  - intros e. cbn. split; intros [Hc|Hc]%bits_chars; discriminate Hc.
  - intros [[id at_] o]. cbn. rewrite of_bits_bits, decode_encode. by destruct o.
Defined.

(** ** A file system where nothing fails *)

Definition no_faults : FsFaults := {|
  metadata_fault _ := None;
  load_fault _ := None;
  create_dir_fault _ := None;
  create_file_fault _ := None;
  write_fault _ := None;
  atomic_write_fault _ := None;
  remove_fault _ := None;
  missing_file path := [path ++ u " is missing"];
  already_exists path := [path ++ u " exists"];
|}.

(** ** The server's formats: a pairing request is the code and the name, a line
    each; an instant is its second; the list of machines is the digits of a number. *)

Definition client_tuple (c : PairedClient) : str * str * str * str * str * str :=
  (client_name c, token_sha256 c, paired_at c, last_seen c, last_harness c, paired_via c).
Definition tuple_client (t : str * str * str * str * str * str) : PairedClient :=
  let '(a, b, c, d, e, f) := t in mkPairedClient a b c d e f.

Definition line_formats : @ServerFormats tree_json := {|
  response_json message := message;
  pair_request_from_slice body :=
    match split_char 10 body with [code; name] => Some (mkPairRequest code name []) | _ => None end;
  pair_response_json r := paired_token r;
  health_json r := health_vault r;
  rpc_response_json r := u "reply";
  from_value_error _ := u "not a request";
  parse_config _ := Ok BridgeConfig_default;
  parse_clients text :=
    match decode (of_bits text) : option (list (str * str * str * str * str * str)) with
    | Some cs => Ok (map tuple_client cs)
    | None => Err (u "not a list")
    end;
  render_clients cs := bits (encode (map client_tuple cs));
  parse_pending _ := None;
  render_pending p := code_sha256 p;
  parse_rfc3339 s := (λ n, Z.of_N n * SECOND)%Z <$> parse_unsigned (2 ^ 64) s;
  to_rfc3339 t := show_N (Z.to_N (t / SECOND));
|}.

Lemma line_clients cs : @parse_clients tree_json line_formats (@render_clients tree_json line_formats cs) = Ok cs.
Proof.
  cbn [parse_clients render_clients line_formats]. rewrite of_bits_bits, decode_encode. f_equal.
  induction cs as [|[] cs IH]; cbn; [reflexivity|]. by rewrite IH.
Defined.

Lemma line_formats_laws : @rfc3339_laws tree_json line_formats.
Proof.
  intros t Ht. cbn [parse_rfc3339 to_rfc3339 line_formats].
  assert (SECOND = 1000000000)%Z as Hs by reflexivity.
  assert (0 <= t / SECOND)%Z as Hpos by (apply Z.div_pos; lia).
  rewrite parse_unsigned_show.
  - cbn [fmap option_fmap option_map]. f_equal. rewrite Z2N.id by done.
    pose proof (Z.div_mod t SECOND). lia.
  - apply N2Z.inj_le. rewrite Z2N.id by done. change (Z.of_N (2 ^ 64)) with (2 ^ 64)%Z.
    apply Z.lt_le_incl, Z.div_lt_upper_bound; lia.
Defined.

(** ** A small vault *)

#[local] Existing Instances ascii_tables toy_digest gregorian gregorian_days wall_clock no_faults.
#[local] Existing Instances bits_seen tree_json tree_ops line_formats.

Definition iso_dates : ChronoParse := {| parse_ymd := parse_iso_date |}.
#[local] Existing Instance iso_dates.

Definition sample_today : @NaiveDate gregorian := default sample_date (civil_of 2026 5 7).
Definition sample_yesterday : @NaiveDate gregorian := default sample_date (civil_of 2026 5 6).

Definition sample_vault : Vault :=
  mkVault (mkNotesConfig (u "daily") (u "YYYY-MM-DD") (u "templates/daily.md"))
          (mkNotesConfig (u "weekly") (u "gggg-[W]ww") (u "templates/weekly.md")).

Definition LINE : str := [10%N].

Definition sample_files : Store :=
  list_to_map
    [(u "templates/daily.md", mkVaultFile (u "# {{title}}" ++ LINE ++ u "## Notes" ++ LINE) sample_yesterday);
     (u "profile.md", mkVaultFile (u "# Robin" ++ LINE ++ u "## What Thock should not keep" ++ LINE
                                   ++ u "- My salary" ++ LINE) sample_yesterday);
     (u "projects/boat.md", mkVaultFile (u "# Boat" ++ LINE ++ u "varnish the hull" ++ LINE) sample_yesterday);
     (u "daily/2026-05-06.md", mkVaultFile (u "# 2026-05-06" ++ LINE ++ u "## Notes" ++ LINE) sample_yesterday);
     (u "daily/2026-05-05.md", mkVaultFile (u "# 2026-05-05" ++ LINE ++ u "rowed" ++ LINE) sample_yesterday)].

Definition sample_env : DeskEnv :=
  mkDeskEnv (ClientIdentity_new (u "Claude Code") (u "laptop")) sample_today midnight 1000
    [u "vault"] Some sample_vault 40 DEFAULT_TODAY_HEADING (λ _, false) (λ _, false) (λ _, u "# Vault").

Definition sample_desk : Desk := mkDesk sample_files None false ∅ 0.

Definition call_with (id : str) : CallMeta := mkCallMeta (Some id) None.

Definition sample_server_env : ServerEnv :=
  mkServerEnv sample_env (1000 * SECOND) [1; 2; 3; 4]%N (u "Vault") (u "desk") (u "1.0").

Definition sample_client : PairedClient :=
  mkPairedClient (u "laptop") (sha256_hex (u "token")) [] [] [] [].

Definition sample_server : Server := mkServer sample_desk [sample_client] None true [] false.

(** A pair, by its second part. *)
Lemma pair_by_snd {A B} (p : A * B) y : p.2 = y → p = (p.1, y).
Proof. destruct p. by intros [= ->]. Defined.
