(* ===== verification/ServiceWitnesses.v ===== *)
(** * Witnesses of the properties of the bridge's service

    The theorems about the desk, its server and their parts, and about the
    keyword index, the wire formats, the mirror pass, the notes of the days, the
    accept loop and the service's life, at the vault of [ServiceSamples.v] and
    small inputs. *)

From stdpp Require Import gmap relations.
From S2P Require Import Prelude Strings Utf8 External Samples Write Dates Calendar Rules RuleTheory NoteIndex NoteIndexTheory.
From S2P Require Import Rpc RpcTheory Http HttpTheory AgentMirror AgentMirrorTheory VaultFs Notes Memory.
From S2P Require Import TodayNote NotesTheory Desk DeskTheory Server ServerTheory Listener.
From S2P Require Import Lifecycle LifecycleTheory ServiceSamples.

#[local] Existing Instances ascii_tables toy_digest gregorian gregorian_days wall_clock no_faults.
#[local] Existing Instances bits_seen tree_json tree_ops line_formats iso_dates.

Definition sample_call : WriteCall := CallRemember (u "Sails on Sundays").
Definition after_call : Desk := (run_write sample_env sample_call (call_with (u "a")) sample_desk).1.

Lemma applied_once_witness :
  run_write sample_env (CallNoteToday [u "again"]) (call_with (u "a")) (with_files ∅ after_call)
  = (with_files ∅ after_call, Ok Created').
Proof.
  refine (applied_once no_faults no_faults sample_env sample_call (call_with (u "a")) sample_desk
    after_call (with_files ∅ after_call) Created' (u "a") _ eq_refl _ sample_env _ (call_with (u "a")) eq_refl).
  - apply pair_by_snd. vm_compute. reflexivity.
  - apply rtc_once, step_files.
Defined.



Definition boat_text : str := u "# Boat" ++ LINE ++ u "varnish the hull" ++ LINE.

Lemma desk_read_safe_witness :
  (desk_read sample_env (Path (u "projects/boat.md")) sample_desk).2 = Ok boat_text ∧
  ∃ path modified, desk_files sample_desk !! path = Some (mkVaultFile boat_text modified) ∧
    Forall plain_component (split_by is_path_separator path).
Proof.
  split; [vm_compute; reflexivity|].
  destruct (proj2 (desk_read_safe sample_env (Path (u "projects/boat.md")) sample_desk
    (desk_read sample_env (Path (u "projects/boat.md")) sample_desk).1 boat_text
    ltac:(apply pair_by_snd; vm_compute; reflexivity))) as (path & modified & Hf & _ & Hp & _).
  by exists path, modified.
Defined.

(** A search builds the index, a note is removed, and its event comes. *)
Definition removed_path : str := u "daily/2026-05-05.md".
Definition searched : Watched := with_desk (ensure_index sample_env sample_desk) (watching sample_desk).
Definition changed : Watched :=
  mkWatched (with_files (partial_alter (λ _, None) removed_path (watched_files searched))
    (watched_desk searched)) ({[removed_path]} ∪ due searched) (readings searched).
Definition announced : Watched :=
  mkWatched (index_changed removed_path true (watched_desk changed)).1 (due changed ∖ {[removed_path]})
    (readings changed).


(** ** The server *)

Definition pair_body : list N := as_bytes (u "tide-oak-seven" ++ LINE ++ u "tablet").

(** The desk with a code on its panel. *)
Definition with_code : Server :=
  (begin_pairing sample_server_env [u "tide"; u "oak"; u "seven"] (Serving (u "desk") 7557) sample_server).1.

Lemma code_is_spent : spends_code sample_server_env pair_body with_code.
Proof.
  exists (mkPairRequest (u "tide-oak-seven") (u "tablet") []), (default (mkPendingCode [] []) (pending with_code)).
  split_and!; vm_compute; reflexivity.
Defined.

Definition stranger_head : RequestHead :=
  mkRequestHead (u "POST") (u "/mcp") [(u "Authorization", u "Bearer guess")] 0.

Lemma unpaired_requests_change_nothing_witness :
  let reply := (serve sample_server_env stranger_head (mkStream [] None) sample_server).2 in
  out_status reply ≠ 200%N.
Proof.
  refine (proj2 (proj2 (proj2 (unpaired_requests_change_nothing sample_server_env stranger_head
    (mkStream [] None) sample_server
    (serve sample_server_env stranger_head (mkStream [] None) sample_server).1 _ _
    (surjective_pairing _) _)))).
  - intros client [-> |Hin]%elem_of_cons; [|by apply elem_of_nil in Hin].
    intros (token & Ht & Heq). vm_compute in Ht. injection Ht as <-. vm_compute in Heq. discriminate Heq.
  - intros Hroute. vm_compute in Hroute. discriminate Hroute.
Defined.


(** The head of a request with the token of [sample_client]. *)
Definition laptop_head : RequestHead :=
  mkRequestHead (u "POST") (u "/mcp") [(u "Authorization", u "Bearer token")] 0.

Definition loaded_ok {A B} (r : Store * result A B) : bool := match r.2 with Ok _ => true | Err _ => false end.
Lemma loaded_ok_spec {A B} (r : Store * result A B) : loaded_ok r = true → ∃ loaded, r = (r.1, Ok loaded).
Proof. destruct r as [files [loaded|]]; [by exists loaded|done]. Defined.

(** The list is written without the laptop, and the next process loads it. *)
Definition disconnected : Server := run_event (disconnect (u "laptop") sample_server) (ClientsWrite no_faults sample_server_env).

Lemma disconnected_stays_out_witness :
  authenticate (clients sample_server) laptop_head = Some (u "laptop") ∧
  ∃ files loaded, load_server_files sample_server_env (desk_files (server_desk disconnected)) = (files, Ok loaded) ∧
    authenticate (clients (install loaded (next_process files disconnected))) laptop_head ≠ Some (u "laptop").
Proof.
  split; [vm_compute; reflexivity|].
  destruct (loaded_ok_spec (load_server_files sample_server_env (desk_files (server_desk disconnected)))) as [loaded Hl];
    [vm_compute; reflexivity|].
  eexists _, loaded. split; [exact Hl|].
  refine (proj1 (disconnected_stays_out (H9 := line_clients) (u "laptop") sample_server _ _) laptop_head).
  eapply rtc_l; [eapply (life_event _ (ClientsWrite no_faults sample_server_env)); [exact I|by split|intros d [=]]|].
  apply rtc_once. exact (life_start _ no_faults sample_server_env true disconnected _ loaded eq_refl Hl).
Defined.

Lemma machines_have_one_token_witness :
  names_unique (run_events sample_server [Disconnect (u "tablet"); ClientsWrite no_faults sample_server_env]).
Proof.
  apply machines_have_one_token; [repeat constructor|].
  apply NoDup_singleton.
Defined.

Definition tablet_head : RequestHead :=
  mkRequestHead (u "POST") (u "/mcp")
    [(u "Authorization", u "Bearer " ++ generate_token [1; 2; 3; 4]%N)] 0.

Lemma pairing_works_witness :
  authenticate (clients (handle_pair sample_server_env pair_body (u "here") with_code).1) tablet_head
  = Some (u "tablet").
Proof.
  pose proof (pairing_works no_faults no_faults sample_server_env sample_server_env
    [u "tide"; u "oak"; u "seven"] (Serving (u "desk") 7557) sample_server with_code (u "tide-oak-seven") pair_body
    (mkPairRequest (u "tide-oak-seven") (u "tablet") []) (u "here") line_formats_laws) as Hw.
  destruct (handle_pair _ _ _ _) as [s2 reply]. cbn [fst]. apply Hw; clear Hw.
  11: { vm_compute. reflexivity. }
  - apply pair_by_snd. vm_compute. reflexivity.
  - vm_compute. discriminate.
  - vm_compute. reflexivity.
  - vm_compute. discriminate.
  - vm_compute. reflexivity.
  - vm_compute. reflexivity.
  - vm_compute. reflexivity.
  - reflexivity.
  - reflexivity.
  - intros c [-> |Hin]%elem_of_cons; [|by apply elem_of_nil in Hin]. vm_compute. discriminate.
Defined.

Definition memory_text : str := u "uses jj, not git".

Lemma agent_file_lands_inside_witness :
  let '(s', reply) := handle_agent_file sample_server_env (Some (u "laptop")) (u "claude-code")
    (u "MEMORY.md") (as_bytes memory_text) sample_server in
  out_status reply = 204%N ∧
  (s' = sample_server ∨
   desk_checkpoints (server_desk s') = 1).
Proof.
  pose proof (agent_file_lands_inside sample_server_env (Some (u "laptop")) (u "claude-code")
    (u "MEMORY.md") (as_bytes memory_text) sample_server
    (handle_agent_file sample_server_env (Some (u "laptop")) (u "claude-code")
      (u "MEMORY.md") (as_bytes memory_text) sample_server).1 _ (surjective_pairing _)) as Hw.
  destruct (handle_agent_file _ _ _ _ _ _) as [s' reply] eqn:E. cbn [fst snd] in Hw. split.
  - change reply with (s', reply).2. rewrite <- E. vm_compute. reflexivity.
  - destruct Hw as [Hs|(c & text & _ & _ & _ & _ & _ & _ & _ & Hk & _)]; [by left|by right].
Defined.

#[local] Existing Instances gregorian_days_laws gregorian_laws.

(** ** The keyword index *)

Lemma index_refines_map_witness :
  index_ok (upsert (u "b.md") sample_today (u "hull") (upsert (u "a.md") sample_today (u "oar") [])).
Proof.
  apply (index_refines_map (u "b.md") sample_today (u "hull")).
  apply (index_refines_map (u "a.md") sample_today (u "oar") []).
  apply index_ok_nil.
Defined.

Definition boat_query : SearchQuery := mkSearchQuery (u "hull") 10 None None.

Lemma search_spec_witness :
  ∃ hits, search boat_query sample_today (build_index sample_env sample_files) = hits ∧ length hits = 1.
Proof.
  destruct (search_spec boat_query sample_today (build_index sample_env sample_files)
    (mkTerm (u "hull") false) []) as (ranked & Hs & _).
  - apply (index_files_notes sample_env sample_files); [apply index_ok_nil|by left].
  - vm_compute. reflexivity.
  - eexists. split; [exact Hs|]. rewrite <- Hs. vm_compute. reflexivity.
Defined.

(** ** The wire *)

Lemma agent_route_roundtrip_witness :
  parse_route (u "PUT") (agent_file_url (u "claude code") [u "notes"; u "a b?.md"])
  = AgentFile (u "claude code") (u "notes/a b?.md").
Proof.
  refine (agent_route_roundtrip (u "claude code") [u "notes"; u "a b?.md"] _ _ _ _ _).
  all: try done.
  all: repeat constructor; try done; lia.
Defined.

Definition sample_request : HttpRequest :=
  mkHttpRequest (u "POST") (u "http://desk:7557/mcp")
    [(u "Authorization", u "Bearer token"); (u "Content-Length", u "7")] (as_bytes (u "{}")).

Lemma request_roundtrip_witness :
  read_body (mkStream (as_bytes (u "{}")) None) 2 = Ok (as_bytes (u "{}"), mkStream [] None) ∧
  read_request_head (mkStream (request_bytes sample_request (u "desk") 7557 (u "/mcp")) None)
  = Some (Ok (mkRequestHead (u "POST") (u "/mcp") (request_header_list sample_request (u "desk") 7557) 2,
              mkStream (as_bytes (u "{}")) None)).
Proof.
  apply and_comm. apply (request_roundtrip sample_request (u "desk") 7557 (u "/mcp") None).
  - split.
    + split; [done|]. repeat constructor; vm_compute; auto.
    + split; [done|]. repeat constructor; vm_compute; auto.
    + repeat constructor; vm_compute; auto.
    + constructor; [|constructor; [|constructor]].
      * split; [decide_closed|decide_closed|vm_compute; reflexivity|vm_compute; reflexivity| |].
        -- repeat constructor; vm_compute; auto.
        -- intros E. vm_compute in E. discriminate E.
      * split; [decide_closed|decide_closed|vm_compute; reflexivity|vm_compute; reflexivity| |].
        -- repeat constructor; vm_compute; auto.
        -- vm_compute. by eexists.
    + vm_compute. discriminate.
  - apply Nat.leb_le. vm_compute. reflexivity.
Defined.

Lemma response_roundtrip_witness :
  parse_response (write_response 200 (u "text/plain") (as_bytes (u "ok")))
  = Some (Ok (mkHttpResponse 200 (as_bytes (u "ok")))).
Proof.
  apply response_roundtrip.
  - vm_compute. discriminate.
  - decide_closed.
  - decide_closed.
  - repeat constructor; vm_compute; auto.
Defined.

(** ** The accept loop *)

Definition one_connection : ListenerState (IpAddr := N) :=
  mkListenerState 1 {[ 7%N := 1 ]} [mkConnection 7%N false] Accepting.

Lemma one_connection_listening : listening one_connection.
Proof.
  eapply rtc_l; [by apply (step_accept listener_start 7%N false)|].
  eapply rtc_l; [by apply (step_take_slot _ 7%N)|].
  eapply rtc_l; [by apply (step_count_worker _ 7%N)|].
  eapply rtc_l; [by apply (step_spawn _ 7%N true)|].
  match goal with |- rtc _ ?m _ => replace m with one_connection by (vm_compute; reflexivity) end.
  apply rtc_refl.
Defined.

Lemma strangers_are_bounded_witness :
  length (connections one_connection) ≤ 16 ∧ unreleased 7%N (connections one_connection) ≤ 2.
Proof.
  destruct (strangers_are_bounded one_connection one_connection_listening) as ([Hl Hw] & Hip & _).
  split; [exact (Nat.le_trans _ _ _ Hl Hw)|exact (Hip 7%N)].
Defined.

Lemma slots_come_back_witness :
  ∃ l', rtc listener_step one_connection l' ∧ workers l' = 0.
Proof.
  destruct (slots_come_back one_connection one_connection_listening eq_refl) as (l' & Hs & Hw & _).
  by exists l'.
Defined.

(** ** The service's life *)

Definition opened : list ServiceEvent := [VaultSeen (Some (u "/vault", true))].

Lemma desk_comes_to_serve_witness :
  let loaded := (BridgeConfig_default, [], None) in
  state (run_all (run_all service_bare opened) ([Toggled; Toggled] ++ cooperative loaded (u "desk") 7557))
  = Serving (u "desk") 7557.
Proof. refine (proj2 (desk_comes_to_serve opened _ (u "desk") 7557 _)). reflexivity. Defined.

(** ** Notes of the days *)

Lemma triggers_are_served_witness :
  service_step (TodayNote.mkService true false) Trigger = (TodayNote.mkService true true, false) ∧
  true ∈ [(Ended, true); (Trigger, false)].*2.
Proof.
  split; [reflexivity|].
  destruct (proj1 (triggers_are_served [(Trigger, true)] (TodayNote.mkService true false)
    [(Ended, true); (Trigger, false)] (TodayNote.mkService true true) false
    ltac:(eapply history_step; [exact I|reflexivity|apply history_nil])
    ltac:(eapply history_step; [exact I|reflexivity|]; eapply history_step; [reflexivity|reflexivity|];
          eapply history_step; [exact I|reflexivity|apply history_nil]))) as [E|Hs].
  - discriminate E.
  - apply Hs. left.
Defined.

Definition sample_round : RoundEnv :=
  mkRoundEnv sample_vault (u "/vault") (sample_today, midnight) midnight (λ _, false) None None.

Definition round_start : RoundState := mkRoundState sample_files ∅ 0.
Definition round_result : RoundState := (run sample_round id id (λ _, id) round_start).1.

(** The untouched note of the day before is gone, today's is there, and the rest
    is as it was. *)
Lemma round_keeps_notes_witness :
  is_some (files round_result !! u "daily/2026-05-06.md") = false ∧
  is_some (files round_result !! u "daily/2026-05-07.md") = true ∧
  ∃ f template, files round_start !! u "daily/2026-05-06.md" = Some f ∧
    ∃ date, untouched sample_round (file_text template) date (u "daily/2026-05-06.md") f ∧
      checkpoints round_result = 1.
Proof.
  split; [vm_compute; reflexivity|]. split; [vm_compute; reflexivity|].
  assert (is_some (files round_start !! u "daily/2026-05-06.md") = true) as Hf by (vm_compute; reflexivity).
  assert (is_some (files round_start !! template_path (TodayNote.vault sample_round) Daily) = true) as Ht by (vm_compute; reflexivity).
  destruct (files round_start !! u "daily/2026-05-06.md") as [f|] eqn:E; [clear Hf|discriminate Hf].
  destruct (files round_start !! template_path (TodayNote.vault sample_round) Daily) as [template|] eqn:Et; [clear Ht|discriminate Ht].
  exists f, template. split; [reflexivity|].
  destruct (round_keeps_notes sample_round id id (λ _, id) round_start round_result
    (run sample_round id id (λ _, id) round_start).2 (u "daily/2026-05-06.md") f template
    (surjective_pairing _) E Et) as [Hk|(date & last & _ & _ & _ & _ & _ & Hu & Hc)]; try (by intros ?); try (by intros ? ?).
  - exfalso. apply (f_equal is_some) in Hk. revert Hk. vm_compute. discriminate.
  - exists date. split; [exact Hu|exact Hc].
Defined.

(** ** The mirror of an agent's folder *)

Definition agent_folder : list (str * FsNode) :=
  [(u "MEMORY.md", FileNode 5 10); (u "notes", DirNode [(u "git.md", FileNode 7 20)]);
   (u ".cache", DirNode [(u "x.md", FileNode 1 1)])].

Definition put_all (_ : str) (_ : list N) : result HttpResponse str := Ok (mkHttpResponse 204 []).
Definition empty_pass : Pass := mkPass MirrorState_default MirrorState_default (mkMirrorReport 0 []).
Definition settled_pass : Pass :=
  (mirror_harness (λ _ _, Ok []) put_all (λ _, Ok tt) (u "claude-code", DirNode agent_folder) empty_pass).1.

Lemma mirror_settles_witness :
  uploaded_count (pass_report settled_pass) = 2 ∧
  plan_mirror agent_folder (scoped (u "claude-code/") (pass_saved settled_pass)) = [].
Proof.
  split; [vm_compute; reflexivity|].
  refine (proj2 (mirror_settles (λ _ _, Ok []) put_all (λ _, Ok tt) (u "claude-code") agent_folder
    empty_pass settled_pass _ eq_refl _)).
  - assert (∀ path m s, file_at agent_folder path m s →
      path = [u "MEMORY.md"] ∧ m = 5%N ∧ s = 10%N ∨ path = [u "notes"; u "git.md"] ∧ m = 7%N ∧ s = 20%N)
      as Hall.
    { intros path m s Hf. inversion Hf as [? name ? ? Hin|? name sub p ? ? Hin Hh Hs]; subst.
      - apply elem_of_cons in Hin as [[= -> -> ->]|Hin]; [by left|]. exfalso.
        do 2 (apply elem_of_cons in Hin as [[=]|Hin]). by apply elem_of_nil in Hin.
      - apply elem_of_cons in Hin as [[=]|Hin]. apply elem_of_cons in Hin as [[= -> ->]|Hin].
        + right. inversion Hs as [? name ? ? Hin|? name sub' p' ? ? Hin]; subst;
            apply list_elem_of_singleton in Hin; [by injection Hin as -> -> ->|discriminate Hin].
        + apply elem_of_cons in Hin as [[= -> ->]|Hin]; [vm_compute in Hh; discriminate Hh|].
          by apply elem_of_nil in Hin. }
    intros path path' m s m' s' [(-> & -> & ->)|(-> & -> & ->)]%Hall [(-> & -> & ->)|(-> & -> & ->)]%Hall E;
      [done| | |done]; vm_compute in E; discriminate E.
  - apply pair_by_snd. vm_compute. reflexivity.
Defined.

(** ** The client's check of a write *)

Definition remember_args : @json tree_json := json_object [(u "fact", json_string (u "pays 4111 1111 1111 1111"))].

Lemma validation_agrees_witness :
  ∃ fact e, ∀ forbidden, check_fact fact forbidden = Err e.
Proof.
  assert (call_facts (u "remember") remember_args = Ok [u "pays 4111 1111 1111 1111"]) as Hf
    by (vm_compute; reflexivity).
  pose proof (validation_agrees (u "remember") remember_args _ (or_introl eq_refl) Hf) as Hw.
  assert (∃ e, validate_tool_arguments (u "remember") remember_args = Err e) as [e E]
    by (eexists; vm_compute; reflexivity).
  rewrite E in Hw. destruct Hw as (fact & e' & _ & Hw). by exists fact, e'.
Defined.

(** ** The phone's copy of the vault *)

From S2P Require Import Utf8 Apply Paths Envelope VaultSync VaultSyncTheory.

#[local] Existing Instances ascii_nfc toy_reader toy_aead.

Definition plain_base64 : Base64 := {| base64_decode s := Some s |}.
Definition no_rename_faults : RenameFaults := {| rename_fault _ _ := None |}.
#[local] Existing Instances plain_base64 no_rename_faults.

(** A server of one vault: a ticket is the blob's id, a file's versions count up from 1. *)
Record PhoneServer := mkPhoneServer {
  ps_files : gmap str (N * str);
  ps_blobs : gmap str (list N);
  ps_rows : list WriteRow
}.

Definition refused_with (c : str) (current : option N) : ApiError := Api_Refused (mkSyncError c current).
Definition phone_info : VaultInfo := mkVaultInfo (u "active") 1000000 0 [mkDevice (u "p1") (u "phone")] None.

Definition phone_server : SyncServer PhoneServer := {|
  begin_upload path expected blob_id size hash srv :=
    (srv, if decide (snd <$> ps_files srv !! path = Some blob_id) then Err (refused_with (u "stale_version") (fst <$> ps_files srv !! path))
          else Ok blob_id);
  put_blob ticket bytes srv := (mkPhoneServer (ps_files srv) (<[ticket := bytes]> (ps_blobs srv)) (ps_rows srv), Ok tt);
  commit path expected blob_id srv :=
    let version := from_option fst 0%N (ps_files srv !! path) in
    if (version =? expected)%N
    then (mkPhoneServer (<[path := (version + 1, blob_id)%N]> (ps_files srv)) (ps_blobs srv) (ps_rows srv), Ok (version + 1)%N)
    else (srv, Err (refused_with (u "stale_version") (Some version)));
  tombstone path expected srv := (mkPhoneServer (delete path (ps_files srv)) (ps_blobs srv) (ps_rows srv), Ok (expected + 1)%N);
  writes_after after srv := (srv, Ok (filter (λ row, (after < row_seq row)%N) (ps_rows srv), false));
  ack seq srv := (mkPhoneServer (ps_files srv) (ps_blobs srv) (filter (λ row, (seq < row_seq row)%N) (ps_rows srv)), Ok (seq, 7%N));
  vault_summary srv := (srv, Ok phone_info)
|}.
#[local] Existing Instance phone_server.

Definition phone_file_server : FileServer PhoneServer.
Proof.
  refine {| current srv path := (λ row, (row.1, Some row.2)) <$> ps_files srv !! path; blob srv id := ps_blobs srv !! id; ticket_blob _ ticket := Some ticket |}.
  - intros path expected blob_id size hash srv srv' r. cbn.
    destruct (decide _) as [Hc|Hc]; intros [= <- <-]; (split; [done|]); intros ticket Ht; [discriminate Ht|].
    injection Ht as ->. split; [done|]. intros v Hv. apply Hc. destruct (ps_files srv !! path) as [[v' b]|]; [|done]. by injection Hv as <- <-.
  - intros ticket bytes srv srv' r [= <- <-]. split; [done|]. intros b _ [= <-]. apply lookup_insert_eq.
  - intros path expected blob_id srv srv' r. cbn. destruct (N.eqb_spec (from_option fst 0%N (ps_files srv !! path)) expected) as [He|He].
    + intros [= <- <-]. left. cbn. rewrite lookup_insert_eq. split_and!; [by destruct (ps_files srv !! path)|lia|done|done|].
      intros p Hp. by rewrite lookup_insert_ne.
    + by intros [= <- <-].
Defined.
#[local] Existing Instance phone_file_server.

Definition phone_draw (n : nat) : str * list N := (u "blob-" ++ [N.of_nat n], sample_nonce).

(** The phone appends a line to [a.md], and left a row that is no write. *)
Definition phone_row : WriteRow :=
  mkRow 1 (u "id") (u "a.md") (seal_with_nonce sample_key sample_nonce (Context_Write (u "id")) [1%N; ch "a"]).
Definition broken_row : WriteRow := mkRow 2 (u "id") (u "b.md") (u "?").

Definition phone_files : Files := <[u "a.md" := u "keep" ++ LINE]> (<[u "c.md" := u "desk" ++ LINE]> ∅).

Definition phone_now : @NaiveTime gregorian wall_clock := midnight.
Definition phone_write : Write := mkWrite 1 (u "id") (u "a.md") [] [] (Append None [u "x"] End false false None).

Lemma phone_row_opens : open_write sample_key phone_row (u "images") = Ok phone_write.
Proof. vm_compute. reflexivity. Defined.

Lemma phone_writes_do_what_they_say_witness :
  ∃ files' bytes' r, apply_write sample_key (u "images") sample_vault phone_now phone_row phone_files = (files', r) ∧
    files' = <[u "a.md" := bytes']> phone_files ∧ note_kept phone_write (u "keep" ++ LINE) bytes' ∧ r = Ok (mkAppliedWrite (Some (u "a.md")) None).
Proof.
  destruct (apply_write sample_key (u "images") sample_vault phone_now phone_row phone_files) as [files' r] eqn:E.
  pose proof (phone_writes_do_what_they_say sample_key (u "images") sample_vault phone_now phone_row phone_files files' r E) as (_ & Hkept & _).
  destruct (Hkept _ phone_row_opens (u "keep" ++ LINE) eq_refl eq_refl) as (bytes' & Hf & Hk). change (row_path phone_row) with (u "a.md") in Hf. subst files'. exists (<[u "a.md" := bytes']> phone_files), bytes', r.
  split_and!; [done|done|done|]. change r with (snd (<[u "a.md" := bytes']> phone_files, r)). rewrite <- E. vm_compute. reflexivity.
Defined.

(** A pass over both rows and both files. *)
Definition phone_env : JobEnv :=
  mkJobEnv _ _ sample_key sample_vault (u "images") phone_now true
    [(u "a.md", TreeFile false 5); (u "c.md", TreeFile false 5)] (λ _ files, files) 3.
Definition whole_job : Job := mkJob true true [] [].
Definition world_with (rows : list WriteRow) : World PhoneServer := mkWorld phone_files (mkPhoneServer ∅ ∅ rows) 0 None 0.

Definition pass_over (rows : list WriteRow) := run_job phone_draw phone_env whole_job LocalState_default None (world_with rows).

Definition went_through {A B C} (r : option (A * result B C)) : bool := match r with Some (_, Ok _) => true | _ => false end.
Lemma went_through_spec {A B C} (r : option (A * result B C)) : went_through r = true → ∃ w out, r = Some (w, Ok out).
Proof. destruct r as [[w [out|]]|]; [by exists w, out|done|done]. Defined.

Lemma acknowledged_writes_were_handled_witness :
  ∃ w' out, pass_over [phone_row; broken_row] = Some (w', Ok out) ∧
    ∃ srv first rest files files',
      fetch_writes 3 0 (w_srv (world_with [phone_row; broken_row])) = Some (srv, Ok (first ++ rest)) ∧
      handled_all sample_key (u "images") sample_vault phone_now first files files' (jo_refused out).
Proof.
  destruct (went_through_spec (pass_over [phone_row; broken_row])) as (w' & out & E); [vm_compute; reflexivity|].
  exists w', out. split; [done|]. unfold pass_over in E.
  pose proof (acknowledged_writes_were_handled phone_draw phone_env whole_job LocalState_default None
    (world_with [phone_row; broken_row]) w' (Ok out) E eq_refl) as (srv & first & rest & files & files' & Hf & _ & Hh & _).
  exists srv, first, rest, files, files'. exact (conj Hf Hh).
Defined.

Lemma pass_levels_the_server_witness :
  ∃ w' out, pass_over [] = Some (w', Ok out) ∧
    ∃ record, state_files (jo_state out) !! u "c.md" = Some record ∧ plaintext_hash_of record = plaintext_hash (u "desk" ++ LINE).
Proof.
  destruct (went_through_spec (pass_over [])) as (w' & out & E); [vm_compute; reflexivity|].
  exists w', out. split; [done|]. assert (jo_held_back out = []) as Hheld.
  { assert (match pass_over [] with Some (_, Ok out) => bool_decide (jo_held_back out = []) | _ => false end = true) as Hb by (vm_compute; reflexivity).
    rewrite E in Hb. by apply bool_decide_eq_true in Hb. }
  unfold pass_over in E.
  pose proof (pass_levels_the_server phone_draw phone_env whole_job LocalState_default None (world_with []) w' out
    (λ _ _, eq_refl) eq_refl) as Hlevel.
  destruct (Hlevel ltac:(intros _; exists (mkPhoneServer ∅ ∅ []), false; reflexivity) E) as (_ & Hl & _).
  apply (Hl (u "c.md") 5%N (u "desk" ++ LINE)).
  - apply (present_here (u "images") [] _ (u "c.md") 5); [right; by left|left; vm_compute; reflexivity].
  - vm_compute. discriminate.
  - split; vm_compute; reflexivity.
  - rewrite Hheld. apply not_elem_of_nil.
  - apply not_elem_of_nil.
Defined.

Lemma sent_file_can_be_read_witness :
  ∃ srv' n record, upload_file phone_draw sample_key (u "c.md") 0 (u "desk" ++ LINE) (u "h") (mkPhoneServer ∅ ∅ [], 0) = ((srv', n), Ok record) ∧
    published sample_key (u "c.md") (u "desk" ++ LINE) (u "h") (mkPhoneServer ∅ ∅ []) srv' record.
Proof.
  destruct (upload_file phone_draw sample_key (u "c.md") 0 (u "desk" ++ LINE) (u "h") (mkPhoneServer ∅ ∅ [], 0)) as [[srv' n] r] eqn:E.
  assert (@draws_nonces phone_draw) as Hd by (intros n'; reflexivity).
  assert (@cipher_takes toy_aead (u "desk" ++ LINE)) as Hc by (intros key nonce aad; eexists; reflexivity).
  pose proof (@sent_file_can_be_read _ _ _ _ _ toy_aead_laws phone_draw sample_key (u "c.md") 0%N (u "desk" ++ LINE) (u "h")
    (mkPhoneServer ∅ ∅ [], 0) (srv', n) r Hd Hc E) as Hp.
  destruct r as [record|e]; [by exists srv', n, record|]. exfalso.
  assert (went_through (Some (upload_file phone_draw sample_key (u "c.md") 0 (u "desk" ++ LINE) (u "h") (mkPhoneServer ∅ ∅ [], 0))) = true) as Hok by (vm_compute; reflexivity).
  rewrite E in Hok. discriminate Hok.
Defined.

(** The vault is found, the session starts, and the worker is on its way. *)
Definition phone_start : VaultSync := reload (Some (u "/vault")) VaultSync_new.
Definition phone_started : VaultSync * bool := start_finished (Some (u "token")) (Ok (Some sample_key)) LocalState_default phone_start.

Lemma work_is_never_forgotten_witness :
  Job_is_empty (vs_pending phone_started.1) = false ∧
  worker_running phone_started.1 = true ∧
  (session phone_started.1 ≠ None → worker_running phone_started.1 = false →
     Job_is_empty (vs_pending phone_started.1) = true ∨ debounce_task phone_started.1 = true).
Proof.
  split; [vm_compute; reflexivity|].
  destruct (work_is_never_forgotten (phone_started.1, Taking)) as (Hw & _ & Hh).
  - eapply rtc_l; [apply (sync_reload (Some (u "/vault")))|]. eapply rtc_l; [|apply rtc_refl].
    apply (sync_started (Some (u "token")) (Ok (Some sample_key)) LocalState_default phone_start NoWorker). vm_compute. discriminate.
  - cbn [fst snd] in Hw, Hh. split; [apply Hw; intros E; discriminate E|]. apply Hh.
    eapply rtc_l; [split; [apply (sync_reload (Some (u "/vault")))|intros _; vm_compute; discriminate]|].
    eapply rtc_l; [|apply rtc_refl]. split; [|intros _; vm_compute; discriminate].
    apply (sync_started (Some (u "token")) (Ok (Some sample_key)) LocalState_default phone_start NoWorker). vm_compute. discriminate.
Defined.
