(* ===== verification/BridgeWitnesses.v ===== *)
(** * Witnesses of the reminder and bridge properties

    The theorems of [Reminder.v], [Tasks.v] and [Mirror.v] at concrete lines, and
    those of [RuleTheory.v], [Remember.v] and [OutboxTheory.v] at concrete facts
    and queues, over the calendar of [Calendar.v] and the tables
    of [Samples.v]. *)

From stdpp Require Import relations.
From S2P Require Import Prelude Strings External Samples Write Lines HeadingKey LineHash Sections.
From S2P Require Import Apply Insertion Append Dates Calendar Reminder Tasks Mirror Rules RuleTheory Remember.
From S2P Require Import Outbox OutboxTheory.

(** ** Reminder lines *)

Definition sample_due : @Due gregorian wall_clock :=
  @mkDue gregorian wall_clock sample_date (@from_hms_opt gregorian wall_clock 9 30 0).

Definition sample_task : str := u "- [ ] water plants (@2026-07-09 09:30) <!--rem:0123456789ab-->".

Definition sample_mirror : @MirrorLine gregorian wall_clock :=
  @mkMirrorLine gregorian wall_clock false (@from_hms_opt gregorian wall_clock 9 30 0)
    (u "water plants") (Some (@Moved gregorian sample_date)) (Some sample_due)
    (u "Home/Garden") (u "0123456789ab").

Lemma sample_due_ok : @due_ok gregorian wall_clock sample_due.
Proof.
  split; [vm_compute; split; congruence|]. intros t [= <-]. vm_compute. split; reflexivity.
Defined.

Lemma due_roundtrip_witness :
  @Due_parse gregorian wall_clock (u "2026-07-09 09:30") = Some sample_due.
Proof.
  exact (@due_roundtrip gregorian wall_clock gregorian_laws wall_clock_laws sample_due sample_due_ok).
Defined.

Lemma scan_inline_ranges_witness :
  let line := u "a `(@x)` <!--b--> c" in
  excluded (scan_inline line false) = [mkRange 2 8; mkRange 9 17] ∧
  ranges_within 0 (length line) (excluded (scan_inline line false)).
Proof.
  cbv zeta. split; [vm_compute; reflexivity|]. apply scan_inline_ranges. intros H. discriminate H.
Defined.

Lemma reopen_close_task_witness :
  ∃ closed, @close gregorian wall_clock sample_task = Some closed ∧
    @reopen gregorian wall_clock closed = Some sample_task.
Proof.
  eexists. split; [vm_compute; reflexivity|].
  refine (proj2 (proj2 (@reopen_close_task gregorian wall_clock sample_task 3 _ _ _)));
    vm_compute; reflexivity.
Defined.

Lemma mirror_roundtrip_witness :
  @MirrorLine_parse gregorian wall_clock (@show_mirror gregorian wall_clock sample_mirror)
  = Some sample_mirror.
Proof.
  apply (@mirror_roundtrip gregorian wall_clock gregorian_laws wall_clock_laws). split.
  - intros t [= <-]. vm_compute. split; reflexivity.
  - intros [=].
  - exact sample_due_ok.
  - intros [=].
  - intros d [= <-]. vm_compute. split; congruence.
  - split; [intros [=]|]. repeat split; decide_closed.
  - vm_compute. reflexivity.
Defined.

(** ** The bridge *)

(** A reader of ISO dates. *)
Definition iso_reader : @ChronoParse gregorian := {| parse_ymd := @parse_iso_date gregorian |}.

Lemma iso_reader_laws : @ChronoParseLaws gregorian iso_reader.
Proof. split. intros d Hd. by apply (@parse_iso_date_format gregorian gregorian_laws). Defined.

Definition sample_profile : str :=
  u "# Diego" ++ [10%N] ++ u "## What Thock should not keep" ++ [10%N]
  ++ u "- My salary and anything about pay" ++ [10%N] ++ u "## Areas" ++ [10%N].

Definition sample_fact : str := u "Prefers short PRs".

Lemma sample_fact_accepted :
  @check_fact ascii_tables sample_fact (@forbidden_topics ascii_tables sample_profile)
  = Ok sample_fact.
Proof. vm_compute. reflexivity. Defined.

Lemma sanitize_harness_spec_witness : sanitize_harness (u "claude-code") = u "claude-code".
Proof.
  apply (proj2 (sanitize_harness_spec (u "claude-code"))).
  - split; [intros [=]|vm_compute; lia|reflexivity|]. split; [intros [=]|].
    intros i H1 H2. assert (i = 6) as ->.
    { do 11 (destruct i as [|i]; [first [reflexivity|discriminate H1]|]). discriminate H1. }
    discriminate H2.
  - intros [=].
Defined.

Lemma forbidden_never_kept_witness : u "salary" ∉ @words ascii_tables sample_fact.
Proof.
  refine (@forbidden_never_kept ascii_tables sample_profile sample_fact sample_fact 2
    (u "- My salary and anything about pay") sample_fact_accepted _ _ _ (u "salary") _ _ _).
  - vm_compute. reflexivity.
  - vm_compute. reflexivity.
  - vm_compute. reflexivity.
  - decide_closed.
  - vm_compute. lia.
  - left. decide_closed.
Defined.

Lemma secrets_found_witness :
  is_Some (@looks_like_credential ascii_tables (u "card 4111 1111 1111 1111 for books")).
Proof.
  apply (@secrets_found ascii_tables). right.
  exists (u "card "), (u "4111 1111 1111 1111"), 16, (u " for books").
  split_and!; [|lia|lia|reflexivity|reflexivity|reflexivity].
  let run := eval vm_compute in (u "4111 1111 1111 1111") in change (digit_run run 16).
  repeat first
    [ apply run_separator; [reflexivity|reflexivity|] | apply run_one; reflexivity
    | apply run_digit; [reflexivity|] ].
Defined.

Lemma agent_lines_roundtrip_witness :
  @parse_inbox_line gregorian iso_reader
    (@inbox_line gregorian sample_date sample_fact (ClientIdentity_new (u "Claude Code") (u "robin")))
  = Some (@mkInboxLine gregorian sample_date sample_fact
      (Some (mkClientIdentity (u "claude-code") (u "robin")))).
Proof.
  refine (proj1 (@agent_lines_roundtrip gregorian iso_reader gregorian_laws iso_reader_laws
    sample_date sample_fact sample_fact (u "Claude Code") (u "robin") _ _ _ _)).
  - vm_compute. split; congruence.
  - decide_closed.
  - vm_compute. reflexivity.
  - intros [=].
Defined.

Lemma remember_once_witness :
  let write := inbox_write (u "bridge") (@inbox_line gregorian sample_date sample_fact
    (ClientIdentity_new (u "Claude Code") (u "robin"))) in
  let once := applied_text (@apply ascii_tables toy_digest (Some (u "# Noted")) write None) in
  @apply ascii_tables toy_digest (Some once) write None = mkApplied once Noop.
Proof.
  cbv zeta.
  refine (proj2 (proj2 (@remember_once gregorian gregorian_laws ascii_tables toy_digest
    (u "bridge") sample_date sample_fact (@forbidden_topics ascii_tables sample_profile) sample_fact
    (u "Claude Code") (u "robin") sample_fact_accepted _ _ _ _ _) (Some (u "# Noted")) None _ _)).
  - vm_compute. split; congruence.
  - intros [=].
  - decide_closed.
  - vm_compute. reflexivity.
  - vm_compute. reflexivity.
  - decide_closed.
  - decide_closed.
Defined.

(** ** The outbox *)

Definition unit_json : JsonValue := {| json := unit |}.

(** Entries of an id only, one word a line. *)
Definition id_entry (id : str) : @OutboxEntry unit_json :=
  @mkOutboxEntry unit_json id [] [] tt [].

Definition word_json : @EntryJson unit_json := {|
  to_json e :=
    if decide (e = id_entry (entry_id e) ∧ entry_id e ≠ [] ∧
               Forall (λ c, is_whitespace c = false) (entry_id e))
    then Ok (entry_id e) else Err [];
  from_json line := Some (id_entry line);
|}.

Lemma word_json_laws : @EntryJsonLaws unit_json word_json.
Proof.
  assert (∀ e line, @to_json unit_json word_json e = Ok line →
    e = id_entry line ∧ line ≠ [] ∧ Forall (λ c, is_whitespace c = false) line) as Hj.
  { intros e line. simpl. destruct (decide _) as [(? & ? & ?)|]; [|done]. by intros [= <-]. }
  split.
  - intros e line (-> & _)%Hj. done.
  - intros e line (_ & _ & Hw)%Hj. rewrite Forall_forall in Hw. split; intros Hin%Hw; discriminate Hin.
  - intros e line (_ & Hne & Hw)%Hj. by rewrite trim_no_space.
Defined.

Definition sample_queue : list (@OutboxEntry unit_json) :=
  [id_entry (u "one"); id_entry (u "two"); id_entry (u "three")].

(** A desk that refuses the first call and falls silent at the third. *)
Definition sample_send (e : @OutboxEntry unit_json) : result unit DrainFailure :=
  if decide (entry_id e = u "one") then Err (Refused (u "the line is empty"))
  else if decide (entry_id e = u "three") then Err (Transport (u "unreachable"))
  else Ok tt.

Definition sample_file : outbox_file := Some (unlines [u "one"; u "two"; u "three"]).

Lemma outbox_refines_queue_witness :
  @entries unit_json word_json sample_file = sample_queue ∧
  ∃ f', @remove unit_json word_json calm sample_file (u "two") = (f', Ok tt).
Proof.
  destruct (@outbox_refines_queue unit_json word_json word_json_laws calm sample_file sample_queue)
    as (He & _ & Hr).
  - right. exists (unlines [u "one"; u "two"; u "three"]). split; [reflexivity|].
    vm_compute. reflexivity.
  - reflexivity.
  - split; [exact He|]. destruct (Hr eq_refl (u "two")) as (f' & r & Hf & _ & Hok).
    exists f'. rewrite (Hok eq_refl eq_refl) in Hf. exact Hf.
Defined.

Lemma drain_in_order_witness :
  ∃ f' gone kept report, sample_queue = gone ++ kept ∧
    @drain unit_json word_json sample_send sample_file = Some (f', report) ∧
    @entries unit_json word_json f' = kept.
Proof.
  destruct (@drain_in_order unit_json word_json word_json_laws sample_send sample_file sample_queue)
    as (f' & gone & kept & stop & Hq & _ & Hd & _ & He & _).
  - right. exists (unlines [u "one"; u "two"; u "three"]). split; [reflexivity|].
    vm_compute. reflexivity.
  - decide_closed.
  - exists f', gone, kept. eexists. split; [exact Hq|]. split; [exact Hd|exact He].
Defined.

(** One call queued, taken up by a drain. *)
Definition sample_machine : @machine unit_json :=
  mkMachine (Some (u "one" ++ [10%N])) [mkDrainer DrainReport_default [] (Sending (id_entry (u "one")))]
    [id_entry (u "one")] [].

Lemma outbox_loses_nothing_witness :
  id_entry (u "one") ∈ @entries unit_json word_json (file sample_machine) ∨
  id_entry (u "one") ∈ handled sample_machine.
Proof.
  refine (proj1 (@outbox_loses_nothing unit_json word_json word_json_laws sample_machine _)
    (id_entry (u "one")) _); [|by left].
  eapply rtc_l; [exists calm, Pushing; split; [by split|]|].
  { eapply (step_push calm machine_start (id_entry (u "one"))); [by intros ?%elem_of_nil|].
    vm_compute. reflexivity. }
  eapply rtc_l; [exists calm, Starting; split; [by split|]; apply step_start|].
  eapply rtc_l; [exists calm, Choosing; split; [by split|]; eapply (step_pick _ _ 0); reflexivity|].
  match goal with |- rtc _ ?m _ => replace m with sample_machine by (vm_compute; reflexivity) end.
  apply rtc_refl.
Defined.
