(* ===== verification/ClientWitnesses.v ===== *)
(** * Witnesses of the properties of the client, and of the two programs together

    A client paired with the desk of [ServiceSamples.v], over texts that are
    the digits of a number. *)

From stdpp Require Import gmap countable relations.
From S2P Require Import Prelude Strings Utf8 External Samples Write Dates Calendar Rules NoteIndex Rpc RpcTheory.
From S2P Require Import Http HttpTheory AgentMirror VaultFs Notes Memory Desk Server DeskTheory ServerTheory.
From S2P Require Import Reminder Outbox OutboxTheory Client ClientTheory Delivery ServiceSamples BridgeWitnesses.

(** ** Values as texts *)

Definition coded {A} `{Countable A} (x : A) : str := bits (encode x).
Definition decoded {A} `{Countable A} (s : str) : option A := decode (of_bits s).

Lemma decoded_coded {A} `{Countable A} (x : A) : decoded (coded x) = Some x.
Proof. unfold decoded, coded. by rewrite of_bits_bits, decode_encode. Defined.

Lemma coded_usv {A} `{Countable A} (x : A) : Forall usv (coded x).
Proof. apply Forall_forall. intros c [-> | ->]%bits_chars; left; vm_compute; reflexivity. Defined.

Definition coded_ops : @JsonOps tree_json := @Build_JsonOps tree_json
  (@json_null tree_json tree_ops) (@json_bool tree_json tree_ops) (@json_int tree_json tree_ops) (@json_string tree_json tree_ops)
  (@json_array tree_json tree_ops) (@json_object tree_json tree_ops) (@json_insert tree_json tree_ops) (@json_get tree_json tree_ops)
  (@External.as_str tree_json tree_ops) (@as_bool tree_json tree_ops) (@External.as_u64 tree_json tree_ops) (@as_array tree_json tree_ops)
  (λ text, match decoded text : option tree with Some t => Ok t | None => Err (u "not JSON") end).

Lemma coded_laws : @JsonLaws tree_json coded_ops.
Proof. split; apply tree_laws. Defined.

Definition response_tuple (r : @JsonRpcResponse tree_json) : str * tree * option tree * option (Z * str) :=
  (@response_jsonrpc tree_json r, @response_id tree_json r, @response_result tree_json r,
   (λ e, (code e, error_message e)) <$> @response_error tree_json r).
Definition tuple_response (t : str * tree * option tree * option (Z * str)) : @JsonRpcResponse tree_json :=
  let '(version, id, result, error) := t in
  @mkJsonRpcResponse tree_json version id result ((λ e, mkJsonRpcError e.1 e.2) <$> error).

Definition wire_formats : @ServerFormats tree_json := {|
  response_json := @response_json _ line_formats;
  pair_request_from_slice := @pair_request_from_slice _ line_formats;
  pair_response_json := @pair_response_json _ line_formats;
  health_json := @health_json _ line_formats;
  rpc_response_json r := coded (response_tuple r);
  from_value_error := @from_value_error _ line_formats;
  parse_config := @parse_config _ line_formats;
  parse_clients := @parse_clients _ line_formats;
  render_clients := @render_clients _ line_formats;
  parse_pending := @parse_pending _ line_formats;
  render_pending := @render_pending _ line_formats;
  parse_rfc3339 := @parse_rfc3339 _ line_formats;
  to_rfc3339 := @to_rfc3339 _ line_formats;
|}.

Definition client_formats : @ClientFormats tree_json gregorian := {|
  request_to_vec r := Ok (as_bytes (coded (@request_value tree_json coded_ops r)));
  response_from_str text :=
    match decoded text with Some t => Ok (tuple_response t) | None => Err (u "not a reply") end;
  json_to_string := coded;
  local_day text := parse_iso_date (take 10 text);
  utc_minute text := Some (take 16 text);
|}.

Lemma wire_laws : @WireLaws tree_json coded_ops gregorian iso_dates wire_formats client_formats.
Proof.
  split.
  - intros r body [= <-]. rewrite from_utf8_lossy_as_bytes by apply coded_usv.
    cbn [json_from_str coded_ops]. by rewrite decoded_coded.
  - intros r. apply coded_usv.
  - intros r _. cbn [response_from_str rpc_response_json client_formats wire_formats].
    rewrite decoded_coded. destruct r as [version id result [[]|]]; reflexivity.
Defined.

Definition entry_tuple (e : @OutboxEntry tree_json) : str * str * str * tree * str :=
  (entry_id e, entry_at e, entry_tool e, @entry_args tree_json e, entry_harness e).

Definition entry_json : @EntryJson tree_json := {|
  to_json e := Ok (ch "0" :: coded (entry_tuple e));
  from_json line :=
    match decoded (drop 1 line) : option (str * str * str * tree * str) with
    | Some (id, at_, tool, args, harness) => Some (@mkOutboxEntry tree_json id at_ tool args harness)
    | None => None
    end;
|}.

Lemma entry_json_laws : @EntryJsonLaws tree_json entry_json.
Proof.
  split.
  - intros [id at_ tool args harness] line [= <-]. cbn [from_json entry_json drop skipn].
    rewrite drop_0, decoded_coded. reflexivity.
  - intros e line [= <-]. split; (intros [Hc|[Hc|Hc]%bits_chars]%elem_of_cons; discriminate Hc).
  - intros e line [= <-] E%trim_nil_iff. apply Forall_cons in E as [[=] _].
Defined.

(** ** A paired client with a line queued *)

#[local] Existing Instances ascii_tables toy_digest gregorian gregorian_days wall_clock no_faults.
#[local] Existing Instances bits_seen tree_json coded_ops coded_laws wire_formats client_formats wire_laws.
#[local] Existing Instances entry_json entry_json_laws iso_dates.

Lemma iso_dates_laws : @ChronoParseLaws gregorian iso_dates.
Proof. exact iso_reader_laws. Defined.
#[local] Existing Instance iso_dates_laws.

Definition paired_config : ClientConfig :=
  mkClientConfig (u "desk:7557") (u "token") (u "Vault") (u "laptop").

Definition queued_fact : OutboxEntry :=
  mkOutboxEntry _ (u "call-1") (u "2026-05-06T10:00:00Z") (u "remember")
    (tree_object [(u "fact", tree_string (u "Sails on Sundays"))]) (u "claude-code").

Definition paired_proxy (queue : list OutboxEntry) : Proxy :=
  mkProxy (Some paired_config) ∅
    match render queue with Ok [] | Err _ => None | Ok text => Some text end
    (u "claude-code") None None [].

Definition queued_body : list N := as_bytes (coded (request_value (outbox_request queued_fact))).

Lemma queued_sendable (queue : list OutboxEntry) :
  sendable paired_config (paired_proxy queue) queued_fact (u "desk") 7557 queued_body.
Proof.
  split; [reflexivity|reflexivity|vm_compute; reflexivity| | |apply Nat.leb_le; vm_compute; reflexivity
    |apply Nat.leb_le; vm_compute; reflexivity].
  - split; [discriminate|decide_closed].
  - split; [split; [discriminate|decide_closed]|split; [discriminate|decide_closed]|decide_closed| |].
    + repeat (apply Forall_cons; split); try apply Forall_nil_2;
        (split; [decide_closed|decide_closed|vm_compute; reflexivity|vm_compute; reflexivity|decide_closed
          |vm_compute; discriminate]).
    + apply N.leb_le. vm_compute. reflexivity.
Defined.

Lemma sample_knows_token s :
  vault_open s = true →
  map (λ c, (client_name c, token_sha256 c)) (clients s) = [(u "laptop", sha256_hex (u "token"))] →
  knows_token s paired_config.
Proof.
  intros Ho Hc. split; [done|]. exists (u "laptop"). intros head Hb. unfold authenticate. rewrite Hb.
  change (config_token paired_config) with (u "token").
  cbn [fmap option_fmap option_map]. generalize dependent (sha256_hex (u "token")). intros hash Hc.
  destruct (clients s) as [|c [|]]; try discriminate Hc. injection Hc as Hn Ht.
  cbn [find is_some_and]. rewrite Ht, (proj2 (constant_time_eq_bytes hash hash)) by done.
  cbn [fmap option_fmap option_map]. by rewrite Hn.
Defined.

Definition first_delivery : Server * result unit DrainFailure :=
  send_entry (round_trip Arrives sample_server_env) (paired_proxy [queued_fact]) queued_fact sample_server.

Lemma phone_leaves s : rtc server_step s (disconnect (u "phone") s).
Proof. apply rtc_once. exists (Disconnect (u "phone")). split; [reflexivity|exact I]. Defined.


(** ** Requests of an agent *)

Lemma drain_learns_outcome_witness :
  let '(h', reply) := @dispatch _ _ _ _ Desk (DeskHost sample_env) sample_desk
                        (outbox_request queued_fact) (u "1.0") in
  ∃ r, reply = Some r ∧
  match @tool_outcome _ _ _ _ Desk (DeskHost sample_env) (u "remember") (entry_args queued_fact)
          (entry_meta queued_fact) with
  | Err e => h' = sample_desk ∧ drain_verdict (Ok r) = Err (Outbox.Refused (message e))
  | Ok call => h' = (call sample_desk).1 ∧ drain_verdict (Ok r) = call_verdict (call sample_desk).2
  end.
Proof.
  apply (drain_learns_outcome (ToolHost0 := DeskHost sample_env) sample_desk queued_fact (u "1.0")).
  vm_compute. by split.
Defined.

Definition tool_request (id name : str) (args : tree) : JsonRpcRequest :=
  JsonRpcRequest_new (tree_string id) (u "tools/call")
    (tree_object [(u "name", tree_string name); (u "arguments", args)]).

Definition client_env (text : str) : ClientEnv :=
  mkClientEnv text 0 (u "call-8") (u "call-9") (λ _, None).

(** A desk that does not answer. *)
Definition silent (r : HttpRequest) (w : unit) : unit * result HttpResponse str := (w, Err (u "timed out")).

Definition asked_today : JsonRpcRequest :=
  tool_request (u "1") (u "note_today") (tree_object [(u "line", tree_string (u "Rowed to the island"))]).

Definition away_proxy : Proxy := paired_proxy [queued_fact].

Definition after_asking : Proxy * unit * option JsonRpcResponse :=
  handle silent (λ _ w, w) (u "1.0") (client_env (u "2026-05-07T09:00:00Z")) asked_today away_proxy tt.

Lemma triple {A B C} (x : A * B * C) : x = (x.1.1, x.1.2, x.2).
Proof. by destruct x as [[? ?] ?]. Defined.

Lemma away_holds : holds (proxy_outbox away_proxy) [queued_fact].
Proof. right. exists (default [] (proxy_outbox away_proxy)). split; vm_compute; reflexivity. Defined.



Definition asked_boat : JsonRpcRequest :=
  tool_request (u "2") (u "read") (tree_object [(u "path", tree_string (u "projects/boat.md"))]).

Definition boat_answered : Proxy * Server * option JsonRpcResponse :=
  handle (round_trip Arrives sample_server_env) (λ _ w, w) (u "1.0") (client_env (u "2026-05-07T09:00:00Z"))
    asked_boat (paired_proxy []) sample_server.

Definition boat_again : Proxy * Server * option JsonRpcResponse :=
  handle (round_trip (RequestLost (u "timed out")) sample_server_env) (λ _ w, w) (u "1.0")
    (client_env (u "2026-05-07T12:00:00Z")) asked_boat boat_answered.1.1 boat_answered.1.2.

Lemma offline_read_is_last_answer_witness :
  boat_again.2 = Some (result_response (tree_string (u "2")) (response_value (response_text
    (first_text (response_text (u "# Boat" ++ LINE ++ u "varnish the hull" ++ LINE))
     ++ offline_suffix (u "2026-05-07T09:00:00Z") (desk_label boat_answered.1.1))))).
Proof.
  destruct boat_answered.2 as [response|] eqn:Er; [|exfalso; revert Er; vm_compute; discriminate].
  refine (offline_read_is_last_answer (round_trip Arrives sample_server_env)
    (round_trip (RequestLost (u "timed out")) sample_server_env) (λ _ w, w) (u "1.0")
    (client_env (u "2026-05-07T09:00:00Z")) (client_env (u "2026-05-07T12:00:00Z")) asked_boat asked_boat
    (paired_proxy []) sample_server boat_answered.1.1 boat_answered.1.2 response
    (response_text (u "# Boat" ++ LINE ++ u "varnish the hull" ++ LINE)) boat_again.1.1 boat_again.1.2
    boat_again.2 (note_file (u "projects/boat.md")) (tree_string (u "2"))
    eq_refl eq_refl eq_refl eq_refl eq_refl _ _ eq_refl _ _ _ eq_refl _ _).
  - vm_compute. reflexivity.
  - vm_compute. reflexivity.
  - rewrite <- Er. unfold boat_answered. apply triple.
  - vm_compute. reflexivity.
  - assert (boat_answered.2 ≫= tool_result =
      Some (response_text (u "# Boat" ++ LINE ++ u "varnish the hull" ++ LINE))) as E
      by (vm_compute; reflexivity).
    by rewrite Er in E.
  - unfold boat_again. apply triple.
  - vm_compute. reflexivity.
Defined.
