(* ===== verification/DeskWitnesses.v ===== *)
(** * The desk's properties on examples

    The theorems of the text, the plan, the calendar and the backlog on a note,
    over the tables of [Samples] and the calendar of [Calendar]. *)

From stdpp Require Import gmap.
From S2P Require Import Prelude Strings External Ordering HeadingKey Dates Samples Calendar Reminder.
From S2P Require Import PlanTime MarkdownSyntax MarkdownKeys MarkdownBlocks MarkdownFolds DeskHeadings EventMarker.
From S2P Require Import DayPlan DayPlanTheory EventSync EventSyncTheory.
From S2P Require Import Backlog BacklogTheory BacklogRename Mirror BridgeWitnesses.
From S2P Require Import ReminderIndex ReminderIndexTheory ReminderApply ReminderDay ReminderDayTheory.

#[local] Existing Instances ascii_tables gregorian wall_clock.

Definition text_of_lines (lines : list str) : str := concat (map (λ line, line ++ [10%N]) lines).

(** ** The text *)

Definition ticked_line : str := u "  - [ ] water the plants".

Lemma toggle_ticks_and_unticks_witness :
  ∃ edit edit', toggle_task_edit ticked_line = Some edit ∧ edit.1 = mkRange 5 6 ∧
    task_checkbox (toggled ticked_line edit) = Some (mkRange 4 7, true) ∧
    toggle_task_edit (toggled ticked_line edit) = Some edit' ∧
    (ticked_line !! 5 ≠ Some 88%N → toggled (toggled ticked_line edit) edit' = ticked_line).
Proof. apply (toggle_ticks_and_unticks ticked_line (mkRange 4 7) false). vm_compute. reflexivity. Defined.

Lemma block_replaces_block_witness :
  apply_block (u "# Title") BlockTask 3 = (u "- [ ] Title", 7) ∧
  let '(line', moved) := apply_block (u "# Title") BlockTask 3 in
  (apply_block line' (BlockHeading 2) 0).1 = (apply_block (u "# Title") (BlockHeading 2) 0).1 ∧
  drop moved line' = drop (Nat.max (Nat.min 3 (length (u "# Title")))
    (block_text_start (u "# Title") (count_while is_blank_char (u "# Title")))) (u "# Title").
Proof. split; [vm_compute; reflexivity|]. exact (block_replaces_block (u "# Title") BlockTask (BlockHeading 2) 3 0 I). Defined.

Definition folded_text : str := text_of_lines [u "# A **bold** and a [link](there)"; u "- [x] `code` and ~~gone~~"].

Lemma folds_never_overlap_witness :
  ∃ a b, folds (conceal_spans folded_text) !! 0 = Some a ∧ folds (conceal_spans folded_text) !! 1 = Some b ∧
    r_start a < r_end a ≤ length folded_text ∧ (0 ≠ 1 → overlaps a b = false).
Proof.
  eexists _, _. split; [vm_compute; reflexivity|]. split; [vm_compute; reflexivity|].
  apply (folds_never_overlap folded_text 0 1); vm_compute; reflexivity.
Defined.

Definition headings_of_note : list (nat * str) :=
  DeskHeadings.rows [u "# Today"; u "## plan"; u "## Day planner"; u "- [ ] 9:00 stand-up"].

Lemma best_heading_is_best_witness :
  ∃ before line after r, headings_of_note = before ++ (2, line) :: after ∧
    candidate (HeadingNames_new [u "Day planner"; u "Plan"]) None (2, line) r 2.
Proof.
  pose proof (best_heading_is_best headings_of_note (HeadingNames_new [u "Day planner"; u "Plan"]) None eq_refl) as Hb.
  assert (best_heading headings_of_note (HeadingNames_new [u "Day planner"; u "Plan"]) None = Some (2, 2)) as E
    by (vm_compute; reflexivity).
  rewrite E in Hb. destruct Hb as (before & line & after & r & Hl & Hc & _). exists before, line, after, r. by split.
Defined.

(** ** The plan *)

Definition planned_note : str := text_of_lines
  [u "# 2026-07-09"; []; u "## Day planner"; u "- [ ] 09:00 - 10:00 write"; u "- [x] 09:30 call"; u "- [ ] 23:50 sleep"; u "- [ ] read"].

Definition no_reminders : PlanReminders := mkReminders None [].

Definition sample_plan : list PlanItem := parse_day_plan_for planned_note DayPlannerConfig_default no_reminders.

Lemma sample_plan_ok : Forall item_ok sample_plan.
Proof.
  refine (proj1 (proj2 (parse_day_plan_spec planned_note DayPlannerConfig_default no_reminders _))).
  vm_compute. split; [reflexivity|congruence].
Defined.

Lemma blocks_have_room_witness :
  let l := layout_lane sample_plan Normal 15 in
  NoDup (map item_index l) ∧
  ∀ i s e, (i, s, e) ∈ map place_of l ↔
    ∃ item, sample_plan !! i = Some item ∧ weight item = Normal ∧ timing item = Timed s e.
Proof.
  destruct (blocks_have_room sample_plan Normal 15 (item_ok_plan _ sample_plan_ok)) as (Hin & Hnd & _).
  exact (conj Hnd Hin).
Defined.

Lemma planned_rows : (plan_range (str_lines planned_note) (heading_names DayPlannerConfig_default)).1 = mkRange 3 7.
Proof. vm_compute. reflexivity. Defined.

Lemma every_task_is_planned_witness :
  durations_ok DayPlannerConfig_default ∧ map row sample_plan `sublist_of` map as_u32 (seq 3 4).
Proof.
  assert (durations_ok DayPlannerConfig_default) as Hd by (vm_compute; split; [reflexivity|congruence]).
  split; [exact Hd|]. pose proof (every_task_is_planned planned_note DayPlannerConfig_default no_reminders 15 Hd) as Hp.
  cbn zeta in Hp. rewrite planned_rows in Hp. exact (proj1 Hp).
Defined.

Lemma grid_shows_everything_witness :
  let '(top, bottom) := grid_bounds sample_plan DayPlannerConfig_default in
  (top mod 60 = 0 ∧ bottom mod 60 = 0 ∧ bottom <= MINUTES_PER_DAY)%N.
Proof.
  pose proof (grid_shows_everything sample_plan DayPlannerConfig_default) as Hg.
  destruct (grid_bounds sample_plan DayPlannerConfig_default) as [top bottom]. apply Hg; clear Hg.
  - exact sample_plan_ok.
  - assert (points sample_plan = []) as -> by (vm_compute; reflexivity). constructor.
  - vm_compute. congruence.
Defined.

(** ** The calendar *)

Definition standup : CalendarEvent := mkEvent (u "abc123") (u "Stand-up") (Some (540, 555)%N) EventDefault.

Lemma standup_plain : plain_event standup.
Proof. split; [intros [=]|reflexivity|reflexivity|intros [=]|vm_compute; repeat split; congruence]. Defined.

Lemma new_line_settles_witness :
  ∃ s, SyncedLine_parse 4 (render_synced_line standup) = Some s ∧ sl_id s = u "abc123" ∧
    updated_for s standup = Some (render_synced_line standup).
Proof.
  destruct (new_line_settles 4 standup standup_plain) as (s & H1 & H2 & _ & _ & _ & _ & H3).
  - split; [intros [=]|]. decide_closed.
  - exists s. split; [exact H1|]. split; [exact H2|exact H3].
Defined.

Definition stale_line : str := u "- [x] 10:00 - 10:15 Stand-up my notes <!--gcal:abc123-->".

Lemma update_settles_witness :
  ∃ s line' s', SyncedLine_parse 4 stale_line = Some s ∧ updated_for s standup = Some line' ∧
    line' = u "- [x] 09:00 - 09:15 Stand-up my notes <!--gcal:abc123-->" ∧
    SyncedLine_parse 4 line' = Some s' ∧ sl_id s' = sl_id s ∧
    (updated_for s' standup = Some line' ∨
     updated_for s' standup = None ∧ ∃ inner trailing, cancelled_parts s = Some (inner, trailing) ∧ ends_token trailing = false).
Proof.
  destruct (SyncedLine_parse 4 stale_line) as [s|] eqn:Es; [|vm_compute in Es; discriminate Es].
  destruct (updated_for s standup) as [line'|] eqn:Eu.
  2: { vm_compute in Es. injection Es as <-. vm_compute in Eu. discriminate Eu. }
  destruct (update_settles 4 stale_line s standup line' Es standup_plain Eu) as (s' & H1 & H2 & H3).
  exists s, line', s'. split_and!; [reflexivity|exact Eu| |exact H1|exact H2|exact H3].
  vm_compute in Es. injection Es as <-. vm_compute in Eu. injection Eu as <-. vm_compute. reflexivity.
Defined.

Lemma cancel_settles_witness :
  ∃ s s', SyncedLine_parse 4 stale_line = Some s ∧ SyncedLine_parse 4 (cancelled_form s) = Some s' ∧
    sl_id s' = sl_id s ∧ is_cancelled s' = true.
Proof.
  destruct (SyncedLine_parse 4 stale_line) as [s|] eqn:Es; [|vm_compute in Es; discriminate Es].
  destruct (cancel_settles 4 stale_line s Es) as (s' & H1 & H2 & _ & _ & _ & H3).
  exists s, s'. split; [reflexivity|]. split; [exact H1|]. split; [exact H2|exact H3].
Defined.

Definition synced_note : str := text_of_lines
  [u "## Day planner"; u "### Calendar"; stale_line; u "- [ ] 11:00 - 12:00 Lunch <!--gcal:dead01-->"; u "- [ ] mine"].

Lemma sync_keeps_the_note_witness :
  ∃ edits diverged, reconcile synced_note [standup] (with_planner_heading (u "Day planner")) = Edits edits diverged ∧
    filter (λ line, users_line line = true) (str_lines synced_note) `sublist_of` edited_lines (str_lines synced_note) edits.
Proof.
  destruct (reconcile synced_note [standup] (with_planner_heading (u "Day planner"))) as [| |edits diverged] eqn:E;
    [vm_compute in E; discriminate E..|].
  exists edits, diverged. split; [reflexivity|].
  exact (proj1 (sync_keeps_the_note synced_note [standup] (with_planner_heading (u "Day planner")) edits diverged E)).
Defined.

(** ** The backlog *)

Definition sample_backlog : str := text_of_lines
  [u "# Backlog"; []; u "## Soon"; u "- [ ] fix the roof"; u "  call first"; u "### House"; u "- [x] paint"; [];
   u "## Someday"; u "- [ ] sail"].

Definition roof : BacklogTask :=
  mkTask 3 (mkRange 19 51) (mkRange 25 37) (u "fix the roof") false None.

Lemma roof_in_soon : section (parse_backlog sample_backlog BacklogHeadings_default) Soon !! 0 = Some roof.
Proof. vm_compute. reflexivity. Defined.

Lemma tasks_are_whole_lines_witness :
  ∃ paint, section (parse_backlog sample_backlog BacklogHeadings_default) Soon !! 1 = Some paint ∧
    span_of_task sample_backlog roof ∧ (0 < 1 → r_end (task_span roof) ≤ r_start (task_span paint)).
Proof.
  eexists. split; [vm_compute; reflexivity|].
  apply (tasks_are_whole_lines sample_backlog BacklogHeadings_default Soon 0 1); [exact roof_in_soon|vm_compute; reflexivity].
Defined.


Lemma rename_renames_that_task_witness :
  let text' := apply_edits sample_backlog [rename_task_edit roof (u "mend the roof")] in
  Forall2 (renamed roof (u "mend the roof")) (section (parse_backlog sample_backlog BacklogHeadings_default) Soon)
    (section (parse_backlog text' BacklogHeadings_default) Soon).
Proof.
  refine (proj1 (proj2 (rename_renames_that_task sample_backlog BacklogHeadings_default Soon roof (u "mend the roof") _ _ _ _) Soon)).
  - exact (list_elem_of_lookup_2 _ _ _ roof_in_soon).
  - intros [=].
  - decide_closed.
  - reflexivity.
Defined.

(** ** The reminders index *)

(** A day and the nanoseconds since an instant, as two clocks. *)
Definition day_and_nanos : @DateTimes gregorian := {|
  NaiveDateTime := @NaiveDate gregorian * Z;
  dt_date := fst;
  dt_nanos := snd;
  dt_add_nanos t n := (t.1, (t.2 + n)%Z)
|}.

#[local] Existing Instances day_and_nanos iso_reader.

Definition desk_settings : ReminderSettings :=
  mkSettings gregorian wall_clock (u "reminders.md") [u "Open"] [u "Done"] [u "Reminders"]
    (default midnight (hms 9 0 0)) 60 (default midnight (hms 9 0 0)) true.

Definition house_note : str := u "- [ ] call the plumber (@2026-07-10)" ++ [10%N].
Definition garden_id : str := u "0123456789ab".

(** The index lists a line of [garden.md]; [house.md] has a line without an id. *)
Definition desk_index : str := text_of_lines
  [u "# Reminders"; []; u "## Open"; u "- [[garden]] <!--rem:0123456789ab-->"; []; u "## Done"].

Definition desk_batch (seconds : Z) : BatchInput :=
  mkBatch (u "reminders.md") (Some desk_index)
    [(u "garden.md", []); (u "house.md", scan_note house_note (u "house.md") ReminderConfig_default)] []
    [(u "house.md", house_note)] ∅ (sample_date, (seconds * 1000000000)%Z).

Lemma desk_batch_ok seconds : scan_ok (bi_scan (desk_batch seconds)).
Proof.
  split; [vm_compute; repeat constructor|]. intros path lines l Hin Hl.
  apply elem_of_cons in Hin as [Heq|Hin]; [injection Heq as -> ->; by apply not_elem_of_nil in Hl|].
  apply list_elem_of_singleton in Hin. injection Hin as -> ->. vm_compute in Hl.
  apply list_elem_of_singleton in Hl as ->. intros [=].
Defined.

Definition first_plan : BatchPlan :=
  match plan_batch (desk_batch 0) ∅ desk_settings ReminderConfig_default counting 10 with
  | Some (plan, _) => plan
  | None => mkPlan [] None
  end.

Lemma first_plan_made : ∃ state',
  plan_batch (desk_batch 0) ∅ desk_settings ReminderConfig_default counting 10 = Some (first_plan, state').
Proof.
  unfold first_plan. destruct (plan_batch _ _ _ _ _ _) as [[plan state']|] eqn:E; [exists state'; reflexivity|].
  assert (is_some (plan_batch (desk_batch 0) ∅ desk_settings ReminderConfig_default counting 10) = true) as Hs by (vm_compute; reflexivity).
  rewrite E in Hs. discriminate Hs.
Defined.

Lemma ids_are_fresh_witness : plan_ids first_plan = [counting 0] ∧ NoDup (plan_ids first_plan).
Proof.
  destruct first_plan_made as [state' E]. split; [vm_compute; reflexivity|].
  exact (proj1 (ids_are_fresh (desk_batch 0) ∅ desk_settings ReminderConfig_default counting 10 first_plan state'
    (desk_batch_ok 0) E)).
Defined.

Lemma every_reminder_is_linked_once_witness :
  omap (λ c, match c with AppendEntry _ line => Some line | _ => None end) (changes_of first_plan (u "reminders.md"))
    = [u "- [[house]] <!--rem:000000000000-->"] ∧
  ∃ links : list (str * Change),
    filter (λ c, is_append c = true) (changes_of first_plan (u "reminders.md")) = links.*2 ∧ NoDup links.*1.
Proof.
  destruct first_plan_made as [state' E]. split; [vm_compute; reflexivity|].
  destruct (every_reminder_is_linked_once (desk_batch 0) ∅ desk_settings ReminderConfig_default counting 10 first_plan state'
    (desk_batch_ok 0) E) as (links & Hl & Hnd & _).
  exists links. split; [exact Hl|exact Hnd].
Defined.

(** Three batches in which the line of [garden.md] is gone. *)
Definition desk_run : list (BatchInput * (nat → str)) :=
  [(desk_batch 0, counting); (desk_batch 5, counting); (desk_batch 12, counting)].

Lemma desk_run_ok : Forall (λ b : BatchInput * (nat → str), scan_ok (bi_scan b.1)) desk_run.
Proof. repeat constructor; apply desk_batch_ok. Defined.

Definition last_plan : BatchPlan :=
  match run_batches desk_settings ReminderConfig_default 10 desk_run ∅ with
  | Some ([_; _; plan], _) => plan
  | _ => mkPlan [] None
  end.

Lemma desk_run_made : ∃ first second state,
  run_batches desk_settings ReminderConfig_default 10 desk_run ∅ = Some ([first; second; last_plan], state).
Proof.
  unfold last_plan. destruct (run_batches _ _ _ _ _) as [[plans state]|] eqn:E.
  - assert ((length ∘ fst <$> run_batches desk_settings ReminderConfig_default 10 desk_run ∅) = Some 3) as Hn by (vm_compute; reflexivity).
    rewrite E in Hn. cbn in Hn. destruct plans as [|p1 [|p2 [|p3 [|? ?]]]]; try discriminate Hn. exists p1, p2, state. reflexivity.
  - assert (is_some (run_batches desk_settings ReminderConfig_default 10 desk_run ∅) = true) as Hs by (vm_compute; reflexivity).
    rewrite E in Hs. discriminate Hs.
Defined.

Lemma removed_only_after_grace_witness :
  ∃ e, first_entry (index_entries (desk_batch 12) desk_settings ReminderConfig_default) garden_id = Some e ∧
    lost (bi_scan (desk_batch 12)) (desk_batch 12) e ∧
    ∃ m first, m < 2 ∧ desk_run !! m = Some first ∧
      (REMOVAL_GRACE <= dt_nanos (bi_now (desk_batch 12)) - dt_nanos (bi_now first.1))%Z.
Proof.
  destruct desk_run_made as (p1 & p2 & state & E).
  assert (existsb (λ c, match c with MoveEntry i _ _ => i == garden_id | _ => false end)
    (changes_of last_plan (u "reminders.md")) = true) as Hex by (vm_compute; reflexivity).
  apply existsb_exists in Hex as (c & Hin%list_elem_of_In & Hc). destruct c as [| | | |i to_ line|]; try discriminate Hc.
  apply bool_decide_eq_true in Hc as ->.
  assert (desk_run !! 2 = Some (desk_batch 12, counting)) as Hb by reflexivity.
  assert ([p1; p2; last_plan] !! 2 = Some last_plan) as Hp by reflexivity.
  destruct (removed_only_after_grace desk_settings ReminderConfig_default 10 desk_run _ state 2 _ _ _ _ _ _ desk_run_ok E Hb Hp Hin)
    as (e & He & Hm).
  assert (lost (bi_scan (desk_batch 12)) (desk_batch 12) e) as Hlost.
  { assert (match first_entry (index_entries (desk_batch 12) desk_settings ReminderConfig_default) garden_id with
      | Some e => is_none (find_target (bi_scan (desk_batch 12)) (bi_index_path (desk_batch 12)) e).2 | None => false end = true) as Hnone
      by (vm_compute; reflexivity).
    rewrite He in Hnone. unfold lost. destruct (find_target _ _ e) as [target [home|]]; [discriminate Hnone|reflexivity]. }
  exists e. split; [exact He|]. split; [exact Hlost|].
  destruct (Hm Hlost) as (m & first & Hlt & Hfirst & Hgrace & _). exists m, first. split; [exact Hlt|]. split; [exact Hfirst|exact Hgrace].
Defined.

Lemma batch_ends_witness : ∃ result, eventually (plan_batch (desk_batch 0) ∅ desk_settings ReminderConfig_default counting) result.
Proof.
  apply (batch_ends (desk_batch 0) ∅ desk_settings ReminderConfig_default counting 1).
  - exact counting_recurs.
  - exact (proj1 (desk_batch_ok 0)).
  - intros path lines [Heq|Hin]%elem_of_cons; [injection Heq as -> ->; cbn; lia|].
    apply list_elem_of_singleton in Hin. injection Hin as -> ->. vm_compute. lia.
  - vm_compute. reflexivity.
Defined.

#[local] Existing Instances gregorian_laws wall_clock_laws.

Definition desk_changes : list Change :=
  [MoveEntry garden_id Section_Done (u "- [[garden]] removed 2026-07-09 <!--rem:0123456789ab-->");
   AppendEntry Section_Open (u "- [[house]] <!--rem:000000000000-->")].

Lemma changes_lose_no_line_witness :
  ∃ text', apply_changes (Some desk_index) (u "reminders.md") desk_changes desk_settings ReminderConfig_default = Some text' ∧
    filter (λ row, row = u "## Open") (ReminderApply.rows desk_index)
      ⊆+ filter (λ row, row = u "## Open") (ReminderApply.rows text').
Proof.
  destruct (changes_lose_no_line desk_index (u "reminders.md") desk_changes desk_settings
    ReminderConfig_default (λ row, row = u "## Open")) as (text' & E & Hkept & _).
  - split; apply Forall_singleton; unfold one_line; decide_closed.
  - repeat constructor; unfold change_fits, one_line; decide_closed.
  - intros row ->. split; [intros [=]|]. constructor; [|constructor; [intros []|constructor]].
    intros (before & after & Heq). apply (f_equal (λ s, bool_decide (ch "<" ∈ s))) in Heq.
    rewrite (bool_decide_eq_true_2 (ch "<" ∈ before ++ _)) in Heq; [vm_compute in Heq; discriminate Heq|].
    apply elem_of_app. right. left.
  - exists text'. split; [exact E|exact Hkept].
Defined.

(** ** The day's reminders *)

#[local] Existing Instance gregorian_ord.

Definition plants : DayReminder :=
  mkDayReminder garden_id (u "Home/Garden.md") (u "water plants") (Some sample_due) Day_Open None false.

Definition day_config : DayConfig := mkDayConfig [u "Day planner"] [u "Reminders"].
Definition day_note_lines (rows : list str) : str := text_of_lines ([u "# Thursday"; u "## Day planner"; u "### Reminders"] ++ rows).
Definition mirror_tail : str := MIRROR_SEPARATOR ++ u "[[Home/Garden]] <!--rem:0123456789ab-->".
Definition stale_mirror : str := u "- [x] 08:00 water plants twice" ++ mirror_tail.

Definition reconciled (note : str) (reminders : list DayReminder) : list LineEdit * list Frozen :=
  match reconcile_day note (u "daily/2026-07-09.md") sample_date sample_date reminders day_config with
  | Day_Edits edits frozen => (edits, frozen)
  | _ => ([], [])
  end.

Lemma reconciled_edits note reminders :
  (reconciled note reminders).1 ≠ [] →
  reconcile_day note (u "daily/2026-07-09.md") sample_date sample_date reminders day_config
  = Day_Edits (reconciled note reminders).1 (reconciled note reminders).2.
Proof. unfold reconciled. destruct (reconcile_day _ _ _ _ _ _); [intros []; reflexivity..|reflexivity]. Defined.

Lemma day_keeps_the_note_witness :
  sublist (filter (λ line, is_none (MirrorLine_parse line) = true) (str_lines (day_note_lines [stale_mirror; u "mine"])))
    (edited_lines (str_lines (day_note_lines [stale_mirror; u "mine"])) (reconciled (day_note_lines [stale_mirror; u "mine"]) [plants]).1).
Proof.
  refine (proj1 (day_keeps_the_note _ _ _ _ _ _ _ _ (reconciled_edits (day_note_lines [stale_mirror; u "mine"]) [plants] _))).
  intros E. assert (length (reconciled (day_note_lines [stale_mirror; u "mine"]) [plants]).1 = 1) as Hn by (vm_compute; reflexivity).
  rewrite E in Hn. discriminate Hn.
Defined.


Lemma day_mirror_settles_witness :
  ∃ mirror next, MirrorLine_parse stale_mirror = Some mirror ∧ updated_mirror mirror plants sample_date sample_date = Some next ∧
    show_mirror next = u "- [x] 09:30 water plants twice" ++ mirror_tail ∧
    updated_mirror next plants sample_date sample_date = Some next.
Proof.
  assert ((mirror ← MirrorLine_parse stale_mirror; next ← updated_mirror mirror plants sample_date sample_date; Some (show_mirror next))
    = Some (u "- [x] 09:30 water plants twice" ++ mirror_tail)) as Hs by (vm_compute; reflexivity).
  destruct (MirrorLine_parse stale_mirror) as [mirror|] eqn:Em; [|discriminate Hs].
  change (Some mirror ≫= ?f) with (f mirror) in Hs. cbn beta in Hs.
  destruct (updated_mirror mirror plants sample_date sample_date) as [next|] eqn:Eu; [|discriminate Hs].
  change (Some next ≫= ?f) with (f next) in Hs. cbn beta in Hs.
  exists mirror, next. split; [reflexivity|]. split; [exact Eu|]. split; [exact (inj Some _ _ Hs)|].
  exact (proj1 (day_mirror_settles mirror plants sample_date sample_date next Eu)).
Defined.

(** A service whose one reminder is due today. *)
Definition garden_indexed : IndexedReminder :=
  mkIndexed garden_id Section_Open (Link (u "Home/Garden.md")) None (u "Home/Garden.md") (Some 3)
    (Some sample_task) (Some (u "water plants")) (Some sample_due) None Indexed_Open.

Definition desk_service (today : @NaiveDate gregorian) : ServiceState :=
  mkServiceState today true [garden_indexed] ReminderConfig_default (u "Day planner")
    (λ day, u "daily/" ++ @format_ymd gregorian day ++ u ".md").

Definition dirty_sync (entries : list (str * Remembered)) : DaySync :=
  mkDaySync (mkMemory entries []) true [] true true None None [].

Definition todays_job : DayJob :=
  match (take_job (desk_service sample_date) (dirty_sync [])).2 with
  | Some job => job
  | None => mkDayJob [] sample_date [] [] [] false
  end.

Definition failed_outcome : NoteOutcome :=
  mkOutcome (u "daily/2026-07-09.md") sample_date None (Some (u "disk full")).

Lemma todays_note : note_of (desk_service sample_date) (u "daily/2026-07-09.md") sample_date.
Proof. split; vm_compute; reflexivity. Defined.

Lemma failed_note_is_retried_witness :
  ∃ s2 job', take_job (desk_service sample_date) (retry (finish_job todays_job [failed_outcome] (dirty_sync [])).1.1).1 = (s2, Some job') ∧
    (u "daily/2026-07-09.md", sample_date) ∈ job_notes job'.
Proof.
  refine (proj1 (proj2 (failed_note_is_retried (desk_service sample_date) todays_job [failed_outcome] failed_outcome (dirty_sync [])
    sample_date _ _ _ _ todays_note))).
  - apply NoDup_singleton.
  - left.
  - discriminate.
  - reflexivity.
Defined.

(** The reminder was due on the tenth before it was moved to the ninth. *)
Definition next_date : @NaiveDate gregorian := default sample_date (civil_of 2026 7 10).

Lemma every_day_is_visited_witness :
  ∃ s' job, take_job (desk_service sample_date)
      (dirty_sync [(garden_id, mkRemembered (u "water plants") None false [next_date])]) = (s', Some job) ∧
    (u "daily/2026-07-10.md", next_date) ∈ job_notes job.
Proof.
  assert (daily_path (desk_service sample_date) next_date = u "daily/2026-07-10.md") as <- by (vm_compute; reflexivity).
  apply (every_day_is_visited (desk_service sample_date)).
  - reflexivity.
  - reflexivity.
  - repeat constructor.
  - split; vm_compute; reflexivity.
  - right. right. exists garden_id. split; [left|]. eexists. split; [reflexivity|left].
Defined.

(** The memory has the words of an earlier line. *)
Definition earlier_words : Remembered := mkRemembered (u "water flowers") None false [].

Definition flowers_mirror : MirrorLine :=
  mkMirrorLine false (due_time sample_due) (u "water flowers twice") None None (u "Home/Garden") garden_id.

Lemma edit_carries_mirrors_witness :
  ∃ reminder next,
    show_mirror flowers_mirror = u "- [ ] 09:30 water flowers twice" ++ mirror_tail ∧
    dr_text reminder = u "water plants" ∧
    updated_mirror flowers_mirror reminder sample_date sample_date = Some next ∧ ml_text next = u "water plants twice".
Proof.
  set (before := dirty_sync [(garden_id, earlier_words)]).
  assert (is_some (take_job (desk_service sample_date) before).2 = true) as Hs by (vm_compute; reflexivity).
  destruct (take_job (desk_service sample_date) before) as [s' [job|]] eqn:Ej; [|discriminate Hs].
  assert (btree_get garden_id (mem_reminders (memory before)) = Some earlier_words) as Hget by reflexivity.
  assert (ml_text flowers_mirror = mirror_text (rm_text earlier_words) ++ u " twice") as Hml by (vm_compute; reflexivity).
  assert (words_trailing (ml_text flowers_mirror) (mirror_text (u "water plants")) = None) as Hw by (vm_compute; reflexivity).
  assert (btree_ok (mem_reminders (memory before))) as Hok by repeat constructor.
  assert (garden_indexed ∈ indexed (desk_service sample_date)) as Hin by left.
  destruct (edit_carries_mirrors (desk_service sample_date) before s' job garden_indexed (u "water plants") earlier_words
    flowers_mirror (u " twice") sample_date eq_refl Hok (NoDup_singleton _) Ej Hin ltac:(discriminate) eq_refl ltac:(discriminate)
    Hget ltac:(discriminate) ltac:(discriminate) Hml eq_refl Hw) as (reminder & next & _ & _ & Ht & Hu & Hn).
  exists reminder, next. split; [vm_compute; reflexivity|]. split; [exact Ht|]. split; [exact Hu|].
  rewrite Hn; [vm_compute; reflexivity|left; reflexivity|discriminate].
Defined.

(** The first run of the service, whose one write fails. *)
Definition woken_sync : DaySync := (on_event IndexChanged (load_memory None DaySync_new).1).1.

Definition first_run : option (DaySync * DayJob) :=
  match take_job (desk_service sample_date) woken_sync with (s, Some job) => Some (s, job) | _ => None end.

Definition after_first_run : DaySync :=
  match first_run with
  | Some (s, job) => end_run (take_job (desk_service sample_date) (finish_job job [failed_outcome] s).1.1).1
  | None => DaySync_new
  end.

Lemma first_run_happens : rtc day_step (DaySync_new, None, false) (after_first_run, None, false).
Proof.
  assert (match first_run with
    | Some (s, job) => is_none (take_job (desk_service sample_date) (finish_job job [failed_outcome] s).1.1).2 | None => false end = true)
    as Hr by (vm_compute; reflexivity).
  unfold after_first_run. revert Hr. unfold first_run.
  destruct (take_job (desk_service sample_date) woken_sync) as [s [job|]] eqn:Et; [|discriminate].
  destruct (take_job (desk_service sample_date) (finish_job job [failed_outcome] s).1.1) as [s' [job'|]] eqn:Ee; [discriminate|intros _].
  eapply rtc_l; [apply (step_load None); [reflexivity|discriminate]|].
  eapply rtc_l; [apply (step_event IndexChanged)|].
  eapply rtc_l; [eapply (step_take (desk_service sample_date)); [reflexivity|exact Et]|].
  eapply rtc_l; [apply (step_finish job [failed_outcome])|].
  apply rtc_once. refine (step_end (desk_service sample_date) _ _ _ _ Ee).
  assert (running (finish_job job [failed_outcome] s).1.1 = running woken_sync) as ->; [|reflexivity].
  rewrite (proj1 (proj2 (finish_job_state job [failed_outcome] s))). exact (proj1 (proj2 (take_job_state _ _ _ _ Et))).
Defined.

Lemma no_note_is_left_waiting_witness :
  map fst (retry_notes after_first_run) = [u "daily/2026-07-09.md"] ∧ failure after_first_run ≠ None ∧
  pending after_first_run = [] ∧ index_dirty after_first_run = false.
Proof.
  destruct (no_note_is_left_waiting after_first_run None false first_run_happens) as (Hrest & Hfail & _).
  assert (map fst (retry_notes after_first_run) = [u "daily/2026-07-09.md"]) as Hr by (vm_compute; reflexivity).
  split; [exact Hr|]. split; [apply Hfail; intros E; rewrite E in Hr; discriminate Hr|]. apply Hrest; vm_compute; reflexivity.
Defined.

Lemma run_ends_witness :
  ∃ s', day_run 2 (desk_service sample_date) (λ _, [failed_outcome]) woken_sync = Some s' ∧ running s' = false ∧
    pending s' = [] ∧ index_dirty s' = false.
Proof.
  destruct (run_ends (desk_service sample_date) (λ _, [failed_outcome]) woken_sync 2 (le_n 2)) as (s' & E & Hr & Hl & _).
  exists s'. split; [exact E|]. split; [exact Hr|]. exact (Hl eq_refl).
Defined.
