(* ===== verification/Findings.v ===== *)
(** * What modelling the code showed

    Concrete inputs on which the code does not do what it means to, or what a
    comment or a document says of it: the sync core and the rules over the
    instances of [Samples.v], the bridge over those of [ServiceSamples.v], the
    desk over the calendar of [Calendar.v]. *)

From S2P Require Import Prelude Strings External Samples Write Lines HeadingKey LineHash Sections.
From S2P Require Import Apply Mirror Rules.

(** Lines of a note, each ended by a line feed. *)
Definition note_of (lines : list str) : str := flat_map (λ line, line ++ [10%N]) lines.

Definition hash_of (line : str) : str := @line_hash toy_digest line.

Definition run_write (operation : Operation) (note : str) : str :=
  applied_text (@apply ascii_tables toy_digest (Some note)
    (Write_new (u "client") (u "note.md") operation) None).

(** [block_end] stops at the first line that is not indented, even in the
    middle of a fenced block: removing the task leaves the closing fence, which
    then opens one over the rest of the note. *)
Example remove_block_orphans_fence :
  run_write (RemoveBlock (Some (Heading_new (u "A"))) (hash_of (u "task")) 0)
    (note_of [u "## A"; u "- task"; u "  ```"; u "code"; u "  ```"; u "## B"])
  = note_of [u "## A"; u "code"; u "  ```"; u "## B"].
Proof. vm_compute. reflexivity. Qed.

(** [replace_line] on one of two equal lines, delivered twice, renames both. *)
Example replace_line_twice :
  let write := ReplaceLine None (hash_of (u "a")) 0 (u "- b") in
  run_write write (note_of [u "- a"; u "- a"]) = note_of [u "- b"; u "- a"] ∧
  run_write write (note_of [u "- b"; u "- a"]) = note_of [u "- b"; u "- b"].
Proof. vm_compute. split; reflexivity. Qed.

(** [validate] lets a heading hold a line break. *)
Example heading_with_line_break :
  validate (Write_new (u "client") (u "note.md")
    (Append (Some (Heading_new (u "A" ++ [10%N] ++ u "B"))) [] End false false None)) = Ok tt.
Proof. vm_compute. reflexivity. Qed.

(** A card number next to its expiry date, and an IBAN in groups of four, are
    accepted. *)
Example card_with_expiry_accepted :
  @looks_like_credential ascii_tables (u "card 4111 1111 1111 1111 1226") = None ∧
  @looks_like_credential ascii_tables (u "IBAN DE89 3704 0044 0532 0130 00") = None.
Proof. vm_compute. split; reflexivity. Qed.

(** A line that starts with a tag ends the do-not-keep section, although it is
    no heading. *)
Example tag_ends_section :
  @forbidden_topics ascii_tables
    (note_of [u "## What Thock should not keep"; u "#private"; u "- My salary"]) = [] ∧
  parse_heading (u "#private") = None.
Proof. vm_compute. split; reflexivity. Qed.

(** ** The bridge *)

From stdpp Require Import gmap.
From S2P Require Import Prelude Strings External Samples Write Dates Calendar Rules NoteIndex Rpc Http.
From S2P Require Import AgentMirror VaultFs Notes Memory Desk Server DeskTheory Outbox Client Delivery.
From S2P Require Import ServiceSamples ServiceWitnesses ClientWitnesses.

#[local] Existing Instances ascii_tables toy_digest gregorian gregorian_days wall_clock.
#[local] Existing Instances bits_seen tree_json tree_ops line_formats iso_dates.

(** A chunk size near the largest word stops the client: the sum of its offset
    and the size overflows ([None] is the panic). *)
Example chunked_answer_panics :
  parse_response (u "HTTP/1.1 200 OK" ++ CRLF ++ u "Transfer-Encoding: chunked" ++ CRLF ++ CRLF
                  ++ u "ffffffffffffffff" ++ CRLF ++ u "{}") = None.
Proof. vm_compute. reflexivity. Qed.

(** A server error is an answer of [request], not its [Err]. *)
Example server_error_is_an_answer :
  parse_response (write_response 503 (u "text/plain") (u "closing"))
  = Some (Ok (mkHttpResponse 503 (u "closing"))).
Proof. vm_compute. reflexivity. Qed.

(** An upload answered "pair again" is recorded as refused for good: after the
    machine has been paired again the file is not planned until it changes. *)
Definition unknown_machine (_ : str) (_ : list N) : result HttpResponse str := Ok (mkHttpResponse 401 []).
Definition unknown_pass : Pass :=
  (mirror_harness (λ _ _, Ok []) unknown_machine (λ _, Ok tt) (u "claude-code", DirNode agent_folder)
     empty_pass).1.

Example unpaired_upload_never_retried :
  map mirror_relative (plan_mirror agent_folder (scoped (u "claude-code/") MirrorState_default))
    = [u "MEMORY.md"; u "notes/git.md"] ∧
  uploaded_count (pass_report unknown_pass) = 0 ∧
  plan_mirror agent_folder (scoped (u "claude-code/") (pass_saved unknown_pass)) = [].
Proof. vm_compute. split_and!; reflexivity. Qed.

(** When the metadata of an existing note cannot be read, a write takes the note
    for missing and replaces it. *)
Definition forgetful (at_ : str) : FsFaults := {|
  metadata_fault path := if decide (path = at_) then Some [u "not now"] else None;
  load_fault _ := None;
  create_dir_fault _ := None;
  create_file_fault _ := None;
  write_fault _ := None;
  atomic_write_fault _ := None;
  remove_fault _ := None;
  missing_file path := [path ++ u " is missing"];
  already_exists path := [path ++ u " exists"];
|}.

Definition kept_facts (faults : FsFaults) : option str :=
  let first := (run_write (faults := no_faults) sample_env (CallRemember (u "Sails on Sundays"))
                  (call_with (u "a")) sample_desk).1 in
  let second := (run_write (faults := faults) sample_env (CallRemember (u "Drinks tea"))
                   (call_with (u "b")) first).1 in
  file_text <$> desk_files second !! u "memory/inbox.md".

Example hidden_note_is_replaced :
  contains (u "Sails on Sundays") (default [] (kept_facts no_faults)) = true ∧
  contains (u "Sails on Sundays") (default [] (kept_facts (forgetful (u "memory/inbox.md")))) = false ∧
  contains (u "Drinks tea") (default [] (kept_facts (forgetful (u "memory/inbox.md")))) = true.
Proof. vm_compute. split_and!; reflexivity. Qed.

(** A live write whose reply is lost is on the desk under one id, and queued for
    it under another, so the desk cannot know it again. *)
#[local] Existing Instances coded_ops wire_formats client_formats entry_json.

Definition unanswered_write : Proxy * Server * option JsonRpcResponse :=
  handle (round_trip (faults := no_faults) (ReplyLost (u "timed out")) sample_server_env) (λ _ w, w) (u "1.0")
    (client_env (u "2026-05-07T09:00:00Z")) asked_today (paired_proxy []) sample_server.

Example lost_reply_queues_again :
  map fst (map_to_list (seen_entries (server_desk unanswered_write.1.2))) = [u "call-8"] ∧
  map entry_id (entries (proxy_outbox unanswered_write.1.1)) = [u "call-9"].
Proof. vm_compute. split; reflexivity. Qed.

(** A read of the outbox that fails while one call is removed takes every other
    call with it; a write that is broken off leaves a line that swallows the next
    call, or loses the rest of the queue. *)
Definition call_named (id : str) : OutboxEntry :=
  mkOutboxEntry _ id (u "2026-05-06T10:00:00Z") (u "remember") (tree_array []) [].
Definition two_calls : outbox_file := proxy_outbox (paired_proxy [call_named (u "a"); call_named (u "b")]).
Definition unread : Io := mkIo None true None None.
Definition torn_at (n : nat) : Io := mkIo None false None (Some (n, u "disk full")).

Example outbox_faults_lose_calls :
  map entry_id (entries two_calls) = [u "a"; u "b"] ∧
  remove unread two_calls (u "a") = (None, Ok tt) ∧
  map entry_id (entries (remove (torn_at 9) two_calls (u "a")).1) = [] ∧
  (let f := (push (torn_at 9) None (call_named (u "c"))).1 in
   map entry_id (entries (push calm f (call_named (u "d"))).1)) = [].
Proof. vm_compute. split_and!; reflexivity. Qed.

(** ** The desk *)

From S2P Require Import Prelude Strings External HeadingKey Dates Samples Calendar Reminder.
From S2P Require Import PlanTime MarkdownSyntax DeskHeadings EventMarker DayPlan EventSync Backlog DeskWitnesses.

#[local] Existing Instances ascii_tables gregorian wall_clock.

(** Taking the markers out of a title can put one together. *)
Example sanitized_title_opens_a_marker :
  contains (u "<!--") (sanitize_title (u "<!<!----gcal:abc123-->")) = true.
Proof. vm_compute. reflexivity. Qed.

(** The lines of a note after a sync with one event. *)
Definition synced_with (event : CalendarEvent) (note : str) : str :=
  match reconcile note [event] (with_planner_heading (u "Day planner")) with
  | Edits edits _ => apply_line_edits note edits
  | _ => note
  end.

Definition open_planner : str := text_of_lines [u "## Day planner"; u "### Calendar"].

(** A title that reads as a cancelled one is written anew at every sync, and
    grows. *)
Definition growing : CalendarEvent := mkEvent (u "abc123") (u "~~a~~ (cancelled) b") (Some (540, 555)%N) EventDefault.

Example sync_is_not_idempotent :
  let once := synced_with growing open_planner in
  let twice := synced_with growing once in
  once = text_of_lines [u "## Day planner"; u "### Calendar"; u "- [ ] 09:00 - 09:15 ~~a~~ (cancelled) b <!--gcal:abc123-->"] ∧
  twice = text_of_lines [u "## Day planner"; u "### Calendar"; u "- [ ] 09:00 - 09:15 ~~a~~ (cancelled) b b <!--gcal:abc123-->"].
Proof. vm_compute. split; reflexivity. Qed.

(** An all-day event whose title starts with a time is reported as renamed by
    the user, at once and for good. *)
Definition all_day : CalendarEvent := mkEvent (u "abc123") (u "9:00 doors open") None EventDefault.

Example all_day_time_title_diverges :
  let once := synced_with all_day open_planner in
  reconcile once [all_day] (with_planner_heading (u "Day planner"))
  = Edits [] [mkDivergence (u "abc123") (u "- [ ] 9:00 doors open <!--gcal:abc123-->") (u "9:00 doors open")].
Proof. vm_compute. reflexivity. Qed.

(** A default duration near the largest word ends a block before it starts. *)
Example long_duration_ends_early :
  parse_leading_time (u "09:30 write") 4294967295 = Some (570, 569, u "write")%N.
Proof. vm_compute. reflexivity. Qed.

(** A checkbox with nothing after it is a task, and no task any more once it is
    given a text. *)
Definition bare_box : str := text_of_lines [u "## Soon"; u "- [ ]"].

Example renamed_bare_box_is_no_task :
  ∃ t, section (parse_backlog bare_box BacklogHeadings_default) Soon = [t] ∧
    let text' := apply_edits bare_box [rename_task_edit t (u "sail")] in
    text' = text_of_lines [u "## Soon"; u "- [ ]sail"] ∧
    section (parse_backlog text' BacklogHeadings_default) Soon = [].
Proof. eexists. split; [vm_compute; reflexivity|]. vm_compute. split; reflexivity. Qed.

(** The day's reminders. *)
From S2P Require Import Mirror EventSync ReminderIndex ReminderDay BridgeWitnesses.

Definition day_edit_rows (note : str) (reminder : DayReminder) : list nat :=
  map edit_row (reconciled note [reminder]).1.
Definition next_day_note (note : str) (reminder : DayReminder) : str := apply_line_edits note (reconciled note [reminder]).1.

(** A reminder whose text opens a comment gets a mirror that is not read back,
    and another one at every run. *)
Definition comment_reminder : DayReminder :=
  mkDayReminder garden_id (u "Home/Garden.md") (u "a <!~~-- b") (Some sample_due) Day_Open None false.

Example day_is_not_idempotent :
  let once := next_day_note (day_note_lines []) comment_reminder in
  let twice := next_day_note once comment_reminder in
  length (str_lines once) = 4 ∧ length (str_lines twice) = 5.
Proof. vm_compute. split; reflexivity. Qed.

(** The fresh mirror of an untimed reminder whose text starts with a time reads
    as timed, and is reported as edited by the person at once. *)
Definition timed_words : DayReminder :=
  mkDayReminder garden_id (u "Home/Garden.md") (u "09:30 call") (Some (mkDue sample_date None)) Day_Open None false.

Example fresh_mirror_is_frozen :
  let once := next_day_note (day_note_lines []) timed_words in
  map fr_text (reconciled (day_note_lines []) [timed_words]).2 = [] ∧
  map fr_text (reconciled once [timed_words]).2 = [u "09:30 call"].
Proof. vm_compute. split; reflexivity. Qed.

(** Words taken off the end of a home line stay on its mirrors. *)
Definition shorter_words : DayReminder :=
  mkDayReminder garden_id (u "Home/Garden.md") (u "water") (Some sample_due) Day_Open (Some (u "water plants")) false.

Example dropped_words_stay : followed_text (u "water plants") shorter_words = Some (u "water plants").
Proof. vm_compute. reflexivity. Qed.

(** A reminder ticked and opened again while the note cannot be written stays
    ticked there: the run that tries again no longer knows it was reopened. *)
Definition ticked_before : Remembered := mkRemembered (u "water plants") None true [].

Definition reopened_in (s : DaySync) : option (list bool) :=
  map reopened ∘ job_reminders <$> (take_job (desk_service sample_date) s).2.

Example lost_write_forgets_reopening :
  let first := take_job (desk_service sample_date) (dirty_sync [(garden_id, ticked_before)]) in
  let failed := end_run (finish_job todays_job [failed_outcome] first.1).1.1 in
  reopened_in (dirty_sync [(garden_id, ticked_before)]) = Some [true] ∧
  reopened_in (retry failed).1 = Some [false].
Proof. vm_compute. split; reflexivity. Qed.

(** The phone's copy of the vault. *)
From stdpp Require Import gmap.
From S2P Require Import Dates Calendar Paths Envelope VaultFs Notes VaultSync ServiceSamples ServiceWitnesses.

#[local] Existing Instances ascii_tables toy_digest gregorian gregorian_days wall_clock no_faults.
#[local] Existing Instances ascii_nfc toy_reader toy_aead plain_base64 no_rename_faults phone_server.

(** A note is removed, the pass that should say so fails, and meanwhile the note
    is written again: its path is then both to send and to remove, and the next
    pass sends it and takes it away. *)
Definition gone_job : Job := mkJob false false [] [(u "a.md", tt)].
Definition after_failure : VaultSync :=
  (finish_sync (Err (gone_job, Job_Fs [u "offline"])) false
     (entries_changed [(u "a.md", false)] (set_pending Job_default phone_started.1))).1.1.
Definition known_a : LocalState := mkLocalState 1 0 (<[u "a.md" := mkFileRecord 1 (u "blob") (u "old")]> ∅).

Example recreated_note_is_taken_away :
  let job := vs_pending after_failure in
  map fst (dirty job) = [u "a.md"] ∧ map fst (removed job) = [u "a.md"] ∧
  match run_job phone_draw phone_env (mkJob false false (dirty job) (removed job)) known_a None
          (mkWorld phone_files (mkPhoneServer (<[u "a.md" := (1%N, u "blob")]> ∅) ∅ []) 0 None 0) with
  | Some (w, Ok out) =>
      bool_decide (is_Some (w_files w !! u "a.md")) && bool_decide (ps_files (w_srv w) !! u "a.md" = None)
      && bool_decide (state_files (jo_state out) !! u "a.md" = None)
  | _ => false
  end = true.
Proof. vm_compute. split_and!; reflexivity. Qed.

(** When the metadata of a note cannot be read, a write of the phone to it starts
    from nothing and replaces it. *)
Definition phone_kept (faults : FsFaults) : option (list N) :=
  (apply_write (H8 := faults) sample_key (u "images") sample_vault phone_now phone_row phone_files).1
    !! u "a.md".

Example hidden_note_is_replaced_by_the_phone :
  phone_kept no_faults = Some (u "keep" ++ [10%N] ++ u "x" ++ [10%N]) ∧
  phone_kept (forgetful (u "a.md")) = Some (u "x" ++ [10%N]).
Proof. vm_compute. split; reflexivity. Qed.

(** A picture of the phone that was written but not sent is nothing new when its
    row comes again: it is acknowledged without having been sent. *)
Definition picture_write : Write := Write_new (u "id") (u "images/a.png") (PutFile (u "pixels") (plaintext_hash (u "pixels"))).

Example unsent_picture_is_acknowledged :
  let '(files, first) := apply_put_file (u "images") picture_write (u "pixels") (plaintext_hash (u "pixels")) ∅ in
  let '(_, again) := apply_put_file (u "images") picture_write (u "pixels") (plaintext_hash (u "pixels")) files in
  first = Ok (mkAppliedWrite (Some (u "images/a.png")) None) ∧ again = Ok AppliedWrite_default.
Proof. vm_compute. split; reflexivity. Qed.

(** A pass that ends after phone sync was turned off puts its records back. *)
Definition sent_outcome : JobOutcome := mkJobOutcome known_a (Some phone_info) 0 1 [] [] [] None.

Example pass_outlives_the_session :
  let off := turn_off (set_state known_a None phone_started.1) in
  let late := (finish_sync (Ok sent_outcome) false off).1.1 in
  session off = None ∧ status off = Off ∧ bool_decide (vs_state off = LocalState_default) = true ∧
  session late = None ∧ status late = UpToDate ∧ bool_decide (vs_state late = known_a) = true.
Proof. vm_compute. split_and!; reflexivity. Qed.

(** When the server's copy is gone the records stay, so that pairing again finds
    nothing to send. *)
Example lost_vault_keeps_records :
  let lost := (finish_sync (Err (Job_default, Job_Api (refused_with (u "vault_missing") None))) false (set_state known_a None phone_started.1)).1.1 in
  status lost = Off ∧ bool_decide (vs_state (paired_with (mkSession (u "token") sample_key) lost).1 = known_a) = true.
Proof. vm_compute. split; reflexivity. Qed.

(** A pairing that ends when the vault is gone starts a session and a worker all
    the same. The worker finds no vault and ends, still taken for running: when
    the vault is back, its session starts no worker. *)
Definition paired_late : VaultSync :=
  (take_work (paired_with (mkSession (u "token") sample_key) VaultSync_new).1).1.
Definition vault_back : VaultSync * bool :=
  start_finished (Some (u "token")) (Ok (Some sample_key)) LocalState_default
    (reload (Some (u "/vault")) paired_late).

Example late_pairing_stops_sync :
  (take_work (paired_with (mkSession (u "token") sample_key) VaultSync_new).1).2 = None ∧
  worker_running paired_late = true ∧
  is_some (session vault_back.1) = true ∧ Job_is_empty (vs_pending vault_back.1) = false ∧
  vault_back.2 = false.
Proof. vm_compute. split_and!; reflexivity. Qed.
